(* ===== verification/_CoqProject ===== *)
-Q . S2P
Prelude.v
StartupTask.v
TopologySort.v
StartupManager.v
StartupDispatch.v
DispatchInvariant.v
DispatchOrder.v
DispatchProgress.v
DispatchTheorems.v
MissionInfo.v
MissionList.v
MissionInfoMgr.v
AbilityCache.v
DataObs.v
DataObsExt.v
PendingWant.v
TaskHandler.v
MissionStorage.v
AppRecord.v
CacheProcess.v
AppModules.v
CacheTheorems.v
AppRunning.v
Permission.v
UriPerm.v
UriTheorems.v
UriRevoke.v
CallContainer.v
CallTheorems.v
CallProtocol.v
ConnectionState.v
ConnectionTheorems.v
ServiceConnect.v
ServiceTheorems.v
ServiceRuns.v
ServiceProperties.v
MissionManager.v
MissionLifecycle.v
MissionOps.v
MissionSteps.v
MissionInvariant.v
MissionCalm.v
MissionPlaces.v
MissionKeeps.v
MissionRuns.v
MissionTheorems.v
MissionEvents.v
MissionSamples.v
