(* ===== verification/Prelude.v ===== *)
(** * Verification of the ability runtime

    The ability runtime is the application framework of an operating system: the
    services that keep missions, abilities, want agents and data observers
    ([src/services]), and the native framework inside an application that starts
    its tasks and abilities ([src/frameworks/native]). This library models the
    parts below as executable definitions and proves what makes each correct.

    ** Parts and files

    - [Prelude]: undefined behaviour as an outcome, field assignment, machine
      integers, [std::list], [std::map] and ordering lemmas, and the automation.
    - Application startup ([frameworks/native/appkit/app_startup]).
      [StartupTask]: results, the one-shot completion callback and the states of
      a task ([startup_task.cpp], [startup_task_result.cpp]).
      [TopologySort]: [StartupTopologySort::Sort] ([startup_topologysort.cpp]).
      [StartupManager]: registration and the construction of requests
      ([startup_manager.cpp]) and [StartupTaskManager::Prepare]; tasks are shared
      objects in one heap.
      [StartupDispatch]: [StartupTaskDispatcher] ([startup_task_dispatcher.cpp]),
      the start of a task ([js_startup_task.cpp], [js_startup_task_executor.cpp])
      and [StartupTaskManager::Run] with its timeout; the state is a [World] with
      the heap, the live dispatchers, the callback objects, the replies the script
      side owes, the timers and the calls posted to the main thread. A dispatcher
      reads the task map of its manager by reference and goes with the manager;
      [dangling] records that one read the map of a manager that is gone.
      [DispatchInvariant], [DispatchOrder], [DispatchProgress], [DispatchTheorems]:
      its invariant, the proof that every step keeps it, that initialized tasks
      stay so, and the theorems.
    - Missions ([services/abilitymgr]).
      [MissionInfo]: the record of a mission, its JSON and parcel forms
      ([inner_mission_info.cpp], [mission_info.cpp]).
      [MissionList]: [Mission] and [MissionList] ([mission.cpp],
      [mission_list.cpp]) over shared missions and ability records.
      [MissionInfoMgr]: the ordered list of missions with its identifiers
      ([mission_info_mgr.cpp]), proved against the interface [MissionStore] of the
      persistent storage.
      [MissionStorage]: the storage itself, a file per mission
      ([mission_data_storage.cpp], [task_data_persistence_mgr.cpp]), over an
      interface [FileLib] of the file functions.
    - The mission list manager ([services/abilitymgr/src/mission_list_manager.cpp]) and
      the life of the ability records it drives ([ability_record.cpp]).
      [MissionManager]: the state, with lists, missions and records as shared objects,
      the monad of its operations and the queries; [MissionLifecycle]: loading,
      foreground, background, termination, results and deaths of a record;
      [MissionOps]: choosing and moving lists, starting, minimising, terminating;
      [MissionSteps]: the completions, timeouts, deaths, calls and clearing, and the
      steps of the whole manager. [MissionInvariant], [MissionCalm], [MissionPlaces],
      [MissionKeeps], [MissionRuns]: the invariant of the lists, the operations that
      leave them alone, what the others do to the place of every mission, and the proof
      that every operation keeps it; [MissionTheorems]: the theorems; [MissionEvents]:
      the order of what the manager asks of the applications; [MissionSamples]: runs and
      findings. The answers of the rest of the system during an operation are a record
      [Env], and what the manager tells it is a list of [Event]s.
    - Calls ([services/abilitymgr]).
      [CallContainer]: the clients of an ability started by call
      ([call_container.cpp], [call_record.cpp], [Resolve], [CallRequestDone] and
      [ReleaseCall] of [ability_record.cpp], and the calls of
      [mission_list_manager.cpp] that resolve and end a call), with records shared
      between containers and posted tasks. [CallTheorems]: the specification, a map
      from clients to waiting or connected, and what each call does;
      [CallProtocol]: deaths, posted tasks, the end of abilities and the runs.
    - Connections ([services/abilitymgr]).
      [ConnectionState]: who is connected to what, as observers are told
      ([connection_state_manager.cpp], [connection_state_item.cpp],
      [connection_observer_controller.cpp], [dlp_state_item.cpp]);
      [ConnectionTheorems]: what an observer knows.
      [ServiceConnect]: connections to services and extensions other than UI
      extensions ([ability_connect_manager.cpp], [connection_record.cpp], the
      connections and the states of services of [ability_record.cpp]) in one state
      [SvcWorld] with the heaps of connections and services, the maps, the tasks
      and what clients and services are sent; the answers of the configuration and
      of other services are a record [SvcEnv]. [ServiceTheorems]: its invariant
      and the steps that keep it; [ServiceRuns]: every operation keeps it;
      [ServiceProperties]: the theorems, executions and findings.
    - [AbilityCache]: the two-level cache of background extensions
      ([ability_cache_manager.cpp]).
    - Data observers ([services/dataobsmgr]).
      [DataObs]: observers by URI string ([dataobs_mgr_inner.cpp]);
      [DataObsExt]: observers on the tree of URIs ([dataobs_mgr_inner_ext.cpp]).
    - [PendingWant]: want agents ([pending_want_manager.cpp],
      [pending_want_record.cpp], [pending_want_key.cpp]).
    - [TaskHandler]: named tasks and events posted to a queue
      ([services/common/src/task_handler_wrap.cpp], [queue_task_handler_wrap.cpp],
      [ffrt_task_handler_wrap.cpp], [event_handler_wrap.cpp]); the runs of a
      handler interleave submissions, cancellations and the start of tasks.
    - Applications ([services/appmgr]).
      [AppRecord]: the running records of processes, modules and abilities in one
      state [AppWorld] ([app_running_record.cpp], [module_running_record.cpp],
      [ability_running_record.cpp]), with the modules that a process gets and loses;
      [AppModules]: what that changes.
      [CacheProcess]: the queue of cached processes and the sets per application
      ([cache_process_manager.cpp]); [CacheTheorems]: its theorems.
      [AppRunning]: the end of an ability that puts its process into the cache
      ([PrepareTerminate] and what it calls).
    - [Permission]: the checks of a caller and of a start, connection or call
      ([services/common/src/permission_verification.cpp]); the answers of the access
      token service during a call are a record [CallEnv].
    - URI permissions ([services/uripermmgr]).
      [UriPerm]: the records of grants, verification, granting and revoking
      ([uri_permission_manager_stub_impl.cpp], [tokenid_permission.cpp],
      [uri_permission_utils.cpp]); the answers of the other services during a call
      are a record [UriEnv]. [UriTheorems]: verification, the memo of permissions and
      grants; [UriRevoke]: revocations and the service as a whole.

    The startup parts call each other: a request is built by the manager, sorted
    by the topological sort and run by the dispatcher, whose callbacks reach the
    listener through the manager. The mission information manager keeps the
    records of [MissionInfo]; mission lists hold the running missions. The mission list
    manager moves missions between lists, keeps their records in the mission information
    manager and drives the ability records. The storage
    of missions writes the JSON form of [MissionInfo] and posts its saves and
    deletions as tasks. The cache of processes is entered from the termination of
    an ability and notifies through a delayed task of [TaskHandler]. The service of
    URI permissions asks the checks of [Permission]. The connection manager keeps
    services it may reuse in the ability cache and reports every connection to the
    connection states. The call containers, the data observers and the want agents
    are independent of the rest.

    ** What is proved

    - Startup. The sort terminates and decides missing dependencies and cycles
      (C1), and returns the children and the queue the dispatcher needs (C2); a
      request holds exactly what its tasks need, transitively (C3,
      [BuildStartupTaskManager_closure]), and preparing one fails only on a cycle, which
      is reported ([Prepare_built]). A prepared request that
      runs alone calls the [init] of a task at most once and after every dependency
      reported success, whatever the order of the replies, and its
      [onDependencyCompleted] once per dependency when the script object has one; this
      as long as no dispatcher has read the map of a manager that is gone, and none does
      when the script engine can start every task (C26), but a child that fails at once
      makes it do so ([dangling_map]). When every task can be started and no reply is a
      failure, the request reports success when all tasks are initialized, at the latest
      after one reply per task, unless its timeout expires before, which ends it (C27); a
      failure of a task that no other request waits for reaches the listener with the
      name of the task (C28), except that of a start on the task pool, which is lost
      ([pool_start_failure_is_silent]).
    - Missions. The JSON and parcel forms are read back (C6, C8) and malformed
      JSON is refused (C7); every reachable state of the manager is consistent
      (C9), new identifiers are the least free ones
      ([GenerateMissionId_least]), the manager refines a
      finite map ordered by time (C11), clearing and the recent missions are what
      the interface says ([DeleteAllMissionInfos_clears],
      [GetMissionInfos_recent]). Mission lists keep their missions once and in
      order ([mission_list_ops]), uninstallation removes and marks exactly the missions of the
      application ([HandleUnInstallApp_spec]), and the most recent and the earliest mission are found
      ([GetRecentStandardMission_spec], [FindEarliestMission_spec]). When the file
      functions do not fail and the missions saved are ones the storage can write
      ([storable]), a load of the storage, once the posted
      tasks have run, yields exactly the missions of the map
      the calls build in the order their tasks ran (C40); two tasks for one mission
      may run in either order ([deleted_mission_returns]).
    - The mission list manager. In every state reached from its start by operations that
      keep the conditions [steady] ([reaches_steadily]) each mission is in
      at most one list, the one it names as its owner, with a record that exists, and
      every such operation is defined (C5). The manager does not check these conditions
      itself: the mission that the start of an ability of the
      launcher reuses is in the launcher list, an ability that is moved to the background is the top one of
      its list, and the launcher that is brought back is in the launcher list. In the same
      states moving a
      mission to the front makes it the top one and loses none (C15), and the death of an
      ability takes the mission found by its number and no other (C31); with two missions
      of one number that may be the wrong one ([death_takes_another]). Without any condition, the
      application manager is asked to terminate an ability only after the ability was
      asked to terminate, and that only after it was moved to the background (C29). Executions show what happens otherwise: a mission in two lists
      ([in_two_lists], [background_below_top]), one lost by a start that returns early
      ([caller_lost]), two missions with one number ([second_singleton],
      [second_specified]), and a launcher that is not loaded again after its death
      ([dead_launcher_not_loaded]).
    - Calls. Whatever is called, answered, released and dies, the containers
      implement the map from clients to waiting or connected and tell each client
      what the map says (C4).
    - Connections. An observer that asks and then follows the notifications holds
      what asking again answers (C18), except for a data ability called without a
      token ([unnamed_caller_disconnects]); the retries of the initialization end
      (C38). In every run of the connection manager the map of callbacks, the lists
      of the services and the death recipients agree and a callback has one
      connection to a service (C10), and no
      connection ends without its client being told, unless the client died (C25).
      Connecting always
      returns and leaves exactly one connection (C30); the end of the last
      connection of an active service that was never started, when the service itself
      reports it from the service map, is told to the client and terminates the service
      (C32); the death
      of a client leaves only connections that wait for their services (C33).
      Executions show a completion told after the end ([late_completion]), a window
      extension that is never disconnected ([window_never_disconnected]), a service
      that is never loaded ([never_loaded]) and restarts without bound
      ([launcher_restarts]).
    - Cache. Under its operations the cache is a least-recently-used cache with a
      quota per application (C14); the deletion of services by bundle steps an
      invalidated iterator ([DeleteInvalidServiceRecord_undefined]).
    - Observers. Observers and death recipients agree (C16) except after an
      unregistration through another proxy ([unregister_drops_recipient]), registration decides by its
      limit ([HandleRegisterObserver_spec]); on the tree a change notifies exactly the registrations that
      cover it (C19), and recipients are counted (C20).
    - Want agents. At most one pending want per key (C21), the flags of a request
      decide creation, update and cancellation (C22), a one-time want is sent once
      (C23), the parameters sent are the stored ones extended by the sender
      ([BuildSendWant_params]),
      and sending is defined except for an empty list of wants
      ([SenderInner_defined]).
    - Tasks. A task starts at most once and never after a successful cancellation
      (C34).
    - Cached processes. Where a read through the reference to a popped element still
      gives the element ([popped_kept]), no call is undefined, the queue has no
      duplicates and it agrees with the sets per
      application as long as no queued process enters again (C35); its length is
      bounded and the oldest leave; by the language the call is then undefined (C36).
      The check for service extensions answers what it remembers: the same as a search
      as long as no module with a service comes and none goes after the first check
      (C37), and a stale answer otherwise ([service_added_after_check]). The termination of the last ability can be prepared twice, which
      queues the process twice ([PrepareTerminate_twice]), and the delayed
      notification of a process is cancelled by the next one
      ([cached_notification_lost]).
    - Permissions. A caller confined to the foreground can start from the background
      only what the policy lists (C24); more permissions never turn an allowed start
      into a refused one ([checks_monotone]).
    - URI permissions. The records are well formed after any calls and decide what is
      verified (C13); from no records, what is verified rests on an earlier call that
      was authorised to grant it, for the URI or a directory above it (C12), although a
      revocation can uncover such a directory ([revocation_uncovers]); revoking
      everything of a token leaves exactly the other records (C39); the end of an
      ability takes its records (C17) unless two grantors shared a URI with it
      ([second_grantor_survives]); a file of another device is verified against the
      outermost directory granted ([VerifySubDirUriPermission_outermost]).

    ** Conventions

    Integers are [Z] with the wrap of their width written out ([u32], [i32]);
    pointers are addresses into explicit heaps, [None] is null; a function the
    standard may leave undefined returns an [outcome]. Loops that are not
    structural take fuel, and each is proved to need no more than it gets: the
    sort one step per task ([sort_loop_terminates]), the closure of dependencies
    one per dependency ([add_loop_spec]), nested calls of [Dispatch] one per task
    of the request ([Dispatch_inv]), moving the missions above one to the default lists
    one per mission of the list ([pop_above_spec]). Iteration over [std::map] is by key order
    ([map_iter]); that of a hash map is a parameter that gives some permutation of its
    entries ([visit]). Code outside the repository is a parameter: JSON and parcels,
    wants, URIs, the script engine, the bundle manager, access tokens, the storage
    service, the start calls of the ability manager, the cancellation of the task
    runtime and the file functions;
    what the proofs use of it is a named hypothesis with an instance that satisfies
    it. What a read through a dangling reference gives is a parameter too
    ([popped_front]), and so is the value of a member that is not initialized
    ([uninit_mode]). Locks are not modelled: every operation runs under
    the lock of its component or on one thread, so operations are steps.

    ** Not modelled

    IPC proxies and stubs, script bindings, the permission checks the entry points
    make before they call the parts above (only [UriPerm] includes its own), dumps, snapshots,
    the simulator, tools and tests. The dispatcher theorems are about a request
    that runs while no other dispatcher is alive; tasks initialized or running
    from earlier requests are included. The storage of missions is no instance
    of [MissionStore], whose laws hold in every state: it satisfies them on the
    states its calls reach, which is what C40 shows. Of the connection
    manager, UI extensions with their sessions and windows are left out, and so are
    reports and messages that change nothing in it; a record lives as long as
    anything may name it, and a posted task may run at any time. The same holds of
    the mission list manager, of which starting windows and animations, the pixels of
    snapshots, listeners as objects, running information, collaborators, exit reasons and
    results over devices are left out, as they change nothing in its lists. Not modelled
    at all are the ability manager service, which dispatches to the parts above, the
    life cycle under the scene board, the framework inside an application other than its
    startup, UI extensions, the client side of connections and the application manager
    other than its cache of processes. *)

From stdpp Require Import prelude gmap strings list sorting.
From Stdlib Require Import ZArith Lia.

Declare Scope rt_scope.
Delimit Scope rt_scope with rt.
#[global] Open Scope rt_scope.

(** ** Outcomes: a C++ call that may run into undefined behaviour

    [Undef] stands for the executions the C++ standard leaves undefined: a
    null dereference, [front()] of an empty list, a step of an invalidated
    iterator, a read through a dangling reference. *)

Inductive outcome (A : Type) : Type :=
| Ret (a : A)
| Undef.
Arguments Ret {A} _.
Arguments Undef {A}.

Definition obind {A B : Type} (c : outcome A) (k : A → outcome B) : outcome B :=
  match c with
  | Ret a => k a
  | Undef => Undef
  end.

Notation "'let*' x := c 'in' k" := (obind c (λ x, k))
  (at level 10, x pattern, c at level 100, k at level 200) : rt_scope.

(** The call is defined. *)
Definition is_ret {A : Type} (c : outcome A) : Prop := ∃ a, c = Ret a.

(** Dereference of a possibly null pointer. *)
Definition deref {A : Type} (p : option A) : outcome A :=
  match p with
  | Some a => Ret a
  | None => Undef
  end.

(** ** Field assignment

    [r <| f := v |>] is the record [r] after the assignment [r.f = v].  A record
    declares its reconstruction from its fields once, and the setter of every
    field is derived from it. *)

Class Reconstruct (R : Type) := reconstruct : R → R.

Class Assignable {R E : Type} (f : R → E) := assign : (E → E) → R → R.
Arguments assign {R E} f {_} _ _.

Ltac derive_assign :=
  lazymatch goal with
  | |- @Assignable ?R ?E ?f =>
      let i := constr:(_ : Reconstruct R) in
      let body := eval hnf in i in
      let abstracted := eval pattern f in body in
      lazymatch abstracted with
      | ?g _ => exact (λ h : E → E, g (λ r : R, h (f r)))
      end
  end.

#[global] Hint Extern 1 (Assignable _) => derive_assign : typeclass_instances.

#[warnings="-postfix-notation-not-level-1"]
Notation "r <| f := v |>" := (assign f (λ _, v) r)
  (at level 12, left associativity, format "r  <| f  :=  v |>") : rt_scope.
#[warnings="-postfix-notation-not-level-1"]
Notation "r <| f ::= g |>" := (assign f g r)
  (at level 12, left associativity, format "r  <| f  ::=  g |>") : rt_scope.

(** ** Machine integers *)

Definition UINT32_MOD : Z := 4294967296.
Definition INT_MAX : Z := 2147483647.

(** The value of a [uint32_t] expression whose mathematical value is [z]. *)
Definition u32 (z : Z) : Z := (z mod UINT32_MOD)%Z.

(** The conversion of an integer to [int32_t]. *)
Definition i32 (z : Z) : Z := ((z + 2147483648) mod UINT32_MOD - 2147483648)%Z.

Lemma u32_small (z : Z) : (0 ≤ z < UINT32_MOD)%Z → u32 z = z.
Proof. intros H. unfold u32. by apply Z.mod_small. Qed.

Lemma u32_range (z : Z) : (0 ≤ u32 z < UINT32_MOD)%Z.
Proof. unfold u32. apply Z.mod_pos_bound. unfold UINT32_MOD. lia. Qed.

Lemma i32_small (z : Z) : (-2147483648 ≤ z ≤ INT_MAX)%Z → i32 z = z.
Proof.
  intros H. unfold i32, UINT32_MOD, INT_MAX in *. rewrite Z.mod_small by lia. lia.
Qed.

Lemma u32_i32 (z : Z) : u32 (i32 z) = u32 z.
Proof.
  unfold u32, i32. rewrite Zminus_mod_idemp_l. f_equal. lia.
Qed.

(** ** [std::string::find] *)

Definition npos : Z := 18446744073709551615.

Definition find (s pat : string) : Z :=
  match String.index 0 pat s with
  | Some n => Z.of_nat n
  | None => npos
  end.

(** [size_t] arithmetic *)
Definition usize (z : Z) : Z := (z mod 18446744073709551616)%Z.

(** ** Sequences: [std::find_if] and the erasure of the first match *)

Section FindErase.
Context {A : Type}.
Implicit Types (p : A → bool) (l : list A).

(** [std::find_if]: the first element that satisfies [p]. *)
Fixpoint find_if p l : option A :=
  match l with
  | [] => None
  | x :: l' => if p x then Some x else find_if p l'
  end.

(** The loop that erases the first element that satisfies [p] and stops. *)
Fixpoint erase_first p l : list A :=
  match l with
  | [] => []
  | x :: l' => if p x then l' else x :: erase_first p l'
  end.

Lemma find_if_Some p l x :
  find_if p l = Some x →
  ∃ l1 l2, l = l1 ++ x :: l2 ∧ p x = true ∧ Forall (λ y, p y = false) l1.
Proof.
  induction l as [|y l IH]; simpl; [done|].
  destruct (p y) eqn:E.
  - intros [= ->]. exists [], l. auto.
  - intros H. destruct (IH H) as (l1 & l2 & -> & Hp & Hl).
    exists (y :: l1), l2. auto.
Qed.

Lemma find_if_elem p l x : find_if p l = Some x → x ∈ l ∧ p x = true.
Proof.
  intros (l1 & l2 & -> & Hp & _)%find_if_Some. split; [|done].
  apply elem_of_app. right. apply list_elem_of_here.
Qed.

Lemma find_if_None p l : find_if p l = None ↔ ∀ x, x ∈ l → p x = false.
Proof.
  induction l as [|y l IH]; simpl.
  - split; [|done]. intros _ x []%not_elem_of_nil.
  - destruct (p y) eqn:E.
    + split; [done|]. intros H. specialize (H y (list_elem_of_here _ _)). congruence.
    + rewrite IH. split.
      * intros H x [->|Hx]%elem_of_cons; auto.
      * intros H x Hx. by apply H, list_elem_of_further.
Qed.

Lemma find_if_is_Some p l : (∃ x, x ∈ l ∧ p x = true) → ∃ x, find_if p l = Some x.
Proof.
  intros (x & Hx & Hp). destruct (find_if p l) as [y|] eqn:E; [eauto|].
  apply find_if_None with (x := x) in E; congruence.
Qed.

Lemma erase_first_app p l1 x l2 :
  Forall (λ y, p y = false) l1 → p x = true →
  erase_first p (l1 ++ x :: l2) = l1 ++ l2.
Proof. induction 1 as [|y l1 Hy _ IH]; intros Hx; simpl; rewrite ?Hx, ?Hy, ?IH by done; done. Qed.

Lemma erase_first_none p l : (∀ x, x ∈ l → p x = false) → erase_first p l = l.
Proof.
  induction l as [|y l IH]; intros H; simpl; [done|].
  rewrite (H y) by apply list_elem_of_here. f_equal. apply IH.
  intros x Hx. by apply H, list_elem_of_further.
Qed.

Lemma erase_first_Permutation p l x :
  find_if p l = Some x → l ≡ₚ x :: erase_first p l.
Proof.
  intros (l1 & l2 & -> & Hp & Hl)%find_if_Some.
  rewrite erase_first_app by done. by rewrite Permutation_middle.
Qed.

Lemma erase_first_sublist p l : sublist (erase_first p l) l.
Proof.
  induction l as [|y l IH]; simpl; [done|].
  destruct (p y); constructor; done.
Qed.

Lemma elem_of_erase_first p l x : x ∈ erase_first p l → x ∈ l.
Proof. intros H. eapply elem_of_sublist; [exact H|apply erase_first_sublist]. Qed.

Lemma erase_first_keep p l x : x ∈ l → p x = false → x ∈ erase_first p l.
Proof.
  induction l as [|y l IH]; simpl; [by intros ?%not_elem_of_nil|].
  intros [->|Hx]%elem_of_cons Hp; [rewrite Hp; apply list_elem_of_here|].
  destruct (p y); [done|]. apply list_elem_of_further. auto.
Qed.

Lemma length_erase_first p l x :
  find_if p l = Some x → length l = S (length (erase_first p l)).
Proof. intros H. apply erase_first_Permutation, Permutation_length in H. done. Qed.

End FindErase.

(** ** Ordered insertion and stable sorting ([std::list::sort]) *)

Section Sorting.
Context {A : Type} (before : A → A → bool).
Implicit Types (x y : A) (l : list A).

(** Insertion in front of the first element that satisfies [stop]: the loop that
    breaks at an iterator, and the [insert] at it. *)
Fixpoint insert_at (stop : A → bool) x l : list A :=
  match l with
  | [] => [x]
  | y :: l' => if stop y then x :: l else y :: insert_at stop x l'
  end.

(** The stable sort by [before]: an element stays in front of the later elements
    that are not strictly before it. *)
Fixpoint stable_sort l : list A :=
  match l with
  | [] => []
  | x :: l' => insert_at (λ y, negb (before y x)) x (stable_sort l')
  end.

Lemma insert_at_Permutation stop x l : insert_at stop x l ≡ₚ x :: l.
Proof.
  induction l as [|y l IH]; simpl; [done|]. destruct (stop y); [done|].
  rewrite IH. constructor.
Qed.

Lemma elem_of_insert_at stop x y l : y ∈ insert_at stop x l ↔ y = x ∨ y ∈ l.
Proof. rewrite insert_at_Permutation. apply elem_of_cons. Qed.

Lemma stable_sort_Permutation l : stable_sort l ≡ₚ l.
Proof. induction l as [|x l IH]; simpl; [done|]. by rewrite insert_at_Permutation, IH. Qed.

(** The insertion keeps an ordered list ordered when [stop] holds of the
    elements that may follow [x] and fails on those that may precede it. *)
Lemma insert_at_sorted (R : A → A → Prop) stop x l :
  (∀ y z, R x y → R y z → R x z) →
  (∀ y, y ∈ l → stop y = true → R x y) → (∀ y, y ∈ l → stop y = false → R y x) →
  StronglySorted R l → StronglySorted R (insert_at stop x l).
Proof.
  intros Htr. induction l as [|y l IH]; intros Hs Hn Hl; simpl; [repeat constructor|].
  inversion Hl as [|?? Hl' Hy]; subst. destruct (stop y) eqn:E.
  - constructor; [done|]. assert (R x y) by (apply Hs; [left|done]).
    constructor; [done|]. eapply Forall_impl; [exact Hy|]. eauto.
  - constructor; [apply IH; [| |done]; intros; [apply Hs|apply Hn]; (done || by right)|].
    rewrite insert_at_Permutation. constructor; [|done]. apply Hn; [left|done].
Qed.

Lemma stable_sort_sorted (R : A → A → Prop) l :
  Transitive R →
  (∀ x y, before x y = true → R x y) → (∀ x y, before x y = false → R y x) →
  StronglySorted R (stable_sort l).
Proof.
  intros Htr Hb Hnb. induction l as [|x l IH]; simpl; [constructor|].
  apply insert_at_sorted; [eauto| | |done]; intros y _ H.
  - apply Hnb. by apply negb_true_iff.
  - apply Hb. by apply negb_false_iff.
Qed.
End Sorting.

(** ** Sublists *)

Lemma sublist_fmap_mono {A B : Type} (f : A → B) (k l : list A) :
  sublist k l → sublist (f <$> k) (f <$> l).
Proof. induction 1; simpl; by constructor. Qed.

Lemma sublist_filter_mono {A : Type} (P : A → Prop) `{∀ x, Decision (P x)} (k l : list A) :
  sublist k l → sublist (filter P k) (filter P l).
Proof.
  induction 1 as [|x k l Hs IH|x k l Hs IH]; [done| |]; rewrite ?filter_cons; case_decide;
    try constructor; done.
Qed.

Lemma StronglySorted_sublist {A : Type} (R : A → A → Prop) (k l : list A) :
  sublist k l → StronglySorted R l → StronglySorted R k.
Proof.
  induction 1 as [|x k l Hs IH|x k l Hs IH]; intros Hl; [done| |];
    inversion Hl as [|?? Hl' Hx]; subst; [|auto].
  constructor; [auto|]. rewrite Forall_forall in Hx |- *.
  intros y Hy. apply Hx. by eapply elem_of_sublist.
Qed.

(** A filter that every element passes, or none. *)
Lemma filter_all {A : Type} (P : A → Prop) `{∀ x, Decision (P x)} (l : list A) :
  (∀ x, x ∈ l → P x) → filter P l = l.
Proof.
  intros Hl. induction l as [|x l IH]; [done|].
  rewrite filter_cons_True by apply Hl, list_elem_of_here. f_equal. apply IH.
  intros y Hy. by apply Hl, list_elem_of_further.
Qed.

(** Filters that agree on the elements of a list. *)
Lemma list_filter_iff_local {A : Type} (P Q : A → Prop)
    `{∀ x, Decision (P x), ∀ x, Decision (Q x)} (l : list A) :
  (∀ x, x ∈ l → P x ↔ Q x) → filter P l = filter Q l.
Proof.
  intros Hl. induction l as [|x l IH]; [done|]. rewrite !filter_cons.
  rewrite IH by (intros y Hy; by apply Hl, list_elem_of_further).
  pose proof (Hl x (list_elem_of_here _ _)). repeat case_decide; tauto.
Qed.

Lemma filter_none {A : Type} (P : A → Prop) `{∀ x, Decision (P x)} (l : list A) :
  (∀ x, x ∈ l → ¬ P x) → filter P l = [].
Proof.
  intros Hl. induction l as [|x l IH]; [done|].
  rewrite filter_cons_False by apply Hl, list_elem_of_here. apply IH.
  intros y Hy. by apply Hl, list_elem_of_further.
Qed.

(** ** Occurrences of an element in a list *)

Definition occ {A : Type} `{EqDecision A} (x : A) (l : list A) : nat :=
  length (filter (x =.) l).

Section Occ.
Context {A : Type} `{EqDecision A}.
Implicit Types (x y : A) (l k : list A).

Lemma occ_cons x y l : occ x (y :: l) = (if decide (x = y) then S (occ x l) else occ x l).
Proof. unfold occ. rewrite filter_cons. by case_decide. Qed.

Lemma occ_app x l k : occ x (l ++ k) = (occ x l + occ x k)%nat.
Proof. unfold occ. by rewrite filter_app, length_app. Qed.

Lemma occ_zero x l : occ x l = 0%nat ↔ x ∉ l.
Proof.
  induction l as [|y l IH]; [split; [intros _; apply not_elem_of_nil|done]|].
  rewrite occ_cons, not_elem_of_cons, <-IH. case_decide; intuition lia.
Qed.

Lemma occ_pos x l : (0 < occ x l)%nat ↔ x ∈ l.
Proof.
  destruct (decide (x ∈ l)) as [Hx|Hx].
  - split; [done|]. intros _. destruct (occ x l) eqn:E; [|lia]. by apply occ_zero in E.
  - apply occ_zero in Hx as Hx'. rewrite Hx'. split; [lia|done].
Qed.

Lemma occ_replicate x y n : occ x (replicate n y) = if decide (x = y) then n else 0%nat.
Proof.
  induction n as [|n IH]; [by case_decide|]. simpl.
  rewrite occ_cons, IH. by case_decide.
Qed.

(** A vector that holds [f k] copies of each [k] of a duplicate-free list. *)
Lemma occ_bind_replicate (f : A → nat) x l :
  NoDup l →
  occ x (l ≫= λ y, replicate (f y) y) = if decide (x ∈ l) then f x else 0%nat.
Proof.
  induction 1 as [|y l Hy _ IH]; [done|].
  rewrite bind_cons, occ_app, occ_replicate, IH.
  destruct (decide (x = y)) as [->|Hne].
  - rewrite (decide_False (P := y ∈ l)), decide_True by (done || apply list_elem_of_here). lia.
  - destruct (decide (x ∈ l)) as [Hx|Hx];
      [rewrite decide_True by (by apply list_elem_of_further)
      |rewrite decide_False by (by rewrite not_elem_of_cons)]; lia.
Qed.

(** Marking one more element splits its occurrences off. *)
Lemma length_filter_not_in_snoc (marked : list A) x l :
  x ∉ marked →
  length (filter (.∉ marked) l) = (length (filter (.∉ marked ++ [x]) l) + occ x l)%nat.
Proof.
  intros Hx. induction l as [|y l IH]; [done|].
  rewrite occ_cons, !filter_cons.
  assert (y ∈ marked ++ [x] ↔ y ∈ marked ∨ y = x) as Hin
    by (rewrite elem_of_app, list_elem_of_singleton; done).
  destruct (decide (x = y)), (decide (y ∉ marked)), (decide (y ∉ marked ++ [x]));
    subst; simpl; try lia; exfalso; intuition congruence.
Qed.
End Occ.

(** ** The order of strings: [operator<] on [std::string] *)

Lemma string_leb_trans (a b c : string) :
  String.leb a b = true → String.leb b c = true → String.leb a c = true.
Proof.
  unfold String.leb. revert b c.
  induction a as [|x a IH]; intros [|y b] [|z c]; simpl; try done.
  unfold Ascii.compare. specialize (IH b c).
  destruct (N.compare_spec (Ascii.N_of_ascii x) (Ascii.N_of_ascii y)),
    (N.compare_spec (Ascii.N_of_ascii y) (Ascii.N_of_ascii z)),
    (N.compare_spec (Ascii.N_of_ascii x) (Ascii.N_of_ascii z));
    try done; try (exfalso; lia); auto.
Qed.

Lemma string_leb_refl (a : string) : String.leb a a = true.
Proof. by destruct (String.leb_total a a). Qed.

Lemma string_ltb_leb (a b : string) : String.ltb a b = negb (String.leb b a).
Proof.
  unfold String.ltb, String.leb. rewrite String.compare_antisym.
  by destruct (String.compare b a).
Qed.

Lemma string_ltb_le (a b : string) : String.ltb a b = true → String.leb a b = true.
Proof. unfold String.ltb, String.leb. by destruct (String.compare a b). Qed.

(** ** Concatenation, prefixes and the first occurrence in a string *)

Lemma string_app_cons c (s t : string) : String c s +:+ t = String c (s +:+ t).
Proof. done. Qed.

Lemma length_app_string (s t : string) : String.length (s +:+ t) = (String.length s + String.length t)%nat.
Proof. induction s as [|c s IH]; [done|]. rewrite string_app_cons. cbn. by rewrite IH. Qed.

Lemma substring_full (s t : string) : String.substring 0 (String.length s) (s +:+ t) = s.
Proof.
  induction s as [|c s IH]; [by destruct t|]. rewrite string_app_cons. cbn. by rewrite IH.
Qed.

Lemma prefix_refl (s : string) : String.prefix s s = true.
Proof. induction s as [|c s IH]; [done|]. cbn. by destruct (Ascii.ascii_dec c c). Qed.

Lemma prefix_app (s t : string) : String.prefix s (s +:+ t) = true.
Proof.
  induction s as [|c s IH]; [by destruct t|]. rewrite string_app_cons. cbn. by destruct (Ascii.ascii_dec c c).
Qed.

Lemma string_app_inv_l (s t t' : string) : s +:+ t = s +:+ t' → t = t'.
Proof. induction s as [|c s IH]; [done|]. rewrite !string_app_cons. intros [= H]. auto. Qed.

Lemma string_app_assoc (s t u : string) : (s +:+ t) +:+ u = s +:+ (t +:+ u).
Proof. induction s as [|c s IH]; [done|]. rewrite !string_app_cons. by rewrite IH. Qed.

Lemma prefix_split (p s : string) : String.prefix p s = true → ∃ r, s = p +:+ r.
Proof.
  revert s. induction p as [|c p IH]; intros s; [by exists s|]. destruct s as [|x s]; [done|]. cbn.
  destruct (Ascii.ascii_dec c x) as [->|]; [|done]. intros [r ->]%IH. by exists r.
Qed.

Lemma index_split (pat s : string) n :
  String.index 0 pat s = Some n →
  ∃ r, s = String.substring 0 n s +:+ pat +:+ r ∧ String.length (String.substring 0 n s) = n.
Proof.
  revert n. induction s as [|c s IH]; intros n.
  - destruct pat; [|done]. intros [= <-]. by exists "".
  - cbn [String.index]. destruct (String.prefix pat (String c s)) eqn:Hp.
    + intros [= <-]. apply prefix_split in Hp as [r Hr]. exists r. by rewrite Hr; destruct (pat +:+ r).
    + destruct (String.index 0 pat s) as [m|] eqn:Hi; [|done]. intros [= <-].
      destruct (IH m eq_refl) as (r & Hs & Hl). exists r. cbn [String.substring].
      rewrite string_app_cons. split; [by f_equal|]. cbn. by rewrite Hl.
Qed.

Lemma index_zero (pat s : string) : String.index 0 pat s = Some 0%nat ↔ String.prefix pat s = true.
Proof.
  destruct s as [|c s]; [by destruct pat|]. cbn [String.index].
  destruct (String.prefix pat (String c s)); [done|]. by destruct (String.index 0 pat s).
Qed.

(** Two decompositions of a string at a character: the longer first part extends the
    shorter one. *)
Lemma string_app_longer (a b x y : string) c :
  a +:+ String c x = b +:+ String c y → (String.length a < String.length b)%nat →
  ∃ z, b = a +:+ String c z.
Proof.
  revert b. induction a as [|i a IH]; intros [|j b]; cbn [String.length]; intros He Hl; try lia.
  - change ("" +:+ String c x) with (String c x) in He. rewrite string_app_cons in He.
    injection He as <- _. by exists b.
  - rewrite !string_app_cons in He. injection He as <- He.
    destruct (IH b He) as [z ->]; [lia|]. by exists z.
Qed.

(** Strings with a common beginning are ordered by the first characters that
    differ. *)
Lemma string_compare_app (s t u : string) : String.compare (s +:+ t) (s +:+ u) = String.compare t u.
Proof.
  induction s as [|c s IH]; [done|]. rewrite !string_app_cons. cbn [String.compare].
  unfold Ascii.compare. by rewrite N.compare_refl.
Qed.

(** ** [std::map]: a finite map iterated in the order of its keys *)

Class KeyOrder (K : Type) := key_leb : K → K → bool.

Class KeyOrderLaws (K : Type) `{KeyOrder K} := {
  key_leb_total : ∀ a b : K, key_leb a b = true ∨ key_leb b a = true;
  key_leb_antisym : ∀ a b : K, key_leb a b = true → key_leb b a = true → a = b;
}.

#[global] Instance string_key_order : KeyOrder string := String.leb.
#[global] Instance Z_key_order : KeyOrder Z := Z.leb.

#[global] Instance string_key_laws : KeyOrderLaws string.
Proof. split; [apply String.leb_total|apply String.leb_antisym]. Qed.

#[global] Instance Z_key_laws : KeyOrderLaws Z.
Proof. split; unfold key_leb, Z_key_order; lia. Qed.

(** Entries compared by their keys. *)
Definition entry_le {K V : Type} `{KeyOrder K} (x y : K * V) : Prop :=
  key_leb x.1 y.1 = true.

#[global] Instance entry_le_dec {K V : Type} `{KeyOrder K} : RelDecision (@entry_le K V _).
Proof. unfold entry_le. intros x y. apply _. Defined.

Definition map_iter {K V : Type} `{Countable K, !KeyOrder K} (m : gmap K V) : list (K * V) :=
  merge_sort entry_le (map_to_list m).

Section MapIter.
Context {K V : Type} `{Countable K, !KeyOrder K}.
Implicit Types m : gmap K V.

Lemma map_iter_Permutation m : map_iter m ≡ₚ map_to_list m.
Proof. apply merge_sort_Permutation. Qed.

Lemma elem_of_map_iter m k v : (k, v) ∈ map_iter m ↔ m !! k = Some v.
Proof. rewrite map_iter_Permutation. apply elem_of_map_to_list. Qed.

Lemma NoDup_map_iter_fst m : NoDup (map_iter m).*1.
Proof. rewrite map_iter_Permutation. apply NoDup_fst_map_to_list. Qed.

Lemma length_map_iter m : length (map_iter m) = size m.
Proof. by rewrite map_iter_Permutation, length_map_to_list. Qed.

(** The keys come in increasing order, as a [std::map] iterates. *)
Lemma map_iter_sorted `{!KeyOrderLaws K} m :
  Sorted entry_le (map_iter m).
Proof. apply Sorted_merge_sort. intros x y. apply key_leb_total. Qed.
End MapIter.

Lemma map_iter_string_sorted {V : Type} (m : gmap string V) :
  StronglySorted entry_le (map_iter m).
Proof.
  apply Sorted_StronglySorted; [|apply map_iter_sorted]. intros x y z. apply string_leb_trans.
Qed.

(** ** Passes over a [std::map] that rewrite or erase every entry

    The loops [for (it = m.begin(); it != m.end();)] in which an entry whose list
    became empty is erased. *)

Section Rewrite.
Context {A : Type}.
Implicit Types (m : gmap string (list A)) (l : list A) (f : string → list A → list A).

Definition put (u : string) l m : gmap string (list A) :=
  match l with [] => delete u m | _ => <[u := l]> m end.

Definition nonempty l : option (list A) := match l with [] => None | _ => Some l end.

Lemma nonempty_Some l k : nonempty l = Some k ↔ l = k ∧ k ≠ [].
Proof. destruct l; cbn; naive_solver. Qed.

Lemma lookup_put u v l m : put u l m !! v = if decide (u = v) then nonempty l else m !! v.
Proof.
  unfold put. destruct l as [|x l]; case_decide; subst; cbn;
    rewrite ?lookup_delete_eq, ?lookup_insert_eq, ?lookup_delete_ne, ?lookup_insert_ne by done; done.
Qed.

Lemma foldl_put f es m u :
  NoDup es.*1 → (∀ v l, (v, l) ∈ es → m !! v = Some l) →
  foldl (λ m e, put e.1 (f e.1 e.2) m) m es !! u =
    if decide (u ∈ es.*1) then m !! u ≫= λ l, nonempty (f u l) else m !! u.
Proof.
  revert m. induction es as [|[v l] es IH]; intros m Hnd Hm; [by rewrite decide_False by apply not_elem_of_nil|].
  cbn in Hnd. apply NoDup_cons in Hnd as [Hv Hnd]. cbn [foldl fmap list_fmap fst snd].
  rewrite IH; [|done|].
  2: { intros w k Hw. rewrite lookup_put, decide_False; [by apply Hm; right|].
       intros ->. apply Hv, list_elem_of_fmap. by exists (w, k). }
  rewrite lookup_put. destruct (decide (v = u)) as [->|Hne].
  - rewrite decide_False by done. rewrite decide_True by (left; done).
    by rewrite (Hm u l) by left.
  - destruct (decide (u ∈ es.*1)); [rewrite decide_True by (by right); done|].
    rewrite decide_False; [done|]. rewrite elem_of_cons. naive_solver.
Qed.

Lemma rewrite_map f m u :
  foldl (λ m e, put e.1 (f e.1 e.2) m) m (map_iter m) !! u = m !! u ≫= λ l, nonempty (f u l).
Proof.
  rewrite foldl_put; [|apply NoDup_map_iter_fst|intros v l; apply elem_of_map_iter].
  case_decide as Hu; [done|]. destruct (m !! u) as [l|] eqn:E; [|done].
  destruct Hu. apply list_elem_of_fmap. exists (u, l). split; [done|]. by apply elem_of_map_iter.
Qed.
End Rewrite.

(** ** Automation *)

Create HintDb rt discriminated.
#[export] Hint Resolve elem_of_erase_first erase_first_sublist : rt.
#[export] Hint Constructors Forall : rt.

(** Case analysis on every guard of a translated body, with the equations
    simplified on the way. *)
Ltac guards :=
  repeat (case_match || case_decide || case_bool_decide); simplify_eq/=; try done.

(** The same, in a hypothesis that equates a call with its result. *)
Ltac guards_in H :=
  repeat (first [progress simplify_eq/= | case_match]).
