(* ===== verification/StartupTask.v ===== *)
(** * Startup tasks and their results

    The data of the application startup framework
    ([frameworks/native/appkit/app_startup]): error codes, results, the
    one-shot completion callback and the life cycle of a [StartupTask]. *)

From S2P Require Import Prelude.
From stdpp Require Import prelude gmap strings list.
From Stdlib Require Import ZArith Lia.

Local Open Scope Z_scope.

(** ** Error codes ([startup_utils.h]) *)

Definition ERR_OK : Z := 0.
Definition ERR_STARTUP_INVALID_VALUE : Z := 401.
Definition ERR_STARTUP_INTERNAL_ERROR : Z := 16000050.
Definition ERR_STARTUP_DEPENDENCY_NOT_FOUND : Z := 28800001.
Definition ERR_STARTUP_CIRCULAR_DEPENDENCY : Z := 28800002.
Definition ERR_STARTUP_FAILED_TO_EXECUTE_STARTUP : Z := 28800003.
Definition ERR_STARTUP_TIMEOUT : Z := 28800004.

(** [StartupUtils::GetErrorMessage] *)
Definition GetErrorMessage (errCode : Z) : string :=
  if errCode =? ERR_STARTUP_INVALID_VALUE then "invalid parameter."
  else if errCode =? ERR_STARTUP_INTERNAL_ERROR then "internal error."
  else if errCode =? ERR_STARTUP_DEPENDENCY_NOT_FOUND then
    "startup task or its dependency not found."
  else if errCode =? ERR_STARTUP_CIRCULAR_DEPENDENCY then
    "the startup tasks have circular dependencies."
  else if errCode =? ERR_STARTUP_FAILED_TO_EXECUTE_STARTUP then
    "an error occurred while running the startup tasks."
  else if errCode =? ERR_STARTUP_TIMEOUT then "running startup tasks timeout."
  else "internal error.".

(** ** Results ([startup_task_result.cpp]) *)

Record StartupTaskResult := mkResult {
  resultCode_ : Z;
  resultMessage_ : string;
}.

#[global] Instance StartupTaskResult_eq_dec : EqDecision StartupTaskResult.
Proof. solve_decision. Defined.

(** The default constructor: [resultCode_ = ERR_OK] and an empty message. *)
Definition StartupTaskResult_default : StartupTaskResult := mkResult ERR_OK "".

Definition SetResult (r : StartupTaskResult) (resultCode : Z) (resultMessage : string)
    : StartupTaskResult :=
  mkResult resultCode resultMessage.

Definition SetResultMessage (r : StartupTaskResult) (resultMessage : string) : StartupTaskResult :=
  mkResult (resultCode_ r) resultMessage.

Definition GetResultCode (r : StartupTaskResult) : Z := resultCode_ r.
Definition GetResultMessage (r : StartupTaskResult) : string := resultMessage_ r.

(** [OnCompletedCallback]: the function runs at most once. [fired_] records the
    results the wrapped function was given, which is what a listener observes. *)
Record OnCompletedCallback := mkOnCompleted {
  hasCallbackFunc_ : bool;
  isCalled_ : bool;
  fired_ : list StartupTaskResult;
}.

Definition OnCompletedCallback_new (hasFunc : bool) : OnCompletedCallback :=
  mkOnCompleted hasFunc false [].

Definition OnCompletedCallback_Call (cb : OnCompletedCallback) (result : StartupTaskResult)
    : OnCompletedCallback :=
  if isCalled_ cb then cb
  else if negb (hasCallbackFunc_ cb) then cb
  else mkOnCompleted (hasCallbackFunc_ cb) true (fired_ cb ++ [result]).

Definition IsCalled (cb : OnCompletedCallback) : bool := isCalled_ cb.

(** ** Tasks ([startup_task.cpp]) *)

Inductive TaskState := INVALID | CREATED | INITIALIZING | INITIALIZED.

#[global] Instance TaskState_eq_dec : EqDecision TaskState.
Proof. solve_decision. Defined.

(** An extra callback is named by the dispatcher that waits for the task: its
    identity and the name under which it waits. *)
Record StartupTask := mkTask {
  name_ : string;
  dependencies_ : list string;
  callCreateOnMainThread_ : bool;
  waitOnMainThread_ : bool;
  isExcludeFromAutoStart_ : bool;
  result_ : option StartupTaskResult;
  state_ : TaskState;
  extraCallbacks_ : list (Z * string);
}.

(** The constructor, with the member initialisers of the class. *)
Definition StartupTask_new (name : string) : StartupTask :=
  mkTask name [] true true false None CREATED [].

Definition GetName (t : StartupTask) : string := name_ t.
Definition GetDependencies (t : StartupTask) : list string := dependencies_ t.
Definition GetCallCreateOnMainThread (t : StartupTask) : bool := callCreateOnMainThread_ t.
Definition GetWaitOnMainThread (t : StartupTask) : bool := waitOnMainThread_ t.
Definition GetIsExcludeFromAutoStart (t : StartupTask) : bool := isExcludeFromAutoStart_ t.
Definition GetTaskResult (t : StartupTask) : option StartupTaskResult := result_ t.
Definition GetState (t : StartupTask) : TaskState := state_ t.

Definition SetDependencies (t : StartupTask) (dependencies : list string) : StartupTask :=
  mkTask (name_ t) dependencies (callCreateOnMainThread_ t) (waitOnMainThread_ t)
    (isExcludeFromAutoStart_ t) (result_ t) (state_ t) (extraCallbacks_ t).

Definition SetCallCreateOnMainThread (t : StartupTask) (b : bool) : StartupTask :=
  mkTask (name_ t) (dependencies_ t) b (waitOnMainThread_ t)
    (isExcludeFromAutoStart_ t) (result_ t) (state_ t) (extraCallbacks_ t).

Definition SetWaitOnMainThread (t : StartupTask) (b : bool) : StartupTask :=
  mkTask (name_ t) (dependencies_ t) (callCreateOnMainThread_ t) b
    (isExcludeFromAutoStart_ t) (result_ t) (state_ t) (extraCallbacks_ t).

Definition SetIsExcludeFromAutoStart (t : StartupTask) (b : bool) : StartupTask :=
  mkTask (name_ t) (dependencies_ t) (callCreateOnMainThread_ t) (waitOnMainThread_ t)
    b (result_ t) (state_ t) (extraCallbacks_ t).

(** Assignment to the members a run of the task changes. *)
Definition with_run (t : StartupTask) (r : option StartupTaskResult) (s : TaskState)
    (cbs : list (Z * string)) : StartupTask :=
  mkTask (name_ t) (dependencies_ t) (callCreateOnMainThread_ t) (waitOnMainThread_ t)
    (isExcludeFromAutoStart_ t) r s cbs.

(** [getDependenciesCount]: the [size_t] length narrowed to [uint32_t]. *)
Definition getDependenciesCount (t : StartupTask) : Z :=
  u32 (Z.of_nat (length (dependencies_ t))).

(** [SaveResult]: a null result is ignored; a success makes the task
    initialized, a failure takes it back to created. *)
Definition SaveResult (t : StartupTask) (result : option StartupTaskResult) : StartupTask :=
  match result with
  | None => t
  | Some r =>
    with_run t (Some r)
      (if GetResultCode r =? ERR_OK then INITIALIZED else CREATED) (extraCallbacks_ t)
  end.

(** [StartupTask::RemoveResult] *)
Definition Task_RemoveResult (t : StartupTask) : Z * StartupTask :=
  if negb (bool_decide (state_ t = INITIALIZED)) then (ERR_STARTUP_INTERNAL_ERROR, t)
  else (ERR_OK, with_run t None CREATED (extraCallbacks_ t)).

Definition AddExtraCallback (t : StartupTask) (callback : Z * string) : Z * StartupTask :=
  if negb (bool_decide (state_ t = INITIALIZING)) then (ERR_STARTUP_INTERNAL_ERROR, t)
  else (ERR_OK, with_run t (result_ t) (state_ t) (extraCallbacks_ t ++ [callback])).

(** [CallExtraCallback] hands the callbacks to the caller in order and forgets
    them; running each is the dispatcher's [Dispatch]. *)
Definition CallExtraCallback (t : StartupTask) : list (Z * string) * StartupTask :=
  (extraCallbacks_ t, with_run t (result_ t) (state_ t) []).

(** [DumpDependencies]: the names joined by a comma and a space. *)
Definition DumpDependencies (t : StartupTask) : string :=
  match dependencies_ t with
  | [] => ""
  | d :: ds => fold_left (λ acc iter, (acc ++ (", " ++ iter))%string) ds d
  end.

(** ** The life cycle of a task *)

(** A task is well formed when it holds a successful result exactly when it is
    initialized, and waits for others only while it initializes. *)
Definition task_wf (t : StartupTask) : Prop :=
  (state_ t = INITIALIZED → ∃ r, result_ t = Some r ∧ resultCode_ r = ERR_OK) ∧
  (state_ t ≠ INITIALIZING → extraCallbacks_ t = []).

Lemma OnCompletedCallback_Call_once (cb : OnCompletedCallback) (r1 r2 : StartupTaskResult) :
  OnCompletedCallback_Call (OnCompletedCallback_Call cb r1) r2 =
  OnCompletedCallback_Call cb r1.
Proof.
  unfold OnCompletedCallback_Call.
  destruct cb as [hf [|] fs]; [done|]. by destruct hf.
Qed.

Lemma StartupTask_new_wf (name : string) : task_wf (StartupTask_new name).
Proof. by split. Qed.
