(* ===== verification/TopologySort.v ===== *)
(** * Topological sort of startup tasks

    [StartupTopologySort] ([startup_topologysort.cpp]): Kahn's algorithm on the
    dependency graph of the tasks of one startup request. The sort builds the
    children map and the initial queue that the dispatcher runs from, and
    reports a missing dependency or a cycle. *)

From S2P Require Import Prelude StartupTask.
From stdpp Require Import prelude gmap strings list sorting relations.
From Stdlib Require Import ZArith Lia.

Local Open Scope Z_scope.

(** A [std::map<std::string, std::shared_ptr<StartupTask>>]; [None] is a null
    pointer. The sort reads the tasks and changes none of them. *)
Abbreviation TaskMap := (gmap string (option StartupTask)).

Record StartupSortResult := mkSortResult {
  startupChildrenMap_ : gmap string (list string);
  zeroDequeResult_ : list string;
}.

(** The locals of [Sort]. *)
Record SortState := mkSortState {
  inDegreeMap : gmap string Z;
  zeroDeque : list string;
  startupSortResult : StartupSortResult;
}.

Definition SortState_empty : SortState := mkSortState ∅ [] (mkSortResult ∅ []).

(** [map\[k\]] on a map of vectors: an absent key gets an empty vector. *)
Definition children_of (m : gmap string (list string)) (k : string) : list string :=
  default [] (m !! k).

(** The loop over the dependencies of one task in [SortZeroDeque]. *)
Fixpoint add_children (startupMap : TaskMap) (key : string) (deps : list string)
    (children : gmap string (list string)) : Z * gmap string (list string) :=
  match deps with
  | [] => (ERR_OK, children)
  | parentName :: deps' =>
    match startupMap !! parentName with
    | None => (ERR_STARTUP_DEPENDENCY_NOT_FOUND, children)
    | Some _ =>
      add_children startupMap key deps'
        (<[parentName := children_of children parentName ++ [key]]> children)
    end
  end.

Definition SortZeroDeque (startup : StartupTask) (startupMap : TaskMap) (st : SortState)
    : Z * SortState :=
  let key := GetName startup in
  match inDegreeMap st !! key with
  | Some _ => (ERR_STARTUP_INTERNAL_ERROR, st)
  | None =>
    let inDegree' := <[key := getDependenciesCount startup]> (inDegreeMap st) in
    let res := startupSortResult st in
    match GetDependencies startup with
    | [] =>
      (ERR_OK, mkSortState inDegree' (zeroDeque st ++ [key])
        (mkSortResult (startupChildrenMap_ res) (zeroDequeResult_ res ++ [key])))
    | deps =>
      let '(code, children') := add_children startupMap key deps (startupChildrenMap_ res) in
      (code, mkSortState inDegree' (zeroDeque st) (mkSortResult children' (zeroDequeResult_ res)))
    end
  end.

(** The first loop of [Sort], over the entries of [startupMap] in key order. *)
Fixpoint sort_init (entries : list (string * option StartupTask)) (startupMap : TaskMap)
    (st : SortState) : Z * SortState :=
  match entries with
  | [] => (ERR_OK, st)
  | (_, None) :: _ => (ERR_STARTUP_INTERNAL_ERROR, st)
  | (_, Some t) :: entries' =>
    let '(result, st') := SortZeroDeque t startupMap st in
    if negb (result =? ERR_OK) then (result, st')
    else sort_init entries' startupMap st'
  end.

(** The loop over the children of a processed task. *)
Fixpoint release_children (cs : list string) (deg : gmap string Z) (dq : list string)
    : gmap string Z * list string :=
  match cs with
  | [] => (deg, dq)
  | child :: cs' =>
    let d := u32 (default 0 (deg !! child) - 1) in
    release_children cs' (<[child := d]> deg) (if d =? 0 then dq ++ [child] else dq)
  end.

(** The [while] loop of [Sort]. [None] is returned when the fuel runs out, and
    for a null task, whose dereference would be undefined. The access [startupChildrenMap_\[key\]] creates the entry when it is missing. *)
Fixpoint sort_loop (fuel : nat) (startupMap : TaskMap) (st : SortState)
    (mainStartupCount threadStartupCount : Z) : option (Z * SortState * Z * Z) :=
  match fuel with
  | O => None
  | S fuel' =>
    match zeroDeque st with
    | [] => Some (ERR_OK, st, mainStartupCount, threadStartupCount)
    | key :: rest =>
      match startupMap !! key with
      | None => Some (ERR_STARTUP_INTERNAL_ERROR,
                      mkSortState (inDegreeMap st) rest (startupSortResult st),
                      mainStartupCount, threadStartupCount)
      | Some None => None
      | Some (Some t) =>
        let main' := if GetCallCreateOnMainThread t then u32 (mainStartupCount + 1)
                     else mainStartupCount in
        let thread' := if GetCallCreateOnMainThread t then threadStartupCount
                       else u32 (threadStartupCount + 1) in
        let res := startupSortResult st in
        let cs := children_of (startupChildrenMap_ res) key in
        let '(deg', dq') := release_children cs (inDegreeMap st) rest in
        sort_loop fuel' startupMap
          (mkSortState deg' dq'
             (mkSortResult (<[key := cs]> (startupChildrenMap_ res)) (zeroDequeResult_ res)))
          main' thread'
      end
    end
  end.

(** Every key enters the queue at most once, so one more step than there are
    tasks is enough fuel ([sort_loop_terminates]). *)
Definition Sort (startupMap : TaskMap) : option (Z * StartupSortResult) :=
  let '(result, st) := sort_init (map_iter startupMap) startupMap SortState_empty in
  if negb (result =? ERR_OK) then Some (result, startupSortResult st)
  else
    match sort_loop (S (size startupMap)) startupMap st 0 0 with
    | None => None
    | Some (code, st', mainStartupCount, threadStartupCount) =>
      if negb (code =? ERR_OK) then Some (code, startupSortResult st')
      else if negb (u32 (mainStartupCount + threadStartupCount) =? Z.of_nat (size startupMap))
      then Some (ERR_STARTUP_CIRCULAR_DEPENDENCY, startupSortResult st')
      else Some (ERR_OK, startupSortResult st')
    end.

(** ** The dependency graph *)

Definition deps_of (m : TaskMap) (k : string) : list string :=
  match m !! k with
  | Some (Some t) => dependencies_ t
  | _ => []
  end.

(** [depends m a b]: task [a] lists [b] as a dependency. *)
Definition depends (m : TaskMap) (a b : string) : Prop := b ∈ deps_of m a.

Definition acyclic (m : TaskMap) : Prop := ∀ a, ¬ tc (depends m) a a.

Definition deps_closed (m : TaskMap) : Prop :=
  ∀ a b, a ∈ dom m → depends m a b → b ∈ dom m.

(** The maps [StartupTaskManager] hands to [Sort]: no null task, each task under
    its own name ([AddTask] and the registration do this), and sizes that fit the
    [uint32_t] counters of the code. *)
Definition tasks_wf (m : TaskMap) : Prop :=
  (∀ k o, m !! k = Some o →
     ∃ t, o = Some t ∧ name_ t = k ∧ Z.of_nat (length (dependencies_ t)) < UINT32_MOD) ∧
  Z.of_nat (size m) < UINT32_MOD.

(** The keys of a map in iteration order. *)
Definition keys_of (m : TaskMap) : list string := (map_iter m).*1.

(** A list of tasks in which each comes after all its dependencies. *)
Definition topo_ordered (m : TaskMap) (l : list string) : Prop :=
  ∀ l1 k l2, l = l1 ++ k :: l2 → ∀ d, d ∈ deps_of m k → d ∈ l1.

Lemma elem_of_keys_of (m : TaskMap) k : k ∈ keys_of m ↔ k ∈ dom m.
Proof.
  unfold keys_of. rewrite list_elem_of_fmap, elem_of_dom. split.
  - intros ([k' o] & -> & H%elem_of_map_iter). by exists o.
  - intros [o H]. exists (k, o). by rewrite elem_of_map_iter.
Qed.

Lemma NoDup_keys_of (m : TaskMap) : NoDup (keys_of m).
Proof. apply NoDup_map_iter_fst. Qed.

Lemma length_keys_of (m : TaskMap) : length (keys_of m) = size m.
Proof. unfold keys_of. by rewrite length_fmap, length_map_iter. Qed.

Section Graph.
Context (m : TaskMap).

(** A topologically ordered list closed under dependencies has no cycle. *)
Lemma topo_ordered_acyclic l :
  NoDup l → topo_ordered m l → (∀ k, k ∉ l → deps_of m k = []) → acyclic m.
Proof.
  intros Hnd Htopo Hout.
  assert (∀ l1 l2 a b, l = l1 ++ l2 → tc (depends m) a b → a ∈ l1 → b ∈ l1 ∧
            ∀ l3 l4, l1 = l3 ++ a :: l4 → b ∈ l3) as Hback.
  { intros l1 l2 a b Hl Hab. revert l1 l2 Hl.
    induction Hab as [a b Hab|a b c Hab Hbc IH]; intros l1 l2 Hl Ha.
    - assert (∀ l3 l4, l1 = l3 ++ a :: l4 → b ∈ l3) as Hb.
      { intros l3 l4 ->. apply (Htopo l3 a (l4 ++ l2)); [|done].
        by rewrite Hl, <-app_assoc. }
      split; [|done]. apply list_elem_of_split in Ha as (l3 & l4 & E).
      rewrite E. apply elem_of_app. left. eauto.
    - assert (∀ l3 l4, l1 = l3 ++ a :: l4 → c ∈ l3) as Hc.
      { intros l3 l4 ->. rewrite <-app_assoc in Hl.
        destruct (IH l3 (a :: l4 ++ l2) Hl) as [? _]; [|done].
        by apply (Htopo l3 a (l4 ++ l2)). }
      split; [|done]. apply list_elem_of_split in Ha as (l3 & l4 & E).
      rewrite E. apply elem_of_app. left. eauto. }
  intros a Ha. destruct (decide (a ∈ l)) as [Hin|Hni].
  - apply list_elem_of_split in Hin as (l3 & l4 & ->).
    destruct (Hback _ [] a a (eq_sym (app_nil_r _)) Ha) as [_ H].
    + apply elem_of_app. right. apply list_elem_of_here.
    + specialize (H l3 l4 eq_refl). apply NoDup_app in Hnd as (_ & Hnd & _).
      apply (Hnd a H), list_elem_of_here.
  - apply Hout in Hni. inversion Ha as [? ? H|? ? ? H]; subst;
      unfold depends in H; rewrite Hni in H; by apply not_elem_of_nil in H.
Qed.

(** In a finite set where every task has a dependency in the set there is a
    cycle. *)
Lemma no_sink_cycle (S : gset string) k :
  k ∈ S → (∀ a, a ∈ S → ∃ b, b ∈ S ∧ depends m a b) → ¬ acyclic m.
Proof.
  intros Hk Hsucc Hac.
  set (R := λ a b, a ∈ S ∧ b ∈ S ∧ depends m a b).
  assert (sn R k) as Hsn.
  { apply tc_finite_sn.
    - intros a Ha. apply (Hac a). revert Ha. generalize a at 2 4. intros b.
      induction 1 as [a b (_ & _ & ?)|a b c (_ & _ & ?) _ IH]; [by apply tc_once|].
      by eapply tc_l.
    - exists (elements S). intros b Hb. apply elem_of_elements.
      clear -Hb. induction Hb as [? ? (? & ? & ?)|? ? ? _ _ IH]; done. }
  induction Hsn as [a _ IH]. destruct (Hsucc a Hk) as (b & Hb & Hab).
  apply (IH b); [|done]. by split.
Qed.
End Graph.

(** ** The first loop: in-degrees, children and the initial queue *)

(** The vector of children of [p], for the tasks [ks] in the order they are read. *)
Definition children_spec (m : TaskMap) (ks : list string) (p : string) : list string :=
  ks ≫= λ k, replicate (occ p (deps_of m k)) k.

Section Init.
Context (m : TaskMap) (Hwf : tasks_wf m).

Record init_inv (ks : list string) (st : SortState) : Prop := {
  init_degree : ∀ k, inDegreeMap st !! k =
    if decide (k ∈ ks) then Some (Z.of_nat (length (deps_of m k))) else None;
  init_deque : zeroDeque st = filter (λ k, deps_of m k = []) ks;
  init_result : zeroDequeResult_ (startupSortResult st) = zeroDeque st;
  init_children : ∀ p,
    children_of (startupChildrenMap_ (startupSortResult st)) p = children_spec m ks p;
}.

Lemma children_of_insert ch p l q :
  children_of (<[p := l]> ch) q = if decide (p = q) then l else children_of ch q.
Proof. unfold children_of. rewrite lookup_insert. by case_decide. Qed.

Lemma add_children_ok key deps ch :
  (∀ d, d ∈ deps → d ∈ dom m) →
  ∃ ch', add_children m key deps ch = (ERR_OK, ch') ∧
    ∀ p, children_of ch' p = children_of ch p ++ replicate (occ p deps) key.
Proof.
  revert ch. induction deps as [|d deps IH]; intros ch Hd; simpl.
  - exists ch. split; [done|]. intros p. by rewrite app_nil_r.
  - assert (is_Some (m !! d)) as [o Ho] by apply elem_of_dom, Hd, list_elem_of_here.
    rewrite Ho.
    destruct (IH (<[d := children_of ch d ++ [key]]> ch)) as (ch' & -> & Hch').
    { intros d' ?. by apply Hd, list_elem_of_further. }
    exists ch'. split; [done|]. intros p.
    rewrite Hch', occ_cons, children_of_insert.
    destruct (decide (d = p)) as [->|]; [|by rewrite decide_False by done].
    rewrite decide_True by done. by rewrite <-app_assoc.
Qed.

Lemma add_children_missing key deps ch d :
  d ∈ deps → d ∉ dom m →
  (add_children m key deps ch).1 = ERR_STARTUP_DEPENDENCY_NOT_FOUND.
Proof.
  intros Hd Hm%not_elem_of_dom. revert ch Hd.
  induction deps as [|d' deps IH]; intros ch; [by intros ?%not_elem_of_nil|].
  intros [->|Hd]%elem_of_cons; simpl; [by rewrite Hm|].
  destruct (m !! d'); [auto|done].
Qed.

Lemma children_spec_snoc ks k p :
  children_spec m (ks ++ [k]) p = children_spec m ks p ++ replicate (occ p (deps_of m k)) k.
Proof. unfold children_spec. rewrite bind_app. f_equal. simpl. by rewrite app_nil_r. Qed.

Lemma init_degree_snoc ks k (deg : gmap string Z) :
  (∀ k', deg !! k' =
     if decide (k' ∈ ks) then Some (Z.of_nat (length (deps_of m k'))) else None) →
  ∀ k', <[k := Z.of_nat (length (deps_of m k))]> deg !! k' =
    if decide (k' ∈ ks ++ [k]) then Some (Z.of_nat (length (deps_of m k'))) else None.
Proof.
  intros Hdeg k'. rewrite lookup_insert.
  assert (k' ∈ ks ++ [k] ↔ k' ∈ ks ∨ k' = k) as Hin
    by (by rewrite elem_of_app, list_elem_of_singleton).
  destruct (decide (k = k')) as [->|Hne].
  - rewrite decide_True; [done|tauto].
  - rewrite Hdeg. apply decide_ext. intuition congruence.
Qed.

(** One task: either the invariant grows by its key, or one of its
    dependencies is missing. *)
Lemma SortZeroDeque_spec ks st k t :
  init_inv ks st → k ∉ ks → m !! k = Some (Some t) → name_ t = k →
  Z.of_nat (length (dependencies_ t)) < UINT32_MOD →
  let r := SortZeroDeque t m st in
  ((∀ d, d ∈ deps_of m k → d ∈ dom m) → r.1 = ERR_OK ∧ init_inv (ks ++ [k]) r.2) ∧
  (∀ d, d ∈ deps_of m k → d ∉ dom m → r.1 = ERR_STARTUP_DEPENDENCY_NOT_FOUND).
Proof.
  intros [Hdeg Hdq Hres Hch] Hk Ht Hn Hlen.
  assert (deps_of m k = dependencies_ t) as Hdeps by (unfold deps_of; by rewrite Ht).
  unfold SortZeroDeque, GetName, GetDependencies. rewrite Hn, Hdeg, decide_False by done.
  assert (getDependenciesCount t = Z.of_nat (length (deps_of m k))) as Hcnt.
  { unfold getDependenciesCount. rewrite Hdeps. apply u32_small. lia. }
  rewrite Hcnt. set (n := Z.of_nat (length (deps_of m k))).
  rewrite Hdeps. destruct (dependencies_ t) as [|d0 ds] eqn:Ed; simpl.
  - split; [|by intros d ?%not_elem_of_nil]. intros _. split; [done|].
    split; simpl.
    + apply init_degree_snoc, Hdeg.
    + rewrite Hdq, filter_app, filter_cons, decide_True by done. done.
    + by rewrite Hres.
    + intros p. rewrite children_spec_snoc, Hch, Hdeps. simpl. by rewrite app_nil_r.
  - split.
    + intros Hall. destruct (add_children_ok k (d0 :: ds)
        (startupChildrenMap_ (startupSortResult st)) Hall) as (ch' & E & Hch').
      simpl in E. rewrite E. split; [done|]. split; simpl.
      * apply init_degree_snoc, Hdeg.
      * rewrite Hdq, filter_app, filter_cons, decide_False by by rewrite Hdeps.
        by rewrite app_nil_r.
      * done.
      * intros p. by rewrite children_spec_snoc, Hch', Hch, Hdeps.
    + intros d Hd Hm.
      pose proof (add_children_missing k _ (startupChildrenMap_ (startupSortResult st))
        d Hd Hm) as E. simpl in E.
      by destruct (match m !! d0 with Some _ => _ | None => _ end) as [c ch].
Qed.

Lemma sort_init_spec entries ks st :
  (∀ k o, (k, o) ∈ entries → m !! k = Some o) → NoDup (ks ++ entries.*1) →
  init_inv ks st →
  let r := sort_init entries m st in
  ((∀ k d, k ∈ entries.*1 → d ∈ deps_of m k → d ∈ dom m) →
     r.1 = ERR_OK ∧ init_inv (ks ++ entries.*1) r.2) ∧
  (∀ k d, k ∈ entries.*1 → d ∈ deps_of m k → d ∉ dom m →
     r.1 = ERR_STARTUP_DEPENDENCY_NOT_FOUND).
Proof.
  revert ks st. induction entries as [|[k o] es IH]; intros ks st Hes Hnd Hinv.
  { simpl. rewrite app_nil_r. split; [done|]. by intros ? ? ?%not_elem_of_nil. }
  rewrite fmap_cons in *. cbn [sort_init fst] in *.
  pose proof (Hes k o (list_elem_of_here _ _)) as Hk.
  destruct Hwf as [Hw _]. destruct (Hw k o Hk) as (t & -> & Hn & Hlen).
  assert (k ∉ ks) as Hni.
  { apply NoDup_app in Hnd as (_ & Hd & _). intros Hin.
    apply (Hd k Hin), list_elem_of_here. }
  pose proof (SortZeroDeque_spec ks st k t Hinv Hni Hk Hn Hlen) as [Hok Hmiss].
  destruct (SortZeroDeque t m st) as [c st'] eqn:E. simpl in Hok, Hmiss.
  assert (ks ++ k :: es.*1 = (ks ++ [k]) ++ es.*1) as Eks by by rewrite <-app_assoc.
  destruct (decide (Forall (.∈ dom m) (deps_of m k))) as [Hall|Hex].
  - rewrite Forall_forall in Hall. destruct (Hok Hall) as [-> Hinv']. cbn [negb Z.eqb ERR_OK].
    rewrite Eks in Hnd |- *.
    destruct (IH (ks ++ [k]) st') as [IH1 IH2]; [|done|done|].
    { intros. by apply Hes, list_elem_of_further. }
    split.
    + intros Hcl. apply IH1. intros k' d Hk'. apply Hcl. by apply list_elem_of_further.
    + intros k' d [->|Hk']%elem_of_cons Hd Hm; [by destruct (Hm (Hall d Hd))|].
      by apply (IH2 k' d).
  - apply not_Forall_Exists in Hex; [|apply _]. apply Exists_exists in Hex as (d & Hd & Hm).
    simpl in Hm. rewrite (Hmiss d Hd Hm). simpl. split; [|done].
    intros Hcl. destruct Hm. apply (Hcl k d); [apply list_elem_of_here|done].
Qed.
End Init.

(** ** The [while] loop *)

(** Releasing the children [cs]: each in-degree drops by the number of
    occurrences, and exactly those that reach zero are queued, once each. *)
Lemma release_children_spec cs deg dq :
  (∀ c, c ∈ cs → ∃ d, deg !! c = Some d ∧ Z.of_nat (occ c cs) ≤ d < UINT32_MOD) →
  ∃ new,
    (release_children cs deg dq).2 = dq ++ new ∧ NoDup new ∧
    (∀ c, c ∈ new ↔ c ∈ cs ∧ deg !! c = Some (Z.of_nat (occ c cs))) ∧
    (∀ c, (release_children cs deg dq).1 !! c =
       (λ d, d - Z.of_nat (occ c cs)) <$> deg !! c).
Proof.
  revert deg dq. induction cs as [|c cs IH]; intros deg dq Hdeg.
  { exists []. simpl. rewrite app_nil_r. split_and!; [done|constructor| |].
    - intros c. split; [by intros ?%not_elem_of_nil|by intros [?%not_elem_of_nil _]].
    - intros c. destruct (deg !! c); simpl; [|done]. f_equal. unfold occ. simpl. lia. }
  cbn [release_children].
  destruct (Hdeg c (list_elem_of_here _ _)) as (d & Hd & Hlo).
  rewrite occ_cons, decide_True in Hlo by done.
  rewrite Hd. simpl default. rewrite u32_small by lia.
  set (dq0 := if d - 1 =? 0 then dq ++ [c] else dq).
  destruct (IH (<[c := d - 1]> deg) dq0) as (new & Hdq & Hnd & Hnew & Hres).
  { intros c' Hc'. rewrite lookup_insert. destruct (decide (c = c')) as [<-|Hne].
    - exists (d - 1). split; [done|lia].
    - destruct (Hdeg c' (list_elem_of_further _ _ _ Hc')) as (d' & Hd' & Hlo').
      rewrite occ_cons, decide_False in Hlo' by done. eauto. }
  exists ((if d - 1 =? 0 then [c] else []) ++ new). split_and!.
  - rewrite Hdq. unfold dq0. destruct (d - 1 =? 0); [by rewrite <-app_assoc|done].
  - destruct (Z.eqb_spec (d - 1) 0) as [Hz|Hz]; [|done]. simpl. constructor; [|done].
    rewrite Hnew. intros [Hc _]. apply occ_pos in Hc. lia.
  - intros c'. rewrite elem_of_app, Hnew, lookup_insert, occ_cons, elem_of_cons.
    destruct (Z.eqb_spec (d - 1) 0) as [Hz|Hz];
      rewrite ?list_elem_of_singleton, ?elem_of_nil;
      destruct (decide (c = c')) as [<-|Hne];
      rewrite ?decide_True, ?decide_False by done.
    + pose proof (occ_pos c cs) as Hp. rewrite Hd. split; [|by left].
      intros _. split; [by left|]. f_equal. destruct (occ c cs) eqn:E; [lia|].
      exfalso. lia.
    + intuition congruence.
    + rewrite Hd. pose proof (occ_pos c cs) as Hp. split.
      * intros [[]|[? [= ?]]]. split; [by left|]. f_equal. lia.
      * intros [_ [= ?]]. right. split; [apply Hp; lia|f_equal; lia].
    + intuition congruence.
  - intros c'. rewrite Hres, lookup_insert, occ_cons.
    destruct (decide (c = c')) as [<-|Hne].
    + rewrite decide_True, Hd by done. simpl. f_equal. lia.
    + by rewrite decide_False by done.
Qed.

Section Loop.
Context (m : TaskMap) (Hwf : tasks_wf m) (Hcl : deps_closed m).

(** What is still missing for [k] once the tasks of [finished] are processed. *)
Definition missing (finished : list string) (k : string) : list string :=
  filter (.∉ finished) (deps_of m k).

Record loop_inv (finished : list string) (st : SortState) (main thread : Z) : Prop := {
  loop_nodup : NoDup (finished ++ zeroDeque st);
  loop_degree : ∀ k, k ∈ dom m →
    inDegreeMap st !! k = Some (Z.of_nat (length (missing finished k)));
  loop_ready : ∀ k, k ∈ finished ++ zeroDeque st ↔ k ∈ dom m ∧ missing finished k = [];
  loop_children : ∀ p,
    children_of (startupChildrenMap_ (startupSortResult st)) p = children_spec m (keys_of m) p;
  loop_has_children : ∀ k, k ∈ finished →
    is_Some (startupChildrenMap_ (startupSortResult st) !! k);
  loop_count : 0 ≤ main ∧ 0 ≤ thread ∧ main + thread = Z.of_nat (length finished);
  loop_topo : topo_ordered m finished;
  loop_result : zeroDequeResult_ (startupSortResult st) =
    filter (λ k, deps_of m k = []) (keys_of m);
}.

Lemma missing_nil_elem finished k d :
  missing finished k = [] → d ∈ deps_of m k → d ∈ finished.
Proof.
  intros Hm Hd. destruct (decide (d ∈ finished)) as [|Hn]; [done|].
  assert (d ∈ missing finished k) as Hin by (by apply list_elem_of_filter).
  rewrite Hm in Hin. by apply not_elem_of_nil in Hin.
Qed.

Lemma missing_snoc finished key k :
  key ∉ finished →
  length (missing finished k) =
  (length (missing (finished ++ [key]) k) + occ key (deps_of m k))%nat.
Proof. apply length_filter_not_in_snoc. Qed.

Lemma occ_children key c :
  occ c (children_spec m (keys_of m) key) =
  if decide (c ∈ dom m) then occ key (deps_of m c) else 0%nat.
Proof.
  unfold children_spec. rewrite (occ_bind_replicate (λ k, occ key (deps_of m k)))
    by apply NoDup_keys_of.
  apply decide_ext, elem_of_keys_of.
Qed.

Lemma elem_of_children key c :
  c ∈ children_spec m (keys_of m) key ↔ c ∈ dom m ∧ key ∈ deps_of m c.
Proof.
  rewrite <-!occ_pos, occ_children. case_decide; [tauto|].
  split; [lia|tauto].
Qed.

Lemma length_missing_bound k : k ∈ dom m → Z.of_nat (length (deps_of m k)) < UINT32_MOD.
Proof.
  intros [o Ho]%elem_of_dom. destruct Hwf as [Hw _]. destruct (Hw k o Ho) as (t & -> & _ & H).
  unfold deps_of. by rewrite Ho.
Qed.

(** Releasing the children of a task that is now processed: the in-degrees are
    those of the longer list, and the tasks it was the last to block are queued. *)
Lemma release_missing finished deg key rest cs :
  key ∉ finished →
  (∀ k, k ∈ dom m → deg !! k = Some (Z.of_nat (length (missing finished k)))) →
  (∀ c, occ c cs = if decide (c ∈ dom m) then occ key (deps_of m c) else 0%nat) →
  let r := release_children cs deg rest in
  ∃ new, r.2 = rest ++ new ∧ NoDup new ∧
    (∀ c, c ∈ new ↔ c ∈ dom m ∧ key ∈ deps_of m c ∧ missing (finished ++ [key]) c = []) ∧
    (∀ k, k ∈ dom m → r.1 !! k = Some (Z.of_nat (length (missing (finished ++ [key]) k)))).
Proof.
  intros Hkf Hdeg Hocc r.
  assert (∀ c, c ∈ cs ↔ c ∈ dom m ∧ key ∈ deps_of m c) as Hcs.
  { intros c. rewrite <-!occ_pos, Hocc. case_decide; [tauto|]. split; [lia|tauto]. }
  destruct (release_children_spec cs deg rest) as (new & Hr2 & Hnn & Hnew & Hr1).
  { intros c Hc. pose proof Hc as [Hdom _]%Hcs.
    exists (Z.of_nat (length (missing finished c))). split; [by apply Hdeg|].
    rewrite Hocc, decide_True by done.
    pose proof (missing_snoc finished key c Hkf).
    pose proof (length_missing_bound c Hdom).
    pose proof (length_filter (.∉ finished) (deps_of m c)). unfold missing in *. lia. }
  exists new. split_and!; [done|done| |].
  - intros c. rewrite Hnew, Hcs.
    destruct (decide (c ∈ dom m)) as [Hdom|]; [|tauto].
    rewrite Hocc, decide_True, Hdeg by done.
    pose proof (missing_snoc finished key c Hkf) as Hs.
    rewrite <-length_zero_iff_nil. split.
    + intros ((_ & ?) & [= ?]). split_and!; [done|done|lia].
    + intros (_ & ? & Hz). split; [done|]. f_equal. lia.
  - intros k Hk. unfold r. rewrite Hr1, (Hdeg k Hk), Hocc, decide_True by done.
    simpl. f_equal. pose proof (missing_snoc finished key k Hkf). lia.
Qed.

(** A task without missing dependencies has none after one more is processed. *)
Lemma missing_nil_snoc finished key k :
  key ∉ finished →
  missing (finished ++ [key]) k = [] ↔
  missing finished k = [] ∨ (key ∈ deps_of m k ∧ missing (finished ++ [key]) k = []).
Proof.
  intros Hkf. pose proof (missing_snoc finished key k Hkf) as Hs.
  rewrite <-!length_zero_iff_nil. split.
  - intros Hz. destruct (decide (key ∈ deps_of m k)) as [Hin|Hni]; [by right|left].
    apply occ_zero in Hni. lia.
  - intros [?|[_ ?]]; lia.
Qed.

(** Processing the head of the queue re-establishes the invariant. *)
Lemma loop_step finished st main thread key rest t :
  loop_inv finished st main thread →
  zeroDeque st = key :: rest → m !! key = Some (Some t) →
  let res := startupSortResult st in
  let cs := children_of (startupChildrenMap_ res) key in
  let r := release_children cs (inDegreeMap st) rest in
  loop_inv (finished ++ [key])
    (mkSortState r.1 r.2
       (mkSortResult (<[key := cs]> (startupChildrenMap_ res)) (zeroDequeResult_ res)))
    (if GetCallCreateOnMainThread t then u32 (main + 1) else main)
    (if GetCallCreateOnMainThread t then thread else u32 (thread + 1)).
Proof.
  intros [Hnd Hdeg Hready Hch Hhas Hcnt Htopo Hzr] Hdq Hkey res cs r.
  rewrite Hdq in *.
  assert (key ∉ finished) as Hkf.
  { apply NoDup_app in Hnd as (_ & Hd & _). intros Hin. apply (Hd _ Hin), list_elem_of_here. }
  assert (cs = children_spec m (keys_of m) key) as Hcs by apply Hch.
  destruct (release_missing finished (inDegreeMap st) key rest cs Hkf Hdeg)
    as (new & Hr2 & Hnn & Hnew' & Hr1); [intros c; rewrite Hcs; apply occ_children|].
  fold r in Hr2, Hr1.
  split; cbn [zeroDeque inDegreeMap startupSortResult startupChildrenMap_ zeroDequeResult_].
  - rewrite Hr2, (assoc_L (++)). rewrite <-(app_assoc finished [key] rest). simpl.
    apply NoDup_app. split_and!; [done| |done].
    intros c Hc Hcn. apply Hready in Hc as [_ Hm]. apply Hnew' in Hcn as (_ & Hk & _).
    apply Hkf. by apply (missing_nil_elem finished c).
  - done.
  - intros k. rewrite Hr2, (assoc_L (++)), <-(app_assoc finished [key] rest), elem_of_app.
    simpl. rewrite Hready, Hnew', (missing_nil_snoc finished key k Hkf). tauto.
  - intros p. rewrite children_of_insert. case_decide; [by subst|done].
  - intros k. rewrite elem_of_app, list_elem_of_singleton, lookup_insert.
    case_decide; [done|]. intros [?| ->]; [auto|done].
  - destruct Hcnt as (H1 & H2 & H3). rewrite length_app. simpl.
    assert (Z.of_nat (length finished) + 1 < UINT32_MOD).
    { destruct Hwf as [_ Hsz]. rewrite <-length_keys_of in Hsz.
      assert (length (finished ++ key :: rest) ≤ length (keys_of m))%nat as Hle.
      { apply submseteq_length, NoDup_submseteq; [done|].
        intros k Hk. apply Hready in Hk as [? _]. by apply elem_of_keys_of. }
      rewrite length_app in Hle. simpl in Hle. lia. }
    destruct (GetCallCreateOnMainThread t); rewrite u32_small by lia; lia.
  - intros l1 k l2 E d Hd.
    destruct l2 as [|k2 l2 _] using rev_ind.
    + apply app_inj_tail in E as [-> ->].
      apply (missing_nil_elem l1 k); [|done]. apply Hready.
      apply elem_of_app. right. apply list_elem_of_here.
    + rewrite app_comm_cons, (assoc_L (++)) in E. apply app_inj_tail in E as [E _].
      by apply (Htopo _ _ _ E).
  - done.
Qed.
End Loop.

Section Correctness.
Context (m : TaskMap) (Hwf : tasks_wf m).

Lemma deps_closed_alt :
  deps_closed m ↔ set_Forall (λ a, Forall (.∈ dom m) (deps_of m a)) (dom m).
Proof.
  split.
  - intros Hc a Ha. apply Forall_forall. intros b. by apply Hc.
  - intros Hall a b Ha Hb. specialize (Hall a Ha). simpl in Hall.
    rewrite Forall_forall in Hall. by apply Hall.
Qed.

#[local] Instance deps_closed_dec : Decision (deps_closed m).
Proof.
  refine (cast_if (decide (set_Forall (λ a, Forall (.∈ dom m) (deps_of m a)) (dom m))));
    by rewrite deps_closed_alt.
Defined.

Lemma loop_finished_bound finished st main thread :
  loop_inv m finished st main thread →
  (length finished + length (zeroDeque st) ≤ size m)%nat.
Proof.
  intros H. rewrite <-length_app, <-length_keys_of.
  apply submseteq_length, NoDup_submseteq; [apply H|].
  intros k Hk. apply (loop_ready _ _ _ _ _ H) in Hk as [? _]. by apply elem_of_keys_of.
Qed.

(** The loop ends with the queue empty within one step per unfinished task. *)
Lemma sort_loop_terminates fuel finished st main thread :
  loop_inv m finished st main thread → (size m - length finished < fuel)%nat →
  ∃ finished' st' main' thread',
    sort_loop fuel m st main thread = Some (ERR_OK, st', main', thread') ∧
    zeroDeque st' = [] ∧ loop_inv m finished' st' main' thread'.
Proof.
  revert finished st main thread.
  induction fuel as [|fuel IH]; intros finished st main thread Hinv Hf; [lia|].
  cbn [sort_loop]. destruct (zeroDeque st) as [|key rest] eqn:Hdq; [by eauto 10|].
  assert (key ∈ dom m) as [o Ho]%elem_of_dom.
  { apply (loop_ready _ _ _ _ _ Hinv). rewrite Hdq. apply elem_of_app. right.
    apply list_elem_of_here. }
  rewrite Ho. destruct (proj1 Hwf key o Ho) as (t & -> & _ & _).
  pose proof (loop_finished_bound _ _ _ _ Hinv) as Hb. rewrite Hdq in Hb. simpl in Hb.
  pose proof (loop_step m Hwf _ _ _ _ _ _ _ Hinv Hdq Ho) as Hstep. cbv zeta in Hstep.
  destruct (release_children _ _ _) as [deg' dq']. cbn [fst snd] in Hstep.
  eapply IH; [exact Hstep|]. rewrite length_app. simpl. lia.
Qed.

Lemma init_inv_empty : init_inv m [] SortState_empty.
Proof. by split. Qed.

Lemma init_inv_loop st : init_inv m (keys_of m) st → loop_inv m [] st 0 0.
Proof.
  intros [Hdeg Hdq Hres Hch].
  assert (∀ k, missing m [] k = deps_of m k) as Hmiss.
  { intros k. apply filter_all. intros d _. apply not_elem_of_nil. }
  split; rewrite ?app_nil_l.
  - rewrite Hdq. apply NoDup_filter, NoDup_keys_of.
  - intros k Hk. rewrite Hdeg, Hmiss, decide_True; [done|by apply elem_of_keys_of].
  - intros k. rewrite Hdq, list_elem_of_filter, elem_of_keys_of, Hmiss. tauto.
  - done.
  - by intros k ?%not_elem_of_nil.
  - simpl. lia.
  - intros l1 k l2 E. by destruct l1.
  - by rewrite Hres, Hdq.
Qed.

(** The first loop on the whole map. *)
Lemma sort_init_all :
  let r := sort_init (map_iter m) m SortState_empty in
  (deps_closed m → r.1 = ERR_OK ∧ loop_inv m [] r.2 0 0) ∧
  (¬ deps_closed m → r.1 = ERR_STARTUP_DEPENDENCY_NOT_FOUND).
Proof.
  intros r. destruct (sort_init_spec m Hwf (map_iter m) [] SortState_empty) as [Hok Hmiss].
  - intros k o. apply elem_of_map_iter.
  - apply NoDup_keys_of.
  - apply init_inv_empty.
  - split.
    + intros Hcl. destruct Hok as [E Hinv].
      { intros k d Hk. apply Hcl. by apply elem_of_keys_of. }
      split; [done|by apply init_inv_loop].
    + intros Hex. rewrite deps_closed_alt in Hex.
      apply not_set_Forall_Exists in Hex as (k & Hk & Hd); [|apply _]. simpl in Hd.
      apply not_Forall_Exists in Hd; [|apply _]. apply Exists_exists in Hd as (d & Hd & Hm).
      apply (Hmiss k d); [by apply elem_of_keys_of|done|done].
Qed.

(** When the queue is empty, all tasks are processed iff there is no cycle. *)
Lemma finished_all_iff finished st main thread :
  deps_closed m → loop_inv m finished st main thread → zeroDeque st = [] →
  (main + thread = Z.of_nat (size m) ↔ acyclic m) ∧
  (main + thread = Z.of_nat (size m) → finished ≡ₚ keys_of m).
Proof.
  intros Hcl Hinv Hdq. pose proof (loop_finished_bound _ _ _ _ Hinv) as Hb.
  destruct Hinv as [Hnd Hdeg Hready Hch Hhas Hcnt Htopo Hzr].
  rewrite Hdq in *. rewrite app_nil_r in *. destruct Hcnt as (_ & _ & ->).
  assert (Z.of_nat (length finished) = Z.of_nat (size m) → finished ≡ₚ keys_of m) as Hperm.
  { intros E. apply submseteq_length_Permutation.
    - apply NoDup_submseteq; [done|]. intros k [Hk _]%Hready. by apply elem_of_keys_of.
    - rewrite length_keys_of. lia. }
  split; [|done]. split.
  - intros E. apply (topo_ordered_acyclic m finished); [done|done|].
    intros k Hk. unfold deps_of. destruct (m !! k) as [o|] eqn:Ho; [|done].
    destruct Hk. rewrite (Hperm E). apply elem_of_keys_of, elem_of_dom. by exists o.
  - intros Hac. destruct (decide (keys_of m ⊆ finished)) as [Hsub|Hns].
    { f_equal. rewrite <-length_keys_of.
      apply Nat.le_antisymm; [rewrite length_keys_of; lia|].
      apply submseteq_length, NoDup_submseteq; [apply NoDup_keys_of|done]. }
    exfalso.
    assert (∃ k, k ∈ dom m ∖ list_to_set finished) as [k Hk].
    { destruct (decide (set_Forall (.∈ finished) (dom m))) as [Hall|Hex].
      - destruct Hns. intros k Hk%elem_of_keys_of. by apply Hall.
      - apply not_set_Forall_Exists in Hex as (k & Hk & Hn); [|apply _].
        exists k. by rewrite elem_of_difference, elem_of_list_to_set. }
    apply (no_sink_cycle m (dom m ∖ list_to_set finished) k Hk); [|done].
    intros a. rewrite elem_of_difference, elem_of_list_to_set. intros [Ha Hna].
    destruct (missing m finished a) as [|d ds] eqn:Em.
    { destruct Hna. by apply Hready. }
    assert (d ∈ missing m finished a) as [Hd1 Hd2]%list_elem_of_filter
      by (rewrite Em; apply list_elem_of_here).
    exists d. rewrite elem_of_difference, elem_of_list_to_set. eauto.
Qed.

(** The sort always answers, and the answer is one of three. *)
Lemma Sort_cases :
  (¬ deps_closed m ∧ ∃ res, Sort m = Some (ERR_STARTUP_DEPENDENCY_NOT_FOUND, res)) ∨
  (deps_closed m ∧ ∃ finished st main thread,
     loop_inv m finished st main thread ∧ zeroDeque st = [] ∧
     Sort m = Some (if decide (main + thread = Z.of_nat (size m))
                    then ERR_OK else ERR_STARTUP_CIRCULAR_DEPENDENCY, startupSortResult st)).
Proof.
  pose proof sort_init_all as Hinit. unfold Sort.
  destruct (sort_init (map_iter m) m SortState_empty) as [c st] eqn:E.
  cbn [fst snd] in Hinit. destruct Hinit as [Hok Hbad].
  destruct (decide (deps_closed m)) as [Hcl|Hn].
  - right. split; [done|]. destruct (Hok Hcl) as [-> Hinv]. cbn [negb Z.eqb ERR_OK].
    destruct (sort_loop_terminates (S (size m)) [] st 0 0 Hinv) as
      (fin & st' & ma & th & -> & Hdq & Hinv'); [simpl; lia|].
    exists fin, st', ma, th. split_and!; [done|done|]. cbn [negb Z.eqb ERR_OK].
    destruct (loop_count _ _ _ _ _ Hinv') as (? & ? & ?).
    pose proof (loop_finished_bound _ _ _ _ Hinv').
    pose proof (proj2 Hwf). rewrite u32_small by lia.
    case_decide; [by rewrite (proj2 (Z.eqb_eq _ _)) by done|].
    by rewrite (proj2 (Z.eqb_neq _ _)) by done.
  - left. split; [done|]. rewrite (Hbad Hn). simpl. eauto.
Qed.

(** What a successful sort returns. *)
Lemma Sort_ok_cases (res : StartupSortResult) :
  Sort m = Some (ERR_OK, res) →
  deps_closed m ∧
  (∀ k, k ∈ dom m → ∃ cs, startupChildrenMap_ res !! k = Some cs ∧
     ∀ c, occ c cs = if decide (c ∈ dom m) then occ k (deps_of m c) else 0%nat) ∧
  zeroDequeResult_ res = filter (λ k, deps_of m k = []) (keys_of m) ∧
  ∃ order, order ≡ₚ keys_of m ∧ topo_ordered m order.
Proof.
  intros E. destruct Sort_cases as
    [[Hn [res' E']]|(Hcl & fin & st & ma & th & Hinv & Hdq & E')];
    rewrite E in E'; [by injection E'|].
  case_decide as Hd; [|by injection E'].
  injection E' as ->.
  destruct (finished_all_iff fin st ma th Hcl Hinv Hdq) as [_ Hperm].
  specialize (Hperm Hd). split_and!.
  - done.
  - intros k Hk%elem_of_keys_of. rewrite <-Hperm in Hk.
    destruct (loop_has_children _ _ _ _ _ Hinv k Hk) as [cs Hcs]. exists cs. split; [done|].
    pose proof (loop_children _ _ _ _ _ Hinv k) as Hch. unfold children_of in Hch.
    rewrite Hcs in Hch. simpl in Hch. subst cs. apply occ_children.
  - apply (loop_result _ _ _ _ _ Hinv).
  - exists fin. split; [done|]. apply (loop_topo _ _ _ _ _ Hinv).
Qed.
End Correctness.

(** C1: on a map of registered tasks the sort terminates with one of three codes,
    and each code decides its condition: [ERR_OK] exactly for a closed acyclic
    dependency graph, the dependency error exactly when a dependency is not in
    the map, the circularity error exactly when the closed graph has a cycle. *)
Theorem Sort_decides (m : TaskMap) :
  tasks_wf m →
  ∃ code res, Sort m = Some (code, res) ∧
    (code = ERR_OK ↔ deps_closed m ∧ acyclic m) ∧
    (code = ERR_STARTUP_DEPENDENCY_NOT_FOUND ↔ ¬ deps_closed m) ∧
    (code = ERR_STARTUP_CIRCULAR_DEPENDENCY ↔ deps_closed m ∧ ¬ acyclic m).
Proof.
  intros Hwf. destruct (Sort_cases m Hwf) as
    [[Hn [res ->]]|(Hcl & fin & st & ma & th & Hinv & Hdq & ->)].
  - eexists _, _. split; [done|].
    split_and!; (split; [intros ?|try tauto]); try done; tauto.
  - destruct (finished_all_iff m fin st ma th Hcl Hinv Hdq) as [Hiff _].
    eexists _, _. split; [done|].
    case_decide as Hd; (split_and!; (split; [intros ?|try tauto]));
      try done; tauto.
Qed.

(** C2: what a successful sort hands to the dispatcher. Every task has an entry
    in the children map, with one occurrence of a child per occurrence of the
    task among the child's dependencies; the initial queue is the tasks without
    dependencies in key order; and the tasks can be listed so that each one
    comes after all its dependencies. *)
Theorem Sort_result (m : TaskMap) (res : StartupSortResult) :
  tasks_wf m → Sort m = Some (ERR_OK, res) →
  (∀ k, k ∈ dom m → ∃ cs, startupChildrenMap_ res !! k = Some cs ∧
     ∀ c, occ c cs = if decide (c ∈ dom m) then occ k (deps_of m c) else 0%nat) ∧
  zeroDequeResult_ res = filter (λ k, deps_of m k = []) (keys_of m) ∧
  ∃ order, order ≡ₚ keys_of m ∧ topo_ordered m order.
Proof.
  intros Hwf E. by destruct (Sort_ok_cases m Hwf res E) as [_ ?].
Qed.

(** ** A concrete request: three tasks, one of them listing a dependency twice *)

Definition ex_task (name : string) (deps : list string) : StartupTask :=
  SetDependencies (StartupTask_new name) deps.

Definition ex_tasks : TaskMap :=
  {[ "base" := Some (ex_task "base" []);
     "net" := Some (ex_task "net" ["base"; "base"]);
     "ui" := Some (ex_task "ui" ["base"; "net"]) ]}.

(** The executable form of [tasks_wf]. *)
Definition tasks_wfb (m : TaskMap) : bool :=
  forallb (λ '(k, o),
    match o with
    | Some t =>
      bool_decide (name_ t = k) && (Z.of_nat (length (dependencies_ t)) <? UINT32_MOD)
    | None => false
    end) (map_to_list m) && (Z.of_nat (size m) <? UINT32_MOD).

Lemma tasks_wfb_sound (m : TaskMap) : tasks_wfb m = true → tasks_wf m.
Proof.
  unfold tasks_wfb. intros [H1 H2]%andb_true_iff. rewrite forallb_forall in H1.
  split; [|by apply Z.ltb_lt]. intros k o Hk.
  apply elem_of_map_to_list, list_elem_of_In, H1 in Hk. destruct o as [t|]; [|done].
  apply andb_true_iff in Hk as [?%bool_decide_eq_true ?%Z.ltb_lt]. by exists t.
Qed.

Lemma Sort_decides_witness :
  tasks_wf ex_tasks ∧
  ∃ code res, Sort ex_tasks = Some (code, res) ∧
    (code = ERR_OK ↔ deps_closed ex_tasks ∧ acyclic ex_tasks) ∧
    (code = ERR_STARTUP_DEPENDENCY_NOT_FOUND ↔ ¬ deps_closed ex_tasks) ∧
    (code = ERR_STARTUP_CIRCULAR_DEPENDENCY ↔ deps_closed ex_tasks ∧ ¬ acyclic ex_tasks).
Proof.
  assert (tasks_wf ex_tasks) as Hwf by (apply tasks_wfb_sound; vm_compute; reflexivity).
  split; [exact Hwf|]. exact (Sort_decides ex_tasks Hwf).
Defined.

Definition ex_result : StartupSortResult :=
  mkSortResult
    {[ "base" := ["net"; "net"; "ui"]; "net" := ["ui"]; "ui" := [] ]} ["base"].

Lemma Sort_result_witness :
  Sort ex_tasks = Some (ERR_OK, ex_result) ∧
  ∃ order, order ≡ₚ keys_of ex_tasks ∧ topo_ordered ex_tasks order.
Proof.
  assert (Sort ex_tasks = Some (ERR_OK, ex_result)) as HS by (vm_compute; reflexivity).
  split; [exact HS|].
  refine (proj2 (proj2 (Sort_result ex_tasks ex_result _ HS))).
  apply tasks_wfb_sound; vm_compute; reflexivity.
Defined.
