(* ===== verification/StartupManager.v ===== *)
(** * Registration of startup tasks and construction of startup requests

    [StartupManager] ([startup_manager.cpp]) keeps the registered tasks and
    builds, for a request, the map of the tasks to run with everything they
    depend on; [StartupTaskManager] ([startup_task_manager.cpp]) sorts that map
    and reports errors to the listener of its configuration. *)

From S2P Require Import Prelude StartupTask TopologySort.
From stdpp Require Import prelude gmap strings list sorting relations.
From Stdlib Require Import ZArith Lia.

Local Open Scope Z_scope.

(** ** State

    Tasks are shared objects: maps hold pointers ([None] is null) into one heap,
    so that [RemoveResult] on a registered task is seen through every map. *)

Abbreviation PtrMap := (gmap string (option Z)).

(** [startup_config.cpp]: the timeout, and whether a listener is attached. *)
Record StartupConfig := mkConfig {
  awaitTimeoutMs_ : Z;
  hasListener_ : bool;
}.

Definition DEFAULT_AWAIT_TIMEOUT_MS : Z := 10000.
Definition StartupConfig_default : StartupConfig := mkConfig DEFAULT_AWAIT_TIMEOUT_MS false.
Definition GetAwaitTimeoutMs (c : StartupConfig) : Z := awaitTimeoutMs_ c.

(** [StartupTaskManager]; [dispatcher_] holds the sort result it was built from. *)
Record StartupTaskManager := mkTaskManager {
  startupTaskManagerId_ : Z;
  config_ : option StartupConfig;
  dispatcher_ : option StartupSortResult;
  tasks_ : PtrMap;
}.

(** The process-wide state: the heap of tasks, the [StartupManager] singleton and
    the calls made on listeners, each with the request that made it. *)
Record Startup := mkStartup {
  heap : gmap Z StartupTask;
  startupTasks_ : PtrMap;
  startupTaskManagerMap_ : gmap Z StartupTaskManager;
  startupTaskManagerId : Z;
  defaultConfig_ : option StartupConfig;
  listenerCalls : list (Z * StartupTaskResult);
}.

Definition with_heap (s : Startup) (h : gmap Z StartupTask) : Startup :=
  mkStartup h (startupTasks_ s) (startupTaskManagerMap_ s) (startupTaskManagerId s)
    (defaultConfig_ s) (listenerCalls s).

Definition with_managers (s : Startup) (ms : gmap Z StartupTaskManager) (id : Z) : Startup :=
  mkStartup (heap s) (startupTasks_ s) ms id (defaultConfig_ s) (listenerCalls s).

Definition with_calls (s : Startup) (calls : list (Z * StartupTaskResult)) : Startup :=
  mkStartup (heap s) (startupTasks_ s) (startupTaskManagerMap_ s) (startupTaskManagerId s)
    (defaultConfig_ s) calls.

(** The object behind a pointer. *)
Definition task_at (h : gmap Z StartupTask) (p : option Z) : option StartupTask :=
  p ≫= λ a, h !! a.

(** A map of pointers read through the heap. *)
Definition view (h : gmap Z StartupTask) (m : PtrMap) : TaskMap := task_at h <$> m.

(** [std::map::emplace]: an existing key is kept. *)
Definition emplace (k : string) (p : option Z) (m : PtrMap) : PtrMap :=
  match m !! k with
  | Some _ => m
  | None => <[k := p]> m
  end.

(** ** Operations of [StartupManager] *)

Definition RegisterStartupTask (s : Startup) (name : string) (startupTask : option Z)
    : Z * Startup :=
  match startupTasks_ s !! name with
  | Some _ => (ERR_STARTUP_INVALID_VALUE, s)
  | None =>
    (ERR_OK, mkStartup (heap s) (<[name := startupTask]> (startupTasks_ s))
               (startupTaskManagerMap_ s) (startupTaskManagerId s) (defaultConfig_ s)
               (listenerCalls s))
  end.

(** Push the dependencies that are not in [taskMap] yet; the top of the stack is
    the head of the list. *)
Fixpoint push_missing (deps : list string) (taskMap : PtrMap) (taskStack : list string)
    : list string :=
  match deps with
  | [] => taskStack
  | dep :: deps' =>
    push_missing deps' taskMap
      (match taskMap !! dep with Some _ => taskStack | None => dep :: taskStack end)
  end.

(** The loop of [AddStartupTask]; [None] when the fuel runs out. *)
Fixpoint add_loop (fuel : nat) (h : gmap Z StartupTask) (registered : PtrMap)
    (taskStack : list string) (taskMap : PtrMap) : option (Z * PtrMap) :=
  match fuel with
  | O => None
  | S fuel' =>
    match taskStack with
    | [] => Some (ERR_OK, taskMap)
    | taskName :: rest =>
      match registered !! taskName with
      | None => Some (ERR_STARTUP_DEPENDENCY_NOT_FOUND, taskMap)
      | Some p =>
        let taskMap' := emplace taskName p taskMap in
        match task_at h p with
        | None => Some (ERR_STARTUP_INTERNAL_ERROR, taskMap')
        | Some t =>
          add_loop fuel' h registered (push_missing (GetDependencies t) taskMap' rest) taskMap'
        end
      end
    end
  end.

(** The dependencies of all registered tasks, which bound the pushes. *)
Definition total_deps (m : TaskMap) : nat :=
  sum_list_with (λ k, length (deps_of m k)) (keys_of m).

(** Fuel for the loop: a task pushes its dependencies once
    ([add_loop_terminates]). *)
Definition add_fuel (h : gmap Z StartupTask) (registered : PtrMap) : nat :=
  S (S (total_deps (view h registered))).

Definition AddStartupTask (s : Startup) (name : string) (taskMap : PtrMap) : option (Z * PtrMap) :=
  match taskMap !! name with
  | Some _ => Some (ERR_OK, taskMap)
  | None => add_loop (add_fuel (heap s) (startupTasks_ s)) (heap s) (startupTasks_ s) [name] taskMap
  end.

(** The loop over [dependenciesSet]; the code returned by [AddStartupTask] is
    not looked at. *)
Fixpoint add_dependencies (s : Startup) (deps : list string) (taskMap : PtrMap) : option PtrMap :=
  match deps with
  | [] => Some taskMap
  | dep :: deps' =>
    match taskMap !! dep with
    | Some _ => add_dependencies s deps' taskMap
    | None =>
      match AddStartupTask s dep taskMap with
      | None => None
      | Some (_, taskMap') => add_dependencies s deps' taskMap'
      end
    end
  end.

(** A [std::set<std::string>] iterated in order. *)
Definition set_iter (ds : gset string) : list string := merge_sort String.le (elements ds).

(** Both builders end alike: complete the map, create the manager under the next
    identifier with the default configuration, and keep it. *)
Definition finish_build (s : Startup) (ds : gset string) (taskMap : PtrMap)
    : option (Z * option StartupTaskManager * Startup) :=
  match add_dependencies s (set_iter ds) taskMap with
  | None => None
  | Some taskMap' =>
    let mgr := mkTaskManager (startupTaskManagerId s) (defaultConfig_ s) None taskMap' in
    let managers :=
      match startupTaskManagerMap_ s !! startupTaskManagerId s with
      | Some _ => startupTaskManagerMap_ s
      | None => <[startupTaskManagerId s := mgr]> (startupTaskManagerMap_ s)
      end in
    Some (ERR_OK, Some mgr, with_managers s managers (u32 (startupTaskManagerId s + 1)))
  end.

(** The first loop of [BuildAutoStartupTaskManager]. *)
Fixpoint auto_seeds (entries : list (string * option Z)) (h : gmap Z StartupTask)
    (tasks : PtrMap) (ds : gset string) : sum Z (PtrMap * gset string) :=
  match entries with
  | [] => inr (tasks, ds)
  | (k, p) :: entries' =>
    match task_at h p with
    | None => inl ERR_STARTUP_INTERNAL_ERROR
    | Some t =>
      if GetIsExcludeFromAutoStart t then auto_seeds entries' h tasks ds
      else auto_seeds entries' h (emplace k p tasks) (ds ∪ list_to_set (GetDependencies t))
    end
  end.

Definition BuildAutoStartupTaskManager (s : Startup)
    : option (Z * option StartupTaskManager * Startup) :=
  match auto_seeds (map_iter (startupTasks_ s)) (heap s) ∅ ∅ with
  | inl e => Some (e, None, s)
  | inr (autoStartupTasks, dependenciesSet) => finish_build s dependenciesSet autoStartupTasks
  end.

(** The first loop of [BuildStartupTaskManager]. *)
Fixpoint input_seeds (inputDependencies : list string) (h : gmap Z StartupTask)
    (registered tasks : PtrMap) (ds : gset string) : sum Z (PtrMap * gset string) :=
  match inputDependencies with
  | [] => inr (tasks, ds)
  | name :: inputs' =>
    match registered !! name with
    | None => inl ERR_STARTUP_DEPENDENCY_NOT_FOUND
    | Some p =>
      match task_at h p with
      | None => inl ERR_STARTUP_INTERNAL_ERROR
      | Some t =>
        input_seeds inputs' h registered (emplace name p tasks)
          (ds ∪ list_to_set (GetDependencies t))
      end
    end
  end.

Definition BuildStartupTaskManager (s : Startup) (inputDependencies : list string)
    : option (Z * option StartupTaskManager * Startup) :=
  match input_seeds inputDependencies (heap s) (startupTasks_ s) ∅ ∅ with
  | inl e => Some (e, None, s)
  | inr (currentStartupTasks, dependenciesSet) =>
    finish_build s dependenciesSet currentStartupTasks
  end.

Definition OnStartupTaskManagerComplete (s : Startup) (id : Z) : Z * Startup :=
  match startupTaskManagerMap_ s !! id with
  | None => (ERR_STARTUP_INTERNAL_ERROR, s)
  | Some _ => (ERR_OK, with_managers s (delete id (startupTaskManagerMap_ s)) (startupTaskManagerId s))
  end.

Definition SetDefaultConfig (s : Startup) (config : option StartupConfig) : Startup :=
  mkStartup (heap s) (startupTasks_ s) (startupTaskManagerMap_ s) (startupTaskManagerId s)
    config (listenerCalls s).

(** [RemoveResult] on the object behind a pointer; a null pointer is skipped. *)
Definition remove_result_at (h : gmap Z StartupTask) (p : option Z) : Z * gmap Z StartupTask :=
  match p with
  | None => (ERR_STARTUP_INVALID_VALUE, h)
  | Some a =>
    match h !! a with
    | None => (ERR_STARTUP_INVALID_VALUE, h)
    | Some t => let '(code, t') := Task_RemoveResult t in (code, <[a := t']> h)
    end
  end.

Definition RemoveAllResult (s : Startup) : Z * Startup :=
  (ERR_OK, with_heap s
    (fold_left (λ h kp, (remove_result_at h kp.2).2) (map_iter (startupTasks_ s)) (heap s))).

Definition RemoveResult (s : Startup) (name : string) : Z * Startup :=
  match startupTasks_ s !! name with
  | None => (ERR_STARTUP_INVALID_VALUE, s)
  | Some p => let '(code, h') := remove_result_at (heap s) p in (code, with_heap s h')
  end.

(** [GetResult]: the code, and what the out-parameter is set to. *)
Definition GetResult (s : Startup) (name : string) : Z * option StartupTaskResult :=
  match startupTasks_ s !! name with
  | None => (ERR_STARTUP_INVALID_VALUE, None)
  | Some p =>
    match task_at (heap s) p with
    | None => (ERR_STARTUP_INVALID_VALUE, None)
    | Some t =>
      if negb (bool_decide (GetState t = INITIALIZED)) then (ERR_STARTUP_INVALID_VALUE, None)
      else (ERR_OK, GetTaskResult t)
    end
  end.

(** [IsInitialized]: the code, and the value of the out-parameter when it is set. *)
Definition IsInitialized (s : Startup) (name : string) : Z * option bool :=
  match startupTasks_ s !! name with
  | None => (ERR_STARTUP_INVALID_VALUE, None)
  | Some p =>
    match task_at (heap s) p with
    | None => (ERR_STARTUP_INVALID_VALUE, None)
    | Some t => (ERR_OK, Some (bool_decide (GetState t = INITIALIZED)))
    end
  end.

(** ** Operations of [StartupTaskManager] *)

Definition AddTask (h : gmap Z StartupTask) (mgr : StartupTaskManager) (task : option Z)
    : Z * StartupTaskManager :=
  match task_at h task with
  | None => (ERR_STARTUP_INVALID_VALUE, mgr)
  | Some t =>
    match tasks_ mgr !! GetName t with
    | Some _ => (ERR_STARTUP_INVALID_VALUE, mgr)
    | None => (ERR_OK, mkTaskManager (startupTaskManagerId_ mgr) (config_ mgr) (dispatcher_ mgr)
                         (<[GetName t := task]> (tasks_ mgr)))
    end
  end.

Definition SetConfig (mgr : StartupTaskManager) (config : option StartupConfig)
    : StartupTaskManager :=
  mkTaskManager (startupTaskManagerId_ mgr) config (dispatcher_ mgr) (tasks_ mgr).

(** [CallListenerOnCompleted]: without a configuration nothing happens, the
    request is not even dropped from the map of managers. *)
Definition CallListenerOnCompleted (s : Startup) (mgr : StartupTaskManager) (result : Z)
    (resultMessage : string) : Startup :=
  match config_ mgr with
  | None => s
  | Some c =>
    let r := if bool_decide (resultMessage = "") then mkResult result (GetErrorMessage result)
             else mkResult result resultMessage in
    let calls := if hasListener_ c then [(startupTaskManagerId_ mgr, r)] else [] in
    (OnStartupTaskManagerComplete (with_calls s (listenerCalls s ++ calls))
       (startupTaskManagerId_ mgr)).2
  end.

(** [Prepare]; [None] only when the sort has no result. *)
Definition Prepare (s : Startup) (mgr : StartupTaskManager)
    : option (Z * StartupTaskManager * Startup) :=
  match Sort (view (heap s) (tasks_ mgr)) with
  | None => None
  | Some (result, startupSortResult) =>
    if negb (result =? ERR_OK) then Some (result, mgr, CallListenerOnCompleted s mgr result "")
    else if bool_decide (tasks_ mgr = ∅) then Some (ERR_STARTUP_INTERNAL_ERROR, mgr, s)
    else Some (ERR_OK, mkTaskManager (startupTaskManagerId_ mgr) (config_ mgr)
                         (Some startupSortResult) (tasks_ mgr), s)
  end.

Definition OnTimeout (s : Startup) (mgr : StartupTaskManager) : Startup :=
  (OnStartupTaskManagerComplete
     (CallListenerOnCompleted s mgr ERR_STARTUP_TIMEOUT (GetErrorMessage ERR_STARTUP_TIMEOUT))
     (startupTaskManagerId_ mgr)).2.

(** ** The loop of [AddStartupTask] computes what a task needs *)

Lemma sum_filter_insert (f : string → nat) (ks : list string) (tm : PtrMap) k p :
  NoDup ks → k ∈ ks → tm !! k = None →
  sum_list_with f (filter (λ x, tm !! x = None) ks) =
  (f k + sum_list_with f (filter (λ x, <[k := p]> tm !! x = None) ks))%nat.
Proof.
  intros Hnd Hk Hn. induction Hnd as [|x ks Hx Hnd IH]; [by apply not_elem_of_nil in Hk|].
  apply elem_of_cons in Hk as [<-|Hk].
  - rewrite filter_cons_True by done.
    rewrite filter_cons_False by by rewrite lookup_insert_eq. simpl. f_equal.
    f_equal. apply list_filter_iff_local. intros y Hy.
    rewrite lookup_insert_ne; [done|congruence].
  - assert (k ≠ x) by congruence. rewrite !filter_cons, lookup_insert_ne by done.
    case_decide; simpl; rewrite IH by done; lia.
Qed.

Section AddLoop.
Context (h : gmap Z StartupTask) (registered : PtrMap).

Abbreviation V := (view h registered).

(** Every task on the stack that is already in the map has its dependencies in
    the map or above it on the stack. *)
Definition stack_inv (stack : list string) (tm : PtrMap) : Prop :=
  ∀ s1 k s2 d, stack = s1 ++ k :: s2 → k ∈ dom tm → d ∈ deps_of V k → d ∈ dom tm ∨ d ∈ s1.

(** What is left to do: the stack and the dependencies not pushed yet. *)
Definition add_measure (stack : list string) (tm : PtrMap) : nat :=
  length stack + sum_list_with (λ k, length (deps_of V k))
    (filter (λ k, tm !! k = None) (keys_of V)).

Lemma push_missing_spec deps tm stack :
  ∃ new, push_missing deps tm stack = new ++ stack ∧
    (∀ d, d ∈ new ↔ d ∈ deps ∧ d ∉ dom tm) ∧ (length new ≤ length deps)%nat.
Proof.
  revert stack. induction deps as [|d deps IH]; intros stack; simpl.
  - exists []. split_and!; [done| |done].
    intros d. split; [by intros ?%not_elem_of_nil|by intros [?%not_elem_of_nil _]].
  - destruct (tm !! d) as [o|] eqn:E.
    + destruct (IH stack) as (new & -> & Hn & Hl). exists new. split_and!; [done| |lia].
      intros d'. rewrite Hn, elem_of_cons. split; [tauto|]. intros [[->|?] Hd]; [|tauto].
      destruct Hd. apply elem_of_dom. by exists o.
    + destruct (IH (d :: stack)) as (new & -> & Hn & Hl).
      exists (new ++ [d]). rewrite <-app_assoc, length_app. simpl. split_and!; [done| |lia].
      intros d'. rewrite elem_of_app, list_elem_of_singleton, Hn, elem_of_cons.
      apply not_elem_of_dom in E. split; [|tauto]. intros [?| ->]; tauto.
Qed.

Lemma dom_emplace k p tm : dom (emplace k p tm) = {[k]} ∪ dom tm.
Proof.
  unfold emplace. destruct (tm !! k) as [o|] eqn:E.
  - assert (k ∈ dom tm) by (apply elem_of_dom; by exists o). set_solver.
  - apply dom_insert_L.
Qed.

Lemma emplace_subseteq k p tm : tm ⊆ emplace k p tm.
Proof. unfold emplace. destruct (tm !! k) eqn:E; [done|by apply insert_subseteq]. Qed.

Lemma emplace_registered k p tm :
  tm ⊆ registered → registered !! k = Some p → emplace k p tm ⊆ registered.
Proof.
  intros Hs Hk. unfold emplace. destruct (tm !! k); [done|].
  by apply insert_subseteq_l.
Qed.

Lemma deps_of_view k p t :
  registered !! k = Some p → task_at h p = Some t → deps_of V k = dependencies_ t.
Proof. intros Hk Ht. unfold deps_of, view. by rewrite lookup_fmap, Hk; simpl; rewrite Ht. Qed.

Lemma dom_view : dom V = dom registered.
Proof. apply dom_fmap_L. Qed.

Lemma stack_inv_step k rest tm p t new :
  stack_inv (k :: rest) tm →
  registered !! k = Some p → task_at h p = Some t →
  (∀ d, d ∈ new ↔ d ∈ dependencies_ t ∧ d ∉ dom (emplace k p tm)) →
  stack_inv (new ++ rest) (emplace k p tm) ∧ (k ∈ dom tm → new = []).
Proof.
  intros Hinv Hk Ht Hnew. pose proof (deps_of_view k p t Hk Ht) as Hdeps.
  rewrite dom_emplace in *. split.
  - intros s1 x s2 d E Hx Hd.
    rewrite dom_emplace, elem_of_union, elem_of_singleton in *.
    destruct (decide (d ∈ {[k]} ∪ dom tm)) as [?%elem_of_union|Hnd]; [left; set_solver|right].
    apply app_eq_inv in E as [(r & -> & Er)|(r & -> & Er)].
    + destruct r as [|y r]; simplify_eq/=.
      * rewrite app_nil_r in Hnew.
        destruct Hx as [->|Hx]; [apply Hnew; by rewrite <-Hdeps|].
        destruct (Hinv (k :: []) x s2 d) as [?|Hd']; [done|done|done|set_solver|].
        apply list_elem_of_singleton in Hd'. set_solver.
      * assert (y ∈ (s1 ++ y :: r)) as Hy by (apply elem_of_app; right; apply list_elem_of_here).
        apply Hnew in Hy as [_ Hy]. set_solver.
    + destruct Hx as [->|Hx].
      * apply elem_of_app. left. apply Hnew. by rewrite <-Hdeps.
      * destruct (Hinv (k :: r) x s2 d) as [?|Hd'];
          [by rewrite Er|done|done|set_solver|].
        apply elem_of_cons in Hd' as [->|?]; [set_solver|apply elem_of_app; by right].
  - intros Hin. destruct new as [|d new]; [done|]. exfalso.
    destruct (proj1 (Hnew d) (list_elem_of_here _ _)) as [Hd Hnd].
    destruct (Hinv [] k rest d) as [?|?%not_elem_of_nil]; [done|done|by rewrite Hdeps|set_solver|done].
Qed.

Lemma add_measure_step k rest tm p t new :
  registered !! k = Some p → task_at h p = Some t →
  (length new ≤ length (dependencies_ t))%nat → (k ∈ dom tm → new = []) →
  (add_measure (new ++ rest) (emplace k p tm) < add_measure (k :: rest) tm)%nat.
Proof.
  intros Hk Ht Hlen Hnil. unfold add_measure. rewrite length_app. simpl.
  unfold emplace. destruct (tm !! k) as [o|] eqn:E.
  - rewrite Hnil by (apply elem_of_dom; by exists o). simpl. lia.
  - rewrite (sum_filter_insert (λ x, length (deps_of V x)) (keys_of V) tm k p).
    + rewrite (deps_of_view k p t Hk Ht). lia.
    + apply NoDup_keys_of.
    + apply elem_of_keys_of. rewrite dom_view. apply elem_of_dom. by exists p.
    + done.
Qed.

(** The loop terminates; it only adds tasks reachable from the stack, and when
    it succeeds the stack is in the map and each added task has its
    dependencies there. *)
Lemma add_loop_spec fuel stack tm :
  stack_inv stack tm → tm ⊆ registered → (add_measure stack tm < fuel)%nat →
  ∃ code tm', add_loop fuel h registered stack tm = Some (code, tm') ∧
    tm ⊆ tm' ∧ tm' ⊆ registered ∧
    (∀ k, k ∈ dom tm' → k ∈ dom tm ∨ ∃ a, a ∈ stack ∧ rtc (depends V) a k) ∧
    (code = ERR_OK →
       (∀ a, a ∈ stack → a ∈ dom tm') ∧
       (∀ k d, k ∈ dom tm' → k ∉ dom tm → depends V k d → d ∈ dom tm')) ∧
    ((∀ k, k ∈ dom registered → is_Some (V !! k ≫= id)) → deps_closed V →
       (∀ a, a ∈ stack → a ∈ dom registered) → code = ERR_OK).
Proof.
  revert stack tm. induction fuel as [|fuel IH]; intros stack tm Hinv Hsub Hf; [lia|].
  destruct stack as [|k rest]; cbn [add_loop].
  { exists ERR_OK, tm. split_and!; [done|done|done|by left| |done].
    intros _. split; [by intros a ?%not_elem_of_nil|done]. }
  destruct (registered !! k) as [p|] eqn:Hk; cycle 1.
  { eexists _, tm. split_and!; [done|done|done|by left|done|].
    intros _ _ Hst. apply not_elem_of_dom in Hk. destruct Hk. apply Hst, list_elem_of_here. }
  pose proof (emplace_subseteq k p tm) as Hext.
  pose proof (emplace_registered k p tm Hsub Hk) as Hsub'.
  destruct (task_at h p) as [t|] eqn:Ht; cycle 1.
  { eexists _, _. split_and!; [done|done|done| |done|].
    - intros x. rewrite dom_emplace, elem_of_union, elem_of_singleton. intros [->|?]; [|by left].
      right. exists k. split; [apply list_elem_of_here|done].
    - intros Hnn. specialize (Hnn k). unfold view in Hnn. rewrite lookup_fmap, Hk in Hnn.
      simpl in Hnn. rewrite Ht in Hnn. destruct Hnn as [? [=]]. apply elem_of_dom. by exists p. }
  pose proof (deps_of_view k p t Hk Ht) as Hdeps.
  destruct (push_missing_spec (dependencies_ t) (emplace k p tm) rest)
    as (new & Hpush & Hnew & Hlen).
  destruct (stack_inv_step k rest tm p t new Hinv Hk Ht Hnew) as [Hinv' Hnil].
  pose proof (add_measure_step k rest tm p t new Hk Ht Hlen Hnil) as Hm.
  unfold GetDependencies. rewrite Hpush.
  destruct (IH (new ++ rest) (emplace k p tm) Hinv' Hsub' ltac:(lia))
    as (code & tm' & -> & H1 & H2 & H3 & H4 & H5).
  exists code, tm'. split_and!; [done|by etrans|done| | |].
  - intros x Hx. destruct (H3 x Hx) as [Hx'|(a & Ha & Hrtc)].
    + rewrite dom_emplace, elem_of_union, elem_of_singleton in Hx'.
      destruct Hx' as [->|?]; [|by left]. right. exists k. split; [apply list_elem_of_here|done].
    + right. apply elem_of_app in Ha as [[Ha _]%Hnew|Ha].
      * exists k. split; [apply list_elem_of_here|]. apply rtc_l with a; [|done].
        unfold depends. by rewrite Hdeps.
      * exists a. split; [by apply list_elem_of_further|done].
  - intros ->. destruct (H4 eq_refl) as [H41 H42].
    pose proof (subseteq_dom _ _ H1) as Hdom. rewrite dom_emplace in Hdom. split.
    + intros a [->|Ha]%elem_of_cons; [set_solver|].
      apply H41, elem_of_app. by right.
    + intros x d Hx Hnx Hd. destruct (decide (x = k)) as [->|Hne].
      * unfold depends in Hd. rewrite Hdeps in Hd.
        destruct (decide (d ∈ dom (emplace k p tm))) as [Hin|Hni].
        -- by apply (subseteq_dom _ _ H1).
        -- apply H41, elem_of_app. left. by apply Hnew.
      * apply (H42 x); [done| |done]. rewrite dom_emplace. set_solver.
  - intros Hnn Hcl Hst. apply H5; [done|done|]. intros a [[Ha _]%Hnew|Ha]%elem_of_app.
    + rewrite <-dom_view. apply (Hcl k a); [rewrite dom_view; apply elem_of_dom; by exists p|].
      unfold depends. by rewrite Hdeps.
    + by apply Hst, list_elem_of_further.
Qed.

Lemma add_measure_start name tm : (add_measure [name] tm < add_fuel h registered)%nat.
Proof.
  unfold add_measure, add_fuel, total_deps. simpl.
  assert (∀ ks, sum_list_with (λ k, length (deps_of V k)) (filter (λ k, tm !! k = None) ks) ≤
                sum_list_with (λ k, length (deps_of V k)) ks)%nat as H; [|specialize (H (keys_of V)); lia].
  intros ks. induction ks as [|k ks IH]; [done|].
  rewrite filter_cons. case_decide; simpl; lia.
Qed.

Lemma stack_inv_start name tm : name ∉ dom tm → stack_inv [name] tm.
Proof.
  intros Hn s1 k s2 d E Hk. destruct s1 as [|x [|y s1]]; simplify_eq/=. done.
Qed.
End AddLoop.

(** ** The builders *)

(** A registry the framework accepts: every task non-null and under its own
    name, every dependency registered, and sizes that fit the counters. *)
Definition registry_ok (s : Startup) : Prop :=
  tasks_wf (view (heap s) (startupTasks_ s)) ∧ deps_closed (view (heap s) (startupTasks_ s)).

Section Build.
Context (s : Startup).

Abbreviation reg := (startupTasks_ s).
Abbreviation G := (view (heap s) (startupTasks_ s)).

(** What the map holds while dependencies are being added: registered tasks
    reachable from the seeds, with every dependency in the map or in [todo]. *)
Record build_inv (seeds : list string) (todo : list string) (tm : PtrMap) : Prop := {
  build_reg : tm ⊆ reg;
  build_seeds : ∀ a, a ∈ seeds → a ∈ dom tm;
  build_reach : ∀ k, k ∈ dom tm → ∃ a, a ∈ seeds ∧ rtc (depends G) a k;
  build_deps : ∀ k d, k ∈ dom tm → depends G k d → d ∈ dom tm ∨ d ∈ todo;
  build_todo : ∀ d, d ∈ todo → ∃ k, k ∈ dom tm ∧ depends G k d;
}.

Lemma registry_no_null : tasks_wf G → ∀ k, k ∈ dom reg → is_Some (G !! k ≫= id).
Proof.
  intros [Hw _] k Hk. rewrite <-(dom_view (heap s) reg) in Hk.
  apply elem_of_dom in Hk as [o Ho]. destruct (Hw k o Ho) as (t & -> & _).
  rewrite Ho. by exists t.
Qed.

Lemma add_dependencies_spec seeds todo tm :
  registry_ok s → build_inv seeds todo tm →
  ∃ tm', add_dependencies s todo tm = Some tm' ∧ build_inv seeds [] tm'.
Proof.
  intros [Hwf Hcl]. revert tm. induction todo as [|d todo IH]; intros tm Hinv; [by eauto|].
  cbn [add_dependencies]. destruct Hinv as [H1 H2 H3 H4 H5].
  destruct (tm !! d) as [o|] eqn:Ed.
  { apply IH. assert (d ∈ dom tm) by (apply elem_of_dom; by exists o).
    split; try done.
    - intros k x Hk Hx. destruct (H4 k x Hk Hx) as [?|[->|?]%elem_of_cons]; auto.
    - intros x Hx. by apply H5, list_elem_of_further. }
  unfold AddStartupTask. rewrite Ed. apply not_elem_of_dom in Ed.
  destruct (H5 d (list_elem_of_here _ _)) as (k0 & Hk0 & Hd0).
  destruct (add_loop_spec (heap s) reg (add_fuel (heap s) reg) [d] tm) as
    (code & tm' & -> & E1 & E2 & E3 & E4 & E5).
  { by apply stack_inv_start. } { done. } { apply add_measure_start. }
  assert (code = ERR_OK) as ->.
  { apply E5; [by apply registry_no_null|done|]. intros a ->%list_elem_of_singleton.
    rewrite <-(dom_view (heap s) reg). apply (Hcl k0 d); [|done].
    rewrite dom_view. by apply (subseteq_dom _ _ H1). }
  destruct (E4 eq_refl) as [E41 E42]. pose proof (subseteq_dom _ _ E1) as Hdom.
  apply IH. split; [done|by intros a ?%H2%Hdom| | |].
  - intros k Hk. destruct (E3 k Hk) as [?|(a & ->%list_elem_of_singleton & Hr)]; [by apply H3|].
    destruct (H3 k0 Hk0) as (a & Ha & Hr0). exists a. split; [done|].
    etrans; [done|]. by apply rtc_l with d.
  - intros k x Hk Hx. destruct (decide (k ∈ dom tm)) as [Hin|Hni]; [|left; by apply (E42 k)].
    destruct (H4 k x Hin Hx) as [?|[->|?]%elem_of_cons]; [|left|by right].
    + left. by apply Hdom.
    + apply E41, list_elem_of_here.
  - intros x Hx. destruct (H5 x) as (k & Hk & ?); [by apply list_elem_of_further|].
    exists k. split; [by apply Hdom|done].
Qed.

Lemma elem_of_set_iter (ds : gset string) d : d ∈ set_iter ds ↔ d ∈ ds.
Proof. unfold set_iter. rewrite merge_sort_Permutation. apply elem_of_elements. Qed.

(** What both builders return, given the result of their first loop: a map with
    exactly the tasks the seeds need. *)
Lemma finish_build_spec seeds ds tm :
  registry_ok s → build_inv seeds (set_iter ds) tm →
  ∃ mgr s', finish_build s ds tm = Some (ERR_OK, Some mgr, s') ∧
    tasks_ mgr ⊆ reg ∧
    (∀ k, k ∈ dom (tasks_ mgr) ↔ ∃ a, a ∈ seeds ∧ rtc (depends G) a k) ∧
    config_ mgr = defaultConfig_ s ∧ startupTaskManagerId_ mgr = startupTaskManagerId s ∧
    heap s' = heap s ∧ startupTaskManagerId s' = u32 (startupTaskManagerId s + 1).
Proof.
  intros Hok Hinv. unfold finish_build.
  destruct (add_dependencies_spec seeds (set_iter ds) tm Hok Hinv) as (tm' & -> & [H1 H2 H3 H4 _]).
  eexists _, _. split; [done|]. simpl. split_and!; try done.
  intros k. split; [apply H3|]. intros (a & Ha & Hr). apply H2 in Ha.
  induction Hr as [x|x y z Hxy _ IH]; [done|]. apply IH.
  destruct (H4 x y Ha Hxy) as [?|?%not_elem_of_nil]; done.
Qed.
End Build.

(** ** Seeds: the tasks a request asks for *)

Section Seeds.
Context (s : Startup).

Abbreviation reg := (startupTasks_ s).
Abbreviation G := (view (heap s) (startupTasks_ s)).

(** The state of the first loop of a builder after the seeds were read. *)
Record seeds_inv (seeds : list string) (tm : PtrMap) (ds : gset string) : Prop := {
  seeds_reg : tm ⊆ reg;
  seeds_dom : ∀ k, k ∈ dom tm ↔ k ∈ seeds;
  seeds_deps : ∀ d, d ∈ ds ↔ ∃ k, k ∈ seeds ∧ depends G k d;
}.

Lemma seeds_inv_empty : seeds_inv [] ∅ ∅.
Proof.
  split; [apply map_empty_subseteq|set_solver|].
  intros d. split; [set_solver|]. by intros (k & ?%not_elem_of_nil & _).
Qed.

Lemma seeds_inv_step seeds tm ds k p t :
  seeds_inv seeds tm ds → reg !! k = Some p → task_at (heap s) p = Some t →
  seeds_inv (seeds ++ [k]) (emplace k p tm) (ds ∪ list_to_set (GetDependencies t)).
Proof.
  intros [H1 H2 H3] Hk Ht. pose proof (deps_of_view (heap s) reg k p t Hk Ht) as Hd.
  split.
  - by apply emplace_registered.
  - intros x. rewrite dom_emplace, elem_of_union, elem_of_singleton, H2, elem_of_app,
      list_elem_of_singleton. tauto.
  - intros d. unfold GetDependencies.
    rewrite elem_of_union, elem_of_list_to_set, H3. unfold depends. split.
    + intros [(x & Hx & ?)|?]; [exists x; split; [apply elem_of_app; by left|done]|].
      exists k. rewrite Hd. split; [|done]. apply elem_of_app. right. apply list_elem_of_here.
    + intros (x & [?| ->%list_elem_of_singleton]%elem_of_app & Hx); [eauto|right].
      by rewrite Hd in Hx.
Qed.

Lemma seeds_inv_build seeds tm ds :
  seeds_inv seeds tm ds → build_inv s seeds (set_iter ds) tm.
Proof.
  intros [H1 H2 H3]. split; [done|by intros; apply H2| | |].
  - intros k Hk. exists k. split; [by apply H2|done].
  - intros k d Hk Hd. right. apply elem_of_set_iter, H3. exists k. by rewrite <-H2.
  - intros d Hd%elem_of_set_iter. apply H3 in Hd as (k & Hk & ?). exists k. by rewrite H2.
Qed.

(** A task that automatic startup runs on its own account. *)
Definition auto_started (k : string) : Prop :=
  ∃ t, G !! k = Some (Some t) ∧ GetIsExcludeFromAutoStart t = false.

Lemma view_lookup k p : reg !! k = Some p → G !! k = Some (task_at (heap s) p).
Proof. intros Hk. unfold view. by rewrite lookup_fmap, Hk. Qed.

Lemma registered_task k p :
  tasks_wf G → reg !! k = Some p → ∃ t, task_at (heap s) p = Some t.
Proof.
  intros [Hw _] Hk. destruct (Hw k _ (view_lookup k p Hk)) as (t & Ht & _). eauto.
Qed.

Lemma auto_seeds_spec entries seeds tm ds :
  tasks_wf G → (∀ k p, (k, p) ∈ entries → reg !! k = Some p) →
  seeds_inv seeds tm ds →
  ∃ seeds' tm' ds', auto_seeds entries (heap s) tm ds = inr (tm', ds') ∧
    seeds_inv seeds' tm' ds' ∧
    (∀ k, k ∈ seeds' ↔ k ∈ seeds ∨ (k ∈ entries.*1 ∧ auto_started k)).
Proof.
  intros Hwf. revert seeds tm ds. induction entries as [|[k p] es IH];
    intros seeds tm ds Hes Hinv.
  { exists seeds, tm, ds. split_and!; [done|done|].
    intros k. split; [by left|]. by intros [?|[?%not_elem_of_nil _]]. }
  pose proof (Hes k p (list_elem_of_here _ _)) as Hk.
  destruct (registered_task k p Hwf Hk) as [t Ht].
  assert (∀ k' p', (k', p') ∈ es → reg !! k' = Some p') as Hes'
    by (intros; by apply Hes, list_elem_of_further).
  pose proof (view_lookup k p Hk) as Hv. rewrite Ht in Hv.
  cbn [auto_seeds]. rewrite Ht. destruct (GetIsExcludeFromAutoStart t) eqn:Ex.
  - destruct (IH seeds tm ds Hes' Hinv) as (seeds' & tm' & ds' & -> & Hinv' & Hs).
    exists seeds', tm', ds'. split_and!; [done|done|]. intros x.
    rewrite Hs, fmap_cons, elem_of_cons. split; [tauto|].
    intros [?|[[->|?] Ha]]; [tauto| |tauto]. destruct Ha as (t' & Hv' & ?).
    simpl in Hv'. congruence.
  - pose proof (seeds_inv_step seeds tm ds k p t Hinv Hk Ht) as Hinv1.
    destruct (IH _ _ _ Hes' Hinv1) as (seeds' & tm' & ds' & -> & Hinv' & Hs).
    exists seeds', tm', ds'. split_and!; [done|done|]. intros x.
    rewrite Hs, fmap_cons, elem_of_cons, elem_of_app, list_elem_of_singleton. simpl.
    assert (auto_started k) by (by exists t). split; [|tauto].
    intros [[?| ->]|?]; tauto.
Qed.

Lemma input_seeds_spec inputs seeds tm ds :
  tasks_wf G → seeds_inv seeds tm ds →
  ((∀ a, a ∈ inputs → a ∈ dom reg) →
     ∃ tm' ds', input_seeds inputs (heap s) reg tm ds = inr (tm', ds') ∧
       seeds_inv (seeds ++ inputs) tm' ds') ∧
  (∀ a, a ∈ inputs → a ∉ dom reg →
     input_seeds inputs (heap s) reg tm ds = inl ERR_STARTUP_DEPENDENCY_NOT_FOUND).
Proof.
  intros Hwf. revert seeds tm ds. induction inputs as [|k inputs IH]; intros seeds tm ds Hinv.
  { split; [|by intros a ?%not_elem_of_nil]. intros _. exists tm, ds. by rewrite app_nil_r. }
  cbn [input_seeds]. destruct (reg !! k) as [p|] eqn:Hk.
  - destruct (registered_task k p Hwf Hk) as [t Ht]. rewrite Ht.
    pose proof (seeds_inv_step seeds tm ds k p t Hinv Hk Ht) as Hinv1.
    destruct (IH _ _ _ Hinv1) as [IH1 IH2]. split.
    + intros Hall. destruct IH1 as (tm' & ds' & -> & Hinv').
      { intros a Ha. by apply Hall, list_elem_of_further. }
      rewrite <-app_assoc in Hinv'. eauto.
    + intros a [->|Ha]%elem_of_cons Hn; [|by apply (IH2 a)].
      apply not_elem_of_dom in Hn. congruence.
  - split; [|done]. intros Hall. apply not_elem_of_dom in Hk.
    destruct Hk. apply Hall, list_elem_of_here.
Qed.
End Seeds.

(** C3: automatic startup. On a well-formed registry the request is built, and
    its map holds exactly the registered tasks that some task not excluded from
    automatic startup needs, directly or not. *)
Theorem BuildAutoStartupTaskManager_closure (s : Startup) :
  registry_ok s →
  ∃ mgr s', BuildAutoStartupTaskManager s = Some (ERR_OK, Some mgr, s') ∧
    tasks_ mgr ⊆ startupTasks_ s ∧
    ∀ k, k ∈ dom (tasks_ mgr) ↔
      ∃ a, auto_started s a ∧ rtc (depends (view (heap s) (startupTasks_ s))) a k.
Proof.
  intros Hok. unfold BuildAutoStartupTaskManager.
  destruct (auto_seeds_spec s (map_iter (startupTasks_ s)) [] ∅ ∅) as
    (seeds & tm & ds & -> & Hinv & Hseeds).
  { apply Hok. } { intros k p. apply elem_of_map_iter. } { apply seeds_inv_empty. }
  destruct (finish_build_spec s seeds ds tm Hok (seeds_inv_build s _ _ _ Hinv)) as
    (mgr & s' & -> & Hsub & Hdom & _).
  exists mgr, s'. split_and!; [done|done|]. intros k. rewrite Hdom.
  assert (∀ a, a ∈ seeds ↔ auto_started s a) as Hsa; [|by setoid_rewrite Hsa].
  intros a. rewrite Hseeds. split; [by intros [?%not_elem_of_nil|[_ ?]]|].
  intros Ha. right. split; [|done]. destruct Ha as (t & Ht & _).
  unfold view in Ht. rewrite lookup_fmap in Ht.
  destruct (startupTasks_ s !! a) as [p|] eqn:E; [|done].
  apply list_elem_of_fmap. exists (a, p). by rewrite elem_of_map_iter.
Qed.

(** Startup on demand. When every requested name is registered the map holds
    exactly what those names need; an unregistered name is refused with the
    dependency error and changes nothing. *)
Theorem BuildStartupTaskManager_closure (s : Startup) (inputs : list string) :
  registry_ok s →
  ((∀ a, a ∈ inputs → a ∈ dom (startupTasks_ s)) →
     ∃ mgr s', BuildStartupTaskManager s inputs = Some (ERR_OK, Some mgr, s') ∧
       tasks_ mgr ⊆ startupTasks_ s ∧
       ∀ k, k ∈ dom (tasks_ mgr) ↔
         ∃ a, a ∈ inputs ∧ rtc (depends (view (heap s) (startupTasks_ s))) a k) ∧
  (∀ a, a ∈ inputs → a ∉ dom (startupTasks_ s) →
     BuildStartupTaskManager s inputs = Some (ERR_STARTUP_DEPENDENCY_NOT_FOUND, None, s)).
Proof.
  intros Hok. unfold BuildStartupTaskManager.
  destruct (input_seeds_spec s inputs [] ∅ ∅ (proj1 Hok) (seeds_inv_empty s)) as [H1 H2].
  split.
  - intros Hall. destruct (H1 Hall) as (tm & ds & -> & Hinv).
    destruct (finish_build_spec s inputs ds tm Hok (seeds_inv_build s _ _ _ Hinv)) as
      (mgr & s' & -> & Hsub & Hdom & _). eauto 10.
  - intros a Ha Hn. by rewrite (H2 a Ha Hn).
Qed.

(** ** Preparing a built request *)

Section Prepare.
Context (s : Startup) (mgr : StartupTaskManager).
Context (Hok : registry_ok s) (Hsub : tasks_ mgr ⊆ startupTasks_ s).

Abbreviation G := (view (heap s) (startupTasks_ s)).
Abbreviation M := (view (heap s) (tasks_ mgr)).

Lemma sub_view : M ⊆ G.
Proof. by apply map_fmap_mono. Qed.

Lemma sub_deps_of k : k ∈ dom M → deps_of M k = deps_of G k.
Proof.
  intros [o Ho]%elem_of_dom. unfold deps_of.
  by rewrite Ho, (lookup_weaken _ _ _ _ Ho sub_view).
Qed.

Lemma sub_tasks_wf : tasks_wf M.
Proof.
  destruct Hok as [[Hw Hsz] _]. split.
  - intros k o Hk. apply (Hw k o). exact (lookup_weaken _ _ _ _ Hk sub_view).
  - assert (size M ≤ size G)%nat; [|lia].
    rewrite <-!size_dom. apply subseteq_size, subseteq_dom, sub_view.
Qed.

Lemma sub_deps_closed :
  (∀ k d, k ∈ dom (tasks_ mgr) → depends G k d → d ∈ dom (tasks_ mgr)) → deps_closed M.
Proof.
  intros Hcl a b Ha Hb. unfold depends in Hb. rewrite sub_deps_of in Hb by done.
  unfold view in *. rewrite dom_fmap_L in *. by apply (Hcl a b).
Qed.
End Prepare.

(** A request built by automatic startup is always prepared without a
    dependency error. It is accepted exactly when it holds a task and its
    dependencies have no cycle; a cycle is reported once to the listener of the
    configuration and the request is dropped from the manager. *)
Theorem Prepare_built (s s' : Startup) (mgr : StartupTaskManager) :
  registry_ok s → BuildAutoStartupTaskManager s = Some (ERR_OK, Some mgr, s') →
  ∃ code mgr' s'', Prepare s' mgr = Some (code, mgr', s'') ∧
    (code = ERR_OK ↔ tasks_ mgr ≠ ∅ ∧ acyclic (view (heap s) (tasks_ mgr))) ∧
    (code = ERR_OK → is_Some (dispatcher_ mgr')) ∧
    (code = ERR_STARTUP_CIRCULAR_DEPENDENCY ↔ ¬ acyclic (view (heap s) (tasks_ mgr))) ∧
    (∀ c, code = ERR_STARTUP_CIRCULAR_DEPENDENCY → defaultConfig_ s = Some c →
       startupTaskManagerMap_ s'' !! startupTaskManagerId s = None ∧
       (hasListener_ c = true → listenerCalls s'' = listenerCalls s' ++
          [(startupTaskManagerId s, mkResult code (GetErrorMessage code))])).
Proof.
  intros Hok Hb. unfold BuildAutoStartupTaskManager in Hb.
  destruct (auto_seeds_spec s (map_iter (startupTasks_ s)) [] ∅ ∅) as
    (seeds & tm & ds & E & Hinv & _);
    [apply Hok|intros k p; apply elem_of_map_iter|apply seeds_inv_empty|].
  rewrite E in Hb.
  destruct (finish_build_spec s seeds ds tm Hok (seeds_inv_build s _ _ _ Hinv)) as
    (mgr0 & s0 & Hf & Hsub & Hdom & Hcfg & Hid & Hheap & _).
  rewrite Hb in Hf. simplify_eq.
  pose proof (sub_tasks_wf s mgr0 Hok Hsub) as Hwf.
  assert (deps_closed (view (heap s) (tasks_ mgr0))) as Hcl.
  { apply sub_deps_closed; [done|]. intros k d [a [Ha Hr]]%Hdom Hd. apply Hdom.
    exists a. split; [done|]. by eapply rtc_r. }
  unfold Prepare. rewrite Hheap.
  destruct (Sort_cases _ Hwf) as [[Hn _]|(_ & fin & st & ma & th & Hl & Hdq & ->)]; [done|].
  destruct (finished_all_iff _ fin st ma th Hcl Hl Hdq) as [Hiff _].
  case_decide as Hcnt; cbn [negb Z.eqb ERR_OK Pos.eqb ERR_STARTUP_CIRCULAR_DEPENDENCY].
  - assert (acyclic (view (heap s) (tasks_ mgr0))) as Hac by tauto.
    case_bool_decide as Hempty; (eexists _, _, _; split; [done|]);
      (split_and!; [split; [intros ?|intros [? ?]]|..]); try done; try tauto.
  - assert (¬ acyclic (view (heap s) (tasks_ mgr0))) as Hac by tauto.
    eexists _, _, _. split; [done|].
    split_and!; [split; [done|tauto]|done|split; [done|done]|].
    intros c _ Hc. rewrite <-Hcfg in Hc. unfold CallListenerOnCompleted. rewrite Hc, Hid.
    rewrite bool_decide_eq_true_2 by done.
    unfold OnStartupTaskManagerComplete. simpl.
    destruct (startupTaskManagerMap_ s0 !! startupTaskManagerId s) eqn:Em; simpl.
    + split; [apply lookup_delete_eq|]. by intros ->.
    + split; [done|]. by intros ->.
Qed.

(** ** A concrete registry *)

(** [ui] and [log] are started automatically, [ui] pulls in [net] and [base],
    which are excluded; [extra] is excluded and not needed. *)
Definition ex_heap : gmap Z StartupTask :=
  {[ 1 := SetIsExcludeFromAutoStart (ex_task "base" []) true;
     2 := SetIsExcludeFromAutoStart (ex_task "net" ["base"]) true;
     3 := ex_task "ui" ["net"; "base"];
     4 := ex_task "log" [];
     5 := SetIsExcludeFromAutoStart (ex_task "extra" ["log"]) true ]}.

Definition ex_startup : Startup :=
  mkStartup ex_heap
    {[ "base" := Some 1; "net" := Some 2; "ui" := Some 3; "log" := Some 4; "extra" := Some 5 ]}
    ∅ 0 (Some (mkConfig 10000 true)) [].

(** The executable form of [deps_closed]. *)
Definition deps_closedb (m : TaskMap) : bool :=
  forallb (λ k, forallb (λ d, bool_decide (d ∈ dom m)) (deps_of m k)) (keys_of m).

Lemma deps_closedb_sound (m : TaskMap) : deps_closedb m = true → deps_closed m.
Proof.
  unfold deps_closedb. rewrite forallb_forall. intros H a b Ha Hb.
  apply elem_of_keys_of, list_elem_of_In, H in Ha. rewrite forallb_forall in Ha.
  by apply list_elem_of_In, Ha, bool_decide_eq_true in Hb.
Qed.

Lemma ex_registry_ok : registry_ok ex_startup.
Proof.
  split; [apply tasks_wfb_sound|apply deps_closedb_sound]; vm_compute; reflexivity.
Qed.

Definition ex_mgr : StartupTaskManager :=
  mkTaskManager 0 (Some (mkConfig 10000 true)) None
    {[ "base" := Some 1; "net" := Some 2; "ui" := Some 3; "log" := Some 4 ]}.

Definition ex_startup' : Startup :=
  mkStartup ex_heap (startupTasks_ ex_startup) {[ 0 := ex_mgr ]} 1
    (Some (mkConfig 10000 true)) [].

Lemma BuildAutoStartupTaskManager_closure_witness :
  registry_ok ex_startup ∧
  ∃ mgr s', BuildAutoStartupTaskManager ex_startup = Some (ERR_OK, Some mgr, s') ∧
    tasks_ mgr ⊆ startupTasks_ ex_startup ∧
    ∀ k, k ∈ dom (tasks_ mgr) ↔
      ∃ a, auto_started ex_startup a ∧
        rtc (depends (view (heap ex_startup) (startupTasks_ ex_startup))) a k.
Proof.
  split; [exact ex_registry_ok|].
  exact (BuildAutoStartupTaskManager_closure ex_startup ex_registry_ok).
Defined.

Lemma BuildStartupTaskManager_closure_witness :
  BuildStartupTaskManager ex_startup ["ui"; "video"] =
    Some (ERR_STARTUP_DEPENDENCY_NOT_FOUND, None, ex_startup).
Proof.
  apply (proj2 (BuildStartupTaskManager_closure ex_startup ["ui"; "video"] ex_registry_ok) "video").
  - apply list_elem_of_further, list_elem_of_here.
  - apply not_elem_of_dom. vm_compute. reflexivity.
Defined.

Lemma Prepare_built_witness :
  BuildAutoStartupTaskManager ex_startup = Some (ERR_OK, Some ex_mgr, ex_startup') ∧
  ∃ code mgr' s'', Prepare ex_startup' ex_mgr = Some (code, mgr', s'') ∧
    (code = ERR_OK ↔ tasks_ ex_mgr ≠ ∅ ∧ acyclic (view (heap ex_startup) (tasks_ ex_mgr))).
Proof.
  assert (BuildAutoStartupTaskManager ex_startup = Some (ERR_OK, Some ex_mgr, ex_startup'))
    as Hb by (vm_compute; reflexivity).
  split; [exact Hb|].
  destruct (Prepare_built ex_startup ex_startup' ex_mgr ex_registry_ok Hb)
    as (code & mgr' & s'' & H1 & H2 & _).
  exists code, mgr', s''. split; [exact H1|exact H2].
Defined.
