(* ===== verification/StartupDispatch.v ===== *)
(** * Running the startup tasks of a request

    [StartupTaskDispatcher] ([startup_task_dispatcher.cpp]) runs the tasks of a
    request in the order of their dependencies: [Run] starts the tasks without
    dependencies, and [Dispatch], the completion callback of every task, counts
    the dependencies of its children down and starts those that reach zero.
    [JsStartupTask] ([js_startup_task.cpp]) and its executor start one task;
    [StartupTaskManager::Run] ([startup_task_manager.cpp]) ties a dispatcher to
    the listener of its request and to a timeout. *)

From S2P Require Import Prelude StartupTask TopologySort StartupManager.
From stdpp Require Import prelude gmap strings list sorting relations.
From Stdlib Require Import ZArith Lia.

Local Open Scope Z_scope.

(** ** State *)

(** [StartupTaskDispatcher]. [taskMap_] is its member [tasks_], a reference to the
    map of the manager. The two callbacks are shared pointers into
    [World.callbacks]. *)
Record StartupTaskDispatcher := mkDispatcher {
  taskMap_ : PtrMap;
  sortResult_ : option StartupSortResult;
  inDegreeMap_ : gmap string Z;
  mainThreadAwaitCount_ : Z;
  tasksCount_ : Z;
  completedCallback_ : option Z;
  mainThreadAwaitCallback_ : option Z;
}.

#[global] Instance StartupTaskDispatcher_reconstruct : Reconstruct StartupTaskDispatcher :=
  λ r, mkDispatcher (taskMap_ r) (sortResult_ r) (inDegreeMap_ r) (mainThreadAwaitCount_ r)
         (tasksCount_ r) (completedCallback_ r) (mainThreadAwaitCallback_ r).

(** The constructor. *)
Definition StartupTaskDispatcher_new (tasks : PtrMap) (sortResult : option StartupSortResult)
    : StartupTaskDispatcher :=
  mkDispatcher tasks sortResult ∅ 0 0 None None.

(** What the script side of a task observes: a call of its [init], on the main
    thread or through the task pool, and a call of its [onDependencyCompleted], which
    is made only when the script object has such a function. *)
Inductive Event :=
| EvInit (name : string)
| EvDependency (child dependency : string).

#[global] Instance Event_eq_dec : EqDecision Event.
Proof. solve_decision. Defined.

(** The process.
    - [startup]: the heap of tasks, the registered managers, the listener calls;
    - [dispatchers]: the live dispatchers, under the identifier of their manager;
      a weak pointer to one that is gone does not lock;
    - [callbacks]: the [OnCompletedCallback] objects; the second component is the
      manager whose completion lambda the object wraps, [None] for a function of
      the caller;
    - [replies]: per task, the callback its running [init] will call: the
      dispatcher that started it and the name it waits under;
    - [timers]: the pending [OnTimeout] calls with their delays;
    - [posted]: the calls of a main-thread callback in the event queue;
    - [held_]: the manager whose [Run] is being executed, which its caller holds;
    - [dangling]: whether a dispatcher has read the map of tasks of a manager that is
      gone, which is undefined: what the model does after that says nothing. *)
Record World := mkWorld {
  startup : Startup;
  dispatchers : gmap Z StartupTaskDispatcher;
  callbacks : gmap Z (OnCompletedCallback * option StartupTaskManager);
  replies : gmap Z (Z * string);
  timers : gmap Z (StartupTaskManager * Z);
  hasMainHandler_ : bool;
  posted : list (option Z * StartupTaskResult);
  trace : list Event;
  held_ : option Z;
  dangling : bool;
}.

#[global] Instance World_reconstruct : Reconstruct World :=
  λ r, mkWorld (startup r) (dispatchers r) (callbacks r) (replies r) (timers r)
         (hasMainHandler_ r) (posted r) (trace r) (held_ r) (dangling r).

Definition tasks_heap (w : World) : gmap Z StartupTask := heap (startup w).

Definition set_task (w : World) (a : Z) (t : StartupTask) : World :=
  w <| startup ::= λ s, with_heap s (<[a := t]> (heap s)) |>.

Definition set_dispatcher (w : World) (d : Z) (dp : StartupTaskDispatcher) : World :=
  w <| dispatchers ::= <[d := dp]> |>.

Definition emit (w : World) (evs : list Event) : World := w <| trace ::= λ tr, tr ++ evs |>.

(** ** The lifetime of a manager

    [StartupManager] holds the manager of a running request in its map, and the caller
    of [Run] holds it meanwhile; nobody else does. *)
Definition map_alive (managers : gmap Z StartupTaskManager) (held : option Z) (id : Z) : bool :=
  bool_decide (id ∈ dom managers) || bool_decide (held = Some id).

Definition id_alive (w : World) (id : Z) : bool :=
  map_alive (startupTaskManagerMap_ (startup w)) (held_ w) id.

(** Dispatcher [d] reads [tasks_], a reference to the map of its manager. *)
Definition touch_tasks (w : World) (d : Z) : World :=
  if id_alive w d then w else w <| dangling := true |>.

(** A manager that is gone takes its dispatcher along, unless a call of the dispatcher
    is being executed. *)
Definition release_dead (w : World) : World :=
  w <| dispatchers ::= filter (λ p, id_alive w p.1 = true) |>.

(** ** Callbacks of a request *)

Definition CancelAsyncTimeoutTimer (w : World) (mgr : StartupTaskManager) : World :=
  w <| timers ::= delete (startupTaskManagerId_ mgr) |>.

(** Whether a weak pointer to a manager locks. *)
Definition manager_alive (w : World) (mgr : StartupTaskManager) : bool :=
  id_alive w (startupTaskManagerId_ mgr).

(** The lambda [StartupTaskManager::Run] wraps into [completedCallback]. *)
Definition OnRequestCompleted (w : World) (mgr : StartupTaskManager) (r : StartupTaskResult)
    : World :=
  if negb (manager_alive w mgr) then w
  else
    CancelAsyncTimeoutTimer w mgr
      <| startup ::= λ s, CallListenerOnCompleted s mgr (GetResultCode r) (GetResultMessage r) |>.

(** [callback->Call(result)] on a possibly null [OnCompletedCallback]: the wrapped
    function runs when the object fires. *)
Definition Callback_Call (w : World) (p : option Z) (r : StartupTaskResult) : World :=
  match p ≫= λ c, (c,.) <$> callbacks w !! c with
  | None => w
  | Some (c, (cb, owner)) =>
    let w' :=
      match owner with
      | Some mgr =>
        if negb (isCalled_ cb) && hasCallbackFunc_ cb then OnRequestCompleted w mgr r else w
      | None => w
      end in
    w' <| callbacks ::= <[c := (OnCompletedCallback_Call cb r, owner)]> |>
  end.

(** [StartupManager::PostMainThreadTask] of a call of [mainThreadAwaitCallback]. *)
Definition PostMainThreadTask (w : World) (p : option Z) (r : StartupTaskResult) : World :=
  if hasMainHandler_ w then w <| posted ::= λ q, q ++ [(p, r)] |> else w.

(** ** [OnError]

    The result object is shared with the task that produced it, so the message
    set here is the one the task reports from now on. *)
Definition share_result (w : World) (dp : StartupTaskDispatcher) (name : string)
    (r r' : StartupTaskResult) : World :=
  match taskMap_ dp !! name with
  | Some (Some a) =>
    match tasks_heap w !! a with
    | Some t =>
      if decide (result_ t = Some r)
      then set_task w a (with_run t (Some r') (state_ t) (extraCallbacks_ t))
      else w
    | None => w
    end
  | _ => w
  end.

Definition OnError (w : World) (dp : StartupTaskDispatcher) (name : string)
    (result : StartupTaskResult) : World :=
  let result' := SetResultMessage result (name ++ ": " ++ GetResultMessage result) in
  let w1 := share_result w dp name result result' in
  let w2 := Callback_Call w1 (completedCallback_ dp) result' in
  PostMainThreadTask w2 (mainThreadAwaitCallback_ dp) result'.

(** The overload with a code and a message. *)
Definition OnErrorCode (w : World) (dp : StartupTaskDispatcher) (errorCode : Z)
    (errorMessage : string) : World :=
  let result := mkResult errorCode errorMessage in
  let w1 := Callback_Call w (completedCallback_ dp) result in
  PostMainThreadTask w1 (mainThreadAwaitCallback_ dp) result.

(** ** Starting a task: [JsStartupTaskExecutor] and [JsStartupTask]

    What the script engine answers about a task. *)
Record JsTask := mkJsTask {
  startupRef : bool;
  contextRef : bool;
  startupIsObject : bool;
  hasInit : bool;
  initIsCallable : bool;
  initReturnsPromise : bool;
  excutorLoads : bool;
  excutorRefs : bool;
  excutorIsObject : bool;
  hasAsyncPushTask : bool;
  asyncPushTaskIsCallable : bool;
  hasOnDependencyCompleted : bool;
  onDependencyCompletedIsCallable : bool;
}.

(** [CallStartupInit]: the failure it replies with, or nothing when [init] ran. *)
Definition CallStartupInit (j : JsTask) : option (Z * string) :=
  if negb (startupRef j) || negb (contextRef j) then
    Some (ERR_STARTUP_INTERNAL_ERROR, "startup task is null or context is null.")
  else if negb (startupIsObject j) then
    Some (ERR_STARTUP_INTERNAL_ERROR, "startup task is not napi object.")
  else if negb (hasInit j) then
    Some (ERR_STARTUP_FAILED_TO_EXECUTE_STARTUP,
          "failed to get property init from startup task.")
  else if negb (initIsCallable j) then
    Some (ERR_STARTUP_FAILED_TO_EXECUTE_STARTUP, "startup task init is not callable.")
  else None.

(** [HandleReturnVal]: the result of [init] must be a promise. *)
Definition HandleReturnVal (j : JsTask) : option (Z * string) :=
  if negb (initReturnsPromise j) then
    Some (ERR_STARTUP_FAILED_TO_EXECUTE_STARTUP,
          "the return value of startup task init is not promise.")
  else None.

(** [RunOnMainThread]: whether [init] was called, and the failure replied. *)
Definition RunOnMainThread (j : JsTask) : bool * option (Z * string) :=
  match CallStartupInit j with
  | Some e => (false, Some e)
  | None => (true, HandleReturnVal j)
  end.

Definition RunOnTaskPool (j : JsTask) : Z :=
  if negb (startupRef j) || negb (contextRef j) || negb (excutorRefs j)
  then ERR_STARTUP_INTERNAL_ERROR
  else if negb (excutorIsObject j) then ERR_STARTUP_INTERNAL_ERROR
  else if negb (hasAsyncPushTask j) then ERR_STARTUP_FAILED_TO_EXECUTE_STARTUP
  else if negb (asyncPushTaskIsCallable j) then ERR_STARTUP_FAILED_TO_EXECUTE_STARTUP
  else ERR_OK.

(** [JsStartupTask::RunTaskOnDependencyCompleted]: the function of the script object is
    called when the code is [ERR_OK]. *)
Definition RunTaskOnDependencyCompleted (j : JsTask) : Z :=
  if negb (startupRef j) then ERR_STARTUP_INTERNAL_ERROR
  else if negb (startupIsObject j) then ERR_STARTUP_INTERNAL_ERROR
  else if negb (hasOnDependencyCompleted j) then ERR_STARTUP_FAILED_TO_EXECUTE_STARTUP
  else if negb (onDependencyCompletedIsCallable j) then ERR_STARTUP_FAILED_TO_EXECUTE_STARTUP
  else ERR_OK.

(** The callback of a dispatcher, as its tasks see it. *)
Abbreviation Dispatcher := (World → Z → string → option StartupTaskResult → option World).

Section Start.
Context (js : string → JsTask) (dispatch : Dispatcher).

(** The result object of task [a] as it is now; [r] when the task is gone. *)
Definition current_result (w : World) (a : Z) (r : StartupTaskResult) : StartupTaskResult :=
  default r (tasks_heap w !! a ≫= result_).

(** The callbacks of a vector, in order, with the shared result of task [a]. *)
Fixpoint run_callbacks (cbs : list (Z * string)) (w : World) (a : Z) (r : StartupTaskResult)
    : option World :=
  match cbs with
  | [] => Some w
  | (d, name) :: cbs' =>
    match dispatch w d name (Some (current_result w a r)) with
    | None => None
    | Some w' => run_callbacks cbs' w' a r
    end
  end.

(** [callback->Call(result)] of the stack a start pushes: on top the lambda of
    [JsStartupTask::RunTaskInit], which saves the result and runs the extra
    callbacks, below it the [Dispatch] of the dispatcher that started the task. *)
Definition TaskCallback_Call (w : World) (a d : Z) (name : string) (r : StartupTaskResult)
    : option World :=
  match tasks_heap w !! a with
  | None => run_callbacks [(d, name)] w a r
  | Some t =>
    let '(extra, t') := CallExtraCallback (SaveResult t (Some r)) in
    match run_callbacks extra (set_task w a t') a r with
    | None => None
    | Some w' => run_callbacks [(d, name)] w' a r
    end
  end.

(** [JsStartupTask::RunTaskInit] *)
Definition Js_RunTaskInit (w : World) (a d : Z) (name : string) (t : StartupTask)
    : option (Z * World) :=
  if negb (bool_decide (state_ t = CREATED)) then Some (ERR_STARTUP_INTERNAL_ERROR, w)
  else
    let w1 := set_task w a (with_run t (result_ t) INITIALIZING (extraCallbacks_ t)) in
    let j := js (name_ t) in
    if callCreateOnMainThread_ t then
      let '(called, failure) := RunOnMainThread j in
      let w2 := if called then emit w1 [EvInit (name_ t)] else w1 in
      match failure with
      | Some (code, msg) => (code,.) <$> TaskCallback_Call w2 a d name (mkResult code msg)
      | None => Some (ERR_OK, w2 <| replies ::= <[a := (d, name)]> |>)
      end
    else if negb (excutorLoads j) then Some (ERR_STARTUP_INTERNAL_ERROR, w1)
    else
      let code := RunOnTaskPool j in
      if negb (code =? ERR_OK) then Some (code, w1)
      else Some (ERR_OK, emit w1 [EvInit (name_ t)] <| replies ::= <[a := (d, name)]> |>).

(** [StartupTaskDispatcher::RunTaskInit] *)
Definition RunTaskInit (w : World) (d : Z) (name : string) (a : Z) (t : StartupTask)
    : option (Z * World) :=
  match GetState t with
  | CREATED => Js_RunTaskInit w a d name t
  | INITIALIZED => (ERR_OK,.) <$> dispatch w d name (GetTaskResult t)
  | INITIALIZING =>
    let '(code, t') := AddExtraCallback t (d, name) in Some (code, set_task w a t')
  | INVALID => Some (ERR_STARTUP_INTERNAL_ERROR, w)
  end.

(** ** [NotifyChildren] *)

(** The loop over the children: the error message if it stops, the in-degrees,
    the tasks that reached zero and the calls that [RunTaskOnDependencyCompleted] makes,
    whose code the loop ignores. *)
Fixpoint notify_loop (tm : PtrMap) (h : gmap Z StartupTask) (cs : list string) (name : string)
    (deg : gmap string Z) (zeroInDegree : list Z) (evs : list Event)
    : option string * gmap string Z * list Z * list Event :=
  match cs with
  | [] => (None, deg, zeroInDegree, evs)
  | child :: cs' =>
    match deg !! child with
    | None => (Some (child ++ "is not found in inDegreeMap_.")%string, deg, zeroInDegree, evs)
    | Some n =>
      match tm !! child with
      | None => (Some (child ++ "is not found in tasks_.")%string, deg, zeroInDegree, evs)
      | Some p =>
        match p ≫= λ a, (a,.) <$> h !! a with
        | None => (Some (child ++ " task is null.")%string, deg, zeroInDegree, evs)
        | Some (a, t) =>
          let n' := u32 (n - 1) in
          notify_loop tm h cs' name (<[child := n']> deg)
            (if n' =? 0 then zeroInDegree ++ [a] else zeroInDegree)
            (if RunTaskOnDependencyCompleted (js (name_ t)) =? ERR_OK
             then evs ++ [EvDependency (name_ t) name] else evs)
        end
      end
    end
  end.

(** The loop over [zeroInDegree]. *)
Fixpoint run_zero (zero : list Z) (w : World) (d : Z) : option (Z * World) :=
  match zero with
  | [] => Some (ERR_OK, w)
  | a :: zero' =>
    match tasks_heap w !! a with
    | None => None
    | Some t =>
      match RunTaskInit w d (GetName t) a t with
      | None => None
      | Some (runResult, w') =>
        if negb (runResult =? ERR_OK) then Some (runResult, w') else run_zero zero' w' d
      end
    end
  end.

Definition NotifyChildren (w : World) (d : Z) (dp : StartupTaskDispatcher) (name : string)
    : option (Z * World) :=
  match sortResult_ dp with
  | None =>
    Some (ERR_STARTUP_INTERNAL_ERROR,
          OnErrorCode w dp ERR_STARTUP_INTERNAL_ERROR (name ++ ": sort result is null")%string)
  | Some res =>
    match startupChildrenMap_ res !! name with
    | None =>
      Some (ERR_STARTUP_INTERNAL_ERROR,
            OnErrorCode w dp ERR_STARTUP_INTERNAL_ERROR (name ++ " is not found")%string)
    | Some children =>
      let '(err, deg, zero, evs) :=
        notify_loop (taskMap_ dp) (tasks_heap w) children name (inDegreeMap_ dp) [] [] in
      let w1 := emit (set_dispatcher w d (dp <| inDegreeMap_ := deg |>)) evs in
      match err with
      | Some msg =>
        Some (ERR_STARTUP_INTERNAL_ERROR, OnErrorCode w1 dp ERR_STARTUP_INTERNAL_ERROR msg)
      | None => run_zero zero w1 d
      end
    end
  end.
End Start.

(** ** [Dispatch] *)

(** The counters after the children were notified. *)
Definition count_down (w : World) (d : Z) (wait : bool) (result : StartupTaskResult) : World :=
  match dispatchers w !! d with
  | None => w
  | Some dp =>
    let awaits := if wait then u32 (mainThreadAwaitCount_ dp - 1) else mainThreadAwaitCount_ dp in
    let count := u32 (tasksCount_ dp - 1) in
    let w1 := set_dispatcher w d (dp <| mainThreadAwaitCount_ := awaits |> <| tasksCount_ := count |>) in
    let w2 := if wait && (awaits =? 0) then Callback_Call w1 (mainThreadAwaitCallback_ dp) result
              else w1 in
    if count =? 0 then Callback_Call w2 (completedCallback_ dp) result else w2
  end.

(** [Dispatch], behind the [weak.lock()] of the callback: a dispatcher that was
    released ignores the result. The iterator into [tasks_] is read again after the
    children were notified. Each level of fuel is one nested [Dispatch]. *)
Fixpoint Dispatch (js : string → JsTask) (fuel : nat) (w : World) (d : Z) (name : string)
    (result : option StartupTaskResult) : option World :=
  match fuel with
  | O => None
  | S fuel' =>
    match dispatchers w !! d with
    | None => Some w
    | Some dp =>
      match result with
      | None =>
        Some (OnErrorCode w dp ERR_STARTUP_INTERNAL_ERROR (name ++ ": result is null")%string)
      | Some r =>
        if negb (GetResultCode r =? ERR_OK) then Some (OnError w dp name r)
        else
          let w1 := touch_tasks w d in
          match taskMap_ dp !! name ≫= task_at (tasks_heap w1) with
          | None =>
            Some (OnErrorCode w1 dp ERR_STARTUP_INTERNAL_ERROR (name ++ " not found")%string)
          | Some t =>
            match NotifyChildren js (Dispatch js fuel') w1 d dp name with
            | None => None
            | Some (code, w2) =>
              if negb (code =? ERR_OK) then Some w2
              else Some (count_down (touch_tasks w2 d) d (GetWaitOnMainThread t) r)
            end
          end
      end
    end
  end.

(** A nested [Dispatch] marks one more task of its dispatcher as done, so the
    number of tasks bounds the nesting. *)
Definition dispatch_fuel (w : World) : nat :=
  S (map_fold (λ _ dp n, size (taskMap_ dp) + n)%nat 0%nat (dispatchers w)).

(** ** [Run] *)

(** The loop over [tasks_]: in-degrees and the number of tasks to await. *)
Fixpoint run_init (h : gmap Z StartupTask) (entries : list (string * option Z))
    (deg : gmap string Z) (awaits : Z) : bool * gmap string Z * Z :=
  match entries with
  | [] => (true, deg, awaits)
  | (k, p) :: entries' =>
    match task_at h p with
    | None => (false, deg, awaits)
    | Some t =>
      run_init h entries'
        (match deg !! k with Some _ => deg | None => <[k := getDependenciesCount t]> deg end)
        (if GetWaitOnMainThread t then u32 (awaits + 1) else awaits)
    end
  end.

(** The loop over [zeroDequeResult_]. *)
Fixpoint run_first (js : string → JsTask) (fuel : nat) (names : list string) (tm : PtrMap)
    (w : World) (d : Z) : option (Z * World) :=
  match names with
  | [] => Some (ERR_OK, w)
  | k :: names' =>
    match tm !! k ≫= λ p, p ≫= λ a, (a,.) <$> tasks_heap w !! a with
    | None => Some (ERR_STARTUP_INTERNAL_ERROR, w)
    | Some (a, t) =>
      match RunTaskInit js (Dispatch js fuel) w d k a t with
      | None => None
      | Some (result, w') =>
        if negb (result =? ERR_OK) then Some (result, w')
        else run_first js fuel names' tm w' d
      end
    end
  end.

(** [StartupTaskDispatcher::Run] of dispatcher [d]. *)
Definition Run (js : string → JsTask) (w : World) (d : Z) (dp : StartupTaskDispatcher)
    (completedCallback mainThreadAwaitCallback : option Z) : option (Z * World) :=
  match sortResult_ dp with
  | None => Some (ERR_STARTUP_INTERNAL_ERROR, w)
  | Some res =>
    let '(ok, deg, awaits) :=
      run_init (tasks_heap w) (map_iter (taskMap_ dp)) (inDegreeMap_ dp)
        (mainThreadAwaitCount_ dp) in
    let dp1 := dp <| inDegreeMap_ := deg |> <| mainThreadAwaitCount_ := awaits |> in
    if negb ok then Some (ERR_STARTUP_INTERNAL_ERROR, set_dispatcher w d dp1)
    else
      let dp2 := dp1 <| tasksCount_ := u32 (Z.of_nat (size (taskMap_ dp))) |>
                     <| completedCallback_ := completedCallback |>
                     <| mainThreadAwaitCallback_ := mainThreadAwaitCallback |> in
      let w1 := set_dispatcher w d dp2 in
      let w2 := if awaits =? 0
                then Callback_Call w1 mainThreadAwaitCallback StartupTaskResult_default
                else w1 in
      run_first js (dispatch_fuel w2) (zeroDequeResult_ res) (taskMap_ dp) w2 d
  end.

(** ** [StartupTaskManager::Run] *)

Definition AddAsyncTimeoutTimer (w : World) (mgr : StartupTaskManager) : World :=
  let timeoutMs :=
    match config_ mgr with
    | Some c => GetAwaitTimeoutMs c
    | None => DEFAULT_AWAIT_TIMEOUT_MS
    end in
  w <| timers ::= <[startupTaskManagerId_ mgr := (mgr, timeoutMs)]> |>.

(** The manager runs its dispatcher under its own identifier; the callback it
    makes is a new object. The caller lets go of the manager after the call. *)
Definition Manager_Run (js : string → JsTask) (w : World) (mgr : StartupTaskManager)
    (mainThreadAwaitCallback : option Z) : option (Z * World) :=
  let id := startupTaskManagerId_ mgr in
  match dispatcher_ mgr with
  | None =>
    Some (ERR_STARTUP_INTERNAL_ERROR,
          w <| startup ::= λ s, CallListenerOnCompleted s mgr ERR_STARTUP_INTERNAL_ERROR "" |>)
  | Some sortResult =>
    let c := fresh (dom (callbacks w)) in
    let dp := StartupTaskDispatcher_new (tasks_ mgr) (Some sortResult) in
    let w1 := AddAsyncTimeoutTimer w mgr
                <| callbacks ::= <[c := (OnCompletedCallback_new true, Some mgr)]> |>
                <| dispatchers ::= <[id := dp]> |> <| held_ := Some id |> in
    match Run js w1 id dp (Some c) mainThreadAwaitCallback with
    | None => None
    | Some (result, w2) =>
      let w4 :=
        if negb (result =? ERR_OK) then
          let w3 := CancelAsyncTimeoutTimer w2 mgr in
          let called := match callbacks w3 !! c with Some (cb, _) => IsCalled cb | None => false end in
          if called then w3
          else w3 <| startup ::= λ s, CallListenerOnCompleted s mgr result "" |>
        else w2 in
      Some (result, release_dead (w4 <| held_ := None |>))
    end
  end.

(** ** The environment *)

(** The script side answers: the promise of [init] settles, or the task pool
    reports the end of the task. *)
Definition Complete (js : string → JsTask) (w : World) (a : Z) (r : StartupTaskResult)
    : option World :=
  match replies w !! a with
  | None => Some w
  | Some (d, name) =>
    let w1 := w <| replies ::= delete a |> in
    release_dead <$> TaskCallback_Call (Dispatch js (dispatch_fuel w1)) w1 a d name r
  end.

(** The main thread takes the next posted call. *)
Definition RunPosted (w : World) : World :=
  match posted w with
  | [] => w
  | (p, r) :: rest => Callback_Call (w <| posted := rest |>) p r
  end.

(** The timeout of a manager expires: the manager is dropped, and its dispatcher with it. *)
Definition TimerExpires (w : World) (id : Z) : World :=
  match timers w !! id with
  | None => w
  | Some (mgr, _) =>
    let w1 := w <| timers ::= delete id |> in
    if manager_alive w mgr then release_dead (w1 <| startup ::= λ s, OnTimeout s mgr |>) else w1
  end.
