(* ===== verification/DispatchInvariant.v ===== *)
(** * The dispatcher's invariant

    One request running alone: what the in-degrees, the counters, the owed
    replies, the calls made on the tasks and the completion callbacks are, at
    every point of a run of [StartupTaskDispatcher]. *)

From S2P Require Import Prelude StartupTask TopologySort StartupManager StartupDispatch.
From stdpp Require Import prelude gmap strings list sorting relations.
From Stdlib Require Import ZArith Lia.

Local Open Scope Z_scope.

(** ** What the callbacks of a request leave alone *)

Lemma CallListenerOnCompleted_heap s mgr code msg :
  heap (CallListenerOnCompleted s mgr code msg) = heap s.
Proof.
  unfold CallListenerOnCompleted, OnStartupTaskManagerComplete.
  by destruct (config_ mgr); [case_match|].
Qed.

Lemma OnTimeout_heap s mgr : heap (OnTimeout s mgr) = heap s.
Proof.
  unfold OnTimeout, OnStartupTaskManagerComplete.
  case_match; simpl; apply CallListenerOnCompleted_heap.
Qed.

(** The parts of a world the scheduling of tasks depends on. *)
Definition same_schedule (w w' : World) : Prop :=
  tasks_heap w' = tasks_heap w ∧ dispatchers w' = dispatchers w ∧
  replies w' = replies w ∧ trace w' = trace w ∧ posted w' = posted w.

#[global] Instance same_schedule_preorder : PreOrder same_schedule.
Proof.
  unfold same_schedule. split; [done|].
  intros w1 w2 w3 (?&?&?&?&?) (?&?&?&?&?). split_and!; congruence.
Qed.

Lemma OnRequestCompleted_same w mgr r :
  same_schedule w (OnRequestCompleted w mgr r) ∧
  callbacks (OnRequestCompleted w mgr r) = callbacks w.
Proof.
  unfold same_schedule, OnRequestCompleted. destruct (manager_alive w mgr); [|done].
  cbn. split_and!; try done. apply CallListenerOnCompleted_heap.
Qed.

Lemma Callback_Call_same w p r : same_schedule w (Callback_Call w p r).
Proof.
  unfold Callback_Call. destruct (p ≫= _) as [[c [cb [mgr|]]]|]; [|done|done].
  destruct (_ && _); [|done].
  destruct (OnRequestCompleted_same w mgr r) as [(?&?&?&?&?) _]. done.
Qed.

(** The other callbacks keep their state; the called one fires if it still can. *)
Lemma Callback_Call_callbacks w p r c :
  callbacks (Callback_Call w p r) !! c =
    if decide (p = Some c) then prod_map (λ cb, OnCompletedCallback_Call cb r) id <$> callbacks w !! c
    else callbacks w !! c.
Proof.
  unfold Callback_Call. destruct p as [c'|]; [|by rewrite decide_False]. cbn [mbind option_bind].
  destruct (callbacks w !! c') as [[cb owner]|] eqn:E; cbn [fmap option_fmap option_map].
  - assert (∀ w', callbacks w' = callbacks w →
      callbacks (w' <| callbacks ::= <[c':=(OnCompletedCallback_Call cb r, owner)]> |>) !! c =
      if decide (Some c' = Some c) then
        prod_map (λ cb, OnCompletedCallback_Call cb r) id <$> callbacks w !! c
      else callbacks w !! c) as Hw.
    { intros w' Hw'. cbn. rewrite Hw', lookup_insert.
      destruct (decide (c' = c)) as [->|Hne].
      - by rewrite decide_True, E by done.
      - by rewrite decide_False by congruence. }
    apply Hw. destruct owner as [mgr|]; [|done]. destruct (_ && _); [|done].
    apply OnRequestCompleted_same.
  - case_decide as Hd; [|done]. injection Hd as ->. by rewrite E.
Qed.

(** ** [NotifyChildren] counts down as the sort does *)

(** The address of the task [k]. *)
Definition addr (tm : PtrMap) (k : string) : Z := default 0 (mjoin (tm !! k)).

Definition listens (js : string → JsTask) (k : string) : bool :=
  RunTaskOnDependencyCompleted (js k) =? ERR_OK.

(** The calls of the script functions of the children [cs] of [name]. *)
Definition notifications (l : string → bool) (cs : list string) (name : string) : list Event :=
  (λ c, EvDependency c name) <$> filter (λ c, l c = true) cs.

Lemma notify_loop_release js tm h cs name deg dq evs :
  (∀ c, c ∈ cs → is_Some (deg !! c) ∧
     ∃ a t, tm !! c = Some (Some a) ∧ h !! a = Some t ∧ name_ t = c) →
  notify_loop js tm h cs name deg (addr tm <$> dq) evs =
    (None, (release_children cs deg dq).1, addr tm <$> (release_children cs deg dq).2,
     evs ++ notifications (listens js) cs name).
Proof.
  revert deg dq evs. induction cs as [|c cs IH]; intros deg dq evs Hcs.
  { unfold notifications. cbn. by rewrite app_nil_r. }
  destruct (Hcs c (list_elem_of_here _ _)) as ([n Hn] & a & t & Htm & Ht & Hname).
  cbn [notify_loop release_children]. rewrite Hn, Htm. cbn. rewrite Ht. cbn.
  replace (if u32 (n - 1) =? 0 then (addr tm <$> dq) ++ [a] else addr tm <$> dq)
    with (addr tm <$> (if u32 (n - 1) =? 0 then dq ++ [c] else dq)).
  - rewrite IH.
    + rewrite Hname. fold (listens js c). destruct (listens js c); [|done].
      rewrite decide_True by done. by rewrite <-app_assoc.
    + intros c' Hc'. destruct (Hcs c' (list_elem_of_further _ _ _ Hc')) as [[n' Hn'] ?].
      split; [|done]. rewrite lookup_insert. case_decide; eauto.
  - destruct (_ =? 0); [|done]. rewrite fmap_app. cbn. unfold addr at 2. by rewrite Htm.
Qed.

(** ** Callbacks of other dispatchers *)

Section Foreign.
Context (dispatch : Dispatcher) (d : Z).

Definition own (cbs : list (Z * string)) : list (Z * string) := filter (λ c, c.1 = d) cbs.

(** A dispatcher that is gone ignores what it is told. *)
Definition ignores (w : World) : Prop :=
  ∀ d' n r, d' ≠ d → dispatch w d' n r = Some w.

Lemma run_callbacks_app cbs1 cbs2 w a r :
  run_callbacks dispatch (cbs1 ++ cbs2) w a r =
  match run_callbacks dispatch cbs1 w a r with
  | None => None
  | Some w' => run_callbacks dispatch cbs2 w' a r
  end.
Proof.
  revert w. induction cbs1 as [|[d' n'] cbs1 IH]; intros w; cbn; [done|].
  by destruct (dispatch _ _ _ _).
Qed.

Lemma run_callbacks_foreign cbs w a r :
  own cbs = [] → ignores w → run_callbacks dispatch cbs w a r = Some w.
Proof.
  unfold own. induction cbs as [|[d' n'] cbs IH]; intros Ho Hig; [done|].
  rewrite filter_cons in Ho. case_decide as Hd; [done|]. cbn in *.
  rewrite Hig by done. auto.
Qed.

Lemma run_callbacks_own cbs w a r n :
  own cbs = [(d, n)] → ignores w → (∀ w', dispatch w d n (Some (current_result w a r)) = Some w' → ignores w') →
  run_callbacks dispatch cbs w a r = dispatch w d n (Some (current_result w a r)).
Proof.
  unfold own. induction cbs as [|[d' n'] cbs IH]; intros Ho Hig Hig'; [done|].
  rewrite filter_cons in Ho. case_decide as Hd; cbn in *.
  - injection Ho as -> -> Ho. destruct (dispatch _ _ _ _) as [w'|] eqn:E; [|done].
    by apply run_callbacks_foreign; [|apply Hig'].
  - rewrite Hig by done. auto.
Qed.
End Foreign.

Lemma Dispatch_ignores js fuel w d :
  (∀ d', d' ≠ d → dispatchers w !! d' = None) → ignores (Dispatch js (S fuel)) d w.
Proof. intros Hw d' n r Hd. cbn. by rewrite (Hw d' Hd). Qed.

(** ** The invariant of a request

    Dispatcher [d] runs the tasks of [tm], which read [M] before the run; [cc] is
    its completion callback and [awp] the callback of the waiting main thread.
    The ghost state: [N] are the tasks that notified their children, [C] those of
    them that were counted down, [K] those a nested [Dispatch] still has to count,
    [Q] the tasks a running loop is about to start, [W] the tasks whose result
    the dispatcher waits for; [e] tells that a task failed or could not be started. *)

(** The members of a task that no run changes. *)
Definition static (t0 t : StartupTask) : Prop :=
  name_ t = name_ t0 ∧ dependencies_ t = dependencies_ t0 ∧
  callCreateOnMainThread_ t = callCreateOnMainThread_ t0 ∧
  waitOnMainThread_ t = waitOnMainThread_ t0.

(** The request: which of its tasks listen to their dependencies, and its manager. *)
Class Requester := { listening : string → bool; requester : StartupTaskManager }.

(** The manager whose [Run] is being executed. *)
Class Holder := holder : option Z.

Section Request.
Context {RQ : Requester} {HO : Holder} (d cc : Z) (awp : option Z) (tm : PtrMap) (M : TaskMap) (res : StartupSortResult).

Record task_inv (e : bool) (N W : list string) (rp : gmap Z (Z * string)) (k : string) (a : Z)
    (t : StartupTask) : Prop := {
  ti_done : k ∈ N → state_ t = INITIALIZED;
  ti_wait : k ∈ W → state_ t = INITIALIZING;
  ti_state : state_ t ≠ INVALID;
  ti_result : state_ t = INITIALIZED → ∃ r, result_ t = Some r ∧ resultCode_ r = ERR_OK;
  ti_reply : is_Some (rp !! a) → state_ t = INITIALIZING;
  ti_running : e = false → state_ t = INITIALIZING → is_Some (rp !! a);
  ti_own : own d (extraCallbacks_ t ++ option_list (rp !! a)) =
    if decide (k ∈ W) then [(d, k)] else [];
}.

Record heap_inv (e : bool) (N W : list string) (h : gmap Z StartupTask)
    (rp : gmap Z (Z * string)) : Prop := {
  hi_task : ∀ k t0, M !! k = Some (Some t0) →
    ∃ a t, tm !! k = Some (Some a) ∧ h !! a = Some t ∧ static t0 t ∧ task_inv e N W rp k a t;
  hi_other : ∀ a, (∀ k, tm !! k ≠ Some (Some a)) →
    own d (default [] (extraCallbacks_ <$> h !! a) ++ option_list (rp !! a)) = [];
}.

Record sched_inv (e : bool) (N C K Q W : list string) : Prop := {
  si_nodup : NoDup (N ++ Q ++ W);
  si_ready : ∀ k, k ∈ N ++ Q ++ W → k ∈ dom M ∧ missing M N k = [];
  si_all : e = false → ∀ k, k ∈ dom M → missing M N k = [] → k ∈ N ++ Q ++ W;
  si_count : NoDup (C ++ K);
  si_counted : C ++ K ⊆ N;
  si_notified : e = false → N ≡ₚ C ++ K;
}.

(** The tasks the main thread awaits. *)
Definition awaited (k : string) : bool :=
  match M !! k with
  | Some (Some t) => waitOnMainThread_ t
  | _ => false
  end.

Definition awaited_in (l : list string) : Z := Z.of_nat (length (filter awaited l)).

Record disp_inv (N C : list string) (dp : StartupTaskDispatcher) : Prop := {
  di_tasks : taskMap_ dp = tm;
  di_sort : sortResult_ dp = Some res;
  di_completed : completedCallback_ dp = Some cc;
  di_await : mainThreadAwaitCallback_ dp = awp;
  di_degree : ∀ k, k ∈ dom M →
    inDegreeMap_ dp !! k = Some (Z.of_nat (length (missing M N k)));
  di_count : tasksCount_ dp = Z.of_nat (size M) - Z.of_nat (length C);
  di_awaits : mainThreadAwaitCount_ dp = awaited_in (keys_of M) - awaited_in C;
}.

(** How often [onDependencyCompleted] of [k] is called for [p] before its [init]. *)
Definition heard (k p : string) : nat := if listening k then occ p (deps_of M k) else 0%nat.

Record trace_inv (N Q : list string) (tr : list Event) : Prop := {
  tr_dependency : ∀ c p, occ (EvDependency c p) tr =
    if decide (c ∈ dom M ∧ p ∈ N ∧ listening c = true) then occ p (deps_of M c) else 0%nat;
  tr_init : ∀ l1 k l2, tr = l1 ++ EvInit k :: l2 →
    (EvInit k ∉ l1) ∧ ∀ p, occ (EvDependency k p) l1 = heard k p;
  tr_ran : ∀ k, EvInit k ∈ tr → k ∈ dom M ∧ missing M N k = [] ∧ (k ∉ Q);
}.

(** The completion callback fires at most once, with success only when every
    task notified its children. *)
Record cb_inv (e : bool) (N C : list string)
    (cbs : gmap Z (OnCompletedCallback * option StartupTaskManager))
    (post : list (option Z * StartupTaskResult)) : Prop := {
  ci_completed : ∃ cb owner, cbs !! cc = Some (cb, owner) ∧ hasCallbackFunc_ cb = true ∧
    (isCalled_ cb = false → fired_ cb = []) ∧
    (isCalled_ cb = true → ∃ r, fired_ cb = [r] ∧
       (resultCode_ r = ERR_OK → ∀ k, k ∈ dom M → k ∈ N) ∧
       (e = false → resultCode_ r = ERR_OK)) ∧
    (e = false → isCalled_ cb = bool_decide (length C = size M));
  ci_await : ∀ c, awp = Some c → c ≠ cc ∧ ∃ cb owner, cbs !! c = Some (cb, owner) ∧
    hasCallbackFunc_ cb = true ∧
    (e = false → isCalled_ cb = bool_decide (awaited_in C = awaited_in (keys_of M)));
  ci_posted : Forall (λ x, x.1 = awp) post ∧ (e = false → post = []);
}.

(** The completion callback is that of the manager, and until it fires the manager lives:
    then no dispatcher has read the map of a manager that is gone. *)
Record live_inv (e : bool) (C : list string)
    (cbs : gmap Z (OnCompletedCallback * option StartupTaskManager))
    (managers : gmap Z StartupTaskManager) (held : option Z) (bad : bool) : Prop := {
  lv_owner : ∃ cb, cbs !! cc = Some (cb, Some requester);
  lv_await : ∀ c, awp = Some c → ∃ cb, cbs !! c = Some (cb, None);
  lv_held : held = holder;
  lv_defined : e = false → bad = false;
  lv_alive : e = false → length C = size M ∨ d ∈ dom managers;
}.

Abbreviation live_in e C w :=
  (live_inv e C (callbacks w) (startupTaskManagerMap_ (startup w)) (held_ w) (dangling w)).

Record request_inv (e : bool) (N C K Q W : list string) (dp : StartupTaskDispatcher)
    (w : World) : Prop := {
  ri_heap : heap_inv e N W (tasks_heap w) (replies w);
  ri_sched : sched_inv e N C K Q W;
  ri_disp : disp_inv N C dp;
  ri_trace : trace_inv N Q (trace w);
  ri_cb : cb_inv e N C (callbacks w) (posted w);
  ri_live : live_in e C w;
}.

(** ** The schedule *)

Section Schedule.
Context (e : bool).
Implicit Types N C K Q W : list string.

Lemma sched_start N C K Q W k :
  sched_inv e N C K (k :: Q) W → sched_inv e N C K Q (k :: W).
Proof.
  intros [Hnd Hr Ha Hc1 Hc2 Hn].
  assert (N ++ Q ++ k :: W ≡ₚ N ++ (k :: Q) ++ W) as Hp
    by (by rewrite <-(Permutation_middle Q W k)).
  split; try done; [by rewrite Hp|intros k'; rewrite Hp; apply Hr|].
  intros He k'. rewrite Hp. by apply Ha.
Qed.

Lemma sched_complete N C K Q W k :
  k ∈ W → sched_inv e N C K Q W →
  ∃ W', W ≡ₚ k :: W' ∧ sched_inv e N C K (k :: Q) W'.
Proof.
  intros [W' Hp]%elem_of_Permutation [Hnd Hr Ha Hc1 Hc2 Hn]. exists W'. split; [done|].
  assert (N ++ (k :: Q) ++ W' ≡ₚ N ++ Q ++ W) as Hp'
    by (by rewrite Hp, <-(Permutation_middle Q W' k)).
  split; try done; [by rewrite Hp'|intros k'; rewrite Hp'; apply Hr|].
  intros He k'. rewrite Hp'. by apply Ha.
Qed.

Lemma sched_drop N C K zs Q W : sched_inv e N C K (zs ++ Q) W → sched_inv true N C K Q W.
Proof.
  intros [Hnd Hr Ha Hc1 Hc2 Hn].
  assert (N ++ (zs ++ Q) ++ W ≡ₚ zs ++ (N ++ Q ++ W)) as Hp.
  { rewrite <-(app_assoc zs). by rewrite Permutation_app_swap_app. }
  split; try done.
  - rewrite Hp in Hnd. by apply NoDup_app in Hnd as (_ & _ & ?).
  - intros k Hk. apply Hr. rewrite Hp. apply elem_of_app. by right.
Qed.

Lemma sched_count N C K Q W k :
  sched_inv e N C (k :: K) Q W → sched_inv e N (C ++ [k]) K Q W.
Proof.
  intros [Hnd Hr Ha Hc1 Hc2 Hn].
  split; rewrite <-?app_assoc; try done.
Qed.

Lemma sched_uncounted N C K Q W k :
  sched_inv e N C (k :: K) Q W → sched_inv true N C K Q W.
Proof.
  intros [Hnd Hr Ha Hc1 Hc2 Hn].
  assert (C ++ k :: K ≡ₚ k :: C ++ K) as Hp by (by rewrite <-Permutation_middle).
  split; try done.
  - rewrite Hp in Hc1. by apply NoDup_cons in Hc1 as [_ ?].
  - intros x Hx. apply Hc2. rewrite Hp. by right.
Qed.

Lemma sched_notify N C K Q W k new :
  sched_inv e N C K (k :: Q) W → NoDup new →
  (∀ c, c ∈ new ↔ c ∈ dom M ∧ k ∈ deps_of M c ∧ missing M (N ++ [k]) c = []) →
  sched_inv e (N ++ [k]) C (k :: K) (new ++ Q) W.
Proof.
  intros [Hnd Hr Ha Hc1 Hc2 Hn] Hnn Hnew.
  assert (k ∉ N) as HkN.
  { apply NoDup_app in Hnd as (_ & Hd & _). intros Hin. apply (Hd _ Hin). left. }
  assert ((N ++ [k]) ++ (new ++ Q) ++ W ≡ₚ new ++ (N ++ (k :: Q) ++ W)) as Hp.
  { rewrite <-!app_assoc, (Permutation_app_swap_app new N). simpl.
    by rewrite (Permutation_middle new (Q ++ W) k). }
  assert (∀ c, c ∈ new → c ∉ N ++ (k :: Q) ++ W) as Hout.
  { intros c (_ & Hk & _)%Hnew [_ Hm]%Hr. by apply HkN, (missing_nil_elem M N c). }
  assert (∀ c, missing M N c = [] → missing M (N ++ [k]) c = []) as Hmono.
  { intros c Hc. apply missing_nil_snoc; auto. }
  split.
  - rewrite Hp. apply NoDup_app. done.
  - intros c. rewrite Hp, elem_of_app. intros [(?&?&?)%Hnew|[? ?]%Hr]; auto.
  - intros He c Hc Hm. rewrite Hp, elem_of_app.
    apply missing_nil_snoc in Hm as [Hm|[Hk Hm]]; [right; by apply Ha|left; by apply Hnew|done].
  - rewrite <-Permutation_middle. constructor; [|done]. intros Hin. by apply HkN, Hc2.
  - intros x Hx. rewrite <-Permutation_middle in Hx. apply elem_of_app.
    apply elem_of_cons in Hx as [->|Hx]; [right; left|left; by apply Hc2].
  - intros He. rewrite (Hn He), <-Permutation_cons_append. apply Permutation_middle.
Qed.
End Schedule.

(** ** The heap *)

Context (Hwf : tasks_wf M) (Hdom : dom tm = dom M).

Lemma request_task k : k ∈ dom M → ∃ t0, M !! k = Some (Some t0) ∧ name_ t0 = k.
Proof. intros [o Ho]%elem_of_dom. destruct (proj1 Hwf k o Ho) as (t & -> & ? & _). eauto. Qed.

Lemma request_key k a : tm !! k = Some (Some a) → k ∈ dom M.
Proof. intros H. rewrite <-Hdom. apply elem_of_dom. eauto. Qed.

Lemma static_trans t0 t1 t2 : static t0 t1 → static t1 t2 → static t0 t2.
Proof. unfold static. intuition congruence. Qed.

Lemma static_with_run t r s cbs : static t (with_run t r s cbs).
Proof. done. Qed.

Lemma task_inv_ext e e' N N' W W' rp rp' k a t :
  task_inv e N W rp k a t → (e' = false → e = false) → (k ∈ N' ↔ k ∈ N) → (k ∈ W' ↔ k ∈ W) →
  rp' !! a = rp !! a → task_inv e' N' W' rp' k a t.
Proof.
  intros [H1 H2 H3 H4 H5 H6 H7] He HN HW Hrp.
  split; rewrite ?HN, ?HW, ?Hrp; auto.
  rewrite H7. by apply decide_ext.
Qed.

Lemma heap_inv_weaken e N W h rp : heap_inv e N W h rp → heap_inv true N W h rp.
Proof.
  intros [Ht Ho]. split; [|done]. intros k t0 Hk.
  destruct (Ht k t0 Hk) as (a & t & ? & ? & ? & ?). exists a, t. split_and!; try done.
  by eapply task_inv_ext.
Qed.

Lemma heap_inv_task e N W h rp k :
  heap_inv e N W h rp → k ∈ dom M →
  ∃ a t t0, M !! k = Some (Some t0) ∧ tm !! k = Some (Some a) ∧ addr tm k = a ∧
    h !! a = Some t ∧ static t0 t ∧ name_ t = k ∧ task_inv e N W rp k a t.
Proof.
  intros Hh (t0 & Ht0 & Hn)%request_task.
  destruct (hi_task _ _ _ _ _ Hh k t0 Ht0) as (a & t & Htm & Ht & Hs & Hi).
  exists a, t, t0. split_and!; try done; [unfold addr; by rewrite Htm|].
  destruct Hs as [-> _]. done.
Qed.

Lemma heap_inv_inj e N W h rp k k' a :
  heap_inv e N W h rp → tm !! k = Some (Some a) → tm !! k' = Some (Some a) → k = k'.
Proof.
  intros Hh Hk Hk'.
  destruct (heap_inv_task _ _ _ _ _ k Hh) as (a1 & t1 & _ & _ & E1 & _ & H1 & _ & <- & _);
    [by eapply request_key|].
  destruct (heap_inv_task _ _ _ _ _ k' Hh) as (a2 & t2 & _ & _ & E2 & _ & H2 & _ & <- & _);
    [by eapply request_key|]. congruence.
Qed.

(** One task of the request changes. *)
Lemma heap_inv_update e e' N N' W W' h rp rp' k a t t' :
  heap_inv e N W h rp → tm !! k = Some (Some a) → h !! a = Some t → static t t' →
  (e' = false → e = false) →
  (∀ k', k' ≠ k → (k' ∈ N' ↔ k' ∈ N) ∧ (k' ∈ W' ↔ k' ∈ W)) →
  (∀ a', a' ≠ a → rp' !! a' = rp !! a') →
  task_inv e' N' W' rp' k a t' → heap_inv e' N' W' (<[a := t']> h) rp'.
Proof.
  intros Hh Hk Ht Hs He Hset Hrp Hti. split.
  - intros k' t0 Hk'. destruct (hi_task _ _ _ _ _ Hh k' t0 Hk') as (a0 & t1 & Htm & Ht1 & Hs1 & Hi).
    destruct (decide (k' = k)) as [->|Hne].
    + assert (a0 = a) as -> by congruence. assert (t1 = t) as -> by congruence.
      exists a, t'. rewrite lookup_insert_eq. split_and!; try done. by eapply static_trans.
    + assert (a0 ≠ a) as Ha by (intros ->; by apply Hne, (heap_inv_inj _ _ _ _ _ _ _ _ Hh Htm Hk)).
      exists a0, t1. rewrite lookup_insert_ne by done. split_and!; try done.
      destruct (Hset k' Hne). eapply task_inv_ext; eauto.
  - intros a' Ha'. assert (a' ≠ a) as Hne by (intros ->; by apply (Ha' k)).
    rewrite lookup_insert_ne, Hrp by done. by apply (hi_other _ _ _ _ _ Hh).
Qed.

(** A task outside the request changes. *)
Lemma heap_inv_foreign e N W h rp rp' a t' :
  heap_inv e N W h rp → (∀ k, tm !! k ≠ Some (Some a)) →
  (∀ a', a' ≠ a → rp' !! a' = rp !! a') →
  own d (extraCallbacks_ t' ++ option_list (rp' !! a)) = [] →
  heap_inv e N W (<[a := t']> h) rp'.
Proof.
  intros Hh Ha Hrp Hown. split.
  - intros k t0 Hk. destruct (hi_task _ _ _ _ _ Hh k t0 Hk) as (a0 & t1 & Htm & Ht1 & Hs1 & Hi).
    assert (a0 ≠ a) as Hne by (intros ->; by apply (Ha k)).
    exists a0, t1. rewrite lookup_insert_ne by done. split_and!; try done.
    eapply task_inv_ext; eauto.
  - intros a' Ha'. destruct (decide (a' = a)) as [->|Hne]; [by rewrite lookup_insert_eq|].
    rewrite lookup_insert_ne, Hrp by done. by apply (hi_other _ _ _ _ _ Hh).
Qed.

(** The reply of a task outside the request is taken. *)
Lemma heap_inv_foreign_reply e N W h rp a :
  heap_inv e N W h rp → (∀ k, tm !! k ≠ Some (Some a)) → heap_inv e N W h (delete a rp).
Proof.
  intros Hh Ha. split.
  - intros k t0 Hk. destruct (hi_task _ _ _ _ _ Hh k t0 Hk) as (a0 & t1 & Htm & Ht1 & Hs1 & Hi).
    assert (a0 ≠ a) as Hne by (intros ->; by apply (Ha k)).
    exists a0, t1. split_and!; try done. eapply task_inv_ext; eauto.
    by rewrite lookup_delete_ne.
  - intros a' Ha'. pose proof (hi_other _ _ _ _ _ Hh a' Ha') as Hown.
    destruct (decide (a' = a)) as [->|Hne]; [|by rewrite lookup_delete_ne].
    rewrite lookup_delete_eq, app_nil_r. unfold own in *. rewrite filter_app in Hown.
    by apply app_eq_nil in Hown as [? _].
Qed.

(** The ghost state of an initialized task moves to the notified ones. *)
Lemma heap_inv_notify e N W h rp k :
  heap_inv e N W h rp → k ∈ dom M → (k ∉ W) →
  (∀ a t, tm !! k = Some (Some a) → h !! a = Some t → state_ t = INITIALIZED) →
  heap_inv e (N ++ [k]) W h rp.
Proof.
  intros Hh Hk HW Hst.
  destruct (heap_inv_task _ _ _ _ _ k Hh Hk) as (a & t & t0 & _ & Htm & _ & Ht & _ & _ & Hi).
  specialize (Hst a t Htm Ht). rewrite <-(insert_id h a t Ht).
  eapply (heap_inv_update e e N _ W W); try done.
  - intros k' Hne. rewrite elem_of_app, list_elem_of_singleton. intuition.
  - by destruct Hi; split.
Qed.

(** ** The trace *)

Lemma trace_sub N zs Q tr : trace_inv N (zs ++ Q) tr → trace_inv N Q tr.
Proof.
  intros [H1 H2 H3]. split; try done. intros k Hk. destruct (H3 k Hk) as (? & ? & Hq).
  split_and!; try done. intros ?. apply Hq, elem_of_app. by right.
Qed.

Lemma trace_start N Q tr k :
  trace_inv N (k :: Q) tr → k ∈ dom M → missing M N k = [] → (k ∉ Q) →
  trace_inv N Q (tr ++ [EvInit k]).
Proof.
  intros [H1 H2 H3] Hk Hm HQ.
  assert (EvInit k ∉ tr) as Hnew by (intros (_ & _ & Hq)%H3; apply Hq; left).
  assert (∀ p, occ (EvDependency k p) tr = heard k p) as Hdep.
  { intros p. unfold heard. rewrite H1. case_decide as Hd; [by destruct Hd as (_ & _ & ->)|].
    destruct (listening k); [|done]. symmetry. apply occ_zero.
    intros Hp. apply Hd. split_and!; [done| |done]. by apply (missing_nil_elem M N k). }
  split.
  - intros c p. rewrite occ_app, H1, (proj2 (occ_zero _ [_])); [lia|].
    by rewrite list_elem_of_singleton.
  - intros l1 k' l2 E. destruct l2 as [|x l2 _] using rev_ind.
    + apply app_inj_tail in E as [<- [= <-]]. done.
    + rewrite app_comm_cons, (assoc_L (++)) in E. apply app_inj_tail in E as [E _]. eauto.
  - intros k'. rewrite elem_of_app, list_elem_of_singleton. intros [Hin|[= ->]]; [|done].
    destruct (H3 k' Hin) as (? & ? & Hq). split_and!; try done.
    intros ?. by apply Hq; right.
Qed.

Lemma occ_notifications c p k cs :
  occ (EvDependency c p) (notifications listening cs k) =
    if decide (p = k ∧ listening c = true) then occ c cs else 0%nat.
Proof.
  unfold notifications. induction cs as [|c' cs IH]; [by case_decide|].
  rewrite filter_cons, occ_cons. destruct (decide (listening c' = true)) as [Hl|Hl]; csimpl;
    rewrite ?occ_cons, IH; repeat case_decide; simplify_eq; try done; naive_solver.
Qed.

Lemma init_before_notifications tr k cs l1 k' l2 :
  tr ++ notifications listening cs k = l1 ++ EvInit k' :: l2 →
  ∃ l2', tr = l1 ++ EvInit k' :: l2'.
Proof.
  assert (∀ k2, EvInit k' ∉ notifications listening cs k2) as Hno.
  { intros k2 (? & ? & _)%list_elem_of_fmap. done. }
  intros [([|x l3] & E1 & E2)|(l3 & E1 & E2)]%app_eq_inv.
  - exfalso. apply (Hno k). cbn in E2. rewrite <-E2. left.
  - injection E2 as <- ->. eauto.
  - exfalso. apply (Hno k). rewrite E2. apply elem_of_app. right. left.
Qed.

Lemma trace_notify N Q tr k new cs :
  trace_inv N Q tr → (k ∉ N) →
  (∀ c, occ c cs = if decide (c ∈ dom M) then occ k (deps_of M c) else 0%nat) →
  (∀ c, c ∈ new → k ∈ deps_of M c) →
  trace_inv (N ++ [k]) (new ++ Q) (tr ++ notifications listening cs k).
Proof.
  intros [H1 H2 H3] HkN Hcs Hnew. split.
  - intros c p. rewrite occ_app, H1, occ_notifications, Hcs.
    assert (p ∈ N ++ [k] ↔ p ∈ N ∨ p = k) as Hin
      by (by rewrite elem_of_app, list_elem_of_singleton).
    destruct (decide (c ∈ dom M ∧ p ∈ N ++ [k] ∧ listening c = true)),
      (decide (c ∈ dom M ∧ p ∈ N ∧ listening c = true)), (decide (p = k ∧ listening c = true)),
      (decide (c ∈ dom M)) as [?|?]; destruct_and?; subst; try lia; naive_solver.
  - intros l1 k' l2 E.
    destruct (init_before_notifications _ _ _ _ _ _ E) as [l2' E']. eauto.
  - intros k' [Hin|Hin]%elem_of_app.
    + destruct (H3 k' Hin) as (Hd & Hm & Hq). split_and!; [done|apply missing_nil_snoc; auto|].
      intros [Hn|?]%elem_of_app; [|by apply Hq].
      apply HkN, (missing_nil_elem M N k'); auto.
    + apply list_elem_of_fmap in Hin as (? & ? & _). done.
Qed.

(** ** The counters *)

Lemma disp_notify N C dp deg k :
  disp_inv N C dp →
  (∀ c, c ∈ dom M → deg !! c = Some (Z.of_nat (length (missing M (N ++ [k]) c)))) →
  disp_inv (N ++ [k]) C (dp <| inDegreeMap_ := deg |>).
Proof. intros [] Hdeg. by split. Qed.

Lemma awaited_in_snoc C k : awaited_in (C ++ [k]) = awaited_in C + (if awaited k then 1 else 0).
Proof.
  unfold awaited_in. rewrite filter_app, filter_cons, length_app.
  destruct (awaited k); [rewrite decide_True|rewrite decide_False]; simpl; auto; lia.
Qed.

(** Counted tasks are tasks of the request, so the counters do not wrap. *)
Lemma counted_bound e N C K Q W :
  sched_inv e N C K Q W →
  (length (C ++ K) ≤ size M)%nat ∧ awaited_in (C ++ K) ≤ awaited_in (keys_of M) < UINT32_MOD.
Proof.
  intros [Hnd Hr Ha Hc1 Hc2 Hn].
  assert (C ++ K ⊆+ keys_of M) as Hsub.
  { apply NoDup_submseteq; [done|]. intros k Hk%Hc2. apply elem_of_keys_of, Hr.
    apply elem_of_app. by left. }
  split; [rewrite <-length_keys_of; by apply submseteq_length|]. unfold awaited_in. split.
  - apply submseteq_Permutation in Hsub as [l ->]. rewrite !filter_app, !length_app. lia.
  - pose proof (proj2 Hwf). pose proof (length_filter awaited (keys_of M)).
    rewrite length_keys_of in *. lia.
Qed.

(** ** The callbacks *)

Lemma OnCompletedCallback_Call_fires cb r :
  hasCallbackFunc_ cb = true →
  OnCompletedCallback_Call cb r =
    mkOnCompleted true true (if isCalled_ cb then fired_ cb else fired_ cb ++ [r]).
Proof. destruct cb as [h [|] f]; cbn; by intros ->. Qed.

Lemma cb_error e N C w r :
  cb_inv e N C (callbacks w) (posted w) → resultCode_ r ≠ ERR_OK →
  cb_inv true N C (callbacks (Callback_Call w (Some cc) r)) (posted w).
Proof.
  intros [(cb & owner & Hcc & Hf & Hnc & Hc & He) Haw [Hp _]] Hr. split.
  - exists (OnCompletedCallback_Call cb r), owner.
    rewrite Callback_Call_callbacks, decide_True, Hcc by done.
    cbn [fmap option_fmap option_map prod_map fst snd id].
    rewrite OnCompletedCallback_Call_fires by done. cbn. split_and!; try done.
    intros _. destruct (isCalled_ cb); [destruct (Hc eq_refl) as (r' & ? & ? & _); by exists r'|].
    rewrite (Hnc eq_refl). exists r. split_and!; try done.
  - intros c Hc'. destruct (Haw c Hc') as (Hne & cb' & owner' & ? & ? & _). split; [done|].
    exists cb', owner'. rewrite Callback_Call_callbacks, decide_False by congruence. done.
  - done.
Qed.

Lemma cb_weaken e N C cbs post : cb_inv e N C cbs post → cb_inv true N C cbs post.
Proof.
  intros [(cb & owner & Hcc & Hf & Hnc & Hc & He) Haw [Hp _]]. split.
  - exists cb, owner. split_and!; try done. intros H.
    destruct (Hc H) as (r & ? & ? & _). by exists r.
  - intros c Hc'. destruct (Haw c Hc') as (Hne & cb' & owner' & ? & ? & _). split; [done|].
    by exists cb', owner'.
  - done.
Qed.

Lemma cb_notify e N C cbs post k : cb_inv e N C cbs post → cb_inv e (N ++ [k]) C cbs post.
Proof.
  intros [(cb & owner & Hcc & Hf & Hnc & Hc & He) Haw Hp]. split; [|done|done].
  exists cb, owner. split_and!; try done. intros H.
  destruct (Hc H) as (r & ? & Hall & ?). exists r. split_and!; try done.
  intros Hok k' Hk'. apply elem_of_app. left. by apply Hall.
Qed.

(** The callbacks after task [k] is counted: the main thread's fires with the last
    awaited task, the completion callback with the last task. *)
Lemma cb_count e N C w r k (all_awaited all_done : bool) :
  cb_inv e N C (callbacks w) (posted w) → resultCode_ r = ERR_OK →
  (length C < size M)%nat → awaited_in (C ++ [k]) ≤ awaited_in (keys_of M) →
  all_awaited = awaited k && bool_decide (awaited_in (C ++ [k]) = awaited_in (keys_of M)) →
  all_done = bool_decide (length (C ++ [k]) = size M) →
  (all_done = true → ∀ k', k' ∈ dom M → k' ∈ N) →
  let w1 := if all_awaited then Callback_Call w awp r else w in
  let w2 := if all_done then Callback_Call w1 (Some cc) r else w1 in
  cb_inv e N (C ++ [k]) (callbacks w2) (posted w).
Proof.
  intros [(cb & owner & Hcc & Hf & Hnc & Hc & He) Haw Hp] Hr Hlt Hle Eaw Edn Hall w1 w2.
  assert (awp ≠ Some cc) as Hne.
  { intros Hcontra. by destruct (Haw cc Hcontra) as [? _]. }
  assert (callbacks w1 !! cc = Some (cb, owner)) as Hcc1.
  { unfold w1. destruct all_awaited; [|done].
    by rewrite Callback_Call_callbacks, decide_False by done. }
  split; [|intros c Hawc|done].
  - exists (if all_done then OnCompletedCallback_Call cb r else cb), owner. split_and!.
    + unfold w2. destruct all_done; [|done].
      by rewrite Callback_Call_callbacks, decide_True, Hcc1 by done.
    + destruct all_done; [by rewrite OnCompletedCallback_Call_fires|done].
    + destruct all_done; [by rewrite OnCompletedCallback_Call_fires|done].
    + destruct all_done; [|done].
      rewrite OnCompletedCallback_Call_fires by done. cbn. intros _.
      destruct (isCalled_ cb); [|rewrite (Hnc eq_refl); exists r; by split_and!; auto].
      destruct (Hc eq_refl) as (r' & ? & ? & ?). exists r'. by split_and!.
    + intros Hef. rewrite <-Edn. destruct all_done; [by rewrite OnCompletedCallback_Call_fires|].
      rewrite (He Hef). apply bool_decide_eq_false_2. lia.
  - destruct (Haw c Hawc) as (Hcne & cb' & owner' & Hcb & Hf' & He'). split; [done|].
    exists (if all_awaited then OnCompletedCallback_Call cb' r else cb'), owner'. split_and!.
    + transitivity (callbacks w1 !! c).
      { unfold w2. destruct all_done; [|done].
        by rewrite Callback_Call_callbacks, decide_False by congruence. }
      unfold w1. destruct all_awaited; [|done].
      by rewrite Callback_Call_callbacks, decide_True, Hcb by done.
    + destruct all_awaited; [by rewrite OnCompletedCallback_Call_fires|done].
    + intros Hef. specialize (He' Hef). rewrite awaited_in_snoc in *.
      destruct (awaited k); cbn [andb] in Eaw.
      * rewrite <-Eaw. destruct all_awaited; [by rewrite OnCompletedCallback_Call_fires|].
        rewrite He'. apply bool_decide_eq_false_2. lia.
      * rewrite Eaw, He', Z.add_0_r. done.
Qed.

(** ** The life of the manager *)

Lemma live_weaken e C cbs managers held bad managers' bad' :
  live_inv e C cbs managers held bad → live_inv true C cbs managers' held bad'.
Proof. by intros []. Qed.

(** Calling a callback leaves its owner. *)
Lemma Callback_Call_owner w p r c o :
  (∃ cb, callbacks w !! c = Some (cb, o)) → ∃ cb, callbacks (Callback_Call w p r) !! c = Some (cb, o).
Proof.
  intros [cb Hc]. rewrite Callback_Call_callbacks, Hc. case_decide; by eexists.
Qed.

Lemma Callback_Call_life w p r :
  held_ (Callback_Call w p r) = held_ w ∧ dangling (Callback_Call w p r) = dangling w.
Proof.
  unfold Callback_Call. destruct (p ≫= _) as [[c [cb [mgr|]]]|]; [|done|done].
  destruct (_ && _); [|done]. unfold OnRequestCompleted. by destruct (negb _).
Qed.

Lemma live_call e C w p r :
  live_in e C w → live_in true C (Callback_Call w p r).
Proof.
  intros [Ho Ha Hh _ _]. split; [by apply Callback_Call_owner| | |done|done].
  - intros c Hc. by apply Callback_Call_owner, Ha.
  - by rewrite (proj1 (Callback_Call_life w p r)).
Qed.

(** The callback of the waiting main thread is not that of a manager. *)
Lemma live_await_call e C w r : live_in e C w → live_in e C (Callback_Call w awp r).
Proof.
  intros Hl. pose proof (live_call _ _ _ awp r Hl) as [Ho Ha Hh _ _].
  destruct Hl as [_ Haw _ Hd Hal]. split; [done|done|done| |].
  - by rewrite (proj2 (Callback_Call_life w awp r)).
  - assert (startup (Callback_Call w awp r) = startup w) as ->; [|done].
    unfold Callback_Call. destruct awp as [c|]; [|done]. destruct (Haw c eq_refl) as [cb Hc].
    cbn [mbind option_bind]. by rewrite Hc.
Qed.

Lemma touch_same w : same_schedule w (touch_tasks w d) ∧ callbacks (touch_tasks w d) = callbacks w.
Proof. unfold touch_tasks. by destruct (id_alive w d). Qed.

Lemma managed_alive w id : id ∈ dom (startupTaskManagerMap_ (startup w)) → id_alive w id = true.
Proof. intros H. unfold id_alive, map_alive. by rewrite bool_decide_eq_true_2. Qed.

Lemma touch_held w : held_ (touch_tasks w d) = held_ w.
Proof. unfold touch_tasks. by destruct (id_alive w d). Qed.

(** The manager lives while a task is not counted. *)
Lemma live_touch e N C K k Q W w :
  live_in e C w → sched_inv e N C K (k :: Q) W ∨ sched_inv e N C (k :: K) Q W →
  live_in e C (touch_tasks w d).
Proof.
  intros Hl Hs. destruct e; [rewrite (proj2 (touch_same w)), touch_held; by eapply live_weaken|].
  assert (length C < size M)%nat as Hlt.
  { destruct Hs as [[Hnd Hr _ Hc1 Hc2 _]|[Hnd Hr _ Hc1 Hc2 _]].
    - assert (k :: C ++ K ⊆+ keys_of M) as Hsub%submseteq_length.
      { apply NoDup_submseteq.
        - apply NoDup_cons. split; [|done]. intros Hk%Hc2.
          apply NoDup_app in Hnd as (_ & H & _). apply (H k Hk). left.
        - intros x [->|Hx%Hc2]%elem_of_cons; apply elem_of_keys_of, Hr, elem_of_app; [right; left|by left]. }
      rewrite length_keys_of in Hsub. cbn in Hsub. rewrite length_app in Hsub. lia.
    - assert (C ++ k :: K ⊆+ keys_of M) as Hsub%submseteq_length.
      { apply NoDup_submseteq; [done|]. intros x Hx%Hc2. apply elem_of_keys_of, Hr, elem_of_app. by left. }
      rewrite length_keys_of, length_app in Hsub. cbn in Hsub. lia. }
  unfold touch_tasks. destruct (lv_alive _ _ _ _ _ _ Hl eq_refl) as [?|E]; [lia|].
  by rewrite managed_alive.
Qed.

(** All tasks are counted when the counter is used up. *)
Lemma counted_all e N C K Q W :
  sched_inv e N C K Q W → length C = size M → ∀ k, k ∈ dom M → k ∈ N.
Proof.
  intros [Hnd Hr Ha Hc1 Hc2 Hn] Hlen k Hk.
  apply Hc2, elem_of_app. left.
  assert (C ≡ₚ keys_of M) as ->; [|by apply elem_of_keys_of].
  apply submseteq_length_Permutation; [|rewrite length_keys_of; lia].
  apply NoDup_submseteq; [by apply NoDup_app in Hc1 as [? _]|].
  intros k' Hk'. apply elem_of_keys_of, Hr, elem_of_app. left. apply Hc2, elem_of_app. by left.
Qed.

Lemma count_down_inv e N C K Q W dp w k r :
  dispatchers w = {[d := dp]} → request_inv e N C (k :: K) Q W dp w → resultCode_ r = ERR_OK →
  ∃ dp', dispatchers (count_down w d (awaited k) r) = {[d := dp']} ∧
    request_inv e N (C ++ [k]) K Q W dp' (count_down w d (awaited k) r).
Proof.
  intros Hd [Hh Hs Hdp Htr Hcb Hlv] Hr. unfold count_down. rewrite Hd, lookup_singleton_eq.
  pose proof (sched_count e N C K Q W k Hs) as Hs'.
  destruct (counted_bound _ _ _ _ _ _ Hs') as [Hlen Haw].
  assert (Z.of_nat (size M) < UINT32_MOD) as Hsz by apply Hwf.
  pose proof Hdp as [H1 H2 H3 H4 H5 H6 H7].
  rewrite length_app in Hlen. simpl in Hlen. rewrite length_app in Hlen. simpl in Hlen.
  assert (awaited_in (C ++ [k]) ≤ awaited_in (keys_of M)) as Hle.
  { etransitivity; [|apply Haw]. unfold awaited_in. rewrite (filter_app _ (C ++ [k])), length_app. lia. }
  assert (0 ≤ awaited_in C) as H0 by (unfold awaited_in; lia).
  pose proof (awaited_in_snoc C k) as Hsn.
  set (awaits := if awaited k then _ else _).
  assert (awaits = awaited_in (keys_of M) - awaited_in (C ++ [k])) as Eaw.
  { unfold awaits. rewrite H7. destruct (awaited k); [rewrite u32_small by lia|]; lia. }
  rewrite H6, u32_small by lia. rewrite H3, H4.
  set (dp' := dp <| mainThreadAwaitCount_ := awaits |> <| tasksCount_ := _ |>).
  set (w1 := set_dispatcher w d dp').
  assert (cb_inv e N C (callbacks w1) (posted w1)) as Hcb1 by done.
  pose proof (cb_count e N C w1 r k (awaited k && (awaits =? 0))
    (Z.of_nat (size M) - Z.of_nat (length C) - 1 =? 0) Hcb1 Hr ltac:(lia) Hle) as Hcount.
  assert (dispatchers w1 = {[d := dp']}) as Hd1.
  { cbn. rewrite Hd. apply insert_singleton_eq. }
  exists dp'.
  set (w2 := if awaited k && (awaits =? 0) then Callback_Call w1 awp r else w1) in *.
  set (w3 := if _ =? 0 then Callback_Call w2 (Some cc) r else w2) in *.
  assert (same_schedule w1 w3) as (Hs1 & Hs2 & Hs3 & Hs4 & Hs5).
  { transitivity w2.
    - unfold w2. destruct (_ && _); [apply Callback_Call_same|done].
    - unfold w3. generalize w2. intros w'. case_match; [apply Callback_Call_same|done]. }
  split; [by rewrite Hs2|].
  split; rewrite ?Hs1, ?Hs3, ?Hs4, ?Hs5; try done.
  - by split; cbn; rewrite ?length_app; simpl; try done; lia.
  - apply Hcount; [|rewrite length_app; simpl|].
    + f_equal. rewrite Eaw. apply Bool.eq_iff_eq_true. rewrite Z.eqb_eq, bool_decide_eq_true. lia.
    + apply Bool.eq_iff_eq_true. rewrite Z.eqb_eq, bool_decide_eq_true. lia.
    + intros E%Z.eqb_eq. apply (counted_all _ _ _ _ _ _ Hs'). rewrite length_app. simpl. lia.
  - assert (live_in e C w2) as Hlv2.
    { unfold w2. destruct (_ && _); [by apply live_await_call|done]. }
    unfold w3. destruct (Z.eqb_spec (Z.of_nat (size M) - Z.of_nat (length C) - 1) 0) as [Hz|Hz].
    + pose proof (live_call _ _ _ (Some cc) r Hlv2) as [Ho Ha Hh' _ _]. destruct Hlv2 as [_ _ _ Hdf _].
      split; [done|done|done| |].
      * by rewrite (proj2 (Callback_Call_life w2 _ r)).
      * intros _. left. rewrite length_app. simpl. lia.
    + destruct Hlv2 as [Ho Ha Hh' Hdf Hal]. split; [done|done|done|done|].
      intros He. destruct (Hal He) as [?|?]; [lia|by right].
Qed.

(** ** Errors *)

Lemma share_result_inv e N C K Q W dp w k r r' :
  request_inv e N C K Q W dp w → resultCode_ r ≠ ERR_OK → taskMap_ dp = tm →
  request_inv e N C K Q W dp (share_result w dp k r r').
Proof.
  intros [Hh Hs Hdp Htr Hcb Hlv] Hr Htm. unfold share_result. rewrite Htm.
  destruct (tm !! k) as [[a|]|] eqn:Hk; [|done|done].
  destruct (tasks_heap w !! a) as [t|] eqn:Ht; [|done].
  destruct (decide (result_ t = Some r)) as [Hres|]; [|done].
  destruct (heap_inv_task _ _ _ _ _ k Hh) as (a' & t' & t0 & _ & Hk' & _ & Ht' & _ & _ & Hi);
    [by eapply request_key|].
  assert (a' = a) as -> by congruence. assert (t' = t) as -> by congruence.
  split; try done. eapply (heap_inv_update e e N N W W); try done.
  destruct Hi as [H1 H2 H3 H4 H5 H6 H7]. split; try done.
  cbn. intros Hst. destruct (H4 Hst) as (r0 & E & ?). congruence.
Qed.

Lemma post_error_inv N C K Q W dp w r :
  request_inv true N C K Q W dp w → mainThreadAwaitCallback_ dp = awp →
  request_inv true N C K Q W dp (PostMainThreadTask w (mainThreadAwaitCallback_ dp) r).
Proof.
  intros [Hh Hs Hdp Htr [Hc Ha [Hp _]] Hlv] Haw. unfold PostMainThreadTask.
  destruct (hasMainHandler_ w); [|by split].
  split; try done. split; try done. split; [|done].
  cbn. apply Forall_app. split; [done|]. by constructor.
Qed.

Lemma OnError_dispatchers w dp k r : dispatchers (OnError w dp k r) = dispatchers w.
Proof.
  unfold OnError. cbv zeta.
  set (r' := SetResultMessage _ _). set (w1 := share_result _ _ _ _ _).
  transitivity (dispatchers (Callback_Call w1 (completedCallback_ dp) r')).
  { unfold PostMainThreadTask. by destruct (hasMainHandler_ _). }
  rewrite (proj1 (proj2 (Callback_Call_same w1 _ r'))).
  unfold w1, share_result. by repeat case_match.
Qed.

Lemma OnError_inv e N C K Q W dp w k r :
  request_inv e N C K Q W dp w → resultCode_ r ≠ ERR_OK →
  request_inv true N C K Q W dp (OnError w dp k r).
Proof.
  intros Hinv Hr. pose proof (ri_disp _ _ _ _ _ _ _ _ Hinv) as Hdp.
  unfold OnError. cbv zeta.
  set (r' := SetResultMessage _ _).
  pose proof (share_result_inv _ _ _ _ _ _ _ _ k r r' Hinv Hr (di_tasks _ _ _ Hdp)) as Hinv1.
  apply post_error_inv; [|apply Hdp].
  set (w1 := share_result _ _ _ _ _) in *. destruct Hinv1 as [Hh Hs _ Htr Hcb Hlv].
  rewrite (di_completed _ _ _ Hdp).
  destruct (Callback_Call_same w1 (Some cc) r') as (E1 & E2 & E3 & E4 & E5).
  split; rewrite ?E1, ?E3, ?E4, ?E5; try done.
  - by eapply heap_inv_weaken.
  - by apply (sched_drop e N C K []).
  - by apply cb_error with (e := e).
  - eapply live_call in Hlv. by eapply live_weaken.
Qed.

(** ** Saving the result of a task *)

Lemma save_result_inv e N W W' h rp k a t r :
  heap_inv e N W h rp → tm !! k = Some (Some a) → h !! a = Some t → (k ∉ N) → (k ∉ W') →
  (∀ k', k' ≠ k → (k' ∈ W' ↔ k' ∈ W)) →
  heap_inv e N W' (<[a := (CallExtraCallback (SaveResult t (Some r))).2]> h) (delete a rp).
Proof.
  intros Hh Hk Ht HN HW' HW.
  eapply (heap_inv_update e e N N W W'); try done.
  - intros k' Hne. split; [done|by apply HW].
  - intros a' Hne. by rewrite lookup_delete_ne.
  - split; cbn; rewrite ?lookup_delete_eq; try done.
    + by case_match.
    + destruct (GetResultCode r =? ERR_OK) eqn:E; [|done]. intros _. exists r.
      split; [done|]. by apply Z.eqb_eq.
    + by intros _; case_match.
    + by rewrite decide_False.
Qed.
End Request.
