(* ===== verification/DispatchOrder.v ===== *)
(** * The order in which startup tasks run

    Every step of a request that runs alone preserves the invariant of
    [DispatchInvariant], and what follows for the tasks and the listener. *)

From S2P Require Import Prelude StartupTask TopologySort StartupManager StartupDispatch.
From S2P Require Import DispatchInvariant.
From stdpp Require Import prelude gmap strings list sorting relations.
From Stdlib Require Import ZArith Lia.

Local Open Scope Z_scope.

Section Run.
Context (js : string → JsTask) {RQ : Requester} {HO : Holder} (Hlisten : listening = listens js) (d cc : Z) (awp : option Z) (tm : PtrMap) (M : TaskMap)
  (res : StartupSortResult).
Context (Hwf : tasks_wf M) (Hdom : dom tm = dom M).
Context (Hchildren : ∀ k, k ∈ dom M → ∃ cs, startupChildrenMap_ res !! k = Some cs ∧
  ∀ c, occ c cs = if decide (c ∈ dom M) then occ k (deps_of M c) else 0%nat).

Abbreviation request_inv := (DispatchInvariant.request_inv d cc awp tm M res).

(** The script engine can start every task. *)
Definition js_ok : Prop :=
  ∀ k, k ∈ dom M →
    RunOnMainThread (js k) = (true, None) ∧ excutorLoads (js k) = true ∧
    RunOnTaskPool (js k) = ERR_OK.

(** What a call that starts tasks leaves: the invariant, more tasks notified, and
    no error where tasks can be started. *)
Definition advanced (e : bool) (N K Q : list string) (w' : World) : Prop :=
  ∃ e' N' C' W' dp', dispatchers w' = {[d := dp']} ∧ request_inv e' N' C' K Q W' dp' w' ∧
    N ⊆ N' ∧ (js_ok → e' = e).

(** [Dispatch] runs for task [k], which is no longer awaited; unlike the tasks of
    [Q] it may have been started already. *)
Record dispatch_inv (e : bool) (N C K : list string) (k : string) (Q W : list string)
    (dp : StartupTaskDispatcher) (w : World) : Prop := {
  pi_heap : heap_inv d tm M e N W (tasks_heap w) (replies w);
  pi_sched : sched_inv M e N C K (k :: Q) W;
  pi_disp : disp_inv cc awp tm M res N C dp;
  pi_trace : trace_inv M N Q (trace w);
  pi_cb : cb_inv cc awp M e N C (callbacks w) (posted w);
  pi_live : live_inv d cc awp M e C (callbacks w) (startupTaskManagerMap_ (startup w)) (held_ w) (dangling w);
}.

Lemma request_dispatch_inv e N C K k Q W dp w :
  request_inv e N C K (k :: Q) W dp w → dispatch_inv e N C K k Q W dp w.
Proof. intros []. split; try done. by apply (trace_sub M N [k]). Qed.

(** The task failed, or its result is ignored. *)
Lemma dispatch_inv_drop e N C K k Q W dp w :
  dispatch_inv e N C K k Q W dp w → request_inv true N C K Q W dp w.
Proof.
  intros [Hh Hs Hdp Htr Hcb Hlv]. split; try done.
  - by eapply heap_inv_weaken.
  - by apply (sched_drop M e N C K [k]).
  - by eapply cb_weaken.
  - by eapply live_weaken.
Qed.

Lemma sched_head e N C K Q W k :
  sched_inv M e N C K (k :: Q) W →
  k ∈ dom M ∧ missing M N k = [] ∧ (k ∉ N) ∧ (k ∉ Q) ∧ (k ∉ W).
Proof.
  intros [Hnd Hr _ _ _ _].
  assert (k ∈ N ++ (k :: Q) ++ W) as [? ?]%Hr.
  { apply elem_of_app. right. left. }
  apply NoDup_app in Hnd as (_ & H1 & H2). simpl in H2.
  apply NoDup_cons in H2 as [H2 _]. rewrite elem_of_app in H2.
  split_and!; try done; [|tauto|tauto].
  intros Hin. apply (H1 _ Hin). left.
Qed.

Lemma notified_bound e N C K Q W :
  sched_inv M e N C K Q W → (length N + length (Q ++ W) ≤ size M)%nat.
Proof.
  intros [Hnd Hr _ _ _ _]. rewrite <-length_app, <-length_keys_of.
  apply submseteq_length, NoDup_submseteq; [done|].
  intros k [? _]%Hr. by apply elem_of_keys_of.
Qed.

Lemma notified_grows e N C K Q W e' N' C' K' Q' W' :
  sched_inv M e N C K Q W → sched_inv M e' N' C' K' Q' W' → N ⊆ N' →
  (length N ≤ length N')%nat.
Proof.
  intros [Hnd _ _ _ _ _] _ Hsub. apply submseteq_length, NoDup_submseteq; [|done].
  by apply NoDup_app in Hnd as [? _].
Qed.

(** ** Starting one task *)

Section Start.
Context (e : bool) (N C K Q W : list string) (dp : StartupTaskDispatcher) (w : World).
Context (k : string) (a : Z) (t : StartupTask).
Context (Hinv : request_inv e N C K (k :: Q) W dp w).
Context (Hk : tm !! k = Some (Some a)) (Ht : tasks_heap w !! a = Some t).

Lemma start_task_inv : task_inv d e N W (replies w) k a t.
Proof.
  destruct (heap_inv_task d tm M Hwf e N W _ _ k (ri_heap _ _ _ _ _ _ _ _ _ _ _ _ _ _ Hinv))
    as (a' & t' & t0 & _ & Hk' & _ & Ht' & _ & _ & Hi);
    [by apply (sched_head e N C K Q W), Hinv|].
  by simplify_eq.
Qed.

(** The task runs: it is awaited from now on. *)
Lemma start_running :
  state_ t = CREATED →
  let w1 := set_task w a (with_run t (result_ t) INITIALIZING (extraCallbacks_ t)) in
  request_inv e N C K Q (k :: W) dp (emit w1 [EvInit k] <| replies ::= <[a := (d, k)]> |>).
Proof.
  intros Hst w1. pose proof start_task_inv as [H1 H2 H3 H4 H5 H6 H7].
  destruct Hinv as [Hh Hs Hdp Htr Hcb Hlv].
  destruct (sched_head _ _ _ _ _ _ _ Hs) as (Hd & Hm & HN & HQ & HW).
  assert (replies w !! a = None) as Hrp.
  { destruct (replies w !! a) eqn:E; [|done]. rewrite H5 in Hst by done. done. }
  rewrite Hrp, decide_False, app_nil_r in H7 by done.
  split; try done; [|by apply sched_start|by apply trace_start].
  eapply (heap_inv_update d tm M Hwf Hdom e e N N W (k :: W)); try done.
  - intros k' Hne. rewrite elem_of_cons. intuition.
  - intros a' Hne. cbn. by rewrite lookup_insert_ne.
  - split; cbn; rewrite ?lookup_insert_eq; try done.
    unfold own in *. rewrite filter_app, H7, decide_True by left. cbn.
    by rewrite decide_True.
Qed.

(** The start failed before [init] was called, or after. *)
Lemma start_failed :
  state_ t = CREATED →
  let w1 := set_task w a (with_run t (result_ t) INITIALIZING (extraCallbacks_ t)) in
  request_inv true N C K Q W dp w1 ∧ request_inv true N C K Q W dp (emit w1 [EvInit k]).
Proof.
  intros Hst w1. pose proof start_task_inv as [H1 H2 H3 H4 H5 H6 H7].
  destruct Hinv as [Hh Hs Hdp Htr Hcb Hlv].
  destruct (sched_head _ _ _ _ _ _ _ Hs) as (Hd & Hm & HN & HQ & HW).
  assert (heap_inv d tm M true N W (tasks_heap w1) (replies w1)) as Hh1.
  { eapply (heap_inv_update d tm M Hwf Hdom e true N N W W); try done. }
  assert (sched_inv M true N C K Q W) as Hs1 by (by apply (sched_drop M e N C K [k])).
  split; (split; try done; [|by eapply cb_weaken|by eapply live_weaken]); [by apply (trace_sub M N [k])|].
  by apply trace_start.
Qed.

(** The task is running for another request. *)
Lemma start_shared :
  state_ t = INITIALIZING →
  request_inv e N C K Q (k :: W) dp
    (set_task w a (with_run t (result_ t) (state_ t) (extraCallbacks_ t ++ [(d, k)]))).
Proof.
  intros Hst. pose proof start_task_inv as [H1 H2 H3 H4 H5 H6 H7].
  destruct Hinv as [Hh Hs Hdp Htr Hcb Hlv].
  destruct (sched_head _ _ _ _ _ _ _ Hs) as (Hd & Hm & HN & HQ & HW).
  split; try done; [|by apply sched_start|by apply (trace_sub M N [k])].
  eapply (heap_inv_update d tm M Hwf Hdom e e N N W (k :: W)); try done.
  - intros k' Hne. rewrite elem_of_cons. intuition.
  - split; cbn; try done.
    unfold own in *. rewrite decide_False, filter_app in H7 by done.
    rewrite decide_True, !filter_app, filter_cons_True by (left || done).
    by apply app_eq_nil in H7 as [-> ->].
Qed.

(** The task cannot be started at all. *)
Lemma start_dropped : request_inv true N C K Q W dp w.
Proof.
  destruct Hinv as [Hh Hs Hdp Htr Hcb Hlv]. split; try done.
  - by eapply heap_inv_weaken.
  - by apply (sched_drop M e N C K [k]).
  - by apply (trace_sub M N [k]).
  - by eapply cb_weaken.
  - by eapply live_weaken.
Qed.
End Start.

(** ** The callbacks of a finished task *)

Lemma TaskCallback_Call_eq dispatch w a d0 n0 r t :
  tasks_heap w !! a = Some t →
  TaskCallback_Call dispatch w a d0 n0 r =
  run_callbacks dispatch (extraCallbacks_ t ++ [(d0, n0)])
    (set_task w a (CallExtraCallback (SaveResult t (Some r))).2) a r.
Proof. intros Ht. unfold TaskCallback_Call. by rewrite Ht, run_callbacks_app. Qed.

Lemma current_result_saved w a t r :
  current_result (set_task w a (CallExtraCallback (SaveResult t (Some r))).2) a r = r.
Proof. unfold current_result, tasks_heap. cbn. by rewrite lookup_insert_eq. Qed.

Lemma alone_ignores fuel w dp :
  dispatchers w = {[d := dp]} → ignores (Dispatch js (S fuel)) d w.
Proof. intros E. apply Dispatch_ignores. intros d' Hne. by rewrite E, lookup_singleton_ne. Qed.

Lemma Dispatch_failed fuel w dp k r :
  dispatchers w = {[d := dp]} → resultCode_ r ≠ ERR_OK →
  Dispatch js (S fuel) w d k (Some r) = Some (OnError w dp k r).
Proof.
  intros E Hr. cbn. rewrite E, lookup_singleton_eq. unfold GetResultCode.
  by rewrite (proj2 (Z.eqb_neq _ _) Hr).
Qed.

(** A start that replies with a failure. *)
Lemma failed_reply fuel N C K Q W dp w k a t r :
  dispatchers w = {[d := dp]} → request_inv true N C K Q W dp w →
  tm !! k = Some (Some a) → tasks_heap w !! a = Some t → replies w !! a = None →
  (k ∉ N) → (k ∉ W) → resultCode_ r ≠ ERR_OK →
  ∃ w', TaskCallback_Call (Dispatch js (S fuel)) w a d k r = Some w' ∧
    dispatchers w' = {[d := dp]} ∧ request_inv true N C K Q W dp w'.
Proof.
  intros Hd Hinv Hk Ht Hrp HN HW Hr. rewrite (TaskCallback_Call_eq _ _ _ _ _ _ _ Ht).
  set (w1 := set_task _ _ _).
  destruct (heap_inv_task d tm M Hwf true N W _ _ k (ri_heap _ _ _ _ _ _ _ _ _ _ _ _ _ _ Hinv))
    as (a' & t' & t0 & _ & Hk' & _ & Ht' & _ & _ & Hi); [by eapply request_key|].
  assert (a' = a) as -> by congruence. assert (t' = t) as -> by congruence.
  pose proof (ti_own _ _ _ _ _ _ _ _ Hi) as Hown.
  rewrite Hrp, decide_False, app_nil_r in Hown by done.
  assert (dispatchers w1 = {[d := dp]}) as Hd1 by done.
  rewrite (run_callbacks_own _ d _ _ _ _ k).
  - unfold w1. rewrite current_result_saved. fold w1.
    rewrite (Dispatch_failed _ _ dp) by done. eexists. split; [done|].
    split; [by rewrite OnError_dispatchers|]. eapply OnError_inv; try done.
    destruct Hinv as [Hh Hs Hdp Htr Hcb Hlv]. split; try done.
    cbn. rewrite <-(delete_id (replies w) a Hrp).
    by eapply (save_result_inv d tm M Hwf Hdom).
  - unfold own in *. rewrite filter_app, Hown. cbn. by rewrite decide_True.
  - by apply (alone_ignores _ _ dp).
  - intros w'. unfold w1. rewrite current_result_saved. fold w1.
    rewrite (Dispatch_failed _ _ dp) by done. intros [= <-].
    apply (alone_ignores _ _ dp). by rewrite OnError_dispatchers.
Qed.

(** ** Running the tasks that are ready *)

Definition dispatch_spec (fuel : nat) : Prop :=
  ∀ e N C K Q W dp w k a t r,
    dispatchers w = {[d := dp]} → dispatch_inv e N C K k Q W dp w →
    tm !! k = Some (Some a) → tasks_heap w !! a = Some t → state_ t = INITIALIZED →
    resultCode_ r = ERR_OK → (size M - length N < fuel)%nat →
    ∃ w', Dispatch js fuel w d k (Some r) = Some w' ∧ advanced e N K Q w'.

Lemma RunOnMainThread_fails j called code msg :
  RunOnMainThread j = (called, Some (code, msg)) → code ≠ ERR_OK.
Proof.
  unfold RunOnMainThread, CallStartupInit, HandleReturnVal. intros H.
  repeat case_match; by simplify_eq.
Qed.

Lemma Js_RunTaskInit_inv fuel e N C K Q W dp w k a t :
  dispatchers w = {[d := dp]} → request_inv e N C K (k :: Q) W dp w →
  tm !! k = Some (Some a) → tasks_heap w !! a = Some t → name_ t = k → state_ t = CREATED →
  ∃ code w', Js_RunTaskInit js (Dispatch js (S fuel)) w a d k t = Some (code, w') ∧
    advanced e N K Q w' ∧ (js_ok → code = ERR_OK).
Proof.
  intros Hd Hinv Hk Ht Hname Hst. pose proof (ri_sched _ _ _ _ _ _ _ _ _ _ _ _ _ _ Hinv) as Hs.
  destruct (sched_head _ _ _ _ _ _ _ Hs) as (Hkd & Hm & HN & HQ & HW).
  pose proof (start_task_inv _ _ _ _ _ _ _ _ _ _ _ Hinv Hk Ht) as Hi.
  assert (replies w !! a = None) as Hrp.
  { destruct (replies w !! a) eqn:E; [|done].
    rewrite (ti_reply _ _ _ _ _ _ _ _ Hi) in Hst by done. done. }
  unfold Js_RunTaskInit. rewrite bool_decide_eq_true_2, Hname by done. cbn [negb].
  pose proof (start_running _ _ _ _ _ _ _ _ _ _ _ Hinv Hk Ht Hst) as Hrun.
  destruct (start_failed _ _ _ _ _ _ _ _ _ _ _ Hinv Hk Ht Hst) as [Hlost Hfail].
  set (w1 := set_task _ _ _) in *.
  assert (∀ code, code ≠ ERR_OK → ¬ js_ok → ∃ code' w', Some (code, w1) = Some (code', w') ∧
    advanced e N K Q w' ∧ (js_ok → code' = ERR_OK)) as Hpool.
  { intros code _ Hno. exists code, w1. split_and!; [done| |done].
    by exists true, N, C, W, dp. }
  assert (∃ code w', Some (ERR_OK, emit w1 [EvInit k] <| replies ::= <[a:=(d, k)]> |>) =
    Some (code, w') ∧ advanced e N K Q w' ∧ (js_ok → code = ERR_OK)) as Hstart.
  { eexists _, _. split_and!; [done| |done]. by exists e, N, C, (k :: W), dp. }
  destruct (callCreateOnMainThread_ t).
  - destruct (RunOnMainThread (js k)) as [called [[code msg]|]] eqn:Ejs.
    + pose proof (RunOnMainThread_fails _ _ _ _ Ejs) as Hcode.
      assert (¬ js_ok) as Hno by (intros H; destruct (H k Hkd); congruence).
      destruct (failed_reply fuel N C K Q W dp (if called then emit w1 [EvInit k] else w1) k a
        (with_run t (result_ t) INITIALIZING (extraCallbacks_ t)) (mkResult code msg))
        as (w' & -> & Hd' & Hinv'); try done; try (by destruct called).
      { unfold tasks_heap. destruct called; cbn; by rewrite lookup_insert_eq. }
      exists code, w'. split_and!; [done| |done]. by exists true, N, C, W, dp.
    + assert (called = true) as ->; [|done].
      revert Ejs. unfold RunOnMainThread. case_match; congruence.
  - destruct (excutorLoads (js k)) eqn:El; cbn [negb].
    + destruct (Z.eqb_spec (RunOnTaskPool (js k)) ERR_OK) as [->|Hp]; cbn [negb]; [done|].
      apply Hpool; [done|]. intros H. by destruct (H k Hkd) as (_ & _ & ?).
    + apply Hpool; [done|]. intros H. destruct (H k Hkd) as (_ & ? & _). congruence.
Qed.

Section Ready.
Context (fuel : nat) (IH : dispatch_spec fuel).

Lemma RunTaskInit_inv e N C K Q W dp w k a t :
  dispatchers w = {[d := dp]} → request_inv e N C K (k :: Q) W dp w →
  tm !! k = Some (Some a) → tasks_heap w !! a = Some t → name_ t = k →
  (size M - length N < fuel)%nat →
  ∃ code w', RunTaskInit js (Dispatch js fuel) w d k a t = Some (code, w') ∧
    advanced e N K Q w' ∧ (js_ok → code = ERR_OK).
Proof.
  intros Hd Hinv Hk Ht Hname Hfuel. pose proof (ri_sched _ _ _ _ _ _ _ _ _ _ _ _ _ _ Hinv) as Hs.
  destruct (sched_head _ _ _ _ _ _ _ Hs) as (Hkd & Hm & HN & HQ & HW).
  pose proof (start_task_inv _ _ _ _ _ _ _ _ _ _ _ Hinv Hk Ht) as Hi.
  unfold RunTaskInit, GetState. destruct (state_ t) eqn:Hst.
  - by destruct (ti_state _ _ _ _ _ _ _ _ Hi).
  - destruct fuel as [|fuel']; [lia|]. by eapply Js_RunTaskInit_inv.
  - eexists _, _. split; [unfold AddExtraCallback; rewrite Hst, bool_decide_eq_true_2 by done; done|].
    split; [|done]. exists e, N, C, (k :: W), dp. rewrite <-Hst. split_and!; try done.
    by eapply start_shared.
  - destruct (ti_result _ _ _ _ _ _ _ _ Hi Hst) as (r & Hr & Hok). unfold GetTaskResult. rewrite Hr.
    destruct (IH e N C K Q W dp w k a t r) as (w' & -> & Hadv); try done.
    { by apply request_dispatch_inv. }
    by eexists _, _.
Qed.

Lemma request_drop e N C K zs Q W dp w :
  request_inv e N C K (zs ++ Q) W dp w → request_inv true N C K Q W dp w.
Proof.
  intros [Hh Hs Hdp Htr Hcb Hlv]. split; try done.
  - by eapply heap_inv_weaken.
  - by eapply sched_drop.
  - by eapply trace_sub.
  - by eapply cb_weaken.
  - by eapply live_weaken.
Qed.

Lemma advanced_drop e N K zs Q w : advanced e N K (zs ++ Q) w → ¬ js_ok → advanced e N K Q w.
Proof.
  intros (e' & N' & C' & W' & dp' & Hd & Hinv & Hsub & _) Hno.
  exists true, N', C', W', dp'. split_and!; try done. by eapply request_drop.
Qed.

Lemma advanced_trans e e' N N' K Q w : (js_ok → e' = e) → N ⊆ N' → advanced e' N' K Q w → advanced e N K Q w.
Proof.
  intros He Hsub (e2 & N2 & C2 & W2 & dp2 & Hd & Hinv & Hsub2 & He2).
  exists e2, N2, C2, W2, dp2. split_and!; try done; [by etransitivity|].
  intros H. rewrite He2 by done. auto.
Qed.

(** One task of a loop: the rest of the loop starts from what it leaves. *)
Lemma run_zero_inv zs e N C K Q W dp w :
  dispatchers w = {[d := dp]} → request_inv e N C K (zs ++ Q) W dp w →
  (size M - length N < fuel)%nat →
  ∃ code w', run_zero js (Dispatch js fuel) (addr tm <$> zs) w d = Some (code, w') ∧
    advanced e N K Q w' ∧ (js_ok → code = ERR_OK).
Proof.
  revert e N C W dp w. induction zs as [|k zs IHz]; intros e N C W dp w Hd Hinv Hf; csimpl.
  { exists ERR_OK, w. split_and!; [done| |done]. by exists e, N, C, W, dp. }
  destruct (heap_inv_task d tm M Hwf e N W _ _ k (ri_heap _ _ _ _ _ _ _ _ _ _ _ _ _ _ Hinv))
    as (a & t & t0 & _ & Hk & Ha & Ht & _ & Hn & _).
  { eapply sched_head, Hinv. }
  rewrite Ha, Ht. unfold GetName. rewrite Hn.
  destruct (RunTaskInit_inv e N C K (zs ++ Q) W dp w k a t) as (code & w' & -> & Hadv & Hcode);
    try done.
  destruct (Z.eqb_spec code ERR_OK) as [->|Hne]; cbn [negb].
  - destruct Hadv as (e' & N' & C' & W' & dp' & Hd' & Hinv' & Hsub & He).
    destruct (IHz e' N' C' W' dp' w' Hd' Hinv') as (code & w2 & -> & Hadv2 & Hcode2).
    { pose proof (notified_grows _ _ _ _ _ _ _ _ _ _ _ _ (ri_sched _ _ _ _ _ _ _ _ _ _ _ _ _ _ Hinv)
        (ri_sched _ _ _ _ _ _ _ _ _ _ _ _ _ _ Hinv') Hsub). lia. }
    exists code, w2. split_and!; try done. by eapply advanced_trans.
  - exists code, w'. split_and!; try done. eapply advanced_drop; [done|]. intros ?. by apply Hne, Hcode.
Qed.

(** The children of a finished task. *)
Lemma NotifyChildren_inv e N C K Q W dp w k a t :
  dispatchers w = {[d := dp]} → dispatch_inv e N C K k Q W dp w →
  tm !! k = Some (Some a) → tasks_heap w !! a = Some t → state_ t = INITIALIZED →
  (size M - length N < S fuel)%nat →
  ∃ code w', NotifyChildren js (Dispatch js fuel) w d dp k = Some (code, w') ∧
    advanced e (N ++ [k]) (k :: K) Q w' ∧ (js_ok → code = ERR_OK).
Proof.
  intros Hd Hinv Hk Ht Hst Hf. pose proof Hinv as [Hh Hs Hdp Htr Hcb Hlv].
  destruct (sched_head _ _ _ _ _ _ _ Hs) as (Hkd & Hm & HN & HQ & HW).
  destruct (Hchildren k Hkd) as (cs & Hcs & Hocc).
  unfold NotifyChildren. rewrite (di_sort _ _ _ _ _ _ _ _ Hdp), Hcs.
  destruct (release_missing M Hwf N (inDegreeMap_ dp) k [] cs HN (di_degree _ _ _ _ _ _ _ _ Hdp) Hocc)
    as (new & Hnew & Hnd & Hin & Hdeg). cbn [app] in Hnew.
  rewrite (di_tasks _ _ _ _ _ _ _ _ Hdp).
  pose proof (notify_loop_release js tm (tasks_heap w) cs k (inDegreeMap_ dp) [] []) as Hloop.
  cbn [fmap list_fmap] in Hloop. rewrite Hloop, <-Hlisten.
  - rewrite Hnew. cbn [app]. set (dp1 := dp <| inDegreeMap_ := _ |>).
    apply (run_zero_inv new e (N ++ [k]) C (k :: K) Q W dp1).
    + cbn. rewrite Hd. apply insert_singleton_eq.
    + split.
      * eapply (heap_inv_notify d tm M Hwf Hdom); try done.
        intros a0 t0 Hk0 Ht0. rewrite Hk in Hk0. injection Hk0 as <-.
        change (tasks_heap w !! a = Some t0) in Ht0. congruence.
      * by apply sched_notify.
      * by apply disp_notify.
      * cbn. apply trace_notify; try done. by intros c (_ & ? & _)%Hin.
      * by apply cb_notify.
      * exact Hlv.
    + rewrite length_app. simpl. pose proof (notified_bound _ _ _ _ _ _ Hs) as Hb. simpl in Hb. lia.
  - intros c Hc.
    assert (c ∈ dom M) as Hcd.
    { apply occ_pos in Hc. rewrite Hocc in Hc. case_decide; [done|lia]. }
    split; [rewrite (di_degree _ _ _ _ _ _ _ _ Hdp) by done; eauto|].
    destruct (heap_inv_task d tm M Hwf e N W _ _ c Hh Hcd) as (a' & t' & _ & _ & ? & _ & ? & _ & ? & _).
    eauto.
Qed.
End Ready.

Lemma dispatch_touch e N C K k Q W dp w :
  dispatch_inv e N C K k Q W dp w → dispatch_inv e N C K k Q W dp (touch_tasks w d).
Proof.
  intros [Hh Hs Hdp Htr Hcb Hlv]. destruct (touch_same d w) as [(E1 & _ & E3 & E4 & E5) E6].
  split; rewrite ?E1, ?E3, ?E4, ?E5, ?E6; try done.
  rewrite <-E6. eapply live_touch; [done|by left].
Qed.

Lemma request_touch e N C k K Q W dp w :
  request_inv e N C (k :: K) Q W dp w → request_inv e N C (k :: K) Q W dp (touch_tasks w d).
Proof.
  intros [Hh Hs Hdp Htr Hcb Hlv]. destruct (touch_same d w) as [(E1 & _ & E3 & E4 & E5) E6].
  split; rewrite ?E1, ?E3, ?E4, ?E5, ?E6; try done.
  rewrite <-E6. eapply live_touch; [done|by right].
Qed.

(** [Dispatch] on a successful result: the children are notified, those that
    became ready are started, nested results included, and the task is counted. *)
Lemma Dispatch_inv fuel : dispatch_spec fuel.
Proof.
  induction fuel as [|fuel IH]; intros e N C K Q W dp w k a t r Hd Hinv Hk Ht Hst Hr Hf; [lia|].
  destruct (touch_same d w) as [(E1 & E2 & _ & _ & _) _].
  apply dispatch_touch in Hinv. rewrite <-E1 in Ht. cbn [Dispatch].
  rewrite Hd, lookup_singleton_eq. unfold GetResultCode. rewrite (proj2 (Z.eqb_eq _ _) Hr). cbn [negb].
  rewrite <-E2 in Hd. set (w0 := touch_tasks w d) in *.
  clearbody w0. clear E1 E2 w.
  destruct (NotifyChildren_inv fuel IH e N C K Q W dp w0 k a t) as (code & w1 & En & Hadv & Hcode);
    try done.
  pose proof Hinv as [Hh Hs Hdp Htr Hcb Hlv].
  rewrite (di_tasks _ _ _ _ _ _ _ _ Hdp), Hk. cbn [mbind option_bind task_at].
  rewrite Ht, En.
  destruct Hadv as (e' & N' & C' & W' & dp' & Hd' & Hinv' & Hsub & He).
  assert (N ⊆ N') as HN by (intros x Hx; apply Hsub, elem_of_app; by left).
  destruct (Z.eqb_spec code ERR_OK) as [_|Hne]; cbn [negb].
  - assert (GetWaitOnMainThread t = awaited M k) as ->.
    { destruct (heap_inv_task d tm M Hwf e N W _ _ k Hh) as
        (a' & t' & t0 & Ht0 & Hk' & _ & Ht' & Hstat & _ & _); [by eapply request_key|].
      simplify_eq. unfold awaited, GetWaitOnMainThread. rewrite Ht0. apply Hstat. }
    apply request_touch in Hinv'. rewrite <-(proj1 (proj2 (proj1 (touch_same d w1)))) in Hd'.
    destruct (count_down_inv d cc awp tm M res Hwf e' N' C' K Q W' dp' _ k r Hd' Hinv' Hr)
      as (dp2 & Hd2 & Hinv2).
    eexists. split; [done|]. by exists e', N', (C' ++ [k]), W', dp2.
  - eexists. split; [done|]. exists true, N', C', W', dp'. split_and!; try done.
    + destruct Hinv' as [Hh' Hs' Hdp' Htr' Hcb']. split; try done.
      * by eapply heap_inv_weaken.
      * by eapply sched_uncounted.
      * by eapply cb_weaken.
      * by eapply live_weaken.
    + intros H. by destruct (Hne (Hcode H)).
Qed.

(** ** Results that arrive *)

(** A task of the request is saved: the callback is ours if we wait for it. *)
Lemma own_reply_cases e N C W dp w k a t d0 n0 r :
  request_inv e N C [] [] W dp w → replies w !! a = Some (d0, n0) →
  tm !! k = Some (Some a) → tasks_heap w !! a = Some t →
  let w1 := set_task (w <| replies ::= delete a |>) a
              (CallExtraCallback (SaveResult t (Some r))).2 in
  let cbs := extraCallbacks_ t ++ [(d0, n0)] in
  (own d cbs = [] ∧ request_inv e N C [] [] W dp w1) ∨
  ∃ k t1 W', own d cbs = [(d, k)] ∧ tm !! k = Some (Some a) ∧ tasks_heap w1 !! a = Some t1 ∧
    (resultCode_ r = ERR_OK → state_ t1 = INITIALIZED) ∧ current_result w1 a r = r ∧ k ∈ W ∧
    dispatch_inv e N C [] k [] W' dp w1.
Proof.
  intros Hinv Hrp Hk Ht w1 cbs. pose proof Hinv as [Hh Hs Hdp Htr Hcb Hlv].
  destruct (heap_inv_task d tm M Hwf e N W _ _ k Hh) as
    (a' & t' & t0 & _ & Hk' & _ & Ht' & _ & _ & Hi); [by eapply request_key|].
  assert (a' = a) as -> by congruence. assert (t' = t) as -> by congruence.
  pose proof (ti_own _ _ _ _ _ _ _ _ Hi) as Hown. rewrite Hrp in Hown. cbn in Hown. fold cbs in Hown.
  assert (k ∉ N) as HN.
  { intros Hin. pose proof (ti_done _ _ _ _ _ _ _ _ Hi Hin).
    assert (is_Some (replies w !! a)) as Hsome by (by rewrite Hrp).
    pose proof (ti_reply _ _ _ _ _ _ _ _ Hi Hsome). congruence. }
  destruct (decide (k ∈ W)) as [HW|HW].
  - right. destruct (sched_complete M e N C [] [] W k HW Hs) as (W' & Hp & Hs').
    destruct (sched_head _ _ _ _ _ _ _ Hs') as (_ & _ & _ & _ & HW').
    eexists k, _, W'. split_and!; [done|done| | | |done|].
    + unfold tasks_heap. cbn. by rewrite lookup_insert_eq.
    + intros Hok. cbn. unfold GetResultCode. by rewrite Hok.
    + apply current_result_saved.
    + split; try done. eapply (save_result_inv d tm M Hwf Hdom e N W); try done.
      intros k' Hne. rewrite Hp, elem_of_cons. intuition.
  - left. split; [done|]. split; try done.
    eapply (save_result_inv d tm M Hwf Hdom e N W); try done.
Qed.

(** The task of the result is saved first; then at most one callback is ours. *)
Lemma Complete_saves e N C W dp w a d0 n0 r :
  request_inv e N C [] [] W dp w → replies w !! a = Some (d0, n0) →
  let w0 := w <| replies ::= delete a |> in
  ∃ cbs w1,
    (∀ dispatch, TaskCallback_Call dispatch w0 a d0 n0 r = run_callbacks dispatch cbs w1 a r) ∧
    dispatchers w1 = dispatchers w ∧ dangling w1 = dangling w ∧
    ((own d cbs = [] ∧ request_inv e N C [] [] W dp w1) ∨
     ∃ k t1 W', own d cbs = [(d, k)] ∧ tm !! k = Some (Some a) ∧ tasks_heap w1 !! a = Some t1 ∧
       (resultCode_ r = ERR_OK → state_ t1 = INITIALIZED) ∧ current_result w1 a r = r ∧ k ∈ W ∧
       dispatch_inv e N C [] k [] W' dp w1).
Proof.
  intros Hinv Hrp w0. pose proof Hinv as [Hh Hs Hdp Htr Hcb Hlv].
  assert ((∀ k, tm !! k ≠ Some (Some a)) →
    own d (default [] (extraCallbacks_ <$> tasks_heap w !! a) ++ [(d0, n0)]) = []) as Hforeign.
  { intros Hno. pose proof (hi_other _ _ _ _ _ _ _ _ Hh a Hno) as H. by rewrite Hrp in H. }
  destruct (tasks_heap w !! a) as [t|] eqn:Ht.
  - exists (extraCallbacks_ t ++ [(d0, n0)]),
      (set_task w0 a (CallExtraCallback (SaveResult t (Some r))).2).
    split; [intros dispatch; by apply TaskCallback_Call_eq|]. split_and!; [done|done|].
    destruct (decide (tm !! name_ t = Some (Some a))) as [Hk|Hno].
    + eapply own_reply_cases; done.
    + left. assert (∀ k, tm !! k ≠ Some (Some a)) as Hno'.
      { intros k Hk. destruct (heap_inv_task d tm M Hwf e N W _ _ k Hh) as
          (a' & t' & _ & _ & Hk' & _ & Ht' & _ & Hn & _); [by eapply request_key|].
        congruence. }
      split; [by apply Hforeign|]. split; try done.
      eapply (heap_inv_foreign d tm M); try done.
      * intros a' Hne. cbn. by rewrite lookup_delete_ne.
      * cbn. by rewrite lookup_delete_eq.
  - assert (∀ k, tm !! k ≠ Some (Some a)) as Hno'.
    { intros k Hk. destruct (heap_inv_task d tm M Hwf e N W _ _ k Hh) as
        (a' & t' & _ & _ & Hk' & _ & Ht' & _); [by eapply request_key|]. congruence. }
    exists [(d0, n0)], w0. split; [intros dispatch; unfold TaskCallback_Call|].
    { change (tasks_heap w0) with (tasks_heap w). by rewrite Ht. }
    split_and!; [done|done|]. left. split; [by apply Hforeign|]. split; try done.
    by apply (heap_inv_foreign_reply d tm M).
Qed.

Lemma size_request : size tm = size M.
Proof. by rewrite <-!size_dom, Hdom. Qed.

Lemma dispatch_fuel_alone w dp :
  dispatchers w = {[d := dp]} → taskMap_ dp = tm → dispatch_fuel w = S (size M).
Proof.
  intros Hd Htm. unfold dispatch_fuel. rewrite Hd, map_fold_singleton, Htm, size_request. lia.
Qed.

(** ** The end of a call *)

Lemma release_alone w dp :
  dispatchers w = {[d := dp]} →
  dispatchers (release_dead w) = if id_alive w d then {[d := dp]} else ∅.
Proof.
  intros Hd. unfold release_dead. cbn. rewrite Hd, map_filter_singleton. cbn.
  destruct (id_alive w d); [by rewrite decide_True|by rewrite decide_False].
Qed.

Lemma request_released e N C K Q W dp w :
  request_inv e N C K Q W dp w → request_inv e N C K Q W dp (release_dead w).
Proof. by intros []. Qed.

(** Between two calls: the dispatcher is there, or it went with its manager; without an
    error that happens only when all tasks are counted. *)
Definition resting (e : bool) (C : list string) (dp : StartupTaskDispatcher) (w : World) : Prop :=
  (dispatchers w = {[d := dp]} ∨ dispatchers w = ∅) ∧
  (e = false → dispatchers w = ∅ → length C = size M).

Lemma released_resting e N C K Q W dp w :
  dispatchers w = {[d := dp]} → request_inv e N C K Q W dp w → resting e C dp (release_dead w).
Proof.
  intros Hd Hinv. unfold resting. rewrite (release_alone w dp Hd). destruct (id_alive w d) eqn:Ha.
  - split; [by left|]. intros _ Hn. by apply map_non_empty_singleton in Hn.
  - split; [by right|]. intros He _.
    destruct Hinv as [_ _ _ _ _ [_ _ _ _ Hal]]. destruct (Hal He) as [?|E]; [done|].
    apply managed_alive in E. congruence.
Qed.

(** A manager with a configuration that nobody holds is dropped when its request ends. *)
Definition dropped_at_end : Prop :=
  is_Some (config_ requester) ∧ startupTaskManagerId_ requester = d ∧ holder = None.

Lemma CallListener_gone s mgr cfg code msg :
  config_ mgr = Some cfg →
  startupTaskManagerId_ mgr ∉ dom (startupTaskManagerMap_ (CallListenerOnCompleted s mgr code msg)).
Proof.
  intros Hcfg. unfold CallListenerOnCompleted, OnStartupTaskManagerComplete. rewrite Hcfg.
  cbn. case_match; cbn; [set_solver|]. by apply not_elem_of_dom.
Qed.

Lemma OnError_drops N C K k Q W dp w r :
  dispatch_inv false N C K k Q W dp w → dropped_at_end → id_alive (OnError w dp k r) d = false.
Proof.
  intros [Hh Hs Hdp Htr Hcb Hlv] ([cfg Hcfg] & Hid & Hho).
  destruct (sched_head _ _ _ _ _ _ _ Hs) as (Hkd & _ & HN & _ & _).
  pose proof (live_touch d cc awp M false N C K k Q W w Hlv (or_introl Hs)) as Hlt.
  destruct Hcb as [(cb & owner & Hcc & Hf & _ & _ & He) _ _].
  destruct Hlv as [[cb' Ho] _ Hheld _ Hal]. rewrite Hcc in Ho. injection Ho as <- ->.
  assert (length C ≠ size M) as Hlen.
  { intros Hlen. apply HN. eapply (counted_all M false); [|exact Hlen|exact Hkd]. exact Hs. }
  rewrite bool_decide_eq_false_2 in He by done. destruct (Hal eq_refl) as [?|Ha%managed_alive]; [done|].
  unfold id_alive in Ha.
  unfold OnError. cbv zeta. rewrite (di_completed _ _ _ _ _ _ _ _ Hdp).
  set (r' := SetResultMessage _ _). set (w1 := share_result _ _ _ _ _).
  assert (callbacks w1 = callbacks w ∧ held_ w1 = held_ w ∧
    startupTaskManagerMap_ (startup w1) = startupTaskManagerMap_ (startup w)) as (E1 & E2 & E3).
  { unfold w1, share_result. by repeat case_match. }
  assert (id_alive (Callback_Call w1 (Some cc) r') d = false) as Hcall.
  { unfold Callback_Call. cbn [mbind option_bind]. rewrite E1, Hcc. cbn [fmap option_fmap option_map].
    assert (manager_alive w1 requester = true) as Hma by (by unfold manager_alive, id_alive; rewrite Hid, E2, E3).
    rewrite (He eq_refl), Hf. cbn [negb andb]. unfold OnRequestCompleted. rewrite Hma. cbn [negb].
    unfold id_alive. cbn -[CallListenerOnCompleted]. rewrite E2, Hheld, Hho. unfold map_alive.
    rewrite bool_decide_eq_false_2; [done|]. rewrite <-Hid. by eapply CallListener_gone. }
  unfold PostMainThreadTask. by destruct (hasMainHandler_ _).
Qed.

Lemma OnError_dangling w dp k r : dangling (OnError w dp k r) = dangling w.
Proof.
  unfold OnError. cbv zeta. set (r' := SetResultMessage _ _). set (w1 := share_result _ _ _ _ _).
  transitivity (dangling (Callback_Call w1 (completedCallback_ dp) r')).
  { unfold PostMainThreadTask. by destruct (hasMainHandler_ _). }
  rewrite (proj2 (Callback_Call_life w1 _ r')). unfold w1, share_result. by repeat case_match.
Qed.

(** A reply reaches the live dispatcher. *)
Lemma Complete_alive e N C W dp w a r :
  dispatchers w = {[d := dp]} → request_inv e N C [] [] W dp w →
  ∃ w', Complete js w a r = Some w' ∧
    ∃ e' N' C' W' dp', request_inv e' N' C' [] [] W' dp' w' ∧ resting e' C' dp' w' ∧
      (js_ok → resultCode_ r = ERR_OK → e' = e) ∧
      (js_ok → dropped_at_end → e = false → e' = true → dispatchers w' = ∅ ∧ dangling w' = dangling w).
Proof.
  intros Hd Hinv. unfold Complete. destruct (replies w !! a) as [[d0 n0]|] eqn:Hrp.
  2: { exists w. split; [done|]. exists e, N, C, W, dp. split; [done|]. split; [|split; [done|congruence]].
       split; [by left|]. intros _ Hn. rewrite Hd in Hn. by apply map_non_empty_singleton in Hn. }
  destruct (Complete_saves e N C W dp w a d0 n0 r Hinv Hrp) as (cbs & w1 & -> & Hd1 & Hdg & Hcases).
  rewrite Hd in Hd1.
  rewrite (dispatch_fuel_alone _ dp); [|done|by apply (ri_disp _ _ _ _ _ _ _ _ _ _ _ _ _ _ Hinv)].
  destruct Hcases as [[Hown Hinv1]|(k & t1 & W' & Hown & Hk & Ht1 & Hst & Hcur & _ & Hinv1)].
  { rewrite (run_callbacks_foreign _ d); [|done|by apply (alone_ignores _ _ dp)].
    exists (release_dead w1). split; [done|]. exists e, N, C, W, dp.
    split; [by apply request_released|]. split; [by eapply released_resting|]. split; [done|congruence]. }
  destruct (decide (resultCode_ r = ERR_OK)) as [Hok|Hbad].
  - destruct (Dispatch_inv (S (size M)) e N C [] [] W' dp w1 k a t1 r) as (w' & E & Hadv); auto;
      [lia|].
    pose proof Hadv as (e' & N' & C' & W2 & dp' & Hd' & Hinv' & Hsub & He).
    exists (release_dead w'). rewrite (run_callbacks_own _ d _ _ _ _ k Hown), Hcur, E.
    + split; [done|]. exists e', N', C', W2, dp'.
      split; [by apply request_released|]. split; [by eapply released_resting|]. split; [auto|].
      intros Hjs _ -> ->. by specialize (He Hjs).
    + by apply (alone_ignores _ _ dp).
    + rewrite Hcur, E. intros ? [= <-]. by apply (alone_ignores _ _ dp').
  - pose proof (Dispatch_failed (size M) w1 dp k r Hd1 Hbad) as E.
    exists (release_dead (OnError w1 dp k r)). rewrite (run_callbacks_own _ d _ _ _ _ k Hown), Hcur, E.
    + assert (request_inv true N C [] [] W' dp (OnError w1 dp k r)) as Hinv2.
      { eapply OnError_inv; try done. by eapply dispatch_inv_drop. }
      assert (dispatchers (OnError w1 dp k r) = {[d := dp]}) as Hd2 by by rewrite OnError_dispatchers.
      split; [done|]. exists true, N, C, W', dp.
      split; [by apply request_released|]. split; [by eapply released_resting|]. split; [done|].
      intros _ Hdrop -> _. rewrite (release_alone _ dp), (OnError_drops N C [] k [] W') by done.
      split; [done|]. rewrite <-Hdg. apply OnError_dangling.
    + by apply (alone_ignores _ _ dp).
    + rewrite Hcur, E. intros ? [= <-]. apply (alone_ignores _ _ dp).
      by rewrite OnError_dispatchers.
Qed.

(** A reply after the dispatcher was released. *)
Lemma Complete_released e N C W dp w a r :
  dispatchers w = ∅ → request_inv e N C [] [] W dp w →
  ∃ w', Complete js w a r = Some w' ∧
    ∃ e' W', dispatchers w' = ∅ ∧ request_inv e' N C [] [] W' dp w' ∧ (W = [] → e' = e ∧ W' = []) ∧
      dangling w' = dangling w.
Proof.
  intros Hd Hinv. unfold Complete. destruct (replies w !! a) as [[d0 n0]|] eqn:Hrp.
  2: { exists w. split; [done|]. exists e, W. by split_and!. }
  destruct (Complete_saves e N C W dp w a d0 n0 r Hinv Hrp) as (cbs & w1 & -> & Hd1 & Hdg & Hcases).
  rewrite Hd in Hd1.
  assert (run_callbacks (Dispatch js (dispatch_fuel (w <| replies ::= delete a |>))) cbs w1 a r
    = Some w1) as ->.
  { clear Hcases. unfold dispatch_fuel. induction cbs as [|[d' n'] cbs IHc]; [done|].
    cbn [run_callbacks Dispatch]. by rewrite Hd1, lookup_empty. }
  exists (release_dead w1). split; [done|].
  assert (dispatchers (release_dead w1) = ∅) as Hd2 by (unfold release_dead; cbn; by rewrite Hd1).
  destruct Hcases as [[Hown Hinv1]|(k & t1 & W' & _ & _ & _ & _ & _ & HW & Hinv1)].
  - exists e, W. split_and!; try done. by apply request_released.
  - apply dispatch_inv_drop in Hinv1. exists true, W'. split_and!; try done; [by apply request_released|].
    intros ->. by apply not_elem_of_nil in HW.
Qed.

(** ** Other steps of the environment *)

(** After an error the invariant reads the scheduling state, the callbacks and the holder. *)
Lemma request_failed e N C K Q W dp w w' :
  same_schedule w w' → callbacks w' = callbacks w → held_ w' = held_ w →
  request_inv e N C K Q W dp w → request_inv true N C K Q W dp w'.
Proof.
  intros (E1 & _ & E3 & E4 & E5) E6 E7 Hinv. apply (request_drop e N C K []) in Hinv.
  destruct Hinv as [Hh Hs Hdp Htr Hcb Hlv].
  split; rewrite ?E1, ?E3, ?E4, ?E5, ?E6, ?E7; try done. by eapply live_weaken.
Qed.

Lemma OnTimeout_managers s mgr :
  startupTaskManagerMap_ (OnTimeout s mgr) = delete (startupTaskManagerId_ mgr) (startupTaskManagerMap_ s).
Proof.
  assert (∀ s id, startupTaskManagerMap_ (OnStartupTaskManagerComplete s id).2 =
    delete id (startupTaskManagerMap_ s)) as Hc.
  { intros s0 id. unfold OnStartupTaskManagerComplete. case_match eqn:E; [done|]. by rewrite delete_id. }
  unfold OnTimeout. rewrite Hc. unfold CallListenerOnCompleted. destruct (config_ mgr); [|done].
  rewrite Hc. apply delete_delete_eq.
Qed.

(** The timeout of the request ends it; that of another leaves it. *)
Definition timeout_of_other (w : World) (id : Z) : Prop :=
  ∀ mgr ms, timers w !! id = Some (mgr, ms) → startupTaskManagerId_ mgr ≠ d.

Lemma TimerExpires_rest w id :
  tasks_heap (TimerExpires w id) = tasks_heap w ∧ dangling (TimerExpires w id) = dangling w.
Proof.
  unfold TimerExpires. destruct (timers w !! id) as [[mgr ms]|]; [|done].
  destruct (manager_alive w mgr); [|done]. split; [|done]. unfold tasks_heap. cbn. apply OnTimeout_heap.
Qed.

Lemma TimerExpires_inv e N C W dp w id :
  holder = None → request_inv e N C [] [] W dp w → resting e C dp w →
  ∃ e', request_inv e' N C [] [] W dp (TimerExpires w id) ∧ resting e' C dp (TimerExpires w id) ∧
    (timeout_of_other w id → e' = e) ∧
    (e = true → dispatchers w = ∅ → dispatchers (TimerExpires w id) = ∅) ∧
    (e = false → e' = true → dispatchers (TimerExpires w id) = ∅).
Proof.
  intros Hho Hinv Hrest. unfold TimerExpires, timeout_of_other.
  destruct (timers w !! id) as [[mgr ms]|].
  2: { exists e. split; [done|]. split; [done|]. split_and!; [done..|congruence]. }
  destruct (manager_alive w mgr).
  2: { exists e. split; [by destruct Hinv|]. split; [done|]. split_and!; [done..|congruence]. }
  set (w1 := w <| timers ::= _ |> <| startup ::= _ |>).
  assert (startupTaskManagerMap_ (startup w1) =
    delete (startupTaskManagerId_ mgr) (startupTaskManagerMap_ (startup w))) as Em by apply OnTimeout_managers.
  assert (tasks_heap w1 = tasks_heap w) as Eh by (unfold tasks_heap; cbn; apply OnTimeout_heap).
  destruct Hrest as [Hd Hend].
  assert (dispatchers w = ∅ → dispatchers (release_dead w1) = ∅) as Hnone.
  { intros E. unfold release_dead. cbn. by rewrite E. }
  destruct (decide (startupTaskManagerId_ mgr = d)) as [Hid|Hid].
  - assert (dispatchers (release_dead w1) = ∅) as Hgone.
    { destruct Hd as [Hd|Hd]; [|auto]. rewrite (release_alone w1 dp Hd).
      assert (id_alive w1 d = false) as ->; [|done]. unfold id_alive. rewrite Em, Hid.
      change (held_ w1) with (held_ w). rewrite (lv_held _ _ _ _ _ _ _ _ _ _ (ri_live _ _ _ _ _ _ _ _ _ _ _ _ _ _ Hinv)), Hho.
      unfold map_alive. rewrite bool_decide_eq_false_2; [done|]. set_solver. }
    exists true. split; [|split; [by split; [right|]|by split_and!; [intros H; destruct (H mgr ms eq_refl)|..]]].
    apply request_released. by apply (request_failed e N C [] [] W dp w w1).
  - assert (request_inv e N C [] [] W dp w1) as Hinv1.
    { destruct Hinv as [Hh Hs Hdp Htr Hcb [H1 H2 H3 H4 H5]]. split; rewrite ?Eh; try done.
      split; try done. intros He. destruct (H5 He) as [?|?]; [by left|right].
      rewrite Em. set_solver. }
    exists e. split; [by apply request_released|]. split; [|split_and!; [done|auto|congruence]].
    destruct Hd as [Hd|Hd]; [by eapply released_resting|]. split; [right; auto|]. intros He _. auto.
Qed.

Lemma RunPosted_inv e N C W dp w :
  request_inv e N C [] [] W dp w → request_inv e N C [] [] W dp (RunPosted w) ∧
  dispatchers (RunPosted w) = dispatchers w.
Proof.
  intros [Hh Hs Hdp Htr Hcb Hlv]. unfold RunPosted. destruct (posted w) as [|[p r] rest] eqn:Hp;
    [split; [split; rewrite ?Hp|]; done|].
  pose proof (Callback_Call_same (w <| posted := rest |>) p r) as (E1 & E2 & E3 & E4 & E5).
  split; [|by rewrite E2].
  destruct Hcb as [(cb & owner & Hcc & H) Haw [Hall He]]. apply Forall_cons in Hall as [Hpa Hrest].
  cbn in Hpa. subst p. split; rewrite ?E1, ?E3, ?E4, ?E5; try done; [|by apply (live_await_call d cc awp M e C (w <| posted := rest |>))].
  split; cbn.
  - exists cb, owner. rewrite Callback_Call_callbacks, decide_False; [done|].
    intros E. by destruct (Haw cc E) as [? _].
  - intros c Hc. destruct (Haw c Hc) as (Hne & cb' & owner' & Hcb' & Hf & _). split; [done|].
    exists (OnCompletedCallback_Call cb' r), owner'.
    rewrite Callback_Call_callbacks, decide_True by done. cbn. rewrite Hcb'. split_and!; [done| |].
    + by rewrite OnCompletedCallback_Call_fires.
    + intros Hf'. by specialize (He Hf').
  - split; [done|]. intros Hf'. by specialize (He Hf').
Qed.

(** ** The start of a run *)

Lemma run_first_inv fuel ks e N C W dp w :
  dispatchers w = {[d := dp]} → request_inv e N C [] ks W dp w →
  (size M - length N < fuel)%nat →
  ∃ code w', run_first js fuel ks tm w d = Some (code, w') ∧
    advanced e N [] [] w' ∧ (js_ok → code = ERR_OK).
Proof.
  revert e N C W dp w. induction ks as [|k ks IHk]; intros e N C W dp w Hd Hinv Hf; cbn [run_first].
  { exists ERR_OK, w. split_and!; [done| |done]. by exists e, N, C, W, dp. }
  destruct (heap_inv_task d tm M Hwf e N W _ _ k (ri_heap _ _ _ _ _ _ _ _ _ _ _ _ _ _ Hinv))
    as (a & t & t0 & _ & Hk & Ha & Ht & _ & Hn & _); [eapply sched_head, Hinv|].
  rewrite Hk. cbn. rewrite Ht. cbn.
  destruct (RunTaskInit_inv fuel (Dispatch_inv fuel) e N C [] ks W dp w k a t)
    as (code & w' & -> & Hadv & Hcode); try done.
  destruct (Z.eqb_spec code ERR_OK) as [->|Hne]; cbn [negb].
  - destruct Hadv as (e' & N' & C' & W' & dp' & Hd' & Hinv' & Hsub & He).
    destruct (IHk e' N' C' W' dp' w' Hd' Hinv') as (code & w2 & -> & Hadv2 & Hcode2).
    { pose proof (notified_grows _ _ _ _ _ _ _ _ _ _ _ _ (ri_sched _ _ _ _ _ _ _ _ _ _ _ _ _ _ Hinv)
        (ri_sched _ _ _ _ _ _ _ _ _ _ _ _ _ _ Hinv') Hsub). lia. }
    exists code, w2. split_and!; try done. by eapply advanced_trans.
  - exists code, w'. split_and!; try done. eapply (advanced_drop _ _ _ ks); [by rewrite app_nil_r|].
    intros ?. by apply Hne, Hcode.
Qed.

(** The loop over the map of tasks. *)
Lemma run_init_spec h entries deg awaits :
  (∀ k p, (k, p) ∈ entries → ∃ a t t0, p = Some a ∧ h !! a = Some t ∧
     M !! k = Some (Some t0) ∧ static t0 t) →
  NoDup entries.*1 → (∀ k, k ∈ entries.*1 → deg !! k = None) →
  0 ≤ awaits → awaits + Z.of_nat (length entries) < UINT32_MOD →
  ∃ deg', run_init h entries deg awaits = (true, deg', awaits + awaited_in M entries.*1) ∧
    ∀ k, deg' !! k = if decide (k ∈ entries.*1) then Some (Z.of_nat (length (deps_of M k)))
                     else deg !! k.
Proof.
  revert deg awaits. induction entries as [|[k p] entries IHe]; intros deg awaits Hent Hnd Hdeg Ha Hb.
  { exists deg. cbn. unfold awaited_in. cbn. rewrite Z.add_0_r. done. }
  destruct (Hent k p) as (a & t & t0 & -> & Ht & Ht0 & Hst); [left|].
  csimpl in *. apply NoDup_cons in Hnd as [Hk Hnd]. rewrite Ht, (Hdeg k) by left.
  assert (getDependenciesCount t = Z.of_nat (length (deps_of M k))) as ->.
  { unfold getDependenciesCount, deps_of. rewrite Ht0. destruct Hst as (_ & -> & _).
    apply u32_small. destruct (proj1 Hwf k _ Ht0) as (? & [= <-] & _ & ?). lia. }
  assert (GetWaitOnMainThread t = awaited M k) as ->.
  { unfold awaited, GetWaitOnMainThread. rewrite Ht0. apply Hst. }
  assert ((if awaited M k then u32 (awaits + 1) else awaits) =
    awaits + if awaited M k then 1 else 0) as ->.
  { destruct (awaited M k); [apply u32_small|]; lia. }
  destruct (IHe (<[k := Z.of_nat (length (deps_of M k))]> deg)
    (awaits + if awaited M k then 1 else 0)) as (deg' & -> & Hdeg').
  - intros k' p' Hin. apply Hent. by right.
  - done.
  - intros k' Hk'. rewrite lookup_insert_ne by (intros ->; done). apply Hdeg. by right.
  - case_match; lia.
  - case_match; lia.
  - exists deg'. split.
    + f_equal. unfold awaited_in. rewrite filter_cons.
      destruct (awaited M k); [rewrite decide_True by done|rewrite decide_False by auto];
        cbn [length]; lia.
    + intros k'. rewrite Hdeg', lookup_insert.
      destruct (decide (k = k')) as [->|Hne].
      * rewrite (decide_True (P := k' ∈ k' :: _)) by left. by case_decide.
      * apply decide_ext. rewrite elem_of_cons. split; [by right|by intros [->|?]].
Qed.
End Run.
