(* ===== verification/DispatchProgress.v ===== *)
(** * Initialized tasks stay initialized

    No step of a dispatcher takes a task out of the initialized state, and a
    successful reply puts its task there: every reply of a request brings it
    closer to its end, whatever other requests run. *)

From S2P Require Import Prelude StartupTask TopologySort StartupManager StartupDispatch.
From S2P Require Import DispatchInvariant DispatchOrder.
From stdpp Require Import prelude gmap strings list sorting relations.
From Stdlib Require Import ZArith Lia.

Local Open Scope Z_scope.

Definition done_at (w : World) (a : Z) : Prop :=
  ∃ t, tasks_heap w !! a = Some t ∧ state_ t = INITIALIZED.

Definition keeps (w w' : World) : Prop := ∀ a, done_at w a → done_at w' a.

#[global] Instance keeps_preorder : PreOrder keeps.
Proof. split; [by intros w a|]. intros w1 w2 w3 H1 H2 a Ha. by apply H2, H1. Qed.

Lemma keeps_heap w w' : tasks_heap w' = tasks_heap w → keeps w w'.
Proof. intros E a (t & Ht & Hst). exists t. by rewrite E. Qed.

Lemma keeps_same w w' : same_schedule w w' → keeps w w'.
Proof. intros [E _]. by apply keeps_heap. Qed.

Lemma keeps_set w a t t' :
  tasks_heap w !! a = Some t → (state_ t = INITIALIZED → state_ t' = INITIALIZED) →
  keeps w (set_task w a t').
Proof.
  intros Ht Hst b (u & Hu & Hsu). unfold done_at, tasks_heap. cbn. rewrite lookup_insert.
  case_decide as Hd; [subst b; exists t'; split; [done|]|by exists u].
  rewrite Ht in Hu. injection Hu as ->. auto.
Qed.

Lemma PostMainThreadTask_keeps w p r : keeps w (PostMainThreadTask w p r).
Proof. unfold PostMainThreadTask. destruct (hasMainHandler_ w); [by apply keeps_heap|done]. Qed.

Lemma OnErrorCode_keeps w dp code msg : keeps w (OnErrorCode w dp code msg).
Proof.
  unfold OnErrorCode. etransitivity; [|apply PostMainThreadTask_keeps].
  apply keeps_same, Callback_Call_same.
Qed.

Lemma OnError_keeps w dp name r : keeps w (OnError w dp name r).
Proof.
  unfold OnError. cbv zeta. etransitivity; [|apply PostMainThreadTask_keeps].
  etransitivity; [|apply keeps_same, Callback_Call_same].
  unfold share_result. repeat case_match; try done. by eapply keeps_set.
Qed.

Section Dispatch.
Context (js : string → JsTask).

(** A callback that keeps initialized tasks. *)
Definition safe (dispatch : Dispatcher) : Prop :=
  ∀ w d name r w', dispatch w d name r = Some w' → keeps w w'.

Section Start.
Context (dispatch : Dispatcher) (Hsafe : safe dispatch).

Lemma run_callbacks_keeps cbs w a r w' :
  run_callbacks dispatch cbs w a r = Some w' → keeps w w'.
Proof.
  revert w. induction cbs as [|[d n] cbs IH]; intros w; cbn; [by intros [= ->]|].
  destruct (dispatch _ _ _ _) as [w1|] eqn:E; [|done]. intros H.
  etransitivity; [by eapply Hsafe|by apply IH].
Qed.

Lemma TaskCallback_Call_keeps w a d name r t w' :
  tasks_heap w !! a = Some t → state_ t ≠ INITIALIZED ∨ resultCode_ r = ERR_OK →
  TaskCallback_Call dispatch w a d name r = Some w' →
  keeps w w' ∧ (resultCode_ r = ERR_OK → done_at w' a).
Proof.
  intros Ht Hor. rewrite (TaskCallback_Call_eq _ _ _ _ _ _ _ Ht).
  set (t' := (CallExtraCallback (SaveResult t (Some r))).2). intros H%run_callbacks_keeps.
  assert (resultCode_ r = ERR_OK → state_ t' = INITIALIZED) as Hok.
  { intros Hr. unfold t'. cbn. unfold GetResultCode. by rewrite Hr. }
  split.
  - etransitivity; [|exact H]. apply (keeps_set w a t); [done|]. intros Hst.
    destruct Hor as [?|Hr]; [done|by apply Hok].
  - intros Hr. apply H. exists t'. split; [|by apply Hok].
    unfold tasks_heap. cbn. by rewrite lookup_insert_eq.
Qed.

Lemma RunTaskInit_keeps w d name a t code w' :
  tasks_heap w !! a = Some t → RunTaskInit js dispatch w d name a t = Some (code, w') → keeps w w'.
Proof.
  intros Ht. unfold RunTaskInit, GetState. destruct (state_ t) eqn:Hst.
  - by intros [= _ <-].
  - unfold Js_RunTaskInit. rewrite bool_decide_eq_true_2 by done. cbn [negb].
    set (t1 := with_run t (result_ t) INITIALIZING (extraCallbacks_ t)).
    assert (keeps w (set_task w a t1)) as H1 by (apply (keeps_set w a t); [done|by rewrite Hst]).
    assert (∀ evs, tasks_heap (emit (set_task w a t1) evs) !! a = Some t1) as Hh.
    { intros evs. unfold tasks_heap. cbn. by rewrite lookup_insert_eq. }
    assert (∀ evs, keeps w (emit (set_task w a t1) evs)) as H2.
    { intros evs. etransitivity; [exact H1|]. by apply keeps_heap. }
    destruct (callCreateOnMainThread_ t).
    + destruct (RunOnMainThread (js (name_ t))) as [called [[c msg]|]]; cbn.
      * destruct (TaskCallback_Call _ _ _ _ _ _) as [w2|] eqn:E; [|done]. intros [= _ <-].
        destruct called.
        -- etransitivity; [apply (H2 [EvInit (name_ t)])|].
           eapply TaskCallback_Call_keeps in E; [by destruct E|apply Hh|by left].
        -- etransitivity; [apply H1|].
           apply (TaskCallback_Call_keeps _ _ _ _ _ t1) in E; [by destruct E| |by left].
           unfold tasks_heap. cbn. by rewrite lookup_insert_eq.
      * intros [= _ <-]. destruct called; [apply (H2 [EvInit (name_ t)])|apply H1].
    + repeat case_match; intros [= _ <-]; [apply H1|apply H1|apply (H2 [EvInit (name_ t)])].
  - unfold AddExtraCallback. rewrite Hst, bool_decide_eq_true_2 by done. cbn.
    intros [= _ <-]. apply (keeps_set w a t); [done|by rewrite Hst].
  - destruct (dispatch w d name (GetTaskResult t)) as [w2|] eqn:E; [|done].
    intros [= _ <-]. by eapply Hsafe.
Qed.

Lemma run_zero_keeps zero w d code w' :
  run_zero js dispatch zero w d = Some (code, w') → keeps w w'.
Proof.
  revert w. induction zero as [|a zero IH]; intros w; cbn; [by intros [= _ <-]|].
  destruct (tasks_heap w !! a) as [t|] eqn:Ht; [|done].
  destruct (RunTaskInit _ _ _ _ _ _ _) as [[c w1]|] eqn:E; [|done].
  apply RunTaskInit_keeps in E; [|done]. destruct (negb _); [by intros [= _ <-]|].
  intros H. etransitivity; [exact E|by apply IH].
Qed.

Lemma NotifyChildren_keeps w d dp name code w' :
  NotifyChildren js dispatch w d dp name = Some (code, w') → keeps w w'.
Proof.
  unfold NotifyChildren. destruct (sortResult_ dp) as [res|].
  2: { intros [= _ <-]. apply OnErrorCode_keeps. }
  destruct (startupChildrenMap_ res !! name) as [cs|].
  2: { intros [= _ <-]. apply OnErrorCode_keeps. }
  destruct (notify_loop _ _ _ _ _ _ _) as [[[err deg] zero] evs].
  set (w1 := emit _ _). assert (keeps w w1) as H1 by by apply keeps_heap.
  destruct err as [msg|].
  - intros [= _ <-]. etransitivity; [exact H1|apply OnErrorCode_keeps].
  - intros H%run_zero_keeps. by etransitivity.
Qed.
End Start.

Lemma count_down_keeps w d wait r : keeps w (count_down w d wait r).
Proof.
  unfold count_down. destruct (dispatchers w !! d) as [dp|]; [|done]. cbv zeta.
  set (w1 := set_dispatcher w d _). transitivity w1; [by apply keeps_heap|].
  generalize w1. intros w2. repeat case_match; try done;
    repeat (etransitivity; [|apply keeps_same, Callback_Call_same]); done.
Qed.

Lemma touch_keeps w d : keeps w (touch_tasks w d).
Proof. apply keeps_same, touch_same. Qed.

Lemma release_keeps w : keeps w (release_dead w).
Proof. by apply keeps_heap. Qed.

Lemma Dispatch_safe fuel : safe (Dispatch js fuel).
Proof.
  induction fuel as [|fuel IH]; intros w d name r w'; [done|]. cbn [Dispatch].
  destruct (dispatchers w !! d) as [dp|]; [|by intros [= ->]].
  destruct r as [r|]; [|intros [= <-]; apply OnErrorCode_keeps].
  destruct (negb _); [intros [= <-]; apply OnError_keeps|].
  pose proof (touch_keeps w d) as H0. set (w0 := touch_tasks w d) in *. clearbody w0.
  destruct (taskMap_ dp !! name ≫= _) as [t|].
  2: { intros [= <-]. etransitivity; [exact H0|apply OnErrorCode_keeps]. }
  destruct (NotifyChildren _ _ _ _ _ _) as [[code w1]|] eqn:E; [|done].
  apply NotifyChildren_keeps in E; [|done].
  destruct (negb _); intros [= <-]; (etransitivity; [exact H0|]); [done|].
  etransitivity; [exact E|]. etransitivity; [apply touch_keeps|apply count_down_keeps].
Qed.

(** A successful reply of an existing task. *)
Lemma Complete_done w a r t w' :
  tasks_heap w !! a = Some t → resultCode_ r = ERR_OK → Complete js w a r = Some w' →
  keeps w w' ∧ (is_Some (replies w !! a) → done_at w' a).
Proof.
  intros Ht Hr. unfold Complete. destruct (replies w !! a) as [[d n]|].
  2: { intros [= ->]. split; [done|by intros [? ?]]. }
  intros (w2 & H & ->)%fmap_Some. eapply TaskCallback_Call_keeps in H as [H1 H2]; [|apply Dispatch_safe|exact Ht|by right].
  split; [|intros Hrp; by apply (release_keeps w2), H2].
  etransitivity; [|apply release_keeps]. etransitivity; [|exact H1]. by apply keeps_heap.
Qed.

Lemma Complete_keeps w a r w' :
  resultCode_ r = ERR_OK → Complete js w a r = Some w' → keeps w w'.
Proof.
  intros Hr. destruct (tasks_heap w !! a) as [t|] eqn:Ht.
  { intros H. by apply (Complete_done w a r t w') in H as [? _]. }
  unfold Complete. destruct (replies w !! a) as [[d n]|]; [|by intros [= ->]].
  unfold TaskCallback_Call. change (tasks_heap (w <| replies ::= delete a |>)) with (tasks_heap w).
  rewrite Ht. intros (w2 & H%run_callbacks_keeps & ->)%fmap_Some; [|apply Dispatch_safe].
  etransitivity; [|apply release_keeps]. etransitivity; [|exact H]. by apply keeps_heap.
Qed.
End Dispatch.

(** ** The tasks that are left *)

Section Left.
Context (tm : PtrMap).

Definition task_done (w : World) (k : string) : bool :=
  match tm !! k ≫= task_at (tasks_heap w) with
  | Some t => bool_decide (state_ t = INITIALIZED)
  | None => false
  end.

(** How many tasks of the request are not initialized. *)
Definition tasks_left (w : World) : nat :=
  length (filter (λ k, task_done w k = false) (elements (dom tm))).

Lemma task_done_at w k : task_done w k = true ↔ ∃ a, tm !! k = Some (Some a) ∧ done_at w a.
Proof.
  unfold task_done, done_at. destruct (tm !! k) as [[a|]|]; cbn; [|naive_solver|naive_solver].
  destruct (tasks_heap w !! a) as [t|] eqn:E; [|naive_solver].
  rewrite bool_decide_eq_true. split; [eauto 10|]. intros (? & [= <-] & t' & ? & ?). naive_solver.
Qed.

Lemma keeps_done w w' k : keeps w w' → task_done w k = true → task_done w' k = true.
Proof. rewrite !task_done_at. intros Hk (a & Ha & Hd). exists a. split; [done|by apply Hk]. Qed.

Lemma left_sublist w w' (l : list string) :
  keeps w w' →
  sublist (filter (λ k, task_done w' k = false) l) (filter (λ k, task_done w k = false) l).
Proof.
  intros Hk. induction l as [|k l IH]; [done|]. rewrite !filter_cons.
  pose proof (keeps_done w w' k Hk) as Hd.
  destruct (task_done w k), (task_done w' k); cbn; try (by constructor); try done.
  by specialize (Hd eq_refl).
Qed.

Lemma tasks_left_mono w w' : keeps w w' → (tasks_left w' ≤ tasks_left w)%nat.
Proof. intros Hk. by apply sublist_length, left_sublist. Qed.

Lemma tasks_left_less w w' k :
  keeps w w' → k ∈ dom tm → task_done w k = false → task_done w' k = true →
  (tasks_left w' < tasks_left w)%nat.
Proof.
  intros Hk Hdom Hno Hyes. pose proof (tasks_left_mono w w' Hk) as Hle.
  apply Nat.le_neq. split; [done|]. intros E. unfold tasks_left in E.
  pose proof (left_sublist w w' (elements (dom tm)) Hk) as Hsub.
  apply sublist_submseteq in Hsub. apply submseteq_length_Permutation in Hsub; [|lia].
  assert (k ∈ filter (λ k, task_done w k = false) (elements (dom tm))) as Hin.
  { apply list_elem_of_filter. by rewrite elem_of_elements. }
  rewrite <-Hsub in Hin. apply list_elem_of_filter in Hin as [? _]. congruence.
Qed.

Lemma tasks_left_bound w : (tasks_left w ≤ size tm)%nat.
Proof.
  unfold tasks_left. rewrite <-size_dom. unfold size, set_size. cbn. apply length_filter.
Qed.

Lemma tasks_left_zero w k : tasks_left w = 0%nat → k ∈ dom tm → task_done w k = true.
Proof.
  unfold tasks_left. intros H Hk. apply length_zero_iff_nil in H.
  destruct (task_done w k) eqn:E; [done|].
  assert (k ∈ filter (λ k, task_done w k = false) (elements (dom tm))) as Hin.
  { apply list_elem_of_filter. by rewrite elem_of_elements. }
  rewrite H in Hin. by apply not_elem_of_nil in Hin.
Qed.
End Left.
