(* ===== verification/DispatchTheorems.v ===== *)
(** * What running a startup request guarantees

    A request that [StartupTaskManager::Prepare] accepted is run while no other
    request is: the order of its tasks, the end of the run and the report of an
    error, over every sequence of results, timeouts and main-thread steps. *)

From S2P Require Import Prelude StartupTask TopologySort StartupManager StartupDispatch.
From S2P Require Import DispatchInvariant DispatchOrder DispatchProgress.
From stdpp Require Import prelude gmap strings list sorting relations.
From Stdlib Require Import ZArith Lia.

Local Open Scope Z_scope.

(** ** Requests *)

(** The tasks of a request before it runs. *)
Definition request_tasks (w : World) (mgr : StartupTaskManager) : TaskMap :=
  view (tasks_heap w) (tasks_ mgr).

(** The manager was prepared and is registered, no other request runs and no callback
    carries its identifier; the callback of the main thread is not that of a manager. Its tasks are in a state the task class can reach: an initialized
    task holds a successful result, and exactly the running ones owe a reply; some
    may be initialized or running from earlier requests. *)
Record runnable (w : World) (mgr : StartupTaskManager) (awp : option Z) : Prop := {
  rq_wf : tasks_wf (request_tasks w mgr);
  rq_prepared : ∃ res, dispatcher_ mgr = Some res ∧
    Sort (request_tasks w mgr) = Some (ERR_OK, res);
  rq_some : tasks_ mgr ≠ ∅;
  rq_managed : startupTaskManagerId_ mgr ∈ dom (startupTaskManagerMap_ (startup w));
  rq_sound : dangling w = false;
  rq_alone : dispatchers w = ∅;
  rq_posted : posted w = [];
  rq_trace : trace w = [];
  rq_new : ∀ a, own (startupTaskManagerId_ mgr)
    (default [] (extraCallbacks_ <$> tasks_heap w !! a) ++ option_list (replies w !! a)) = [];
  rq_tasks : ∀ k a t, tasks_ mgr !! k = Some (Some a) → tasks_heap w !! a = Some t →
    state_ t ≠ INVALID ∧
    (state_ t = INITIALIZED → ∃ r, result_ t = Some r ∧ resultCode_ r = ERR_OK) ∧
    (is_Some (replies w !! a) ↔ state_ t = INITIALIZING);
  rq_await : ∀ c, awp = Some c → ∃ cb, callbacks w !! c = Some (cb, None) ∧
    hasCallbackFunc_ cb = true ∧ isCalled_ cb = false;
}.

(** The completion callback [StartupTaskManager::Run] makes. *)
Definition completion_of (w : World) : Z := fresh (dom (callbacks w)).

Section Begin.
Context (js : string → JsTask) (w : World) (mgr : StartupTaskManager) (awp : option Z).
Context (Hrq : runnable w mgr awp) (res : StartupSortResult).
Context (Hprep : dispatcher_ mgr = Some res).
Context (Hsort : Sort (request_tasks w mgr) = Some (ERR_OK, res)).

#[local] Instance request_of : Requester := {| listening := listens js; requester := mgr |}.
Abbreviation d := (startupTaskManagerId_ mgr).
Abbreviation cc := (completion_of w).
Abbreviation tm := (tasks_ mgr).
Abbreviation M := (request_tasks w mgr).

Lemma dom_request : dom tm = dom M.
Proof. unfold request_tasks, view. by rewrite dom_fmap_L. Qed.

Lemma request_entry k p :
  tm !! k = Some p → ∃ a t, p = Some a ∧ tasks_heap w !! a = Some t ∧ M !! k = Some (Some t).
Proof.
  intros Hk. assert (M !! k = Some (task_at (tasks_heap w) p)) as HM.
  { unfold request_tasks, view. by rewrite lookup_fmap, Hk. }
  destruct (proj1 (rq_wf _ _ _ Hrq) k _ HM) as (t & Ht & _).
  destruct p as [a|]; [|done]. cbn in Ht. exists a, t. rewrite HM. cbn. by rewrite Ht.
Qed.

Lemma missing_none k : missing M [] k = deps_of M k.
Proof. apply filter_all. intros x _. apply not_elem_of_nil. Qed.

Lemma completion_fresh : callbacks w !! cc = None.
Proof. apply not_elem_of_dom. unfold completion_of. apply is_fresh. Qed.

Lemma keys_request : (map_iter tm).*1 ≡ₚ keys_of M.
Proof.
  apply NoDup_Permutation; [apply NoDup_map_iter_fst|apply NoDup_keys_of|].
  intros k. rewrite elem_of_keys_of, <-dom_request, elem_of_dom, list_elem_of_fmap. split.
  - intros ([k' p] & -> & Hin%elem_of_map_iter). eauto.
  - intros [p Hp]. exists (k, p). by rewrite elem_of_map_iter.
Qed.

(** The world in which the dispatcher starts. *)
Lemma begin_heap_inv : heap_inv d tm M false [] [] (tasks_heap w) (replies w).
Proof.
  split; [|intros a _; apply (rq_new _ _ _ Hrq)]. intros k t0 Hk.
  assert (is_Some (tm !! k)) as [p Hp] by (apply elem_of_dom; rewrite dom_request; by apply elem_of_dom).
  destruct (request_entry k p Hp) as (a & t & -> & Ht & HM). simplify_eq.
  exists a, t0. split_and!; [done|done|done|].
  destruct (rq_tasks _ _ _ Hrq k a t0 Hp Ht) as (H1 & H2 & H3).
  split; try done; try (by intros ?%not_elem_of_nil); [by apply H3|by intros _ ?%H3|].
  pose proof (rq_new _ _ _ Hrq a) as Hn. rewrite Ht in Hn.
  cbn [fmap option_fmap option_map default from_option id] in Hn.
  by rewrite Hn, decide_False by apply not_elem_of_nil.
Qed.

Lemma begin_sched_inv : sched_inv M false [] [] [] (zeroDequeResult_ res) [].
Proof.
  destruct (Sort_ok_cases M (rq_wf _ _ _ Hrq) res Hsort) as (_ & _ & -> & _).
  split; rewrite ?app_nil_l, ?app_nil_r; try done.
  - apply NoDup_filter, NoDup_keys_of.
  - intros k [Hk ?%elem_of_keys_of]%list_elem_of_filter. by rewrite missing_none.
  - intros _ k Hk Hm. rewrite missing_none in Hm. apply list_elem_of_filter.
    by rewrite elem_of_keys_of.
  - constructor.
Qed.

Lemma begin_cb_inv w2 :
  callbacks w2 = <[cc := (OnCompletedCallback_new true, Some mgr)]> (callbacks w) →
  cb_inv cc awp M false [] []
    (callbacks (if awaited_in M (keys_of M) =? 0
                then Callback_Call w2 awp StartupTaskResult_default else w2)) [].
Proof.
  intros Ec. pose proof completion_fresh as Hfresh.
  assert (awp ≠ Some cc) as Hne.
  { intros E. destruct (rq_await _ _ _ Hrq _ E) as (? & ? & _). congruence. }
  assert (∀ c, callbacks (if awaited_in M (keys_of M) =? 0
      then Callback_Call w2 awp StartupTaskResult_default else w2) !! c =
    if decide (awp = Some c) then
      (if awaited_in M (keys_of M) =? 0
       then prod_map (λ cb, OnCompletedCallback_Call cb StartupTaskResult_default) id <$> callbacks w2 !! c
       else callbacks w2 !! c)
    else callbacks w2 !! c) as Hcbs.
  { intros c. destruct (_ =? 0); [apply Callback_Call_callbacks|by case_decide]. }
  split.
  - exists (OnCompletedCallback_new true), (Some mgr).
    rewrite Hcbs, decide_False, Ec, lookup_insert_eq by done. split_and!; try done.
    intros _. cbn. symmetry. apply bool_decide_eq_false_2.
    intros E. apply (rq_some _ _ _ Hrq), map_size_empty_inv. by rewrite (size_request tm M dom_request).
  - intros c Hc. destruct (rq_await _ _ _ Hrq c Hc) as (cb & Hcb & Hf & Hnc).
    assert (c ≠ cc) as Hcc by congruence. split; [done|].
    exists (if awaited_in M (keys_of M) =? 0
            then OnCompletedCallback_Call cb StartupTaskResult_default else cb), None.
    rewrite Hcbs, decide_True, Ec, lookup_insert_ne, Hcb by done.
    split_and!; [by destruct (_ =? 0)| |].
    + destruct (_ =? 0); [by rewrite OnCompletedCallback_Call_fires|done].
    + intros _. unfold awaited_in at 2. cbn [filter list_filter length Z.of_nat].
      destruct (Z.eqb_spec (awaited_in M (keys_of M)) 0) as [E|E].
      * rewrite OnCompletedCallback_Call_fires by done. symmetry. by apply bool_decide_eq_true_2.
      * rewrite Hnc. symmetry. by apply bool_decide_eq_false_2.
  - by split; [constructor|].
Qed.

(** [Run] on the prepared world [w1]. *)
Lemma Run_inv w1 :
  tasks_heap w1 = tasks_heap w → replies w1 = replies w → posted w1 = [] → trace w1 = [] →
  callbacks w1 = <[cc := (OnCompletedCallback_new true, Some mgr)]> (callbacks w) →
  startupTaskManagerMap_ (startup w1) = startupTaskManagerMap_ (startup w) →
  held_ w1 = Some d → dangling w1 = false →
  let dp := StartupTaskDispatcher_new tm (Some res) in
  dispatchers w1 = {[d := dp]} →
  ∃ code w', Run js w1 d dp (Some cc) awp = Some (code, w') ∧
    advanced (HO := Some d) js d cc awp tm M res false [] [] [] w' ∧ (js_ok js M → code = ERR_OK).
Proof.
  intros Eh Er Ep Et Ec Em Eb Eg dp Hd1.
  pose proof (rq_wf _ _ _ Hrq) as Hwf.
  destruct (Sort_ok_cases M Hwf res Hsort) as (_ & Hchildren & Hz & _).
  pose proof (proj2 Hwf) as Hsz.
  unfold Run. cbn [sortResult_ dp StartupTaskDispatcher_new taskMap_ inDegreeMap_ mainThreadAwaitCount_].
  destruct (run_init_spec M Hwf (tasks_heap w1) (map_iter tm) ∅ 0) as (deg & -> & Hdeg).
  { intros k p Hin%elem_of_map_iter. destruct (request_entry k p Hin) as (a & t & -> & Ht & HM).
    exists a, t, t. by rewrite Eh. }
  { apply NoDup_map_iter_fst. }
  { intros k _. apply lookup_empty. }
  { done. }
  { rewrite length_map_iter, (size_request tm M dom_request). lia. }
  rewrite Z.add_0_l. replace (awaited_in M (map_iter tm).*1) with (awaited_in M (keys_of M))
    by (unfold awaited_in; by rewrite keys_request).
  cbn [negb]. rewrite (size_request tm M dom_request), u32_small by lia.
  set (dp2 := (_ <| mainThreadAwaitCallback_ := awp |>)). set (w2 := set_dispatcher w1 d dp2).
  set (w3 := if _ =? 0 then _ else _).
  assert (same_schedule w2 w3) as (S1 & S2 & S3 & S4 & S5).
  { unfold w3. generalize w2. intros w'. case_match; [apply Callback_Call_same|done]. }
  assert (dispatchers w3 = {[d := dp2]}) as Hd3.
  { rewrite S2. cbn. rewrite Hd1. apply insert_singleton_eq. }
  rewrite (dispatch_fuel_alone d tm M dom_request w3 dp2 Hd3 eq_refl).
  apply (run_first_inv (RQ := request_of) (HO := Some d) js eq_refl d cc awp tm M res Hwf dom_request Hchildren _ _ false [] [] [] dp2);
    [done| |simpl; lia].
  split; rewrite ?S1, ?S3, ?S4, ?S5.
  - change (tasks_heap w2) with (tasks_heap w1). change (replies w2) with (replies w1).
    rewrite Eh, Er. apply begin_heap_inv.
  - apply begin_sched_inv.
  - split; try done.
    + intros k Hk. cbn. rewrite Hdeg, missing_none, decide_True; [done|].
      by rewrite keys_request, elem_of_keys_of.
    + cbn. lia.
    + change (awaited_in M []) with 0. cbn. lia.
  - change (trace w2) with (trace w1). rewrite Et. split.
    + intros c p. by case_decide as Hc; [destruct Hc as (_ & ?%not_elem_of_nil & _)|].
    + intros l1 k l2 E. by destruct l1.
    + by intros k ?%not_elem_of_nil.
  - change (posted w2) with (posted w1). rewrite Ep.
    by apply begin_cb_inv.
  - assert (live_inv (HO := Some d) d cc awp M false [] (callbacks w2)
      (startupTaskManagerMap_ (startup w2)) (held_ w2) (dangling w2)) as Hl.
    { change (callbacks w2) with (callbacks w1). rewrite Ec. split; [| |done|done|].
      - eexists. by rewrite lookup_insert_eq.
      - intros c Hc. destruct (rq_await _ _ _ Hrq c Hc) as (cb & Hcb & _). exists cb.
        rewrite lookup_insert_ne; [done|]. intros <-. by rewrite completion_fresh in Hcb.
      - intros _. right. change (startup w2) with (startup w1). rewrite Em. apply (rq_managed _ _ _ Hrq). }
    unfold w3. destruct (_ =? 0); [by apply live_await_call|done].
Qed.

Lemma listener_same w1 code msg :
  same_schedule w1 (w1 <| startup ::= λ s, CallListenerOnCompleted s mgr code msg |>).
Proof.
  unfold same_schedule, tasks_heap. cbn. by rewrite CallListenerOnCompleted_heap.
Qed.

(** The caller lets go of the manager. *)
Lemma request_unheld e N C K Q W dp w1 :
  request_inv (HO := Some d) d cc awp tm M res e N C K Q W dp w1 →
  request_inv (HO := None) d cc awp tm M res e N C K Q W dp (w1 <| held_ := None |>).
Proof. intros [Hh Hs Hdp Htr Hcb [H1 H2 _ H4 H5]]. by split. Qed.

Lemma Manager_Run_inv :
  ∃ code w', Manager_Run js w mgr awp = Some (code, w') ∧
    ∃ e N C W dp, request_inv (HO := None) d cc awp tm M res e N C [] [] W dp w' ∧
      resting d M e C dp w' ∧ (js_ok js M → e = false ∧ code = ERR_OK).
Proof.
  unfold Manager_Run. rewrite Hprep. fold (completion_of w).
  set (w1 := AddAsyncTimeoutTimer _ _ <| callbacks ::= _ |> <| dispatchers ::= _ |> <| held_ := _ |>).
  destruct (Run_inv w1) as (code & w' & -> & (e & N & C & W & dp & Hd' & Hinv & _ & He) & Hcode); try done.
  { apply (rq_posted _ _ _ Hrq). }
  { apply (rq_trace _ _ _ Hrq). }
  { apply (rq_sound _ _ _ Hrq). }
  { cbn. rewrite (rq_alone _ _ _ Hrq). apply insert_empty. }
  eexists code, _. split; [done|].
  destruct (Z.eqb_spec code ERR_OK) as [->|Hne]; cbn [negb].
  - apply request_unheld in Hinv. exists e, N, C, W, dp.
    split; [by apply request_released|]. split; [by eapply released_resting|]. auto.
  - set (w2 := if _ : bool then _ else _).
    assert (request_inv (HO := Some d) d cc awp tm M res true N C [] [] W dp w2 ∧
      dispatchers w2 = {[d := dp]}) as [Hinv2 Hd2].
    { unfold w2. case_match; (split; [|done]); (eapply request_failed; [| | |exact Hinv]); try done.
      by destruct (listener_same (CancelAsyncTimeoutTimer w' mgr) code ""). }
    apply request_unheld in Hinv2. exists true, N, C, W, dp.
    split; [by apply request_released|]. split; [by eapply released_resting|].
    intros Hjs. by destruct (Hne (Hcode Hjs)).
Qed.
End Begin.

(** ** Steps *)

(** What can happen while a request runs: a result arrives, the main thread runs
    a posted call, a timeout expires. *)
Inductive dstep (js : string → JsTask) : World → World → Prop :=
| step_complete w a r w' : Complete js w a r = Some w' → dstep js w w'
| step_posted w : dstep js w (RunPosted w)
| step_timer w id : dstep js w (TimerExpires w id).

(** The steps of a run in which no task fails and the timeout of the manager [d] does
    not expire. *)
Inductive dstep_ok (js : string → JsTask) (d : Z) : World → World → Prop :=
| step_ok_complete w a r w' :
    resultCode_ r = ERR_OK → Complete js w a r = Some w' → dstep_ok js d w w'
| step_ok_posted w : dstep_ok js d w (RunPosted w)
| step_ok_timer w id : timeout_of_other d w id → dstep_ok js d w (TimerExpires w id).

(** A run without failures in which the tasks of [tm] gave [n] replies. *)
Inductive run_ok (js : string → JsTask) (d : Z) (tm : PtrMap) : nat → World → World → Prop :=
| run_ok_nil w : run_ok js d tm 0 w w
| run_ok_reply n w1 k a r w2 w3 :
    tm !! k = Some (Some a) → is_Some (replies w1 !! a) → resultCode_ r = ERR_OK →
    Complete js w1 a r = Some w2 → run_ok js d tm n w2 w3 → run_ok js d tm (S n) w1 w3
| run_ok_step n w1 w2 w3 :
    dstep_ok js d w1 w2 → run_ok js d tm n w2 w3 → run_ok js d tm n w1 w3.

Section Steps.
Context (js : string → JsTask) {RQ : Requester} (Hlisten : listening = listens js).
Context (d cc : Z) (awp : option Z) (tm : PtrMap) (M : TaskMap) (res : StartupSortResult).
Context (Hwf : tasks_wf M) (Hdom : dom tm = dom M).
Context (Hchildren : ∀ k, k ∈ dom M → ∃ cs, startupChildrenMap_ res !! k = Some cs ∧
  ∀ c, occ c cs = if decide (c ∈ dom M) then occ k (deps_of M c) else 0%nat).
#[local] Instance unheld : Holder := None.

Abbreviation request_inv := (DispatchInvariant.request_inv d cc awp tm M res).

(** Where tasks can be started and the manager goes when its request ends, an error takes
    the dispatcher with it, so that nothing reads what is gone. *)
Definition running (w : World) : Prop :=
  ∃ e N C W dp, request_inv e N C [] [] W dp w ∧ resting d M e C dp w ∧
    (js_ok js M → dropped_at_end d → dangling w = false ∧ (e = true → dispatchers w = ∅)).

Definition on_track (w : World) : Prop :=
  ∃ N C W dp, request_inv false N C [] [] W dp w ∧ resting d M false C dp w.

(** Tasks are neither started nor awaited after all are counted. *)
Lemma on_track_waits N C W dp w :
  request_inv false N C [] [] W dp w → length C = size M → W = [].
Proof.
  intros Hinv Hlen. pose proof (ri_sched _ _ _ _ _ _ _ _ _ _ _ _ _ _ Hinv) as Hs.
  pose proof (notified_bound M _ _ _ _ _ _ Hs) as Hb.
  pose proof (si_notified _ _ _ _ _ _ _ Hs eq_refl) as HNC. rewrite app_nil_r in HNC.
  rewrite HNC in Hb. destruct W; [done|]. cbn in Hb. lia.
Qed.

Lemma on_track_sound w : on_track w → dangling w = false.
Proof.
  intros (N & C & W & dp & Hinv & _).
  by apply (lv_defined _ _ _ _ _ _ _ _ _ _ (ri_live _ _ _ _ _ _ _ _ _ _ _ _ _ _ Hinv)).
Qed.

Lemma RunPosted_dangling w : dangling (RunPosted w) = dangling w.
Proof.
  unfold RunPosted. destruct (posted w) as [|[p r] rest]; [done|].
  by rewrite (proj2 (Callback_Call_life _ p r)).
Qed.

Lemma running_answers w a r :
  running w → ∃ w', Complete js w a r = Some w' ∧ running w'.
Proof.
  intros (e & N & C & W & dp & Hinv & [[Hd|Hd] Hend] & Hsound).
  - destruct (Complete_alive js Hlisten d cc awp tm M res Hwf Hdom Hchildren e N C W dp w a r Hd Hinv)
      as (w' & E & e' & N' & C' & W' & dp' & Hinv' & Hrest' & _ & Hlast).
    exists w'. split; [done|]. exists e', N', C', W', dp'. split_and!; [done|apply Hrest'..|].
    intros Hjs Hdrop. destruct (Hsound Hjs Hdrop) as [Hdg He].
    destruct e; [rewrite He in Hd by done; symmetry in Hd; by apply map_non_empty_singleton in Hd|].
    destruct e'; [destruct (Hlast Hjs Hdrop eq_refl eq_refl) as [? ->]; by split|].
    split; [|done]. by apply (lv_defined _ _ _ _ _ _ _ _ _ _ (ri_live _ _ _ _ _ _ _ _ _ _ _ _ _ _ Hinv')).
  - destruct (Complete_released js d cc awp tm M res Hwf Hdom e N C W dp w a r Hd Hinv)
      as (w' & E & e' & W' & Hd' & Hinv' & HW & Hdg).
    exists w'. split; [done|]. destruct (decide (e = false)) as [->|He].
    + destruct HW as [-> ->]; [by eapply on_track_waits; [|apply Hend]|].
      exists false, N, C, [], dp. split; [done|]. split; [by split; [right|auto]|].
      intros Hjs Hdrop. rewrite Hdg. split; [by apply Hsound|done].
    + exists true, N, C, W', dp. split; [|split; [by split; [right|]|]].
      * by apply (request_drop d cc awp tm M res e' N C [] []) in Hinv'.
      * intros Hjs Hdrop. rewrite Hdg. split; [by apply Hsound|done].
Qed.

Lemma running_step w w' : dstep js w w' → running w → running w'.
Proof.
  intros [w1 a r w2 E|w1|w1 id] Hrun.
  - destruct (running_answers w1 a r Hrun) as (w3 & E' & Hrun'). congruence.
  - destruct Hrun as (e & N & C & W & dp & Hinv & Hrest & Hsound).
    destruct (RunPosted_inv _ _ _ _ _ _ _ _ _ _ _ _ Hinv) as [Hinv' Hd'].
    exists e, N, C, W, dp. unfold resting. rewrite Hd', RunPosted_dangling. auto.
  - destruct Hrun as (e & N & C & W & dp & Hinv & Hrest & Hsound).
    destruct (TimerExpires_inv js Hlisten d cc awp tm M res Hwf Hdom Hchildren e N C W dp w1 id eq_refl Hinv Hrest)
      as (e' & Hinv' & Hrest' & _ & H1 & H2).
    exists e', N, C, W, dp. split; [done|]. split; [done|]. intros Hjs Hdrop.
    rewrite (proj2 (TimerExpires_rest w1 id)). destruct (Hsound Hjs Hdrop) as [Hdg He].
    split; [done|]. intros ->. destruct e; auto.
Qed.

Lemma running_steps w w' : rtc (dstep js) w w' → running w → running w'.
Proof. induction 1; [done|]. intros ?. eauto using running_step. Qed.

(** What [Run] leaves. *)
Lemma run_started w code :
  (∃ e N C W dp, request_inv e N C [] [] W dp w ∧ resting d M e C dp w ∧ (js_ok js M → e = false ∧ code = ERR_OK)) →
  running w.
Proof.
  intros (e & N & C & W & dp & Hinv & Hrest & He). exists e, N, C, W, dp. split; [done|]. split; [done|].
  intros Hjs _. destruct (He Hjs) as [-> _]. split; [|done].
  by apply (lv_defined _ _ _ _ _ _ _ _ _ _ (ri_live _ _ _ _ _ _ _ _ _ _ _ _ _ _ Hinv)).
Qed.

Lemma on_track_step w w' : js_ok js M → dstep_ok js d w w' → on_track w → on_track w'.
Proof.
  intros Hjs [w1 a r w2 Hr E|w1|w1 id Hid] (N & C & W & dp & Hinv & Hrest).
  - destruct Hrest as [[Hd|Hd] Hend].
    + destruct (Complete_alive js Hlisten d cc awp tm M res Hwf Hdom Hchildren _ N C W dp w1 a r Hd Hinv)
        as (w3 & E' & e' & N' & C' & W' & dp' & Hinv' & Hrest' & He & _).
      rewrite E in E'. injection E' as <-. rewrite (He Hjs Hr) in *. by exists N', C', W', dp'.
    + destruct (Complete_released js d cc awp tm M res Hwf Hdom false N C W dp w1 a r Hd Hinv)
        as (w3 & E' & e' & W' & Hd' & Hinv' & HW & _).
      rewrite E in E'. injection E' as <-.
      destruct HW as [-> ->]; [by eapply on_track_waits; [|apply Hend]|].
      exists N, C, [], dp. split; [done|]. split; [by right|auto].
  - destruct (RunPosted_inv _ _ _ _ _ _ _ _ _ _ _ _ Hinv) as [Hinv' Hd'].
    exists N, C, W, dp. unfold resting. by rewrite Hd'.
  - destruct (TimerExpires_inv js Hlisten d cc awp tm M res Hwf Hdom Hchildren false N C W dp w1 id eq_refl Hinv Hrest)
      as (e' & Hinv' & Hrest' & He & _). rewrite (He Hid) in *. by exists N, C, W, dp.
Qed.

Lemma dstep_ok_keeps w w' : dstep_ok js d w w' → keeps w w'.
Proof.
  intros [w1 a r w2 Hr E|w1|w1 id _].
  - by eapply Complete_keeps.
  - unfold RunPosted. destruct (posted w1) as [|[p r] rest]; [done|].
    etransitivity; [|apply keeps_same, Callback_Call_same]. by apply keeps_heap.
  - apply keeps_heap, TimerExpires_rest.
Qed.

(** Every reply leaves one task less. *)
Lemma run_ok_progress n w w' :
  js_ok js M → run_ok js d tm n w w' → on_track w →
  on_track w' ∧ (tasks_left tm w' + n ≤ tasks_left tm w)%nat.
Proof.
  intros Hjs. induction 1 as [w|n w1 k a r w2 w3 Hk Hrp Hr E _ IH|n w1 w2 w3 Hstep _ IH]; intros Hon.
  - split; [done|lia].
  - assert (on_track w2) as Hon2.
    { eapply on_track_step; [done| |exact Hon]. by eapply step_ok_complete. }
    destruct (IH Hon2) as [Hon3 Hle]. split; [done|].
    destruct Hon as (N & C & W & dp & Hinv & _).
    destruct (heap_inv_task d tm M Hwf false N W _ _ k (ri_heap _ _ _ _ _ _ _ _ _ _ _ _ _ _ Hinv))
      as (a' & t & _ & _ & Hk' & _ & Ht & _ & _ & Hi); [by eapply request_key|].
    assert (a' = a) as -> by congruence.
    destruct (Complete_done js w1 a r t w2 Ht Hr E) as [Hkeep Hdone].
    assert (tasks_left tm w2 < tasks_left tm w1)%nat; [|lia].
    apply (tasks_left_less tm w1 w2 k Hkeep).
    + apply elem_of_dom. eauto.
    + unfold task_done. rewrite Hk. cbn. rewrite Ht, (ti_reply _ _ _ _ _ _ _ _ Hi Hrp). done.
    + apply task_done_at. eauto.
  - destruct (IH (on_track_step _ _ Hjs Hstep Hon)) as [Hon3 Hle]. split; [done|].
    pose proof (tasks_left_mono tm w1 w2 (dstep_ok_keeps _ _ Hstep)). lia.
Qed.

(** A task that owes a reply is not initialized. *)
Lemma on_track_left w k a :
  on_track w → tm !! k = Some (Some a) → is_Some (replies w !! a) → tasks_left tm w ≠ 0%nat.
Proof.
  intros (N & C & W & dp & Hinv & _) Hk Hrp H0.
  destruct (heap_inv_task d tm M Hwf false N W _ _ k (ri_heap _ _ _ _ _ _ _ _ _ _ _ _ _ _ Hinv))
    as (a' & t & _ & _ & Hk' & _ & Ht & _ & _ & Hi); [by eapply request_key|].
  assert (a' = a) as -> by congruence.
  assert (task_done tm w k = true) as Hdone.
  { apply tasks_left_zero; [done|]. apply elem_of_dom. eauto. }
  unfold task_done in Hdone. rewrite Hk in Hdone. cbn in Hdone.
  rewrite Ht, (ti_reply _ _ _ _ _ _ _ _ Hi Hrp) in Hdone. done.
Qed.

(** A notified task is initialized. *)
Definition initialized (w : World) (k : string) : Prop :=
  ∃ a t, tm !! k = Some (Some a) ∧ tasks_heap w !! a = Some t ∧ state_ t = INITIALIZED.

Lemma notified_initialized e N C K Q W dp w k :
  request_inv e N C K Q W dp w → k ∈ N → initialized w k.
Proof.
  intros [Hh Hs _ _ _ _] Hk.
  destruct (heap_inv_task d tm M Hwf e N W _ _ k Hh) as (a & t & _ & _ & ? & _ & ? & _ & _ & Hi).
  { eapply si_ready; [exact Hs|]. apply elem_of_app. by left. }
  exists a, t. split_and!; try done. by apply (ti_done _ _ _ _ _ _ _ _ Hi).
Qed.

(** While a task is not notified, some task with all its dependencies is not. *)
Lemma next_task N order :
  order ≡ₚ keys_of M → topo_ordered M order → ¬ (∀ k, k ∈ dom M → k ∈ N) →
  ∃ k, k ∈ dom M ∧ (k ∉ N) ∧ missing M N k = [].
Proof.
  intros Hperm Htopo Hno.
  destruct (find_if (λ k, bool_decide (k ∉ N)) order) as [k|] eqn:E.
  - apply find_if_Some in E as (l1 & l2 & Eo & Hk%bool_decide_eq_true & Hl).
    exists k. split_and!; [|done|].
    + apply elem_of_keys_of. rewrite <-Hperm, Eo. apply elem_of_app. right. left.
    + apply filter_none. intros x Hx Hxn. specialize (Htopo l1 k l2 Eo x Hx).
      rewrite Forall_forall in Hl. specialize (Hl x Htopo). by apply bool_decide_eq_false in Hl.
  - destruct Hno. intros k Hk. rewrite find_if_None in E.
    specialize (E k). rewrite Hperm, elem_of_keys_of in E. specialize (E Hk).
    apply bool_decide_eq_false in E. by destruct (decide (k ∈ N)).
Qed.

(** When the awaited tasks are counted, each of them is. *)
Lemma awaited_counted e N C K Q W k :
  sched_inv M e N C K Q W → awaited_in M C = awaited_in M (keys_of M) → awaited M k = true →
  k ∈ C.
Proof.
  intros Hs Heq Hk.
  assert (filter (awaited M) C ⊆+ filter (awaited M) (keys_of M)) as Hsub.
  { apply NoDup_submseteq.
    - apply NoDup_filter. pose proof (si_count _ _ _ _ _ _ _ Hs) as Hn. by apply NoDup_app in Hn as [? _].
    - intros x. rewrite !list_elem_of_filter. intros [? Hx]. split; [done|].
      apply elem_of_keys_of, (si_ready _ _ _ _ _ _ _ Hs), elem_of_app. left.
      apply (si_counted _ _ _ _ _ _ _ Hs), elem_of_app. by left. }
  apply submseteq_length_Permutation in Hsub; [|unfold awaited_in in Heq; lia].
  assert (k ∈ filter (awaited M) C) as Hin; [|by apply list_elem_of_filter in Hin as [_ ?]].
  rewrite Hsub. apply list_elem_of_filter. split; [by rewrite Hk|].
  apply elem_of_keys_of, elem_of_dom. unfold awaited in Hk.
  destruct (M !! k) as [[t|]|]; [eauto|done|done].
Qed.

(** A run without failures is over, or a task still owes its reply. *)
Lemma on_track_end order w :
  order ≡ₚ keys_of M → topo_ordered M order → on_track w →
  ∃ cb owner, callbacks w !! cc = Some (cb, owner) ∧
    ((∃ r, fired_ cb = [r] ∧ resultCode_ r = ERR_OK ∧
        (∀ k, k ∈ dom tm → initialized w k) ∧
        (∀ c, awp = Some c → ∃ cb' owner', callbacks w !! c = Some (cb', owner') ∧
           isCalled_ cb' = true)) ∨
     (fired_ cb = [] ∧ ∃ k a, tm !! k = Some (Some a) ∧ is_Some (replies w !! a))) ∧
    (∀ c cb' owner', awp = Some c → callbacks w !! c = Some (cb', owner') →
       isCalled_ cb' = true → ∀ k, awaited M k = true → initialized w k).
Proof.
  intros Hperm Htopo (N & C & W & dp & Hinv & _). pose proof Hinv as [Hh Hs Hdp _ Hcb _].
  destruct Hcb as [(cb & owner & Hcc & _ & Hnc & Hc & He) Haw _].
  pose proof (si_notified _ _ _ _ _ _ _ Hs eq_refl) as HNC. rewrite app_nil_r in HNC.
  exists cb, owner. split; [done|]. split.
  - rewrite (He eq_refl) in Hnc, Hc.
    destruct (decide (length C = size M)) as [Hall|Hnot].
    + left. rewrite bool_decide_eq_true_2 in Hc by done.
      destruct (Hc eq_refl) as (r & Hr & _ & Hok). exists r. split_and!; [done|auto| |].
      * intros k Hk. rewrite Hdom in Hk. eapply notified_initialized; [done|].
        by eapply counted_all.
      * intros c Hawc. destruct (Haw c Hawc) as (_ & cb' & owner' & ? & _ & He').
        exists cb', owner'. split; [done|]. rewrite He' by done. apply bool_decide_eq_true_2.
        assert (C ≡ₚ keys_of M) as Hp.
        { apply submseteq_length_Permutation; [|rewrite length_keys_of; lia].
          apply NoDup_submseteq; [pose proof (si_count _ _ _ _ _ _ _ Hs) as Hn; by rewrite app_nil_r in Hn|].
          intros k Hk. rewrite <-HNC in Hk. apply elem_of_keys_of.
          apply (si_ready _ _ _ _ _ _ _ Hs). apply elem_of_app. by left. }
        unfold awaited_in. by rewrite Hp.
    + right. rewrite bool_decide_eq_false_2 in Hnc by done. split; [auto|].
      destruct (next_task N order Hperm Htopo) as (k & Hk & HkN & Hm).
      { intros Hall. apply Hnot. rewrite <-HNC. apply Nat.le_antisymm.
        - pose proof (notified_bound M _ _ _ _ _ _ Hs). lia.
        - rewrite <-length_keys_of. apply submseteq_length, NoDup_submseteq; [apply NoDup_keys_of|].
          intros k ?%elem_of_keys_of. by apply Hall. }
      pose proof (si_all _ _ _ _ _ _ _ Hs eq_refl k Hk Hm) as Hin. cbn in Hin.
      apply elem_of_app in Hin as [?|HW]; [done|].
      destruct (heap_inv_task d tm M Hwf false N W _ _ k Hh Hk) as
        (a & t & _ & _ & Htm & _ & _ & _ & _ & Hi).
      exists k, a. split; [done|]. apply (ti_running _ _ _ _ _ _ _ _ Hi eq_refl).
      by apply (ti_wait _ _ _ _ _ _ _ _ Hi).
  - intros c cb' owner' Hawc Hcb' Hcalled k Hk.
    destruct (Haw c Hawc) as (_ & cb2 & owner2 & Hcb2 & _ & He').
    rewrite Hcb' in Hcb2. injection Hcb2 as <- <-. rewrite (He' eq_refl) in Hcalled.
    apply bool_decide_eq_true in Hcalled.
    eapply notified_initialized; [done|]. rewrite HNC.
    eapply awaited_counted; [exact Hs|done|done].
Qed.
End Steps.

(** ** Theorems *)

(** C26: the order of a run. For a prepared request that runs alone, [Run]
    returns, and after any sequence of replies, main-thread calls and timeouts: where
    the script engine can start every task and the manager has a configuration, no
    dispatcher has read the map of a manager that is gone; and as long as none has, a
    further reply is always handled; the [init] of a task is called at most once, and
    by then its [onDependencyCompleted] was called exactly once per entry of its
    dependency list when its script object has such a function, and not at all
    otherwise; a task is only reported to its dependents when it is initialized; and
    the completion callback fires at most once, with success only when every task of
    the request is initialized. *)
Theorem dispatch_order (js : string → JsTask) (w : World) (mgr : StartupTaskManager)
    (awp : option Z) :
  runnable w mgr awp →
  ∃ code w1, Manager_Run js w mgr awp = Some (code, w1) ∧
  ∀ w', rtc (dstep js) w1 w' →
    (js_ok js (request_tasks w mgr) → is_Some (config_ mgr) → dangling w' = false) ∧
    (dangling w' = false →
      (∀ a r, is_Some (Complete js w' a r)) ∧
      (∀ l1 k l2, trace w' = l1 ++ EvInit k :: l2 →
         (EvInit k ∉ l1) ∧
         ∀ p, occ (EvDependency k p) l1 =
           if listens js k then occ p (deps_of (request_tasks w mgr) k) else 0%nat) ∧
      (∀ c p, EvDependency c p ∈ trace w' → initialized (tasks_ mgr) w' p) ∧
      ∃ cb owner, callbacks w' !! completion_of w = Some (cb, owner) ∧
        (length (fired_ cb) ≤ 1)%nat ∧
        ∀ r, r ∈ fired_ cb → resultCode_ r = ERR_OK →
          ∀ k, k ∈ dom (tasks_ mgr) → initialized (tasks_ mgr) w' k).
Proof.
  intros Hrq. pose proof (rq_wf _ _ _ Hrq) as Hwf.
  destruct (rq_prepared _ _ _ Hrq) as (res & Hprep & Hsort).
  destruct (Sort_ok_cases _ Hwf res Hsort) as (_ & Hch & _ & _).
  pose proof (dom_request w mgr) as Hdom.
  destruct (Manager_Run_inv js w mgr awp Hrq res Hprep Hsort) as (code & w1 & E & Hrun1).
  exists code, w1. split; [done|]. intros w' Hsteps. apply run_started in Hrun1.
  pose proof (running_steps (RQ := request_of js mgr) js eq_refl _ _ _ _ _ _ Hwf Hdom Hch w1 w' Hsteps Hrun1) as Hrun.
  split.
  { intros Hjs Hcfg. destruct Hrun as (e & N & C & W & dp & _ & _ & Hsound).
    apply Hsound; [done|]. by split_and!. }
  intros _. split.
  { intros a r. by destruct (running_answers (RQ := request_of js mgr) js eq_refl _ _ _ _ _ _ Hwf Hdom Hch w' a r Hrun) as (? & -> & _). }
  destruct Hrun as (e & N & C & W & dp & Hinv & _).
  pose proof Hinv as [Hh Hs Hdp [T1 T2 T3] Hcb _].
  split; [done|]. split.
  - intros c p Hin. eapply notified_initialized; [done|exact Hinv|].
    apply occ_pos in Hin. rewrite T1 in Hin. case_decide; [tauto|lia].
  - destruct Hcb as [(cb & owner & Hcc & _ & Hnc & Hc & _) _ _].
    exists cb, owner. split; [done|]. destruct (isCalled_ cb).
    + destruct (Hc eq_refl) as (r0 & -> & Hall & _). split; [done|].
      intros r ->%list_elem_of_singleton Hok k Hk. rewrite Hdom in Hk.
      by eapply notified_initialized; [..|apply Hall].
    + rewrite (Hnc eq_refl). split; [simpl; lia|]. by intros r ?%not_elem_of_nil.
Qed.

(** C27: a run ends. When the script engine can start every task and every reply
    is a success, [Run] succeeds, and after any number of replies, main-thread
    calls and timeouts of other requests, so until its own timeout expires, no
    dispatcher has read the map of a manager that is gone, and either the completion
    callback has fired, once and with success, all tasks are initialized and the waiting
    main thread was called; or it has not fired and some task of the request still owes
    its reply. After as many replies of its tasks as the request has tasks it has fired.
    The main thread is called only when every task it awaits is initialized. (When the
    timeout of the request expires first, its dispatcher goes with its manager and
    later replies are ignored.) *)
Theorem dispatch_completes (js : string → JsTask) (w : World) (mgr : StartupTaskManager)
    (awp : option Z) :
  runnable w mgr awp → js_ok js (request_tasks w mgr) →
  ∃ w1, Manager_Run js w mgr awp = Some (ERR_OK, w1) ∧
  ∀ n w', run_ok js (startupTaskManagerId_ mgr) (tasks_ mgr) n w1 w' → dangling w' = false ∧
    ∃ cb owner, callbacks w' !! completion_of w = Some (cb, owner) ∧
      ((∃ r, fired_ cb = [r] ∧ resultCode_ r = ERR_OK ∧
          (∀ k, k ∈ dom (tasks_ mgr) → initialized (tasks_ mgr) w' k) ∧
          (∀ c, awp = Some c → ∃ cb' owner', callbacks w' !! c = Some (cb', owner') ∧
             isCalled_ cb' = true)) ∨
       ((n < size (tasks_ mgr))%nat ∧ fired_ cb = [] ∧
          ∃ k a, tasks_ mgr !! k = Some (Some a) ∧ is_Some (replies w' !! a))) ∧
      (∀ c cb' owner', awp = Some c → callbacks w' !! c = Some (cb', owner') →
         isCalled_ cb' = true →
         ∀ k, awaited (request_tasks w mgr) k = true → initialized (tasks_ mgr) w' k).
Proof.
  intros Hrq Hjs. pose proof (rq_wf _ _ _ Hrq) as Hwf.
  destruct (rq_prepared _ _ _ Hrq) as (res & Hprep & Hsort).
  destruct (Sort_ok_cases _ Hwf res Hsort) as (_ & Hch & _ & order & Hperm & Htopo).
  pose proof (dom_request w mgr) as Hdom.
  destruct (Manager_Run_inv js w mgr awp Hrq res Hprep Hsort) as
    (code & w1 & E & e & N & C & W & dp & Hinv & Hrest & Hjsok).
  destruct (Hjsok Hjs) as [-> ->]. exists w1. split; [done|]. intros n w' Hruns.
  assert (on_track (RQ := request_of js mgr) (startupTaskManagerId_ mgr) (completion_of w) awp
    (tasks_ mgr) (request_tasks w mgr) res w1) as Hon1 by (by exists N, C, W, dp).
  destruct (run_ok_progress (RQ := request_of js mgr) js eq_refl _ _ _ _ _ _ Hwf Hdom Hch n w1 w' Hjs Hruns Hon1) as [Hon Hle].
  pose proof (tasks_left_bound (tasks_ mgr) w1) as Hb.
  split; [by eapply on_track_sound|].
  destruct (on_track_end _ _ _ _ _ _ Hwf Hdom order w' Hperm Htopo Hon)
    as (cb & owner & Hcb & Hcases & Haw).
  exists cb, owner. split_and!; [done| |done].
  destruct Hcases as [Hdone|(Hf & k & a & Hk & Ha)]; [by left|right].
  pose proof (on_track_left _ _ _ _ _ _ Hwf Hdom w' k a Hon Hk Ha). split; [lia|eauto].
Qed.

(** The report of a failure, in the world the result was saved in. *)
Lemma OnError_reported w mgr cfg dp name a t c r :
  let id := startupTaskManagerId_ mgr in
  let reported := mkResult (resultCode_ r) (name ++ ": " ++ resultMessage_ r) in
  completedCallback_ dp = Some c →
  callbacks w !! c = Some (OnCompletedCallback_new true, Some mgr) →
  id ∈ dom (startupTaskManagerMap_ (startup w)) → config_ mgr = Some cfg → hasListener_ cfg = true →
  taskMap_ dp !! name = Some (Some a) → tasks_heap w !! a = Some t → result_ t = Some r →
  let w' := OnError w dp name r in
  listenerCalls (startup w') = listenerCalls (startup w) ++ [(id, reported)] ∧
  (id ∉ dom (startupTaskManagerMap_ (startup w'))) ∧ timers w' !! id = None ∧
  callbacks w' !! c = Some (mkOnCompleted true true [reported], Some mgr) ∧
  tasks_heap w' !! a = Some (with_run t (Some reported) (state_ t) (extraCallbacks_ t)) ∧
  posted w' = posted w ++ (if hasMainHandler_ w then [(mainThreadAwaitCallback_ dp, reported)] else []).
Proof.
  intros id reported Hc Hcb Hin Hcfg Hl Htm Ht Hr w'. pose proof (managed_alive w _ Hin) as Halive.
  assert (reported = SetResultMessage r (name ++ ": " ++ GetResultMessage r)) as Erep by done.
  unfold w', OnError. cbv zeta. rewrite <-Erep. unfold share_result. rewrite Htm, Ht, decide_True by done.
  set (w1 := set_task _ _ _). rewrite Hc. unfold Callback_Call. cbn [mbind option_bind].
  change (callbacks w1) with (callbacks w). rewrite Hcb. cbn [fmap option_fmap option_map].
  cbn [OnCompletedCallback_new isCalled_ hasCallbackFunc_ negb andb].
  unfold OnRequestCompleted. change (manager_alive w1 mgr) with (id_alive w id). rewrite Halive.
  cbn [negb]. unfold CallListenerOnCompleted. rewrite Hcfg, Hl.
  assert (GetResultMessage reported ≠ "") as Hmsg by (cbn; by destruct name).
  rewrite bool_decide_eq_false_2 by done. unfold OnStartupTaskManagerComplete.
  apply elem_of_dom in Hin as [m Hm]. unfold id in Hm.
  unfold PostMainThreadTask, tasks_heap. cbn -[lookup insert delete dom].
  destruct (hasMainHandler_ w); cbn -[lookup insert delete dom];
    rewrite !Hm; cbn -[lookup insert delete dom];
    rewrite ?app_nil_r, ?lookup_insert_eq, ?lookup_delete_eq;
    split_and!; try done; by rewrite dom_delete_L, elem_of_difference, elem_of_singleton; intros [_ []].
Qed.

Lemma OnError_held w dp name r : held_ (OnError w dp name r) = held_ w.
Proof.
  unfold OnError. cbv zeta. set (r' := SetResultMessage _ _). set (w1 := share_result _ _ _ _ _).
  transitivity (held_ (Callback_Call w1 (completedCallback_ dp) r')).
  { unfold PostMainThreadTask. by destruct (hasMainHandler_ _). }
  rewrite (proj1 (Callback_Call_life w1 _ r')). unfold w1, share_result. by repeat case_match.
Qed.

(** A manager that is not registered is gone once nobody runs it. *)
Lemma release_unheld w id :
  (id ∉ dom (startupTaskManagerMap_ (startup w))) → held_ w ≠ Some id →
  dispatchers (release_dead w) !! id = None.
Proof.
  intros Hin Hheld. apply map_lookup_filter_None. right. intros dp _. cbn.
  unfold id_alive, map_alive. by rewrite !bool_decide_eq_false_2.
Qed.

(** C28: a failed task is reported. When the reply of a task of a running request is
    a failure, the task is waited for by this request only, the manager is registered
    and has a configuration with a listener, and the completion callback has not fired,
    then the listener is called once with the code of the failure and its message
    prefixed by the task's name, the request is dropped and its timeout cancelled, its
    dispatcher is gone unless the manager is still running it, the task can be started
    again, and the waiting main thread is called with the same result. *)
Theorem failed_task_reported (js : string → JsTask) (w : World) (mgr : StartupTaskManager)
    (cfg : StartupConfig) (dp : StartupTaskDispatcher) (name : string) (a : Z)
    (t : StartupTask) (c : Z) (r : StartupTaskResult) :
  let id := startupTaskManagerId_ mgr in
  let reported := mkResult (resultCode_ r) (name ++ ": " ++ resultMessage_ r) in
  replies w !! a = Some (id, name) → tasks_heap w !! a = Some t → extraCallbacks_ t = [] →
  dispatchers w !! id = Some dp → taskMap_ dp !! name = Some (Some a) →
  completedCallback_ dp = Some c →
  callbacks w !! c = Some (OnCompletedCallback_new true, Some mgr) →
  id ∈ dom (startupTaskManagerMap_ (startup w)) → config_ mgr = Some cfg → hasListener_ cfg = true →
  resultCode_ r ≠ ERR_OK →
  ∃ w', Complete js w a r = Some w' ∧
    listenerCalls (startup w') = listenerCalls (startup w) ++ [(id, reported)] ∧
    (id ∉ dom (startupTaskManagerMap_ (startup w'))) ∧ timers w' !! id = None ∧
    (held_ w ≠ Some id → dispatchers w' !! id = None) ∧
    (∃ t', tasks_heap w' !! a = Some t' ∧ state_ t' = CREATED ∧ result_ t' = Some reported) ∧
    posted w' = posted w ++ (if hasMainHandler_ w then [(mainThreadAwaitCallback_ dp, reported)] else []).
Proof.
  intros id reported Hrp Ht Hex Hd Htm Hc Hcb Halive Hcfg Hl Hbad. unfold Complete. rewrite Hrp.
  set (w0 := w <| replies ::= delete a |>).
  rewrite (TaskCallback_Call_eq _ w0 a id name r t Ht), Hex. cbn [app run_callbacks].
  rewrite current_result_saved. set (w1 := set_task _ _ _). unfold dispatch_fuel.
  cbn [Dispatch]. change (dispatchers w1) with (dispatchers w). rewrite Hd.
  unfold GetResultCode. rewrite (proj2 (Z.eqb_neq _ _) Hbad). cbn [negb].
  eexists. split; [done|].
  destruct (OnError_reported w1 mgr cfg dp name a (CallExtraCallback (SaveResult t (Some r))).2 c r)
    as (H1 & H2 & H3 & _ & H4 & H5); try done.
  { unfold tasks_heap. cbn. by rewrite lookup_insert_eq. }
  split_and!; try done.
  - intros Hheld. apply release_unheld; [done|]. by rewrite OnError_held.
  - eexists. split; [exact H4|]. split; [|done].
    cbn. unfold GetResultCode. by rewrite (proj2 (Z.eqb_neq _ _) Hbad).
Qed.

(** A failed start on the task pool is silent. When a task that runs on the
    task pool cannot be handed to it, starting it returns an error and only marks
    the task as INITIALIZING: no callback of the request runs and no reply is
    owed. A later start of the task, for this or another request, is then accepted
    and waits for the reply that does not come. *)
Theorem pool_start_failure_is_silent (js : string → JsTask) (dispatch : Dispatcher) (w : World)
    (d : Z) (name : string) (a : Z) (t : StartupTask) :
  state_ t = CREATED → callCreateOnMainThread_ t = false →
  excutorLoads (js (name_ t)) = false ∨ RunOnTaskPool (js (name_ t)) ≠ ERR_OK →
  let t1 := with_run t (result_ t) INITIALIZING (extraCallbacks_ t) in
  ∃ code, code ≠ ERR_OK ∧ RunTaskInit js dispatch w d name a t = Some (code, set_task w a t1) ∧
    ∀ w' d' name', RunTaskInit js dispatch w' d' name' a t1 =
      Some (ERR_OK, set_task w' a
        (with_run t1 (result_ t1) INITIALIZING (extraCallbacks_ t1 ++ [(d', name')]))).
Proof.
  intros Hst Hmain Hfail t1.
  assert (∃ code, code ≠ ERR_OK ∧
    RunTaskInit js dispatch w d name a t = Some (code, set_task w a t1)) as (code & Hne & E).
  { unfold RunTaskInit, GetState, Js_RunTaskInit. rewrite Hst, Hmain. cbn [negb].
    rewrite bool_decide_eq_true_2 by done. cbn [negb].
    destruct (excutorLoads (js (name_ t))); cbn [negb];
      [|by exists ERR_STARTUP_INTERNAL_ERROR].
    destruct Hfail as [?|Hp]; [done|]. rewrite (proj2 (Z.eqb_neq _ _) Hp).
    by exists (RunOnTaskPool (js (name_ t))). }
  exists code. split_and!; [done|done|]. intros w' d' name'. done.
Qed.

(** ** A concrete request *)

Definition js_fine (_ : string) : JsTask :=
  mkJsTask true true true true true true true true true true true true true.

Definition ex_sorted : StartupSortResult :=
  from_option snd (mkSortResult ∅ []) (Sort (view ex_heap (tasks_ ex_mgr))).

Definition ex_prepared : StartupTaskManager :=
  mkTaskManager 0 (Some (mkConfig 10000 true)) (Some ex_sorted) (tasks_ ex_mgr).

(** The main thread waits with callback [7]. *)
Definition ex_world : World :=
  mkWorld ex_startup' ∅ {[ 7 := (OnCompletedCallback_new true, None) ]} ∅ ∅ true [] [] None false.

Lemma ex_runnable : runnable ex_world ex_prepared (Some 7).
Proof.
  assert (map_Forall (λ _ t, extraCallbacks_ t = [] ∧ state_ t = CREATED) ex_heap) as Hall
    by (apply (bool_decide_unpack _); vm_compute; exact I).
  split; try done.
  - apply tasks_wfb_sound. vm_compute. reflexivity.
  - exists ex_sorted. split; [done|]. vm_compute. reflexivity.
  - intros a. cbn [replies ex_world]. rewrite lookup_empty, app_nil_r.
    change (tasks_heap ex_world) with ex_heap. destruct (ex_heap !! a) as [t|] eqn:E; [|done].
    cbn. by destruct (Hall a t E) as [-> _].
  - intros k a t _ E. destruct (Hall a t E) as [_ ->].
    split_and!; [done|done|]. cbn [replies ex_world]. rewrite lookup_empty.
    split; [by intros [? ?]|done].
  - intros c [= <-]. by exists (OnCompletedCallback_new true).
Qed.

Lemma dispatch_order_witness :
  runnable ex_world ex_prepared (Some 7) ∧
  ∃ code w1, Manager_Run js_fine ex_world ex_prepared (Some 7) = Some (code, w1) ∧
    dangling w1 = false ∧ ∀ a r, is_Some (Complete js_fine w1 a r).
Proof.
  split; [exact ex_runnable|].
  destruct (dispatch_order js_fine ex_world ex_prepared (Some 7) ex_runnable) as (code & w1 & E & H).
  destruct (H w1 (rtc_refl _ _)) as [H1 H2].
  assert (dangling w1 = false) as Hd by (apply H1; [intros k _; by split_and!|by eexists]).
  exists code, w1. split; [exact E|]. split; [exact Hd|]. exact (proj1 (H2 Hd)).
Defined.

Lemma dispatch_completes_witness :
  js_ok js_fine (request_tasks ex_world ex_prepared) ∧
  ∃ w1, Manager_Run js_fine ex_world ex_prepared (Some 7) = Some (ERR_OK, w1) ∧
  ∀ n w', run_ok js_fine 0 (tasks_ ex_prepared) n w1 w' → (4 ≤ n)%nat →
    ∃ cb owner, callbacks w' !! completion_of ex_world = Some (cb, owner) ∧ fired_ cb ≠ [].
Proof.
  assert (js_ok js_fine (request_tasks ex_world ex_prepared)) as Hjs by (intros k _; by split_and!).
  split; [exact Hjs|].
  destruct (dispatch_completes js_fine ex_world ex_prepared (Some 7) ex_runnable Hjs) as (w1 & E & H).
  exists w1. split; [exact E|]. intros n w' Hw Hn.
  assert (size (tasks_ ex_prepared) = 4%nat) as Hsz by (vm_compute; reflexivity).
  destruct (H n w' Hw) as (_ & cb & owner & Hcb & [(r & Hr & _)|(Hlt & _)] & _); [|lia].
  exists cb, owner. split; [exact Hcb|by rewrite Hr].
Defined.

(** The world after [Run]: [base] and [log] were started. *)
Definition ex_running : World :=
  from_option snd ex_world (Manager_Run js_fine ex_world ex_prepared (Some 7)).

Lemma failed_task_reported_witness :
  ∃ w', Complete js_fine ex_running 1 (mkResult ERR_STARTUP_FAILED_TO_EXECUTE_STARTUP "rejected") = Some w' ∧
    listenerCalls (startup w') =
      [(0, mkResult ERR_STARTUP_FAILED_TO_EXECUTE_STARTUP "base: rejected")].
Proof.
  destruct (dispatchers ex_running !! 0) as [dp|] eqn:Edp; [|by vm_compute in Edp].
  destruct (tasks_heap ex_running !! 1) as [t|] eqn:Et; [|by vm_compute in Et].
  destruct (failed_task_reported js_fine ex_running ex_prepared (mkConfig 10000 true) dp "base" 1 t 8
    (mkResult ERR_STARTUP_FAILED_TO_EXECUTE_STARTUP "rejected")) as (w' & E & Hl & _);
    [vm_compute; reflexivity|exact Et| |exact Edp| | |vm_compute; reflexivity
    |apply (bool_decide_unpack _); vm_compute; exact I|reflexivity|reflexivity|discriminate|].
  - vm_compute in Et. by injection Et as <-.
  - vm_compute in Edp. by injection Edp as <-.
  - vm_compute in Edp. by injection Edp as <-.
  - exists w'. split; [exact E|]. rewrite Hl. vm_compute. reflexivity.
Defined.

(** A task whose [init] must run on the task pool, which cannot be loaded. *)
Definition ex_pool_js (k : string) : JsTask :=
  if bool_decide (k = "net")
  then mkJsTask true true true true true true false true true true true true true
  else js_fine k.

Definition ex_pool_world : World :=
  ex_world <| startup ::= λ s, with_heap s
    (<[2 := SetCallCreateOnMainThread (ex_task "net" ["base"]) false]> (heap s)) |>.

Lemma pool_start_failure_is_silent_witness :
  ∃ code, code ≠ ERR_OK ∧
    RunTaskInit ex_pool_js (Dispatch ex_pool_js 5) ex_pool_world 0 "net" 2
      (SetCallCreateOnMainThread (ex_task "net" ["base"]) false) =
    Some (code, set_task ex_pool_world 2
      (with_run (SetCallCreateOnMainThread (ex_task "net" ["base"]) false) None INITIALIZING [])).
Proof.
  destruct (pool_start_failure_is_silent ex_pool_js (Dispatch ex_pool_js 5) ex_pool_world 0 "net" 2
    (SetCallCreateOnMainThread (ex_task "net" ["base"]) false)) as (code & Hne & E & _);
    [reflexivity|reflexivity|left; reflexivity|].
  exists code. split; [exact Hne|exact E].
Defined.

(** In a run: after [base] succeeded, the start of [net] failed, but the request
    is neither completed nor failed, nothing is posted to the main thread, no
    reply of [net] is owed; only the timeout is left. *)
Example pool_start_failure_example :
  match Manager_Run ex_pool_js ex_pool_world ex_prepared (Some 7) with
  | Some (code, w1) =>
    match Complete ex_pool_js w1 1 (mkResult ERR_OK "") with
    | Some w2 =>
      (code, listenerCalls (startup w2), posted w2, replies w2 !! 2,
       state_ <$> tasks_heap w2 !! 2, snd <$> timers w2 !! 0) =
      (ERR_OK, [], [], None, Some INITIALIZING, Some 10000)
    | None => False
    end
  | None => False
  end.
Proof. vm_compute. reflexivity. Qed.

(** *** The map of a manager that is gone

    [mid] is initialized from an earlier request, and [leaf], which depends on it, has no
    [init]. When [base] succeeds, [mid] is dispatched at once, and with it the failed start of
    [leaf], which ends the request: its manager is dropped. Back in the [Dispatch] of [base],
    the iterator into the map of that manager is read. *)
Definition ex_no_init_js (k : string) : JsTask :=
  if bool_decide (k = "leaf")
  then mkJsTask true true true false false true true true true true true true true
  else js_fine k.

Definition ex_nested_mgr : StartupTaskManager :=
  let h : gmap Z StartupTask :=
    {[ 1 := ex_task "base" [];
       2 := with_run (ex_task "mid" ["base"]) (Some (mkResult ERR_OK "")) INITIALIZED [];
       3 := ex_task "leaf" ["mid"] ]} in
  let tm : PtrMap := {[ "base" := Some 1; "mid" := Some 2; "leaf" := Some 3 ]} in
  mkTaskManager 0 (Some (mkConfig 10000 true)) (snd <$> Sort (view h tm)) tm.

Definition ex_nested_world : World :=
  ex_world <| startup ::= λ s, with_heap (with_managers s {[ 0 := ex_nested_mgr ]} 1)
    {[ 1 := ex_task "base" [];
       2 := with_run (ex_task "mid" ["base"]) (Some (mkResult ERR_OK "")) INITIALIZED [];
       3 := ex_task "leaf" ["mid"] ]} |>.

Example dangling_map :
  match Manager_Run ex_no_init_js ex_nested_world ex_nested_mgr (Some 7) with
  | Some (code, w1) =>
    match Complete ex_no_init_js w1 1 (mkResult ERR_OK "") with
    | Some w2 => (code, dangling w1, dangling w2) = (ERR_OK, false, true)
    | None => False
    end
  | None => False
  end.
Proof. vm_compute. reflexivity. Qed.
