(* ===== verification/MissionInfo.v ===== *)
(** * Mission information and its serialised forms

    [services/abilitymgr/src/inner_mission_info.cpp], [inner_mission_info.h],
    [mission_info.cpp] and [interfaces/inner_api/ability_manager/include/
    mission_info.h]: the records of a mission, their JSON form with its field
    checks, the transfer object and the parcel form.

    [Want], the JSON library and the parcel are code outside the repository:
    they are the classes [WantLib], [JsonLib] and [ParcelLib], whose laws are
    the documented behaviour the round trips rely on. *)

From stdpp Require Import prelude gmap strings list pretty.
From Stdlib Require Import ZArith Lia Ascii.
From S2P Require Import Prelude.

(** ** Wants: the part of [Want] the mission code calls *)

Class WantLib := {
  Want : Type;
  want_GetBoolParam : Want → string → bool → bool;
  want_ToUri : Want → string;
  want_ParseUri : string → option Want;
  PARAM_RESV_CALL_TO_FOREGROUND : string;
}.

(** ** JSON values as the mission code sees them

    [JFloat] carries the integer the number converts to; [JOther] stands for
    null, arrays and nested objects, which no field check accepts. *)

Inductive jnode :=
| JBool (b : bool)
| JInt (z : Z)
| JFloat (truncated : Z)
| JString (s : string)
| JOther.

(** A parsed text: an object, or a value that has no members. *)
Inductive json :=
| JObject (fields : gmap string jnode)
| JNotObject.

Inductive JsonType := NULLABLE | BOOLEAN | NUMBER | OBJECT | ARRAY | STRING.

Definition json_find (value : json) (key : string) : option jnode :=
  match value with
  | JObject fields => fields !! key
  | JNotObject => None
  end.

(** The assignment [value[key] = n], which turns a fresh value into an object. *)
Definition json_set (key : string) (n : jnode) (value : json) : json :=
  match value with
  | JObject fields => JObject (<[key := n]> fields)
  | JNotObject => JObject {[key := n]}
  end.

(** The conversions [get<std::string>()], [get<int32_t>()] and [get<bool>()],
    applied to a node whose type was checked. *)
Definition get_string (value : json) (key : string) : string :=
  match json_find value key with Some (JString s) => s | _ => "" end.
Definition get_int32 (value : json) (key : string) : Z :=
  match json_find value key with
  | Some (JInt z) => i32 z
  | Some (JFloat z) => z
  | _ => 0%Z
  end.
Definition get_bool (value : json) (key : string) : bool :=
  match json_find value key with Some (JBool b) => b | _ => false end.

Definition jnode_strings (n : jnode) : list string :=
  match n with JString s => [s] | _ => [] end.

Definition json_utf8 (valid : string → bool) (value : json) : Prop :=
  match value with
  | JObject fields => map_Forall (λ _ n, Forall (λ s, valid s = true) (jnode_strings n)) fields
  | JNotObject => True
  end.

(** The JSON library: [dump] of a value whose strings are valid UTF-8 is a
    non-empty text that parses back to the value. The keys of the program are
    ASCII literals. *)
Class JsonLib := {
  json_dump : json → string;
  json_parse : string → option json;
  valid_utf8 : string → bool;
  json_dump_nonempty : ∀ v, json_dump v ≠ "";
  json_parse_dump : ∀ v,
    json_utf8 valid_utf8 v → json_parse (json_dump v) = Some v;
}.

(** ** The records *)

Section Records.
Context {WL : WantLib}.

Record MissionInfo := mkMissionInfo {
  id : Z;
  runningState : Z;
  lockedState : bool;
  continuable : bool;
  time : string;
  label : string;
  iconPath : string;
  want : Want;
  abilityState : Z;
  unclearable : bool;
  continueState : Z;
}.

#[global] Instance MissionInfo_reconstruct : Reconstruct MissionInfo := λ m,
  mkMissionInfo (id m) (runningState m) (lockedState m) (continuable m) (time m)
    (label m) (iconPath m) (want m) (abilityState m) (unclearable m) (continueState m).

Record InnerMissionInfo := mkInnerMissionInfo {
  missionInfo : MissionInfo;
  missionName : string;
  missionAffinity : string;
  launchMode : Z;
  startMethod : Z;
  bundleName : string;
  uid : Z;
  isTemporary : bool;
  specifiedFlag : string;
  hasRecoverInfo : bool;
  collaboratorType : Z;
}.

#[global] Instance InnerMissionInfo_reconstruct : Reconstruct InnerMissionInfo := λ i,
  mkInnerMissionInfo (missionInfo i) (missionName i) (missionAffinity i) (launchMode i)
    (startMethod i) (bundleName i) (uid i) (isTemporary i) (specifiedFlag i)
    (hasRecoverInfo i) (collaboratorType i).

(** The transfer object carries the same fields. *)
Record InnerMissionInfoDto := mkDto {
  dto_missionInfo : MissionInfo;
  dto_missionName : string;
  dto_missionAffinity : string;
  dto_launchMode : Z;
  dto_startMethod : Z;
  dto_bundleName : string;
  dto_uid : Z;
  dto_isTemporary : bool;
  dto_specifiedFlag : string;
  dto_hasRecoverInfo : bool;
  dto_collaboratorType : Z;
}.

Definition UpdateMissionInfoFromDto (self : InnerMissionInfo) (info : InnerMissionInfoDto)
    : InnerMissionInfo :=
  self <| missionInfo := dto_missionInfo info |>
       <| missionName := dto_missionName info |>
       <| missionAffinity := dto_missionAffinity info |>
       <| launchMode := dto_launchMode info |>
       <| startMethod := dto_startMethod info |>
       <| bundleName := dto_bundleName info |>
       <| uid := dto_uid info |>
       <| isTemporary := dto_isTemporary info |>
       <| specifiedFlag := dto_specifiedFlag info |>
       <| hasRecoverInfo := dto_hasRecoverInfo info |>
       <| collaboratorType := dto_collaboratorType info |>.

Definition ConvertInnerMissionInfoDto (self : InnerMissionInfo) : InnerMissionInfoDto :=
  mkDto (missionInfo self) (missionName self) (missionAffinity self) (launchMode self)
    (startMethod self) (bundleName self) (uid self) (isTemporary self) (specifiedFlag self)
    (hasRecoverInfo self) (collaboratorType self).

Lemma dto_roundtrip (self other : InnerMissionInfo) :
  UpdateMissionInfoFromDto other (ConvertInnerMissionInfoDto self) = self.
Proof. by destruct self. Qed.

Definition bool_to_string (b : bool) : string := if b then "1" else "0".

Definition InnerMissionInfo_Dump (self : InnerMissionInfo) (info : list string) : list string :=
  let m := missionInfo self in
  info ++
  ["      Mission ID #" +:+ pretty (id m);
   "        mission name [" +:+ missionName self +:+ "]";
   "        runningState [" +:+ pretty (runningState m) +:+ "]";
   "        lockedState [" +:+ bool_to_string (lockedState m) +:+ "]";
   "        continuable [" +:+ bool_to_string (continuable m) +:+ "]";
   "        timeStamp [" +:+ time m +:+ "]";
   "        label [" +:+ label m +:+ "]";
   "        iconPath [" +:+ iconPath m +:+ "]";
   "        want [" +:+ want_ToUri (want m) +:+ "]"].
End Records.

(** ** JSON form *)

Section JsonForm.
Context {WL : WantLib} {JL : JsonLib}.

Definition KEY_MISSION_NAME : string := "MissionName".
Definition KEY_LAUNCH_MODE : string := "LaunchMode".
Definition KEY_MISSION_ID : string := "MissionId".
Definition KEY_RUNNING_STATE : string := "RunningState".
Definition KEY_LOCKED_STATE : string := "LockedState".
Definition KEY_CONTINUABLE : string := "Continuable".
Definition KEY_TIME : string := "Time".
Definition KEY_LABEL : string := "Label".
Definition KEY_ICON_PATH : string := "IconPath".
Definition KEY_WANT : string := "Want".
Definition KEY_START_METHOD : string := "StartMethod".
Definition KEY_BUNDLE_NAME : string := "BundleName".
Definition KEY_UID : string := "Uid".
Definition KEY_IS_TEMPORARY : string := "IsTemporary".
Definition KEY_SPEC_FLAG : string := "SpecFlag".
Definition KEY_HAS_RECONER_INFO : string := "hasRecoverInfo".

Definition json_value (self : InnerMissionInfo) : json :=
  let m := missionInfo self in
  json_set KEY_HAS_RECONER_INFO (JBool (hasRecoverInfo self)) $
  json_set KEY_WANT (JString (want_ToUri (want m))) $
  json_set KEY_ICON_PATH (JString (iconPath m)) $
  json_set KEY_LABEL (JString (label m)) $
  json_set KEY_TIME (JString (time m)) $
  json_set KEY_CONTINUABLE (JBool (continuable m)) $
  json_set KEY_LOCKED_STATE (JBool (lockedState m)) $
  json_set KEY_RUNNING_STATE (JInt (runningState m)) $
  json_set KEY_MISSION_ID (JInt (id m)) $
  json_set KEY_SPEC_FLAG (JString (specifiedFlag self)) $
  json_set KEY_UID (JInt (uid self)) $
  json_set KEY_START_METHOD (JInt (startMethod self)) $
  json_set KEY_BUNDLE_NAME (JString (bundleName self)) $
  json_set KEY_IS_TEMPORARY (JBool (isTemporary self)) $
  json_set KEY_LAUNCH_MODE (JInt (launchMode self)) $
  json_set KEY_MISSION_NAME (JString (missionName self)) JNotObject.

Definition ToJsonStr (self : InnerMissionInfo) : string := json_dump (json_value self).

Definition CheckJsonNode (value : json) (node : string) (jsonType : JsonType) : bool :=
  match json_find value node with
  | None => false
  | Some n =>
      match jsonType, n with
      | NUMBER, (JInt _ | JFloat _) => true
      | STRING, JString _ => true
      | BOOLEAN, JBool _ => true
      | _, _ => false
      end
  end.

(** The successive checks and assignments: the fields read before a failing
    check keep their new values. *)
Definition read_node (value : json) (node : string) (jsonType : JsonType)
    (step : InnerMissionInfo → InnerMissionInfo)
    (k : InnerMissionInfo → bool * InnerMissionInfo) (self : InnerMissionInfo)
    : bool * InnerMissionInfo :=
  if CheckJsonNode value node jsonType then k (step self) else (false, self).

Definition FromJsonStr (self : InnerMissionInfo) (jsonStr : string) : bool * InnerMissionInfo :=
  if String.eqb jsonStr "" then (false, self) else
  match json_parse jsonStr with
  | None => (false, self)
  | Some v =>
      read_node v KEY_MISSION_NAME STRING (λ i, i <| missionName := get_string v KEY_MISSION_NAME |>) (
      read_node v KEY_LAUNCH_MODE NUMBER (λ i, i <| launchMode := get_int32 v KEY_LAUNCH_MODE |>) (
      read_node v KEY_IS_TEMPORARY BOOLEAN (λ i, i <| isTemporary := get_bool v KEY_IS_TEMPORARY |>) (
      read_node v KEY_START_METHOD NUMBER (λ i, i <| startMethod := get_int32 v KEY_START_METHOD |>) (
      read_node v KEY_BUNDLE_NAME STRING (λ i, i <| bundleName := get_string v KEY_BUNDLE_NAME |>) (
      read_node v KEY_UID NUMBER (λ i, i <| uid := get_int32 v KEY_UID |>) (
      read_node v KEY_SPEC_FLAG STRING (λ i, i <| specifiedFlag := get_string v KEY_SPEC_FLAG |>) (
      read_node v KEY_MISSION_ID NUMBER
        (λ i, i <| missionInfo ::= (λ m, m <| id := get_int32 v KEY_MISSION_ID |>) |>) (
      read_node v KEY_RUNNING_STATE NUMBER
        (λ i, i <| missionInfo ::= (λ m, m <| runningState := get_int32 v KEY_RUNNING_STATE |>) |>) (
      read_node v KEY_LOCKED_STATE BOOLEAN
        (λ i, i <| missionInfo ::= (λ m, m <| lockedState := get_bool v KEY_LOCKED_STATE |>) |>) (
      read_node v KEY_CONTINUABLE BOOLEAN
        (λ i, i <| missionInfo ::= (λ m, m <| continuable := get_bool v KEY_CONTINUABLE |>) |>) (
      read_node v KEY_TIME STRING
        (λ i, i <| missionInfo ::= (λ m, m <| time := get_string v KEY_TIME |>) |>) (
      read_node v KEY_LABEL STRING
        (λ i, i <| missionInfo ::= (λ m, m <| label := get_string v KEY_LABEL |>) |>) (
      read_node v KEY_ICON_PATH STRING
        (λ i, i <| missionInfo ::= (λ m, m <| iconPath := get_string v KEY_ICON_PATH |>) |>) (
      read_node v KEY_WANT STRING (λ i, i) (
      read_node v KEY_HAS_RECONER_INFO BOOLEAN
        (λ i, i <| hasRecoverInfo := get_bool v KEY_HAS_RECONER_INFO |>) (
      λ i,
        match want_ParseUri (get_string v KEY_WANT) with
        | Some w => (true, i <| missionInfo ::= (λ m, m <| want := w |>) |>)
        | None => (true, i)
        end)))))))))))))))) self
  end.

(** *** The round trip *)

(** The nodes the reader wants, with the type it checks. *)
Definition json_schema : list (string * JsonType) :=
  [(KEY_MISSION_NAME, STRING); (KEY_LAUNCH_MODE, NUMBER); (KEY_IS_TEMPORARY, BOOLEAN);
   (KEY_START_METHOD, NUMBER); (KEY_BUNDLE_NAME, STRING); (KEY_UID, NUMBER);
   (KEY_SPEC_FLAG, STRING); (KEY_MISSION_ID, NUMBER); (KEY_RUNNING_STATE, NUMBER);
   (KEY_LOCKED_STATE, BOOLEAN); (KEY_CONTINUABLE, BOOLEAN); (KEY_TIME, STRING);
   (KEY_LABEL, STRING); (KEY_ICON_PATH, STRING); (KEY_WANT, STRING);
   (KEY_HAS_RECONER_INFO, BOOLEAN)].

(** What a reader that starts from [other] recovers of [self]: five fields are
    not written, and the want goes through its URI. *)
Definition persisted (other self : InnerMissionInfo) : InnerMissionInfo :=
  self <| missionAffinity := missionAffinity other |>
       <| collaboratorType := collaboratorType other |>
       <| missionInfo :=
            (missionInfo self)
              <| want := default (want (missionInfo other))
                           (want_ParseUri (want_ToUri (want (missionInfo self)))) |>
              <| abilityState := abilityState (missionInfo other) |>
              <| unclearable := unclearable (missionInfo other) |>
              <| continueState := continueState (missionInfo other) |> |>.

Definition is_int32 (z : Z) : bool := ((-2147483648 <=? z) && (z <=? INT_MAX))%Z.

Definition int32_fields (self : InnerMissionInfo) : bool :=
  forallb is_int32
    [launchMode self; startMethod self; uid self; id (missionInfo self); runningState (missionInfo self)].

Definition utf8_fields (self : InnerMissionInfo) : bool :=
  forallb valid_utf8
    [missionName self; bundleName self; specifiedFlag self; time (missionInfo self);
     label (missionInfo self); iconPath (missionInfo self); want_ToUri (want (missionInfo self))].

Lemma is_int32_i32 (z : Z) : is_int32 z = true → i32 z = z.
Proof. unfold is_int32. intros. apply i32_small. lia. Qed.

Lemma json_value_find (self : InnerMissionInfo) :
  let m := missionInfo self in
  Forall (λ kn, json_find (json_value self) kn.1 = Some kn.2)
    [(KEY_MISSION_NAME, JString (missionName self)); (KEY_LAUNCH_MODE, JInt (launchMode self));
     (KEY_IS_TEMPORARY, JBool (isTemporary self)); (KEY_START_METHOD, JInt (startMethod self));
     (KEY_BUNDLE_NAME, JString (bundleName self)); (KEY_UID, JInt (uid self));
     (KEY_SPEC_FLAG, JString (specifiedFlag self)); (KEY_MISSION_ID, JInt (id m));
     (KEY_RUNNING_STATE, JInt (runningState m)); (KEY_LOCKED_STATE, JBool (lockedState m));
     (KEY_CONTINUABLE, JBool (continuable m)); (KEY_TIME, JString (time m));
     (KEY_LABEL, JString (label m)); (KEY_ICON_PATH, JString (iconPath m));
     (KEY_WANT, JString (want_ToUri (want m))); (KEY_HAS_RECONER_INFO, JBool (hasRecoverInfo self))].
Proof. repeat (constructor; [vm_compute; reflexivity|]). constructor. Qed.

Lemma json_set_utf8 (key : string) (n : jnode) (v : json) :
  Forall (λ s, valid_utf8 s = true) (jnode_strings n) →
  json_utf8 valid_utf8 v → json_utf8 valid_utf8 (json_set key n v).
Proof.
  destruct v as [fields|]; simpl; intros Hn Hv; [by apply map_Forall_insert_2|].
  by apply map_Forall_singleton.
Qed.

Lemma json_value_utf8 (self : InnerMissionInfo) :
  utf8_fields self = true → json_utf8 valid_utf8 (json_value self).
Proof.
  intros H. unfold utf8_fields in H. simpl in H. rewrite !andb_true_iff in H.
  destruct H as (?&?&?&?&?&?&?&_).
  unfold json_value. do 16 (apply json_set_utf8; [simpl; by repeat (constructor || done)|]). exact I.
Qed.

(** The nodes a type of the schema stands for. *)
Inductive node_has_type : jnode → JsonType → Prop :=
| int_is_number z : node_has_type (JInt z) NUMBER
| float_is_number z : node_has_type (JFloat z) NUMBER
| string_is_string str : node_has_type (JString str) STRING
| bool_is_boolean b : node_has_type (JBool b) BOOLEAN.

Lemma CheckJsonNode_iff v node ty :
  CheckJsonNode v node ty = true ↔ ∃ n, json_find v node = Some n ∧ node_has_type n ty.
Proof.
  unfold CheckJsonNode. split.
  - intros H. repeat case_match; try done; eexists; split; try done; constructor.
  - intros (n & -> & Hn). by destruct Hn.
Qed.

Lemma read_node_accepts v node ty step k self :
  (read_node v node ty step k self).1 = true ↔
  CheckJsonNode v node ty = true ∧ (k (step self)).1 = true.
Proof. unfold read_node. destruct (CheckJsonNode v node ty); naive_solver. Qed.

(** A mission written as JSON is read back. *)
Lemma json_form_roundtrip (self other : InnerMissionInfo) :
  int32_fields self = true → utf8_fields self = true →
  FromJsonStr other (ToJsonStr self) = (true, persisted other self).
Proof.
  intros Hint Hutf. unfold FromJsonStr, ToJsonStr.
  destruct (String.eqb_spec (json_dump (json_value self)) "") as [He|_];
    [by apply json_dump_nonempty in He|].
  rewrite json_parse_dump by (by apply json_value_utf8).
  pose proof (json_value_find self) as Hf. cbv zeta in Hf. rewrite !Forall_cons in Hf.
  destruct Hf as (H1&H2&H3&H4&H5&H6&H7&H8&H9&H10&H11&H12&H13&H14&H15&H16&_).
  unfold int32_fields in Hint. cbn [forallb] in Hint. rewrite !andb_true_iff in Hint.
  destruct Hint as (?&?&?&?&?&_).
  unfold read_node, CheckJsonNode, get_string, get_int32, get_bool. cbn [fst snd] in *.
  rewrite H1, H2, H3, H4, H5, H6, H7, H8, H9, H10, H11, H12, H13, H14, H15, H16.
  rewrite !is_int32_i32 by done. unfold persisted.
  destruct (want_ParseUri (want_ToUri (want (missionInfo self)))); destruct self as [[]]; reflexivity.
Qed.

(** C6: reading back the text of a mission gives the mission, except for the
    fields the text does not carry and the want, which goes through its URI. *)
Theorem FromJsonStr_ToJsonStr (self other : InnerMissionInfo) :
  int32_fields self = true → utf8_fields self = true →
  FromJsonStr other (ToJsonStr self) = (true, persisted other self).
Proof. apply json_form_roundtrip. Qed.

(** C7: the reader accepts exactly the non-empty texts that parse to an object
    in which each of the sixteen nodes is present with its type. *)
Theorem FromJsonStr_accepts (self : InnerMissionInfo) (jsonStr : string) :
  (FromJsonStr self jsonStr).1 = true ↔
  jsonStr ≠ "" ∧
  ∃ v, json_parse jsonStr = Some v ∧
       Forall (λ nt, ∃ n, json_find v nt.1 = Some n ∧ node_has_type n nt.2) json_schema.
Proof.
  setoid_rewrite <-CheckJsonNode_iff.
  unfold FromJsonStr. destruct (String.eqb_spec jsonStr "") as [->|Hne]; [naive_solver|].
  destruct (json_parse jsonStr) as [v|]; [|naive_solver].
  rewrite !read_node_accepts. split.
  - intros H. split; [done|]. exists v. split; [done|].
    unfold json_schema. rewrite !Forall_cons, Forall_nil. simpl. tauto.
  - intros (_ & ? & [= <-] & H). unfold json_schema in H.
    rewrite !Forall_cons in H. simpl in H.
    destruct (want_ParseUri (get_string v KEY_WANT)); simpl; tauto.
Qed.
End JsonForm.

(** ** Parcel form ([mission_info.cpp])

    A parcel is a queue of typed items: a write that succeeds appends an item, a
    read of the type of the first unread item takes it. A read of another type
    is not specified. *)

Inductive parcel_item (W S : Type) :=
| PInt32 (z : Z)
| PBool (b : bool)
| PString16 (s : S)
| PParcelable (w : W).
Arguments PInt32 {W S} _.
Arguments PBool {W S} _.
Arguments PString16 {W S} _.
Arguments PParcelable {W S} _.

Class ParcelLib {WL : WantLib} := {
  Parcel : Type;
  string16 : Type;
  Str8ToStr16 : string → string16;
  Str16ToStr8 : string16 → string;
  WriteInt32 : Z → Parcel → bool * Parcel;
  WriteBool : bool → Parcel → bool * Parcel;
  WriteString16 : string16 → Parcel → bool * Parcel;
  WriteParcelable : Want → Parcel → bool * Parcel;
  ReadInt32 : Parcel → Z * Parcel;
  ReadBool : Parcel → bool * Parcel;
  ReadString16 : Parcel → string16 * Parcel;
  ReadParcelable : Parcel → option Want * Parcel;
  unread : Parcel → list (parcel_item Want string16);
  write_int32 : ∀ z p p', WriteInt32 z p = (true, p') → unread p' = unread p ++ [PInt32 z];
  write_bool : ∀ b p p', WriteBool b p = (true, p') → unread p' = unread p ++ [PBool b];
  write_string16 : ∀ s p p', WriteString16 s p = (true, p') → unread p' = unread p ++ [PString16 s];
  write_parcelable : ∀ w p p',
    WriteParcelable w p = (true, p') → unread p' = unread p ++ [PParcelable w];
  read_int32 : ∀ z p q, unread p = PInt32 z :: q →
    (ReadInt32 p).1 = z ∧ unread (ReadInt32 p).2 = q;
  read_bool : ∀ b p q, unread p = PBool b :: q →
    (ReadBool p).1 = b ∧ unread (ReadBool p).2 = q;
  read_string16 : ∀ s p q, unread p = PString16 s :: q →
    (ReadString16 p).1 = s ∧ unread (ReadString16 p).2 = q;
  read_parcelable : ∀ w p q, unread p = PParcelable w :: q →
    (ReadParcelable p).1 = Some w ∧ unread (ReadParcelable p).2 = q;
}.

Section ParcelForm.
Context {WL : WantLib} {PL : ParcelLib}.

(** [if (!write) return false;], then the rest. *)
Definition or_return (write : Parcel → bool * Parcel) (k : Parcel → bool * Parcel)
    (p : Parcel) : bool * Parcel :=
  match write p with
  | (true, p') => k p'
  | (false, p') => (false, p')
  end.

Definition MissionInfo_Marshalling (m : MissionInfo) (parcel : Parcel) : bool * Parcel :=
  or_return (WriteInt32 (id m)) (
  or_return (WriteInt32 (runningState m)) (
  or_return (WriteBool (lockedState m)) (
  or_return (WriteBool (continuable m)) (
  or_return (WriteString16 (Str8ToStr16 (time m))) (
  or_return (WriteString16 (Str8ToStr16 (label m))) (
  or_return (WriteString16 (Str8ToStr16 (iconPath m))) (
  or_return (WriteParcelable (want m)) (
  or_return (WriteInt32 (abilityState m)) (
  or_return (WriteBool (unclearable m)) (
  or_return (WriteInt32 (continueState m)) (λ p, (true, p)))))))))))) parcel.

(** The fields read before a missing want keep their new values. *)
Definition MissionInfo_ReadFromParcel (self : MissionInfo) (parcel : Parcel)
    : bool * MissionInfo * Parcel :=
  let '(id', p1) := ReadInt32 parcel in
  let '(runningState', p2) := ReadInt32 p1 in
  let '(lockedState', p3) := ReadBool p2 in
  let '(continuable', p4) := ReadBool p3 in
  let '(time', p5) := ReadString16 p4 in
  let '(label', p6) := ReadString16 p5 in
  let '(iconPath', p7) := ReadString16 p6 in
  let self :=
    self <| id := id' |> <| runningState := runningState' |> <| lockedState := lockedState' |>
         <| continuable := continuable' |> <| time := Str16ToStr8 time' |>
         <| label := Str16ToStr8 label' |> <| iconPath := Str16ToStr8 iconPath' |> in
  let '(parcelWant, p8) := ReadParcelable p7 in
  match parcelWant with
  | None => (false, self, p8)
  | Some w =>
      let '(abilityState', p9) := ReadInt32 p8 in
      let '(unclearable', p10) := ReadBool p9 in
      let '(continueState', p11) := ReadInt32 p10 in
      (true, self <| want := w |> <| abilityState := abilityState' |>
                  <| unclearable := unclearable' |> <| continueState := continueState' |>, p11)
  end.

Definition MissionInfo_Unmarshalling (fresh : MissionInfo) (parcel : Parcel)
    : option MissionInfo * Parcel :=
  match MissionInfo_ReadFromParcel fresh parcel with
  | (true, info, p) => (Some info, p)
  | (false, _, p) => (None, p)
  end.

Definition mission_items (m : MissionInfo) : list (parcel_item Want string16) :=
  [PInt32 (id m); PInt32 (runningState m); PBool (lockedState m); PBool (continuable m);
   PString16 (Str8ToStr16 (time m)); PString16 (Str8ToStr16 (label m));
   PString16 (Str8ToStr16 (iconPath m)); PParcelable (want m);
   PInt32 (abilityState m); PBool (unclearable m); PInt32 (continueState m)].

Lemma or_return_appends (write k : Parcel → bool * Parcel) item items p p' :
  (∀ q q', write q = (true, q') → unread q' = unread q ++ [item]) →
  (∀ q q', k q = (true, q') → unread q' = unread q ++ items) →
  or_return write k p = (true, p') → unread p' = unread p ++ item :: items.
Proof.
  intros Hw Hk. unfold or_return. destruct (write p) as [[] q] eqn:E; [|done].
  intros H. rewrite (Hk _ _ H), (Hw _ _ E). by rewrite <-app_assoc.
Qed.

Lemma Marshalling_items m p p' :
  MissionInfo_Marshalling m p = (true, p') → unread p' = unread p ++ mission_items m.
Proof.
  unfold MissionInfo_Marshalling, mission_items.
  do 11 (apply or_return_appends;
          [eauto using write_int32, write_bool, write_string16, write_parcelable|clear; intros p p']).
  intros [= ->]. by rewrite app_nil_r.
Qed.

Lemma pair_read {A : Type} (x : A * Parcel) a q :
  x.1 = a ∧ unread x.2 = q → ∃ p, x = (a, p) ∧ unread p = q.
Proof. destruct x; simpl; intros [-> ?]; eauto. Qed.

(** One read of the next item, in the goal and in the hypotheses. *)
Ltac read_item H :=
  first [ apply read_int32, pair_read in H | apply read_bool, pair_read in H
        | apply read_string16, pair_read in H | apply read_parcelable, pair_read in H ];
  let p := fresh "p" in let E := fresh "E" in
  destruct H as (p & E & H); rewrite E; clear E.

(** C8: a mission written to an empty parcel is read back whole, and nothing is
    left unread. *)
Theorem MissionInfo_parcel_roundtrip (m fresh : MissionInfo) (p p' : Parcel) :
  MissionInfo_Marshalling m p = (true, p') → unread p = [] →
  Forall (λ s, Str16ToStr8 (Str8ToStr16 s) = s) [time m; label m; iconPath m] →
  ∃ p'', MissionInfo_Unmarshalling fresh p' = (Some m, p'') ∧ unread p'' = [].
Proof.
  intros Hm Hp Hs. apply Marshalling_items in Hm. rewrite Hp in Hm. cbn [app] in Hm.
  rewrite !Forall_cons in Hs. destruct Hs as (Ht & Hl & Hi & _).
  unfold mission_items in Hm. unfold MissionInfo_Unmarshalling, MissionInfo_ReadFromParcel.
  do 11 read_item Hm. rewrite Ht, Hl, Hi. eexists. split; [|exact Hm]. by destruct m.
Qed.
End ParcelForm.

(** *** Concrete libraries, for the witnesses *)

Module SampleLibs.

(** A codec for the positives: a text of binary digits. *)
Fixpoint digits (p : positive) : string :=
  match p with
  | xH => "1"
  | xO p => String "0"%char (digits p)
  | xI p => String "1"%char (digits p)
  end.

Fixpoint read_digits (s : string) : option positive :=
  match s with
  | String "1"%char EmptyString => Some xH
  | String "0"%char s => xO <$> read_digits s
  | String "1"%char s => xI <$> read_digits s
  | _ => None
  end.

Lemma digits_nonempty (p : positive) : digits p ≠ "".
Proof. by destruct p. Qed.

Lemma read_digits_digits (p : positive) : read_digits (digits p) = Some p.
Proof.
  induction p as [p IH|p IH|]; simpl; [|by rewrite IH|done].
  destruct (digits p) eqn:E; [by apply digits_nonempty in E|]. by rewrite IH.
Qed.

#[global] Instance jnode_eq_dec : EqDecision jnode.
Proof. solve_decision. Defined.

#[global] Instance jnode_countable : Countable jnode.
Proof.
  refine (inj_countable'
    (λ n, match n with
          | JBool b => inl (inl b) | JInt z => inl (inr z) | JFloat z => inr (inl z)
          | JString s => inr (inr (Some s)) | JOther => inr (inr None)
          end)
    (λ x, match x with
          | inl (inl b) => JBool b | inl (inr z) => JInt z | inr (inl z) => JFloat z
          | inr (inr (Some s)) => JString s | inr (inr None) => JOther
          end) _).
  by intros [].
Defined.

#[global] Instance json_eq_dec : EqDecision json.
Proof. solve_decision. Defined.

#[global] Instance json_countable : Countable json.
Proof.
  refine (inj_countable'
    (λ v, match v with JObject f => Some f | JNotObject => None end)
    (λ x, match x with Some f => JObject f | None => JNotObject end) _).
  by intros [].
Defined.

Definition sample_json : JsonLib.
Proof.
  refine {| json_dump := λ v, digits (encode v);
            json_parse := λ s, read_digits s ≫= decode;
            valid_utf8 := λ _, true |}.
  - intros v. apply digits_nonempty.
  - intros v _. rewrite read_digits_digits. apply decode_encode.
Defined.

(** Wants that are their own URI. *)
Definition sample_want : WantLib :=
  {| Want := string; want_GetBoolParam := λ _ _ d, d; want_ToUri := λ w, w;
     want_ParseUri := λ s, Some s; PARAM_RESV_CALL_TO_FOREGROUND := "toForeground" |}.

Definition sample_mission (i : Z) (t : string) : @InnerMissionInfo sample_want :=
  @mkInnerMissionInfo sample_want
    (@mkMissionInfo sample_want i 0 false true t "label" "icon" "#Intent;end" 2 true 0)
    "bundle:ability" "affinity" 1 0 "bundle" 20010 false "" false 1.

(** A parcel that is its queue; a read of another type gives a default. *)
Definition sample_parcel : @ParcelLib sample_want.
Proof.
  refine {|
    Parcel := list (parcel_item string string); string16 := string;
    Str8ToStr16 := λ s, s; Str16ToStr8 := λ s, s;
    WriteInt32 := λ z p, (true, p ++ [PInt32 z]);
    WriteBool := λ b p, (true, p ++ [PBool b]);
    WriteString16 := λ s p, (true, p ++ [PString16 s]);
    WriteParcelable := λ w p, (true, p ++ [PParcelable (W := @Want sample_want) w]);
    ReadInt32 := λ p, match p with PInt32 z :: q => (z, q) | _ => (0%Z, p) end;
    ReadBool := λ p, match p with PBool b :: q => (b, q) | _ => (false, p) end;
    ReadString16 := λ p, match p with PString16 s :: q => (s, q) | _ => ("", p) end;
    ReadParcelable := λ p, match p with PParcelable w :: q => (Some w, q) | _ => (None, p) end;
    unread := λ p, p |}; first [by intros ??? [= <-] | by intros ??? ->].
Defined.
End SampleLibs.

Lemma FromJsonStr_ToJsonStr_witness :
  @FromJsonStr SampleLibs.sample_want SampleLibs.sample_json (SampleLibs.sample_mission 0 "")
    (@ToJsonStr SampleLibs.sample_want SampleLibs.sample_json (SampleLibs.sample_mission 7 "1042"))
  = (true, @persisted SampleLibs.sample_want (SampleLibs.sample_mission 0 "")
             (SampleLibs.sample_mission 7 "1042")).
Proof. apply FromJsonStr_ToJsonStr; vm_compute; reflexivity. Defined.

Lemma MissionInfo_parcel_roundtrip_witness :
  let PL := SampleLibs.sample_parcel in
  let m := missionInfo (SampleLibs.sample_mission 7 "1042") in
  ∃ p'', MissionInfo_Unmarshalling (missionInfo (SampleLibs.sample_mission 0 ""))
           (MissionInfo_Marshalling m []).2 = (Some m, p'') ∧ unread p'' = [].
Proof.
  apply (MissionInfo_parcel_roundtrip (PL := SampleLibs.sample_parcel) _ _ []);
    [reflexivity|reflexivity|]. repeat constructor.
Defined.
