(* ===== verification/MissionList.v ===== *)
(** * Mission lists

    [Mission] ([mission.cpp]) and [MissionList] ([mission_list.cpp]): the stacks of
    missions the mission list manager keeps, most recent first. Missions and the
    ability records behind them are shared objects: lists hold pointers, and an
    operation on one list changes what every other list sees. *)

From S2P Require Import Prelude.
From stdpp Require Import prelude gmap strings list.
From Stdlib Require Import ZArith Lia.

Local Open Scope Z_scope.

(** ** Data *)

(** [AbilityState] ([ability_state.h]) *)
Inductive AbilityState :=
| INITIAL | INACTIVE | ACTIVE | INACTIVATING | ACTIVATING | TERMINATING
| FOREGROUND | BACKGROUND | FOREGROUNDING | BACKGROUNDING | FOREGROUND_FAILED
| BACKGROUND_FAILED | FOREGROUND_INVALID_MODE | FOREGROUND_WINDOW_FREEZED
| FOREGROUND_DO_NOTHING.

#[global] Instance AbilityState_eq_dec : EqDecision AbilityState.
Proof. solve_decision. Defined.

Inductive LaunchMode := SINGLETON | STANDARD | SPECIFIED.

#[global] Instance LaunchMode_eq_dec : EqDecision LaunchMode.
Proof. solve_decision. Defined.

Inductive AbilityType := PAGE | SERVICE | DATA | EXTENSION.

#[global] Instance AbilityType_eq_dec : EqDecision AbilityType.
Proof. solve_decision. Defined.

(** What the mission list manager reads of the ability and application information
    of a record. *)
Record AbilityTraits := mkAbilityTraits {
  abilityType : AbilityType;
  isLauncherApp : bool;
  excludeFromMissions : bool;
  removeMissionAfterTerminate : bool;
  isStageBasedModel : bool;
  accessTokenId : Z;
  applicationName : string;
  isKeepAlive : bool;
}.

(** The members of [AbilityRecord] that follow its life: the state asked for while a
    transition is under way, the marks, the neighbours it is switched with (weak
    pointers), the result it waits to be sent, and what is read of its want. *)
Record AbilityLife := mkAbilityLife {
  recordMissionId_ : Z;
  pendingState_ : AbilityState;
  isTerminating_ : bool;
  isReady_ : bool;
  isLoading_ : bool;
  minimizeReason_ : bool;
  clearMissionFlag_ : bool;
  isNewWant_ : bool;
  isStartedByCall_ : bool;
  isStartToBackground_ : bool;
  isStartToForeground_ : bool;
  isSwitchingPause_ : bool;
  isNeedBackToOtherMissionStack_ : bool;
  otherMissionStackAbilityRecord_ : option Z;
  preAbilityRecord_ : option Z;
  nextAbilityRecord_ : option Z;
  isRestarting_ : bool;
  restartCount_ : Z;
  restartMax_ : Z;
  isAbilityForegrounding_ : bool;
  appIndex_ : Z;
  sceneFlag_ : Z;
  result_ : option (Z * Z);
  hasScheduler_ : bool;
  dealScheduler_ : bool;
  wantElement_ : string * string;
  wantCallToForeground_ : bool;
  wantRecovery_ : bool;
  isDebug_ : bool;
}.

#[global] Instance AbilityLife_reconstruct : Reconstruct AbilityLife :=
  λ r, mkAbilityLife (recordMissionId_ r) (pendingState_ r) (isTerminating_ r) (isReady_ r)
         (isLoading_ r) (minimizeReason_ r) (clearMissionFlag_ r) (isNewWant_ r)
         (isStartedByCall_ r) (isStartToBackground_ r) (isStartToForeground_ r)
         (isSwitchingPause_ r) (isNeedBackToOtherMissionStack_ r)
         (otherMissionStackAbilityRecord_ r) (preAbilityRecord_ r) (nextAbilityRecord_ r)
         (isRestarting_ r) (restartCount_ r) (restartMax_ r) (isAbilityForegrounding_ r)
         (appIndex_ r) (sceneFlag_ r) (result_ r) (hasScheduler_ r) (dealScheduler_ r)
         (wantElement_ r) (wantCallToForeground_ r) (wantRecovery_ r) (isDebug_ r).

(** The members of [AbilityRecord] that mission lists read or set, with the traits
    and the life that only the manager looks at. A caller is a weak pointer to its
    record and the request code. *)
Record AbilityRecord := mkAbilityRecord {
  token_ : Z;
  recordId_ : Z;
  abilityName : string;
  abilityBundleName : string;
  abilityModuleName : string;
  abilityDeviceId : string;
  abilityLaunchMode : LaunchMode;
  applicationBundleName : string;
  applicationUid : Z;
  uid_ : Z;
  pid_ : Z;
  currentState_ : AbilityState;
  recordSpecifiedFlag_ : string;
  isLauncherRoot_ : bool;
  callerList_ : list (option Z * Z);
  isUninstall_ : bool;
  isRestartApp_ : bool;
  traits_ : AbilityTraits;
  life_ : AbilityLife;
}.

#[global] Instance AbilityRecord_reconstruct : Reconstruct AbilityRecord :=
  λ r, mkAbilityRecord (token_ r) (recordId_ r) (abilityName r) (abilityBundleName r)
         (abilityModuleName r) (abilityDeviceId r) (abilityLaunchMode r)
         (applicationBundleName r) (applicationUid r) (uid_ r) (pid_ r) (currentState_ r)
         (recordSpecifiedFlag_ r) (isLauncherRoot_ r) (callerList_ r) (isUninstall_ r)
         (isRestartApp_ r) (traits_ r) (life_ r).

(** The life of a new record, with the initialisers of the class: no state is asked
    for, nothing is attached and no want has been read. *)
Definition new_life (restartMax : Z) : AbilityLife :=
  mkAbilityLife (-1) INITIAL false false false false false false false false false false false
    None None None false restartMax restartMax false 0 0 None false false ("", "") false false false.

Record Mission := mkMission {
  missionId_ : Z;
  startMethod_ : Z;
  abilityRecord_ : option Z;
  missionName_ : string;
  specifiedFlag_ : string;
  ownerMissionList_ : option Z;
  lockedState_ : bool;
  isMovingToFront_ : bool;
  isANRState_ : bool;
  needNotify_ : bool;
  needNotifyUpdateLabel_ : bool;
  missionTime_ : string;
  unclearable_ : bool;
}.

#[global] Instance Mission_reconstruct : Reconstruct Mission :=
  λ r, mkMission (missionId_ r) (startMethod_ r) (abilityRecord_ r) (missionName_ r)
         (specifiedFlag_ r) (ownerMissionList_ r) (lockedState_ r) (isMovingToFront_ r)
         (isANRState_ r) (needNotify_ r) (needNotifyUpdateLabel_ r) (missionTime_ r)
         (unclearable_ r).

Inductive MissionListType := CURRENT | DEFAULT_STANDARD | DEFAULT_SINGLE | LAUNCHER.

#[global] Instance MissionListType_eq_dec : EqDecision MissionListType.
Proof. solve_decision. Defined.

Record MissionList := mkMissionList {
  type_ : MissionListType;
  missions_ : list (option Z);
}.

(** The objects behind the pointers. *)
Record Store := mkStore {
  missionHeap : gmap Z Mission;
  recordHeap : gmap Z AbilityRecord;
}.

Definition mission_at (s : Store) (p : option Z) : option Mission :=
  p ≫= λ a, missionHeap s !! a.

Definition record_at (s : Store) (p : option Z) : option AbilityRecord :=
  p ≫= λ a, recordHeap s !! a.

Definition set_mission (s : Store) (a : Z) (m : Mission) : Store :=
  mkStore (<[a := m]> (missionHeap s)) (recordHeap s).

Definition set_record (s : Store) (a : Z) (r : AbilityRecord) : Store :=
  mkStore (missionHeap s) (<[a := r]> (recordHeap s)).

(** ** [Mission] *)

(** The constructor, with the member initialisers of the class. *)
Definition Mission_new (id : Z) (abilityRecord : option Z) (missionName : string)
    (startMethod : Z) : Mission :=
  mkMission id startMethod abilityRecord missionName "" None false false false true false "0" false.

(** The copy constructor: what it does not assign has its initialiser, so that the
    specified flag and the time of the copied mission are not in the copy. *)
Definition Mission_copy (m : Mission) : Mission :=
  Mission_new (missionId_ m) (abilityRecord_ m) (missionName_ m) (startMethod_ m)
    <| lockedState_ := lockedState_ m |>
    <| ownerMissionList_ := ownerMissionList_ m |>
    <| unclearable_ := unclearable_ m |>.

Definition GetAbilityRecord (m : Mission) : option Z := abilityRecord_ m.
Definition GetMissionId (m : Mission) : Z := missionId_ m.

Definition has_launch_mode (s : Store) (m : Mission) (mode : LaunchMode) : bool :=
  match record_at s (abilityRecord_ m) with
  | Some r => bool_decide (abilityLaunchMode r = mode)
  | None => false
  end.

Definition IsSingletonAbility (s : Store) (m : Mission) : bool := has_launch_mode s m SINGLETON.
Definition IsSpecifiedAbility (s : Store) (m : Mission) : bool := has_launch_mode s m SPECIFIED.
Definition IsStandardAbility (s : Store) (m : Mission) : bool := has_launch_mode s m STANDARD.

Definition SetSpecifiedFlag (m : Mission) (flag : string) : Mission := m <| specifiedFlag_ := flag |>.
Definition GetSpecifiedFlag (m : Mission) : string := specifiedFlag_ m.
Definition GetMissionList (m : Mission) : option Z := ownerMissionList_ m.
Definition GetMissionName (m : Mission) : string := missionName_ m.
Definition SetMissionList (m : Mission) (missionList : option Z) : Mission :=
  m <| ownerMissionList_ := missionList |>.
Definition SetLockedState (m : Mission) (b : bool) : Mission := m <| lockedState_ := b |>.
Definition IsLockedState (m : Mission) : bool := lockedState_ m.
Definition SetMovingState (m : Mission) (b : bool) : Mission := m <| isMovingToFront_ := b |>.
Definition IsMovingState (m : Mission) : bool := isMovingToFront_ m.
Definition SetANRState (m : Mission) (b : bool) : Mission := m <| isANRState_ := b |>.
Definition IsANRState (m : Mission) : bool := isANRState_ m.
Definition GetMissionTime (m : Mission) : string := missionTime_ m.
Definition UpdateMissionTime (m : Mission) (t : string) : Mission := m <| missionTime_ := t |>.

(** [StartMethod::START_CALL] *)
Definition START_CALL : Z := 1.
Definition IsStartByCall (m : Mission) : bool := START_CALL =? startMethod_ m.

Definition UpdateMissionId (m : Mission) (id method : Z) : bool * Mission :=
  if (method =? startMethod_ m) && (0 <? id) then (false, m)
  else (true, m <| startMethod_ := method |> <| missionId_ := id |>).

(** ** [MissionList]: changes of the list *)

(** [AddMissionToTop] of the list [self]. *)
Definition AddMissionToTop (s : Store) (self : Z) (ml : MissionList) (mission : option Z)
    : outcome (Store * MissionList) :=
  match mission with
  | None => Ret (s, ml)
  | Some a =>
    if bool_decide (head (missions_ ml) = Some mission) then Ret (s, ml)
    else
      let missions := mission :: filter (λ p, p ≠ mission) (missions_ ml) in
      let* m := deref (missionHeap s !! a) in
      Ret (set_mission s a (SetMissionList m (Some self)), mkMissionList (type_ ml) missions)
  end.

Definition RemoveMission (ml : MissionList) (mission : option Z) : MissionList :=
  mkMissionList (type_ ml) (erase_first (λ p, bool_decide (p = mission)) (missions_ ml)).

(** The loop of [RemoveMissionByAbilityRecord], which reads every mission it
    passes. *)
Fixpoint remove_by_record (s : Store) (ps : list (option Z)) (abilityRecord : option Z)
    : outcome (list (option Z)) :=
  match ps with
  | [] => Ret []
  | p :: ps' =>
    let* m := deref (mission_at s p) in
    if bool_decide (GetAbilityRecord m = abilityRecord) then Ret ps'
    else let* rest := remove_by_record s ps' abilityRecord in Ret (p :: rest)
  end.

Definition RemoveMissionByAbilityRecord (s : Store) (ml : MissionList) (abilityRecord : option Z)
    : outcome MissionList :=
  let* ps := remove_by_record s (missions_ ml) abilityRecord in
  Ret (mkMissionList (type_ ml) ps).

(** [MatchedInitialMission]: a record of the application is marked, and its mission
    goes when the ability was never started. *)
Definition MatchedInitialMission (s : Store) (mission : option Z) (bundleName : string) (uid : Z)
    : bool * Store :=
  match mission_at s mission with
  | None => (false, s)
  | Some m =>
    match GetAbilityRecord m ≫= λ a, (a,.) <$> recordHeap s !! a with
    | None => (false, s)
    | Some (a, r) =>
      if bool_decide (abilityBundleName r = bundleName) && (uid_ r =? uid) then
        (bool_decide (currentState_ r = INITIAL), set_record s a (r <| isUninstall_ := true |>))
      else (false, s)
    end
  end.

(** The loop of [HandleUnInstallApp]. *)
Fixpoint uninstall_loop (s : Store) (ps : list (option Z)) (bundleName : string) (uid : Z)
    : Store * list (option Z) :=
  match ps with
  | [] => (s, [])
  | p :: ps' =>
    let '(matched, s') := MatchedInitialMission s p bundleName uid in
    let '(s'', rest) := uninstall_loop s' ps' bundleName uid in
    (s'', if matched then rest else p :: rest)
  end.

Definition HandleUnInstallApp (s : Store) (ml : MissionList) (bundleName : string) (uid : Z)
    : Store * MissionList :=
  let '(s', ps) := uninstall_loop s (missions_ ml) bundleName uid in
  (s', mkMissionList (type_ ml) ps).

(** [SignRestartAppFlag] marks the records of a bundle. *)
Definition sign_restart (s : Store) (p : option Z) (bundleName : string) : Store :=
  match mission_at s p with
  | None => s
  | Some m =>
    match GetAbilityRecord m ≫= λ a, (a,.) <$> recordHeap s !! a with
    | None => s
    | Some (a, r) =>
      if bool_decide (applicationBundleName r ≠ bundleName) then s
      else set_record s a (r <| isRestartApp_ := true |>)
    end
  end.

Definition SignRestartAppFlag (s : Store) (ml : MissionList) (bundleName : string) : Store :=
  fold_left (λ s p, sign_restart s p bundleName) (missions_ ml) s.

(** ** [MissionList]: queries *)

Definition GetTopMission (ml : MissionList) : option Z :=
  match missions_ ml with
  | [] => None
  | p :: _ => p
  end.

(** A loop that returns the first mission that satisfies a test. *)
Definition first_mission (s : Store) (test : Mission → bool) (ml : MissionList) : option Z :=
  mjoin (find_if (λ p, match mission_at s p with Some m => test m | None => false end)
           (missions_ ml)).

Definition GetSingletonMissionByName (s : Store) (ml : MissionList) (missionName : string)
    : option Z :=
  if bool_decide (missionName = "") then None
  else first_mission s
         (λ m, IsSingletonAbility s m && bool_decide (GetMissionName m = missionName)) ml.

Definition GetSpecifiedMission (s : Store) (ml : MissionList) (missionName flag : string)
    : option Z :=
  if bool_decide (missionName = "") || bool_decide (flag = "") then None
  else first_mission s
         (λ m, IsSpecifiedAbility s m && bool_decide (GetMissionName m = missionName) &&
               bool_decide (GetSpecifiedFlag m = flag)) ml.

(** The loop of [GetRecentStandardMission]: [>=] on the strings of the times. *)
Fixpoint recent_loop (s : Store) (ps : list (option Z)) (missionName missionTime : string)
    (result : option Z) : option Z :=
  match ps with
  | [] => result
  | p :: ps' =>
    match mission_at s p with
    | None => recent_loop s ps' missionName missionTime result
    | Some m =>
      if IsStandardAbility s m && bool_decide (GetMissionName m = missionName) &&
         String.leb missionTime (GetMissionTime m)
      then recent_loop s ps' missionName (GetMissionTime m) p
      else recent_loop s ps' missionName missionTime result
    end
  end.

Definition GetRecentStandardMission (s : Store) (ml : MissionList) (missionName : string)
    : option Z :=
  if bool_decide (missionName = "") then None
  else recent_loop s (missions_ ml) missionName "0" None.

Definition GetMissionById (s : Store) (ml : MissionList) (missionId : Z) : option Z :=
  first_mission s (λ m, GetMissionId m =? missionId) ml.

(** A loop that returns the first record that satisfies a test, passing over
    missions without one. *)
Definition first_record (s : Store) (test : AbilityRecord → bool) (ml : MissionList) : option Z :=
  first_mission s
    (λ m, match record_at s (GetAbilityRecord m) with Some r => test r | None => false end) ml
  ≫= λ a, missionHeap s !! a ≫= GetAbilityRecord.

Definition GetAbilityRecordByToken (s : Store) (ml : MissionList) (token : Z) : option Z :=
  first_record s (λ r, token =? token_ r) ml.

Definition GetLauncherRoot (s : Store) (ml : MissionList) : option Z :=
  first_record s isLauncherRoot_ ml.

(** [GetMissionBySpecifiedFlag] gives up at the first mission without a record. *)
Fixpoint by_specified_flag (s : Store) (ps : list (option Z)) (tarAbilityName tarBundleName flag : string)
    : option Z :=
  match ps with
  | [] => None
  | p :: ps' =>
    match mission_at s p with
    | None => None
    | Some m =>
      match record_at s (GetAbilityRecord m) with
      | None => None
      | Some r =>
        if bool_decide (applicationBundleName r = tarBundleName) &&
           bool_decide (abilityName r = tarAbilityName) &&
           bool_decide (recordSpecifiedFlag_ r = flag) then p
        else by_specified_flag s ps' tarAbilityName tarBundleName flag
      end
    end
  end.

Definition GetMissionBySpecifiedFlag (s : Store) (ml : MissionList)
    (tarAbilityName tarBundleName flag : string) : option Z :=
  by_specified_flag s (missions_ ml) tarAbilityName tarBundleName flag.

Definition IsEmpty (ml : MissionList) : bool := bool_decide (missions_ ml = []).

Definition GetTopAbility (s : Store) (ml : MissionList) : option Z :=
  mission_at s (GetTopMission ml) ≫= GetAbilityRecord.

(** [GetAbilityRecordById] reads the record of every mission it passes. *)
Fixpoint record_by_id (s : Store) (ps : list (option Z)) (abilityRecordId : Z)
    : outcome (option Z) :=
  match ps with
  | [] => Ret None
  | p :: ps' =>
    match mission_at s p with
    | None => record_by_id s ps' abilityRecordId
    | Some m =>
      let* r := deref (record_at s (GetAbilityRecord m)) in
      if recordId_ r =? abilityRecordId then Ret (GetAbilityRecord m)
      else record_by_id s ps' abilityRecordId
    end
  end.

Definition GetAbilityRecordById (s : Store) (ml : MissionList) (abilityRecordId : Z)
    : outcome (option Z) :=
  record_by_id s (missions_ ml) abilityRecordId.

(** [GetAbilityRecordByCaller] *)
Fixpoint record_by_caller (s : Store) (ps : list (option Z)) (caller : option Z) (requestCode : Z)
    : outcome (option Z) :=
  match ps with
  | [] => Ret None
  | p :: ps' =>
    let* m := deref (mission_at s p) in
    let* r := deref (record_at s (GetAbilityRecord m)) in
    if existsb (λ c, bool_decide (c.1 = caller) && (c.2 =? requestCode)) (callerList_ r)
    then Ret (GetAbilityRecord m)
    else record_by_caller s ps' caller requestCode
  end.

Definition GetAbilityRecordByCaller (s : Store) (ml : MissionList) (caller : option Z)
    (requestCode : Z) : outcome (option Z) :=
  record_by_caller s (missions_ ml) caller requestCode.

(** Element names are compared by the bundle framework: [same_element device bundle
    ability module] is the comparison of the element made of those parts with the
    one searched for. *)
Section ByName.
Context (same_element : string → string → string → string → bool).

Definition element_matches (r : AbilityRecord) : bool :=
  same_element (abilityDeviceId r) (abilityBundleName r) (abilityName r) (abilityModuleName r) ||
  same_element (abilityDeviceId r) (abilityBundleName r) (abilityName r) "".

Fixpoint record_by_name (s : Store) (ps : list (option Z)) : outcome (option Z) :=
  match ps with
  | [] => Ret None
  | p :: ps' =>
    match mission_at s p with
    | None => record_by_name s ps'
    | Some m =>
      let* r := deref (record_at s (GetAbilityRecord m)) in
      if element_matches r then Ret (GetAbilityRecord m) else record_by_name s ps'
    end
  end.

Definition GetAbilityRecordByName (s : Store) (ml : MissionList) : outcome (option Z) :=
  record_by_name s (missions_ ml).

Definition GetAbilityRecordsByName (s : Store) (ml : MissionList) (records : list (option Z))
    : list (option Z) :=
  records ++ (missions_ ml ≫= λ p,
    match mission_at s p with
    | None => []
    | Some m =>
      match record_at s (GetAbilityRecord m) with
      | Some r => if element_matches r then [GetAbilityRecord m] else []
      | None => []
      end
    end).
End ByName.

Definition GetAbilityTokenByMissionId (s : Store) (ml : MissionList) (missionId : Z) : option Z :=
  first_mission s
    (λ m, (GetMissionId m =? missionId) && bool_decide (is_Some (record_at s (GetAbilityRecord m)))) ml
  ≫= λ a, missionHeap s !! a ≫= λ m, token_ <$> record_at s (GetAbilityRecord m).

Definition GetTypeName (ml : MissionList) : string :=
  match type_ ml with
  | CURRENT => "NORMAL"
  | DEFAULT_STANDARD => "DEFAULT_STANDARD"
  | DEFAULT_SINGLE => "DEFAULT_SINGLE"
  | LAUNCHER => "LAUNCHER"
  end.

(** The records of the missions of a list, in order. *)
Definition records_of (s : Store) (ml : MissionList) : list AbilityRecord :=
  missions_ ml ≫= λ p, option_list (mission_at s p ≫= λ m, record_at s (GetAbilityRecord m)).

Definition GetMissionCountByUid (s : Store) (ml : MissionList) (targetUid : Z) : Z :=
  i32 (Z.of_nat (length (filter (λ r, uid_ r = targetUid) (records_of s ml)))).

Definition GetMissionCount (ml : MissionList) : Z := i32 (Z.of_nat (length (missions_ ml))).

Definition NO_PID : Z := -1.

Definition GetActiveAbilityList (s : Store) (ml : MissionList) (uid : Z) (abilityList : list string)
    (pid : Z) : list string :=
  abilityList ++ (abilityName <$>
    filter (λ r, (pid = NO_PID ∨ pid_ r = pid) ∧ applicationUid r = uid ∧ abilityName r ≠ "")
      (records_of s ml)).

(** [FindEarliestMission]: the target is an in-out parameter the manager passes
    through all its lists. *)
Fixpoint earliest_loop (s : Store) (ps : list (option Z)) (targetMission : option Z) : option Z :=
  match ps with
  | [] => targetMission
  | p :: ps' =>
    match mission_at s p with
    | None => earliest_loop s ps' targetMission
    | Some m =>
      match record_at s (GetAbilityRecord m) with
      | None => earliest_loop s ps' targetMission
      | Some r =>
        if negb (bool_decide (currentState_ r = BACKGROUND)) ||
           match mission_at s targetMission with
           | Some t => String.ltb (GetMissionTime t) (GetMissionTime m)
           | None => false
           end
        then earliest_loop s ps' targetMission
        else earliest_loop s ps' p
      end
    end
  end.

Definition FindEarliestMission (s : Store) (ml : MissionList) (targetMission : option Z) : option Z :=
  earliest_loop s (missions_ ml) targetMission.

(** ** Well-formed lists *)

(** A list holds existing missions, each once. *)
Definition list_wf (s : Store) (ml : MissionList) : Prop :=
  NoDup (missions_ ml) ∧ Forall (λ p, is_Some (mission_at s p)) (missions_ ml).

(** What an operation on the list may do to it: drop missions, never reorder. *)
Lemma list_wf_sublist s ty ps ml :
  list_wf s ml → sublist ps (missions_ ml) → list_wf s (mkMissionList ty ps).
Proof.
  intros [Hnd Hall] Hsub. split; cbn.
  - eapply sublist_NoDup; eauto.
  - rewrite Forall_forall in *. intros p Hp. apply Hall. by eapply elem_of_sublist.
Qed.

Lemma set_mission_at s a m p :
  is_Some (mission_at s p) → is_Some (mission_at (set_mission s a m) p).
Proof.
  destruct p as [b|]; [|done]. cbn. rewrite lookup_insert. by case_decide.
Qed.

Lemma remove_by_record_wf s ps rec :
  Forall (λ p, is_Some (mission_at s p)) ps →
  ∃ ps', remove_by_record s ps rec = Ret ps' ∧ sublist ps' ps ∧
    ∀ p m, p ∈ ps → mission_at s p = Some m → abilityRecord_ m ≠ rec → p ∈ ps'.
Proof.
  induction 1 as [|p ps [m Hm] Hall (ps' & IH & Hsub & Hkeep)]; cbn.
  { exists []. split_and!; try done. }
  rewrite Hm. cbn. unfold GetAbilityRecord.
  destruct (bool_decide_reflect (abilityRecord_ m = rec)) as [Hr|Hr]; cbn.
  - exists ps. split_and!; [done|by constructor|].
    intros q mq [->|Hq]%elem_of_cons Hmq Hne; [congruence|done].
  - rewrite IH. cbn. exists (p :: ps'). split_and!; [done|by constructor|].
    intros q mq [->|Hq]%elem_of_cons Hmq Hne; [left|right; eauto].
Qed.

(** ** Uninstallation *)

(** The mission belongs to the application. *)
Definition app_mission (s : Store) (p : option Z) (bundleName : string) (uid : Z) (a : Z)
    (r : AbilityRecord) : Prop :=
  (mission_at s p ≫= GetAbilityRecord) = Some a ∧ recordHeap s !! a = Some r ∧
  abilityBundleName r = bundleName ∧ uid_ r = uid.

(** A store in which some records of the application were marked. *)
Definition marked (s s' : Store) (bundleName : string) (uid : Z) (touched : Z → Prop) : Prop :=
  missionHeap s' = missionHeap s ∧
  ∀ a, (recordHeap s !! a = None ∧ recordHeap s' !! a = None) ∨
    ∃ r, recordHeap s !! a = Some r ∧
      ((touched a ∧ abilityBundleName r = bundleName ∧ uid_ r = uid ∧
          recordHeap s' !! a = Some (r <| isUninstall_ := true |>)) ∨
       (¬ (touched a ∧ abilityBundleName r = bundleName ∧ uid_ r = uid) ∧
          recordHeap s' !! a = Some r)).

(** The mission is dropped: its ability was never started. *)
Definition dropped (s : Store) (p : option Z) (bundleName : string) (uid : Z) : bool :=
  match mission_at s p ≫= GetAbilityRecord with
  | Some a =>
    match recordHeap s !! a with
    | Some r => bool_decide (abilityBundleName r = bundleName) && (uid_ r =? uid) &&
                bool_decide (currentState_ r = INITIAL)
    | None => false
    end
  | None => false
  end.

Lemma dropped_false s p bundleName uid :
  dropped s p bundleName uid = false ↔
  ¬ ∃ a rec, app_mission s p bundleName uid a rec ∧ currentState_ rec = INITIAL.
Proof.
  unfold dropped, app_mission.
  destruct (mission_at s p ≫= GetAbilityRecord) as [a|];
    [|split; [intros _ (? & ? & (? & _) & _)|]; done].
  destruct (recordHeap s !! a) as [rec|] eqn:E.
  - rewrite !andb_false_iff, !bool_decide_eq_false, Z.eqb_neq. split.
    + intros H (a' & rec' & ([= <-] & E' & ? & ?) & ?). rewrite E in E'. injection E' as <-. tauto.
    + intros H. destruct (decide (abilityBundleName rec = bundleName)); [|tauto].
      destruct (decide (uid_ rec = uid)); [|tauto].
      destruct (decide (currentState_ rec = INITIAL)); [|tauto]. destruct H. by exists a, rec.
  - split; [|done]. intros _ (? & ? & ([= <-] & ? & _) & _). congruence.
Qed.

Lemma MatchedInitialMission_spec s p bundleName uid :
  let r := MatchedInitialMission s p bundleName uid in
  r.1 = dropped s p bundleName uid ∧
  marked s r.2 bundleName uid (λ a, (mission_at s p ≫= GetAbilityRecord) = Some a).
Proof.
  assert (∀ touched, (∀ a r, touched a → recordHeap s !! a = Some r →
    ¬ (abilityBundleName r = bundleName ∧ uid_ r = uid)) → marked s s bundleName uid touched) as Hid.
  { intros touched Hno. split; [done|]. intros a. destruct (recordHeap s !! a) as [r|] eqn:E; [|auto].
    right. exists r. split; [done|]. right. split; [|done]. intros (Ht & ?). by eapply Hno. }
  unfold MatchedInitialMission, dropped. destruct (mission_at s p) as [m|]; cbn.
  2: { split; [done|]. by apply Hid. }
  destruct (GetAbilityRecord m) as [a|] eqn:Ea; cbn.
  2: { split; [done|]. by apply Hid. }
  destruct (recordHeap s !! a) as [r|] eqn:Er; cbn.
  2: { split; [done|]. apply Hid. intros a' r' [= <-]. congruence. }
  destruct (bool_decide_reflect (abilityBundleName r = bundleName)) as [Hb|Hb]; cbn;
    [destruct (Z.eqb_spec (uid_ r) uid) as [Hu|Hu]; cbn|].
  - split; [done|]. split; [done|]. intros a'. cbn. rewrite lookup_insert.
    destruct (decide (a = a')) as [<-|Hne].
    + right. exists r. split; [done|]. by left.
    + destruct (recordHeap s !! a') as [r'|]; [|auto]. right. exists r'. split; [done|].
      right. split; [|done]. intros ([= ?] & _). done.
  - split; [done|]. apply Hid. intros a' r' [= <-]. rewrite Er. intros [= <-]. tauto.
  - split; [done|]. apply Hid. intros a' r' [= <-]. rewrite Er. intros [= <-]. tauto.
Qed.

(** Marking does not change which missions belong to the application. *)
Lemma marked_dropped s s' bundleName uid touched p :
  marked s s' bundleName uid touched → dropped s' p bundleName uid = dropped s p bundleName uid.
Proof.
  intros [Hm Hr]. unfold dropped, mission_at. rewrite Hm.
  destruct ((p ≫= λ a, missionHeap s !! a) ≫= GetAbilityRecord) as [a|]; [|done].
  destruct (Hr a) as [[-> ->]|(r & -> & [(_ & _ & _ & ->)|[_ ->]])]; done.
Qed.

Lemma marked_trans s1 s2 s3 bundleName uid t1 t2 :
  marked s1 s2 bundleName uid t1 → marked s2 s3 bundleName uid t2 →
  marked s1 s3 bundleName uid (λ a, t1 a ∨ t2 a).
Proof.
  intros [Hm1 Hr1] [Hm2 Hr2]. split; [congruence|]. intros a.
  destruct (Hr1 a) as [[E1 E2]|(r & E1 & Hcase)].
  - left. split; [done|]. destruct (Hr2 a) as [[_ ?]|(r' & E & _)]; congruence.
  - right. exists r. split; [done|].
    destruct (Hr2 a) as [[E _]|(r' & E & Hcase2)];
      [destruct Hcase as [(_ & _ & _ & ?)|[_ ?]]; congruence|].
    destruct Hcase as [(Ht & Hb & Hu & E2)|[Hno E2]]; rewrite E2 in E; injection E as <-.
    + left. split_and!; try done; [by left|].
      destruct Hcase2 as [(_ & _ & _ & ->)|[_ ->]]; [|done]. by destruct r.
    + destruct Hcase2 as [(Ht & Hb & Hu & ->)|[Hno2 ->]]; [left|right]; [tauto|].
      split; [|done]. tauto.
Qed.

Lemma marked_ext s s' bundleName uid t1 t2 :
  (∀ a, t1 a ↔ t2 a) → marked s s' bundleName uid t1 → marked s s' bundleName uid t2.
Proof.
  intros Ht [Hm Hr]. split; [done|]. intros a.
  destruct (Hr a) as [?|(r & ? & H)]; [auto|]. right. exists r. specialize (Ht a). tauto.
Qed.

Lemma uninstall_loop_spec s ps bundleName uid :
  let r := uninstall_loop s ps bundleName uid in
  r.2 = filter (λ p, dropped s p bundleName uid = false) ps ∧
  marked s r.1 bundleName uid
    (λ a, ∃ p, p ∈ ps ∧ (mission_at s p ≫= GetAbilityRecord) = Some a).
Proof.
  revert s. induction ps as [|p ps IH]; intros s; cbn [uninstall_loop].
  { split; [done|]. split; [done|]. intros a. cbn [fst].
    destruct (recordHeap s !! a) as [r|] eqn:E; [|auto].
    right. exists r. split; [done|]. right. split; [|done]. by intros [(? & Hin%not_elem_of_nil & _) _]. }
  destruct (MatchedInitialMission s p bundleName uid) as [matched s1] eqn:E1.
  destruct (MatchedInitialMission_spec s p bundleName uid) as [Hd Hm]. rewrite E1 in Hd, Hm.
  cbn [fst snd] in Hd, Hm. destruct (IH s1) as [IHd IHm].
  destruct (uninstall_loop s1 ps bundleName uid) as [s2 rest] eqn:E2. cbn [fst snd] in *. split.
  - rewrite filter_cons, <-Hd, IHd.
    rewrite (list_filter_iff_local _ (λ p, dropped s p bundleName uid = false)) by
      (intros q _; by rewrite (marked_dropped _ _ _ _ _ _ Hm)).
    by destruct matched; [rewrite decide_False|rewrite decide_True].
  - eapply marked_ext; [|eapply marked_trans; [exact Hm|exact IHm]].
    intros a. cbn. unfold mission_at. rewrite (proj1 Hm). split.
    + intros [H|(q & Hq & H)]; [exists p; split; [left|done]|exists q; split; [by right|done]].
    + intros (q & [->|Hq]%elem_of_cons & H); [by left|right; eauto].
Qed.

(** ** The most recent and the earliest mission *)

(** A mission [GetRecentStandardMission] considers. *)
Definition standard_named (s : Store) (missionName : string) (p : option Z) (m : Mission) : Prop :=
  mission_at s p = Some m ∧ IsStandardAbility s m = true ∧ missionName_ m = missionName.

Lemma string_leb_false (a b : string) : String.leb a b = false → String.leb b a = true.
Proof. intros H. destruct (String.leb_total a b); congruence. Qed.

Lemma recent_loop_spec s ps missionName t0 res :
  let out := recent_loop s ps missionName t0 res in
  (out = res ∧ ∀ p m, p ∈ ps → standard_named s missionName p m →
     String.leb t0 (missionTime_ m) = false) ∨
  ∃ l1 p m l2, ps = l1 ++ p :: l2 ∧ out = p ∧ standard_named s missionName p m ∧
    String.leb t0 (missionTime_ m) = true ∧
    (∀ q m', q ∈ l1 → standard_named s missionName q m' →
       String.leb (missionTime_ m') (missionTime_ m) = true) ∧
    (∀ q m', q ∈ l2 → standard_named s missionName q m' →
       String.leb (missionTime_ m) (missionTime_ m') = false).
Proof.
  revert t0 res. induction ps as [|p ps IH]; intros t0 res; cbn [recent_loop].
  { left. split; [done|]. by intros p m ?%not_elem_of_nil. }
  assert ((∀ m, standard_named s missionName p m → String.leb t0 (missionTime_ m) = false) →
    let out := recent_loop s ps missionName t0 res in
    (out = res ∧ ∀ q m, q ∈ p :: ps → standard_named s missionName q m →
       String.leb t0 (missionTime_ m) = false) ∨
    ∃ l1 q m l2, p :: ps = l1 ++ q :: l2 ∧ out = q ∧ standard_named s missionName q m ∧
      String.leb t0 (missionTime_ m) = true ∧
      (∀ q' m', q' ∈ l1 → standard_named s missionName q' m' →
         String.leb (missionTime_ m') (missionTime_ m) = true) ∧
      (∀ q' m', q' ∈ l2 → standard_named s missionName q' m' →
         String.leb (missionTime_ m) (missionTime_ m') = false)) as Hskip.
  { intros Hp. destruct (IH t0 res) as [[E H]|(l1 & q & m & l2 & -> & E & Hq & Ht & H1 & H2)].
    - left. split; [done|]. intros q m [->|Hq]%elem_of_cons; eauto.
    - right. exists (p :: l1), q, m, l2. split_and!; try done.
      intros q' m' [->|Hq']%elem_of_cons Hs; [|eauto].
      eapply string_leb_trans; [|exact Ht]. apply string_leb_false. eauto. }
  destruct (mission_at s p) as [m|] eqn:Em; [|apply Hskip; intros m [? _]; congruence].
  unfold GetMissionName, GetMissionTime in *.
  destruct (IsStandardAbility s m) eqn:Est; cbn [andb];
    [|apply Hskip; intros m' (? & ? & _); congruence].
  destruct (bool_decide_reflect (missionName_ m = missionName)) as [En|En]; cbn [andb];
    [|apply Hskip; intros m' (? & _ & ?); congruence].
  destruct (String.leb t0 (missionTime_ m)) eqn:Et;
    [|apply Hskip; intros m' (? & _); congruence].
  right. destruct (IH (missionTime_ m) p)
    as [[E H]|(l1 & q & m' & l2 & -> & E & Hq & Ht & H1 & H2)].
  - exists [], p, m, ps. split_and!; try done. by intros q m' ?%not_elem_of_nil.
  - exists (p :: l1), q, m', l2. split_and!; try done; [by eapply string_leb_trans|].
    intros q' m2 [->|Hq']%elem_of_cons Hs; [|eauto]. destruct Hs as [Hm2 _]. congruence.
Qed.

(** A mission in the background, the candidates of [FindEarliestMission]. *)
Definition in_background (s : Store) (p : option Z) (m : Mission) : Prop :=
  mission_at s p = Some m ∧
  ∃ r, record_at s (abilityRecord_ m) = Some r ∧ currentState_ r = BACKGROUND.

Lemma earliest_loop_app s ps1 ps2 target :
  earliest_loop s (ps1 ++ ps2) target = earliest_loop s ps2 (earliest_loop s ps1 target).
Proof.
  revert target. induction ps1 as [|p ps1 IH]; intros target; cbn [earliest_loop app]; [done|].
  repeat case_match; apply IH.
Qed.

Lemma earliest_loop_spec s ps target :
  let out := earliest_loop s ps target in
  (out = target ∧ ∀ p m, p ∈ ps → in_background s p m →
     ∃ t, mission_at s target = Some t ∧ String.ltb (missionTime_ t) (missionTime_ m) = true) ∨
  ∃ p m, p ∈ ps ∧ in_background s p m ∧ out = p ∧
    (∀ q m', q ∈ ps → in_background s q m' → String.leb (missionTime_ m) (missionTime_ m') = true) ∧
    (∀ t, mission_at s target = Some t → String.leb (missionTime_ m) (missionTime_ t) = true).
Proof.
  revert target. induction ps as [|p ps IH]; intros target; cbn [earliest_loop].
  { left. split; [done|]. by intros p m ?%not_elem_of_nil. }
  assert ((∀ m, in_background s p m →
      ∃ t, mission_at s target = Some t ∧ String.ltb (missionTime_ t) (missionTime_ m) = true) →
    let out := earliest_loop s ps target in
    (out = target ∧ ∀ q m, q ∈ p :: ps → in_background s q m →
       ∃ t, mission_at s target = Some t ∧ String.ltb (missionTime_ t) (missionTime_ m) = true) ∨
    ∃ q m, q ∈ p :: ps ∧ in_background s q m ∧ out = q ∧
      (∀ q' m', q' ∈ p :: ps → in_background s q' m' →
         String.leb (missionTime_ m) (missionTime_ m') = true) ∧
      (∀ t, mission_at s target = Some t → String.leb (missionTime_ m) (missionTime_ t) = true))
    as Hskip.
  { intros Hp. destruct (IH target) as [[E H]|(q & m & Hq & Hb & E & H1 & H2)].
    - left. split; [done|]. intros q m [->|Hq]%elem_of_cons; eauto.
    - right. exists q, m. split_and!; try done; [by right|].
      intros q' m' [->|Hq']%elem_of_cons Hb'; [|eauto].
      destruct (Hp m' Hb') as (t & Ht & Hlt). eapply string_leb_trans; [by apply H2|].
      by apply string_ltb_le. }
  unfold GetAbilityRecord, GetMissionTime in *.
  destruct (mission_at s p) as [m|] eqn:Em; [|apply Hskip; intros m [? _]; congruence].
  destruct (record_at s (abilityRecord_ m)) as [r|] eqn:Er;
    [|apply Hskip; intros m' [? (r' & ? & _)]; congruence].
  destruct (bool_decide_reflect (currentState_ r = BACKGROUND)) as [Eb|Eb]; cbn [negb orb];
    [|apply Hskip; intros m' [? (r' & ? & ?)]; congruence].
  assert (in_background s p m) as Hbm by (split; [done|eauto]).
  destruct (match mission_at s target with
            | Some t => String.ltb (missionTime_ t) (missionTime_ m) | None => false end) eqn:Et.
  { apply Hskip. intros m' [Hm' _]. destruct (mission_at s target) as [t|]; [|done].
    exists t. split; [done|]. congruence. }
  assert (∀ t, mission_at s target = Some t → String.leb (missionTime_ m) (missionTime_ t) = true) as Hle.
  { intros t Ht. rewrite Ht, string_ltb_leb in Et. by apply negb_false_iff in Et. }
  right. destruct (IH p) as [[E H]|(q & m2 & Hq & Hb & E & H1 & H2)].
  - exists p, m. split_and!; try done; [left|].
    intros q' m' [->|Hq']%elem_of_cons Hb'.
    + destruct Hb' as [? _]. assert (m' = m) as -> by congruence. apply string_leb_refl.
    + destruct (H q' m' Hq' Hb') as (t & Ht & Hlt). apply string_ltb_le. congruence.
  - exists q, m2. split_and!; try done; [by right| |].
    + intros q' m' [->|Hq']%elem_of_cons Hb'; [|eauto]. apply H2. by destruct Hb'.
    + intros t Ht. eapply string_leb_trans; [by apply H2|]. by apply Hle.
Qed.

(** ** Theorems *)

(** The changes of a list. On a list of existing missions without
    duplicates, every operation is defined and leaves such a list: adding puts the
    mission on top, once, with the list as its owner unless it was on top already,
    and keeps the order of the others; removing a mission, the mission of a record
    or the missions of an uninstalled application only drops missions. *)
Theorem mission_list_ops (s : Store) (self : Z) (ml : MissionList) :
  list_wf s ml →
  (∀ a m, missionHeap s !! a = Some m →
     ∃ s' ml', AddMissionToTop s self ml (Some a) = Ret (s', ml') ∧ list_wf s' ml' ∧
       GetTopMission ml' = Some a ∧
       missions_ ml' = Some a :: filter (λ p, p ≠ Some a) (missions_ ml) ∧
       (GetTopMission ml = Some a ∨ GetMissionList <$> missionHeap s' !! a = Some (Some self))) ∧
  (∀ p, list_wf s (RemoveMission ml p) ∧
     missions_ (RemoveMission ml p) = filter (λ q, q ≠ p) (missions_ ml)) ∧
  (∀ rec, ∃ ml', RemoveMissionByAbilityRecord s ml rec = Ret ml' ∧ list_wf s ml' ∧
     sublist (missions_ ml') (missions_ ml) ∧
     ∀ p m, p ∈ missions_ ml → mission_at s p = Some m → abilityRecord_ m ≠ rec →
       p ∈ missions_ ml') ∧
  (∀ bundleName uid, let r := HandleUnInstallApp s ml bundleName uid in
     list_wf r.1 r.2 ∧ sublist (missions_ r.2) (missions_ ml)).
Proof.
  intros Hwf. pose proof Hwf as [Hnd Hall]. split_and!.
  - intros a m Hm. unfold AddMissionToTop. case_bool_decide as Htop.
    + exists s, ml. destruct (missions_ ml) as [|p ps] eqn:E; [done|]. injection Htop as ->.
      apply NoDup_cons in Hnd as [Hn _]. unfold GetTopMission. rewrite E.
      split_and!; try done; [|by left].
      rewrite filter_cons_False by tauto. f_equal. symmetry. apply filter_all. intros q Hq ->. done.
    + rewrite Hm. eexists _, _. split; [done|]. split_and!; try done.
      * split; cbn.
        -- constructor; [rewrite list_elem_of_filter; tauto|by apply NoDup_filter].
        -- constructor; [cbn; rewrite lookup_insert_eq; eauto|].
           rewrite Forall_forall in *. intros p [_ Hp]%list_elem_of_filter.
           by apply set_mission_at, Hall.
      * right. cbn. by rewrite lookup_insert_eq.
  - intros p. split; [by eapply list_wf_sublist, erase_first_sublist|].
    cbn. clear Hwf Hall. induction Hnd as [|q ps Hq Hnd IH]; [done|]. cbn [erase_first].
    rewrite filter_cons. destruct (bool_decide_reflect (q = p)) as [->|Hne].
    + rewrite decide_False by tauto. symmetry. apply filter_all. intros x Hx ->. done.
    + rewrite decide_True by done. by rewrite IH.
  - intros rec. destruct (remove_by_record_wf s (missions_ ml) rec Hall) as (ps & E & Hsub & Hkeep).
    unfold RemoveMissionByAbilityRecord. rewrite E. cbn. eexists. split; [done|].
    split_and!; try done. by eapply list_wf_sublist.
  - intros bundleName uid r.
    destruct (uninstall_loop_spec s (missions_ ml) bundleName uid) as [Hps [Hm _]].
    unfold r, HandleUnInstallApp. destruct (uninstall_loop _ _ _ _) as [s' ps].
    cbn [fst snd missions_] in *. rewrite Hps. split; [|apply sublist_filter].
    destruct (list_wf_sublist s (type_ ml)
      (filter (λ p, dropped s p bundleName uid = false) (missions_ ml)) ml Hwf) as [H1 H2];
      [apply sublist_filter|].
    split; [done|]. unfold mission_at in *. by rewrite Hm.
Qed.

(** Uninstalling an application. The missions whose ability belongs to the
    application and was never started are dropped, the others stay in order; the
    records of the missions of the application are marked as uninstalled, and
    nothing else changes. *)
Theorem HandleUnInstallApp_spec (s : Store) (ml : MissionList) (bundleName : string) (uid : Z) :
  let r := HandleUnInstallApp s ml bundleName uid in
  (∀ p, p ∈ missions_ r.2 ↔ p ∈ missions_ ml ∧
     ¬ ∃ a rec, app_mission s p bundleName uid a rec ∧ currentState_ rec = INITIAL) ∧
  sublist (missions_ r.2) (missions_ ml) ∧
  missionHeap r.1 = missionHeap s ∧
  (∀ p a rec, p ∈ missions_ ml → app_mission s p bundleName uid a rec →
     recordHeap r.1 !! a = Some (rec <| isUninstall_ := true |>)) ∧
  (∀ a, (¬ ∃ p rec, p ∈ missions_ ml ∧ app_mission s p bundleName uid a rec) →
     recordHeap r.1 !! a = recordHeap s !! a).
Proof.
  intros r. destruct (uninstall_loop_spec s (missions_ ml) bundleName uid) as [Hps [Hm Hr]].
  unfold r, HandleUnInstallApp. destruct (uninstall_loop _ _ _ _) as [s' ps].
  cbn [fst snd missions_] in *. split_and!.
  - intros p. rewrite Hps, list_elem_of_filter, dropped_false. tauto.
  - rewrite Hps. apply sublist_filter.
  - done.
  - intros p a rec Hp (Ha & Erec & Hb & Hu).
    destruct (Hr a) as [[E _]|(rec' & E & [(_ & _ & _ & ->)|[Hno _]])]; [congruence|congruence|].
    assert (rec' = rec) as -> by congruence. destruct Hno. split; [by exists p|done].
  - intros a Hno. destruct (Hr a) as [[-> ->]|(rec & E & [((p & Hp & Ha) & Hb & Hu & _)|[_ E']])];
      [done| |congruence].
    destruct Hno. exists p, rec. by split_and!.
Qed.

(** The most recent standard mission. For a non-empty name the result is
    the mission with the greatest time among the standard missions of that name,
    the last one in list order when several have it; there is no result exactly
    when no such mission has a time of at least "0". *)
Theorem GetRecentStandardMission_spec (s : Store) (ml : MissionList) (missionName : string) :
  missionName ≠ "" →
  match GetRecentStandardMission s ml missionName with
  | None => ∀ p m, p ∈ missions_ ml → standard_named s missionName p m →
      String.leb "0" (missionTime_ m) = false
  | Some a => ∃ l1 m l2, missions_ ml = l1 ++ Some a :: l2 ∧ standard_named s missionName (Some a) m ∧
      String.leb "0" (missionTime_ m) = true ∧
      (∀ p m', p ∈ l1 → standard_named s missionName p m' →
         String.leb (missionTime_ m') (missionTime_ m) = true) ∧
      (∀ p m', p ∈ l2 → standard_named s missionName p m' →
         String.leb (missionTime_ m) (missionTime_ m') = false)
  end.
Proof.
  intros Hn. unfold GetRecentStandardMission. rewrite bool_decide_eq_false_2 by done.
  destruct (recent_loop_spec s (missions_ ml) missionName "0" None)
    as [[-> H]|(l1 & p & m & l2 & E & -> & Hs & Ht & H1 & H2)]; [done|].
  destruct p as [a|]; [|by destruct Hs]. by exists l1, m, l2.
Qed.

(** The earliest background mission. Passing the target through a sequence
    of lists, as the manager does, ends with no mission exactly when no list has a
    mission in the background, and otherwise with a background mission of one of
    the lists whose time is not after that of any background mission. *)
Theorem FindEarliestMission_spec (s : Store) (mls : list MissionList) :
  let out := fold_left (λ t ml, FindEarliestMission s ml t) mls None in
  match out with
  | None => ∀ ml p m, ml ∈ mls → p ∈ missions_ ml → ¬ in_background s p m
  | Some a => ∃ ml m, ml ∈ mls ∧ Some a ∈ missions_ ml ∧ in_background s (Some a) m ∧
      ∀ ml' p m', ml' ∈ mls → p ∈ missions_ ml' → in_background s p m' →
        String.leb (missionTime_ m) (missionTime_ m') = true
  end.
Proof.
  intros out.
  assert (out = earliest_loop s (mls ≫= missions_) None) as ->.
  { unfold out. generalize (None : option Z). induction mls as [|ml mls IH]; intros t; [done|].
    cbn [fold_left]. rewrite IH, bind_cons, earliest_loop_app. done. }
  destruct (earliest_loop_spec s (mls ≫= missions_) None)
    as [[-> H]|(p & m & Hp & Hb & -> & H & _)].
  - intros ml p m Hml Hp Hb. destruct (H p m) as (t & ? & _); [|done|done].
    apply list_elem_of_bind. eauto.
  - destruct p as [a|]; [|by destruct Hb]. apply list_elem_of_bind in Hp as (ml & Hp & Hml).
    exists ml, m. split_and!; try done. intros ml' p m' Hml' Hp' Hb'. apply (H p m'); [|done].
    apply list_elem_of_bind. eauto.
Qed.

(** ** Concrete lists *)

Definition ex_record (id : Z) (bundle : string) (state : AbilityState) : AbilityRecord :=
  mkAbilityRecord id id "Entry" bundle "entry" "" STANDARD bundle 100 100 7 state "" false [] false false
    (mkAbilityTraits PAGE false false false true 0 bundle false) (new_life 5).

Definition ex_mission (id : Z) (time : string) : Mission :=
  UpdateMissionTime (Mission_new id (Some id) "app:entry" 0) time.

Definition ex_store : Store :=
  mkStore {[ 1 := ex_mission 1 "100"; 2 := ex_mission 2 "200"; 3 := ex_mission 3 "200" ]}
    {[ 1 := ex_record 1 "app" INITIAL; 2 := ex_record 2 "app" BACKGROUND;
       3 := ex_record 3 "other" BACKGROUND ]}.

Definition ex_list : MissionList := mkMissionList CURRENT [Some 1; Some 2; Some 3].

Lemma mission_list_ops_witness :
  list_wf ex_store ex_list ∧
  ∃ s' ml', AddMissionToTop ex_store 9 ex_list (Some 3) = Ret (s', ml') ∧
    missions_ ml' = [Some 3; Some 1; Some 2].
Proof.
  assert (list_wf ex_store ex_list) as Hwf.
  { split; [apply (bool_decide_unpack _); vm_compute; exact I|].
    cbn. repeat constructor; vm_compute; eauto. }
  split; [exact Hwf|].
  destruct (proj1 (mission_list_ops ex_store 9 ex_list Hwf) 3 (ex_mission 3 "200"))
    as (s' & ml' & E & _ & _ & Hm & _); [reflexivity|].
  exists s', ml'. split; [exact E|]. rewrite Hm. vm_compute. reflexivity.
Defined.

Lemma GetRecentStandardMission_spec_witness :
  GetRecentStandardMission ex_store ex_list "app:entry" = Some 3 ∧
  ∃ l1 m l2, missions_ ex_list = l1 ++ Some 3 :: l2 ∧
    standard_named ex_store "app:entry" (Some 3) m.
Proof.
  assert (GetRecentStandardMission ex_store ex_list "app:entry" = Some 3) as E
    by (vm_compute; reflexivity).
  split; [exact E|].
  pose proof (GetRecentStandardMission_spec ex_store ex_list "app:entry" ltac:(discriminate)) as H.
  rewrite E in H. destruct H as (l1 & m & l2 & H1 & H2 & _). by exists l1, m, l2.
Defined.
