(* ===== verification/MissionInfoMgr.v ===== *)
(** * The mission information manager

    [services/abilitymgr/src/mission_info_mgr.cpp]: the list of missions in the
    order of their time stamps, the map of the identifiers handed out, and the
    calls to the persistent store.

    The store is [TaskDataPersistenceMgr], reached through the class
    [MissionStore]: the manager's theorems need only what [MissionStoreLaws]
    promises of a load. *)

From stdpp Require Import prelude gmap strings list sorting.
From Stdlib Require Import ZArith Lia.
From S2P Require Import Prelude MissionInfo.

(** ** The interface of the store *)

Class MissionStore {WL : WantLib} := {
  Store : Type;
  store_Init : Z → Store → bool * Store;
  store_SaveMissionInfo : InnerMissionInfo → Store → bool * Store;
  store_DeleteMissionInfo : Z → Store → bool * Store;
  store_LoadAllMissionInfo : Store → list InnerMissionInfo → bool * list InnerMissionInfo;
}.

Definition mission_id {WL : WantLib} (i : InnerMissionInfo) : Z := id (missionInfo i).
Definition mission_time {WL : WantLib} (i : InnerMissionInfo) : string := time (missionInfo i).

(** A load that starts from an empty list yields missions with distinct
    identifiers, and leaves the list empty when it fails. *)
Class MissionStoreLaws {WL : WantLib} (MS : MissionStore) : Prop := {
  load_distinct : ∀ st, NoDup (mission_id <$> (store_LoadAllMissionInfo st []).2);
  load_failed : ∀ st, (store_LoadAllMissionInfo st []).1 = false →
    (store_LoadAllMissionInfo st []).2 = [];
}.

Definition MIN_MISSION_ID : Z := 1.
Definition MAX_MISSION_ID : Z := INT_MAX.
Definition MISSION_NOT_FOUND : Z := 2097182.

(** [AppExecFwk::LaunchMode] and [StartMethod]. *)
Definition SINGLETON : Z := 0.
Definition STANDARD : Z := 1.
Definition SPECIFIED : Z := 2.
Definition START_CALL : Z := 1.

Section Manager.
Context {WL : WantLib} {MS : MissionStore}.

Record MissionInfoMgr := mkMgr {
  currentMissionId_ : Z;
  missionIdMap_ : gmap Z bool;
  missionInfoList_ : list InnerMissionInfo;
  taskDataPersistenceMgr_ : option Store;
}.

#[global] Instance MissionInfoMgr_reconstruct : Reconstruct MissionInfoMgr := λ s,
  mkMgr (currentMissionId_ s) (missionIdMap_ s) (missionInfoList_ s) (taskDataPersistenceMgr_ s).

Definition MissionInfoMgr_new : MissionInfoMgr := mkMgr MIN_MISSION_ID ∅ [] None.

(** ** Identifiers *)

(** The loop [for (index = currentMissionId_; index < MAX_MISSION_ID; index++)].
    The map is finite, so one more step than its size finds a free index. *)
Fixpoint free_id (fuel : nat) (ids : gmap Z bool) (index : Z) : option Z :=
  match fuel with
  | O => None
  | S fuel =>
      if (index <? MAX_MISSION_ID)%Z then
        match ids !! index with
        | None => Some index
        | Some _ => free_id fuel ids (index + 1)%Z
        end
      else None
  end.

Definition GenerateMissionId (s : MissionInfoMgr) : option Z * MissionInfoMgr :=
  let s := if decide (currentMissionId_ s = MAX_MISSION_ID)
           then s <| currentMissionId_ := MIN_MISSION_ID |> else s in
  match free_id (S (size (missionIdMap_ s))) (missionIdMap_ s) (currentMissionId_ s) with
  | Some missionId =>
      (Some missionId,
       s <| missionIdMap_ ::= <[missionId := false]> |>
         <| currentMissionId_ := (missionId + 1)%Z |>)
  | None => (None, s)
  end.

(** ** Adding, updating and deleting *)

(** The saved identifiers: present in the map with the value true. *)
Definition is_saved (s : MissionInfoMgr) (i : Z) : bool :=
  match missionIdMap_ s !! i with Some b => b | None => false end.

Definition AddMissionInfoInner (s : MissionInfoMgr) (info : InnerMissionInfo)
    : outcome (bool * MissionInfoMgr) :=
  let i := mission_id info in
  if is_saved s i then Ret (false, s)
  else
    let* st := deref (taskDataPersistenceMgr_ s) in
    let '(ok, st') := store_SaveMissionInfo info st in
    let s := s <| taskDataPersistenceMgr_ := Some st' |> in
    if ok then
      Ret (true,
           s <| missionInfoList_ ::=
                  insert_at (λ y, String.ltb (mission_time y) (mission_time info)) info |>
             <| missionIdMap_ ::= <[i := true]> |>)
    else Ret (false, s).

Definition AddMissionInfo := AddMissionInfoInner.

Definition has_id (i : Z) (x : InnerMissionInfo) : bool := bool_decide (mission_id x = i).

(** [*listIter = info] at the first element with the identifier [i]. *)
Fixpoint assign_first (i : Z) (f : InnerMissionInfo → InnerMissionInfo)
    (l : list InnerMissionInfo) : list InnerMissionInfo :=
  match l with
  | [] => []
  | x :: l' => if has_id i x then f x :: l' else x :: assign_first i f l'
  end.

Definition UpdateMissionInfo (s : MissionInfoMgr) (info : InnerMissionInfo)
    : outcome (bool * MissionInfoMgr) :=
  let i := mission_id info in
  if negb (is_saved s i) then Ret (false, s)
  else
    match find_if (has_id i) (missionInfoList_ s) with
    | None => Ret (false, s)
    | Some old =>
        if String.eqb (mission_time info) (mission_time old) then
          let s := s <| missionInfoList_ ::= assign_first i (λ _, info) |> in
          let* st := deref (taskDataPersistenceMgr_ s) in
          let '(ok, st') := store_SaveMissionInfo info st in
          Ret (ok, s <| taskDataPersistenceMgr_ := Some st' |>)
        else
          AddMissionInfoInner
            (s <| missionInfoList_ ::= erase_first (has_id i) |>
               <| missionIdMap_ ::= delete i |>) info
    end.

Definition DeleteMissionInfo (s : MissionInfoMgr) (missionId : Z) : bool * MissionInfoMgr :=
  match missionIdMap_ s !! missionId with
  | None => (true, s)
  | Some false => (true, s <| missionIdMap_ ::= delete missionId |>)
  | Some true =>
      match taskDataPersistenceMgr_ s with
      | None => (false, s)
      | Some st =>
          let '(ok, st') := store_DeleteMissionInfo missionId st in
          let s := s <| taskDataPersistenceMgr_ := Some st' |> in
          if ok then
            (true, s <| missionInfoList_ ::= erase_first (has_id missionId) |>
                     <| missionIdMap_ ::= delete missionId |>)
          else (false, s)
      end
  end.

(** A mission that survives the clearing of the list. *)
Definition not_cleared (IsBackgroundTaskUid : Z → bool) (x : InnerMissionInfo) : bool :=
  let isUnclearable := unclearable (missionInfo x) && (runningState (missionInfo x) =? 0)%Z in
  lockedState (missionInfo x) || IsBackgroundTaskUid (uid x) || isUnclearable.

Record clear_state := mkClear {
  cl_ids : gmap Z bool;
  cl_store : Store;
  cl_notified : list Z;
}.

(** The loop over the list: what is kept of it, and the effects on the map, the
    store and the listeners ([NotifyMissionDestroyed]). *)
Fixpoint clear_loop (bg : Z → bool) (hasListener : bool) (l : list InnerMissionInfo)
    (c : clear_state) : list InnerMissionInfo * clear_state :=
  match l with
  | [] => ([], c)
  | x :: l' =>
      if not_cleared bg x then
        let '(kept, c') := clear_loop bg hasListener l' c in (x :: kept, c')
      else
        clear_loop bg hasListener l'
          (mkClear (delete (mission_id x) (cl_ids c))
             (store_DeleteMissionInfo (mission_id x) (cl_store c)).2
             (if hasListener then cl_notified c ++ [mission_id x] else cl_notified c))
  end.

Definition DeleteAllMissionInfos (bg : Z → bool) (hasListener : bool) (s : MissionInfoMgr)
    : bool * MissionInfoMgr * list Z :=
  match taskDataPersistenceMgr_ s with
  | None => (false, s, [])
  | Some st =>
      let '(kept, c) := clear_loop bg hasListener (missionInfoList_ s)
                          (mkClear (missionIdMap_ s) st []) in
      (true, s <| missionInfoList_ := kept |> <| missionIdMap_ := cl_ids c |>
               <| taskDataPersistenceMgr_ := Some (cl_store c) |>, cl_notified c)
  end.

(** ** Queries *)

Definition DoesNotShowInTheMissionList (mission : InnerMissionInfo) : bool :=
  let isStartByCall := (startMethod mission =? START_CALL)%Z in
  isStartByCall &&
  negb (want_GetBoolParam (want (missionInfo mission)) PARAM_RESV_CALL_TO_FOREGROUND false).

Fixpoint collect_infos (numMax : Z) (l : list InnerMissionInfo) (infos : list MissionInfo)
    : list MissionInfo :=
  match l with
  | [] => infos
  | mission :: l' =>
      if (Z.of_nat (length infos) >=? numMax)%Z then infos
      else if DoesNotShowInTheMissionList mission then collect_infos numMax l' infos
      else collect_infos numMax l' (infos ++ [missionInfo mission])
  end.

Definition GetMissionInfos (s : MissionInfoMgr) (numMax : Z) (missionInfos : list MissionInfo)
    : Z * list MissionInfo :=
  if (numMax <? 0)%Z then ((-1)%Z, missionInfos)
  else (0%Z, collect_infos numMax (missionInfoList_ s) missionInfos).

Definition GetMissionInfoById (s : MissionInfoMgr) (missionId : Z) : Z * option MissionInfo :=
  match missionIdMap_ s !! missionId with
  | None => ((-1)%Z, None)
  | Some _ =>
      match find_if (has_id missionId) (missionInfoList_ s) with
      | None => ((-1)%Z, None)
      | Some x =>
          if DoesNotShowInTheMissionList x then ((-1)%Z, None)
          else (0%Z, Some (missionInfo x))
      end
  end.

Definition GetInnerMissionInfoById (s : MissionInfoMgr) (missionId : Z)
    : Z * option InnerMissionInfo :=
  match missionIdMap_ s !! missionId with
  | None => (MISSION_NOT_FOUND, None)
  | Some _ =>
      match find_if (has_id missionId) (missionInfoList_ s) with
      | None => (MISSION_NOT_FOUND, None)
      | Some x => (0%Z, Some x)
      end
  end.

Definition reusable (missionName' flag : string) (isFindRecentStandard : bool)
    (item : InnerMissionInfo) : bool :=
  if negb (String.eqb missionName' (missionName item)) then false
  else if isFindRecentStandard && (launchMode item =? STANDARD)%Z then true
  else if (launchMode item =? SINGLETON)%Z then true
  else if (launchMode item =? SPECIFIED)%Z then String.eqb flag (specifiedFlag item)
  else false.

Definition FindReusedMissionInfo (s : MissionInfoMgr) (missionName' flag : string)
    (isFindRecentStandard : bool) : option InnerMissionInfo :=
  if String.eqb missionName' "" then None
  else find_if (reusable missionName' flag isFindRecentStandard) (missionInfoList_ s).

(** ** Updates in place *)

Definition UpdateMissionContinueState (s : MissionInfoMgr) (missionId state : Z)
    : Z * MissionInfoMgr :=
  if (missionId <=? 0)%Z then ((-1)%Z, s)
  else
    match find_if (has_id missionId) (missionInfoList_ s) with
    | None => ((-1)%Z, s)
    | Some _ =>
        (0%Z, s <| missionInfoList_ ::=
                   assign_first missionId (λ x, x <| missionInfo ::= (λ m, m <| continueState := state |>) |>) |>)
    end.

Definition UpdateMissionLabel (s : MissionInfoMgr) (missionId : Z) (label' : string)
    : Z * MissionInfoMgr :=
  match taskDataPersistenceMgr_ s with
  | None => ((-1)%Z, s)
  | Some st =>
      match find_if (has_id missionId) (missionInfoList_ s) with
      | None => ((-1)%Z, s)
      | Some x =>
          let relabel x := x <| missionInfo ::= (λ m, m <| label := label' |>) |> in
          let '(ok, st') := store_SaveMissionInfo (relabel x) st in
          (if ok then 0%Z else (-1)%Z,
           s <| missionInfoList_ ::= assign_first missionId relabel |>
             <| taskDataPersistenceMgr_ := Some st' |>)
      end
  end.

Definition SetMissionAbilityState (s : MissionInfoMgr) (missionId state : Z) : MissionInfoMgr :=
  if (missionId <=? 0)%Z then s
  else
    match find_if (has_id missionId) (missionInfoList_ s) with
    | None => s
    | Some _ =>
        s <| missionInfoList_ ::=
             assign_first missionId (λ x, x <| missionInfo ::= (λ m, m <| abilityState := state |>) |>) |>
    end.

(** ** Loading and uninstallation *)

Definition LoadAllMissionInfo (s : MissionInfoMgr) : bool * MissionInfoMgr :=
  match taskDataPersistenceMgr_ s with
  | None => (false, s)
  | Some st =>
      let '(ok, l) := store_LoadAllMissionInfo st (missionInfoList_ s) in
      if ok then
        let l := stable_sort (λ x y, String.ltb (mission_time y) (mission_time x)) l in
        (true, s <| missionInfoList_ := l |>
                 <| missionIdMap_ ::= λ ids, foldl (λ ids x, <[mission_id x := true]> ids) ids l |>)
      else (false, s <| missionInfoList_ := l |>)
  end.

(** [instance] is what [DelayedSingleton<TaskDataPersistenceMgr>::GetInstance]
    returns. *)
Definition Init (instance : option Store) (s : MissionInfoMgr) (userId : Z)
    : bool * MissionInfoMgr :=
  let s := match taskDataPersistenceMgr_ s with
           | None => s <| taskDataPersistenceMgr_ := instance |>
           | Some _ => s
           end in
  match taskDataPersistenceMgr_ s with
  | None => (false, s)
  | Some st =>
      let '(ok, st') := store_Init userId st in
      let s := s <| taskDataPersistenceMgr_ := Some st' |> in
      if ok then LoadAllMissionInfo (s <| missionInfoList_ := [] |> <| missionIdMap_ := ∅ |>)
      else (false, s)
  end.

Definition GetMatchedMission (s : MissionInfoMgr) (bundleName' : string) (uid' : Z)
    (missions : list Z) : list Z :=
  missions ++
  (mission_id <$> filter (λ x, bundleName x = bundleName' ∧ uid x = uid') (missionInfoList_ s)).

Definition HandleUnInstallApp (s : MissionInfoMgr) (bundleName' : string) (uid' : Z)
    (missions : list Z) : list Z * MissionInfoMgr :=
  let missions := GetMatchedMission s bundleName' uid' missions in
  (missions, foldl (λ s i, (DeleteMissionInfo s i).2) s missions).

Definition Dump (s : MissionInfoMgr) (info : list string) : list string :=
  foldl (λ info x, InnerMissionInfo_Dump x info) info (missionInfoList_ s).
End Manager.

(** ** Lists of missions with distinct identifiers *)

Section Lists.
Context {WL : WantLib}.
Implicit Types (l : list InnerMissionInfo) (x y : InnerMissionInfo).

(** From the most recent to the oldest. *)
Definition not_older x y : Prop := String.leb (mission_time y) (mission_time x) = true.

#[global] Instance not_older_trans : Transitive not_older.
Proof. intros x y z Hxy Hyz. unfold not_older in *. eauto using string_leb_trans. Qed.

Lemma has_id_true i x : has_id i x = true ↔ mission_id x = i.
Proof. apply bool_decide_eq_true. Qed.

(** The missions of a list, by identifier. *)
Definition missions_of l : gmap Z InnerMissionInfo := list_to_map ((λ x, (mission_id x, x)) <$> l).

Lemma missions_of_keys l : ((λ x, (mission_id x, x)) <$> l).*1 = mission_id <$> l.
Proof. rewrite <-list_fmap_compose. by apply list_fmap_ext. Qed.

Lemma missions_of_lookup l i x :
  NoDup (mission_id <$> l) →
  missions_of l !! i = Some x ↔ x ∈ l ∧ mission_id x = i.
Proof.
  intros Hnd. unfold missions_of. rewrite <-elem_of_list_to_map by (by rewrite missions_of_keys).
  rewrite list_elem_of_fmap. naive_solver.
Qed.

Lemma missions_of_None l i : missions_of l !! i = None ↔ i ∉ mission_id <$> l.
Proof.
  unfold missions_of. rewrite <-not_elem_of_list_to_map. by rewrite missions_of_keys.
Qed.

Lemma missions_of_find l i :
  NoDup (mission_id <$> l) → find_if (has_id i) l = missions_of l !! i.
Proof.
  intros Hnd. destruct (find_if (has_id i) l) as [x|] eqn:E; symmetry.
  - apply find_if_elem in E as [Hx Hi]. apply missions_of_lookup; [done|].
    by rewrite <-has_id_true.
  - rewrite find_if_None in E. apply missions_of_None.
    intros (x & -> & Hx)%list_elem_of_fmap. specialize (E x Hx).
    by rewrite (proj2 (has_id_true _ _) eq_refl) in E.
Qed.

Lemma missions_of_Permutation l k :
  NoDup (mission_id <$> l) → l ≡ₚ k → missions_of l = missions_of k.
Proof.
  intros Hnd Hp. unfold missions_of. apply list_to_map_proper; [by rewrite missions_of_keys|].
  by rewrite Hp.
Qed.

Lemma missions_of_cons x l : missions_of (x :: l) = <[mission_id x := x]> (missions_of l).
Proof. done. Qed.

(** Erasing the element with an identifier deletes it from the map. *)
Lemma missions_of_erase l i :
  NoDup (mission_id <$> l) →
  missions_of (erase_first (has_id i) l) = delete i (missions_of l).
Proof.
  intros Hnd. destruct (find_if (has_id i) l) as [x|] eqn:E.
  - pose proof (erase_first_Permutation _ _ _ E) as Hp.
    apply find_if_elem in E as [_ Hi%has_id_true].
    rewrite (missions_of_Permutation _ _ Hnd Hp), missions_of_cons, Hi.
    rewrite Hp in Hnd. apply NoDup_cons in Hnd as [Hn _]. rewrite Hi in Hn.
    rewrite delete_insert_eq. symmetry. apply delete_id. by apply missions_of_None.
  - rewrite find_if_None in E. rewrite erase_first_none by done. symmetry. apply delete_id.
    apply missions_of_None. intros (x & -> & Hx)%list_elem_of_fmap. specialize (E x Hx).
    by rewrite (proj2 (has_id_true _ _) eq_refl) in E.
Qed.

Lemma NoDup_erase l i :
  NoDup (mission_id <$> l) → NoDup (mission_id <$> erase_first (has_id i) l).
Proof. intros Hnd. eapply sublist_NoDup; [exact Hnd|]. apply sublist_fmap_mono, erase_first_sublist. Qed.

(** An assignment through an iterator that keeps the identifier. *)
Lemma assign_first_ids i f l :
  (∀ x, mission_id x = i → mission_id (f x) = i) →
  mission_id <$> assign_first i f l = mission_id <$> l.
Proof.
  intros Hf. induction l as [|x l IH]; csimpl; [done|].
  destruct (has_id i x) eqn:E; csimpl; [|by rewrite IH].
  apply has_id_true in E. f_equal. by rewrite Hf.
Qed.

Lemma missions_of_assign i f l :
  NoDup (mission_id <$> l) → (∀ x, mission_id x = i → mission_id (f x) = i) →
  missions_of (assign_first i f l) = alter f i (missions_of l).
Proof.
  intros Hnd Hf. induction l as [|x l IH]; simpl.
  { apply map_eq. intros j. unfold missions_of. simpl.
    rewrite lookup_alter, !lookup_empty. by case_decide. }
  apply NoDup_cons in Hnd as [Hn Hnd]. rewrite (missions_of_cons x l).
  destruct (has_id i x) eqn:E.
  - apply has_id_true in E. rewrite missions_of_cons, (Hf x E), E, alter_insert_eq. done.
  - rewrite missions_of_cons, IH by done. rewrite alter_insert_ne; [done|].
    intros ->. by rewrite (proj2 (has_id_true _ _) eq_refl) in E.
Qed.

(** An assignment that keeps the time stamps keeps the order. *)
Lemma assign_first_times i f l x :
  find_if (has_id i) l = Some x → mission_time (f x) = mission_time x →
  mission_time <$> assign_first i f l = mission_time <$> l.
Proof.
  induction l as [|y l IH]; csimpl; [done|].
  destruct (has_id i y); csimpl; [by intros [= ->] ->|]. intros. by rewrite IH.
Qed.

Lemma sorted_times l k :
  mission_time <$> l = mission_time <$> k →
  StronglySorted not_older l → StronglySorted not_older k.
Proof.
  revert k. induction l as [|x l IH]; intros [|y k] Heq Hl; simplify_eq/=; [constructor|].
  inversion Hl as [|?? Hl' Hx]; subst. constructor; [by apply IH|].
  rewrite Forall_forall in Hx |- *. intros z Hz.
  assert (mission_time z ∈ mission_time <$> l) as (w & Hw & Hwl)%list_elem_of_fmap.
  { match goal with H : _ <$> l = _ |- _ => rewrite H end. by apply list_elem_of_fmap_2. }
  specialize (Hx w Hwl). unfold not_older in *. congruence.
Qed.
End Lists.

(** ** The invariant *)

Section Invariant.
Context {WL : WantLib} {MS : MissionStore}.
Implicit Types (s : MissionInfoMgr) (info : InnerMissionInfo).

(** The missions the manager holds, by identifier. *)
Definition missions s : gmap Z InnerMissionInfo := missions_of (missionInfoList_ s).

(** The list goes from the most recent mission to the oldest, its identifiers
    are distinct, and they are the identifiers marked as saved. *)
Record mgr_inv s : Prop := {
  inv_sorted : StronglySorted not_older (missionInfoList_ s);
  inv_nodup : NoDup (mission_id <$> missionInfoList_ s);
  inv_saved : ∀ i, missionIdMap_ s !! i = Some true ↔ i ∈ mission_id <$> missionInfoList_ s;
}.

Lemma is_saved_spec s i : is_saved s i = true ↔ missionIdMap_ s !! i = Some true.
Proof. unfold is_saved. destruct (missionIdMap_ s !! i) as [[]|]; naive_solver. Qed.

Lemma saved_missions s i : mgr_inv s → missionIdMap_ s !! i = Some true ↔ is_Some (missions s !! i).
Proof.
  intros Hs. rewrite (inv_saved s Hs). unfold missions.
  destruct (missions_of (missionInfoList_ s) !! i) as [x|] eqn:E.
  - apply missions_of_lookup in E as [Hx <-]; [|apply Hs]. split; [eauto|].
    intros _. by apply list_elem_of_fmap_2.
  - apply missions_of_None in E. split; [done|]. by intros [? ?].
Qed.

Lemma new_inv : mgr_inv MissionInfoMgr_new.
Proof.
  split; simpl; [constructor|constructor|]. intros i. rewrite lookup_empty.
  split; [done|]. by intros ?%not_elem_of_nil.
Qed.

(** The store pointer is no part of the invariant. *)
Lemma inv_store s p : mgr_inv s → mgr_inv (s <| taskDataPersistenceMgr_ := p |>).
Proof. intros []. by split. Qed.

(** *** Handing out identifiers *)

Lemma free_id_Some fuel ids index k :
  free_id fuel ids index = Some k →
  (index ≤ k < MAX_MISSION_ID)%Z ∧ ids !! k = None ∧
  ∀ j, (index ≤ j < k)%Z → is_Some (ids !! j).
Proof.
  revert index. induction fuel as [|fuel IH]; intros index; simpl; [done|].
  destruct (Z.ltb_spec index MAX_MISSION_ID) as [Hlt|]; [|done].
  destruct (ids !! index) as [b|] eqn:E.
  - intros (Hr & Hk & Hj)%IH. split; [lia|]. split; [done|]. intros j Hij.
    destruct (decide (j = index)) as [->|]; [eauto|]. apply Hj. lia.
  - intros [= <-]. split; [lia|]. split; [done|]. lia.
Qed.

Lemma free_id_None fuel ids index j :
  free_id fuel ids index = None →
  (index ≤ j < MAX_MISSION_ID)%Z → (j < index + Z.of_nat fuel)%Z → is_Some (ids !! j).
Proof.
  revert index. induction fuel as [|fuel IH]; intros index; simpl; [lia|].
  destruct (Z.ltb_spec index MAX_MISSION_ID) as [Hlt|]; [|lia].
  destruct (ids !! index) as [b|] eqn:E; [|done]. intros Hn H1 H2.
  destruct (decide (j = index)) as [->|]; [eauto|]. apply (IH _ Hn); lia.
Qed.

(** The fuel is enough: a run of taken indices is no longer than the map. *)
Lemma taken_run_bound (ids : gmap Z bool) (index : Z) (n : nat) :
  (∀ j, (index ≤ j < index + Z.of_nat n)%Z → is_Some (ids !! j)) → n ≤ size ids.
Proof.
  intros H. rewrite <-size_dom.
  assert (list_to_set (seqZ index (Z.of_nat n)) ⊆ dom ids) as Hsub.
  { intros j. rewrite elem_of_list_to_set, elem_of_seqZ, elem_of_dom. auto. }
  apply subseteq_size in Hsub. rewrite size_list_to_set in Hsub by apply NoDup_seqZ.
  rewrite length_seqZ in Hsub. lia.
Qed.

Lemma free_id_complete ids index j :
  free_id (S (size ids)) ids index = None →
  (index ≤ j < MAX_MISSION_ID)%Z → is_Some (ids !! j).
Proof.
  intros Hn Hj. destruct (decide (j < index + Z.of_nat (S (size ids)))%Z) as [Hlt|Hge].
  { by eapply free_id_None. }
  pose proof (taken_run_bound ids index (S (size ids))) as Hb.
  enough (S (size ids) ≤ size ids) by lia. apply Hb. intros k Hk.
  eapply free_id_None; [done| |]; lia.
Qed.

(** Where the search starts. *)
Definition search_start s : Z :=
  if decide (currentMissionId_ s = MAX_MISSION_ID) then MIN_MISSION_ID else currentMissionId_ s.

Lemma GenerateMissionId_inv s : mgr_inv s → mgr_inv (GenerateMissionId s).2.
Proof.
  intros Hs. unfold GenerateMissionId. set (s1 := if decide _ then _ else s).
  assert (mgr_inv s1) as Hs1 by (unfold s1; case_decide; destruct Hs; by split).
  destruct (free_id _ _ _) as [k|] eqn:E; simpl; [|done].
  apply free_id_Some in E as (_ & Hk & _). destruct Hs1 as [H1 H2 H3].
  split; simpl; [done|done|]. intros i. rewrite <-H3, lookup_insert.
  case_decide; [subst; rewrite Hk; naive_solver|done].
Qed.
(** *** Adding *)

Lemma insert_by_time_sorted info l :
  StronglySorted not_older l →
  StronglySorted not_older
    (insert_at (λ y, String.ltb (mission_time y) (mission_time info)) info l).
Proof.
  apply insert_at_sorted.
  - intros y z. apply not_older_trans.
  - intros y _. apply string_ltb_le.
  - intros y _. rewrite string_ltb_leb. intros ?%negb_false_iff. done.
Qed.

Lemma insert_fresh_inv s info p :
  mgr_inv s → missionIdMap_ s !! mission_id info ≠ Some true →
  let s' := s <| taskDataPersistenceMgr_ := p |>
              <| missionInfoList_ ::=
                   insert_at (λ y, String.ltb (mission_time y) (mission_time info)) info |>
              <| missionIdMap_ ::= <[mission_id info := true]> |> in
  mgr_inv s' ∧ missions s' = <[mission_id info := info]> (missions s).
Proof.
  intros Hs Hn s'. rewrite (inv_saved s Hs) in Hn.
  assert (NoDup (mission_id <$> missionInfoList_ s')) as Hnd.
  { simpl. rewrite insert_at_Permutation. csimpl. constructor; [done|apply Hs]. }
  split; [split; [apply insert_by_time_sorted, Hs|done|]|].
  - intros i. simpl. rewrite insert_at_Permutation. csimpl. rewrite elem_of_cons, lookup_insert.
    rewrite <-(inv_saved s Hs). case_decide; naive_solver.
  - unfold missions. rewrite <-missions_of_cons. apply missions_of_Permutation; [done|].
    apply insert_at_Permutation.
Qed.

Lemma AddMissionInfo_spec s info st :
  mgr_inv s → taskDataPersistenceMgr_ s = Some st →
  let ok := (store_SaveMissionInfo info st).1 in
  let b := bool_decide (missions s !! mission_id info = None) && ok in
  ∃ s', AddMissionInfo s info = Ret (b, s') ∧ mgr_inv s' ∧
        missions s' = (if b then <[mission_id info := info]> (missions s) else missions s) ∧
        (b = false → missionInfoList_ s' = missionInfoList_ s ∧ missionIdMap_ s' = missionIdMap_ s).
Proof.
  intros Hs Hst ok b. unfold AddMissionInfo, AddMissionInfoInner.
  destruct (is_saved s (mission_id info)) eqn:Esv.
  - apply is_saved_spec in Esv as Hsv. apply saved_missions in Hsv as [x Hx]; [|done].
    exists s. unfold b. by rewrite Hx.
  - assert (missionIdMap_ s !! mission_id info ≠ Some true) as Hn.
    { intros H. apply is_saved_spec in H. congruence. }
    assert (missions s !! mission_id info = None) as HN.
    { apply eq_None_not_Some. by rewrite <-saved_missions. }
    rewrite Hst. simpl. unfold b, ok. rewrite HN. rewrite bool_decide_true by done.
    destruct (store_SaveMissionInfo info st) as [[] st']; simpl.
    + eexists. split; [reflexivity|].
      destruct (insert_fresh_inv s info (Some st') Hs Hn) as [H1 H2]. split; [exact H1|].
      split; [exact H2|done].
    + eexists. split; [reflexivity|]. split; [by apply inv_store|done].
Qed.

(** *** Deleting *)

Lemma erase_inv s i p :
  mgr_inv s →
  let s' := s <| taskDataPersistenceMgr_ := p |>
              <| missionInfoList_ ::= erase_first (has_id i) |>
              <| missionIdMap_ ::= delete i |> in
  mgr_inv s' ∧ missions s' = delete i (missions s).
Proof.
  intros Hs s'.
  assert (NoDup (mission_id <$> missionInfoList_ s')) as Hnd by (simpl; apply NoDup_erase, Hs).
  assert (missions s' = delete i (missions s)) as Hm.
  { unfold missions. simpl. apply missions_of_erase, Hs. }
  split; [|done]. split; [|done|].
  - eapply StronglySorted_sublist; [apply erase_first_sublist|apply Hs].
  - intros j. simpl. rewrite lookup_delete. unfold missions in Hm. simpl in Hm.
    pose proof (missions_of_None (missionInfoList_ s') j) as HN. simpl in HN. rewrite Hm in HN.
    rewrite lookup_delete in HN. case_decide as Hd.
    + split; [done|]. intros Hj. exfalso. by apply (proj1 HN).
    + rewrite saved_missions by done. unfold missions.
      destruct (missions_of (missionInfoList_ s) !! j) eqn:E; [|naive_solver].
      split; [|by eauto]. intros _.
      destruct (decide (j ∈ mission_id <$> erase_first (has_id i) (missionInfoList_ s)));
        [done|]. naive_solver.
Qed.

Lemma DeleteMissionInfo_spec s i :
  mgr_inv s →
  let '(b, s') := DeleteMissionInfo s i in
  mgr_inv s' ∧
  if b then missions s' = delete i (missions s) ∧ missionIdMap_ s' = delete i (missionIdMap_ s)
  else missionInfoList_ s' = missionInfoList_ s ∧ missionIdMap_ s' = missionIdMap_ s.
Proof.
  intros Hs. unfold DeleteMissionInfo. destruct (missionIdMap_ s !! i) as [[]|] eqn:E.
  - destruct (taskDataPersistenceMgr_ s) as [st|]; [|done].
    destruct (store_DeleteMissionInfo i st) as [[] st']; [|by split; [apply inv_store|]].
    destruct (erase_inv s i (Some st') Hs) as [H1 H2]. split; [exact H1|]. split; [exact H2|done].
  - assert (missions s !! i = None) as HN.
    { apply eq_None_not_Some. rewrite <-saved_missions by done. congruence. }
    split; [|split; [symmetry; by apply delete_id|done]].
    destruct Hs as [H1 H2 H3]. split; simpl; [done|done|]. intros j.
    rewrite lookup_delete, <-H3. case_decide; [subst; rewrite E; naive_solver|done].
  - split; [done|]. split; symmetry; apply delete_id; [|done].
    apply eq_None_not_Some. rewrite <-saved_missions by done. congruence.
Qed.

(** *** Updating *)

Lemma assign_inv s i f x :
  mgr_inv s → find_if (has_id i) (missionInfoList_ s) = Some x →
  (∀ y, mission_id y = i → mission_id (f y) = i) → mission_time (f x) = mission_time x →
  let s' := s <| missionInfoList_ ::= assign_first i f |> in
  mgr_inv s' ∧ missions s' = <[i := f x]> (missions s).
Proof.
  intros Hs Hx Hf Ht s'. split; [split|].
  - eapply sorted_times; [symmetry; by eapply assign_first_times|apply Hs].
  - simpl. rewrite assign_first_ids by done. apply Hs.
  - intros j. simpl. rewrite assign_first_ids by done. apply Hs.
  - unfold missions. simpl. rewrite missions_of_assign by (done || apply Hs).
    rewrite missions_of_find in Hx by apply Hs. apply map_eq. intros j.
    rewrite lookup_alter, lookup_insert. case_decide; [subst; by rewrite Hx|done].
Qed.

Lemma UpdateMissionInfo_spec s info st :
  mgr_inv s → taskDataPersistenceMgr_ s = Some st →
  let ok := (store_SaveMissionInfo info st).1 in
  let i := mission_id info in
  ∃ b s', UpdateMissionInfo s info = Ret (b, s') ∧ mgr_inv s' ∧
    b = bool_decide (is_Some (missions s !! i)) && ok ∧
    missions s' =
      match missions s !! i with
      | None => missions s
      | Some old =>
          if ok || String.eqb (mission_time info) (mission_time old)
          then <[i := info]> (missions s) else delete i (missions s)
      end.
Proof.
  intros Hs Hst ok i. unfold UpdateMissionInfo. fold i.
  rewrite (missions_of_find _ _ (inv_nodup s Hs)). fold (missions s).
  destruct (is_saved s i) eqn:Esv; simpl.
  2:{ exists false, s. assert (missions s !! i = None) as HN.
      { apply eq_None_not_Some. rewrite <-saved_missions, <-is_saved_spec by done. congruence. }
      by rewrite HN, bool_decide_false by (by intros []). }
  apply is_saved_spec, saved_missions in Esv as [old Hold]; [|done].
  rewrite Hold, bool_decide_true by eauto. simpl.
  assert (find_if (has_id i) (missionInfoList_ s) = Some old) as Hfind.
  { rewrite missions_of_find by apply Hs. done. }
  destruct (String.eqb_spec (mission_time info) (mission_time old)) as [Ht|Ht].
  - simpl. rewrite Hst. simpl. unfold ok. destruct (store_SaveMissionInfo info st) as [ok' st'].
    destruct (assign_inv s i (λ _, info) old Hs Hfind) as [H1 H2]; [done|done|].
    rewrite orb_true_r. do 2 eexists. split; [reflexivity|].
    split; [by apply inv_store|]. split; [done|exact H2].
  - set (s1 := s <| missionInfoList_ ::= _ |> <| missionIdMap_ ::= _ |>).
    destruct (erase_inv s i (Some st) Hs) as [H1 H2].
    assert (mgr_inv s1) as Hs1 by (destruct H1; by split).
    assert (missions s1 = delete i (missions s)) as Hm1 by exact H2.
    destruct (AddMissionInfo_spec s1 info st Hs1 Hst) as (s' & Hadd & Hinv & Hmis & Hno).
    rewrite Hm1 in *. fold i in Hadd, Hmis. rewrite lookup_delete_eq, bool_decide_true in Hadd, Hmis by done.
    simpl in Hadd, Hmis. fold ok in Hadd, Hmis. exists ok, s'.
    split; [exact Hadd|]. split; [done|]. split; [done|].
    rewrite Hmis, orb_false_r. destruct ok; [|done]. by rewrite insert_delete_eq.
Qed.
(** *** Clearing *)

Lemma clear_loop_spec bg hl l c :
  let '(kept, c') := clear_loop bg hl l c in
  kept = filter (λ x, not_cleared bg x = true) l ∧
  cl_notified c' =
    cl_notified c ++ (if hl then mission_id <$> filter (λ x, not_cleared bg x = false) l else []) ∧
  ∀ i, cl_ids c' !! i =
    if decide (i ∈ mission_id <$> filter (λ x, not_cleared bg x = false) l) then None
    else cl_ids c !! i.
Proof.
  revert c. induction l as [|x l IH]; intros c; cbn [clear_loop].
  { split; [done|]. split; [destruct hl; symmetry; apply app_nil_r|].
    intros i. case_decide as Hd; [by apply not_elem_of_nil in Hd|done]. }
  destruct (not_cleared bg x) eqn:E.
  - specialize (IH c). destruct (clear_loop bg hl l c) as [kept c'].
    destruct IH as (-> & Hn & Hi). rewrite !filter_cons, E. simpl. done.
  - match goal with |- context [clear_loop bg hl l ?c'] => specialize (IH c') end.
    destruct (clear_loop bg hl l _) as [kept c']. destruct IH as (-> & Hn & Hi).
    rewrite !filter_cons, E. simpl. simpl in Hn, Hi. split; [done|]. split.
    + rewrite Hn. destruct hl; [|done]. by rewrite <-app_assoc.
    + intros i. rewrite Hi, lookup_delete. csimpl.
      destruct (decide (i = mission_id x)) as [->|Hne].
      * rewrite (decide_True (P := _ ∈ mission_id x :: _)) by apply list_elem_of_here.
        rewrite (decide_True (P := mission_id x = _)) by done. by case_decide.
      * rewrite (decide_False (P := mission_id x = i)) by done.
        apply decide_ext. rewrite elem_of_cons. naive_solver.
Qed.

Lemma DeleteAllMissionInfos_spec bg hl s st :
  mgr_inv s → taskDataPersistenceMgr_ s = Some st →
  let '(b, s', notified) := DeleteAllMissionInfos bg hl s in
  b = true ∧ mgr_inv s' ∧
  missionInfoList_ s' = filter (λ x, not_cleared bg x = true) (missionInfoList_ s) ∧
  (hl = true →
   notified = mission_id <$> filter (λ x, not_cleared bg x = false) (missionInfoList_ s)).
Proof.
  intros Hs Hst. unfold DeleteAllMissionInfos. rewrite Hst.
  pose proof (clear_loop_spec bg hl (missionInfoList_ s) (mkClear (missionIdMap_ s) st [])) as H.
  destruct (clear_loop _ _ _ _) as [kept c]. destruct H as (-> & Hn & Hi).
  split; [done|]. split; [|split; [done|intros ->; by rewrite Hn]].
  destruct Hs as [H1 H2 H3]. split.
  - eapply StronglySorted_sublist; [apply sublist_filter|done].
  - eapply sublist_NoDup; [exact H2|]. apply sublist_fmap_mono, sublist_filter.
  - intros i. simpl. rewrite Hi. simpl.
    case_decide as Hd.
    + split; [done|]. intros (x & -> & [Hx Hxl]%list_elem_of_filter)%list_elem_of_fmap.
      apply list_elem_of_fmap in Hd as (y & Hy & [Hyc Hyl]%list_elem_of_filter).
      assert (y = x) as ->; [|congruence].
      assert (missions_of (missionInfoList_ s) !! mission_id x = Some x) as Hmx
        by (by apply missions_of_lookup).
      assert (missions_of (missionInfoList_ s) !! mission_id x = Some y) as Hmy
        by (by apply missions_of_lookup).
      congruence.
    + rewrite H3. split; intros (x & -> & Hx)%list_elem_of_fmap.
      * apply list_elem_of_fmap_2, list_elem_of_filter. split; [|done].
        destruct (not_cleared bg x) eqn:E; [done|]. exfalso. apply Hd.
        by apply list_elem_of_fmap_2, list_elem_of_filter.
      * apply list_elem_of_filter in Hx as [_ Hx]. by apply list_elem_of_fmap_2.
Qed.

(** *** Loading *)

Lemma foldl_insert_true (l : list InnerMissionInfo) (ids : gmap Z bool) i :
  foldl (λ ids x, <[mission_id x := true]> ids) ids l !! i = Some true ↔
  ids !! i = Some true ∨ i ∈ mission_id <$> l.
Proof.
  revert ids. induction l as [|x l IH]; intros ids; csimpl.
  - split; [auto|]. intros [?|?%not_elem_of_nil]; done.
  - rewrite IH, lookup_insert, elem_of_cons. case_decide; naive_solver.
Qed.

Lemma Init_inv `{!MissionStoreLaws MS} instance s userId :
  mgr_inv s → mgr_inv (Init instance s userId).2.
Proof.
  intros Hs. unfold Init. set (s1 := match _ with None => _ | Some _ => s end).
  assert (mgr_inv s1) as Hs1 by (unfold s1; destruct (taskDataPersistenceMgr_ s); auto using inv_store).
  destruct (taskDataPersistenceMgr_ s1) as [st|]; [|done].
  destruct (store_Init userId st) as [[] st']; [|by apply inv_store].
  unfold LoadAllMissionInfo. simpl.
  pose proof (load_distinct st') as Hd. pose proof (load_failed st') as Hf.
  destruct (store_LoadAllMissionInfo st' []) as [[] l]; simpl in *.
  - split; simpl.
    + apply stable_sort_sorted; [apply _|intros x y; apply string_ltb_le|].
      intros x y. rewrite string_ltb_leb. by intros ?%negb_false_iff.
    + by rewrite stable_sort_Permutation.
    + intros i. rewrite foldl_insert_true, lookup_empty. naive_solver.
  - rewrite Hf by done. split; simpl; [constructor|constructor|].
    intros i. rewrite lookup_empty. split; [done|]. by intros ?%not_elem_of_nil.
Qed.

(** *** The updates in place and the uninstallation *)

Lemma UpdateMissionContinueState_inv s i st :
  mgr_inv s → mgr_inv (UpdateMissionContinueState s i st).2.
Proof.
  intros Hs. unfold UpdateMissionContinueState. destruct (i <=? 0)%Z; [done|].
  destruct (find_if _ _) as [x|] eqn:E; [|done]. eapply assign_inv; eauto.
Qed.

Lemma SetMissionAbilityState_inv s i st : mgr_inv s → mgr_inv (SetMissionAbilityState s i st).
Proof.
  intros Hs. unfold SetMissionAbilityState. destruct (i <=? 0)%Z; [done|].
  destruct (find_if _ _) as [x|] eqn:E; [|done]. eapply assign_inv; eauto.
Qed.

Lemma UpdateMissionLabel_inv s i lb : mgr_inv s → mgr_inv (UpdateMissionLabel s i lb).2.
Proof.
  intros Hs. unfold UpdateMissionLabel. destruct (taskDataPersistenceMgr_ s) as [st|]; [|done].
  destruct (find_if _ _) as [x|] eqn:E; [|done]. destruct (store_SaveMissionInfo _ _) as [ok st'].
  apply inv_store. eapply assign_inv; eauto.
Qed.

Lemma DeleteMissionInfo_inv s i : mgr_inv s → mgr_inv (DeleteMissionInfo s i).2.
Proof.
  intros Hs. pose proof (DeleteMissionInfo_spec s i Hs) as H.
  destruct (DeleteMissionInfo s i). apply H.
Qed.

Lemma HandleUnInstallApp_inv s bn u ms : mgr_inv s → mgr_inv (HandleUnInstallApp s bn u ms).2.
Proof.
  unfold HandleUnInstallApp. simpl. generalize (GetMatchedMission s bn u ms).
  intros l. revert s. induction l as [|i l IH]; intros s Hs; [done|]. simpl.
  apply IH. by apply DeleteMissionInfo_inv.
Qed.

(** ** Calls and reachable states *)

Inductive mgr_call :=
| CallInit (instance : option Store) (userId : Z)
| CallGenerate
| CallAdd (info : InnerMissionInfo)
| CallUpdate (info : InnerMissionInfo)
| CallDelete (missionId : Z)
| CallDeleteAll (bg : Z → bool) (hasListener : bool)
| CallContinueState (missionId state : Z)
| CallLabel (missionId : Z) (label' : string)
| CallAbilityState (missionId state : Z)
| CallUnInstall (bundleName' : string) (uid' : Z) (missions : list Z).

(** The state after a call, none when the call dereferences a null store. *)
Definition run_call s (c : mgr_call) : outcome MissionInfoMgr :=
  match c with
  | CallInit instance userId => Ret (Init instance s userId).2
  | CallGenerate => Ret (GenerateMissionId s).2
  | CallAdd info => let* r := AddMissionInfo s info in Ret r.2
  | CallUpdate info => let* r := UpdateMissionInfo s info in Ret r.2
  | CallDelete i => Ret (DeleteMissionInfo s i).2
  | CallDeleteAll bg hl => Ret (DeleteAllMissionInfos bg hl s).1.2
  | CallContinueState i st => Ret (UpdateMissionContinueState s i st).2
  | CallLabel i lb => Ret (UpdateMissionLabel s i lb).2
  | CallAbilityState i st => Ret (SetMissionAbilityState s i st)
  | CallUnInstall bn u ms => Ret (HandleUnInstallApp s bn u ms).2
  end.

Inductive mgr_reachable : MissionInfoMgr → Prop :=
| reach_new : mgr_reachable MissionInfoMgr_new
| reach_call s c s' : mgr_reachable s → run_call s c = Ret s' → mgr_reachable s'.

Fixpoint run_calls s (cs : list mgr_call) : outcome MissionInfoMgr :=
  match cs with
  | [] => Ret s
  | c :: cs => let* s' := run_call s c in run_calls s' cs
  end.

Lemma reach_calls s cs s' : mgr_reachable s → run_calls s cs = Ret s' → mgr_reachable s'.
Proof.
  revert s. induction cs as [|c cs IH]; intros s Hs; cbn [run_calls]; [by intros [= <-]|].
  destruct (run_call s c) as [s1|] eqn:E; [|done]. apply IH. by eapply reach_call.
Qed.

Lemma Add_inv s info r : mgr_inv s → AddMissionInfo s info = Ret r → mgr_inv r.2.
Proof.
  intros Hs H. destruct (taskDataPersistenceMgr_ s) as [st|] eqn:E.
  - destruct (AddMissionInfo_spec s info st Hs E) as (s' & Ha & Hi & _).
    rewrite Ha in H. by injection H as <-.
  - unfold AddMissionInfo, AddMissionInfoInner in H. rewrite E in H.
    destruct (is_saved _ _); by simplify_eq/=.
Qed.

Lemma Update_inv s info r : mgr_inv s → UpdateMissionInfo s info = Ret r → mgr_inv r.2.
Proof.
  intros Hs H. destruct (taskDataPersistenceMgr_ s) as [st|] eqn:E.
  - destruct (UpdateMissionInfo_spec s info st Hs E) as (b & s' & Ha & Hi & _).
    rewrite Ha in H. by injection H as <-.
  - unfold UpdateMissionInfo, AddMissionInfoInner in H. simpl in H. rewrite E in H.
    destruct (is_saved s _); simplify_eq/=; [|done].
    destruct (find_if _ _); simplify_eq/=; [|done].
    destruct (String.eqb _ _); [done|].
    unfold is_saved in H. simpl in H. rewrite lookup_delete_eq in H. done.
Qed.

Lemma run_call_inv `{!MissionStoreLaws MS} s c s' :
  mgr_inv s → run_call s c = Ret s' → mgr_inv s'.
Proof.
  intros Hs. destruct c; cbn [run_call].
  - intros [= <-]. by apply Init_inv.
  - intros [= <-]. by apply GenerateMissionId_inv.
  - destruct (AddMissionInfo s info) eqn:E; [|done]. intros [= <-]. by eapply Add_inv.
  - destruct (UpdateMissionInfo s info) eqn:E; [|done]. intros [= <-]. by eapply Update_inv.
  - intros [= <-]. by apply DeleteMissionInfo_inv.
  - intros [= <-]. destruct (taskDataPersistenceMgr_ s) as [st|] eqn:E.
    + pose proof (DeleteAllMissionInfos_spec bg hasListener s st Hs E) as H.
      destruct (DeleteAllMissionInfos bg hasListener s) as [[b s'] n]. apply H.
    + unfold DeleteAllMissionInfos. by rewrite E.
  - intros [= <-]. by apply UpdateMissionContinueState_inv.
  - intros [= <-]. by apply UpdateMissionLabel_inv.
  - intros [= <-]. by apply SetMissionAbilityState_inv.
  - intros [= <-]. by apply HandleUnInstallApp_inv.
Qed.
(** C9: in every state reachable by the calls of the manager, failing ones
    included, the list is ordered from the most recent mission to the oldest, its
    identifiers are distinct, and they are exactly those marked as saved. *)
Theorem reachable_inv `{!MissionStoreLaws MS} s : mgr_reachable s → mgr_inv s.
Proof. induction 1 as [|s c s' _ IH Hc]; [apply new_inv|]. by eapply run_call_inv. Qed.

(** A generated identifier is the least free one from the search start on,
    below the maximum, and is reserved; the generation fails exactly when every
    identifier from the search start to the maximum is taken, although smaller
    ones may be free. *)
Theorem GenerateMissionId_least s :
  let ids := missionIdMap_ s in
  let '(r, s') := GenerateMissionId s in
  missionInfoList_ s' = missionInfoList_ s ∧
  match r with
  | Some k =>
      (search_start s ≤ k < MAX_MISSION_ID)%Z ∧ ids !! k = None ∧
      (∀ j, (search_start s ≤ j < k)%Z → is_Some (ids !! j)) ∧
      missionIdMap_ s' = <[k := false]> ids ∧ currentMissionId_ s' = (k + 1)%Z
  | None =>
      (∀ j, (search_start s ≤ j < MAX_MISSION_ID)%Z → is_Some (ids !! j)) ∧
      missionIdMap_ s' = ids
  end.
Proof.
  unfold GenerateMissionId. set (s1 := if decide _ then _ else s).
  assert (missionIdMap_ s1 = missionIdMap_ s ∧ missionInfoList_ s1 = missionInfoList_ s ∧
          currentMissionId_ s1 = search_start s) as (-> & Hl & ->)
    by (unfold s1, search_start; by case_decide).
  destruct (free_id _ _ _) as [k|] eqn:E.
  - apply free_id_Some in E as (H1 & H2 & H3). split; [exact Hl|]. split; [done|].
    split; [done|]. split; [done|]. split; [|done]. unfold s1. by case_decide.
  - split; [exact Hl|]. split; [intros j; by apply free_id_complete|]. unfold s1. by case_decide.
Qed.

(** C11: seen through its identifiers the manager is a finite map. An addition
    inserts a new mission when the store saves it and changes nothing otherwise;
    an update replaces a saved mission, and when the store fails it has already
    replaced it if the time stamp is unchanged and drops it if the time stamp
    changed; a deletion removes the mission or, when the store fails, nothing;
    and the lookup by identifier reads the map. *)
Theorem manager_refines_map s info i st :
  mgr_inv s → taskDataPersistenceMgr_ s = Some st →
  let ok := (store_SaveMissionInfo info st).1 in
  let k := mission_id info in
  (∃ s', AddMissionInfo s info = Ret (bool_decide (missions s !! k = None) && ok, s') ∧
     missions s' = if bool_decide (missions s !! k = None) && ok
                   then <[k := info]> (missions s) else missions s) ∧
  (∃ s', UpdateMissionInfo s info = Ret (bool_decide (is_Some (missions s !! k)) && ok, s') ∧
     missions s' = match missions s !! k with
                   | None => missions s
                   | Some old => if ok || String.eqb (mission_time info) (mission_time old)
                                 then <[k := info]> (missions s) else delete k (missions s)
                   end) ∧
  missions (DeleteMissionInfo s i).2 =
    (if (DeleteMissionInfo s i).1 then delete i (missions s) else missions s) ∧
  (GetInnerMissionInfoById s i).2 = missions s !! i.
Proof.
  intros Hs Hst ok k. split; [|split; [|split]].
  - destruct (AddMissionInfo_spec s info st Hs Hst) as (s' & Ha & _ & Hm & _). eauto.
  - destruct (UpdateMissionInfo_spec s info st Hs Hst) as (b & s' & Ha & _ & -> & Hm). eauto.
  - pose proof (DeleteMissionInfo_spec s i Hs) as H.
    destruct (DeleteMissionInfo s i) as [[] s']; destruct H as [_ [Hm _]]; [done|].
    unfold missions. simpl. by rewrite Hm.
  - unfold GetInnerMissionInfoById. rewrite missions_of_find by apply Hs. fold (missions s).
    pose proof (saved_missions s i Hs) as Hsv.
    destruct (missionIdMap_ s !! i) as [b|], (missions s !! i) eqn:E; simpl; try done.
    destruct Hsv as [_ Hsv]. by discriminate Hsv.
Qed.

(** Clearing the list keeps, in their order, exactly the missions that are
    locked, belong to a background task or are unclearable while running state
    is zero; the listeners are told of every other mission, in the order of the
    list, and the invariant holds. *)
Theorem DeleteAllMissionInfos_clears bg hl s st :
  mgr_inv s → taskDataPersistenceMgr_ s = Some st →
  let '(b, s', notified) := DeleteAllMissionInfos bg hl s in
  b = true ∧ mgr_inv s' ∧
  missionInfoList_ s' = filter (λ x, not_cleared bg x = true) (missionInfoList_ s) ∧
  (hl = true →
   notified = mission_id <$> filter (λ x, not_cleared bg x = false) (missionInfoList_ s)).
Proof. apply DeleteAllMissionInfos_spec. Qed.

Lemma collect_infos_take n l infos :
  (length infos ≤ n)%nat →
  collect_infos (Z.of_nat n) l infos =
  infos ++ take (n - length infos)
             (missionInfo <$> filter (λ x, DoesNotShowInTheMissionList x = false) l).
Proof.
  revert infos. induction l as [|x l IH]; intros infos Hle; simpl.
  { by rewrite take_nil, app_nil_r. }
  destruct (Z.geb_spec (Z.of_nat (length infos)) (Z.of_nat n)) as [Hge|Hlt].
  { replace (n - length infos)%nat with 0%nat by lia. by rewrite take_0, app_nil_r. }
  rewrite filter_cons. destruct (DoesNotShowInTheMissionList x); simpl.
  - by apply IH.
  - rewrite IH by (rewrite length_app; simpl; lia).
    rewrite length_app, <-app_assoc. simpl.
    replace (n - length infos)%nat with (S (n - (length infos + 1)))%nat by lia. done.
Qed.

(** Asking for at most [numMax] missions gives the [numMax] most recent of
    those the mission list shows, in the order of the list; a negative bound is
    refused. *)
Theorem GetMissionInfos_recent s numMax :
  GetMissionInfos s numMax [] =
  if (numMax <? 0)%Z then ((-1)%Z, [])
  else (0%Z, take (Z.to_nat numMax)
               (missionInfo <$> filter (λ x, DoesNotShowInTheMissionList x = false)
                                  (missionInfoList_ s))).
Proof.
  unfold GetMissionInfos. destruct (Z.ltb_spec numMax 0); [done|].
  rewrite <-(Z2Nat.id numMax) at 1 by lia. rewrite collect_infos_take by (simpl; lia).
  simpl. by rewrite Nat.sub_0_r.
Qed.
End Invariant.

(** ** A concrete store, for the witnesses *)

Module SampleStore.
Import SampleLibs.

(** A store that keeps the missions by identifier and saves all but those of
    user 0. *)
Definition sample_store : @MissionStore sample_want :=
  @Build_MissionStore sample_want (gmap Z (@InnerMissionInfo sample_want))
    (λ _ st, (true, st))
    (λ info st, if (@uid sample_want info =? 0)%Z then (false, st)
                else (true, <[@mission_id sample_want info := info]> st))
    (λ i st, (true, delete i st))
    (λ st l, (true, l ++ ((filter (λ kv, @mission_id sample_want kv.2 = kv.1) (map_to_list st)).*2))).

Lemma distinct_by_key (k : list (Z * @InnerMissionInfo sample_want)) :
  Forall (λ kv, @mission_id sample_want kv.2 = kv.1) k → NoDup k.*1 →
  NoDup (@mission_id sample_want <$> k.*2).
Proof.
  intros Hk. enough (@mission_id sample_want <$> k.*2 = k.*1) as -> by done.
  induction Hk as [|kv k H _ IH]; csimpl; [done|]. by rewrite H, IH.
Qed.

Lemma sample_store_laws : @MissionStoreLaws sample_want sample_store.
Proof.
  split; [|done]. intros st.
  apply (distinct_by_key (filter (λ kv, @mission_id sample_want kv.2 = kv.1) (map_to_list st))).
  - apply Forall_forall. by intros kv [H _]%list_elem_of_filter.
  - eapply sublist_NoDup; [apply (NoDup_fst_map_to_list st)|].
    apply sublist_fmap_mono, sublist_filter.
Qed.

(** Two missions added in the order of their times. *)
Definition sample_calls : list (@mgr_call sample_want sample_store) :=
  [@CallInit _ sample_store (Some ∅) 100; CallGenerate;
   @CallAdd _ sample_store (sample_mission 1 "1041");
   @CallAdd _ sample_store (sample_mission 5 "1042")].

Definition sample_mgr : @MissionInfoMgr sample_want sample_store :=
  match run_calls MissionInfoMgr_new sample_calls with
  | Ret s => s
  | Undef => MissionInfoMgr_new
  end.

Lemma sample_reachable : @mgr_reachable _ sample_store sample_mgr.
Proof. apply (reach_calls _ sample_calls _ reach_new). vm_compute. reflexivity. Qed.

Lemma sample_inv : @mgr_inv _ sample_store sample_mgr.
Proof.
  generalize sample_reachable. generalize sample_mgr.
  induction 1; [apply new_inv|]. 
  eapply (@run_call_inv _ _ sample_store_laws); eassumption.
Qed.

Lemma reachable_inv_witness : @mgr_inv _ sample_store sample_mgr.
Proof. apply (@reachable_inv _ _ sample_store_laws), sample_reachable. Defined.

Lemma manager_refines_map_witness :
  (DeleteMissionInfo sample_mgr 5).1 = true ∧
  missions (DeleteMissionInfo sample_mgr 5).2 = delete 5%Z (missions sample_mgr).
Proof.
  split; [vm_compute; reflexivity|].
  destruct (taskDataPersistenceMgr_ sample_mgr) as [st|] eqn:E; [|by vm_compute in E].
  pose proof (manager_refines_map sample_mgr (sample_mission 9 "1043") 5 st sample_inv E)
    as (_ & _ & H & _).
  rewrite H. assert ((DeleteMissionInfo sample_mgr 5).1 = true) as -> by (vm_compute; reflexivity).
  reflexivity.
Defined.

Lemma DeleteAllMissionInfos_clears_witness :
  (DeleteAllMissionInfos (λ _, false) true sample_mgr).2 = [] ∧
  (DeleteAllMissionInfos (λ _, false) true sample_mgr).1.1 = true.
Proof.
  split; [vm_compute; reflexivity|].
  destruct (taskDataPersistenceMgr_ sample_mgr) as [st|] eqn:E; [|by vm_compute in E].
  pose proof (DeleteAllMissionInfos_clears (λ _, false) true sample_mgr st sample_inv E) as H.
  destruct (DeleteAllMissionInfos _ _ _) as [[b s'] n]. apply H.
Defined.
End SampleStore.
