(* ===== verification/AbilityCache.v ===== *)
(** * The cache of ability records

    [services/abilitymgr/src/ability_cache_manager.cpp]: a device-wide list of
    cached extension records in the order of their arrival, and a list per
    application (by access token) with its own capacity.

    A [shared_ptr<AbilityRecord>] is the record's identifier, which the record
    constructor draws from a counter; what the cache reads of a record is the
    function [attrs], and the flags it sets are sets of identifiers. *)

From stdpp Require Import prelude gmap strings list pretty.
From Stdlib Require Import ZArith Lia.
From S2P Require Import Prelude.

Record RecordAttrs := mkAttrs {
  accessTokenId : Z;
  appBundleName : string;
  abilityBundleName : string;
  abilityModuleName : string;
  abilityName : string;
  wantAbilityName : string;
  recordUri : string;
  recordToken : option Z;
  assertFaultSessionId : string;
  frsAppIndex : Z;
  isExtension : bool;
  isSceneBoard : bool;
}.

(** The fields of an [AbilityRequest] the cache reads. *)
Record CacheRequest := mkCacheRequest {
  req_accessTokenId : Z;
  req_moduleName : string;
  req_abilityName : string;
}.

Record ProcRecordsInfo := mkProcRecords {
  recList : list Z;
  cnt : Z;
}.

Record AbilityCacheManager := mkCache {
  devLruCapacity_ : Z;
  procLruCapacity_ : Z;
  devLruCnt_ : Z;
  procLruMap_ : gmap Z ProcRecordsInfo;
  devRecLru_ : list Z;
}.

#[global] Instance AbilityCacheManager_reconstruct : Reconstruct AbilityCacheManager := λ s,
  mkCache (devLruCapacity_ s) (procLruCapacity_ s) (devLruCnt_ s) (procLruMap_ s) (devRecLru_ s).

Definition AbilityCacheManager_new : AbilityCacheManager := mkCache 0 0 0 ∅ [].

Definition FRS_BUNDLE_NAME : string := "com.ohos.formrenderservice".
Definition LAUNCHER_ABILITY_NAME : string := "com.ohos.launcher.MainAbility".
Definition LAUNCHER_BUNDLE_NAME : string := "com.ohos.launcher".

Section Cache.
Variable attrs : Z → RecordAttrs.
Implicit Types (s : AbilityCacheManager) (r : Z).

Definition tok r : Z := accessTokenId (attrs r).

Definition CacheInit s (devCapacity procCapacity : Z) : AbilityCacheManager :=
  s <| devLruCapacity_ := devCapacity |> <| procLruCapacity_ := procCapacity |>.

Definition same_record r : Z → bool := λ x, bool_decide (x = r).

Definition RemoveAbilityRecInDevList s r : AbilityCacheManager :=
  match find_if (same_record r) (devRecLru_ s) with
  | Some _ =>
      s <| devRecLru_ ::= erase_first (same_record r) |>
        <| devLruCnt_ := u32 (devLruCnt_ s - 1) |>
  | None => s
  end.

Definition RemoveAbilityRecInProcList s r : AbilityCacheManager :=
  match procLruMap_ s !! tok r with
  | None => s
  | Some info =>
      match find_if (same_record r) (recList info) with
      | None => s
      | Some _ =>
          let info := mkProcRecords (erase_first (same_record r) (recList info)) (u32 (cnt info - 1)) in
          s <| procLruMap_ ::= if decide (cnt info = 0)%Z then delete (tok r) else <[tok r := info]> |>
      end
  end.

(** [front()] of an empty list is undefined. *)
Definition AddToProcLru s r : outcome (option Z * AbilityCacheManager) :=
  match procLruMap_ s !! tok r with
  | None => Ret (None, s <| procLruMap_ ::= <[tok r := mkProcRecords [r] 1]> |>)
  | Some info =>
      if decide (cnt info = procLruCapacity_ s) then
        match recList info with
        | [] => Undef
        | oldest :: rest =>
            let s := RemoveAbilityRecInDevList s oldest in
            Ret (Some oldest,
                 s <| procLruMap_ ::= <[tok r := mkProcRecords (rest ++ [r]) (cnt info)]> |>)
        end
      else
        Ret (None, s <| procLruMap_ ::=
                        <[tok r := mkProcRecords (recList info ++ [r]) (u32 (cnt info + 1))]> |>)
  end.

Definition push_dev s r : AbilityCacheManager :=
  s <| devRecLru_ := devRecLru_ s ++ [r] |> <| devLruCnt_ := u32 (devLruCnt_ s + 1) |>.

Definition AddToDevLru s r (rec : option Z) : outcome (option Z * AbilityCacheManager) :=
  match rec with
  | Some _ => Ret (rec, push_dev s r)
  | None =>
      if decide (devLruCnt_ s = devLruCapacity_ s) then
        match devRecLru_ s with
        | [] => Undef
        | oldest :: _ =>
            let s := RemoveAbilityRecInProcList s oldest in
            let s := s <| devRecLru_ ::= tail |> <| devLruCnt_ := u32 (devLruCnt_ s - 1) |> in
            Ret (Some oldest, push_dev s r)
        end
      else Ret (None, push_dev s r)
  end.

Definition Put s (abilityRecord : option Z) : outcome (option Z * AbilityCacheManager) :=
  match abilityRecord with
  | None => Ret (None, s)
  | Some r =>
      let* (rec, s) := AddToProcLru s r in
      AddToDevLru s r rec
  end.

Definition CacheRemove s (abilityRecord : option Z) : AbilityCacheManager :=
  match abilityRecord with
  | None => s
  | Some r => RemoveAbilityRecInDevList (RemoveAbilityRecInProcList s r) r
  end.

Definition IsRecInfoSame (req : CacheRequest) r : bool :=
  String.eqb (req_moduleName req) (abilityModuleName (attrs r)) &&
  String.eqb (req_abilityName req) (wantAbilityName (attrs r)).

(** The entry of the application stays when its list becomes empty. *)
Definition GetAbilityRecInProcList s (req : CacheRequest) : option Z * AbilityCacheManager :=
  match procLruMap_ s !! req_accessTokenId req with
  | None => (None, s)
  | Some info =>
      match find_if (IsRecInfoSame req) (recList info) with
      | None => (None, s)
      | Some r =>
          (Some r,
           s <| procLruMap_ ::= <[req_accessTokenId req :=
                  mkProcRecords (erase_first (IsRecInfoSame req) (recList info)) (u32 (cnt info - 1))]> |>)
      end
  end.

Definition CacheGet s (req : CacheRequest) : option Z * AbilityCacheManager :=
  match GetAbilityRecInProcList s req with
  | (None, s) => (None, s)
  | (Some r, s) => (Some r, RemoveAbilityRecInDevList s r)
  end.

Definition FindRecordByToken s (token : option Z) : option Z :=
  match token with
  | None => None
  | Some _ => find_if (λ r, bool_decide (recordToken (attrs r) = token)) (devRecLru_ s)
  end.

Definition GetAbilityList s : list Z := devRecLru_ s.

Definition FindRecordBySessionId s (assertSessionId : string) : option Z :=
  find_if (λ r, String.eqb (assertFaultSessionId (attrs r)) assertSessionId) (devRecLru_ s).

Definition service_key r : string :=
  if String.eqb FRS_BUNDLE_NAME (abilityBundleName (attrs r))
  then recordUri (attrs r) +:+ pretty (frsAppIndex (attrs r))
  else recordUri (attrs r).

Definition FindRecordByServiceKey s (serviceKey : string) : option Z :=
  find_if (λ r, String.eqb (service_key r) serviceKey) (devRecLru_ s).

(** The record whose death recipient is removed. *)
Definition RemoveLauncherDeathRecipient s : option Z :=
  find_if (λ r, isExtension (attrs r) &&
    ((String.eqb (abilityName (attrs r)) LAUNCHER_ABILITY_NAME &&
      String.eqb (abilityBundleName (attrs r)) LAUNCHER_BUNDLE_NAME) || isSceneBoard (attrs r)))
    (devRecLru_ s).

(** The records whose restart flag is set, added to those that have it. *)
Definition SignRestartAppFlag s (bundleName : string) (flagged : gset Z) : gset Z :=
  foldl (λ f r, if String.eqb (appBundleName (attrs r)) bundleName then {[r]} ∪ f else f)
    flagged (devRecLru_ s).

(** The loop [while (it != end) { ...; it++; }]: [before] are the elements in
    front of the iterator. A matching record is removed through its first
    occurrence; when that is the element under the iterator, the iterator is
    invalid and the increment is undefined. *)
Fixpoint delete_invalid_loop (bundleName : string) (before rest : list Z) s
    : outcome AbilityCacheManager :=
  match rest with
  | [] => Ret s
  | r :: rest' =>
      if String.eqb (appBundleName (attrs r)) bundleName then
        let s := RemoveAbilityRecInDevList (RemoveAbilityRecInProcList s r) r in
        match find_if (same_record r) before with
        | Some _ => delete_invalid_loop bundleName (erase_first (same_record r) before ++ [r]) rest' s
        | None => Undef
        end
      else delete_invalid_loop bundleName (before ++ [r]) rest' s
  end.

Definition DeleteInvalidServiceRecord s (bundleName : string) : outcome AbilityCacheManager :=
  delete_invalid_loop bundleName [] (devRecLru_ s) s.

(** ** Specification: one list of records, oldest first *)

Record lru_spec := mkLru {
  lru_dev : nat;
  lru_proc : nat;
  lru_recs : list Z;
}.

(** The records of an application, oldest first. *)
Definition recs_of (l : list Z) (t : Z) : list Z := filter (λ x, tok x = t) l.

(** What a full cache gives up for [r]: the oldest record of the same
    application when that application is full, else the oldest record. *)
Definition lru_victim (c : lru_spec) r : option Z :=
  if decide (length (recs_of (lru_recs c) (tok r)) = lru_proc c)
  then head (recs_of (lru_recs c) (tok r))
  else if decide (length (lru_recs c) = lru_dev c) then head (lru_recs c) else None.

Definition lru_drop (l : list Z) (v : option Z) : list Z :=
  match v with Some x => erase_first (same_record x) l | None => l end.

Definition lru_put (c : lru_spec) r : option Z * lru_spec :=
  (lru_victim c r,
   mkLru (lru_dev c) (lru_proc c) (lru_drop (lru_recs c) (lru_victim c r) ++ [r])).

Definition lru_get (c : lru_spec) (req : CacheRequest) : option Z * lru_spec :=
  let v := find_if (λ x, bool_decide (tok x = req_accessTokenId req) && IsRecInfoSame req x) (lru_recs c) in
  (v, mkLru (lru_dev c) (lru_proc c) (lru_drop (lru_recs c) v)).

(** The two halves of the representation. *)
Record dev_rep s (l : list Z) : Prop := {
  dev_list : devRecLru_ s = l;
  dev_cnt : devLruCnt_ s = Z.of_nat (length l);
}.

Definition proc_rep (m : gmap Z ProcRecordsInfo) (l : list Z) : Prop :=
  ∀ t, match m !! t with
       | Some info => recList info = recs_of l t ∧ cnt info = Z.of_nat (length (recs_of l t))
       | None => recs_of l t = []
       end.

(** The cache represents the list: its counters are the lengths, the list of an
    application is the part of the device list that belongs to it, and an
    application without an entry has no record. *)
Record cache_rep s (c : lru_spec) : Prop := {
  rep_dev_cap : devLruCapacity_ s = Z.of_nat (lru_dev c);
  rep_proc_cap : procLruCapacity_ s = Z.of_nat (lru_proc c);
  rep_dev : dev_rep s (lru_recs c);
  rep_proc : proc_rep (procLruMap_ s) (lru_recs c);
}.

(** Within the capacities, which fit the counters. *)
Record lru_ok (c : lru_spec) : Prop := {
  ok_pos : 0 < lru_dev c ∧ 0 < lru_proc c;
  ok_width : (Z.of_nat (lru_dev c) < UINT32_MOD ∧ Z.of_nat (lru_proc c) < UINT32_MOD)%Z;
  ok_dev : length (lru_recs c) ≤ lru_dev c;
  ok_proc : ∀ t, length (recs_of (lru_recs c) t) ≤ lru_proc c;
}.

(** ** Lists of records *)

Lemma find_same r l : find_if (same_record r) l = if decide (r ∈ l) then Some r else None.
Proof.
  destruct (find_if (same_record r) l) as [x|] eqn:E.
  - apply find_if_elem in E as [Hx ->%bool_decide_eq_true]. by rewrite decide_True.
  - rewrite find_if_None in E. rewrite decide_False; [done|].
    intros Hr. specialize (E r Hr). by apply bool_decide_eq_false in E.
Qed.

Lemma length_erase_same r l :
  r ∈ l → length l = S (length (erase_first (same_record r) l)).
Proof. intros Hr. apply length_erase_first with (x := r). by rewrite find_same, decide_True. Qed.

Lemma erase_same_notin r l : r ∉ l → erase_first (same_record r) l = l.
Proof.
  intros Hr. apply erase_first_none. intros x Hx. apply bool_decide_eq_false. by intros ->.
Qed.

Lemma recs_of_app l k t : recs_of (l ++ k) t = recs_of l t ++ recs_of k t.
Proof. apply filter_app. Qed.

Lemma recs_of_single r t : recs_of [r] t = if decide (tok r = t) then [r] else [].
Proof. unfold recs_of. by rewrite filter_cons. Qed.

Lemma elem_of_recs_of r l t : r ∈ recs_of l t ↔ tok r = t ∧ r ∈ l.
Proof. unfold recs_of. by rewrite list_elem_of_filter. Qed.

Lemma length_recs_of l t : length (recs_of l t) ≤ length l.
Proof. apply length_filter. Qed.

(** An erasure from the device list is an erasure from the list of the record's
    application, and no change for the others. *)
Lemma recs_of_erase r l t :
  recs_of (erase_first (same_record r) l) t =
  if decide (tok r = t) then erase_first (same_record r) (recs_of l t) else recs_of l t.
Proof.
  unfold recs_of. induction l as [|x l IH]; simpl; [by case_decide|].
  rewrite (filter_cons _ x l). destruct (same_record r x) eqn:E.
  - apply bool_decide_eq_true in E as ->. case_decide; [|done]. simpl.
    unfold same_record. by rewrite bool_decide_true.
  - rewrite filter_cons, IH. destruct (decide (tok x = t)), (decide (tok r = t)); simpl;
      rewrite ?E; done.
Qed.

(** ** Removal keeps the halves of the representation *)

Lemma dev_remove_rep s l r :
  dev_rep s l → (Z.of_nat (length l) < UINT32_MOD)%Z →
  dev_rep (RemoveAbilityRecInDevList s r) (erase_first (same_record r) l).
Proof.
  intros [Hl Hc] Hw. unfold RemoveAbilityRecInDevList. rewrite Hl, find_same.
  case_decide as Hr.
  - split; simpl; [by rewrite Hl|]. rewrite Hc, (length_erase_same r l Hr).
    rewrite u32_small; rewrite (length_erase_same r l Hr) in Hw; lia.
  - by rewrite erase_same_notin.
Qed.

Lemma dev_remove_frame s r :
  let s' := RemoveAbilityRecInDevList s r in
  procLruMap_ s' = procLruMap_ s ∧ devLruCapacity_ s' = devLruCapacity_ s ∧
  procLruCapacity_ s' = procLruCapacity_ s.
Proof. unfold RemoveAbilityRecInDevList. by destruct (find_if _ _). Qed.

Lemma proc_remove_frame s r :
  let s' := RemoveAbilityRecInProcList s r in
  devRecLru_ s' = devRecLru_ s ∧ devLruCnt_ s' = devLruCnt_ s ∧
  devLruCapacity_ s' = devLruCapacity_ s ∧ procLruCapacity_ s' = procLruCapacity_ s.
Proof.
  unfold RemoveAbilityRecInProcList. destruct (procLruMap_ s !! tok r); [|done].
  by destruct (find_if _ _).
Qed.

Lemma proc_remove_rep s l r :
  proc_rep (procLruMap_ s) l → (Z.of_nat (length l) ≤ UINT32_MOD)%Z →
  proc_rep (procLruMap_ (RemoveAbilityRecInProcList s r)) (erase_first (same_record r) l).
Proof.
  intros Hm Hw t. rewrite recs_of_erase. unfold RemoveAbilityRecInProcList.
  pose proof (Hm (tok r)) as Hr. pose proof (Hm t) as Ht.
  destruct (procLruMap_ s !! tok r) as [info|] eqn:Ei.
  - destruct Hr as [Hrl Hrc]. rewrite Hrl, find_same.
    pose proof (length_recs_of l (tok r)) as Hle.
    destruct (decide (r ∈ recs_of l (tok r))) as [Hin|Hin].
    + pose proof (length_erase_same r _ Hin) as Hlen. simpl.
      destruct (decide (tok r = t)) as [<-|Hne].
      * assert (u32 (cnt info - 1) = Z.of_nat (length (erase_first (same_record r) (recs_of l (tok r)))))
          as Hcnt by (rewrite u32_small; lia).
        case_decide as Hz.
        -- rewrite lookup_delete_eq. apply length_zero_iff_nil. lia.
        -- rewrite lookup_insert_eq. done.
      * case_decide; rewrite ?lookup_delete_ne, ?lookup_insert_ne by done; done.
    + destruct (decide (tok r = t)) as [<-|Hne]; [|done].
      by rewrite erase_same_notin.
  - destruct (decide (tok r = t)) as [<-|Hne]; [|done]. rewrite Ei, Hr. done.
Qed.

Lemma proc_rep_push m l r :
  proc_rep m l →
  proc_rep (<[tok r := mkProcRecords (recs_of l (tok r) ++ [r])
                         (Z.of_nat (length (recs_of l (tok r))) + 1)]> m) (l ++ [r]).
Proof.
  intros Hm t. rewrite recs_of_app, recs_of_single, lookup_insert. specialize (Hm t).
  destruct (decide (tok r = t)) as [<-|]; [|by rewrite app_nil_r].
  simpl. rewrite length_app. simpl. split; [done|lia].
Qed.

(** ** Putting a record *)

Lemma recs_of_cons_head l t x k : recs_of l t = x :: k → tok x = t ∧ x ∈ l.
Proof. intros H. apply elem_of_recs_of. rewrite H. apply list_elem_of_here. Qed.

Lemma same_record_refl x : same_record x x = true.
Proof. by apply bool_decide_eq_true. Qed.

Lemma erase_same_cons x l : erase_first (same_record x) (x :: l) = l.
Proof. simpl. by rewrite same_record_refl. Qed.

Lemma lru_victim_in c r x : lru_victim c r = Some x → x ∈ lru_recs c.
Proof.
  unfold lru_victim. case_decide.
  - destruct (recs_of _ _) as [|y k] eqn:E; simpl; [done|]. intros [= ->].
    by apply recs_of_cons_head in E as [_ ?].
  - case_decide; [|done]. destruct (lru_recs c); simpl; [done|]. intros [= ->]. apply list_elem_of_here.
Qed.

(** The specification stays within the capacities. *)
Lemma lru_put_ok c r : lru_ok c → lru_ok (lru_put c r).2.
Proof.
  intros [Hpos Hw Hd Hp]. split; simpl; [done|done| |].
  - rewrite length_app. simpl. pose proof (lru_victim_in c r) as Hin. revert Hin.
    unfold lru_victim. specialize (Hp (tok r)). case_decide as H1.
    + destruct (recs_of (lru_recs c) (tok r)) as [|x k] eqn:E; simpl in *; [lia|].
      intros Hin. rewrite (length_erase_same x (lru_recs c)) in Hd by eauto. lia.
    + case_decide as H2; [|simpl; lia]. destruct (lru_recs c) as [|x l]; simpl in *; [lia|].
      intros _. rewrite same_record_refl. lia.
  - intros t. rewrite recs_of_app, recs_of_single, length_app.
    pose proof (Hp t) as Ht. unfold lru_victim. case_decide as H1.
    + destruct (recs_of (lru_recs c) (tok r)) as [|x k] eqn:E; [simpl in *; lia|].
      simpl. rewrite recs_of_erase. apply recs_of_cons_head in E as Hx. destruct Hx as [-> _].
      destruct (decide (tok r = t)) as [<-|]; simpl; [|lia].
      rewrite E, erase_same_cons. rewrite E in Ht. simpl in *. lia.
    + assert (length (recs_of (lru_drop (lru_recs c)
                (if decide (length (lru_recs c) = lru_dev c) then head (lru_recs c) else None)) t)
              ≤ length (recs_of (lru_recs c) t)) as Hle.
      { case_decide; [|done]. destruct (head (lru_recs c)) as [x|]; [|done]. simpl.
        apply sublist_length. unfold recs_of. apply sublist_filter_mono, erase_first_sublist. }
      destruct (decide (tok r = t)) as [<-|]; simpl; [|lia]. specialize (Hp (tok r)). lia.
Qed.

(** The last step: the record joins the device list. *)
Lemma push_dev_rep s l r :
  dev_rep s l → (Z.of_nat (length l) + 1 < UINT32_MOD)%Z → dev_rep (push_dev s r) (l ++ [r]).
Proof.
  intros [Hl Hc] Hw. split; simpl; [by rewrite Hl|]. rewrite Hc, length_app. simpl.
  rewrite u32_small; lia.
Qed.

(** The device side, once the record is in the list of its application and
    nothing was given up there. *)
Lemma AddToDevLru_rep s c r :
  devLruCapacity_ s = Z.of_nat (lru_dev c) → dev_rep s (lru_recs c) →
  proc_rep (procLruMap_ s) (lru_recs c ++ [r]) → lru_ok c →
  length (recs_of (lru_recs c) (tok r)) ≠ lru_proc c →
  ∃ s', AddToDevLru s r None = Ret (lru_victim c r, s') ∧
        dev_rep s' (lru_recs (lru_put c r).2) ∧
        proc_rep (procLruMap_ s') (lru_recs (lru_put c r).2) ∧
        devLruCapacity_ s' = devLruCapacity_ s ∧ procLruCapacity_ s' = procLruCapacity_ s.
Proof.
  intros Hcap Hdev Hproc [Hpos Hw Hd Hp] Hne. unfold lru_put, lru_victim. simpl.
  rewrite (decide_False (P := length (recs_of _ _) = _)) by done.
  unfold AddToDevLru. rewrite Hcap, (dev_cnt _ _ Hdev).
  destruct (decide (length (lru_recs c) = lru_dev c)) as [Hf|Hf].
  - rewrite decide_True by lia. rewrite (dev_list _ _ Hdev).
    destruct (lru_recs c) as [|x l] eqn:El; [simpl in *; lia|]. simpl.
    rewrite same_record_refl.
    pose proof (proc_remove_frame s x) as (F1 & F2 & F3 & F4).
    eexists. split; [reflexivity|]. split; [|split].
    + apply push_dev_rep; [|simpl in *; lia]. split; simpl.
      * by rewrite F1, (dev_list _ _ Hdev).
      * rewrite F2, (dev_cnt _ _ Hdev). simpl in *. rewrite u32_small; lia.
    + simpl. replace (l ++ [r]) with (erase_first (same_record x) ((x :: l) ++ [r]))
        by (simpl; by rewrite same_record_refl).
      apply proc_remove_rep; [done|]. rewrite length_app. simpl in *. lia.
    + simpl. by rewrite F3, F4.
  - rewrite decide_False by lia. eexists. split; [reflexivity|]. simpl.
    split; [|done]. apply push_dev_rep; [done|]. lia.
Qed.

Lemma Put_rep s c r :
  cache_rep s c → lru_ok c →
  ∃ s', Put s (Some r) = Ret ((lru_put c r).1, s') ∧ cache_rep s' (lru_put c r).2.
Proof.
  intros [Hdc Hpc Hdev Hproc] Hok. destruct (ok_pos c Hok) as [Hd0 Hp0].
  assert (Z.of_nat (length (lru_recs c)) < UINT32_MOD)%Z as Hw
    by (pose proof (ok_width c Hok); pose proof (ok_dev c Hok); lia).
  unfold Put, AddToProcLru. pose proof (Hproc (tok r)) as Hr.
  destruct (procLruMap_ s !! tok r) as [info|] eqn:Ei.
  - destruct Hr as [Hrl Hrc]. rewrite Hrc, Hpc.
    destruct (decide (length (recs_of (lru_recs c) (tok r)) = lru_proc c)) as [Hf|Hf].
    + rewrite decide_True by lia. rewrite Hrl. unfold lru_put, lru_victim. simpl.
      rewrite decide_True by done.
      destruct (recs_of (lru_recs c) (tok r)) as [|x k] eqn:E; [simpl in *; lia|]. simpl.
      apply recs_of_cons_head in E as Hx. destruct Hx as [Htx Hx].
      pose proof (dev_remove_frame s x) as (F1 & F2 & F3).
      pose proof (length_erase_same x _ Hx) as Hlen.
      eexists. split; [reflexivity|]. split; simpl; [by rewrite F2|by rewrite F3| |].
      * apply push_dev_rep; [|lia].
        apply dev_remove_rep with (r := x) in Hdev; [|done]. destruct Hdev. by split.
      * rewrite F1. intros t. specialize (Hproc t).
        rewrite recs_of_app, recs_of_single, recs_of_erase, lookup_insert, Htx.
        destruct (decide (tok r = t)) as [<-|]; [|by rewrite app_nil_r].
        rewrite E, erase_same_cons. simpl. rewrite length_app. simpl. split; [done|lia].
    + rewrite decide_False by lia.
      assert (length (recs_of (lru_recs c) (tok r)) < lru_proc c) as Hlt
        by (pose proof (ok_proc c Hok (tok r)); lia).
      set (s1 := s <| procLruMap_ ::= _ |>). cbn [obind].
      destruct (AddToDevLru_rep s1 c r) as (s' & -> & H1 & H2 & H3 & H4); try done.
      * destruct Hdev. by split.
      * unfold s1. simpl. rewrite Hrl. pose proof (ok_width c Hok).
        rewrite u32_small by lia. by apply proc_rep_push.
      * exists s'. split; [done|]. split; simpl; [by rewrite H3|by rewrite H4|done|done].
  - set (s1 := s <| procLruMap_ ::= _ |>). cbn [obind].
    destruct (AddToDevLru_rep s1 c r) as (s' & -> & H1 & H2 & H3 & H4); try done.
    + destruct Hdev. by split.
    + unfold s1. simpl. pose proof (proc_rep_push _ _ r Hproc) as Hpush. by rewrite Hr in Hpush.
    + rewrite Hr. simpl. lia.
    + exists s'. split; [done|]. split; simpl; [by rewrite H3|by rewrite H4|done|done].
Qed.
(** ** Getting and removing a record *)

Lemma find_in_recs (p : Z → bool) l t :
  find_if (λ x, bool_decide (tok x = t) && p x) l = find_if p (recs_of l t).
Proof.
  unfold recs_of. induction l as [|x l IH]; simpl; [done|]. rewrite filter_cons, IH.
  destruct (decide (tok x = t)); [rewrite bool_decide_true by done|rewrite bool_decide_false by done];
    done.
Qed.

(** The first match is the first occurrence of the record found. *)
Lemma erase_found (p : Z → bool) l r :
  find_if p l = Some r → erase_first p l = erase_first (same_record r) l.
Proof.
  induction l as [|x l IH]; simpl; [done|]. destruct (p x) eqn:E.
  - intros [= ->]. by rewrite same_record_refl.
  - intros H. destruct (same_record r x) eqn:Er; [|by rewrite IH].
    apply bool_decide_eq_true in Er as ->. apply find_if_elem in H as [_ ?]. congruence.
Qed.

Lemma lru_drop_ok c v : lru_ok c → lru_ok (mkLru (lru_dev c) (lru_proc c) (lru_drop (lru_recs c) v)).
Proof.
  intros [Hpos Hw Hd Hp].
  assert (sublist (lru_drop (lru_recs c) v) (lru_recs c)) as Hs
    by (destruct v; [apply erase_first_sublist|done]).
  split; simpl; [done|done| |].
  - apply sublist_length in Hs. lia.
  - intros t. specialize (Hp t). etrans; [|exact Hp].
    apply sublist_length. unfold recs_of. by apply sublist_filter_mono.
Qed.

Lemma lru_ok_width c : lru_ok c → (Z.of_nat (length (lru_recs c)) < UINT32_MOD)%Z.
Proof. intros [_ Hw Hd _]. lia. Qed.

Lemma CacheGet_rep s c req :
  cache_rep s c → lru_ok c →
  (CacheGet s req).1 = (lru_get c req).1 ∧ cache_rep (CacheGet s req).2 (lru_get c req).2.
Proof.
  intros [Hdc Hpc Hdev Hproc] Hok. pose proof (lru_ok_width c Hok) as Hw.
  unfold CacheGet, GetAbilityRecInProcList, lru_get.
  set (t := req_accessTokenId req). rewrite find_in_recs.
  pose proof (Hproc t) as Ht. destruct (procLruMap_ s !! t) as [info|] eqn:Ei.
  - destruct Ht as [Hl Hc]. rewrite Hl.
    destruct (find_if (IsRecInfoSame req) (recs_of (lru_recs c) t)) as [r|] eqn:Ef; [|done].
    split; [done|]. simpl. set (s1 := s <| procLruMap_ ::= _ |>).
    apply find_if_elem in Ef as Hin. destruct Hin as [Hin _].
    apply elem_of_recs_of in Hin as Hin'. destruct Hin' as [Htr Hrl].
    pose proof (dev_remove_frame s1 r) as (F1 & F2 & F3).
    split; simpl; [by rewrite F2|by rewrite F3| |].
    + apply dev_remove_rep; [|done]. destruct Hdev. by split.
    + rewrite F1. intros u. unfold s1. simpl. rewrite lookup_insert, recs_of_erase, Htr.
      case_decide as Hu; [|apply Hproc]. subst u. simpl. rewrite (erase_found _ _ _ Ef).
      split; [done|]. pose proof (length_erase_same r _ Hin) as Hlen.
      pose proof (length_recs_of (lru_recs c) t). rewrite u32_small; lia.
  - rewrite Ht. done.
Qed.

Lemma CacheRemove_rep s c r :
  cache_rep s c → lru_ok c →
  cache_rep (CacheRemove s (Some r)) (mkLru (lru_dev c) (lru_proc c) (lru_drop (lru_recs c) (Some r))).
Proof.
  intros [Hdc Hpc Hdev Hproc] Hok. pose proof (lru_ok_width c Hok) as Hw. simpl.
  pose proof (proc_remove_frame s r) as (F1 & F2 & F3 & F4).
  pose proof (dev_remove_frame (RemoveAbilityRecInProcList s r) r) as (G1 & G2 & G3).
  split; simpl; [by rewrite G2, F3|by rewrite G3, F4| |].
  - apply dev_remove_rep; [|done]. destruct Hdev. split; by rewrite ?F1, ?F2.
  - rewrite G1. apply proc_remove_rep; [done|lia].
Qed.

(** ** Calls *)

Inductive cache_call :=
| CallPut (r : option Z)
| CallRemove (r : option Z)
| CallGet (req : CacheRequest).

Definition run_cache s (k : cache_call) : outcome (option Z * AbilityCacheManager) :=
  match k with
  | CallPut r => Put s r
  | CallRemove r => Ret (None, CacheRemove s r)
  | CallGet req => Ret (CacheGet s req)
  end.

Definition run_lru (c : lru_spec) (k : cache_call) : option Z * lru_spec :=
  match k with
  | CallPut None => (None, c)
  | CallPut (Some r) => lru_put c r
  | CallRemove r => (None, mkLru (lru_dev c) (lru_proc c) (lru_drop (lru_recs c) r))
  | CallGet req => lru_get c req
  end.

Fixpoint run_cache_calls s (ks : list cache_call) : outcome (list (option Z) * AbilityCacheManager) :=
  match ks with
  | [] => Ret ([], s)
  | k :: ks =>
      let* (res, s) := run_cache s k in
      let* (results, s) := run_cache_calls s ks in
      Ret (res :: results, s)
  end.

Fixpoint run_lru_calls (c : lru_spec) (ks : list cache_call) : list (option Z) * lru_spec :=
  match ks with
  | [] => ([], c)
  | k :: ks =>
      let '(res, c) := run_lru c k in
      let '(results, c) := run_lru_calls c ks in
      (res :: results, c)
  end.

Lemma run_cache_rep s c k :
  cache_rep s c → lru_ok c →
  ∃ s', run_cache s k = Ret ((run_lru c k).1, s') ∧
        cache_rep s' (run_lru c k).2 ∧ lru_ok (run_lru c k).2.
Proof.
  intros Hr Hok. destruct k as [[r|]|[r|]|req]; cbn [run_cache run_lru].
  - destruct (Put_rep s c r Hr Hok) as (s' & H1 & H2). eauto using lru_put_ok.
  - by exists s.
  - eexists. split; [reflexivity|]. split; [by apply CacheRemove_rep|by apply lru_drop_ok].
  - exists s. destruct c. done.
  - destruct (CacheGet_rep s c req Hr Hok) as [H1 H2]. destruct (CacheGet s req) as [v s'].
    exists s'. simpl in H1. subst v. split; [done|]. split; [exact H2|]. by apply lru_drop_ok.
Qed.

Lemma new_rep (dev proc : nat) :
  cache_rep (CacheInit AbilityCacheManager_new (Z.of_nat dev) (Z.of_nat proc)) (mkLru dev proc []).
Proof. by split. Qed.

(** C14: a cache set up with positive capacities implements one list of records,
    oldest first, for every sequence of calls: no call is undefined, the records
    given up and handed out are those of the list, and the list of the device
    and of every application stay within their capacities. *)
Theorem cache_refines_lru (dev proc : nat) (ks : list cache_call) :
  0 < dev → 0 < proc → (Z.of_nat dev < UINT32_MOD)%Z → (Z.of_nat proc < UINT32_MOD)%Z →
  let '(results, c) := run_lru_calls (mkLru dev proc []) ks in
  ∃ s, run_cache_calls
         (CacheInit AbilityCacheManager_new (Z.of_nat dev) (Z.of_nat proc)) ks = Ret (results, s) ∧
       cache_rep s c ∧ length (GetAbilityList s) ≤ dev ∧
       ∀ t, length (recs_of (GetAbilityList s) t) ≤ proc.
Proof.
  intros Hd Hp Hdw Hpw.
  enough (∀ s c, cache_rep s c → lru_ok c → lru_dev c = dev → lru_proc c = proc →
            let '(results, c') := run_lru_calls c ks in
            ∃ s', run_cache_calls s ks = Ret (results, s') ∧ cache_rep s' c' ∧ lru_ok c' ∧
                  lru_dev c' = dev ∧ lru_proc c' = proc) as H.
  { specialize (H _ _ (new_rep dev proc)). destruct (run_lru_calls _ _) as [results c'].
    destruct H as (s' & Hr & Hrep & [_ _ Hk1 Hk2] & <- & <-); [|done|done|].
    { split; simpl; [lia|lia|lia|]. intros t. simpl. lia. }
    exists s'. unfold GetAbilityList. rewrite (dev_list _ _ (rep_dev _ _ Hrep)). done. }
  induction ks as [|k ks IH]; intros s c Hr Hok Hcd Hcp; cbn [run_lru_calls run_cache_calls].
  { by exists s. }
  destruct (run_cache_rep s c k Hr Hok) as (s1 & H1 & H2 & H3). rewrite H1. cbn [obind].
  assert (lru_dev (run_lru c k).2 = dev ∧ lru_proc (run_lru c k).2 = proc) as [Hd1 Hp1]
    by (by destruct k as [[r|]|r|req]).
  destruct (run_lru c k) as [res c1]. specialize (IH s1 c1 H2 H3 Hd1 Hp1).
  destruct (run_lru_calls c1 ks) as [results c2]. destruct IH as (s' & -> & ? & ? & ? & ?).
  by exists s'.
Qed.

(** ** The deletion by bundle *)

Lemma delete_invalid_no_match bundleName before rest s :
  (∀ r, r ∈ rest → appBundleName (attrs r) ≠ bundleName) →
  delete_invalid_loop bundleName before rest s = Ret s.
Proof.
  revert before. induction rest as [|r rest IH]; intros before H; simpl; [done|].
  destruct (String.eqb_spec (appBundleName (attrs r)) bundleName) as [E|_].
  - by destruct (H r (list_elem_of_here _ _)).
  - apply IH. intros x Hx. by apply H, list_elem_of_further.
Qed.

Lemma delete_invalid_match bundleName before rest s r :
  Forall (λ x, appBundleName (attrs x) ≠ bundleName) before →
  r ∈ rest → appBundleName (attrs r) = bundleName →
  delete_invalid_loop bundleName before rest s = Undef.
Proof.
  revert before. induction rest as [|x rest IH]; intros before Hb Hr He; simpl;
    [by apply not_elem_of_nil in Hr|].
  destruct (String.eqb_spec (appBundleName (attrs x)) bundleName) as [E|E].
  - rewrite find_same, decide_False; [done|]. rewrite Forall_forall in Hb.
    intros Hx. by apply (Hb x).
  - apply elem_of_cons in Hr as [->|Hr]; [done|]. apply IH; [|done|done].
    apply Forall_app. auto.
Qed.

(** Deleting the records of a bundle steps an invalidated iterator as soon
    as the cache holds a record of the bundle, and does nothing otherwise. *)
Theorem DeleteInvalidServiceRecord_undefined s bundleName :
  DeleteInvalidServiceRecord s bundleName =
  if decide (Exists (λ r, appBundleName (attrs r) = bundleName) (devRecLru_ s))
  then Undef else Ret s.
Proof.
  unfold DeleteInvalidServiceRecord. case_decide as H.
  - apply Exists_exists in H as (r & Hr & He). by eapply delete_invalid_match.
  - apply delete_invalid_no_match. intros r Hr He. apply H, Exists_exists. eauto.
Qed.
End Cache.

(** Three records of one application and one of another, in a cache of three
    with two per application. *)
Lemma cache_refines_lru_witness :
  let attrs := λ r, mkAttrs (r / 10) "b" "b" "m" "a" "a" "u" (Some r) "" 0 true false in
  let ks := [CallPut (Some 11%Z); CallPut (Some 21%Z); CallPut (Some 12%Z); CallPut (Some 13%Z);
             CallPut (Some 31%Z); CallGet (mkCacheRequest 1 "m" "a")] in
  ∃ s, run_cache_calls attrs (CacheInit AbilityCacheManager_new 3 2) ks =
         Ret ([None; None; None; Some 11%Z; Some 21%Z; Some 12%Z], s) ∧
       devRecLru_ s = [13%Z; 31%Z].
Proof.
  intros attrs ks.
  pose proof (cache_refines_lru attrs 3 2 ks ltac:(lia) ltac:(lia) ltac:(done) ltac:(done)) as H.
  assert (run_lru_calls attrs (mkLru 3 2 []) ks =
          ([None; None; None; Some 11%Z; Some 21%Z; Some 12%Z], mkLru 3 2 [13%Z; 31%Z])) as E
    by (vm_compute; reflexivity).
  rewrite E in H. destruct H as (s & Hr & Hrep & _). exists s. split; [exact Hr|].
  apply (dev_list _ _ (rep_dev _ _ _ Hrep)).
Defined.
