(* ===== verification/DataObs.v ===== *)
(** * Data observers by URI

    [services/dataobsmgr/src/dataobs_mgr_inner.cpp]: the observers registered on
    each URI string, and the death recipients of their remote objects.

    An observer is a pointer to an interface object ([obs_ptr], the identity of
    the [sptr<IDataAbilityObserver>]) and the remote object it stands for
    ([obs_remote], what [AsObject()] returns, null when there is none). *)

From stdpp Require Import prelude gmap strings list.
From Stdlib Require Import ZArith Lia.
From S2P Require Import Prelude.

Record Observer := mkObserver {
  obs_ptr : Z;
  obs_remote : option Z;
}.

#[global] Instance Observer_eq_dec : EqDecision Observer.
Proof. solve_decision. Defined.

Definition NO_ERROR : Z := 0.
Definition DATAOBS_SERVICE_ERR_OFFSET : Z := 2228224.
Definition DATA_OBSERVER_IS_NULL : Z := DATAOBS_SERVICE_ERR_OFFSET + 3.
Definition DATAOBS_SERVICE_OBS_LIMMIT : Z := DATAOBS_SERVICE_ERR_OFFSET + 7.
Definition NO_OBS_FOR_URI : Z := DATAOBS_SERVICE_ERR_OFFSET + 9.
Definition OBS_EXIST : Z := DATAOBS_SERVICE_ERR_OFFSET + 10.

Definition OBS_NUM_MAX : nat := 50.

Record DataObsMgrInner := mkInner {
  observers_ : gmap string (list Observer);
  obsRecipient_ : gset Z;
}.

#[global] Instance DataObsMgrInner_reconstruct : Reconstruct DataObsMgrInner := λ s,
  mkInner (observers_ s) (obsRecipient_ s).

Definition DataObsMgrInner_new : DataObsMgrInner := mkInner ∅ ∅.

(** ** Operations *)

(** [AsObject() == AsObject()]. *)
Definition same_remote (o x : Observer) : bool := bool_decide (obs_remote x = obs_remote o).

Definition AddObsDeathRecipient (s : DataObsMgrInner) (o : Observer) : DataObsMgrInner :=
  match obs_remote o with
  | None => s
  | Some r => if decide (r ∈ obsRecipient_ s) then s
              else s <| obsRecipient_ ::= λ rs, {[r]} ∪ rs |>
  end.

Definition RemoveObsDeathRecipient (s : DataObsMgrInner) (remote : option Z) : DataObsMgrInner :=
  match remote with
  | None => s
  | Some r => if decide (r ∈ obsRecipient_ s) then s <| obsRecipient_ ::= λ rs, rs ∖ {[r]} |> else s
  end.

Definition HandleRegisterObserver (s : DataObsMgrInner) (uri : string) (o : Observer)
    : Z * DataObsMgrInner :=
  let '(obsList, flag, s) :=
    match observers_ s !! uri with
    | Some l => (l, false, s)
    | None => ([], true, s <| observers_ ::= <[uri := []]> |>)
    end in
  if negb flag && (OBS_NUM_MAX <? length obsList) then (DATAOBS_SERVICE_OBS_LIMMIT, s)
  else
    match find_if (same_remote o) obsList with
    | Some _ => (OBS_EXIST, s)
    | None => (NO_ERROR, AddObsDeathRecipient (s <| observers_ ::= <[uri := obsList ++ [o]]> |>) o)
    end.

(** [std::find] over every list, by pointer. *)
Definition HaveRegistered (s : DataObsMgrInner) (o : Observer) : bool :=
  existsb (λ kv, match find_if (λ x, bool_decide (obs_ptr x = obs_ptr o)) kv.2 with
                 | Some _ => true | None => false end)
    (map_iter (observers_ s)).

Definition HandleUnregisterObserver (s : DataObsMgrInner) (uri : string) (o : Observer)
    : Z * DataObsMgrInner :=
  match observers_ s !! uri with
  | None => (NO_OBS_FOR_URI, s)
  | Some obsList =>
      match find_if (same_remote o) obsList with
      | None => (NO_OBS_FOR_URI, s)
      | Some x =>
          let obsList := filter (λ y, obs_ptr y ≠ obs_ptr x) obsList in
          let s := s <| observers_ ::= if decide (obsList = []) then delete uri else <[uri := obsList]> |> in
          (NO_ERROR, if HaveRegistered s o then s else RemoveObsDeathRecipient s (obs_remote o))
      end
  end.

(** The observers whose [OnChange] is called, in order. *)
Definition HandleNotifyChange (s : DataObsMgrInner) (uri : string) : Z * list Observer :=
  match observers_ s !! uri with
  | None => (NO_OBS_FOR_URI, [])
  | Some obsList => (NO_ERROR, obsList)
  end.

(** One list of the loop of [RemoveObs]: an emptied list is erased. *)
Definition without_remote (r : Z) (l : list Observer) : option (list Observer) :=
  let l := erase_first (λ x, bool_decide (obs_remote x = Some r)) l in
  if decide (l = []) then None else Some l.

Definition RemoveObs (s : DataObsMgrInner) (r : Z) : DataObsMgrInner :=
  RemoveObsDeathRecipient (s <| observers_ ::= omap (without_remote r) |>) (Some r).

Definition OnCallBackDied (s : DataObsMgrInner) (remote : option Z) : DataObsMgrInner :=
  match remote with
  | None => s
  | Some r => RemoveObs s r
  end.

(** ** Calls and reachable states *)

Inductive obs_call :=
| CallRegister (uri : string) (o : Observer)
| CallUnregister (uri : string) (o : Observer)
| CallDied (remote : option Z).

Definition run_obs (s : DataObsMgrInner) (c : obs_call) : DataObsMgrInner :=
  match c with
  | CallRegister uri o => (HandleRegisterObserver s uri o).2
  | CallUnregister uri o => (HandleUnregisterObserver s uri o).2
  | CallDied remote => OnCallBackDied s remote
  end.

Definition call_observers (c : obs_call) : list Observer :=
  match c with CallRegister _ o | CallUnregister _ o => [o] | CallDied _ => [] end.

(** The observers of the calls are told apart by their remote objects: two
    pointers to one remote object are one pointer, and none is null. *)
Definition one_proxy_per_remote (os : list Observer) : Prop :=
  (∀ o, o ∈ os → is_Some (obs_remote o)) ∧
  ∀ o o', o ∈ os → o' ∈ os → obs_remote o = obs_remote o' ↔ obs_ptr o = obs_ptr o'.

(** ** Registered observers *)

Definition registered (s : DataObsMgrInner) (uri : string) (o : Observer) : Prop :=
  ∃ l, observers_ s !! uri = Some l ∧ o ∈ l.

(** No URI has an empty list, a URI has at most one observer per remote object
    and at most [OBS_NUM_MAX + 1] observers. *)
Record obs_inv (s : DataObsMgrInner) : Prop := {
  obs_nonempty : ∀ uri, observers_ s !! uri ≠ Some [];
  obs_distinct : ∀ uri l, observers_ s !! uri = Some l → NoDup (obs_remote <$> l);
  obs_bound : ∀ uri l, observers_ s !! uri = Some l → length l ≤ OBS_NUM_MAX + 1;
}.

Lemma same_remote_find o l x :
  find_if (same_remote o) l = Some x → x ∈ l ∧ obs_remote x = obs_remote o.
Proof. intros [H ?%bool_decide_eq_true]%find_if_elem. done. Qed.

Lemma same_remote_none o l :
  find_if (same_remote o) l = None → obs_remote o ∉ (obs_remote <$> l).
Proof.
  rewrite find_if_None. intros H (x & Hx & Hin)%list_elem_of_fmap.
  specialize (H x Hin). by apply bool_decide_eq_false in H.
Qed.

Lemma NoDup_fmap_sublist (k l : list Observer) :
  sublist k l → NoDup (obs_remote <$> l) → NoDup (obs_remote <$> k).
Proof. intros Hs Hl. eapply sublist_NoDup; [exact Hl|]. by apply sublist_fmap_mono. Qed.

Lemma obs_inv_ext s s' : observers_ s' = observers_ s → obs_inv s → obs_inv s'.
Proof. intros E []. split; by rewrite E. Qed.

Lemma AddObsDeathRecipient_observers s o : observers_ (AddObsDeathRecipient s o) = observers_ s.
Proof. unfold AddObsDeathRecipient. destruct (obs_remote o); [|done]. by case_decide. Qed.

Lemma RemoveObsDeathRecipient_observers s r : observers_ (RemoveObsDeathRecipient s r) = observers_ s.
Proof. unfold RemoveObsDeathRecipient. destruct r; [|done]. by case_decide. Qed.

(** The observers after a registration. *)
Lemma register_observers s uri o :
  (∀ u, observers_ s !! u ≠ Some []) →
  let '(code, s') := HandleRegisterObserver s uri o in
  let l := default [] (observers_ s !! uri) in
  (code = NO_ERROR ∧ length l ≤ OBS_NUM_MAX ∧ (obs_remote o ∉ (obs_remote <$> l)) ∧
   observers_ s' = <[uri := l ++ [o]]> (observers_ s)) ∨
  ((code = DATAOBS_SERVICE_OBS_LIMMIT ∧ OBS_NUM_MAX < length l ∨
    code = OBS_EXIST ∧ length l ≤ OBS_NUM_MAX ∧ obs_remote o ∈ (obs_remote <$> l)) ∧ s' = s).
Proof.
  intros Hne. unfold HandleRegisterObserver.
  destruct (observers_ s !! uri) as [l|] eqn:E; cbn [negb andb default].
  - destruct (Nat.ltb_spec OBS_NUM_MAX (length l)) as [Hlt|Hle].
    { right. split; [by left|done]. }
    destruct (find_if (same_remote o) l) as [x|] eqn:Ef.
    + apply same_remote_find in Ef as [Hx Hr]. right. split; [right|done].
      split; [done|]. split; [done|]. rewrite <-Hr. by apply list_elem_of_fmap_2.
    + left. split; [done|]. split; [done|].
      split; [by apply same_remote_none|]. by rewrite AddObsDeathRecipient_observers.
  - left. split; [done|]. split; [simpl; lia|]. split; [apply not_elem_of_nil|].
    rewrite AddObsDeathRecipient_observers. simpl. by rewrite insert_insert_eq.
Qed.

(** The observers after a withdrawal. *)
Lemma unregister_observers s uri o :
  let '(code, s') := HandleUnregisterObserver s uri o in
  (code = NO_OBS_FOR_URI ∧ s' = s ∧
   obs_remote o ∉ (obs_remote <$> default [] (observers_ s !! uri))) ∨
  ∃ l x, code = NO_ERROR ∧ observers_ s !! uri = Some l ∧ x ∈ l ∧ obs_remote x = obs_remote o ∧
    let l' := filter (λ y, obs_ptr y ≠ obs_ptr x) l in
    let s1 := s <| observers_ ::= if decide (l' = []) then delete uri else <[uri := l']> |> in
    s' = if HaveRegistered s1 o then s1 else RemoveObsDeathRecipient s1 (obs_remote o).
Proof.
  unfold HandleUnregisterObserver. destruct (observers_ s !! uri) as [l|] eqn:E.
  - destruct (find_if (same_remote o) l) as [x|] eqn:Ef.
    + apply same_remote_find in Ef as [Hx Hr]. right. by exists l, x.
    + left. split; [done|]. split; [done|]. by apply same_remote_none.
  - left. split; [done|]. split; [done|]. apply not_elem_of_nil.
Qed.

Lemma obs_inv_shrink s m :
  obs_inv s →
  (∀ uri l, m !! uri = Some l → l ≠ [] ∧ ∃ l0, observers_ s !! uri = Some l0 ∧ sublist l l0) →
  obs_inv (s <| observers_ := m |>).
Proof.
  intros [H1 H2 H3] Hm. split; simpl.
  - intros uri E. by destruct (Hm uri [] E).
  - intros uri l E. destruct (Hm uri l E) as (_ & l0 & E0 & Hs). eauto using NoDup_fmap_sublist.
  - intros uri l E. destruct (Hm uri l E) as (_ & l0 & E0 & Hs).
    apply sublist_length in Hs. specialize (H3 _ _ E0). unfold OBS_NUM_MAX in *. lia.
Qed.

Lemma run_obs_inv s c : obs_inv s → obs_inv (run_obs s c).
Proof.
  intros Hs. destruct c as [uri o|uri o|[r|]]; simpl.
  - pose proof (register_observers s uri o (obs_nonempty s Hs)) as H.
    destruct (HandleRegisterObserver s uri o) as [code s'].
    destruct H as [(_ & Hlen & Hfresh & Ho)|[_ ->]]; [|done].
    destruct Hs as [H1 H2 H3].
    assert (NoDup (obs_remote <$> default [] (observers_ s !! uri))) as Hnd
      by (destruct (observers_ s !! uri) eqn:E; [by eapply H2|constructor]).
    split; cbn [snd]; rewrite Ho; intros u.
    + rewrite lookup_insert. case_decide; [|done]. by destruct (default [] _).
    + intros l. rewrite lookup_insert. case_decide; [|apply H2]. intros [= <-].
      rewrite fmap_app, NoDup_app. split; [done|]. split; [|apply NoDup_singleton].
      intros x Hx ->%list_elem_of_singleton. done.
    + intros l. rewrite lookup_insert. case_decide; [|apply H3]. intros [= <-].
      rewrite length_app. unfold OBS_NUM_MAX in *. simpl. lia.
  - pose proof (unregister_observers s uri o) as H.
    destruct (HandleUnregisterObserver s uri o) as [code s'].
    destruct H as [(_ & -> & _)|(l & x & _ & El & _ & _ & ->)]; [done|].
    set (l' := filter _ l). set (s1 := s <| observers_ ::= _ |>).
    assert (obs_inv s1) as Hs1.
    { apply obs_inv_shrink; [done|]. intros u k. case_decide as Hd.
      - rewrite lookup_delete. case_decide; [done|]. intros E. split; [|by eauto].
        intros ->. by apply (obs_nonempty s Hs u).
      - rewrite lookup_insert. case_decide; [|intros E; split; [|by eauto]].
        + subst u. intros [= <-]. split; [done|]. exists l. split; [done|]. apply sublist_filter.
        + intros ->. by apply (obs_nonempty s Hs u). }
    destruct (HaveRegistered s1 o); [done|].
    eapply obs_inv_ext; [apply RemoveObsDeathRecipient_observers|done].
  - eapply obs_inv_ext; [apply RemoveObsDeathRecipient_observers|].
    apply obs_inv_shrink; [done|]. intros u k. rewrite lookup_omap.
    destruct (observers_ s !! u) as [l|] eqn:E; simpl; [|done].
    unfold without_remote. case_decide as Hd; [done|]. intros [= <-]. split; [done|].
    exists l. split; [done|apply erase_first_sublist].
  - done.
Qed.

(** ** Death recipients *)

(** A remote object has a recipient exactly while an observer of it is
    registered somewhere. *)
Definition recipients_exact (s : DataObsMgrInner) : Prop :=
  ∀ r, r ∈ obsRecipient_ s ↔ ∃ uri o, registered s uri o ∧ obs_remote o = Some r.

Lemma HaveRegistered_spec s o :
  HaveRegistered s o = true ↔ ∃ uri x, registered s uri x ∧ obs_ptr x = obs_ptr o.
Proof.
  unfold HaveRegistered. rewrite existsb_exists. split.
  - intros ([uri l] & Hin & H). apply list_elem_of_In, elem_of_map_iter in Hin. simpl in H.
    destruct (find_if _ l) as [x|] eqn:E; [|done].
    apply find_if_elem in E as [Hx Hp%bool_decide_eq_true]. exists uri, x. split; [|done].
    by exists l.
  - intros (uri & x & (l & El & Hx) & Hp). exists (uri, l).
    split; [by apply list_elem_of_In, elem_of_map_iter|]. simpl.
    destruct (find_if_is_Some (λ y, bool_decide (obs_ptr y = obs_ptr o)) l) as [y ->]; [|done].
    exists x. split; [done|]. by apply bool_decide_eq_true.
Qed.

Lemma elem_of_add_recipient s o r :
  r ∈ obsRecipient_ (AddObsDeathRecipient s o) ↔ r ∈ obsRecipient_ s ∨ obs_remote o = Some r.
Proof.
  unfold AddObsDeathRecipient. destruct (obs_remote o) as [r'|]; [|naive_solver].
  case_decide; simpl; set_solver.
Qed.

Lemma elem_of_remove_recipient s p r :
  r ∈ obsRecipient_ (RemoveObsDeathRecipient s p) ↔ r ∈ obsRecipient_ s ∧ p ≠ Some r.
Proof.
  unfold RemoveObsDeathRecipient. destruct p as [r'|]; [|naive_solver].
  case_decide; simpl; set_solver.
Qed.

Lemma registered_add_recipient s o uri x :
  registered (AddObsDeathRecipient s o) uri x ↔ registered s uri x.
Proof. unfold registered. by rewrite AddObsDeathRecipient_observers. Qed.

Lemma registered_remove_recipient s p uri x :
  registered (RemoveObsDeathRecipient s p) uri x ↔ registered s uri x.
Proof. unfold registered. by rewrite RemoveObsDeathRecipient_observers. Qed.

(** The state of a system whose observers are among [os]. *)
Section Proxies.
Variable os : list Observer.
Hypothesis Hos : one_proxy_per_remote os.

Definition known (s : DataObsMgrInner) : Prop := ∀ uri o, registered s uri o → o ∈ os.

Lemma same_ptr_same_remote o o' :
  o ∈ os → o' ∈ os → obs_ptr o = obs_ptr o' ↔ obs_remote o = obs_remote o'.
Proof. intros H H'. symmetry. by apply Hos. Qed.

(** What a call does to the registrations. *)
Lemma registered_register s uri o u x :
  obs_inv s → (HandleRegisterObserver s uri o).1 = NO_ERROR →
  registered (HandleRegisterObserver s uri o).2 u x ↔ registered s u x ∨ (u = uri ∧ x = o).
Proof.
  intros Hs Hc. pose proof (register_observers s uri o (obs_nonempty s Hs)) as H.
  destruct (HandleRegisterObserver s uri o) as [code s'].
  destruct H as [(_ & _ & _ & Ho)|[[[-> _]|[-> _]] _]]; [|done|done]. cbn [snd].
  unfold registered. rewrite Ho, lookup_insert. case_decide as Hd.
  - subst u. destruct (observers_ s !! uri) as [l|] eqn:E; simpl; split.
    + intros (? & [= <-] & [Hx| ->%list_elem_of_singleton]%elem_of_app); eauto.
    + intros [(? & [= <-] & Hx)|[_ ->]]; eexists; split; [done| |done|];
        apply elem_of_app; rewrite list_elem_of_singleton; auto.
    + intros (? & [= <-] & ->%list_elem_of_singleton). auto.
    + intros [(? & ? & ?)|[_ ->]]; [done|]. eexists. split; [done|]. apply list_elem_of_here.
  - naive_solver.
Qed.

Lemma registered_unregister s uri o u x l y :
  obs_inv s → known s → observers_ s !! uri = Some l → y ∈ l → obs_remote y = obs_remote o →
  let l' := filter (λ z, obs_ptr z ≠ obs_ptr y) l in
  registered (s <| observers_ ::= if decide (l' = []) then delete uri else <[uri := l']> |>) u x ↔
  registered s u x ∧ ¬ (u = uri ∧ obs_remote x = obs_remote o).
Proof.
  intros Hs Hk El Hy Hr l'.
  assert (∀ z, z ∈ l' ↔ z ∈ l ∧ obs_remote z ≠ obs_remote o) as Hl'.
  { intros z. unfold l'. rewrite list_elem_of_filter.
    assert (z ∈ l → obs_ptr z ≠ obs_ptr y ↔ obs_remote z ≠ obs_remote o) as Hz; [|naive_solver].
    intros Hz. rewrite <-Hr, (same_ptr_same_remote z y); [done| |]; eapply Hk; by exists l. }
  unfold registered. simpl. destruct (decide (u = uri)) as [->|Hne].
  - rewrite El. destruct (decide (l' = [])) as [He|He].
    + rewrite lookup_delete_eq. split; [by intros (? & ? & ?)|].
      intros [(? & [= <-] & Hx) Hn]. assert (x ∈ l') as Hin by (apply Hl'; naive_solver).
      rewrite He in Hin. by apply not_elem_of_nil in Hin.
    + rewrite lookup_insert_eq. split.
      * intros (? & [= <-] & Hx%Hl'). naive_solver.
      * intros [(? & [= <-] & Hx) Hn]. exists l'. split; [done|]. apply Hl'. naive_solver.
  - case_decide; rewrite ?lookup_delete_ne, ?lookup_insert_ne by done; naive_solver.
Qed.

Lemma registered_died s r u x :
  obs_inv s →
  registered (RemoveObs s r) u x ↔ registered s u x ∧ obs_remote x ≠ Some r.
Proof.
  intros Hs. unfold RemoveObs. rewrite registered_remove_recipient. unfold registered. simpl.
  rewrite lookup_omap. destruct (observers_ s !! u) as [l|] eqn:E; simpl; [|naive_solver].
  set (p := λ y, bool_decide (obs_remote y = Some r)).
  assert (∀ z, z ∈ erase_first p l ↔ z ∈ l ∧ obs_remote z ≠ Some r) as Hl.
  { intros z. split.
    - intros Hz. split; [by eapply elem_of_erase_first|]. intros Hr.
      destruct (find_if p l) as [y|] eqn:Ef.
      + pose proof (erase_first_Permutation p l y Ef) as Hp.
        apply find_if_elem in Ef as [_ Hy%bool_decide_eq_true].
        pose proof (obs_distinct s Hs _ _ E) as Hnd. rewrite Hp in Hnd. csimpl in Hnd.
        apply NoDup_cons in Hnd as [Hn _]. apply Hn. rewrite Hy, <-Hr. by apply list_elem_of_fmap_2.
      + rewrite find_if_None in Ef. specialize (Ef z ltac:(by eapply elem_of_erase_first)).
        by apply bool_decide_eq_false in Ef.
    - intros [Hz Hr]. apply erase_first_keep; [done|]. by apply bool_decide_eq_false. }
  unfold without_remote. fold p. case_decide as Hd.
  - split; [by intros (? & ? & ?)|]. intros [(? & [= <-] & Hx) Hn].
    assert (x ∈ erase_first p l) as Hin by (apply Hl; auto). rewrite Hd in Hin.
    by apply not_elem_of_nil in Hin.
  - split.
    + intros (? & [= <-] & Hx%Hl). naive_solver.
    + intros [(? & [= <-] & Hx) Hn]. eexists. split; [done|]. apply Hl. auto.
Qed.
Definition obs_state (s : DataObsMgrInner) : Prop := obs_inv s ∧ known s ∧ recipients_exact s.

Lemma new_obs_state : obs_state DataObsMgrInner_new.
Proof.
  split; [|split].
  - split; intros uri; simpl; [by rewrite lookup_empty| |]; intros l; by rewrite lookup_empty.
  - intros uri o (l & E & _). simpl in E. by rewrite lookup_empty in E.
  - intros r. split; [set_solver|]. intros (uri & o & (l & E & _) & _). simpl in E.
    by rewrite lookup_empty in E.
Qed.

Lemma register_state s uri o : obs_state s → o ∈ os → obs_state (run_obs s (CallRegister uri o)).
Proof.
  intros (Hs & Hk & Hr) Ho. split; [by apply run_obs_inv|]. simpl.
  destruct (decide ((HandleRegisterObserver s uri o).1 = NO_ERROR)) as [Hc|Hc].
  - pose proof (λ u x, registered_register s uri o u x Hs Hc) as Hreg. split.
    + intros u x [Hx|[_ ->]]%Hreg; eauto.
    + intros r. setoid_rewrite Hreg.
      assert (r ∈ obsRecipient_ (HandleRegisterObserver s uri o).2 ↔
              r ∈ obsRecipient_ s ∨ obs_remote o = Some r) as ->; [|rewrite (Hr r); naive_solver].
      unfold HandleRegisterObserver in *.
      destruct (observers_ s !! uri) as [l|]; cbn [negb andb fst snd] in *;
        repeat case_match; simplify_eq/=; try done; by rewrite elem_of_add_recipient.
  - pose proof (register_observers s uri o (obs_nonempty s Hs)) as H.
    destruct (HandleRegisterObserver s uri o) as [code s'].
    destruct H as [(-> & _)|[_ ->]]; done.
Qed.

Lemma unregister_state s uri o : obs_state s → o ∈ os → obs_state (run_obs s (CallUnregister uri o)).
Proof.
  intros (Hs & Hk & Hr) Ho. split; [by apply run_obs_inv|]. simpl.
  pose proof (unregister_observers s uri o) as H.
  destruct (HandleUnregisterObserver s uri o) as [code s']. cbn [snd].
  destruct H as [(_ & -> & _)|(l & y & _ & El & Hy & Hyr & ->)]; [done|].
  pose proof (λ u x, registered_unregister s uri o u x l y Hs Hk El Hy Hyr) as Hreg. cbv zeta in Hreg.
  set (s1 := s <| observers_ ::= _ |>) in *.
  assert (known s1) as Hk1 by (intros u x [Hx _]%Hreg; by eapply Hk).
  assert (HaveRegistered s1 o = true ↔ ∃ u x, registered s1 u x ∧ obs_remote x = obs_remote o) as Hhave.
  { rewrite HaveRegistered_spec. split; intros (u & x & Hx & He); exists u, x; (split; [done|]);
      apply (same_ptr_same_remote x o); eauto. }
  assert (∀ r, obs_remote o ≠ Some r →
    r ∈ obsRecipient_ s1 ↔ ∃ u x, registered s1 u x ∧ obs_remote x = Some r) as Hother.
  { intros r Hne. change (obsRecipient_ s1) with (obsRecipient_ s). rewrite (Hr r). setoid_rewrite Hreg.
    split; [|naive_solver]. intros (u & x & Hx & He). exists u, x. split; [|done].
    split; [done|]. intros [_ ?]. congruence. }
  assert (∀ r, obs_remote o = Some r → r ∈ obsRecipient_ s1) as Hown.
  { intros r He. apply (Hr r). exists uri, y. split; [by exists l|congruence]. }
  destruct (HaveRegistered s1 o).
  - split; [done|]. intros r. destruct (decide (obs_remote o = Some r)) as [He|He]; [|auto].
    split; [|eauto]. intros _. destruct (proj1 Hhave eq_refl) as (u & x & Hx & Hxo).
    exists u, x. split; [done|congruence].
  - split; [intros u x; rewrite registered_remove_recipient; apply Hk1|]. intros r.
    rewrite elem_of_remove_recipient. setoid_rewrite registered_remove_recipient.
    destruct (decide (obs_remote o = Some r)) as [He|He]; [|rewrite Hother by done; naive_solver].
    split; [naive_solver|]. intros (u & x & Hx & Hxr).
    assert (false = true) by (apply Hhave; exists u, x; split; [done|congruence]). done.
Qed.

Lemma died_state s r : obs_state s → obs_state (run_obs s (CallDied (Some r))).
Proof.
  intros (Hs & Hk & Hr). split; [by apply run_obs_inv|]. simpl.
  pose proof (λ u x, registered_died s r u x Hs) as Hreg. split.
  - intros u x [Hx _]%Hreg. by eapply Hk.
  - intros r'. setoid_rewrite Hreg. unfold RemoveObs. rewrite elem_of_remove_recipient. simpl.
    rewrite (Hr r'). naive_solver.
Qed.

Lemma run_obs_state s c :
  obs_state s → Forall (λ o, o ∈ os) (call_observers c) → obs_state (run_obs s c).
Proof.
  intros Hs Hc. destruct c as [uri o|uri o|[r|]]; simpl in Hc.
  - apply register_state; [done|by inversion Hc].
  - apply unregister_state; [done|by inversion Hc].
  - by apply died_state.
  - done.
Qed.
End Proxies.

(** C16: as long as a remote object has one interface pointer, after any sequence
    of registrations, withdrawals and deaths no URI has an empty list, a URI has
    at most one observer per remote object and at most [OBS_NUM_MAX + 1]
    observers, and a remote object has a death recipient exactly while one of its
    observers is registered. *)
Theorem observers_and_recipients (cs : list obs_call) :
  one_proxy_per_remote (cs ≫= call_observers) →
  let s := foldl run_obs DataObsMgrInner_new cs in obs_inv s ∧ recipients_exact s.
Proof.
  intros Hos s. set (os := cs ≫= call_observers) in *.
  assert (Forall (λ c, Forall (λ o, o ∈ os) (call_observers c)) cs) as Hcs.
  { apply Forall_forall. intros c Hc. apply Forall_forall. intros o Ho.
    unfold os. apply list_elem_of_bind. eauto. }
  assert (∀ s0, obs_state os s0 → obs_state os (foldl run_obs s0 cs)) as H.
  { clearbody os. clear s. induction Hcs as [|c cs' Hc _ IH]; intros s0 H0; [done|]. simpl.
    apply IH, run_obs_state; done. }
  destruct (H _ (new_obs_state os Hos)) as (? & _ & ?). done.
Qed.

Definition remote_a : Observer := mkObserver 1 (Some 10%Z).
Definition remote_b : Observer := mkObserver 2 (Some 20%Z).

Lemma observers_and_recipients_witness :
  let s := foldl run_obs DataObsMgrInner_new
             [CallRegister "u" remote_a; CallRegister "u" remote_b; CallRegister "v" remote_a;
              CallUnregister "u" remote_a; CallDied (Some 20%Z)] in
  obs_inv s ∧ recipients_exact s.
Proof.
  apply observers_and_recipients. split.
  - apply Forall_forall. repeat (constructor; [by eexists|]). constructor.
  - intros o o' Ho Ho'. apply list_elem_of_In in Ho, Ho'. simpl in Ho, Ho'.
    repeat match goal with H : _ ∨ _ |- _ => destruct H as [<-|H] end; try done;
      split; intros H; (reflexivity || discriminate H).
Defined.

(** With two interface pointers to one remote object, as when each request
    unmarshals its own proxy, a withdrawal from one URI takes the death recipient
    away although the remote object is still registered on another URI. *)
Theorem unregister_drops_recipient :
  let p1 := mkObserver 1 (Some 10%Z) in
  let p2 := mkObserver 2 (Some 10%Z) in
  let p3 := mkObserver 3 (Some 10%Z) in
  let s := foldl run_obs DataObsMgrInner_new
             [CallRegister "u" p1; CallRegister "v" p2; CallUnregister "u" p3] in
  registered s "v" p2 ∧ 10%Z ∉ obsRecipient_ s.
Proof.
  intros p1 p2 p3 s. split; [exists [mkObserver 2 (Some 10%Z)]; split; [vm_compute; reflexivity|apply list_elem_of_here]|].
  assert (bool_decide (10%Z ∈ obsRecipient_ s) = false) as H by (vm_compute; reflexivity).
  by apply bool_decide_eq_false in H.
Qed.

(** A registration succeeds exactly when the URI has at most [OBS_NUM_MAX]
    observers and none of the same remote object; it appends the observer to the
    list that a notification calls. The limit is checked first, and a refused
    registration changes nothing. *)
Theorem HandleRegisterObserver_spec s uri o :
  obs_inv s →
  let l := default [] (observers_ s !! uri) in
  let '(code, s') := HandleRegisterObserver s uri o in
  code = (if OBS_NUM_MAX <? length l then DATAOBS_SERVICE_OBS_LIMMIT
          else if decide (obs_remote o ∈ (obs_remote <$> l)) then OBS_EXIST else NO_ERROR) ∧
  if decide (code = NO_ERROR) then HandleNotifyChange s' uri = (NO_ERROR, l ++ [o]) else s' = s.
Proof.
  intros Hs l. pose proof (register_observers s uri o (obs_nonempty s Hs)) as H. fold l in H.
  destruct (HandleRegisterObserver s uri o) as [code s'].
  destruct H as [(-> & ? & Hn & Ho)|[[[-> ?]|(-> & ? & Hin)] ->]].
  - rewrite (proj2 (Nat.ltb_ge _ _)), (decide_False (P := _ ∈ _)) by done.
    split; [done|]. rewrite decide_True by done. unfold HandleNotifyChange.
    by rewrite Ho, lookup_insert_eq.
  - by rewrite (proj2 (Nat.ltb_lt _ _)) by done.
  - by rewrite (proj2 (Nat.ltb_ge _ _)), (decide_True (P := _ ∈ _)) by done.
Qed.

Lemma HandleRegisterObserver_spec_witness :
  HandleNotifyChange (HandleRegisterObserver DataObsMgrInner_new "u" remote_a).2 "u" =
  (NO_ERROR, [remote_a]).
Proof.
  pose proof (HandleRegisterObserver_spec DataObsMgrInner_new "u" remote_a) as H.
  assert (obs_inv DataObsMgrInner_new) as Hi
    by (split; intros uri; simpl; [by rewrite lookup_empty| |]; intros l; by rewrite lookup_empty).
  specialize (H Hi). cbv zeta in H.
  destruct (HandleRegisterObserver DataObsMgrInner_new "u" remote_a) as [code s'].
  destruct H as [Hc H]. vm_compute in Hc. subst code. exact H.
Defined.
