(* ===== verification/DataObsExt.v ===== *)
(** * Data observers on a tree of URI segments

    [services/dataobsmgr/src/dataobs_mgr_inner_ext.cpp]: observers are entries of
    the nodes of a tree whose edges are the segments of a URI; a change is told to
    the entries of the node of the URI and to the entries of the nodes above that
    asked for descendants. Each remote object has one death recipient with a
    count of its entries.

    A URI is its path: the scheme, the authority and the segments that [Uri]
    splits it into. *)

From stdpp Require Import prelude gmap strings list.
From Stdlib Require Import ZArith Lia.
From S2P Require Import Prelude DataObs.

Abbreviation path := (list string).

(** [deathRecipientRef] is the identity of a shared counter. *)
Record Entry := mkEntry {
  observer : Observer;
  deathRecipientRef : Z;
  isDescendants : bool;
}.

#[warnings="-register-all"]
Inductive Node := mkNode (entrys_ : list Entry) (childrens_ : gmap string Node).

Definition entrys (n : Node) : list Entry := let 'mkNode es _ := n in es.
Definition childrens (n : Node) : gmap string Node := let 'mkNode _ cs := n in cs.

Definition Node_new : Node := mkNode [] ∅.

Definition is_empty_node (n : Node) : bool :=
  bool_decide (entrys n = []) && bool_decide (childrens n = ∅).

(** ** The nodes *)

Abbreviation ObsMap := (gmap Z (list path)).

(** [obsRes.try_emplace(entry.observer, {}).first->second.push_back(uri)]. *)
Definition push_uri (uri : path) (m : ObsMap) (e : Entry) : ObsMap :=
  let o := obs_ptr (observer e) in <[o := default [] (m !! o) ++ [uri]]> m.

Fixpoint GetObs (n : Node) (p : path) (uri : path) (obsRes : ObsMap) : ObsMap :=
  match p with
  | [] => foldl (push_uri uri) obsRes (entrys n)
  | k :: p' =>
      let obsRes := foldl (push_uri uri) obsRes (filter (λ e, isDescendants e = true) (entrys n)) in
      match childrens n !! k with
      | None => obsRes
      | Some c => GetObs c p' uri obsRes
      end
  end.

Abbreviation RefHeap := (gmap Z Z).

Definition ref_add (d : Z) (r : Z) (refs : RefHeap) : RefHeap := alter (λ z, u32 (z + d)) r refs.

(** The result, the node after the call and the counters after it. *)
Fixpoint AddObserver (n : Node) (p : path) (e : Entry) (refs : RefHeap)
    : bool * Node * RefHeap :=
  match p with
  | [] =>
      if OBS_NUM_MAX <=? length (entrys n) then (false, n, refs)
      else (true, mkNode (entrys n ++ [e]) (childrens n), ref_add 1 (deathRecipientRef e) refs)
  | k :: p' =>
      let c := default Node_new (childrens n !! k) in
      let '(ok, c', refs) := AddObserver c p' e refs in
      (ok, mkNode (entrys n) (<[k := c']> (childrens n)), refs)
  end.

Definition of_remote (r : option Z) (e : Entry) : Prop := obs_remote (observer e) = r.

#[global] Instance of_remote_dec r e : Decision (of_remote r e).
Proof. unfold of_remote. apply _. Defined.

(** The counters after the removal of the entries [es]. *)
Definition release (es : list Entry) (refs : RefHeap) : RefHeap :=
  foldl (λ refs e, ref_add (-1) (deathRecipientRef e) refs) refs es.

Fixpoint RemoveObserverAt (n : Node) (p : path) (r : option Z) (refs : RefHeap)
    : bool * Node * RefHeap :=
  match p with
  | [] =>
      let n' := mkNode (filter (λ e, ¬ of_remote r e) (entrys n)) (childrens n) in
      (is_empty_node n', n', release (filter (of_remote r) (entrys n)) refs)
  | k :: p' =>
      match childrens n !! k with
      | None => (is_empty_node n, n, refs)
      | Some c =>
          let '(erase, c', refs) := RemoveObserverAt c p' r refs in
          let n' := mkNode (entrys n) ((if erase : bool then delete k else <[k := c']>) (childrens n)) in
          (is_empty_node n', n', refs)
      end
  end.

(** The entries of a remote object anywhere below a node, the ones the recursive
    removal releases. *)
Fixpoint entries_below (r : option Z) (n : Node) : list Entry :=
  match n with
  | mkNode es cs =>
      map_fold (λ _ c acc, entries_below r c ++ acc) [] cs ++ filter (of_remote r) es
  end.

(** The tree after the removal, and whether the node became empty. *)
Fixpoint prune (r : option Z) (n : Node) : bool * Node :=
  match n with
  | mkNode es cs =>
      let cs' := omap (λ c, let '(erase, c') := prune r c in if erase : bool then None else Some c') cs in
      let n' := mkNode (filter (λ e, ¬ of_remote r e) es) cs' in
      (is_empty_node n', n')
  end.

Definition RemoveObserver (n : Node) (r : option Z) (refs : RefHeap) : bool * Node * RefHeap :=
  let '(erase, n') := prune r n in (erase, n', release (entries_below r n) refs).

(** ** The manager *)

Record DataObsMgrInnerExt := mkExt {
  root_ : Node;
  obsRecipientRefs : gmap Z Z;
  refHeap : RefHeap;
  nextRef : Z;
}.

#[global] Instance DataObsMgrInnerExt_reconstruct : Reconstruct DataObsMgrInnerExt := λ s,
  mkExt (root_ s) (obsRecipientRefs s) (refHeap s) (nextRef s).

Definition DataObsMgrInnerExt_new : DataObsMgrInnerExt := mkExt Node_new ∅ ∅ 0.

Definition ref_count (s : DataObsMgrInnerExt) (ref : Z) : Z := default 0%Z (refHeap s !! ref).

(** A new counter starts at one. *)
Definition AddObsDeathRecipientExt (s : DataObsMgrInnerExt) (r : Z)
    : option Z * DataObsMgrInnerExt :=
  match obsRecipientRefs s !! r with
  | Some ref => if (UINT32_MOD - 2 <? ref_count s ref)%Z then (None, s) else (Some ref, s)
  | None =>
      (Some (nextRef s),
       s <| obsRecipientRefs ::= <[r := nextRef s]> |> <| refHeap ::= <[nextRef s := 1%Z]> |>
         <| nextRef ::= Z.succ |>)
  end.

Definition RemoveObsDeathRecipientExt (s : DataObsMgrInnerExt) (r : Z) (isForce : bool)
    : DataObsMgrInnerExt :=
  match obsRecipientRefs s !! r with
  | None => s
  | Some ref =>
      if isForce || (ref_count s ref <=? 1)%Z then s <| obsRecipientRefs ::= delete r |> else s
  end.

Definition HandleRegisterObserverExt (s : DataObsMgrInnerExt) (uri : path) (o : Observer)
    (isDesc : bool) : Z * DataObsMgrInnerExt :=
  match obs_remote o with
  | None => (DATA_OBSERVER_IS_NULL, s)
  | Some r =>
      match AddObsDeathRecipientExt s r with
      | (None, s) => (DATAOBS_SERVICE_OBS_LIMMIT, s)
      | (Some ref, s) =>
          let '(ok, root', refs) := AddObserver (root_ s) uri (mkEntry o ref isDesc) (refHeap s) in
          let s := s <| root_ := root' |> <| refHeap := refs |> in
          if ok then (NO_ERROR, s)
          else (DATAOBS_SERVICE_OBS_LIMMIT, RemoveObsDeathRecipientExt s r false)
      end
  end.

Definition HandleUnregisterObserverAt (s : DataObsMgrInnerExt) (uri : path) (o : Observer)
    : Z * DataObsMgrInnerExt :=
  match obs_remote o with
  | None => (DATA_OBSERVER_IS_NULL, s)
  | Some r =>
      let '(_, root', refs) := RemoveObserverAt (root_ s) uri (Some r) (refHeap s) in
      (NO_ERROR, RemoveObsDeathRecipientExt (s <| root_ := root' |> <| refHeap := refs |>) r false)
  end.

Definition drop_remote (s : DataObsMgrInnerExt) (r : Z) : DataObsMgrInnerExt :=
  let '(_, root', refs) := RemoveObserver (root_ s) (Some r) (refHeap s) in
  RemoveObsDeathRecipientExt (s <| root_ := root' |> <| refHeap := refs |>) r true.

Definition HandleUnregisterObserverAll (s : DataObsMgrInnerExt) (o : Observer)
    : Z * DataObsMgrInnerExt :=
  match obs_remote o with
  | None => (DATA_OBSERVER_IS_NULL, s)
  | Some r => (NO_ERROR, drop_remote s r)
  end.

Definition OnCallBackDiedExt (s : DataObsMgrInnerExt) (remote : option Z) : DataObsMgrInnerExt :=
  match remote with
  | None => s
  | Some r => drop_remote s r
  end.

(** The observers called, each with the changed URIs it is told of. *)
Definition HandleNotifyChangeExt (s : DataObsMgrInnerExt) (uris : list path) : Z * ObsMap :=
  let changeRes := foldl (λ m uri, GetObs (root_ s) uri uri m) ∅ uris in
  if decide (changeRes = ∅) then (NO_OBS_FOR_URI, ∅) else (NO_ERROR, changeRes).

(** ** The entries of a path *)

Fixpoint node_at (n : Node) (p : path) : option Node :=
  match p with
  | [] => Some n
  | k :: p' => childrens n !! k ≫= λ c, node_at c p'
  end.

Definition entries_at (n : Node) (p : path) : list Entry :=
  match node_at n p with Some m => entrys m | None => [] end.

Lemma entries_at_nil n : entries_at n [] = entrys n.
Proof. done. Qed.

Lemma entries_at_cons n k p :
  entries_at n (k :: p) = match childrens n !! k with Some c => entries_at c p | None => [] end.
Proof. unfold entries_at. simpl. by destruct (childrens n !! k). Qed.

Lemma is_empty_node_spec n : is_empty_node n = true ↔ entrys n = [] ∧ childrens n = ∅.
Proof. unfold is_empty_node. by rewrite andb_true_iff, !bool_decide_eq_true. Qed.

Lemma entries_at_empty n p : is_empty_node n = true → entries_at n p = [].
Proof.
  intros [He Hc]%is_empty_node_spec. destruct p as [|k p]; [done|].
  by rewrite entries_at_cons, Hc, lookup_empty.
Qed.

Lemma entries_at_new p : entries_at Node_new p = [].
Proof. by apply entries_at_empty. Qed.

Lemma AddObserver_entries n p e refs :
  let '(ok, n', refs') := AddObserver n p e refs in
  ok = negb (OBS_NUM_MAX <=? length (entries_at n p)) ∧
  refs' = (if ok then ref_add 1 (deathRecipientRef e) refs else refs) ∧
  ∀ q, entries_at n' q = if decide (q = p ∧ ok = true) then entries_at n p ++ [e] else entries_at n q.
Proof.
  revert n refs. induction p as [|k p IH]; intros n refs; cbn [AddObserver].
  - rewrite entries_at_nil. destruct (OBS_NUM_MAX <=? length (entrys n)); cbn [negb].
    + split; [done|]. split; [done|]. intros q. rewrite decide_False by naive_solver. done.
    + split; [done|]. split; [done|]. intros [|j q].
      * by rewrite decide_True.
      * rewrite decide_False by naive_solver. by rewrite !entries_at_cons.
  - specialize (IH (default Node_new (childrens n !! k)) refs).
    destruct (AddObserver _ p e refs) as [[ok c'] refs']. destruct IH as (Hok & Hr & Hq).
    assert (entries_at n (k :: p) = entries_at (default Node_new (childrens n !! k)) p) as Hp.
    { rewrite entries_at_cons. destruct (childrens n !! k); [done|]. simpl. by rewrite entries_at_new. }
    rewrite Hp. split; [done|]. split; [done|]. intros [|j q].
    { rewrite decide_False by naive_solver. done. }
    rewrite entries_at_cons. cbn [childrens]. rewrite lookup_insert.
    destruct (decide (k = j)) as [<-|Hne].
    + rewrite Hq. destruct (decide (q = p ∧ ok = true)) as [[-> ->]|Hd].
      * by rewrite decide_True.
      * rewrite decide_False by naive_solver. rewrite entries_at_cons.
        destruct (childrens n !! k); [done|]. simpl. by rewrite entries_at_new.
    + rewrite decide_False by naive_solver. by rewrite entries_at_cons.
Qed.

Lemma RemoveObserverAt_entries n p r refs :
  let '(erase, n', refs') := RemoveObserverAt n p r refs in
  erase = is_empty_node n' ∧ refs' = release (filter (of_remote r) (entries_at n p)) refs ∧
  ∀ q, entries_at n' q =
       if decide (q = p) then filter (λ e, ¬ of_remote r e) (entries_at n p) else entries_at n q.
Proof.
  revert n refs. induction p as [|k p IH]; intros n refs; cbn [RemoveObserverAt].
  - split; [done|]. split; [done|]. intros [|j q]; [by rewrite decide_True|].
    rewrite decide_False by done. by rewrite !entries_at_cons.
  - rewrite (entries_at_cons n k p). destruct (childrens n !! k) as [c|] eqn:Ec.
    + specialize (IH c refs). destruct (RemoveObserverAt c p r refs) as [[erase c'] refs'].
      destruct IH as (He & Hr & Hq). split; [done|]. split; [done|]. intros [|j q]; [done|].
      rewrite !entries_at_cons. cbn [childrens].
      destruct (decide (k = j)) as [<-|Hne].
      * assert (match (if erase then delete k else <[k := c']>) (childrens n) !! k with
                | Some c0 => entries_at c0 q | None => [] end = entries_at c' q) as ->.
        { destruct erase; [rewrite lookup_delete_eq|by rewrite lookup_insert_eq].
          by rewrite entries_at_empty. }
        rewrite Hq, Ec. destruct (decide (q = p)) as [->|Hd]; [by rewrite decide_True|].
        by rewrite decide_False by naive_solver.
      * rewrite decide_False by naive_solver.
        destruct erase; rewrite ?lookup_delete_ne, ?lookup_insert_ne by done; done.
    + split; [done|]. split; [done|]. intros q. case_decide as Hd; [|done].
      subst q. by rewrite entries_at_cons, Ec.
Qed.

Lemma prune_erase r n : (prune r n).1 = is_empty_node (prune r n).2.
Proof. by destruct n. Qed.

Lemma prune_childrens r n k :
  childrens (prune r n).2 !! k =
  childrens n !! k ≫= λ c, if is_empty_node (prune r c).2 then None else Some (prune r c).2.
Proof.
  destruct n as [es cs]. cbn [prune]. cbn [childrens snd]. rewrite lookup_omap.
  destruct (cs !! k) as [c|]; simpl; [|done]. rewrite <-prune_erase. by destruct (prune r c) as [[] c'].
Qed.

Lemma prune_entries r n q :
  entries_at (prune r n).2 q = filter (λ e, ¬ of_remote r e) (entries_at n q).
Proof.
  revert n. induction q as [|k q IH]; intros n; [by destruct n|].
  rewrite !entries_at_cons, prune_childrens. destruct (childrens n !! k) as [c|]; simpl; [|done].
  rewrite <-IH. destruct (is_empty_node (prune r c).2) eqn:E; [|done]. by rewrite entries_at_empty.
Qed.

(** ** Notifications *)

(** The entries a change of [p] reaches: those of its node, and those above that
    ask for descendants. [E] gives the entries of each path. *)
Fixpoint heard (E : path → list Entry) (p : path) : list Entry :=
  match p with
  | [] => E []
  | k :: p' => filter (λ e, isDescendants e = true) (E []) ++ heard (λ q, E (k :: q)) p'
  end.

Lemma heard_ext E E' p : (∀ q, E q = E' q) → heard E p = heard E' p.
Proof.
  revert E E'. induction p as [|k p IH]; intros E E' H; simpl; [done|].
  rewrite H. f_equal. apply IH. intros q. apply H.
Qed.

Lemma heard_nothing p : heard (λ _, []) p = [].
Proof. by induction p. Qed.

Lemma GetObs_heard n p uri m : GetObs n p uri m = foldl (push_uri uri) m (heard (entries_at n) p).
Proof.
  revert n m. induction p as [|k p IH]; intros n m; simpl; [done|].
  rewrite foldl_app. rewrite entries_at_nil.
  erewrite heard_ext; [|intros q; apply entries_at_cons].
  destruct (childrens n !! k) as [c|]; [apply IH|]. by rewrite heard_nothing.
Qed.

Lemma foldl_push_uri uri es m o :
  default [] (foldl (push_uri uri) m es !! o) =
  default [] (m !! o) ++ replicate (length (filter (λ e, obs_ptr (observer e) = o) es)) uri.
Proof.
  revert m. induction es as [|e es IH]; intros m; simpl; [by rewrite app_nil_r|].
  rewrite IH, filter_cons. unfold push_uri. rewrite lookup_insert. case_decide as Hd; [|done].
  subst o. simpl. rewrite <-app_assoc. done.
Qed.

Lemma foldl_push_uri_None uri es m o :
  foldl (push_uri uri) m es !! o = None ↔
  m !! o = None ∧ Forall (λ e, obs_ptr (observer e) ≠ o) es.
Proof.
  revert m. induction es as [|e es IH]; intros m; simpl; [rewrite Forall_nil; tauto|].
  rewrite IH, Forall_cons. unfold push_uri. rewrite lookup_insert. case_decide; naive_solver.
Qed.

(** ** Registrations: the specification *)

Record Reg := mkReg {
  reg_path : path;
  reg_obs : Observer;
  reg_desc : bool;
}.

(** A registration hears of a change at [u] when it is for [u], or for a path
    strictly above [u] with descendants. *)
Definition hears (u : path) (g : Reg) : Prop :=
  reg_path g = u ∨ (reg_desc g = true ∧ reg_path g `prefix_of` u ∧ reg_path g ≠ u).

#[global] Instance hears_dec u g : Decision (hears u g).
Proof. unfold hears. apply _. Defined.

Definition regs_at (gs : list Reg) (p : path) : list Reg := filter (λ g, reg_path g = p) gs.

(** How often the observer [o] is told of a change at [u]. *)
Definition times (gs : list Reg) (u : path) (o : Z) : nat :=
  length (filter (λ g, obs_ptr (reg_obs g) = o ∧ hears u g) gs).

(** The tree holds the registrations: the entries of each path are those
    registered for it, in the order of registration. *)
Definition entry_reg (e : Entry) : Observer * bool := (observer e, isDescendants e).

Definition tree_rep (n : Node) (gs : list Reg) : Prop :=
  ∀ p, entry_reg <$> entries_at n p = (λ g, (reg_obs g, reg_desc g)) <$> regs_at gs p.

(** The recursion of [heard] on the registrations. *)
Fixpoint hears_from (pre u : path) (g : Reg) : bool :=
  match u with
  | [] => bool_decide (reg_path g = pre)
  | k :: u' =>
      (bool_decide (reg_path g = pre) && reg_desc g) || hears_from (pre ++ [k]) u' g
  end.

Lemma hears_from_prefix pre u g : hears_from pre u g = true → pre `prefix_of` reg_path g.
Proof.
  revert pre. induction u as [|k u IH]; intros pre; simpl.
  - intros ->%bool_decide_eq_true. done.
  - rewrite orb_true_iff, andb_true_iff. intros [[->%bool_decide_eq_true _]|H%IH]; [done|].
    destruct H as [q ->]. exists (k :: q). by rewrite <-app_assoc.
Qed.

Lemma hears_from_spec pre u g :
  hears_from pre u g = true ↔
  reg_path g = pre ++ u ∨
  (reg_desc g = true ∧ pre `prefix_of` reg_path g ∧ reg_path g `prefix_of` pre ++ u ∧
   reg_path g ≠ pre ++ u).
Proof.
  revert pre. induction u as [|k u IH]; intros pre; simpl.
  - rewrite app_nil_r, bool_decide_eq_true. split; [auto|]. intros [?|(_ & H1 & H2 & H3)]; [done|].
    destruct H3. apply (anti_symm prefix); done.
  - rewrite orb_true_iff, andb_true_iff, bool_decide_eq_true, IH, <-app_assoc. simpl. split.
    + intros [[-> Hd]|[->|(Hd & [q Hq] & H2 & H3)]].
      * right. split; [done|]. split; [done|]. split; [by exists (k :: u)|].
        intros E%(f_equal length). rewrite length_app in E. simpl in E. lia.
      * by left.
      * right. split; [done|]. split; [|done]. exists (k :: q). by rewrite Hq, <-app_assoc.
    + intros [->|(Hd & [q Hq] & [w Hw] & H3)]; [by right; left|].
      rewrite Hq in *. destruct q as [|j q]; [left; by rewrite app_nil_r|].
      rewrite <-app_assoc in Hw. apply app_inv_head in Hw. simplify_eq/=.
      right; right. split; [done|]. split; [by exists q; rewrite <-app_assoc|].
      split; [exists w; by rewrite <-!app_assoc|done].
Qed.

Lemma hears_hears_from u g : hears u g ↔ hears_from [] u g = true.
Proof.
  rewrite hears_from_spec. simpl. unfold hears. split.
  - intros [?|(?&?&?)]; [by left|right]. split; [done|]. split; [apply prefix_nil|done].
  - intros [?|(?&_&?&?)]; [by left|by right].
Qed.

Lemma length_filter_regs_cons (o : Z) (pre u : path) k (gs : list Reg) :
  length (filter (λ g, obs_ptr (reg_obs g) = o ∧ hears_from pre (k :: u) g = true) gs) =
  length (filter (λ g, obs_ptr (reg_obs g) = o)
            (filter (λ g, reg_desc g = true) (regs_at gs pre))) +
  length (filter (λ g, obs_ptr (reg_obs g) = o ∧ hears_from (pre ++ [k]) u g = true) gs).
Proof.
  unfold regs_at. induction gs as [|g gs IH]; [done|].
  rewrite !(filter_cons _ g gs). simpl in IH |- *.
  destruct (decide (reg_path g = pre)) as [Hp|Hp].
  - assert (hears_from (pre ++ [k]) u g = false) as Hf.
    { destruct (hears_from (pre ++ [k]) u g) eqn:E; [|done].
      apply hears_from_prefix in E as [w Hw]. rewrite Hp in Hw.
      apply (f_equal length) in Hw. rewrite !length_app in Hw. simpl in Hw. lia. }
    rewrite Hf, orb_false_r, (bool_decide_true (reg_path g = pre)) by done. cbn [andb].
    rewrite filter_cons. destruct (decide (reg_desc g = true)) as [Hd|Hd].
    + rewrite filter_cons. repeat case_decide; simpl; try lia; exfalso; tauto.
    + repeat case_decide; simpl; try lia; exfalso; tauto.
  - rewrite (bool_decide_false (reg_path g = pre)) by done. cbn [andb orb].
    repeat case_decide; simpl; lia.
Qed.

(** Entries and registrations that correspond are counted alike. *)
Lemma count_corresponding (l : list Entry) (k : list Reg) (o : Z) :
  entry_reg <$> l = (λ g, (reg_obs g, reg_desc g)) <$> k →
  length (filter (λ e, obs_ptr (observer e) = o) l) =
  length (filter (λ g, obs_ptr (reg_obs g) = o) k) ∧
  length (filter (λ e, obs_ptr (observer e) = o) (filter (λ e, isDescendants e = true) l)) =
  length (filter (λ g, obs_ptr (reg_obs g) = o) (filter (λ g, reg_desc g = true) k)).
Proof.
  revert k. induction l as [|e l IH]; intros [|g k] H; try done.
  unfold entry_reg in H. csimpl in H. injection H as H1 H2 H3. destruct (IH k H3) as [IH1 IH2].
  rewrite !filter_cons, H1, H2.
  destruct (decide (reg_desc g = true)); rewrite ?filter_cons, ?H1; case_decide; simpl; lia.
Qed.

Lemma heard_count gs pre u o (E : path → list Entry) :
  (∀ q, entry_reg <$> E q = (λ g, (reg_obs g, reg_desc g)) <$> regs_at gs (pre ++ q)) →
  length (filter (λ e, obs_ptr (observer e) = o) (heard E u)) =
  length (filter (λ g, obs_ptr (reg_obs g) = o ∧ hears_from pre u g = true) gs).
Proof.
  revert pre E. induction u as [|k u IH]; intros pre E HE.
  - destruct (count_corresponding _ _ o (HE [])) as [H _]. cbn [heard]. rewrite H, app_nil_r.
    unfold regs_at. rewrite list_filter_filter. f_equal. apply list_filter_iff. intros g.
    cbn [hears_from]. by rewrite bool_decide_eq_true.
  - rewrite length_filter_regs_cons. cbn [heard]. rewrite filter_app, length_app.
    rewrite (IH (pre ++ [k]) (λ q, E (k :: q))).
    + destruct (count_corresponding _ _ o (HE [])) as [_ H]. rewrite app_nil_r in H. by rewrite H.
    + intros q. rewrite (HE (k :: q)). by rewrite <-app_assoc.
Qed.

Lemma tree_times n gs u o :
  tree_rep n gs →
  length (filter (λ e, obs_ptr (observer e) = o) (heard (entries_at n) u)) = times gs u o.
Proof.
  intros H. rewrite (heard_count gs [] u o) by (intros q; apply H).
  unfold times. f_equal. apply list_filter_iff. intros g. by rewrite hears_hears_from.
Qed.

(** What a notification tells each observer. *)
Lemma notify_times n gs uris o :
  tree_rep n gs →
  default [] (foldl (λ m uri, GetObs n uri uri m) ∅ uris !! o) =
  uris ≫= λ u, replicate (times gs u o) u.
Proof.
  intros Hrep. rewrite <-(app_nil_l (uris ≫= _)).
  change [] with (default [] ((∅ : ObsMap) !! o)) at 2. generalize (∅ : ObsMap).
  induction uris as [|u uris IH]; intros m; simpl; [by rewrite app_nil_r|].
  rewrite IH, GetObs_heard, foldl_push_uri, (tree_times n gs u o Hrep). by rewrite <-app_assoc.
Qed.

(** ** Trees without empty nodes *)

Definition tidy (n : Node) : Prop := ∀ k p c, node_at n (k :: p) = Some c → is_empty_node c = false.

Lemma tidy_unfold n :
  tidy n ↔ ∀ k c, childrens n !! k = Some c → is_empty_node c = false ∧ tidy c.
Proof.
  split.
  - intros H k c Hc. split; [apply (H k [] c); simpl; by rewrite Hc|].
    intros j p d Hd. apply (H k (j :: p) d). simpl. by rewrite Hc.
  - intros H k p c. simpl. destruct (childrens n !! k) as [d|] eqn:E; simpl; [|done].
    destruct (H k d E) as [H1 H2]. destruct p as [|j p]; simpl; [by intros [= <-]|]. apply H2.
Qed.

Lemma is_empty_node_false n : is_empty_node n = false ↔ entrys n ≠ [] ∨ childrens n ≠ ∅.
Proof.
  rewrite <-not_true_iff_false, is_empty_node_spec.
  destruct (decide (entrys n = [])), (decide (childrens n = ∅)); naive_solver.
Qed.

Lemma AddObserver_nonempty n p e refs : is_empty_node (AddObserver n p e refs).1.2 = false.
Proof.
  apply is_empty_node_false. destruct p as [|k p]; cbn [AddObserver].
  - destruct (Nat.leb_spec OBS_NUM_MAX (length (entrys n))) as [Hle|]; simpl; left.
    + intros E. rewrite E in Hle. unfold OBS_NUM_MAX in Hle. simpl in Hle. lia.
    + intros []%app_eq_nil. done.
  - destruct (AddObserver _ p e refs) as [[ok c'] refs']. right. apply insert_non_empty.
Qed.

Lemma AddObserver_tidy n p e refs : tidy n → tidy (AddObserver n p e refs).1.2.
Proof.
  revert n refs. induction p as [|k p IH]; intros n refs Hn; cbn [AddObserver].
  - destruct (OBS_NUM_MAX <=? length (entrys n)); [done|].
    rewrite tidy_unfold in Hn |- *. exact Hn.
  - pose proof (AddObserver_nonempty (default Node_new (childrens n !! k)) p e refs) as Hne.
    specialize (IH (default Node_new (childrens n !! k)) refs).
    destruct (AddObserver _ p e refs) as [[ok c'] refs']. simpl in *.
    rewrite tidy_unfold in Hn |- *. intros j d. simpl. rewrite lookup_insert.
    case_decide; [|apply Hn]. intros [= <-]. split; [done|]. apply IH.
    destruct (childrens n !! k) as [c|] eqn:E; simpl; [by eapply Hn|].
    rewrite tidy_unfold. intros j' d'. simpl. by rewrite lookup_empty.
Qed.

Lemma RemoveObserverAt_tidy n p r refs : tidy n → tidy (RemoveObserverAt n p r refs).1.2.
Proof.
  revert n refs. induction p as [|k p IH]; intros n refs Hn; cbn [RemoveObserverAt].
  - rewrite tidy_unfold in Hn |- *. exact Hn.
  - destruct (childrens n !! k) as [c|] eqn:E; [|done].
    pose proof (RemoveObserverAt_entries c p r refs) as He. specialize (IH c refs).
    destruct (RemoveObserverAt c p r refs) as [[erase c'] refs']. destruct He as [He _].
    simpl in *. rewrite tidy_unfold in Hn |- *. intros j d. simpl. destruct erase.
    + rewrite lookup_delete. case_decide; [done|]. apply Hn.
    + rewrite lookup_insert. case_decide; [|apply Hn]. intros [= <-].
      split; [done|]. apply IH. by eapply Hn.
Qed.

Lemma prune_tidy r n : tidy (prune r n).2.
Proof.
  intros k p. revert k n. induction p as [|j p IH]; intros k n c; cbn [node_at];
    rewrite prune_childrens; destruct (childrens n !! k) as [d|]; simpl; try done;
    destruct (is_empty_node (prune r d).2) eqn:E; simpl; try done.
  - by intros [= <-].
  - apply (IH j d c).
Qed.

(** ** Induction on trees, by their height *)

Fixpoint height (n : Node) : nat :=
  match n with mkNode _ cs => S (map_fold (λ _ c acc, height c `max` acc) 0 cs) end.

Lemma height_child n k c : childrens n !! k = Some c → height c < height n.
Proof.
  destruct n as [es cs]. cbn [childrens height]. intros Hc.
  enough (height c ≤ map_fold (λ _ c acc, height c `max` acc) 0 cs) by lia.
  rewrite map_fold_foldr. apply elem_of_map_to_list in Hc. revert Hc.
  induction (map_to_list cs) as [|[j d] l IH]; [by intros ?%not_elem_of_nil|].
  intros [[= -> ->]|Hin]%elem_of_cons; simpl; [lia|]. specialize (IH Hin). lia.
Qed.

Lemma entries_below_found r n e :
  e ∈ entries_below r n → of_remote r e ∧ ∃ p, e ∈ entries_at n p.
Proof.
  remember (height n) as h eqn:Hh. revert n Hh.
  induction (lt_wf h) as [h _ IH]. intros n ->. destruct n as [es cs].
  cbn [entries_below]. rewrite elem_of_app. intros [Hin|[Hr Hin]%list_elem_of_filter].
  - rewrite map_fold_foldr in Hin.
    assert (∃ k c, cs !! k = Some c ∧ e ∈ entries_below r c) as (k & c & Hc & He).
    { assert (∀ kv, kv ∈ map_to_list cs → cs !! kv.1 = Some kv.2) as Hl
        by (intros [k c] H; by apply elem_of_map_to_list).
      revert Hin Hl. induction (map_to_list cs) as [|[k c] l IHl]; simpl; [by intros ?%not_elem_of_nil|].
      rewrite elem_of_app. intros [He|He] Hl.
      - exists k, c. split; [apply (Hl (k, c)); apply list_elem_of_here|done].
      - apply IHl; [done|]. intros kv Hkv. apply Hl. by apply list_elem_of_further. }
    pose proof (height_child (mkNode es cs) k c Hc) as Hlt.
    destruct (IH (height c) Hlt c eq_refl He) as (Hr & p & Hp). split; [done|].
    exists (k :: p). rewrite entries_at_cons. cbn [childrens]. by rewrite Hc.
  - split; [done|]. by exists [].
Qed.

(** ** Counters *)

Lemma release_lookup_other es refs ref :
  Forall (λ e, deathRecipientRef e ≠ ref) es → release es refs !! ref = refs !! ref.
Proof.
  unfold release. revert refs. induction es as [|e es IH]; intros refs Hes; simpl; [done|].
  inversion Hes; subst. rewrite IH by done. unfold ref_add. by rewrite lookup_alter_ne.
Qed.

Lemma release_lookup es refs ref z :
  Forall (λ e, deathRecipientRef e = ref) es → refs !! ref = Some z →
  (Z.of_nat (length es) ≤ z < UINT32_MOD)%Z →
  release es refs !! ref = Some (z - Z.of_nat (length es))%Z.
Proof.
  unfold release. revert refs z. induction es as [|e es IH]; intros refs z Hes Hz Hb; simpl.
  { rewrite Z.sub_0_r. done. }
  inversion Hes; subst. simpl in Hb.
  rewrite (IH _ (z - 1)%Z); [f_equal; lia|done| |lia].
  unfold ref_add. rewrite lookup_alter_eq, Hz. simpl. f_equal. rewrite u32_small; lia.
Qed.

(** ** Calls *)

Inductive ext_call :=
| ExtRegister (uri : path) (o : Observer) (isDesc : bool)
| ExtUnregisterAt (uri : path) (o : Observer)
| ExtUnregisterAll (o : Observer)
| ExtDied (remote : option Z).

Definition run_ext (s : DataObsMgrInnerExt) (c : ext_call) : Z * DataObsMgrInnerExt :=
  match c with
  | ExtRegister uri o d => HandleRegisterObserverExt s uri o d
  | ExtUnregisterAt uri o => HandleUnregisterObserverAt s uri o
  | ExtUnregisterAll o => HandleUnregisterObserverAll s o
  | ExtDied remote => (NO_ERROR, OnCallBackDiedExt s remote)
  end.

Definition drop_regs (r : Z) (gs : list Reg) : list Reg :=
  filter (λ g, obs_remote (reg_obs g) ≠ Some r) gs.

(** The same calls on a list of registrations. *)
Definition run_regs (gs : list Reg) (c : ext_call) : Z * list Reg :=
  match c with
  | ExtRegister uri o d =>
      match obs_remote o with
      | None => (DATA_OBSERVER_IS_NULL, gs)
      | Some _ => if OBS_NUM_MAX <=? length (regs_at gs uri) then (DATAOBS_SERVICE_OBS_LIMMIT, gs)
                  else (NO_ERROR, gs ++ [mkReg uri o d])
      end
  | ExtUnregisterAt uri o =>
      match obs_remote o with
      | None => (DATA_OBSERVER_IS_NULL, gs)
      | Some r =>
          (NO_ERROR, filter (λ g, ¬ (reg_path g = uri ∧ obs_remote (reg_obs g) = Some r)) gs)
      end
  | ExtUnregisterAll o =>
      match obs_remote o with
      | None => (DATA_OBSERVER_IS_NULL, gs)
      | Some r => (NO_ERROR, drop_regs r gs)
      end
  | ExtDied (Some r) => (NO_ERROR, drop_regs r gs)
  | ExtDied None => (NO_ERROR, gs)
  end.

(** The registrations of a remote object. *)
Definition count_regs (r : Z) (gs : list Reg) : nat :=
  length (filter (λ g, obs_remote (reg_obs g) = Some r) gs).

(** The manager holds the registrations: its tree does and has no empty node, no
    path is over the limit, an entry uses the counter of its remote object, a
    counter is one more than the registrations of its object, and two objects do
    not share a counter. *)
Record ext_weak (s : DataObsMgrInnerExt) (gs : list Reg) : Prop := {
  ext_tree : tree_rep (root_ s) gs;
  ext_tidy : tidy (root_ s);
  ext_limit : ∀ p, length (regs_at gs p) ≤ OBS_NUM_MAX;
  ext_entry : ∀ p e, e ∈ entries_at (root_ s) p →
    ∃ r, obs_remote (observer e) = Some r ∧ obsRecipientRefs s !! r = Some (deathRecipientRef e);
  ext_ref : ∀ r ref, obsRecipientRefs s !! r = Some ref →
    refHeap s !! ref = Some (1 + Z.of_nat (count_regs r gs))%Z ∧ (ref < nextRef s)%Z;
  ext_inj : ∀ r r' ref, obsRecipientRefs s !! r = Some ref → obsRecipientRefs s !! r' = Some ref → r = r';
}.

(** Between the calls, a remote object with a recipient is registered. *)
Record ext_rep (s : DataObsMgrInnerExt) (gs : list Reg) : Prop := {
  ext_holds : ext_weak s gs;
  ext_used : ∀ r, is_Some (obsRecipientRefs s !! r) → 0 < count_regs r gs;
}.

Lemma new_ext_rep : ext_rep DataObsMgrInnerExt_new [].
Proof.
  split; [split|]; simpl.
  - intros p. by rewrite entries_at_new.
  - rewrite tidy_unfold. intros k c. simpl. by rewrite lookup_empty.
  - intros p. simpl. lia.
  - intros p e. rewrite entries_at_new. by intros ?%not_elem_of_nil.
  - intros r ref. by rewrite lookup_empty.
  - intros r r' ref. by rewrite lookup_empty.
  - intros r. rewrite lookup_empty. by intros [].
Qed.

Lemma tree_rep_length n gs p : tree_rep n gs → length (entries_at n p) = length (regs_at gs p).
Proof. intros H. specialize (H p). apply (f_equal length) in H. by rewrite !length_fmap in H. Qed.

(** A registration of an object is an entry of the tree, and conversely. *)
Lemma tree_rep_entry n gs g :
  tree_rep n gs → g ∈ gs → ∃ e, e ∈ entries_at n (reg_path g) ∧ observer e = reg_obs g.
Proof.
  intros H Hg. specialize (H (reg_path g)).
  assert ((reg_obs g, reg_desc g) ∈ entry_reg <$> entries_at n (reg_path g)) as Hin.
  { rewrite H. apply list_elem_of_fmap. exists g. split; [done|]. by apply list_elem_of_filter. }
  apply list_elem_of_fmap in Hin as (e & He & Hin). exists e. unfold entry_reg in He.
  by simplify_eq.
Qed.

Lemma count_regs_pos r gs : 0 < count_regs r gs ↔ ∃ g, g ∈ gs ∧ obs_remote (reg_obs g) = Some r.
Proof.
  unfold count_regs. split.
  - intros H. destruct (filter _ gs) as [|g l] eqn:E; [simpl in H; lia|].
    exists g. assert (g ∈ g :: l) as Hg by apply list_elem_of_here. rewrite <-E in Hg.
    apply list_elem_of_filter in Hg as [? ?]. done.
  - intros (g & Hg & Hr).
    assert (g ∈ filter (λ g, obs_remote (reg_obs g) = Some r) gs) as Hin
      by (by apply list_elem_of_filter).
    destruct (filter _ gs); [by apply not_elem_of_nil in Hin|]. simpl. lia.
Qed.

(** The recipients are those of the registered objects. *)
Lemma ext_recipients s gs r :
  ext_rep s gs → is_Some (obsRecipientRefs s !! r) ↔ 0 < count_regs r gs.
Proof.
  intros Hs. split; [apply Hs|]. intros (g & Hg & Hr)%count_regs_pos.
  destruct (tree_rep_entry _ _ _ (ext_tree s gs (ext_holds s gs Hs)) Hg) as (e & He & Hobs).
  destruct (ext_entry s gs (ext_holds s gs Hs) _ _ He) as (r' & Hr' & Href). rewrite Hobs, Hr in Hr'.
  simplify_eq. eauto.
Qed.

Lemma entry_reg_filter (l : list Entry) (k : list Reg) (r : option Z) :
  entry_reg <$> l = (λ g, (reg_obs g, reg_desc g)) <$> k →
  entry_reg <$> filter (λ e, ¬ of_remote r e) l =
  (λ g, (reg_obs g, reg_desc g)) <$> filter (λ g, obs_remote (reg_obs g) ≠ r) k.
Proof.
  revert k. induction l as [|e l IH]; intros [|g k] H; try done.
  unfold entry_reg in H. csimpl in H. injection H as H1 H2 H3. specialize (IH k H3).
  assert (of_remote r e ↔ obs_remote (reg_obs g) = r) as Hr by (unfold of_remote; by rewrite H1).
  rewrite !filter_cons. destruct (decide (¬ of_remote r e)), (decide (obs_remote (reg_obs g) ≠ r));
    try tauto. csimpl. rewrite IH. unfold entry_reg at 1. by rewrite H1, H2.
Qed.

Lemma length_filter_of_remote (l : list Entry) (k : list Reg) (r : option Z) :
  entry_reg <$> l = (λ g, (reg_obs g, reg_desc g)) <$> k →
  length (filter (of_remote r) l) = length (filter (λ g, obs_remote (reg_obs g) = r) k).
Proof.
  revert k. induction l as [|e l IH]; intros [|g k] H; try done.
  unfold entry_reg in H. csimpl in H. injection H as H1 H2 H3. specialize (IH k H3).
  assert (of_remote r e ↔ obs_remote (reg_obs g) = r) as Hr by (unfold of_remote; by rewrite H1).
  rewrite !filter_cons. destruct (decide (of_remote r e)), (decide (obs_remote (reg_obs g) = r));
    try tauto. simpl. by rewrite IH.
Qed.

Lemma count_regs_app r gs g :
  count_regs r (gs ++ [g]) =
  count_regs r gs + (if decide (obs_remote (reg_obs g) = Some r) then 1 else 0).
Proof.
  unfold count_regs. rewrite filter_app, length_app, filter_cons. by case_decide.
Qed.

Lemma regs_at_app gs g p :
  regs_at (gs ++ [g]) p = regs_at gs p ++ (if decide (reg_path g = p) then [g] else []).
Proof. unfold regs_at. rewrite filter_app, filter_cons. by case_decide. Qed.

Lemma count_regs_le r gs : count_regs r gs ≤ length gs.
Proof. apply length_filter. Qed.

Lemma tree_rep_reg n gs p e :
  tree_rep n gs → e ∈ entries_at n p → ∃ g, g ∈ gs ∧ reg_obs g = observer e.
Proof.
  intros H He. specialize (H p).
  assert (entry_reg e ∈ (λ g, (reg_obs g, reg_desc g)) <$> regs_at gs p) as Hin.
  { rewrite <-H. by apply list_elem_of_fmap_2. }
  apply list_elem_of_fmap in Hin as (g & Hg & [_ Hin]%list_elem_of_filter).
  exists g. unfold entry_reg in Hg. by simplify_eq.
Qed.

(** Without the recipient of an object that has no entry. *)
Lemma delete_recipient_weak s gs r :
  ext_weak s gs → count_regs r gs = 0 → ext_weak (s <| obsRecipientRefs ::= delete r |>) gs.
Proof.
  intros [H1 H2 H3 H4 H5 H6] Hz. split; simpl; [done|done|done| | |].
  - intros p e He. destruct (H4 p e He) as (r' & Hr' & Href). exists r'. split; [done|].
    rewrite lookup_delete_ne; [done|]. intros <-.
    destruct (tree_rep_reg _ _ _ _ H1 He) as (g & Hg & Ho).
    assert (0 < count_regs r gs); [|lia]. apply count_regs_pos. exists g. by rewrite Ho.
  - intros r' ref. rewrite lookup_delete. case_decide; [done|]. apply H5.
  - intros r1 r2 ref. rewrite !lookup_delete. repeat case_decide; try done. apply H6.
Qed.

(** The end of a call about [r]: an unused recipient goes. *)
Lemma settle_rep s gs r :
  ext_weak s gs → (∀ r', r' ≠ r → is_Some (obsRecipientRefs s !! r') → 0 < count_regs r' gs) →
  ext_rep (RemoveObsDeathRecipientExt s r false) gs.
Proof.
  intros Hs Hu. unfold RemoveObsDeathRecipientExt.
  destruct (obsRecipientRefs s !! r) as [ref|] eqn:E.
  - destruct (ext_ref s gs Hs r ref E) as [Hh _]. unfold ref_count. rewrite Hh. simpl.
    destruct (Z.leb_spec (1 + Z.of_nat (count_regs r gs)) 1) as [Hle|Hgt].
    + split; [apply delete_recipient_weak; [done|lia]|]. intros r'. simpl.
      rewrite lookup_delete. case_decide; [by intros []|]. auto.
    + split; [done|]. intros r' Hr'. destruct (decide (r' = r)) as [->|]; [lia|auto].
  - split; [done|]. intros r' [ref' Hr']. apply Hu; [congruence|eauto].
Qed.

(** *** Registering *)

Lemma recipient_weak s gs r :
  ext_rep s gs → (Z.of_nat (length gs) < UINT32_MOD - 2)%Z →
  ∃ ref s1, AddObsDeathRecipientExt s r = (Some ref, s1) ∧ ext_weak s1 gs ∧ root_ s1 = root_ s ∧
    obsRecipientRefs s1 !! r = Some ref ∧
    ∀ r', r' ≠ r → obsRecipientRefs s1 !! r' = obsRecipientRefs s !! r'.
Proof.
  intros Hs Hw. pose proof (ext_recipients s gs r Hs) as Hrec. destruct Hs as [Hs Hpos].
  unfold AddObsDeathRecipientExt. destruct (obsRecipientRefs s !! r) as [ref|] eqn:E.
  - destruct (ext_ref s gs Hs r ref E) as [Hh Hn]. unfold ref_count. rewrite Hh. simpl.
    pose proof (count_regs_le r gs). destruct (Z.ltb_spec (UINT32_MOD - 2) (1 + Z.of_nat (count_regs r gs))).
    + lia.
    + by exists ref, s.
  - assert (count_regs r gs = 0) as Hz by (destruct (count_regs r gs); [done|]; destruct Hrec as [_ []]; lia || done).
    do 2 eexists. split; [reflexivity|]. split; [|split; [done|]].
    2:{ simpl. rewrite lookup_insert_eq. split; [done|]. intros r' Hne. by rewrite lookup_insert_ne. }
    destruct Hs as [H1 H2 H3 H4 H5 H6]. split; simpl; [done|done|done| | |].
    + intros p e He. destruct (H4 p e He) as (r' & Hr' & Href). exists r'. split; [done|].
      rewrite lookup_insert_ne; [done|]. congruence.
    + intros r' ref'. rewrite lookup_insert. case_decide as Hd.
      * subst r'. intros [= <-]. rewrite lookup_insert_eq, Hz. split; [done|lia].
      * intros Href. destruct (H5 r' ref' Href) as [Hh Hn]. rewrite lookup_insert_ne by lia. split; [done|lia].
    + intros r1 r2 ref'. rewrite !lookup_insert. repeat case_decide; intros; simplify_eq; try done.
      * by destruct (H5 r2 (nextRef s)) as [_ ?]; [|lia].
      * by destruct (H5 r1 (nextRef s)) as [_ ?]; [|lia].
      * eauto.
Qed.

Lemma register_rep s gs uri o d :
  ext_rep s gs → (Z.of_nat (length gs) < UINT32_MOD - 2)%Z →
  (HandleRegisterObserverExt s uri o d).1 = (run_regs gs (ExtRegister uri o d)).1 ∧
  ext_rep (HandleRegisterObserverExt s uri o d).2 (run_regs gs (ExtRegister uri o d)).2.
Proof.
  intros Hs Hw. unfold HandleRegisterObserverExt. cbn [run_regs].
  destruct (obs_remote o) as [r|] eqn:Er; [|done].
  destruct (recipient_weak s gs r Hs Hw) as (ref & s1 & -> & Hs1 & Hroot & Href & Hoth).
  pose proof (AddObserver_entries (root_ s1) uri (mkEntry o ref d) (refHeap s1)) as Hadd.
  pose proof (AddObserver_tidy (root_ s1) uri (mkEntry o ref d) (refHeap s1) (ext_tidy _ _ Hs1)) as Htidy.
  destruct (AddObserver (root_ s1) uri (mkEntry o ref d) (refHeap s1)) as [[ok root'] refs].
  destruct Hadd as (Hok & Hrefs & Hq). simpl in Htidy.
  rewrite (tree_rep_length _ _ _ (ext_tree _ _ Hs1)) in Hok.
  destruct (Nat.leb_spec OBS_NUM_MAX (length (regs_at gs uri))) as [Hle|Hlt]; simpl in Hok; subst ok refs.
  - assert (∀ q, entries_at root' q = entries_at (root_ s1) q) as Hsame
      by (intros q; rewrite Hq, decide_False by naive_solver; done).
    split; [done|]. apply settle_rep.
    + destruct Hs1 as [H1 H2 H3 H4 H5 H6]. split; simpl; [|done|done| |done|done].
      * intros p. rewrite Hsame. apply H1.
      * intros p e. rewrite Hsame. apply H4.
    + simpl. intros r' Hne. rewrite Hoth by done. apply Hs.
  - split; [done|]. destruct Hs1 as [H1 H2 H3 H4 H5 H6].
    assert (∀ r', r' ≠ r → ∀ ref', obsRecipientRefs s1 !! r' = Some ref' → ref' ≠ ref) as Hneq
      by (intros r' Hne ref' Hr' ->; eauto).
    split; [split|]; simpl.
    + intros p. rewrite Hq, regs_at_app. simpl.
      destruct (decide (uri = p)) as [<-|Hne].
      * rewrite decide_True by done. rewrite !fmap_app. f_equal. apply H1.
      * rewrite decide_False by naive_solver. rewrite app_nil_r. apply H1.
    + done.
    + intros p. rewrite regs_at_app, length_app. simpl. pose proof (H3 p).
      destruct (decide (uri = p)) as [<-|]; simpl; lia.
    + intros p e. rewrite Hq. destruct (decide (p = uri ∧ true = true)); [|apply H4].
      rewrite elem_of_app, list_elem_of_singleton. intros [He| ->]; [by eapply H4|]. simpl. eauto.
    + intros r' ref' Hr'. destruct (H5 r' ref' Hr') as [Hh Hn]. split; [|done].
      rewrite count_regs_app. unfold ref_add. simpl. rewrite lookup_alter, Er.
      pose proof (count_regs_le r' gs). destruct (decide (r' = r)) as [->|Hne].
      * assert (ref' = ref) as -> by congruence. rewrite !decide_True by done. rewrite Hh. simpl.
        f_equal. rewrite u32_small; lia.
      * rewrite !decide_False by (done || (intros <-; by eapply Hneq) || congruence).
        rewrite Hh. f_equal. lia.
    + done.
    + simpl. intros r' Hr'. rewrite count_regs_app. simpl. rewrite Er.
      destruct (decide (r' = r)) as [->|Hne]; [rewrite decide_True by done; lia|].
      rewrite Hoth in Hr' by done. pose proof (ext_used s gs Hs r' Hr'). lia.
Qed.

(** *** Withdrawing *)

Lemma regs_at_filter_path gs uri r p :
  regs_at (filter (λ g, ¬ (reg_path g = uri ∧ obs_remote (reg_obs g) = Some r)) gs) p =
  if decide (p = uri) then filter (λ g, obs_remote (reg_obs g) ≠ Some r) (regs_at gs p)
  else regs_at gs p.
Proof.
  unfold regs_at. rewrite list_filter_filter. case_decide as Hd.
  - rewrite list_filter_filter. apply list_filter_iff. intros g. subst p. tauto.
  - apply list_filter_iff. intros g. naive_solver.
Qed.

Lemma count_regs_filter_path gs uri r r' :
  count_regs r' (filter (λ g, ¬ (reg_path g = uri ∧ obs_remote (reg_obs g) = Some r)) gs) +
  (if decide (r' = r) then length (filter (λ g, obs_remote (reg_obs g) = Some r) (regs_at gs uri)) else 0) =
  count_regs r' gs.
Proof.
  unfold count_regs, regs_at. induction gs as [|g gs IH]; [by case_decide|].
  rewrite !(filter_cons _ g gs). revert IH.
  destruct (decide (reg_path g = uri)), (decide (obs_remote (reg_obs g) = Some r)),
    (decide (obs_remote (reg_obs g) = Some r')); intros IH;
    repeat (rewrite ?filter_cons; simpl; case_decide); simpl in *; try lia; exfalso; naive_solver.
Qed.

Lemma unregister_at_rep s gs uri o :
  ext_rep s gs → (Z.of_nat (length gs) < UINT32_MOD - 2)%Z →
  (HandleUnregisterObserverAt s uri o).1 = (run_regs gs (ExtUnregisterAt uri o)).1 ∧
  ext_rep (HandleUnregisterObserverAt s uri o).2 (run_regs gs (ExtUnregisterAt uri o)).2.
Proof.
  intros Hs Hw. unfold HandleUnregisterObserverAt. cbn [run_regs].
  destruct (obs_remote o) as [r|] eqn:Er; [|done].
  pose proof (RemoveObserverAt_entries (root_ s) uri (Some r) (refHeap s)) as Hrem.
  pose proof (RemoveObserverAt_tidy (root_ s) uri (Some r) (refHeap s)
                (ext_tidy _ _ (ext_holds _ _ Hs))) as Htidy.
  destruct (RemoveObserverAt (root_ s) uri (Some r) (refHeap s)) as [[erase root'] refs].
  destruct Hrem as (_ & -> & Hq). simpl in Htidy. split; [done|]. cbn [snd].
  set (gs' := filter _ gs). destruct Hs as [[H1 H2 H3 H4 H5 H6] Hu].
  set (gone := filter (of_remote (Some r)) (entries_at (root_ s) uri)).
  assert (∀ r', count_regs r' gs' + (if decide (r' = r) then length gone else 0) = count_regs r' gs) as Hcount.
  { intros r'. pose proof (count_regs_filter_path gs uri r r') as Hc. unfold gone.
    by rewrite (length_filter_of_remote _ _ _ (H1 uri)). }
  assert (∀ ref, obsRecipientRefs s !! r = Some ref → Forall (λ e, deathRecipientRef e = ref) gone) as Hgone.
  { intros ref Href. apply Forall_forall. intros e [Hr He]%list_elem_of_filter.
    destruct (H4 _ _ He) as (r' & Hr' & Hr2). unfold of_remote in Hr. congruence. }
  apply settle_rep; [split; simpl|].
  - intros p. rewrite Hq. unfold gs'. rewrite regs_at_filter_path.
    destruct (decide (p = uri)) as [->|]; [|apply H1]. apply entry_reg_filter, H1.
  - done.
  - intros p. unfold gs'. etrans; [|apply (H3 p)]. apply sublist_length.
    apply sublist_filter_mono, sublist_filter.
  - intros p e. rewrite Hq. destruct (decide (p = uri)); [|apply H4].
    intros [_ He]%list_elem_of_filter. by eapply H4.
  - intros r' ref Hr'. destruct (H5 r' ref Hr') as [Hh Hn]. split; [|done].
    specialize (Hcount r'). pose proof (count_regs_le r' gs).
    destruct (decide (r' = r)) as [->|Hne].
    + rewrite (release_lookup gone _ ref _ (Hgone ref Hr') Hh) by lia. f_equal. lia.
    + rewrite release_lookup_other; [rewrite Hh; f_equal; lia|].
      apply Forall_forall. intros e [Hr He]%list_elem_of_filter Heq.
      destruct (H4 _ _ He) as (r2 & Hr2 & Href2). unfold of_remote in Hr. rewrite Heq in Href2.
      assert (r2 = r) as -> by congruence. apply Hne. by eapply H6.
  - eauto.
  - simpl. intros r' Hne Hr'. specialize (Hcount r'). rewrite decide_False in Hcount by done.
    specialize (Hu r' Hr'). lia.
Qed.

Lemma regs_at_drop gs r p :
  regs_at (drop_regs r gs) p = filter (λ g, obs_remote (reg_obs g) ≠ Some r) (regs_at gs p).
Proof.
  unfold regs_at, drop_regs. rewrite !list_filter_filter. apply list_filter_iff. intros g. tauto.
Qed.

Lemma count_regs_drop gs r r' :
  count_regs r' (drop_regs r gs) = if decide (r' = r) then 0 else count_regs r' gs.
Proof.
  unfold count_regs, drop_regs. rewrite list_filter_filter. case_decide as Hd.
  - subst r'. rewrite filter_none; [done|]. intros g _. tauto.
  - f_equal. apply list_filter_iff. intros g. naive_solver.
Qed.

Lemma drop_remote_rep s gs r : ext_rep s gs → ext_rep (drop_remote s r) (drop_regs r gs).
Proof.
  intros [[H1 H2 H3 H4 H5 H6] Hu]. unfold drop_remote, RemoveObserver.
  pose proof (prune_entries (Some r) (root_ s)) as Hq. pose proof (prune_tidy (Some r) (root_ s)) as Ht.
  destruct (prune (Some r) (root_ s)) as [erase root']. simpl in Hq, Ht.
  set (gone := entries_below (Some r) (root_ s)).
  set (s1 := s <| root_ := root' |> <| refHeap := _ |>).
  assert (RemoveObsDeathRecipientExt s1 r true = s1 <| obsRecipientRefs ::= delete r |>) as ->.
  { unfold RemoveObsDeathRecipientExt. simpl. destruct (obsRecipientRefs s !! r) eqn:E; [done|].
    unfold s1, assign. simpl. by rewrite delete_id. }
  assert (∀ r' ref, r' ≠ r → obsRecipientRefs s !! r' = Some ref →
            release gone (refHeap s) !! ref = refHeap s !! ref) as Hrel.
  { intros r' ref Hne Href. apply release_lookup_other, Forall_forall. intros e He Heq.
    apply entries_below_found in He as (Hr & p & Hp). unfold of_remote in Hr.
    destruct (H4 _ _ Hp) as (r2 & Hr2 & Href2). rewrite Heq in Href2. assert (r2 = r) as -> by congruence.
    apply Hne. by eapply H6. }
  split; [split|]; simpl.
  - intros p. rewrite Hq, regs_at_drop. apply entry_reg_filter, H1.
  - done.
  - intros p. rewrite regs_at_drop. etrans; [|apply (H3 p)]. apply sublist_length, sublist_filter.
  - intros p e. rewrite Hq. intros [Hn He]%list_elem_of_filter.
    destruct (H4 _ _ He) as (r' & Hr' & Href). exists r'. split; [done|].
    rewrite lookup_delete_ne; [done|]. intros <-. by apply Hn.
  - intros r' ref. rewrite lookup_delete. case_decide as Hd; [done|]. intros Href.
    destruct (H5 r' ref Href) as [Hh Hn]. rewrite (Hrel r' ref), count_regs_drop by done.
    by rewrite decide_False by done.
  - intros r1 r2 ref. rewrite !lookup_delete. repeat case_decide; try done. apply H6.
  - intros r'. rewrite lookup_delete, count_regs_drop. case_decide; [by intros []|].
    rewrite decide_False by done. apply Hu.
Qed.

Lemma run_ext_rep s gs c :
  ext_rep s gs → (Z.of_nat (length gs) < UINT32_MOD - 2)%Z →
  (run_ext s c).1 = (run_regs gs c).1 ∧ ext_rep (run_ext s c).2 (run_regs gs c).2.
Proof.
  intros Hs Hw. destruct c as [uri o d|uri o|o|[r|]]; cbn [run_ext].
  - by apply register_rep.
  - by apply unregister_at_rep.
  - unfold HandleUnregisterObserverAll. cbn [run_regs].
    destruct (obs_remote o); [|done]. split; [done|]. by apply drop_remote_rep.
  - split; [done|]. by apply drop_remote_rep.
  - done.
Qed.

Fixpoint run_exts (s : DataObsMgrInnerExt) (cs : list ext_call) : list Z * DataObsMgrInnerExt :=
  match cs with
  | [] => ([], s)
  | c :: cs => let '(code, s) := run_ext s c in
               let '(codes, s) := run_exts s cs in (code :: codes, s)
  end.

Fixpoint run_regss (gs : list Reg) (cs : list ext_call) : list Z * list Reg :=
  match cs with
  | [] => ([], gs)
  | c :: cs => let '(code, gs) := run_regs gs c in
               let '(codes, gs) := run_regss gs cs in (code :: codes, gs)
  end.

Lemma run_regs_length gs c : length (run_regs gs c).2 ≤ S (length gs).
Proof.
  destruct c as [uri o d|uri o|o|[r|]]; cbn [run_regs];
    try (destruct (obs_remote o); cbn [snd]; [|lia]); unfold drop_regs; cbn [snd].
  - destruct (OBS_NUM_MAX <=? length (regs_at gs uri)); cbn [snd]; [lia|].
    rewrite length_app. simpl. lia.
  - pose proof (length_filter (λ g, ¬ (reg_path g = uri ∧ obs_remote (reg_obs g) = Some z)) gs). lia.
  - pose proof (length_filter (λ g, obs_remote (reg_obs g) ≠ Some z) gs). lia.
  - pose proof (length_filter (λ g, obs_remote (reg_obs g) ≠ Some r) gs). lia.
  - lia.
Qed.

Lemma run_exts_rep cs s gs :
  ext_rep s gs → (Z.of_nat (length gs + length cs) < UINT32_MOD - 2)%Z →
  (run_exts s cs).1 = (run_regss gs cs).1 ∧ ext_rep (run_exts s cs).2 (run_regss gs cs).2.
Proof.
  revert s gs. induction cs as [|c cs IH]; intros s gs Hs Hw; [done|]. cbn [run_exts run_regss].
  simpl in Hw. destruct (run_ext_rep s gs c Hs) as [H1 H2]; [lia|].
  pose proof (run_regs_length gs c). destruct (run_ext s c) as [code s1], (run_regs gs c) as [code' gs1].
  simpl in *. destruct (IH s1 gs1 H2) as [H3 H4]; [lia|].
  destruct (run_exts s1 cs), (run_regss gs1 cs). simpl in *. by subst.
Qed.

(** C19: for every sequence of registrations, withdrawals and deaths the tree
    answers like the list of registrations in force, and a notification tells an
    observer of a changed URI once for each of its registrations for that URI, or
    for a URI above it with descendants. *)
Theorem notifications_of_registrations (cs : list ext_call) (uris : list path) (o : Z) :
  (Z.of_nat (length cs) < UINT32_MOD - 2)%Z →
  let '(codes, s) := run_exts DataObsMgrInnerExt_new cs in
  let '(codes', gs) := run_regss [] cs in
  codes = codes' ∧
  default [] ((HandleNotifyChangeExt s uris).2 !! o) = uris ≫= λ u, replicate (times gs u o) u.
Proof.
  intros Hw. destruct (run_exts_rep cs _ _ new_ext_rep) as [H1 H2]; [simpl; lia|].
  destruct (run_exts DataObsMgrInnerExt_new cs) as [codes s], (run_regss [] cs) as [codes' gs].
  simpl in *. split; [done|].
  rewrite <-(notify_times (root_ s) gs uris o (ext_tree _ _ (ext_holds _ _ H2))).
  unfold HandleNotifyChangeExt. case_decide as Hd; [by rewrite Hd|done].
Qed.

(** C20: in every state reached, the tree has no empty node below its root, no
    path has more than [OBS_NUM_MAX] observers, and a remote object has a death
    recipient exactly while it is registered, with a count of one more than its
    registrations. *)
Theorem recipients_counted (cs : list ext_call) :
  (Z.of_nat (length cs) < UINT32_MOD - 2)%Z →
  let s := (run_exts DataObsMgrInnerExt_new cs).2 in
  let gs := (run_regss [] cs).2 in
  tidy (root_ s) ∧ (∀ p, length (entries_at (root_ s) p) ≤ OBS_NUM_MAX) ∧
  (∀ r, match obsRecipientRefs s !! r with
        | Some ref => 0 < count_regs r gs ∧ ref_count s ref = (1 + Z.of_nat (count_regs r gs))%Z
        | None => count_regs r gs = 0
        end).
Proof.
  intros Hw s gs. destruct (run_exts_rep cs _ _ new_ext_rep) as [_ H]; [simpl; lia|].
  fold s gs in H. pose proof (ext_holds _ _ H) as Hweak. split; [apply Hweak|]. split.
  - intros p. rewrite (tree_rep_length _ _ _ (ext_tree _ _ Hweak)). apply Hweak.
  - intros r. pose proof (ext_recipients s gs r H) as Hr.
    destruct (obsRecipientRefs s !! r) as [ref|] eqn:E.
    + split; [apply Hr; eauto|]. unfold ref_count.
      by destruct (ext_ref _ _ Hweak r ref E) as [-> _].
    + destruct (count_regs r gs); [done|]. destruct Hr as [_ []]; [lia|done].
Qed.

(** A change below a path with descendants, one at the path, and one after the
    withdrawal. *)
Definition sample_ext_calls : list ext_call :=
  [ExtRegister ["s"; "a"; "x"] remote_a true; ExtRegister ["s"; "a"] remote_b false;
   ExtRegister ["s"; "a"; "x"; "y"] remote_b false; ExtUnregisterAt ["s"; "a"] remote_b].

Lemma notifications_of_registrations_witness :
  default [] ((HandleNotifyChangeExt (run_exts DataObsMgrInnerExt_new sample_ext_calls).2
                 [["s"; "a"; "x"; "y"]; ["s"; "a"]]).2 !! obs_ptr remote_a) =
  [["s"; "a"; "x"; "y"]].
Proof.
  pose proof (notifications_of_registrations sample_ext_calls
                [["s"; "a"; "x"; "y"]; ["s"; "a"]] (obs_ptr remote_a)) as H.
  specialize (H ltac:(vm_compute; reflexivity)).
  destruct (run_exts DataObsMgrInnerExt_new sample_ext_calls) as [codes s].
  destruct (run_regss [] sample_ext_calls) as [codes' gs] eqn:E.
  destruct H as [_ H]. cbn [snd]. rewrite H. vm_compute in E. injection E as <- <-.
  vm_compute. reflexivity.
Defined.

Lemma recipients_counted_witness :
  tidy (root_ (run_exts DataObsMgrInnerExt_new sample_ext_calls).2).
Proof. apply (recipients_counted sample_ext_calls). vm_compute. reflexivity. Defined.
