(* ===== verification/PendingWant.v ===== *)
(** * Pending wants

    [services/abilitymgr/src/pending_want_key.cpp], [pending_want_record.cpp] and
    [pending_want_manager.cpp]: the records behind the want agents, which an
    application creates, updates or cancels by flags, and which are sent later.

    A [sptr<PendingWantRecord>] is a pointer into the heap [records]; its key
    object is shared with the map [wantRecords_] and lives in the record.
    [wantRecords_] is the list of the records in the order of the map.

    [Want] is outside the repository (class [AgentWantLib]), and so are the calls
    that start abilities and publish events, which are the answers of a
    [SendEnv] and are recorded as [action]s. *)

From stdpp Require Import prelude gmap strings list.
From Stdlib Require Import ZArith Lia.
From S2P Require Import Prelude.

Class AgentWantLib := {
  AWant : Type;
  AParam : Type;
  aw_default : AWant;
  aw_IsEquals : AWant → AWant → bool;
  aw_GetBundle : AWant → string;
  aw_GetDeviceID : AWant → string;
  aw_AddFlags : Z → AWant → AWant;
  aw_GetParams : AWant → gmap string AParam;
  aw_SetParams : gmap string AParam → AWant → AWant;
  aw_Box : Z → AParam;
}.

(** Comparing wants is an equivalence, the parameters set are the parameters
    read, and adding flags leaves them alone. *)
Class AgentWantLaws (AL : AgentWantLib) : Prop := {
  IsEquals_refl : ∀ w, aw_IsEquals w w = true;
  IsEquals_sym : ∀ w w', aw_IsEquals w w' = true → aw_IsEquals w' w = true;
  IsEquals_trans : ∀ w w' w'', aw_IsEquals w w' = true → aw_IsEquals w' w'' = true → aw_IsEquals w w'' = true;
  GetParams_SetParams : ∀ m w, aw_GetParams (aw_SetParams m w) = m;
  GetParams_AddFlags : ∀ f w, aw_GetParams (aw_AddFlags f w) = aw_GetParams w;
}.

(** ** Flags, operation types and codes *)

Definition ONE_TIME_FLAG : Z := Z.shiftl 1 30.
Definition NO_BUILD_FLAG : Z := Z.shiftl 1 29.
Definition CANCEL_PRESENT_FLAG : Z := Z.shiftl 1 28.
Definition UPDATE_PRESENT_FLAG : Z := Z.shiftl 1 27.
Definition CONSTANT_FLAG : Z := Z.shiftl 1 26.

Definition UNKNOWN_TYPE : Z := 0.
Definition START_ABILITY : Z := 1.
Definition START_ABILITIES : Z := 2.
Definition START_SERVICE : Z := 3.
Definition SEND_COMMON_EVENT : Z := 4.
Definition START_FOREGROUND_SERVICE : Z := 5.

Definition START_CANCELED : Z := -96.
Definition ERR_OK : Z := 0.
Definition ERR_INVALID_VALUE : Z := 22.
Definition START_ABILITY_WAITING : Z := 2097159.

(** [(static_cast<uint32_t>(flags) & flag) != 0]. *)
Definition has_flag (flags flag : Z) : bool := negb (Z.land (u32 flags) flag =? 0)%Z.

Section PendingWants.
Context {AL : AgentWantLib}.

(** ** Data *)

Record WantsInfo := mkWantsInfo {
  wi_want : AWant;
  wi_resolvedTypes : string;
}.

Record WantSenderInfo := mkWantSenderInfo {
  wsi_type : Z;
  wsi_bundleName : string;
  wsi_resultWho : string;
  wsi_requestCode : Z;
  wsi_allWants : list WantsInfo;
  wsi_flags : Z;
  wsi_userId : Z;
}.

Record PendingWantKey := mkKey {
  type_ : Z;
  bundleName_ : string;
  requestWho_ : string;
  requestCode_ : Z;
  requestWant_ : AWant;
  requestResolvedType_ : string;
  allWantsInfos_ : list WantsInfo;
  flags_ : Z;
  code_ : Z;
  userId_ : Z;
  appIndex_ : Z;
}.

#[global] Instance PendingWantKey_reconstruct : Reconstruct PendingWantKey := λ k,
  mkKey (type_ k) (bundleName_ k) (requestWho_ k) (requestCode_ k) (requestWant_ k)
    (requestResolvedType_ k) (allWantsInfos_ k) (flags_ k) (code_ k) (userId_ k) (appIndex_ k).

Definition PendingWantKey_new : PendingWantKey := mkKey 0 "" "" 0 aw_default "" [] 0 0 0 0.

(** Setters and getters of a key. *)
Definition SetType (type : Z) (k : PendingWantKey) := k <| type_ := type |>.
Definition SetBundleName (bundleName : string) (k : PendingWantKey) := k <| bundleName_ := bundleName |>.
Definition SetRequestWho (requestWho : string) (k : PendingWantKey) := k <| requestWho_ := requestWho |>.
Definition SetRequestCode (requestCode : Z) (k : PendingWantKey) := k <| requestCode_ := requestCode |>.
Definition SetRequestWant (requestWant : AWant) (k : PendingWantKey) := k <| requestWant_ := requestWant |>.
Definition SetRequestResolvedType (resolved : string) (k : PendingWantKey) :=
  k <| requestResolvedType_ := resolved |>.
Definition SetAllWantsInfos (infos : list WantsInfo) (k : PendingWantKey) := k <| allWantsInfos_ := infos |>.
Definition SetFlags (flags : Z) (k : PendingWantKey) := k <| flags_ := flags |>.
Definition SetCode (code : Z) (k : PendingWantKey) := k <| code_ := code |>.
Definition SetUserId (userId : Z) (k : PendingWantKey) := k <| userId_ := userId |>.
Definition SetAppIndex (appIndex : Z) (k : PendingWantKey) := k <| appIndex_ := appIndex |>.

Definition IsEqualsRequestWant (k : PendingWantKey) (otherWant : AWant) : bool :=
  aw_IsEquals (requestWant_ k) otherWant.

Record PendingWantRecord := mkRecord {
  uid_ : Z;
  callerUid_ : Z;
  callerTokenId_ : Z;
  callerToken_ : option Z;
  canceled_ : bool;
  key_ : PendingWantKey;
  mCancelCallbacks_ : list Z;
}.

#[global] Instance PendingWantRecord_reconstruct : Reconstruct PendingWantRecord := λ r,
  mkRecord (uid_ r) (callerUid_ r) (callerTokenId_ r) (callerToken_ r) (canceled_ r) (key_ r)
    (mCancelCallbacks_ r).

Record PendingWantManager := mkPwm {
  wantRecords_ : list Z;
  records : gmap Z PendingWantRecord;
  lastCode : Z;
  nextRecord : Z;
}.

#[global] Instance PendingWantManager_reconstruct : Reconstruct PendingWantManager := λ s,
  mkPwm (wantRecords_ s) (records s) (lastCode s) (nextRecord s).

Definition PendingWantManager_new : PendingWantManager := mkPwm [] ∅ 0 0.

(** What a call does outside the manager. *)
Inductive action :=
| StartAbility (w : AWant)
| StartRemoteAbility (w : AWant)
| PublishCommonEvent (w : AWant)
| PerformReceive (receiver : Z) (w : AWant) (data : string)
| CancelSend (receiver requestCode : Z).

(** ** Keys *)

Definition CheckPendingWantRecordByKey (inputKey key : PendingWantKey) : bool :=
  if negb (appIndex_ inputKey =? appIndex_ key)%Z then false
  else if negb (String.eqb (bundleName_ inputKey) (bundleName_ key)) then false
  else if negb (type_ inputKey =? type_ key)%Z then false
  else if negb (String.eqb (requestWho_ inputKey) (requestWho_ key)) then false
  else if negb (requestCode_ inputKey =? requestCode_ key)%Z then false
  else if negb (String.eqb (requestResolvedType_ inputKey) (requestResolvedType_ key)) then false
  else if negb (userId_ inputKey =? userId_ key)%Z then false
  else IsEqualsRequestWant inputKey (requestWant_ key).

Definition record_key_matches (s : PendingWantManager) (p : PendingWantKey → bool) (r : Z) : bool :=
  match records s !! r with Some rec => p (key_ rec) | None => false end.

Definition GetPendingWantRecordByKey (s : PendingWantManager) (key : PendingWantKey) : option Z :=
  find_if (record_key_matches s (λ k, CheckPendingWantRecordByKey k key)) (wantRecords_ s).

Definition GetPendingWantRecordByCode (s : PendingWantManager) (code : Z) : option Z :=
  find_if (record_key_matches s (λ k, (code_ k =? code)%Z)) (wantRecords_ s).

(** ** Cancelling *)

Definition MakeWantSenderCanceledLocked (s : PendingWantManager) (r : Z)
    : list action * PendingWantManager :=
  match records s !! r with
  | None => ([], s)
  | Some rec =>
      ((λ cb, CancelSend cb (requestCode_ (key_ rec))) <$> mCancelCallbacks_ rec,
       s <| records ::= <[r := rec <| canceled_ := true |>]> |>)
  end.

Definition erase_record (r : Z) (s : PendingWantManager) : PendingWantManager :=
  s <| wantRecords_ ::= filter (λ x, x ≠ r) |>.

Definition CancelWantSenderLocked (s : PendingWantManager) (r : Z) (cleanAbility : bool)
    : list action * PendingWantManager :=
  let '(acts, s) := MakeWantSenderCanceledLocked s r in
  (acts, if cleanAbility then erase_record r s else s).
(** A sender passed by a caller: null, an object that is null or a proxy, or a
    record of this process. *)
Inductive sender_target :=
| NullSender
| ProxySender
| LocalSender (r : Z).

Definition CancelWantSender (s : PendingWantManager) (isSystemApp isSaCall : bool)
    (sender : sender_target) : list action * PendingWantManager :=
  match sender with
  | NullSender => ([], s)
  | _ =>
      if negb isSaCall && negb isSystemApp then ([], s)
      else match sender with
           | LocalSender r => CancelWantSenderLocked s r true
           | _ => ([], s)
           end
  end.

(** ** Creating *)

Definition PendingRecordIdCreate (s : PendingWantManager) : Z * PendingWantManager :=
  let id := i32 (lastCode s + 1) in (id, s <| lastCode := id |>).

(** The key of a request; the code is set when a record is made for it. *)
Definition key_of_info (info : WantSenderInfo) (appIndex : Z) : PendingWantKey :=
  let key := SetAppIndex appIndex $ SetType (wsi_type info) $ SetUserId (wsi_userId info) $
    SetFlags (wsi_flags info) $ SetRequestCode (wsi_requestCode info) $
    SetRequestWho (wsi_resultWho info) $ SetBundleName (wsi_bundleName info) PendingWantKey_new in
  match last (wsi_allWants info) with
  | None => key
  | Some w =>
      SetAllWantsInfos (wsi_allWants info) $
      SetRequestResolvedType (wi_resolvedTypes w) $ SetRequestWant (wi_want w) key
  end.

(** The update of an existing record by a request that carries wants. *)
Definition update_record (info : WantSenderInfo) (callingUid : Z) (rec : PendingWantRecord)
    : PendingWantRecord :=
  match last (wsi_allWants info) with
  | None => rec
  | Some w =>
      rec <| key_ ::= (λ k, SetAllWantsInfos (wsi_allWants info) $
                            SetRequestResolvedType (wi_resolvedTypes w) $
                            SetRequestWant (wi_want w) k) |>
          <| callerUid_ := callingUid |>
  end.

Definition GetWantSenderLocked (s : PendingWantManager) (callingUid uid callingTokenId : Z)
    (info : WantSenderInfo) (callerToken : option Z) (appIndex : Z)
    : option Z * list action * PendingWantManager :=
  let needCreate := negb (has_flag (wsi_flags info) NO_BUILD_FLAG) in
  let needCancel := has_flag (wsi_flags info) CANCEL_PRESENT_FLAG in
  let needUpdate := has_flag (wsi_flags info) UPDATE_PRESENT_FLAG in
  let pendingKey := key_of_info info appIndex in
  let ref := GetPendingWantRecordByKey s pendingKey in
  match ref, needCancel with
  | Some r, false =>
      (Some r, [], if needUpdate then s <| records ::= alter (update_record info callingUid) r |> else s)
  | _, _ =>
      let '(acts, s) := match ref with
                        | Some r => let '(acts, s) := MakeWantSenderCanceledLocked s r in
                                    (acts, erase_record r s)
                        | None => ([], s)
                        end in
      if negb needCreate then (ref, acts, s)
      else
        let '(code, s) := PendingRecordIdCreate s in
        let rec := mkRecord uid callingUid callingTokenId callerToken false
                     (SetCode code pendingKey) [] in
        let r := nextRecord s in
        (Some r, acts,
         s <| records ::= <[r := rec]> |> <| wantRecords_ := wantRecords_ s ++ [r] |>
           <| nextRecord := (r + 1)%Z |>)
  end.

Definition GetWantSender (s : PendingWantManager) (callingUid uid callingTokenId : Z)
    (isSystemApp isSaCall : bool) (info : WantSenderInfo) (callerToken : option Z) (appIndex : Z)
    : option Z * list action * PendingWantManager :=
  if negb (wsi_type info =? SEND_COMMON_EVENT)%Z && negb (callingUid =? uid)%Z &&
     negb isSystemApp && negb isSaCall
  then (None, [], s)
  else GetWantSenderLocked s callingUid uid callingTokenId info callerToken appIndex.

(** ** Queries by sender *)

(** The record in force under the code of the sender's record. *)
Definition record_of_target (s : PendingWantManager) (target : sender_target)
    : option PendingWantRecord :=
  match target with
  | LocalSender r =>
      rec ← records s !! r;
      r' ← GetPendingWantRecordByCode s (code_ (key_ rec));
      records s !! r'
  | _ => None
  end.

Definition query {A : Type} (d : A) (f : PendingWantRecord → A) (s : PendingWantManager)
    (target : sender_target) : A :=
  match record_of_target s target with Some rec => f rec | None => d end.

Definition GetPendingWantUid := query (-1)%Z uid_.
Definition GetPendingWantUserId := query (-1)%Z (λ rec, userId_ (key_ rec)).
Definition GetPendingWantBundleName := query "" (λ rec, bundleName_ (key_ rec)).
Definition GetPendingWantCode := query (-1)%Z (λ rec, code_ (key_ rec)).
Definition GetPendingWantType := query (-1)%Z (λ rec, type_ (key_ rec)).

(** The code and the want, when the caller passed a want to fill. *)
Definition GetPendingRequestWant (s : PendingWantManager) (target : sender_target) (want : option AWant)
    : Z * option AWant :=
  match want with
  | None => (ERR_INVALID_VALUE, None)
  | Some _ =>
      match record_of_target s target with
      | None => (ERR_INVALID_VALUE, want)
      | Some rec => (ERR_OK, Some (requestWant_ (key_ rec)))
      end
  end.

(** [userId] of the new information is not assigned by the code: [indeterminate]
    stands for what is there. *)
Definition GetWantSenderInfo (s : PendingWantManager) (target : sender_target)
    (info : option WantSenderInfo) (indeterminate : Z) : Z * option WantSenderInfo :=
  match info with
  | None => (ERR_INVALID_VALUE, None)
  | Some _ =>
      match record_of_target s target with
      | None => (ERR_INVALID_VALUE, info)
      | Some rec =>
          let k := key_ rec in
          (ERR_OK, Some (mkWantSenderInfo (type_ k) "" "" (requestCode_ k) (allWantsInfos_ k)
                           (u32 (flags_ k)) indeterminate))
      end
  end.

(** ** Listeners *)

Definition Record_RegisterCancelListener (receiver : option Z) (rec : PendingWantRecord)
    : PendingWantRecord :=
  match receiver with
  | None => rec
  | Some c => rec <| mCancelCallbacks_ := mCancelCallbacks_ rec ++ [c] |>
  end.

Definition Record_UnregisterCancelListener (receiver : option Z) (rec : PendingWantRecord)
    : PendingWantRecord :=
  match receiver with
  | None => rec
  | Some c => rec <| mCancelCallbacks_ ::= erase_first (λ x, bool_decide (x = c)) |>
  end.

Definition pointer_of_target (s : PendingWantManager) (target : sender_target) : option Z :=
  match target with
  | LocalSender r => rec ← records s !! r; GetPendingWantRecordByCode s (code_ (key_ rec))
  | _ => None
  end.

Definition RegisterCancelListener (s : PendingWantManager) (sender : sender_target)
    (receiver : option Z) : PendingWantManager :=
  match receiver, pointer_of_target s sender with
  | Some _, Some r =>
      s <| records ::= alter (λ rec, if canceled_ rec then rec
                                     else Record_RegisterCancelListener receiver rec) r |>
  | _, _ => s
  end.

Definition UnregisterCancelListener (s : PendingWantManager) (sender : sender_target)
    (receiver : option Z) : PendingWantManager :=
  match receiver, pointer_of_target s sender with
  | Some _, Some r => s <| records ::= alter (Record_UnregisterCancelListener receiver) r |>
  | _, _ => s
  end.

(** ** Uninstallation *)

Definition wants_bundle (bundleName : string) (uid : Z) (rec : PendingWantRecord) : bool :=
  existsb (λ w, String.eqb (aw_GetBundle (wi_want w)) bundleName && (uid =? uid_ rec)%Z)
    (allWantsInfos_ (key_ rec)).

Definition ClearPendingWantRecordTask (s : PendingWantManager) (bundleName : string) (uid : Z)
    : PendingWantManager :=
  s <| wantRecords_ ::=
       filter (λ r, match records s !! r with
                    | Some rec => wants_bundle bundleName uid rec
                    | None => false
                    end = false) |>.
(** ** Sending *)

(** The rest of the system, as far as a send asks it. *)
Record SendEnv := mkEnv {
  managerAlive : bool;
  callerPermitted : bool;
  localDeviceId : string;
  dmsAvailable : bool;
  startResult : AWant → Z;
  startRemoteResult : AWant → Z;
  publishResult : AWant → bool;
}.

Record SenderInfo := mkSenderInfo {
  si_code : Z;
  si_want : AWant;
  finishedReceiver : option Z;
}.

Definition DeviceIdDetermine (env : SendEnv) (want : AWant) : Z * list action :=
  if String.eqb (aw_GetDeviceID want) "" || String.eqb (aw_GetDeviceID want) (localDeviceId env)
  then (startResult env want, [StartAbility want])
  else if negb (dmsAvailable env) then (ERR_INVALID_VALUE, [])
  else (startRemoteResult env want, [StartRemoteAbility want]).

Definition PendingWantStartAbility (env : SendEnv) (want : AWant) : Z * list action :=
  if negb (callerPermitted env) then (ERR_INVALID_VALUE, []) else DeviceIdDetermine env want.

(** Every want is started; the last failure is the result. *)
Fixpoint start_all (env : SendEnv) (wants : list WantsInfo) (result : Z) : Z * list action :=
  match wants with
  | [] => (result, [])
  | item :: wants =>
      let '(res, acts) := DeviceIdDetermine env (wi_want item) in
      let result := if negb (res =? ERR_OK)%Z && negb (res =? START_ABILITY_WAITING)%Z
                    then res else result in
      let '(result, acts') := start_all env wants result in
      (result, acts ++ acts')
  end.

Definition PendingWantStartAbilitys (env : SendEnv) (wants : list WantsInfo) : Z * list action :=
  if negb (callerPermitted env) then (ERR_INVALID_VALUE, []) else start_all env wants ERR_OK.

Definition PendingWantPublishCommonEvent (env : SendEnv) (want : AWant) : Z * list action :=
  (if publishResult env want then ERR_OK else (-1)%Z, [PublishCommonEvent want]).

(** The parameters of the sender's want are added under the keys the record's want
    does not have. *)
Definition merge_params (own sent : gmap string AParam) : gmap string AParam := own ∪ sent.

Definition APP_CLONE_INDEX : string := "ohos.extra.param.key.appCloneIndex".

Definition BuildSendWant (k : PendingWantKey) (info : SenderInfo) : AWant :=
  let want := if decide (allWantsInfos_ k = []) then aw_default else requestWant_ k in
  let immutable := has_flag (flags_ k) CONSTANT_FLAG in
  let want := if immutable then want else aw_AddFlags (flags_ k) want in
  aw_SetParams
    (<[APP_CLONE_INDEX := aw_Box (appIndex_ k)]>
       (merge_params (aw_GetParams want) (aw_GetParams (si_want info)))) want.

(** [vec.back().want = w]; [back()] of an empty vector is undefined. *)
Definition set_back_want (wants : list WantsInfo) (w : AWant) : outcome (list WantsInfo) :=
  match last wants with
  | None => Undef
  | Some b => Ret (take (length wants - 1) wants ++ [mkWantsInfo w (wi_resolvedTypes b)])
  end.

Definition notify_finish (receiver : option Z) (w : AWant) (data : string) : list action :=
  match receiver with Some c => [PerformReceive c w data] | None => [] end.

(** The switch on the operation type. *)
Definition perform (env : SendEnv) (k : PendingWantKey) (want : AWant) : outcome (Z * list action) :=
  if (type_ k =? START_ABILITY)%Z then Ret (PendingWantStartAbility env want)
  else if (type_ k =? START_ABILITIES)%Z then
    let* wants := set_back_want (allWantsInfos_ k) want in
    Ret (PendingWantStartAbilitys env wants)
  else if (type_ k =? START_SERVICE)%Z || (type_ k =? START_FOREGROUND_SERVICE)%Z
  then Ret (PendingWantStartAbility env want)
  else if (type_ k =? SEND_COMMON_EVENT)%Z then Ret (PendingWantPublishCommonEvent env want)
  else Ret (ERR_OK, []).

Definition SenderInner (env : SendEnv) (s : PendingWantManager) (r : Z) (info : SenderInfo)
    : outcome (Z * list action * PendingWantManager) :=
  let* rec := deref (records s !! r) in
  if canceled_ rec then
    Ret (START_CANCELED, notify_finish (finishedReceiver info) aw_default "canceled", s)
  else if negb (managerAlive env) then Ret (ERR_INVALID_VALUE, [], s)
  else
    let '(acts, s) := if has_flag (flags_ (key_ rec)) ONE_TIME_FLAG
                      then CancelWantSenderLocked s r true else ([], s) in
    let want := BuildSendWant (key_ rec) info in
    let* (res, acts') := perform env (key_ rec) want in
    let finish := if negb (res =? START_CANCELED)%Z
                  then notify_finish (finishedReceiver info) want "" else [] in
    Ret (res, acts ++ acts' ++ finish, s).

Definition SendWantSender (env : SendEnv) (s : PendingWantManager) (target : sender_target)
    (info : SenderInfo) : outcome (Z * list action * PendingWantManager) :=
  match target with
  | LocalSender r => SenderInner env s r info
  | _ => Ret (ERR_INVALID_VALUE, notify_finish (finishedReceiver info) aw_default "canceled", s)
  end.
End PendingWants.

(** ** Keys up to equality *)

Section KeyEquality.
Context {AL : AgentWantLib} {ALaws : AgentWantLaws AL}.
Implicit Types (k : PendingWantKey) (s : PendingWantManager).

Lemma check_key_spec k k' :
  CheckPendingWantRecordByKey k k' = true ↔
  appIndex_ k = appIndex_ k' ∧ bundleName_ k = bundleName_ k' ∧ type_ k = type_ k' ∧
  requestWho_ k = requestWho_ k' ∧ requestCode_ k = requestCode_ k' ∧
  requestResolvedType_ k = requestResolvedType_ k' ∧ userId_ k = userId_ k' ∧
  aw_IsEquals (requestWant_ k) (requestWant_ k') = true.
Proof.
  unfold CheckPendingWantRecordByKey, IsEqualsRequestWant.
  repeat match goal with
  | |- context [(?a =? ?b)%Z] => destruct (Z.eqb_spec a b); simpl; [|split; [done|tauto]]
  | |- context [String.eqb ?a ?b] => destruct (String.eqb_spec a b); simpl; [|split; [done|tauto]]
  end.
  tauto.
Qed.

Lemma check_key_sym k k' :
  CheckPendingWantRecordByKey k k' = true → CheckPendingWantRecordByKey k' k = true.
Proof. rewrite !check_key_spec. intros (?&?&?&?&?&?&?&?). split_and!; eauto using IsEquals_sym. Qed.

Lemma check_key_trans k k' k'' :
  CheckPendingWantRecordByKey k k' = true → CheckPendingWantRecordByKey k' k'' = true →
  CheckPendingWantRecordByKey k k'' = true.
Proof.
  rewrite !check_key_spec. intros (?&?&?&?&?&?&?&?) (?&?&?&?&?&?&?&?).
  split_and!; eauto using IsEquals_trans; congruence.
Qed.

(** ** The invariant *)

(** The record of a pointer is in force. *)
Definition live s (r : Z) (rec : PendingWantRecord) : Prop :=
  r ∈ wantRecords_ s ∧ records s !! r = Some rec.

(** The records in force exist once and are not cancelled, no two of them have
    equal keys, and a record has the code of its creation. *)
Record pw_inv s : Prop := {
  pw_nodup : NoDup (wantRecords_ s);
  pw_live : ∀ r, r ∈ wantRecords_ s → ∃ rec, records s !! r = Some rec ∧ canceled_ rec = false;
  pw_unique : ∀ r r' rec rec', live s r rec → live s r' rec' →
    CheckPendingWantRecordByKey (key_ rec) (key_ rec') = true → r = r';
  pw_codes : ∀ r rec, records s !! r = Some rec →
    (0 ≤ r < nextRecord s)%Z ∧ code_ (key_ rec) = (r + 1)%Z;
  pw_counter : lastCode s = nextRecord s ∧ (0 ≤ nextRecord s ≤ INT_MAX)%Z;
}.

Lemma new_pw_inv : pw_inv PendingWantManager_new.
Proof.
  split; simpl.
  - constructor.
  - by intros r ?%not_elem_of_nil.
  - intros r r' rec rec' [H _]. simpl in H. by apply not_elem_of_nil in H.
  - intros r rec. by rewrite lookup_empty.
  - unfold INT_MAX. lia.
Qed.

(** A change of records that keeps the keys up to equality, their codes and the
    cancellations of the records in force. *)
Lemma pw_inv_records s f (r0 : Z) :
  pw_inv s →
  (∀ rec, records s !! r0 = Some rec →
     code_ (key_ (f rec)) = code_ (key_ rec) ∧
     (r0 ∈ wantRecords_ s → canceled_ (f rec) = canceled_ rec ∧
        CheckPendingWantRecordByKey (key_ (f rec)) (key_ rec) = true)) →
  pw_inv (s <| records ::= alter f r0 |>).
Proof.
  intros [H1 H2 H3 H4 H5] Hf.
  assert (∀ r rec', alter f r0 (records s) !! r = Some rec' →
            ∃ rec, records s !! r = Some rec ∧ code_ (key_ rec') = code_ (key_ rec) ∧
              (r ∈ wantRecords_ s → canceled_ rec' = canceled_ rec ∧
                 CheckPendingWantRecordByKey (key_ rec') (key_ rec) = true)) as Halt.
  { intros r rec'. rewrite lookup_alter. case_decide as Hd.
    - subst r. destruct (records s !! r0) as [rec|] eqn:E; simpl; [|done].
      intros [= <-]. exists rec. split; [done|]. by apply Hf.
    - intros E. exists rec'. split; [done|]. split; [done|]. intros _. split; [done|].
      apply check_key_spec. split_and!; try done. apply IsEquals_refl. }
  split; simpl; [done| | | |done].
  - intros r Hr. destruct (H2 r Hr) as (rec & E & Hc).
    destruct (alter f r0 (records s) !! r) as [rec'|] eqn:E'.
    + destruct (Halt r rec' E') as (rec2 & E2 & _ & Hk). destruct (Hk Hr) as [Hc2 _].
      exists rec'. split; [done|]. congruence.
    + apply lookup_alter_None in E'. congruence.
  - intros r r' rec rec' [Hr Er] [Hr' Er'] Hc. simpl in *.
    destruct (Halt r rec Er) as (rec1 & E1 & _ & Hk1). destruct (Halt r' rec' Er') as (rec2 & E2 & _ & Hk2).
    apply (H3 r r' rec1 rec2); [done|done|].
    eapply check_key_trans; [apply check_key_sym; by apply Hk1|].
    eapply check_key_trans; [exact Hc|by apply Hk2].
  - intros r rec Er. destruct (Halt r rec Er) as (rec1 & E1 & -> & _). by apply H4.
Qed.

(** Fewer records in force. *)
Lemma pw_inv_sublist s l : pw_inv s → sublist l (wantRecords_ s) → pw_inv (s <| wantRecords_ := l |>).
Proof.
  intros [H1 H2 H3 H4 H5] Hl. assert (∀ r, r ∈ l → r ∈ wantRecords_ s) as Hin
    by (intros r Hr; by eapply elem_of_sublist).
  split; simpl; [by eapply sublist_NoDup| | |done|done].
  - auto.
  - intros r r' rec rec' [Hr Er] [Hr' Er']. simpl in *. apply H3; split; auto.
Qed.

(** Cancelling a record and taking it out of force. *)
Lemma cancel_inv s r :
  pw_inv s → pw_inv (CancelWantSenderLocked s r true).2.
Proof.
  intros Hs. unfold CancelWantSenderLocked, MakeWantSenderCanceledLocked.
  pose proof (pw_inv_sublist s (filter (λ x, x ≠ r) (wantRecords_ s)) Hs (sublist_filter _ _)) as Hs1.
  destruct (records s !! r) as [rec|] eqn:E; [|exact Hs1].
  pose proof (pw_inv_records _ (λ rec, rec <| canceled_ := true |>) r Hs1) as H.
  match goal with |- pw_inv ?s' => assert (s' = s <| wantRecords_ := filter (λ x, x ≠ r) (wantRecords_ s) |>
     <| records ::= alter (λ rec, rec <| canceled_ := true |>) r |>) as -> end.
  { unfold erase_record, assign. simpl. f_equal. apply map_eq. intros j.
    rewrite lookup_insert, lookup_alter. case_decide; [subst; by rewrite E|done]. }
  apply H. intros rec' _. split; [done|]. simpl.
  intros [? _]%list_elem_of_filter. done.
Qed.
(** The records in force that match a key. *)
Lemma find_by_key s k r :
  pw_inv s → GetPendingWantRecordByKey s k = Some r →
  ∃ rec, live s r rec ∧ CheckPendingWantRecordByKey (key_ rec) k = true.
Proof.
  intros Hs H. apply find_if_elem in H as [Hr Hm]. unfold record_key_matches in Hm.
  destruct (records s !! r) as [rec|] eqn:E; [|done]. exists rec. by split.
Qed.

Lemma find_by_key_None s k :
  GetPendingWantRecordByKey s k = None →
  ∀ r rec, live s r rec → CheckPendingWantRecordByKey (key_ rec) k = false.
Proof.
  unfold GetPendingWantRecordByKey. rewrite find_if_None. intros H r rec [Hr E].
  specialize (H r Hr). unfold record_key_matches in H. by rewrite E in H.
Qed.

(** The record in force with a key is the one found. *)
Lemma find_by_key_unique s k r rec :
  pw_inv s → live s r rec → CheckPendingWantRecordByKey (key_ rec) k = true →
  GetPendingWantRecordByKey s k = Some r.
Proof.
  intros Hs Hl Hc. destruct (GetPendingWantRecordByKey s k) as [r'|] eqn:E.
  - destruct (find_by_key s k r' Hs E) as (rec' & Hl' & Hc'). f_equal.
    apply (pw_unique s Hs r' r rec' rec); [done|done|].
    eapply check_key_trans; [exact Hc'|by apply check_key_sym].
  - pose proof (find_by_key_None s k E r rec Hl). congruence.
Qed.

(** A new record for a key no record in force has. *)
Definition create_record s (uid callingUid callingTokenId : Z) (callerToken : option Z)
    (k : PendingWantKey) : Z * PendingWantManager :=
  let '(code, s) := PendingRecordIdCreate s in
  let r := nextRecord s in
  (r, s <| records ::= <[r := mkRecord uid callingUid callingTokenId callerToken false
                                (SetCode code k) []]> |>
        <| wantRecords_ := wantRecords_ s ++ [r] |> <| nextRecord := (r + 1)%Z |>).

Lemma create_inv s uid cuid ctok tok k :
  pw_inv s → (nextRecord s < INT_MAX)%Z →
  (∀ r rec, live s r rec → CheckPendingWantRecordByKey (key_ rec) k = false) →
  let '(r, s') := create_record s uid cuid ctok tok k in
  pw_inv s' ∧ (r ∉ wantRecords_ s) ∧ r = nextRecord s ∧ nextRecord s' = (nextRecord s + 1)%Z ∧
  live s' r (mkRecord uid cuid ctok tok false (SetCode (r + 1)%Z k) []) ∧
  ∀ r' rec, r' ≠ r → live s' r' rec ↔ live s r' rec.
Proof.
  intros [H1 H2 H3 H4 [H5 H6]] Hw Hn. unfold create_record, PendingRecordIdCreate. simpl.
  rewrite H5, i32_small by (unfold INT_MAX in *; lia). set (r := nextRecord s).
  assert (records s !! r = None) as Hr.
  { destruct (records s !! r) eqn:E; [|done]. apply H4 in E as [? _]. unfold r in *. lia. }
  assert (r ∉ wantRecords_ s) as Hrw by (intros (rec & E & _)%H2; congruence).
  set (rec0 := mkRecord uid cuid ctok tok false _ []). set (s' := s <| lastCode := _ |> <| records ::= _ |> <| wantRecords_ := _ |> <| nextRecord := _ |>).
  assert (∀ r' rec, live s' r' rec ↔ (r' = r ∧ rec = rec0) ∨ (r' ≠ r ∧ live s r' rec)) as Hlive.
  { intros r' rec. unfold live, s'. simpl. rewrite elem_of_app, list_elem_of_singleton, lookup_insert.
    case_decide; [subst r'|]; naive_solver. }
  split; [|split; [done|split; [done|split; [done|split]]]].
  - split.
    + unfold s'. simpl. apply NoDup_app. split; [done|]. split; [|apply NoDup_singleton].
      intros x Hx ->%list_elem_of_singleton. done.
    + intros r'. unfold s'. simpl. rewrite elem_of_app, list_elem_of_singleton, lookup_insert.
      intros [Hr'| ->]; [|rewrite decide_True by done; by exists rec0].
      rewrite decide_False by (intros <-; done). auto.
    + intros r1 r2 rec1 rec2 [[-> ->]|[Hd1 Hl1]]%Hlive [[-> ->]|[Hd2 Hl2]]%Hlive Hc; [done| | |eauto].
      * apply check_key_sym in Hc. pose proof (Hn r2 rec2 Hl2) as Hf.
        rewrite check_key_spec in Hc. assert (CheckPendingWantRecordByKey (key_ rec2) k = true)
          by (apply check_key_spec; exact Hc). congruence.
      * pose proof (Hn r1 rec1 Hl1) as Hf. rewrite check_key_spec in Hc.
        assert (CheckPendingWantRecordByKey (key_ rec1) k = true) by (apply check_key_spec; exact Hc).
        congruence.
    + intros r' rec. unfold s'. simpl. rewrite lookup_insert. case_decide as Hd.
      * intros [= <-]. subst r'. simpl. unfold r in *. lia.
      * intros E%H4. unfold r in *. lia.
    + unfold s'. simpl. unfold r, INT_MAX in *. lia.
  - apply Hlive. by left.
  - intros r' rec Hne. rewrite Hlive. naive_solver.
Qed.

(** After a cancellation the other records in force are as before. *)
Lemma cancel_live s r r' rec :
  r' ≠ r → live (CancelWantSenderLocked s r true).2 r' rec ↔ live s r' rec.
Proof.
  intros Hne. unfold CancelWantSenderLocked, MakeWantSenderCanceledLocked, live.
  destruct (records s !! r) as [rec0|]; simpl; rewrite list_elem_of_filter;
    rewrite ?lookup_insert_ne by done; naive_solver.
Qed.

Lemma cancel_not_live s r : r ∉ wantRecords_ (CancelWantSenderLocked s r true).2.
Proof.
  unfold CancelWantSenderLocked, MakeWantSenderCanceledLocked.
  destruct (records s !! r); simpl; intros [? _]%list_elem_of_filter; done.
Qed.

Lemma cancel_next s r : nextRecord (CancelWantSenderLocked s r true).2 = nextRecord s.
Proof.
  unfold CancelWantSenderLocked, MakeWantSenderCanceledLocked. by destruct (records s !! r).
Qed.

(** The request, in terms of cancelling and creating. *)
Lemma GetWantSenderLocked_cases s cuid uid ctok info tok idx :
  let k := key_of_info info idx in
  GetWantSenderLocked s cuid uid ctok info tok idx =
  match GetPendingWantRecordByKey s k with
  | Some r =>
      if has_flag (wsi_flags info) CANCEL_PRESENT_FLAG then
        let '(acts, s1) := CancelWantSenderLocked s r true in
        if has_flag (wsi_flags info) NO_BUILD_FLAG then (Some r, acts, s1)
        else let '(r', s2) := create_record s1 uid cuid ctok tok k in (Some r', acts, s2)
      else (Some r, [], if has_flag (wsi_flags info) UPDATE_PRESENT_FLAG
                        then s <| records ::= alter (update_record info cuid) r |> else s)
  | None =>
      if has_flag (wsi_flags info) NO_BUILD_FLAG then (None, [], s)
      else let '(r', s2) := create_record s uid cuid ctok tok k in (Some r', [], s2)
  end.
Proof.
  intros k. unfold GetWantSenderLocked. fold k.
  destruct (GetPendingWantRecordByKey s k) as [r|], (has_flag (wsi_flags info) CANCEL_PRESENT_FLAG),
    (has_flag (wsi_flags info) NO_BUILD_FLAG); try done; cbn [negb];
    unfold CancelWantSenderLocked; destruct (MakeWantSenderCanceledLocked s r) as [acts s1]; done.
Qed.

Lemma key_of_info_want info idx w :
  last (wsi_allWants info) = Some w →
  requestWant_ (key_of_info info idx) = wi_want w ∧
  requestResolvedType_ (key_of_info info idx) = wi_resolvedTypes w.
Proof. intros H. unfold key_of_info. by rewrite H. Qed.

Lemma update_inv s info idx cuid r :
  pw_inv s → GetPendingWantRecordByKey s (key_of_info info idx) = Some r →
  pw_inv (s <| records ::= alter (update_record info cuid) r |>).
Proof.
  intros Hs Hr. destruct (find_by_key s _ r Hs Hr) as (rec & [Hl E] & Hc).
  apply pw_inv_records; [done|]. intros rec' E'. assert (rec' = rec) as -> by congruence.
  unfold update_record. destruct (last (wsi_allWants info)) as [w|] eqn:Ew.
  - destruct (key_of_info_want info idx w Ew) as [Hw Ht]. split; [done|]. intros _. split; [done|].
    rewrite check_key_spec in Hc |- *. simpl. rewrite Hw, Ht in Hc.
    destruct Hc as (?&?&?&?&?&?&?&?). split_and!; eauto using IsEquals_sym.
  - split; [done|]. intros _. split; [done|]. apply check_key_spec. split_and!; try done.
    apply IsEquals_refl.
Qed.
(** ** Calls *)

Inductive pw_call :=
| PwGet (callingUid uid callingTokenId : Z) (isSystemApp isSaCall : bool) (info : WantSenderInfo)
    (callerToken : option Z) (appIndex : Z)
| PwCancel (isSystemApp isSaCall : bool) (sender : sender_target)
| PwRegister (sender : sender_target) (receiver : option Z)
| PwUnregister (sender : sender_target) (receiver : option Z)
| PwClear (bundleName : string) (uid : Z)
| PwSend (env : SendEnv) (target : sender_target) (info : SenderInfo).

Definition run_pw s (c : pw_call) : outcome PendingWantManager :=
  match c with
  | PwGet cuid uid ctok sys sa info tok idx => Ret (GetWantSender s cuid uid ctok sys sa info tok idx).2
  | PwCancel sys sa sender => Ret (CancelWantSender s sys sa sender).2
  | PwRegister sender receiver => Ret (RegisterCancelListener s sender receiver)
  | PwUnregister sender receiver => Ret (UnregisterCancelListener s sender receiver)
  | PwClear bundleName uid => Ret (ClearPendingWantRecordTask s bundleName uid)
  | PwSend env target info => let* r := SendWantSender env s target info in Ret r.2
  end.

Fixpoint run_pws s (cs : list pw_call) : outcome PendingWantManager :=
  match cs with
  | [] => Ret s
  | c :: cs => let* s' := run_pw s c in run_pws s' cs
  end.

Lemma create_record_next s uid cuid ctok tok k :
  nextRecord (create_record s uid cuid ctok tok k).2 = (nextRecord s + 1)%Z.
Proof. done. Qed.

Lemma GetWantSender_inv s cuid uid ctok sys sa info tok idx :
  pw_inv s → (nextRecord s < INT_MAX)%Z →
  let s' := (GetWantSender s cuid uid ctok sys sa info tok idx).2 in
  pw_inv s' ∧ (nextRecord s' ≤ nextRecord s + 1)%Z.
Proof.
  intros Hs Hw. unfold GetWantSender. destruct (negb _ && _ && _ && _); [simpl; split; [done|lia]|].
  rewrite GetWantSenderLocked_cases. set (k := key_of_info info idx).
  destruct (GetPendingWantRecordByKey s k) as [r|] eqn:Ek.
  - destruct (has_flag (wsi_flags info) CANCEL_PRESENT_FLAG).
    + pose proof (cancel_inv s r Hs) as H1. pose proof (cancel_next s r) as H2.
      pose proof (cancel_not_live s r) as H3. pose proof (cancel_live s r) as H4.
      destruct (CancelWantSenderLocked s r true) as [acts s1]. cbn [snd] in *.
      destruct (has_flag (wsi_flags info) NO_BUILD_FLAG); [cbn; split; [done|lia]|].
      assert (∀ r' rec, live s1 r' rec → CheckPendingWantRecordByKey (key_ rec) k = false) as Hn.
      { intros r' rec Hl. destruct (CheckPendingWantRecordByKey (key_ rec) k) eqn:E; [|done].
        assert (r' ≠ r) as Hne by (intros ->; destruct Hl; done).
        apply H4 in Hl; [|done]. pose proof (find_by_key_unique s k r' rec Hs Hl E). congruence. }
      pose proof (create_inv s1 uid cuid ctok tok k H1 ltac:(lia) Hn) as H5.
      destruct (create_record s1 uid cuid ctok tok k) as [r' s2]. destruct H5 as (H5 & _ & _ & H6 & _).
      cbn [snd]. split; [done|lia].
    + destruct (has_flag (wsi_flags info) UPDATE_PRESENT_FLAG); simpl; (split; [|lia]); [|done].
      by eapply update_inv.
  - destruct (has_flag (wsi_flags info) NO_BUILD_FLAG); [simpl; split; [done|lia]|].
    pose proof (create_inv s uid cuid ctok tok k Hs Hw (find_by_key_None s k Ek)) as H5.
    destruct (create_record s uid cuid ctok tok k) as [r' s2]. destruct H5 as (H5 & _ & _ & H6 & _).
    cbn [snd]. split; [done|lia].
Qed.

Lemma listener_inv s f r :
  pw_inv s → (∀ rec, key_ (f rec) = key_ rec ∧ canceled_ (f rec) = canceled_ rec) →
  pw_inv (s <| records ::= alter f r |>).
Proof.
  intros Hs Hf. apply pw_inv_records; [done|]. intros rec _. destruct (Hf rec) as [-> ->].
  split; [done|]. intros _. split; [done|]. apply check_key_spec. split_and!; try done.
  apply IsEquals_refl.
Qed.

Lemma SendWantSender_inv env s target info res acts s' :
  pw_inv s → SendWantSender env s target info = Ret (res, acts, s') →
  pw_inv s' ∧ nextRecord s' = nextRecord s.
Proof.
  intros Hs H. destruct target as [| |r]; cbn [SendWantSender] in H;
    [by injection H as <- <- <-..|].
  unfold SenderInner in H. destruct (records s !! r) as [rec|]; cbn [deref obind] in H; [|done].
  destruct (canceled_ rec); [by injection H as <- <- <-|].
  destruct (managerAlive env); cbn [negb] in H; [|by injection H as <- <- <-].
  destruct (has_flag (flags_ (key_ rec)) ONE_TIME_FLAG).
  - pose proof (cancel_inv s r Hs) as H1. pose proof (cancel_next s r) as H2.
    destruct (CancelWantSenderLocked s r true) as [acts1 s1].
    destruct (perform _ _ _) as [[res1 acts2]|]; [|done]. by injection H as <- <- <-.
  - destruct (perform _ _ _) as [[res1 acts2]|]; [|done]. by injection H as <- <- <-.
Qed.

Lemma run_pw_inv s c s' :
  pw_inv s → (nextRecord s < INT_MAX)%Z → run_pw s c = Ret s' →
  pw_inv s' ∧ (nextRecord s' ≤ nextRecord s + 1)%Z.
Proof.
  intros Hs Hw. destruct c as [cuid uid ctok sys sa info tok idx|sys sa sender|sender receiver
    |sender receiver|bundleName uid|env target info]; cbn [run_pw].
  - intros [= <-]. by apply GetWantSender_inv.
  - intros [= <-]. unfold CancelWantSender. destruct sender as [| |r]; simpl; try (split; [done|lia]);
      destruct (negb sa && negb sys); simpl; try (split; [done|lia]).
    split; [by apply cancel_inv|]. rewrite cancel_next. lia.
  - intros [= <-]. unfold RegisterCancelListener. destruct receiver as [c|]; [|split; [done|lia]].
    destruct (pointer_of_target s sender); [|split; [done|lia]]. split; [|simpl; lia].
    apply listener_inv; [done|]. intros rec. by destruct (canceled_ rec) eqn:E.
  - intros [= <-]. unfold UnregisterCancelListener. destruct receiver as [c|]; [|split; [done|lia]].
    destruct (pointer_of_target s sender); [|split; [done|lia]]. split; [|simpl; lia].
    by apply listener_inv.
  - intros [= <-]. split; [|simpl; lia]. apply pw_inv_sublist; [done|apply sublist_filter].
  - destruct (SendWantSender env s target info) as [[[res acts] s1]|] eqn:E; [|done].
    intros [= <-]. destruct (SendWantSender_inv _ _ _ _ _ _ _ Hs E) as [H1 H2]. split; [done|lia].
Qed.

Lemma run_pws_inv s cs s' :
  pw_inv s → (nextRecord s + Z.of_nat (length cs) ≤ INT_MAX)%Z → run_pws s cs = Ret s' → pw_inv s'.
Proof.
  revert s. induction cs as [|c cs IH]; intros s Hs Hw; cbn [run_pws]; [by intros [= <-]|].
  simpl in Hw. destruct (run_pw s c) as [s1|] eqn:E; [|done]. cbn [obind]. intros H.
  destruct (run_pw_inv s c s1 Hs ltac:(lia) E) as [H1 H2]. apply (IH s1); [done|lia|done].
Qed.

(** C21: after any sequence of calls the records in force are distinct, not
    cancelled, and no two of them have equal keys: the same application, type,
    requester, request code, resolved type, user and an equal want; every record
    has the code of its creation, so that a code names one record. *)
Theorem pending_wants_unique cs s :
  (Z.of_nat (length cs) ≤ INT_MAX)%Z → run_pws PendingWantManager_new cs = Ret s → pw_inv s.
Proof. intros Hw. apply run_pws_inv; [apply new_pw_inv|done]. Qed.

Lemma live_create_found s uid cuid ctok tok k :
  pw_inv s → (nextRecord s < INT_MAX)%Z →
  (∀ r rec, live s r rec → CheckPendingWantRecordByKey (key_ rec) k = false) →
  let '(r, s') := create_record s uid cuid ctok tok k in
  GetPendingWantRecordByKey s' k = Some r ∧
  ∃ rec, live s' r rec ∧ requestWant_ (key_ rec) = requestWant_ k ∧ callerUid_ rec = cuid ∧
         (r ∉ wantRecords_ s).
Proof.
  intros Hs Hw Hn. pose proof (create_inv s uid cuid ctok tok k Hs Hw Hn) as H.
  destruct (create_record s uid cuid ctok tok k) as [r s'].
  destruct H as (Hs' & Hr & _ & _ & Hl & _). split; [|eexists; split; [exact Hl|done]].
  eapply find_by_key_unique; [done|exact Hl|]. apply check_key_spec. simpl.
  split_and!; try done. apply IsEquals_refl.
Qed.
(** An update keeps the record in force under the key of the request. *)
Lemma update_found s info idx cuid r :
  pw_inv s → GetPendingWantRecordByKey s (key_of_info info idx) = Some r →
  let s' := s <| records ::= alter (update_record info cuid) r |> in
  GetPendingWantRecordByKey s' (key_of_info info idx) = Some r ∧
  ∃ rec, live s r rec ∧ live s' r (update_record info cuid rec).
Proof.
  intros Hs Hr s'. destruct (find_by_key s _ r Hs Hr) as (rec & [Hl E] & Hc).
  assert (live s' r (update_record info cuid rec)) as Hl'.
  { split; [done|]. simpl. by rewrite lookup_alter_eq, E. }
  split; [|by exists rec]. eapply find_by_key_unique; [by eapply update_inv|exact Hl'|].
  rewrite check_key_spec in Hc |- *. unfold update_record.
  destruct (last (wsi_allWants info)) as [w|] eqn:Ew; [|exact Hc].
  destruct (key_of_info_want info idx w Ew) as [Hw Ht]. simpl. rewrite Hw, Ht.
  destruct Hc as (?&?&?&?&?&?&?&?). split_and!; try done. apply IsEquals_refl.
Qed.

Lemma cancel_records s r rec :
  records s !! r = Some rec →
  records (CancelWantSenderLocked s r true).2 !! r = Some (rec <| canceled_ := true |>) ∧
  (CancelWantSenderLocked s r true).1 =
    ((λ cb, CancelSend cb (requestCode_ (key_ rec))) <$> mCancelCallbacks_ rec).
Proof.
  intros E. unfold CancelWantSenderLocked, MakeWantSenderCanceledLocked. rewrite E. simpl.
  by rewrite lookup_insert_eq.
Qed.

Lemma cancel_no_match s k r :
  pw_inv s → GetPendingWantRecordByKey s k = Some r →
  ∀ r' rec, live (CancelWantSenderLocked s r true).2 r' rec →
            CheckPendingWantRecordByKey (key_ rec) k = false.
Proof.
  intros Hs Hk r' rec Hl. destruct (CheckPendingWantRecordByKey (key_ rec) k) eqn:E; [|done].
  assert (r' ≠ r) as Hne by (intros ->; destruct Hl as [Hl _]; by apply cancel_not_live in Hl).
  apply cancel_live in Hl; [|done]. pose proof (find_by_key_unique s k r' rec Hs Hl E). congruence.
Qed.

(** The present record replaced: it is cancelled and out of force, and the new
    one is in force under the key. *)
Lemma cancel_then_create s uid cuid ctok tok k r rec :
  pw_inv s → (nextRecord s < INT_MAX)%Z → GetPendingWantRecordByKey s k = Some r →
  records s !! r = Some rec →
  let s1 := (CancelWantSenderLocked s r true).2 in
  let '(r2, s2) := create_record s1 uid cuid ctok tok k in
  GetPendingWantRecordByKey s2 k = Some r2 ∧
  (∃ rec2, live s2 r2 rec2 ∧ requestWant_ (key_ rec2) = requestWant_ k) ∧
  (r2 ∉ wantRecords_ s) ∧ (r ∉ wantRecords_ s2) ∧
  records s2 !! r = Some (rec <| canceled_ := true |>).
Proof.
  intros Hs Hw Hk E s1. pose proof (cancel_inv s r Hs) as H1. pose proof (cancel_next s r) as H2.
  pose proof (cancel_not_live s r) as H3. pose proof (cancel_no_match s k r Hs Hk) as H4.
  destruct (cancel_records s r rec E) as [H5 _]. fold s1 in H1, H2, H3, H4, H5.
  pose proof (create_inv s1 uid cuid ctok tok k H1 ltac:(lia) H4) as Hc.
  pose proof (live_create_found s1 uid cuid ctok tok k H1 ltac:(lia) H4) as Hf.
  destruct (create_record s1 uid cuid ctok tok k) as [r2 s2] eqn:E2.
  destruct Hc as (Hs2 & _ & Hr2 & _ & _ & Hoth). destruct Hf as (Hf & rec2 & Hl & Hwant & _).
  assert (r ≠ r2) as Hne by (apply (pw_codes s1 H1) in H5 as [? _]; lia).
  split; [done|]. split; [eauto|]. split; [|split].
  - intros Hin. destruct (pw_live s Hs r2 Hin) as (rec' & E' & _).
    apply (pw_codes s Hs) in E' as [? _]. lia.
  - intros Hin. destruct (pw_live s2 Hs2 r Hin) as (rec' & E' & _).
    apply H3. apply (Hoth r rec' Hne). by split.
  - unfold create_record, PendingRecordIdCreate in E2. injection E2 as <- <-. simpl.
    by rewrite lookup_insert_ne.
Qed.

(** C22: without the no-build flag a permitted request returns the record in force
    for its key: the present one, brought up to date when the update flag asks for
    it, or a new one when there is none or the cancel flag was given. With the
    no-build flag it returns the present record or null and creates nothing. The
    cancel flag takes the present record out of force, marks it cancelled and tells
    its listeners. *)
Theorem GetWantSender_flags s cuid uid ctok info tok idx :
  pw_inv s → (nextRecord s < INT_MAX)%Z →
  let k := key_of_info info idx in
  let present := GetPendingWantRecordByKey s k in
  let has := has_flag (wsi_flags info) in
  let '(res, acts, s') := GetWantSenderLocked s cuid uid ctok info tok idx in
  (has NO_BUILD_FLAG = false → GetPendingWantRecordByKey s' k = res ∧
     ∃ r rec, res = Some r ∧ live s' r rec ∧
       if has CANCEL_PRESENT_FLAG || bool_decide (present = None)
       then (r ∉ wantRecords_ s) ∧ requestWant_ (key_ rec) = requestWant_ k
       else present = Some r ∧
            (has UPDATE_PRESENT_FLAG = true → wsi_allWants info ≠ [] →
             requestWant_ (key_ rec) = requestWant_ k ∧ allWantsInfos_ (key_ rec) = wsi_allWants info ∧
             callerUid_ rec = cuid)) ∧
  (has NO_BUILD_FLAG = true → res = present ∧ ∀ r, r ∈ wantRecords_ s' → r ∈ wantRecords_ s) ∧
  (∀ r rec, present = Some r → records s !! r = Some rec → has CANCEL_PRESENT_FLAG = true →
     (r ∉ wantRecords_ s') ∧ (∃ rec', records s' !! r = Some rec' ∧ canceled_ rec' = true) ∧
     acts = ((λ cb, CancelSend cb (requestCode_ (key_ rec))) <$> mCancelCallbacks_ rec)).
Proof.
  intros Hs Hw k present has. rewrite GetWantSenderLocked_cases. cbv zeta. fold k. fold present.
  unfold has. clear has. destruct present as [r|] eqn:Ek; unfold present in Ek.
  - destruct (has_flag (wsi_flags info) CANCEL_PRESENT_FLAG) eqn:Ec.
    + destruct (find_by_key s k r Hs Ek) as (rec & [_ E] & _).
      pose proof (cancel_then_create s uid cuid ctok tok k r rec Hs Hw Ek E) as Hcc.
      pose proof (cancel_not_live s r) as H3. destruct (cancel_records s r rec E) as [H5 H6].
      pose proof (cancel_live s r) as H7. pose proof (pw_live _ (cancel_inv s r Hs)) as H8.
      destruct (CancelWantSenderLocked s r true) as [acts s1]. cbn [fst snd] in *.
      destruct (has_flag (wsi_flags info) NO_BUILD_FLAG) eqn:Eb.
      * split; [done|]. split.
        -- intros _. split; [done|]. intros r' Hr'. destruct (H8 r' Hr') as (rec' & E' & _).
           assert (r' ≠ r) as Hne by (by intros ->). by apply (H7 r' rec' Hne).
        -- intros r' rec' [= <-] Er _. assert (rec' = rec) as -> by congruence.
           split; [done|]. split; [|done]. by exists (rec <| canceled_ := true |>).
      * destruct (create_record s1 uid cuid ctok tok k) as [r2 s2].
        destruct Hcc as (Hf & (rec2 & Hl & Hwant) & Hn2 & Hn & Hr). split; [|split; [done|]].
        -- intros _. split; [done|]. by exists r2, rec2.
        -- intros r' rec' [= <-] Er _. assert (rec' = rec) as -> by congruence.
           split; [done|]. split; [|done]. by exists (rec <| canceled_ := true |>).
    + rewrite (bool_decide_false (Some r = None)) by done. cbn [orb]. split; [|split; [|done]].
      * intros _. destruct (find_by_key s k r Hs Ek) as (rec & Hl & _).
        destruct (update_found s info idx cuid r Hs Ek) as [Hu (rec' & Hl1 & Hl2)].
        assert (rec' = rec) as -> by (destruct Hl, Hl1; congruence).
        destruct (has_flag (wsi_flags info) UPDATE_PRESENT_FLAG); (split; [done|]).
        -- exists r, (update_record info cuid rec). split; [done|]. split; [done|]. split; [done|].
           intros _ Hne. unfold update_record.
           destruct (last (wsi_allWants info)) as [w|] eqn:Ew; [|by apply last_None in Ew].
           destruct (key_of_info_want info idx w Ew) as [Hkw _]. fold k in Hkw. by rewrite Hkw.
        -- exists r, rec. done.
      * intros _. split; [done|]. intros r'. by destruct (has_flag (wsi_flags info) UPDATE_PRESENT_FLAG).
  - destruct (has_flag (wsi_flags info) NO_BUILD_FLAG) eqn:Eb; [done|].
    pose proof (live_create_found s uid cuid ctok tok k Hs Hw (find_by_key_None s k Ek)) as Hf.
    destruct (create_record s uid cuid ctok tok k) as [r2 s2].
    destruct Hf as (Hf & rec2 & Hl & Hwant & _ & Hn). split; [|done].
    intros _. split; [done|]. exists r2, rec2.
    rewrite (bool_decide_true (None = None)), orb_true_r by done. done.
Qed.
(** ** A cancelled record stays cancelled *)

Definition is_canceled s (r : Z) : Prop := ∃ rec, records s !! r = Some rec ∧ canceled_ rec = true.

Lemma alter_canceled s f r r0 :
  (∀ rec, canceled_ rec = true → canceled_ (f rec) = true) →
  is_canceled s r → is_canceled (s <| records ::= alter f r0 |>) r.
Proof.
  intros Hf (rec & E & Hc). unfold is_canceled. simpl. rewrite lookup_alter.
  case_decide; [subst; rewrite E; simpl; eauto|eauto].
Qed.

Lemma cancel_canceled s r r0 : is_canceled s r → is_canceled (CancelWantSenderLocked s r0 true).2 r.
Proof.
  intros (rec & E & Hc). unfold CancelWantSenderLocked, MakeWantSenderCanceledLocked, is_canceled.
  destruct (records s !! r0) as [rec0|] eqn:E0; simpl; [|eauto].
  rewrite lookup_insert. case_decide; [subst; eauto|eauto].
Qed.

Lemma create_canceled s uid cuid ctok tok k r :
  pw_inv s → is_canceled s r → is_canceled (create_record s uid cuid ctok tok k).2 r.
Proof.
  intros Hs (rec & E & Hc). unfold create_record, is_canceled. simpl.
  rewrite lookup_insert_ne; [eauto|]. apply (pw_codes s Hs) in E as [? _]. lia.
Qed.

Lemma GetWantSender_canceled s cuid uid ctok sys sa info tok idx r :
  pw_inv s → is_canceled s r →
  is_canceled (GetWantSender s cuid uid ctok sys sa info tok idx).2 r.
Proof.
  intros Hs Hr. unfold GetWantSender. destruct (negb _ && _ && _ && _); [done|].
  rewrite GetWantSenderLocked_cases. set (k := key_of_info info idx).
  destruct (GetPendingWantRecordByKey s k) as [r0|].
  - destruct (has_flag (wsi_flags info) CANCEL_PRESENT_FLAG).
    + pose proof (cancel_canceled s r r0 Hr) as H1. pose proof (cancel_inv s r0 Hs) as H2.
      destruct (CancelWantSenderLocked s r0 true) as [acts s1]. cbn [snd] in *.
      destruct (has_flag (wsi_flags info) NO_BUILD_FLAG); [done|].
      pose proof (create_canceled s1 uid cuid ctok tok k r H2 H1) as H3.
      by destruct (create_record s1 uid cuid ctok tok k).
    + destruct (has_flag (wsi_flags info) UPDATE_PRESENT_FLAG); [|done].
      apply alter_canceled; [|done]. intros rec Hc. unfold update_record.
      by destruct (last (wsi_allWants info)).
  - destruct (has_flag (wsi_flags info) NO_BUILD_FLAG); [done|].
    pose proof (create_canceled s uid cuid ctok tok k r Hs Hr) as H3.
    by destruct (create_record s uid cuid ctok tok k).
Qed.

Lemma run_pw_canceled s c s' r :
  pw_inv s → run_pw s c = Ret s' → is_canceled s r → is_canceled s' r.
Proof.
  intros Hs H Hr. destruct c as [cuid uid ctok sys sa info tok idx|sys sa sender|sender receiver
    |sender receiver|bundleName uid|env target info]; cbn [run_pw] in H.
  - injection H as <-. by apply GetWantSender_canceled.
  - injection H as <-. unfold CancelWantSender. destruct sender as [| |r0]; [done| |];
      destruct (negb sa && negb sys); try done. by apply cancel_canceled.
  - injection H as <-. unfold RegisterCancelListener. destruct receiver as [c|]; [|done].
    destruct (pointer_of_target s sender); [|done]. apply alter_canceled; [|done].
    intros rec Hc. by rewrite Hc.
  - injection H as <-. unfold UnregisterCancelListener. destruct receiver as [c|]; [|done].
    destruct (pointer_of_target s sender); [|done]. by apply alter_canceled.
  - injection H as <-. done.
  - destruct (SendWantSender env s target info) as [[[res acts] s1]|] eqn:E; [|done].
    injection H as <-. destruct target as [| |r0]; cbn [SendWantSender] in E;
      [by injection E as <- <- <-..|].
    unfold SenderInner in E. destruct (records s !! r0) as [rec|]; cbn [deref obind] in E; [|done].
    destruct (canceled_ rec); [by injection E as <- <- <-|].
    destruct (managerAlive env); cbn [negb] in E; [|by injection E as <- <- <-].
    destruct (has_flag (flags_ (key_ rec)) ONE_TIME_FLAG).
    + pose proof (cancel_canceled s r r0 Hr) as H1.
      destruct (CancelWantSenderLocked s r0 true) as [acts1 s2].
      destruct (perform _ _ _) as [[res1 acts2]|]; [|done]. by injection E as <- <- <-.
    + destruct (perform _ _ _) as [[res1 acts2]|]; [|done]. by injection E as <- <- <-.
Qed.

Lemma run_pws_canceled cs s s' r :
  pw_inv s → (nextRecord s + Z.of_nat (length cs) ≤ INT_MAX)%Z →
  run_pws s cs = Ret s' → is_canceled s r → is_canceled s' r.
Proof.
  revert s. induction cs as [|c cs IH]; intros s Hs Hw; cbn [run_pws]; [by intros [= <-]|].
  simpl in Hw. destruct (run_pw s c) as [s1|] eqn:E; [|done]. cbn [obind]. intros H Hr.
  destruct (run_pw_inv s c s1 Hs ltac:(lia) E) as [H1 H2].
  apply (IH s1); [done|lia|done|]. exact (run_pw_canceled s c s1 r Hs E Hr).
Qed.

Lemma SenderInner_canceled env s r info :
  is_canceled s r →
  SenderInner env s r info =
  Ret (START_CANCELED, notify_finish (finishedReceiver info) aw_default "canceled", s).
Proof. intros (rec & E & Hc). unfold SenderInner. rewrite E. simpl. by rewrite Hc. Qed.

(** C23: a record with the one-time flag is sent at most once: after a send that
    reached its operation, and whatever calls follow, every later send reports the
    cancellation, starts nothing and changes nothing. *)
Theorem one_time_send env env' s r rec info info' res acts s1 cs s2 :
  pw_inv s → (nextRecord s + Z.of_nat (length cs) ≤ INT_MAX)%Z →
  records s !! r = Some rec → has_flag (flags_ (key_ rec)) ONE_TIME_FLAG = true →
  managerAlive env = true → SenderInner env s r info = Ret (res, acts, s1) →
  run_pws s1 cs = Ret s2 →
  SenderInner env' s2 r info' =
  Ret (START_CANCELED, notify_finish (finishedReceiver info') aw_default "canceled", s2).
Proof.
  intros Hs Hw E Hf Ha H Hcs. apply SenderInner_canceled.
  assert (SendWantSender env s (LocalSender r) info = Ret (res, acts, s1)) as Hsend by exact H.
  destruct (SendWantSender_inv _ _ _ _ _ _ _ Hs Hsend) as [Hs1 Hn].
  apply (run_pws_canceled cs s1); [done|lia|done|].
  unfold SenderInner in H. rewrite E in H. cbn [deref obind] in H.
  destruct (canceled_ rec) eqn:Ec; [injection H as <- <- <-; by exists rec|].
  rewrite Ha, Hf in H. cbn [negb] in H. destruct (cancel_records s r rec E) as [H1 _].
  destruct (CancelWantSenderLocked s r true) as [acts1 s3].
  destruct (perform _ _ _) as [[res1 acts2]|]; [|done]. injection H as <- <- <-.
  by exists (rec <| canceled_ := true |>).
Qed.

(** The want that is sent has the parameters of the record's want, the
    sender's under the other keys, and the clone index of the record; the constant
    flag keeps the flags out of the want but not the sender's parameters. *)
Theorem BuildSendWant_params k info key :
  let own := aw_GetParams (if decide (allWantsInfos_ k = []) then aw_default else requestWant_ k) in
  aw_GetParams (BuildSendWant k info) !! key =
  if decide (key = APP_CLONE_INDEX) then Some (aw_Box (appIndex_ k))
  else match own !! key with
       | Some v => Some v
       | None => aw_GetParams (si_want info) !! key
       end.
Proof.
  intros own. unfold BuildSendWant, merge_params. rewrite GetParams_SetParams, lookup_insert.
  destruct (decide (key = APP_CLONE_INDEX)) as [->|Hne]; [by rewrite decide_True|].
  rewrite decide_False by done.
  assert (aw_GetParams (if has_flag (flags_ k) CONSTANT_FLAG
            then (if decide (allWantsInfos_ k = []) then aw_default else requestWant_ k)
            else aw_AddFlags (flags_ k) (if decide (allWantsInfos_ k = []) then aw_default else requestWant_ k))
          = own) as ->.
  { unfold own. destruct (has_flag (flags_ k) CONSTANT_FLAG); [done|]. apply GetParams_AddFlags. }
  rewrite lookup_union. by destruct (own !! key), (aw_GetParams (si_want info) !! key).
Qed.

(** A send of a record is undefined exactly when it reaches the start of
    several abilities for a record without wants. *)
Theorem SenderInner_defined env s r rec info :
  records s !! r = Some rec →
  SenderInner env s r info = Undef ↔
  canceled_ rec = false ∧ managerAlive env = true ∧ type_ (key_ rec) = START_ABILITIES ∧
  allWantsInfos_ (key_ rec) = [].
Proof.
  intros E. unfold SenderInner. rewrite E. cbn [deref obind].
  destruct (canceled_ rec); [split; [done|]; by intros [? _]|].
  destruct (managerAlive env); cbn [negb]; [|split; [done|]; by intros (_ & ? & _)].
  assert (∀ want, perform env (key_ rec) want = Undef ↔
            type_ (key_ rec) = START_ABILITIES ∧ allWantsInfos_ (key_ rec) = []) as Hp.
  { intros want. unfold perform, set_back_want.
    destruct (Z.eqb_spec (type_ (key_ rec)) START_ABILITY) as [->|]; [by split; [|intros []]|].
    destruct (Z.eqb_spec (type_ (key_ rec)) START_ABILITIES) as [->|].
    - destruct (last (allWantsInfos_ (key_ rec))) eqn:El; simpl.
      + split; [done|]. intros [_ Hn]. by rewrite Hn in El.
      + split; [|done]. intros _. split; [done|]. by apply last_None.
    - destruct (_ || _); [naive_solver|]. destruct (_ =? _)%Z; naive_solver. }
  destruct (if has_flag _ _ then _ else _) as [acts s1].
  specialize (Hp (BuildSendWant (key_ rec) info)).
  destruct (perform env (key_ rec) (BuildSendWant (key_ rec) info)) as [[res acts']|]; cbn [obind].
  - split; [done|]. intros (_ & _ & H). by apply Hp in H.
  - split; [|done]. intros _. split; [done|]. split; [done|]. by apply Hp.
Qed.
End KeyEquality.

(** ** A concrete library, for the witnesses *)

Module SampleAgent.

(** Wants with a bundle and parameters, equal when their bundles are. *)
Record SWant := mkSWant { sw_bundle : string; sw_params : gmap string Z; sw_flags : Z }.

Definition sample_agent : AgentWantLib :=
  {| AWant := SWant; AParam := Z; aw_default := mkSWant "" ∅ 0;
     aw_IsEquals := λ w w', String.eqb (sw_bundle w) (sw_bundle w');
     aw_GetBundle := sw_bundle; aw_GetDeviceID := λ _, "";
     aw_AddFlags := λ f w, mkSWant (sw_bundle w) (sw_params w) (Z.lor f (sw_flags w));
     aw_GetParams := sw_params;
     aw_SetParams := λ m w, mkSWant (sw_bundle w) m (sw_flags w); aw_Box := λ z, z |}.

Lemma sample_agent_laws : AgentWantLaws sample_agent.
Proof.
  split; simpl; try done; intros *; rewrite ?String.eqb_eq; congruence.
Qed.

Definition sample_info (flags : Z) : @WantSenderInfo sample_agent :=
  @mkWantSenderInfo sample_agent START_ABILITY "app" "who" 7
    [@mkWantsInfo sample_agent (mkSWant "target" ∅ 0) "type"] flags 100.

Definition sample_env : @SendEnv sample_agent :=
  @mkEnv sample_agent true true "local" true (λ _, ERR_OK) (λ _, ERR_OK) (λ _, true).

Definition sample_send : @SenderInfo sample_agent :=
  @mkSenderInfo sample_agent 1 (mkSWant "" ∅ 0) (Some 3%Z).

Definition sample_get (flags : Z) : @pw_call sample_agent :=
  @PwGet sample_agent 20 20 5 false false (sample_info flags) None 0.

Definition after_gets (flags : Z) : @PendingWantManager sample_agent :=
  match run_pws PendingWantManager_new [sample_get flags] with
  | Ret s => s
  | Undef => PendingWantManager_new
  end.

Lemma after_gets_inv flags : @pw_inv sample_agent (after_gets flags).
Proof.
  unfold after_gets. destruct (run_pws PendingWantManager_new [sample_get flags]) as [s|] eqn:E;
    [|apply new_pw_inv].
  apply (@run_pws_inv _ sample_agent_laws _ _ _ new_pw_inv) with (2 := E).
  vm_compute. discriminate.
Qed.

Lemma pending_wants_unique_witness : @pw_inv sample_agent (after_gets 0).
Proof.
  apply (@pending_wants_unique _ sample_agent_laws [sample_get 0]).
  - vm_compute. discriminate.
  - vm_compute. reflexivity.
Defined.

Lemma GetWantSender_flags_witness :
  (GetWantSenderLocked (after_gets 0) 20 20 5 (sample_info CANCEL_PRESENT_FLAG) None 0).1.1 = Some 1%Z ∧
  GetPendingWantRecordByKey
    (GetWantSenderLocked (after_gets 0) 20 20 5 (sample_info CANCEL_PRESENT_FLAG) None 0).2
    (key_of_info (sample_info CANCEL_PRESENT_FLAG) 0) = Some 1%Z.
Proof.
  split; [vm_compute; reflexivity|].
  pose proof (@GetWantSender_flags _ sample_agent_laws (after_gets 0) 20 20 5
                (sample_info CANCEL_PRESENT_FLAG) None 0 (after_gets_inv 0)) as H.
  specialize (H ltac:(vm_compute; reflexivity)). cbv zeta in H.
  assert ((GetWantSenderLocked (after_gets 0) 20 20 5 (sample_info CANCEL_PRESENT_FLAG) None 0).1.1
          = Some 1%Z) as E by (vm_compute; reflexivity).
  destruct (GetWantSenderLocked (after_gets 0) 20 20 5 (sample_info CANCEL_PRESENT_FLAG) None 0)
    as [[res acts] s']. simpl in E. subst res. destruct H as [H _]. by destruct H.
Defined.

Lemma one_time_send_witness :
  let s := after_gets ONE_TIME_FLAG in
  match SenderInner sample_env s 0 sample_send with
  | Ret (res, acts, s1) =>
      acts ≠ [] ∧
      SenderInner sample_env s1 0 sample_send =
      Ret (START_CANCELED, [PerformReceive (AL := sample_agent) 3 (mkSWant "" ∅ 0) "canceled"], s1)
  | Undef => False
  end.
Proof.
  intros s. destruct (records s !! 0%Z) as [rec|] eqn:Er; [|by vm_compute in Er].
  assert (has_flag (flags_ (key_ rec)) ONE_TIME_FLAG = true) as Hf
    by (vm_compute in Er; injection Er as <-; vm_compute; reflexivity).
  destruct (SenderInner sample_env s 0 sample_send) as [[[res acts] s1]|] eqn:E;
    [|by vm_compute in E].
  split; [intros ->; vm_compute in E; discriminate E|].
  exact (@one_time_send _ sample_agent_laws sample_env sample_env s 0 rec sample_send sample_send
           res acts s1 [] s1 (after_gets_inv _) ltac:(vm_compute; discriminate) Er Hf eq_refl E eq_refl).
Defined.

Lemma BuildSendWant_params_witness :
  let k := key_of_info (sample_info CONSTANT_FLAG) 4 in
  let sent := @mkSenderInfo sample_agent 1 (mkSWant "" {["x" := 9%Z]} 0) None in
  @aw_GetParams sample_agent (BuildSendWant k sent) !! "x" = Some 9%Z.
Proof.
  intros k sent. etrans; [exact (@BuildSendWant_params _ sample_agent_laws k sent "x")|].
  vm_compute. reflexivity.
Defined.

Lemma SenderInner_defined_witness :
  SenderInner sample_env
    (@mkPwm sample_agent [0%Z]
       {[0%Z := @mkRecord sample_agent 1 1 1 None false
                  (SetType START_ABILITIES (@PendingWantKey_new sample_agent)) []]} 1 1)
    0 sample_send = Undef.
Proof.
  eapply (SenderInner_defined (AL := sample_agent)); [vm_compute; reflexivity|].
  vm_compute. done.
Defined.
End SampleAgent.

