(* ===== verification/TaskHandler.v ===== *)
(** * Delayed tasks and events

    [services/common/src/task_handler_wrap.cpp], [queue_task_handler_wrap.cpp],
    [ffrt_task_handler_wrap.cpp] and [event_handler_wrap.cpp]: tasks submitted to
    the FFRT scheduler, cancelled through their handle or by name, and events,
    which are tasks recorded under the identifier and parameter of the event.

    A status cell and an inner handle are shared objects, named by addresses drawn
    from a counter. A closure is data: [JUser] for the client's closure, [JClear]
    for the task that forgets a name, [JEvent] for the closure of an event. FFRT is
    outside the repository: the tasks it holds are [pending], it may start any of
    them at any time ([StartTask]), and what its cancellation answers is the
    parameter [ffrt_cancel]. *)

From stdpp Require Import prelude gmap strings list pretty.
From Stdlib Require Import ZArith Lia.
From S2P Require Import Prelude.

Abbreviation Ptr := positive (only parsing).

Inductive TaskStatus := PENDING | EXECUTING | FINISHED | CANCELED.

#[global] Instance TaskStatus_eq_dec : EqDecision TaskStatus.
Proof. solve_decision. Defined.

Inductive TaskQoS :=
  INHERENT | BACKGROUND | UTILITY | DEFAULT | USER_INITIATED | DEADLINE_REQUEST | USER_INTERACTIVE.

#[global] Instance TaskQoS_eq_dec : EqDecision TaskQoS.
Proof. solve_decision. Defined.

Record TaskAttribute := mkTaskAttribute {
  taskName_ : string;
  delayMillis_ : Z;
  taskQos_ : TaskQoS;
}.

Definition TaskAttribute_IsDefault (a : TaskAttribute) : bool :=
  (delayMillis_ a <=? 0)%Z && bool_decide (taskName_ a = "") && bool_decide (taskQos_ a = DEFAULT).

(** The attributes FFRT is given: [None] is an attribute left unset. *)
Inductive ffrt_qos :=
  qos_inherit | qos_background | qos_utility | qos_default | qos_user_initiated
| qos_deadline_request | qos_user_interactive.

Record ffrt_task_attr := mkFfrtAttr {
  ffrt_delay : option Z;
  ffrt_name : option string;
  ffrt_qos_ : option ffrt_qos;
}.

#[global] Instance ffrt_task_attr_reconstruct : Reconstruct ffrt_task_attr := λ a,
  mkFfrtAttr (ffrt_delay a) (ffrt_name a) (ffrt_qos_ a).

Definition MILL_TO_MICRO : Z := 1000.

Definition Convert2FfrtQos (q : TaskQoS) : ffrt_qos :=
  match q with
  | INHERENT => qos_inherit
  | BACKGROUND => qos_background
  | UTILITY => qos_utility
  | DEFAULT => qos_default
  | USER_INITIATED => qos_user_initiated
  | DEADLINE_REQUEST => qos_deadline_request
  | USER_INTERACTIVE => qos_user_interactive
  end.

Definition BuildFfrtTaskAttr (a : TaskAttribute) (r : ffrt_task_attr) : ffrt_task_attr :=
  let r := if (0 <? delayMillis_ a)%Z
           then r <| ffrt_delay := Some (delayMillis_ a * MILL_TO_MICRO)%Z |> else r in
  let r := if bool_decide (taskName_ a = "") then r
           else r <| ffrt_name := Some (taskName_ a) |> in
  if bool_decide (taskQos_ a = DEFAULT) then r
  else r <| ffrt_qos_ := Some (Convert2FfrtQos (taskQos_ a)) |>.

Record TaskHandle := mkHandle {
  handler_ : bool;                  (* the weak pointer refers to a live handler *)
  innerTaskHandle_ : option Ptr;
  status_ : option Ptr;
}.

#[global] Instance TaskHandle_eq_dec : EqDecision TaskHandle.
Proof. solve_decision. Defined.

Definition TaskHandle_null : TaskHandle := mkHandle false None None.

(** [TaskHandle::IsSame] compares the inner handles. *)
Definition TaskHandle_IsSame (a b : TaskHandle) : bool :=
  bool_decide (innerTaskHandle_ a = innerTaskHandle_ b).

(** [EventWrap]; its data object is what identifies it. *)
Record EventWrap := mkEvent {
  eventId_ : Z;
  param_ : Z;
  eventData_ : Ptr;
  eventTask_ : TaskHandle;
}.

#[global] Instance EventWrap_reconstruct : Reconstruct EventWrap := λ e,
  mkEvent (eventId_ e) (param_ e) (eventData_ e) (eventTask_ e).

#[global] Instance EventWrap_eq_dec : EqDecision EventWrap.
Proof. solve_decision. Defined.

Definition GetEventString (e : EventWrap) : string :=
  pretty (eventId_ e) +:+ "_" +:+ pretty (param_ e).

Definition EventWrap_IsSame (a b : EventWrap) : bool :=
  bool_decide (eventData_ a = eventData_ b).

Inductive Job (T : Type) :=
| JUser (t : T)
| JClear (name : string) (taskHandle : TaskHandle)
| JEvent (event : EventWrap).
Arguments JUser {T} _.
Arguments JClear {T} _ _.
Arguments JEvent {T} _.

(** The wrapped task given to FFRT: the status cell it updates, what it runs, and
    the attributes, [None] when it is submitted without any. *)
Record Work (T : Type) := mkWork {
  w_status : Ptr;
  w_job : Job T;
  w_attr : option ffrt_task_attr;
}.
Arguments mkWork {T} _ _ _.
Arguments w_status {T} _.
Arguments w_job {T} _.
Arguments w_attr {T} _.

(** A task handler, with the tasks FFRT holds for it. *)
Record TaskHandlerWrap (T : Type) := mkHandler {
  tasks_ : gmap string TaskHandle;
  cells : gmap Ptr TaskStatus;
  pending : gmap Ptr (Work T);
  running : gmap Ptr (Work T);
  fresh_ptr : Ptr;
}.
Arguments mkHandler {T} _ _ _ _ _.
Arguments tasks_ {T} _.
Arguments cells {T} _.
Arguments pending {T} _.
Arguments running {T} _.
Arguments fresh_ptr {T} _.

#[global] Instance TaskHandlerWrap_reconstruct {T} : Reconstruct (TaskHandlerWrap T) := λ h,
  mkHandler (tasks_ h) (cells h) (pending h) (running h) (fresh_ptr h).

Definition TaskHandlerWrap_new {T} : TaskHandlerWrap T := mkHandler ∅ ∅ ∅ ∅ 1%positive.

Section Handler.
Context {T : Type}.
Implicit Types (h : TaskHandlerWrap T) (th : TaskHandle) (job : Job T).

(** What FFRT answers when asked to cancel a task it may hold. *)
Variable ffrt_cancel : gmap Ptr (Work T) → Ptr → bool.

(** [SubmitTaskInner] of both handlers: a new inner handle for the task. *)
Definition SubmitTaskInner h (st : Ptr) job (attr : TaskAttribute) : TaskHandlerWrap T * Ptr :=
  let i := fresh_ptr h in
  let a := if TaskAttribute_IsDefault attr then None
           else Some (BuildFfrtTaskAttr attr (mkFfrtAttr None None None)) in
  (h <| pending ::= <[i := mkWork st job a]> |> <| fresh_ptr := Pos.succ i |>, i).

Definition CancelTaskInner h (i : option Ptr) : TaskHandlerWrap T * bool :=
  match i with
  | None => (h, false)
  | Some i => if ffrt_cancel (pending h) i then (h <| pending ::= delete i |>, true) else (h, false)
  end.

(** [SubmitTask(task, taskAttr)]; [None] is an empty [std::function]. *)
Definition SubmitTask h (task : option (Job T)) (attr : TaskAttribute)
  : TaskHandlerWrap T * TaskHandle :=
  match task with
  | None => (h, TaskHandle_null)
  | Some job =>
      let st := fresh_ptr h in
      let h := h <| cells ::= <[st := PENDING]> |> <| fresh_ptr := Pos.succ st |> in
      let '(h, i) := SubmitTaskInner h st job attr in
      (h, mkHandle true (Some i) (Some st))
  end.

(** The overloads that fill in an attribute. *)
Definition SubmitTask_plain h (task : option (Job T)) :=
  SubmitTask h task (mkTaskAttribute "" 0 DEFAULT).
Definition SubmitTask_name h (task : option (Job T)) (name : string) :=
  SubmitTask h task (mkTaskAttribute name 0 DEFAULT).
Definition SubmitTask_delay h (task : option (Job T)) (delayMillis : Z) :=
  SubmitTask h task (mkTaskAttribute "" delayMillis DEFAULT).
Definition SubmitTask_qos h (task : option (Job T)) (taskQos : TaskQoS) :=
  SubmitTask h task (mkTaskAttribute "" 0 taskQos).
Definition SubmitTaskJust h (task : option (Job T)) (name : string) (delayMillis : Z) :=
  SubmitTask h task (mkTaskAttribute name delayMillis DEFAULT).

(** [SubmitTask(task, name, delayMillis, forceSubmit)] *)
Definition SubmitTask_named h (task : option (Job T)) (name : string) (delayMillis : Z)
    (forceSubmit : bool) : TaskHandlerWrap T * TaskHandle :=
  let attr := mkTaskAttribute name delayMillis DEFAULT in
  match tasks_ h !! name with
  | Some _ => if forceSubmit then SubmitTask h task attr else (h, TaskHandle_null)
  | None =>
      let '(h, result) := SubmitTask h task attr in
      let h := h <| tasks_ ::= <[name := result]> |> in
      let '(h, _) := SubmitTask_delay h (Some (JClear name result)) delayMillis in
      (h, result)
  end.

(** [TaskHandle::Cancel], called on the handler the handle refers to. *)
Definition Cancel h th : TaskHandlerWrap T * bool :=
  match status_ th, handler_ th, innerTaskHandle_ th with
  | Some st, true, Some i =>
      if bool_decide (cells h !! st = Some PENDING) then
        let '(h, ret) := CancelTaskInner h (Some i) in
        (h <| cells ::= <[st := CANCELED]> |>, ret)
      else (h, false)
  | _, _, _ => (h, false)
  end.

(** [TaskHandle::Sync]: the inner handle to wait for, if any. *)
Definition Sync h th : option Ptr :=
  match status_ th, handler_ th, innerTaskHandle_ th with
  | Some st, true, Some i =>
      match cells h !! st with
      | Some FINISHED | Some CANCELED => None
      | _ => Some i
      end
  | _, _, _ => None
  end.

Definition CancelTask h (name : string) : TaskHandlerWrap T * bool :=
  match tasks_ h !! name with
  | None => (h, false)
  | Some taskHandle => Cancel (h <| tasks_ ::= delete name |>) taskHandle
  end.

Definition RemoveTask h (name : string) (taskHandle : TaskHandle) : TaskHandlerWrap T * bool :=
  match tasks_ h !! name with
  | None => (h, false)
  | Some th =>
      if TaskHandle_IsSame th taskHandle then (h <| tasks_ ::= delete name |>, true)
      else (h, false)
  end.

(** FFRT starts a task it holds: the wrapper marks it, and the task that clears a
    name does so. The task of a client or of an event is the caller's to run. *)
Definition StartTask h (i : Ptr) : TaskHandlerWrap T * option (Job T) :=
  match pending h !! i with
  | None => (h, None)
  | Some w =>
      let h := h <| pending ::= delete i |> <| running ::= <[i := w]> |>
                 <| cells ::= <[w_status w := EXECUTING]> |> in
      match w_job w with
      | JClear name th => ((RemoveTask h name th).1, Some (w_job w))
      | _ => (h, Some (w_job w))
      end
  end.

(** The end of the wrapper of a task that runs. *)
Definition FinishTask h (i : Ptr) : TaskHandlerWrap T :=
  match running h !! i with
  | None => h
  | Some w => h <| running ::= delete i |> <| cells ::= <[w_status w := FINISHED]> |>
  end.
End Handler.

(** ** Runs of a handler

    A run interleaves the calls of clients, which hold the handles they were
    given, with the scheduler. The log keeps the tasks that were started and those
    whose cancellation succeeded. *)

Inductive HCall (T : Type) :=
| HSubmit (task : option (Job T)) (attr : TaskAttribute)
| HSubmitNamed (task : option (Job T)) (name : string) (delayMillis : Z) (forceSubmit : bool)
| HCancelTask (name : string)
| HCancel (nth_issued : nat)
| HStart (i : Ptr)
| HFinish (i : Ptr).
Arguments HSubmit {T} _ _.
Arguments HSubmitNamed {T} _ _ _ _.
Arguments HCancelTask {T} _.
Arguments HCancel {T} _.
Arguments HStart {T} _.
Arguments HFinish {T} _.

Inductive HEvent := Started (i : Ptr) | Cancelled (i : Ptr).

Definition event_task (e : HEvent) : Ptr :=
  match e with Started i | Cancelled i => i end.

Record HState (T : Type) := mkHState {
  hs_handler : TaskHandlerWrap T;
  hs_issued : list TaskHandle;
  hs_log : list HEvent;
}.
Arguments mkHState {T} _ _ _.
Arguments hs_handler {T} _.
Arguments hs_issued {T} _.
Arguments hs_log {T} _.

Section Runs.
Context {T : Type}.
Implicit Types (h : TaskHandlerWrap T) (th : TaskHandle) (s : HState T).
Variable ffrt_cancel : gmap Ptr (Work T) → Ptr → bool.

(** The log entry of a cancellation that reported [ok]. *)
Definition log_cancel (th : TaskHandle) (ok : bool) : list HEvent :=
  match innerTaskHandle_ th with
  | Some i => if ok then [Cancelled i] else []
  | None => []
  end.

Definition hstep s (c : HCall T) : HState T :=
  let h := hs_handler s in
  match c with
  | HSubmit task attr =>
      let '(h, th) := SubmitTask h task attr in
      mkHState h (hs_issued s ++ [th]) (hs_log s)
  | HSubmitNamed task name d f =>
      let '(h, th) := SubmitTask_named h task name d f in
      mkHState h (hs_issued s ++ [th]) (hs_log s)
  | HCancelTask name =>
      let '(h', ok) := CancelTask ffrt_cancel h name in
      mkHState h' (hs_issued s)
        (hs_log s ++ log_cancel (default TaskHandle_null (tasks_ h !! name)) ok)
  | HCancel n =>
      let th := default TaskHandle_null (hs_issued s !! n) in
      let '(h, ok) := Cancel ffrt_cancel h th in
      mkHState h (hs_issued s) (hs_log s ++ log_cancel th ok)
  | HStart i =>
      match StartTask h i with
      | (h, Some _) => mkHState h (hs_issued s) (hs_log s ++ [Started i])
      | (h, None) => mkHState h (hs_issued s) (hs_log s)
      end
  | HFinish i => mkHState (FinishTask h i) (hs_issued s) (hs_log s)
  end.

Definition hrun s (cs : list (HCall T)) : HState T := foldl hstep s cs.

Definition HState_new : HState T := mkHState TaskHandlerWrap_new [] [].

(** ** The invariant of a handler *)

(** The inner handle of a task is allocated right after its status cell. *)
Record work_inv_in (cs : gmap Ptr TaskStatus) (fr i : Ptr) (w : Work T) (st : TaskStatus)
  : Prop := {
  wi_cell : i = Pos.succ (w_status w);
  wi_old : (i < fr)%positive;
  wi_status : cs !! w_status w = Some st;
}.

Definition work_inv h : Ptr → Work T → TaskStatus → Prop := work_inv_in (cells h) (fresh_ptr h).

Definition handle_inv h th : Prop :=
  th = TaskHandle_null ∨
  ∃ c, th = mkHandle true (Some (Pos.succ c)) (Some c) ∧ (Pos.succ c < fresh_ptr h)%positive ∧
       (cells h !! c = Some PENDING → is_Some (pending h !! Pos.succ c)).

Record HInv h (issued : list TaskHandle) (log : list HEvent) : Prop := {
  hi_pending : ∀ i w, pending h !! i = Some w → work_inv h i w PENDING;
  hi_running : ∀ i w, running h !! i = Some w → work_inv h i w EXECUTING;
  hi_issued : ∀ th, th ∈ issued → handle_inv h th;
  hi_tasks : ∀ name th, tasks_ h !! name = Some th → th ∈ issued;
  hi_log_old : ∀ e, e ∈ log → (event_task e < fresh_ptr h)%positive;
  hi_log_gone : ∀ e, e ∈ log → pending h !! event_task e = None;
  hi_log_once : NoDup (event_task <$> log);
}.

(** Cancellation succeeds only on a task FFRT holds, respectively exactly then. *)
Hypothesis ffrt_cancel_spec : ∀ p i, ffrt_cancel p i = true ↔ is_Some (p !! i).

Lemma HInv_new : HInv TaskHandlerWrap_new [] [].
Proof.
  split; cbn -[lookup]; try (intros ??; rewrite lookup_empty; done);
    try (intros ? []%not_elem_of_nil); constructor.
Qed.

(** A new task leaves what is known of the others. *)
Lemma SubmitTask_inv h issued log task attr h' th :
  HInv h issued log → SubmitTask h task attr = (h', th) →
  HInv h' (issued ++ [th]) log ∧ HInv h' issued log ∧ tasks_ h' = tasks_ h.
Proof.
  intros HI. destruct task as [job|]; cbn -[lookup insert]; intros [= <- <-].
  2: { assert (HInv h (issued ++ [TaskHandle_null]) log) as H; [|done].
       destruct HI. split; try done.
       - intros th [?| ->%list_elem_of_singleton]%elem_of_app; [auto|by left].
       - intros n th Hn. apply elem_of_app. left. eauto. }
  set (st := fresh_ptr h).
  match goal with |- HInv ?x _ _ ∧ _ => set (h' := x) end.
  assert (∀ i w x, (i < fresh_ptr h)%positive → work_inv h i w x → work_inv h' i w x) as Hold.
  { intros i w x _ [-> Hlt Hc]. split; [done|cbn; subst st; lia|].
    cbn -[lookup insert]. rewrite lookup_insert_ne by (subst st; lia). done. }
  assert (HInv h' issued log) as HI'.
  { destruct HI as [Hp Hr Hi Ht Hlo Hlg Hl]. split; cbn -[lookup insert]; try done.
    - intros i w [[<- <-]|[Hne Hi']]%lookup_insert_Some.
      + split; cbn -[lookup insert]; [done|subst st; lia|by rewrite lookup_insert_eq].
      + apply Hold; [apply (Hp i w Hi')|auto].
    - intros i w Hi'. apply Hold; [apply (Hr i w Hi')|auto].
    - intros th [->|(c & -> & Hlt & Hc)]%Hi; [by left|]. right. exists c.
      split_and!; [done|cbn; subst st; lia|]. cbn -[lookup insert].
      rewrite !lookup_insert_ne by (subst st; lia). done.
    - intros e He. specialize (Hlo e He). subst st. lia.
    - intros e He. specialize (Hlo e He). rewrite lookup_insert_ne by (subst st; lia). auto. }
  split_and!; [|done|done]. destruct HI' as [Hp Hr Hi Ht Hlo Hlg Hl].
  split; try done.
  - intros th [?| ->%list_elem_of_singleton]%elem_of_app; [auto|]. right. exists st.
    split_and!; [done|cbn; subst st; lia|]. cbn -[lookup insert]. intros _.
    eexists. apply lookup_insert_eq.
  - intros n th Hn. apply elem_of_app. left. eauto.
Qed.

Lemma HInv_tasks h issued log (m : gmap string TaskHandle) :
  (∀ name th, m !! name = Some th → th ∈ issued) →
  HInv h issued log → HInv (h <| tasks_ := m |>) issued log.
Proof. intros Hm []. split; assumption. Qed.

Lemma HInv_forget h issued log name :
  HInv h issued log → HInv (h <| tasks_ ::= delete name |>) issued log.
Proof.
  intros HI. apply (HInv_tasks h issued log (delete name (tasks_ h))); [|done].
  intros n th [_ Hn]%lookup_delete_Some. eapply hi_tasks; eauto.
Qed.

Lemma SubmitTask_named_inv h issued log task name d f h' th :
  HInv h issued log → SubmitTask_named h task name d f = (h', th) →
  HInv h' (issued ++ [th]) log.
Proof.
  intros HI. unfold SubmitTask_named. case_match eqn:Hn.
  - destruct f; [intros E; by eapply SubmitTask_inv in E as [? _]|].
    intros [= <- <-].
    by apply (SubmitTask_inv h issued log None (mkTaskAttribute "" 0 DEFAULT)).
  - destruct (SubmitTask h task _) as [h1 th1] eqn:E1.
    destruct (SubmitTask_delay _ _ d) as [h2 th2] eqn:E2. intros [= <- <-].
    apply (SubmitTask_inv _ issued log) in E1 as (H1 & _ & Ht); [|done].
    unfold SubmitTask_delay in E2.
    eapply SubmitTask_inv in E2 as (_ & ? & _); [done|].
    apply (HInv_tasks h1 _ log (<[name:=th1]> (tasks_ h1))); [|done].
    intros n x [[_ <-]|[_ Hx]]%lookup_insert_Some;
      [apply elem_of_app; right; by apply list_elem_of_singleton|].
    eapply hi_tasks; eauto.
Qed.

(** A cancellation succeeds exactly when FFRT still holds the task, and takes it. *)
Lemma Cancel_inv h issued log th h' ok :
  HInv h issued log → handle_inv h th → Cancel ffrt_cancel h th = (h', ok) →
  HInv h' issued (log ++ log_cancel th ok) ∧ tasks_ h' = tasks_ h ∧
  (ok = true ↔ ∃ i, innerTaskHandle_ th = Some i ∧ is_Some (pending h !! i)) ∧
  (∀ i, innerTaskHandle_ th = Some i → pending h' !! i = None).
Proof.
  intros HI [->|(c & -> & Hlt & Hc)]; unfold Cancel, log_cancel; cbn -[lookup insert delete].
  { intros [= <- <-]. rewrite app_nil_r. split_and!; try done. split; [done|intros (? & ? & _); done]. }
  case_bool_decide as Hst.
  - specialize (Hc Hst) as [w Hw].
    rewrite (proj2 (ffrt_cancel_spec (pending h) (Pos.succ c)) (ex_intro _ w Hw)).
    intros [= <- <-]. destruct HI as [Hp Hr Hi Ht Hlo Hlg Hl]. split_and!.
    + split; cbn -[lookup insert delete]; try done.
      * intros i w' [Hne Hw']%lookup_delete_Some. destruct (Hp i w' Hw') as [-> ? Hs].
        split; [done|done|]. cbn -[lookup insert delete]. rewrite lookup_insert_ne by congruence. done.
      * intros i w' Hw'. destruct (Hr i w' Hw') as [-> ? Hs].
        split; [done|done|]. cbn -[lookup insert delete].
        rewrite lookup_insert_ne by congruence. done.
      * intros th [->|(c' & -> & Hlt' & Hc')]%Hi; [by left|]. right. exists c'.
        split_and!; [done|done|]. cbn -[lookup insert delete]. intros H.
        assert (c ≠ c') by (intros ->; rewrite lookup_insert_eq in H; done).
        rewrite lookup_insert_ne in H by done. rewrite lookup_delete_ne by lia. auto.
      * intros e [He| ->%list_elem_of_singleton]%elem_of_app; [auto|done].
      * intros e [He| ->%list_elem_of_singleton]%elem_of_app; [|apply lookup_delete_eq].
        apply lookup_delete_None. auto.
      * rewrite fmap_app. apply NoDup_app. split_and!; [done| |apply NoDup_singleton].
        intros x (e & -> & He)%list_elem_of_fmap. cbn -[lookup].
        rewrite list_elem_of_singleton. intros E. specialize (Hlg e He). rewrite E in Hlg. congruence.
    + done.
    + split; [intros _; eauto|done].
    + intros i [= <-]. cbn -[lookup delete]. apply lookup_delete_eq.
  - intros [= <- <-]. rewrite app_nil_r. split_and!; [done|done| |].
    + split; [done|]. intros (i & [= <-] & w & Hw). exfalso. apply Hst.
      destruct (hi_pending _ _ _ HI _ w Hw) as [E ? Hs].
      apply Pos.succ_inj in E. congruence.
    + intros i [= <-]. destruct (pending h !! Pos.succ c) as [w|] eqn:Hw; [|done]. exfalso. apply Hst.
      destruct (hi_pending _ _ _ HI _ w Hw) as [E ? Hs].
      apply Pos.succ_inj in E. congruence.
Qed.

Lemma CancelTask_inv h issued log name h' ok :
  HInv h issued log → CancelTask ffrt_cancel h name = (h', ok) →
  HInv h' issued (log ++ log_cancel (default TaskHandle_null (tasks_ h !! name)) ok) ∧
  tasks_ h' = delete name (tasks_ h) ∧
  (ok = true ↔ ∃ th i, tasks_ h !! name = Some th ∧ innerTaskHandle_ th = Some i ∧
                       is_Some (pending h !! i)) ∧
  (∀ th i, tasks_ h !! name = Some th → innerTaskHandle_ th = Some i → pending h' !! i = None).
Proof.
  intros HI. unfold CancelTask. destruct (tasks_ h !! name) as [th|] eqn:Hn; cbn [default].
  - intros E. eapply Cancel_inv in E as (H1 & H2 & H3 & H4);
      [|by apply HInv_forget|eapply hi_issued; [by apply HInv_forget|by eapply hi_tasks]].
    split_and!; [done|done| |].
    + rewrite H3. split; [intros (i & ? & ?); eauto 6|intros (? & i & [= <-] & ? & ?); eauto].
    + intros ? i [= <-]. apply H4.
  - intros [= <- <-]. rewrite app_nil_r. split_and!; [done| | |done].
    + rewrite delete_id; done.
    + split; [done|]. intros (? & ? & ? & _). done.
Qed.
(** A task that FFRT starts was not started or cancelled before. *)
Lemma StartTask_inv h issued log i h' job :
  HInv h issued log → StartTask h i = (h', Some job) → HInv h' issued (log ++ [Started i]).
Proof.
  intros HI. unfold StartTask. destruct (pending h !! i) as [w|] eqn:Hw; [|done].
  match goal with |- context [h <| pending ::= ?a |> <| running ::= ?b |> <| cells ::= ?c |>] =>
    set (h1 := h <| pending ::= a |> <| running ::= b |> <| cells ::= c |>) end.
  assert (HInv h1 issued (log ++ [Started i])) as H1.
  { destruct HI as [Hp Hr Hi Ht Hlo Hlg Hl]. destruct (Hp i w Hw) as [Ei Hlt Hs].
    split; cbn -[lookup insert delete]; try done.
    - intros j w' [Hne Hw']%lookup_delete_Some. destruct (Hp j w' Hw') as [-> ? Hs'].
      split; [done|done|]. cbn -[lookup insert]. rewrite lookup_insert_ne by congruence. done.
    - intros j w' [[<- <-]|[Hne Hw']]%lookup_insert_Some.
      + split; [done|done|]. cbn -[lookup insert]. apply lookup_insert_eq.
      + destruct (Hr j w' Hw') as [-> ? Hs']. split; [done|done|].
        cbn -[lookup insert]. rewrite lookup_insert_ne by congruence. done.
    - intros th [->|(c & -> & Hlt' & Hc)]%Hi; [by left|]. right. exists c. split_and!; [done|done|].
      cbn -[lookup insert delete]. intros H.
      assert (w_status w ≠ c) by (intros <-; rewrite lookup_insert_eq in H; done).
      rewrite lookup_insert_ne in H by done. rewrite lookup_delete_ne by (rewrite Ei; lia). auto.
    - intros e [He| ->%list_elem_of_singleton]%elem_of_app; [auto|done].
    - intros e [He| ->%list_elem_of_singleton]%elem_of_app; [|apply lookup_delete_eq].
      apply lookup_delete_None. auto.
    - rewrite fmap_app. apply NoDup_app. split_and!; [done| |apply NoDup_singleton].
      intros x (e & -> & He)%list_elem_of_fmap. cbn -[lookup].
      rewrite list_elem_of_singleton. intros E. specialize (Hlg e He). rewrite E in Hlg. congruence. }
  destruct (w_job w) as [t|name th|ev]; intros [= <- <-]; [done| |done].
  unfold RemoveTask. case_match; [|done]. case_match; [by apply HInv_forget|done].
Qed.

Lemma FinishTask_inv h issued log i : HInv h issued log → HInv (FinishTask h i) issued log.
Proof.
  intros HI. unfold FinishTask. destruct (running h !! i) as [w|] eqn:Hw; [|done].
  destruct HI as [Hp Hr Hi Ht Hlo Hlg Hl]. destruct (Hr i w Hw) as [Ei Hlt Hs].
  split; cbn -[lookup insert delete]; try done.
  - intros j w' Hw'. destruct (Hp j w' Hw') as [-> ? Hs']. split; [done|done|].
    cbn -[lookup insert]. rewrite lookup_insert_ne by congruence. done.
  - intros j w' [Hne Hw']%lookup_delete_Some. destruct (Hr j w' Hw') as [-> ? Hs'].
    split; [done|done|]. cbn -[lookup insert]. rewrite lookup_insert_ne by congruence. done.
  - intros th [->|(c & -> & Hlt' & Hc)]%Hi; [by left|]. right. exists c. split_and!; [done|done|].
    cbn -[lookup insert]. intros [[<- ?]|[_ H]]%lookup_insert_Some; [done|auto].
Qed.

Definition HState_inv s : Prop := HInv (hs_handler s) (hs_issued s) (hs_log s).

Lemma hstep_inv s c : HState_inv s → HState_inv (hstep s c).
Proof.
  unfold HState_inv. intros HI. destruct c as [task attr|task name d f|name|n|i|i]; cbn [hstep].
  - destruct (SubmitTask _ task attr) eqn:E. by eapply SubmitTask_inv in E as [? _].
  - destruct (SubmitTask_named _ task name d f) eqn:E. by eapply SubmitTask_named_inv in E.
  - destruct (CancelTask _ _ name) eqn:E. by eapply CancelTask_inv in E as [? _].
  - destruct (Cancel _ _ _) eqn:E. eapply Cancel_inv in E as [? _]; [done|done|].
    destruct (hs_issued s !! n) eqn:En; [|by left]. eapply hi_issued; [done|].
    by eapply list_elem_of_lookup_2.
  - destruct (StartTask _ i) as [h' [job|]] eqn:E; [by eapply StartTask_inv|].
    unfold StartTask in E. repeat case_match; simplify_eq; done.
  - by apply FinishTask_inv.
Qed.

Lemma hrun_inv s cs : HState_inv s → HState_inv (hrun s cs).
Proof. revert s. induction cs as [|c cs IH]; intros s HI; [done|]. apply IH, hstep_inv, HI. Qed.

(** ** Tasks that are gone stay gone *)

(** From [h] to [h'] the scheduler gained only new tasks. *)
Definition evolves h h' : Prop :=
  (fresh_ptr h ≤ fresh_ptr h')%positive ∧
  ∀ i w, pending h' !! i = Some w → (i < fresh_ptr h)%positive → pending h !! i = Some w.

Lemma evolves_same h h' : fresh_ptr h' = fresh_ptr h → pending h' = pending h → evolves h h'.
Proof. intros E1 E2. unfold evolves. rewrite E1, E2. split; [lia|done]. Qed.

Lemma evolves_trans h1 h2 h3 : evolves h1 h2 → evolves h2 h3 → evolves h1 h3.
Proof. intros [L1 P1] [L2 P2]. split; [lia|]. intros i w H Hi. apply P1, Hi. apply P2; [done|lia]. Qed.

Lemma evolves_delete h h' i :
  fresh_ptr h' = fresh_ptr h → pending h' = delete i (pending h) → evolves h h'.
Proof.
  intros E1 E2. unfold evolves. rewrite E1, E2. split; [lia|].
  intros j w [_ H]%lookup_delete_Some. done.
Qed.

Lemma SubmitTask_evolves h task attr : evolves h (SubmitTask h task attr).1.
Proof.
  destruct task as [job|]; [|by apply evolves_same]. split; cbn -[lookup insert]; [lia|].
  intros i w [[<- <-]|[_ H]]%lookup_insert_Some; [lia|done].
Qed.

Lemma SubmitTask_named_evolves h task name d f : evolves h (SubmitTask_named h task name d f).1.
Proof.
  unfold SubmitTask_named. case_match; [destruct f; [apply SubmitTask_evolves|by apply evolves_same]|].
  pose proof (SubmitTask_evolves h task (mkTaskAttribute name d DEFAULT)) as H1.
  destruct (SubmitTask h task _) as [h1 th1]. cbn -[SubmitTask_delay] in *.
  destruct (SubmitTask_delay (h1 <| tasks_ ::= <[name := th1]> |>) (Some (JClear name th1)) d)
    as [h2 th2] eqn:E2.
  eapply evolves_trans; [exact H1|].
  eapply evolves_trans; [by apply (evolves_same h1 (h1 <| tasks_ ::= <[name := th1]> |>))|].
  apply (f_equal fst) in E2. cbn [fst] in E2 |- *. rewrite <-E2. apply SubmitTask_evolves.
Qed.

Lemma Cancel_evolves h th : evolves h (Cancel ffrt_cancel h th).1.
Proof.
  unfold Cancel. repeat case_match; try (by apply evolves_same); simplify_eq/=.
  unfold CancelTaskInner in *. repeat case_match; simplify_eq/=;
    first [by apply evolves_same|by eapply evolves_delete].
Qed.

Lemma CancelTask_evolves h name : evolves h (CancelTask ffrt_cancel h name).1.
Proof.
  unfold CancelTask. case_match; [|by apply evolves_same].
  eapply evolves_trans; [|apply Cancel_evolves]. by apply evolves_same.
Qed.

(** A cancellation submits nothing. *)
Lemma Cancel_pending h th i w :
  pending (Cancel ffrt_cancel h th).1 !! i = Some w → pending h !! i = Some w.
Proof.
  unfold Cancel, CancelTaskInner. repeat case_match; simplify_eq/=; try done.
  by intros [_ Hp]%lookup_delete_Some.
Qed.

Lemma CancelTask_pending h name i w :
  pending (CancelTask ffrt_cancel h name).1 !! i = Some w → pending h !! i = Some w.
Proof. unfold CancelTask. case_match; [|done]. intros Hp%Cancel_pending. done. Qed.

Lemma StartTask_evolves h i : evolves h (StartTask h i).1.
Proof.
  unfold StartTask. case_match; [|by apply evolves_same].
  case_match; cbn -[delete insert lookup]; [by eapply evolves_delete| |by eapply evolves_delete].
  unfold RemoveTask. repeat case_match; by eapply evolves_delete.
Qed.

(** A step starts only a task that the scheduler holds. *)
Lemma hstep_evolves s c :
  evolves (hs_handler s) (hs_handler (hstep s c)) ∧
  ∃ new, hs_log (hstep s c) = hs_log s ++ new ∧
         ∀ i, Started i ∈ new → is_Some (pending (hs_handler s) !! i).
Proof.
  assert (∀ th ok i, Started i ∈ log_cancel th ok → False) as Hlc.
  { intros th ok i. unfold log_cancel. repeat case_match; [|by intros ?%not_elem_of_nil..].
    by intros ?%list_elem_of_singleton. }
  assert (∀ i, Started i ∈ [] → is_Some (pending (hs_handler s) !! i)) as Hnil
    by (intros i []%not_elem_of_nil).
  destruct c as [task attr|task name d f|name|n|i|i]; cbn [hstep].
  - pose proof (SubmitTask_evolves (hs_handler s) task attr).
    destruct (SubmitTask _ task attr). split; [done|]. exists []. by rewrite app_nil_r.
  - pose proof (SubmitTask_named_evolves (hs_handler s) task name d f).
    destruct (SubmitTask_named _ task name d f). split; [done|]. exists []. by rewrite app_nil_r.
  - pose proof (CancelTask_evolves (hs_handler s) name).
    destruct (CancelTask _ _ name). split; [done|]. eexists. split; [done|]. intros i []%Hlc.
  - pose proof (Cancel_evolves (hs_handler s) (default TaskHandle_null (hs_issued s !! n))).
    destruct (Cancel _ _ _). split; [done|]. eexists. split; [done|]. intros i []%Hlc.
  - pose proof (StartTask_evolves (hs_handler s) i) as H.
    destruct (StartTask _ i) as [h' [job|]] eqn:E; split; [done| |done|].
    + exists [Started i]. split; [done|]. intros j [= ->]%list_elem_of_singleton.
      unfold StartTask in E. case_match eqn:E'; [eauto|done].
    + exists []. by rewrite app_nil_r.
  - split; [|exists []; by rewrite app_nil_r].
    unfold FinishTask. case_match; by apply evolves_same.
Qed.

Lemma gone_never_started s i cs :
  (i < fresh_ptr (hs_handler s))%positive → pending (hs_handler s) !! i = None →
  ∃ new, hs_log (hrun s cs) = hs_log s ++ new ∧ Started i ∉ new.
Proof.
  revert s. induction cs as [|c cs IH]; intros s Hlt Hg.
  { exists []. rewrite app_nil_r. split; [done|apply not_elem_of_nil]. }
  destruct (hstep_evolves s c) as [[Hf Hp] (n1 & E1 & H1)].
  destruct (IH (hstep s c)) as (n2 & E2 & H2); [lia| |].
  { destruct (pending (hs_handler (hstep s c)) !! i) as [w|] eqn:E; [|done].
    by rewrite (Hp i w E Hlt) in Hg. }
  exists (n1 ++ n2). split; [change (hrun s (c :: cs)) with (hrun (hstep s c) cs); by rewrite E2, E1, <-app_assoc|].
  intros [H|H]%elem_of_app; [|done]. apply H1 in H as [? ?]. congruence.
Qed.

(** C34: Tasks are started at most once and never after a successful cancellation,
    in every interleaving of submissions, cancellations and starts; cancelling by
    name succeeds exactly when the task recorded under the name has not been started
    or cancelled yet, and forgets the name; whatever it reports, that task is never
    started afterwards. *)
Theorem CancelTask_safe (cs cs' : list (HCall T)) (name : string) :
  let s := hrun HState_new cs in
  let h := hs_handler s in
  let s' := hrun (hstep s (HCancelTask name)) cs' in
  NoDup (event_task <$> hs_log s') ∧
  ((CancelTask ffrt_cancel h name).2 = true ↔
     ∃ th i, tasks_ h !! name = Some th ∧ innerTaskHandle_ th = Some i ∧ is_Some (pending h !! i)) ∧
  tasks_ (CancelTask ffrt_cancel h name).1 !! name = None ∧
  ∀ th i, tasks_ h !! name = Some th → innerTaskHandle_ th = Some i →
    ∃ new, hs_log s' = hs_log s ++ new ∧ Started i ∉ new.
Proof.
  intros s h s'. assert (HState_inv s) as HI by apply hrun_inv, HInv_new.
  assert (HState_inv s') as HI' by apply hrun_inv, hstep_inv, HI.
  split; [apply HI'|].
  destruct (CancelTask ffrt_cancel h name) as [h' ok] eqn:E.
  destruct (CancelTask_inv _ _ _ _ _ _ HI E) as (H1 & H2 & H3 & H4).
  split_and!; [done|cbn [fst]; rewrite H2; apply lookup_delete_eq|].
  intros th i Hn Hi.
  assert (handle_inv h th) as [->|(c & -> & Hlt & _)]; [|done|].
  { exact (hi_issued _ _ _ HI th (hi_tasks _ _ _ HI name th Hn)). }
  simplify_eq/=. pose proof (CancelTask_evolves h name) as [Hf _]. rewrite E in Hf. cbn [fst] in Hf.
  destruct (gone_never_started (hstep s (HCancelTask name)) (Pos.succ c) cs') as (new & En & Hnew).
  { cbn [hstep]. fold h. rewrite E. cbn [hs_handler]. lia. }
  { cbn [hstep]. fold h. rewrite E. cbn [hs_handler]. eauto. }
  destruct (hstep_evolves s (HCancelTask name)) as [_ (n1 & E1 & H5)].
  exists (n1 ++ new). change (hs_log s') with (hs_log (hrun (hstep s (HCancelTask name)) cs')).
  rewrite En, E1, <-app_assoc. split; [done|].
  intros [H|H]%elem_of_app; [|done].
  cbn [hstep] in E1. fold h in E1. rewrite E, Hn in E1. cbn [hs_log] in E1.
  apply app_inv_head in E1. subst n1. destruct ok; cbn in H;
    [by apply list_elem_of_singleton in H|by apply not_elem_of_nil in H].
Qed.
End Runs.

(** FFRT as documented: it cancels the tasks it holds. *)
Definition ffrt_cancel_held {T : Type} (p : gmap Ptr (Work T)) (i : Ptr) : bool :=
  bool_decide (is_Some (p !! i)).

Lemma ffrt_cancel_held_spec {T : Type} (p : gmap Ptr (Work T)) (i : Ptr) :
  ffrt_cancel_held p i = true ↔ is_Some (p !! i).
Proof. apply bool_decide_eq_true. Qed.

Lemma CancelTask_safe_witness :
  let s := hrun ffrt_cancel_held HState_new
             [HSubmitNamed (Some (JUser tt)) "notify" 100 true; HSubmitNamed (Some (JUser tt)) "other" 0 true] in
  NoDup (event_task <$> hs_log (hrun ffrt_cancel_held
    (hstep ffrt_cancel_held s (HCancelTask "notify")) [HStart 2; HStart 4; HStart 6]%positive)).
Proof.
  exact (proj1 (CancelTask_safe ffrt_cancel_held ffrt_cancel_held_spec
    [HSubmitNamed (Some (JUser tt)) "notify" 100 true; HSubmitNamed (Some (JUser tt)) "other" 0 true]
    [HStart 2; HStart 4; HStart 6]%positive "notify")).
Defined.

(** ** Events ([EventHandlerWrap]) *)

Record EventHandlerWrap (T : Type) := mkEventHandler {
  taskHandler_ : option (TaskHandlerWrap T);
  eventMap_ : gmap string EventWrap;
  processed : list EventWrap;       (* the calls of the event callback *)
}.
Arguments mkEventHandler {T} _ _ _.
Arguments taskHandler_ {T} _.
Arguments eventMap_ {T} _.
Arguments processed {T} _.

#[global] Instance EventHandlerWrap_reconstruct {T} : Reconstruct (EventHandlerWrap T) := λ e,
  mkEventHandler (taskHandler_ e) (eventMap_ e) (processed e).

Section Events.
Context {T : Type}.
Implicit Types (eh : EventHandlerWrap T) (ev : EventWrap).
Variable ffrt_cancel : gmap Ptr (Work T) → Ptr → bool.

Definition ProcessEvent eh ev : EventHandlerWrap T := eh <| processed ::= (.++ [ev]) |>.

(** [SendEvent(event, delayMillis, forceInsert)]; the closure holds the event as it
    was before its task was recorded in it. *)
Definition SendEvent eh ev (delayMillis : Z) (forceInsert : bool) : EventHandlerWrap T * bool :=
  match taskHandler_ eh with
  | None => (eh, false)
  | Some h =>
      let eventStr := GetEventString ev in
      let present := bool_decide (is_Some (eventMap_ eh !! eventStr)) in
      if present && negb forceInsert then (eh, false) else
      let '(h, th) := SubmitTask_delay h (Some (JEvent ev)) delayMillis in
      (eh <| taskHandler_ := Some h |>
          <| eventMap_ ::= <[eventStr := ev <| eventTask_ := th |>]> |>, true)
  end.

Definition RemoveEvent eh ev (force : bool) : EventHandlerWrap T * bool :=
  match eventMap_ eh !! GetEventString ev with
  | None => (eh, false)
  | Some e =>
      if force || EventWrap_IsSame e ev then
        let h := option_map (λ h, (Cancel ffrt_cancel h (eventTask_ e)).1) (taskHandler_ eh) in
        (eh <| taskHandler_ := h |> <| eventMap_ ::= delete (GetEventString ev) |>, true)
      else (eh, false)
  end.

(** The closure of an event whose task FFRT starts. *)
Definition RunEvent eh ev : EventHandlerWrap T :=
  (RemoveEvent (ProcessEvent eh ev) ev false).1.

(** FFRT starts the task [i]: an event is processed, the wrapper ends. *)
Definition FireTask eh (i : Ptr) : EventHandlerWrap T :=
  match taskHandler_ eh with
  | None => eh
  | Some h =>
      match StartTask h i with
      | (h, Some (JEvent ev)) =>
          let eh := RunEvent (eh <| taskHandler_ := Some h |>) ev in
          eh <| taskHandler_ ::= option_map (λ h, FinishTask h i) |>
      | (h, _) => eh <| taskHandler_ := Some h |>
      end
  end.

Hypothesis ffrt_cancel_spec : ∀ p i, ffrt_cancel p i = true ↔ is_Some (p !! i).

(** An event that is sent and removed before its task starts is not processed: its
    task is the one cancelled, even when an event with the same identifier and
    parameter was recorded before. *)
Lemma RemoveEvent_cancels eh h issued log ev d ev' :
  taskHandler_ eh = Some h → HInv h issued log → GetEventString ev' = GetEventString ev →
  let '(eh1, ok) := SendEvent eh ev d true in
  let '(eh2, ok') := RemoveEvent eh1 ev' true in
  ok = true ∧ ok' = true ∧ eventMap_ eh2 = delete (GetEventString ev) (eventMap_ eh) ∧
  (pending <$> taskHandler_ eh2 = Some (pending h)).
Proof.
  intros Hh HI Hs. unfold SendEvent. rewrite Hh, andb_false_r.
  destruct (SubmitTask_delay h (Some (JEvent ev)) d) as [h1 th] eqn:E.
  unfold RemoveEvent. cbn -[lookup insert delete]. rewrite Hs, lookup_insert_eq. cbn -[lookup insert delete].
  split_and!; [done|done|by rewrite delete_insert_eq|].
  cbn in E. injection E as <- <-. unfold Cancel. cbn -[lookup insert delete].
  rewrite bool_decide_true by apply lookup_insert_eq. cbn -[lookup insert delete].
  rewrite (proj2 (ffrt_cancel_spec _ _)) by (eexists; apply lookup_insert_eq). cbn -[lookup insert delete].
  rewrite delete_insert_id; [done|]. destruct (pending h !! _) as [w|] eqn:Ew; [|done].
  pose proof (wi_old _ _ _ _ _ (hi_pending _ _ _ HI _ w Ew)). lia.
Qed.
End Events.
