(* ===== verification/MissionStorage.v ===== *)
(** * The persistent storage of missions

    [services/abilitymgr/src/mission_data_storage.cpp]: a JSON file per mission in
    the directory of the user, loaded when the user is initialized, and
    [task_data_persistence_mgr.cpp], which posts the writes and removals as tasks to
    the handler of [TaskHandler].

    File functions are parameters ([FileLib]), with their documented behaviour on
    the contents of files. Of the snapshots of missions the removal of their files is
    modelled; the images and their cache are not. *)

From stdpp Require Import prelude gmap strings list pretty.
From Stdlib Require Import ZArith Lia Ascii.
From S2P Require Import Prelude MissionInfo MissionInfoMgr TaskHandler.

Definition TASK_DATA_FILE_BASE_PATH : string := "/data/service/el1/public/AbilityManagerService".
Definition MISSION_DATA_FILE_PATH : string := "MissionInfo".
Definition MISSION_JSON_FILE_PREFIX : string := "mission".
Definition LOW_RESOLUTION_FLAG : string := "little".
Definition JSON_FILE_SUFFIX : string := ".json".
Definition JPEG_FILE_SUFFIX : string := ".jpg".
Definition SAVE_MISSION_INFO : string := "SaveMissionInfo".
Definition DELETE_MISSION_INFO : string := "DeleteMissionInfo".

(** ** The file functions *)

(** A file lies below a directory. *)
Definition below (dir path : string) : bool := String.prefix (dir +:+ "/") path.

(** No character of [s] is [c]. *)
Fixpoint no_char (c : Ascii.ascii) (s : string) : bool :=
  match s with
  | EmptyString => true
  | String x s => negb (Ascii.eqb x c) && no_char c s
  end.

Class FileLib := {
  FS : Type;
  files : FS → gmap string string;
  GetDirFiles : FS → string → list string;
  LoadStringFromFile : FS → string → option string;
  SaveStringToFile : FS → string → string → bool * FS;
  RemoveFile : FS → string → bool * FS;
  FileExists : FS → string → bool;
  ForceCreateDirectory : FS → string → bool * FS;
  ForceRemoveDirectory : FS → string → bool * FS;
  ExtractFilePath : string → string;
  ExtractFileName : string → string;
}.

(** What the functions do to the contents of files, when they succeed. *)
Class FileLaws (FL : FileLib) : Prop := {
  dir_files : ∀ fs d p, p ∈ GetDirFiles fs d ↔ is_Some (files fs !! p) ∧ below d p = true;
  dir_files_once : ∀ fs d, NoDup (GetDirFiles fs d);
  load_file : ∀ fs p, LoadStringFromFile fs p = files fs !! p;
  save_file : ∀ fs p s, (SaveStringToFile fs p s).1 = true →
    files (SaveStringToFile fs p s).2 = <[p := s]> (files fs);
  remove_file : ∀ fs p, (RemoveFile fs p).1 = true → files (RemoveFile fs p).2 = delete p (files fs);
  remove_file_failed : ∀ fs p, (RemoveFile fs p).1 = false → files (RemoveFile fs p).2 = files fs;
  create_dir_files : ∀ fs d, files (ForceCreateDirectory fs d).2 = files fs;
  extract_name : ∀ d f, no_char "/"%char f = true → ExtractFileName (d +:+ "/" +:+ f) = f;
}.

(** Nothing fails: directories can be created, files written and removed. The removal
    of a file that does not exist is a success, too. *)
Class FileReliable (FL : FileLib) : Prop := {
  create_dir_ok : ∀ fs d, (ForceCreateDirectory fs d).1 = true;
  save_ok : ∀ fs p s, (SaveStringToFile fs p s).1 = true;
  remove_ok : ∀ fs p, (RemoveFile fs p).1 = true;
}.

(** ** Digits *)

Definition isdigit (c : Ascii.ascii) : bool :=
  let n := Ascii.N_of_ascii c in ((48 <=? n) && (n <=? 57))%N.

Fixpoint all_digits (s : string) : bool :=
  match s with
  | EmptyString => true
  | String c s => isdigit c && all_digits s
  end.

(** ** [MissionDataStorage] *)

Section Storage.
Context {WL : WantLib} {JL : JsonLib} {FL : FileLib}.
Implicit Types (fs : FS) (userId missionId : Z) (info : InnerMissionInfo).

(** The default-constructed [InnerMissionInfo] a file is read into. *)
Variable fresh_mission : InnerMissionInfo.

Definition GetMissionDataDirPath userId : string :=
  TASK_DATA_FILE_BASE_PATH +:+ "/" +:+ pretty userId +:+ "/" +:+ MISSION_DATA_FILE_PATH.

Definition mission_file_name missionId : string :=
  MISSION_JSON_FILE_PREFIX +:+ "_" +:+ pretty missionId +:+ JSON_FILE_SUFFIX.

Definition GetMissionDataFilePath userId missionId : string :=
  GetMissionDataDirPath userId +:+ "/" +:+ mission_file_name missionId.

Definition GetMissionSnapshotPath userId missionId (isLowResolution : bool) : string :=
  GetMissionDataDirPath userId +:+ "/" +:+ MISSION_JSON_FILE_PREFIX +:+ "_" +:+ pretty missionId +:+
  (if isLowResolution then "_" +:+ LOW_RESOLUTION_FLAG else "") +:+ JPEG_FILE_SUFFIX.

Definition CheckFileNameValid (fileName : string) : bool :=
  let name := ExtractFileName fileName in
  let len := Z.of_nat (String.length name) in
  if negb (find name MISSION_JSON_FILE_PREFIX =? 0)%Z then false
  else if negb (find name "_" =? Z.of_nat (String.length MISSION_JSON_FILE_PREFIX))%Z then false
  else if negb (find name JSON_FILE_SUFFIX =?
                usize (len - Z.of_nat (String.length JSON_FILE_SUFFIX)))%Z then false
  else
    let missionIdLength := usize (find name JSON_FILE_SUFFIX - find name "_" - 1) in
    let missionId := String.substring (Z.to_nat (find name "_" + 1)) (Z.to_nat missionIdLength) name in
    all_digits missionId.

Definition DeleteMissionSnapshot_one fs userId missionId (isLowResolution : bool) : FS :=
  let filePath := GetMissionSnapshotPath userId missionId isLowResolution in
  if FileExists fs filePath then (RemoveFile fs filePath).2 else fs.

Definition DeleteMissionSnapshot fs userId missionId : FS :=
  DeleteMissionSnapshot_one (DeleteMissionSnapshot_one fs userId missionId false) userId missionId true.

Definition Storage_DeleteMissionInfo fs userId missionId : FS :=
  match RemoveFile fs (GetMissionDataFilePath userId missionId) with
  | (false, fs) => fs
  | (true, fs) => DeleteMissionSnapshot fs userId missionId
  end.

Definition Storage_SaveMissionInfo fs userId info : FS :=
  let filePath := GetMissionDataFilePath userId (mission_id info) in
  let dirPath := ExtractFilePath filePath in
  let '(ok, fs) := if FileExists fs dirPath then (true, fs) else ForceCreateDirectory fs dirPath in
  if ok then (SaveStringToFile fs filePath (ToJsonStr info)).2 else fs.

(** One file of the loop of [LoadAllMissionInfo]. *)
Definition read_mission fs (fileName : string) : option InnerMissionInfo :=
  if negb (CheckFileNameValid fileName) then None
  else match LoadStringFromFile fs fileName with
       | None => None
       | Some content =>
           match FromJsonStr fresh_mission content with
           | (false, _) => None
           | (true, m) => Some m
           end
       end.

Fixpoint load_loop fs (fileNameVec : list string) (missionInfoList : list InnerMissionInfo)
    (tempMissions : list Z) : list InnerMissionInfo * list Z :=
  match fileNameVec with
  | [] => (missionInfoList, tempMissions)
  | fileName :: fileNameVec =>
      match read_mission fs fileName with
      | None => load_loop fs fileNameVec missionInfoList tempMissions
      | Some m =>
          if isTemporary m then load_loop fs fileNameVec missionInfoList (tempMissions ++ [mission_id m])
          else load_loop fs fileNameVec (missionInfoList ++ [m]) tempMissions
      end
  end.

Definition Storage_LoadAllMissionInfo fs userId (missionInfoList : list InnerMissionInfo)
  : bool * list InnerMissionInfo * FS :=
  let '(l, tempMissions) :=
    load_loop fs (GetDirFiles fs (GetMissionDataDirPath userId)) missionInfoList [] in
  (true, l, foldl (λ fs i, Storage_DeleteMissionInfo fs userId i) fs tempMissions).

(** ** [TaskDataPersistenceMgr] *)

Inductive StoreJob :=
| SaveJob (userId : Z) (info : InnerMissionInfo)
| DeleteJob (userId missionId : Z).

(** A storage object is the identifier of its user. *)
Record TaskDataPersistenceMgr := mkPersist {
  persist_fs : FS;
  persist_handler_ : option (TaskHandlerWrap StoreJob);
  missionDataStorageMgr_ : gmap Z unit;
  currentMissionDataStorage_ : option Z;
  currentUserId_ : Z;
}.

#[global] Instance TaskDataPersistenceMgr_reconstruct : Reconstruct TaskDataPersistenceMgr := λ p,
  mkPersist (persist_fs p) (persist_handler_ p) (missionDataStorageMgr_ p)
    (currentMissionDataStorage_ p) (currentUserId_ p).

Implicit Types p : TaskDataPersistenceMgr.

(** [ffrtHandler] is the handler [GetFfrtHandler] returns. *)
Definition Persist_Init p (ffrtHandler : TaskHandlerWrap StoreJob) userId
  : bool * TaskDataPersistenceMgr :=
  let p := match persist_handler_ p with
           | None => p <| persist_handler_ := Some ffrtHandler |>
           | Some _ => p
           end in
  let p := match missionDataStorageMgr_ p !! userId with
           | None => p <| missionDataStorageMgr_ ::= <[userId := ()]> |>
           | Some _ => p
           end in
  (true, p <| currentMissionDataStorage_ := Some userId |> <| currentUserId_ := userId |>).

Definition Persist_LoadAllMissionInfo p (l : list InnerMissionInfo)
  : bool * list InnerMissionInfo * TaskDataPersistenceMgr :=
  match currentMissionDataStorage_ p with
  | None => (false, l, p)
  | Some u =>
      let '(ok, l, fs) := Storage_LoadAllMissionInfo (persist_fs p) u l in
      (ok, l, p <| persist_fs := fs |>)
  end.

(** The tasks are posted with a name that is not recorded ([SubmitTask(task, name)]). *)
Definition post p (job : Z → StoreJob) (name : string) : bool * TaskDataPersistenceMgr :=
  match persist_handler_ p, currentMissionDataStorage_ p with
  | Some h, Some u =>
      (true, p <| persist_handler_ := Some (SubmitTask_name h (Some (JUser (job u))) name).1 |>)
  | _, _ => (false, p)
  end.

Definition Persist_SaveMissionInfo p info : bool * TaskDataPersistenceMgr :=
  post p (λ u, SaveJob u info) SAVE_MISSION_INFO.

Definition Persist_DeleteMissionInfo p missionId : bool * TaskDataPersistenceMgr :=
  post p (λ u, DeleteJob u missionId) DELETE_MISSION_INFO.

Definition RemoveUserDir p userId : bool * TaskDataPersistenceMgr :=
  if decide (currentUserId_ p = userId) then (false, p)
  else
    let userDir := TASK_DATA_FILE_BASE_PATH +:+ "/" +:+ pretty userId in
    let '(ret, fs) := ForceRemoveDirectory (persist_fs p) userDir in
    (ret, p <| persist_fs := fs |>).

(** The closures of the posted tasks; the storage of a user stays in the map, so
    that their weak pointers can be locked. *)
Definition run_job fs (job : StoreJob) : FS :=
  match job with
  | SaveJob u info => Storage_SaveMissionInfo fs u info
  | DeleteJob u i => Storage_DeleteMissionInfo fs u i
  end.

(** FFRT runs the task [i]. *)
Definition RunStoreTask p (i : Ptr) : TaskDataPersistenceMgr :=
  match persist_handler_ p with
  | None => p
  | Some h =>
      match StartTask h i with
      | (h, Some (JUser job)) =>
          p <| persist_fs ::= λ fs, run_job fs job |> <| persist_handler_ := Some (FinishTask h i) |>
      | (h, _) => p <| persist_handler_ := Some h |>
      end
  end.
End Storage.

(** ** Names of files *)

Lemma all_digits_go x s : all_digits s = true → all_digits (pretty_N_go x s) = true.
Proof.
  revert s. induction (N.lt_wf_0 x) as [x _ IH]; intros s Hs.
  destruct (decide (x = 0%N)) as [->|Hx]; [by rewrite pretty_N_go_0|].
  rewrite pretty_N_go_step by lia. apply IH; [by apply N.div_lt; lia|]. cbn [all_digits]. rewrite Hs.
  rewrite andb_true_r. unfold pretty_N_char. by repeat case_match.
Qed.

Lemma all_digits_pretty (z : Z) : (0 ≤ z)%Z → all_digits (pretty z) = true.
Proof.
  intros Hz. destruct z as [|p|p]; [done| |lia].
  unfold pretty, pretty_Z, pretty, pretty_positive, pretty, pretty_N. case_decide; [done|].
  by apply all_digits_go.
Qed.

(** A number below [10 ^ k] has at most [k] digits. *)
Lemma length_go (k : nat) x s :
  (x < 10 ^ N.of_nat k)%N → (String.length (pretty_N_go x s) ≤ k + String.length s)%nat.
Proof.
  revert x s. induction k as [|k IH]; intros x s Hx.
  - assert (x = 0%N) as -> by (cbn in Hx; lia). rewrite pretty_N_go_0. lia.
  - destruct (decide (x = 0%N)) as [->|Hne]; [rewrite pretty_N_go_0; lia|].
    rewrite pretty_N_go_step by lia. etrans; [apply IH|cbn; lia].
    rewrite Nat2N.inj_succ, N.pow_succ_r' in Hx. apply N.Div0.div_lt_upper_bound. lia.
Qed.

Lemma length_pretty (z : Z) : (0 ≤ z ≤ INT_MAX)%Z → (String.length (pretty z) ≤ 10)%nat.
Proof.
  intros Hz. destruct z as [|p|p]; [cbn; lia| |lia].
  unfold pretty, pretty_Z, pretty, pretty_positive, pretty, pretty_N. case_decide; [cbn; lia|].
  etrans; [apply (length_go 10)|done]. unfold INT_MAX in Hz. cbn. lia.
Qed.

(** A search for a suffix that starts with a character the text does not have. *)
Lemma index_suffix (ds pat : string) c :
  all_digits ds = true → isdigit c = false →
  String.index 0 (String c pat) (ds +:+ String c pat) = Some (String.length ds).
Proof.
  intros Hd Hc. induction ds as [|x ds IH].
  - change ("" +:+ String c pat) with (String c pat). cbn [String.index]. by rewrite prefix_refl.
  - cbn [all_digits] in Hd. apply andb_true_iff in Hd as [Hx Hd]. rewrite string_app_cons.
    cbn [String.index]. assert (String.prefix (String c pat) (String x (ds +:+ String c pat)) = false) as ->.
    { cbn. destruct (ascii_dec c x) as [->|]; [congruence|done]. }
    by rewrite IH.
Qed.

(** The name of a mission file, by its digits. *)
Definition named (ds : string) : string := "mission_" +:+ (ds +:+ ".json").

Lemma mission_file_name_named (i : Z) : mission_file_name i = named (pretty i).
Proof. done. Qed.

Lemma named_index (X : string) :
  String.index 0 ".json" ("mission_" +:+ X) =
    match String.index 0 ".json" X with Some n => Some (8 + n)%nat | None => None end.
Proof.
  change ("mission_" +:+ X) with (String "m" (String "i" (String "s" (String "s" (String "i"
    (String "o" (String "n" (String "_" X)))))))). cbn -[Nat.add].
  by destruct (String.index 0 ".json" X).
Qed.

Lemma named_find (ds : string) :
  all_digits ds = true →
  find (named ds) "mission" = 0%Z ∧ find (named ds) "_" = 7%Z ∧
  find (named ds) ".json" = Z.of_nat (8 + String.length ds).
Proof.
  intros Hd. split_and!; [reflexivity|by destruct ds|]. unfold find, named.
  by rewrite named_index, index_suffix.
Qed.

Lemma no_char_app c (s t : string) : no_char c (s +:+ t) = no_char c s && no_char c t.
Proof.
  induction s as [|x s IH]; [done|]. rewrite string_app_cons. cbn [no_char]. by rewrite IH, andb_assoc.
Qed.

Lemma no_char_digits c (s : string) : isdigit c = false → all_digits s = true → no_char c s = true.
Proof.
  intros Hc. induction s as [|x s IH]; [done|]. cbn. intros [Hx Hs]%andb_true_iff. rewrite IH by done.
  destruct (Ascii.eqb_spec x c) as [->|]; [congruence|done].
Qed.

Lemma string_app_inv_r (s s' t : string) : s +:+ t = s' +:+ t → s = s'.
Proof.
  revert s'. induction s as [|c s IH]; intros s' H.
  - apply (f_equal String.length) in H. rewrite !length_app_string in H. destruct s'; [done|cbn in H; lia].
  - destruct s' as [|c' s'].
    + apply (f_equal String.length) in H. rewrite !length_app_string in H. cbn in H. lia.
    + rewrite !string_app_cons in H. injection H as -> H. by rewrite (IH s').
Qed.

(** The last characters of a concatenation. *)
Lemma string_app_last (s s' : string) c c' : s +:+ String c "" = s' +:+ String c' "" → c = c'.
Proof.
  revert s'. induction s as [|x s IH]; intros [|x' s']; rewrite ?string_app_cons; intros H.
  - by injection H.
  - injection H as _ H. by destruct s'.
  - injection H as _ H. by destruct s.
  - injection H as _ H. by apply (IH s').
Qed.

Section Paths.
Context {FL : FileLib} {FW : FileLaws FL}.
Implicit Types u i : Z.

(** The file of a mission has a name the loader accepts. *)
Lemma CheckFileNameValid_path u i :
  (0 ≤ i ≤ INT_MAX)%Z → CheckFileNameValid (GetMissionDataFilePath u i) = true.
Proof.
  intros Hi. pose proof (all_digits_pretty i (proj1 Hi)) as Hd.
  unfold CheckFileNameValid, GetMissionDataFilePath. rewrite mission_file_name_named.
  rewrite extract_name by (unfold named; rewrite !no_char_app, (no_char_digits "/"%char (pretty i)); done).
  destruct (named_find (pretty i) Hd) as (F1 & F2 & F3).
  unfold MISSION_JSON_FILE_PREFIX, JSON_FILE_SUFFIX. rewrite F1, F2, F3.
  change (String.length "mission") with 7%nat. change (String.length ".json") with 5%nat.
  assert (String.length (named (pretty i)) = (8 + String.length (pretty i) + 5)%nat) as ->.
  { unfold named. rewrite !length_app_string. cbn -[Nat.add]. lia. }
  pose proof (length_pretty i Hi) as Hlen. set (L := String.length (pretty i)) in *.
  assert (∀ z, (0 ≤ z < 100)%Z → usize z = z) as Hu by (intros z Hz; apply Z.mod_small; lia).
  rewrite (Hu (_ - Z.of_nat 5)%Z), (Hu (_ - 7 - 1)%Z) by lia.
  rewrite (proj2 (Z.eqb_eq _ _)) by lia. rewrite (proj2 (Z.eqb_eq _ _)) by lia.
  rewrite (proj2 (Z.eqb_eq _ _)) by lia. cbn [negb].
  replace (Z.to_nat (Z.of_nat (8 + L) - 7 - 1)) with L by lia.
  change (String.substring (Z.to_nat (7 + 1)) L (named (pretty i))) with
    (String.substring 0 L (pretty i +:+ ".json")).
  subst L. by rewrite substring_full.
Qed.

Lemma path_below u i : below (GetMissionDataDirPath u) (GetMissionDataFilePath u i) = true.
Proof.
  unfold below, GetMissionDataFilePath. rewrite <-string_app_assoc. apply prefix_app.
Qed.

Lemma path_inj u i j : GetMissionDataFilePath u i = GetMissionDataFilePath u j → i = j.
Proof.
  unfold GetMissionDataFilePath. rewrite !mission_file_name_named. unfold named.
  intros H%string_app_inv_l%string_app_inv_l%string_app_inv_l%string_app_inv_r. by apply (inj pretty) in H.
Qed.

(** A snapshot is not stored in the file of a mission. *)
Lemma snapshot_path_ne u i j low : GetMissionSnapshotPath u i low ≠ GetMissionDataFilePath u j.
Proof.
  unfold GetMissionSnapshotPath, GetMissionDataFilePath, mission_file_name, JPEG_FILE_SUFFIX, JSON_FILE_SUFFIX.
  change ".jpg" with (".jp" +:+ "g"). change ".json" with (".jso" +:+ "n").
  rewrite <-!string_app_assoc. intros H%string_app_last. done.
Qed.
End Paths.

(** ** The storage refines a map of missions *)

Section Refine.
Context {WL : WantLib} {JL : JsonLib} {FL : FileLib} {FW : FileLaws FL} {FR : FileReliable FL}.
Implicit Types (fs : FS) (u i : Z) (info : InnerMissionInfo) (m : gmap Z InnerMissionInfo).
Variable fresh_mission : InnerMissionInfo.

(** The calls of the mission information manager, and what they mean. *)
Inductive StoreCall :=
| CSave (info : InnerMissionInfo)
| CDelete (i : Z).

Definition astep m (c : StoreCall) : gmap Z InnerMissionInfo :=
  match c with
  | CSave info => <[mission_id info := info]> m
  | CDelete i => delete i m
  end.

Definition job_of u (c : StoreCall) : StoreJob :=
  match c with
  | CSave info => SaveJob u info
  | CDelete i => DeleteJob u i
  end.

(** A mission the storage can write: its numbers are 32 bits wide, its texts are
    UTF-8, and its identifier is one the manager generates. *)
Definition storable info : bool :=
  int32_fields info && utf8_fields info && (0 <=? mission_id info)%Z.

Definition call_ok (c : StoreCall) : bool :=
  match c with CSave info => storable info | CDelete _ => true end.

Lemma storable_id info : storable info = true → (0 ≤ mission_id info ≤ INT_MAX)%Z.
Proof.
  unfold storable, int32_fields. cbn [forallb]. rewrite !andb_true_iff. unfold is_int32, mission_id.
  intros ((H & _) & Hid). destruct H as (_ & _ & _ & H & _). lia.
Qed.

(** The mission files of the user [u] are those of [m]. *)
Record store_rel u fs m : Prop := {
  sr_saved : ∀ i info, m !! i = Some info → files fs !! GetMissionDataFilePath u i = Some (ToJsonStr info);
  sr_only : ∀ p, is_Some (files fs !! p) → below (GetMissionDataDirPath u) p = true →
            CheckFileNameValid p = true → ∃ i, is_Some (m !! i) ∧ p = GetMissionDataFilePath u i;
  sr_ok : ∀ i info, m !! i = Some info → mission_id info = i ∧ storable info = true;
}.

Lemma remove_files fs p : files (RemoveFile fs p).2 = delete p (files fs).
Proof. apply remove_file, remove_ok. Qed.

Lemma DeleteMissionSnapshot_files fs u i j :
  files (DeleteMissionSnapshot fs u i) !! GetMissionDataFilePath u j = files fs !! GetMissionDataFilePath u j.
Proof.
  unfold DeleteMissionSnapshot. assert (∀ fs low,
    files (DeleteMissionSnapshot_one fs u i low) !! GetMissionDataFilePath u j =
    files fs !! GetMissionDataFilePath u j) as H; [|by rewrite !H].
  intros fs' low. unfold DeleteMissionSnapshot_one. case_match; [|done].
  rewrite remove_files, lookup_delete_ne; [done|]. apply snapshot_path_ne.
Qed.

Lemma DeleteMissionSnapshot_subseteq fs u i : files (DeleteMissionSnapshot fs u i) ⊆ files fs.
Proof.
  unfold DeleteMissionSnapshot. assert (∀ fs low, files (DeleteMissionSnapshot_one fs u i low) ⊆ files fs) as H;
    [|etrans; apply H].
  intros fs' low. unfold DeleteMissionSnapshot_one. case_match; [|done].
  rewrite remove_files. apply delete_subseteq.
Qed.

(** The removal of a mission: its file is gone, other mission files stay, and no
    file is new. *)
Lemma Storage_DeleteMissionInfo_files fs u i :
  (∀ j, files (Storage_DeleteMissionInfo fs u i) !! GetMissionDataFilePath u j =
        if decide (j = i) then None else files fs !! GetMissionDataFilePath u j) ∧
  files (Storage_DeleteMissionInfo fs u i) ⊆ files fs.
Proof.
  unfold Storage_DeleteMissionInfo. pose proof (remove_files fs (GetMissionDataFilePath u i)) as H.
  destruct (RemoveFile fs (GetMissionDataFilePath u i)) as [ok fs']. cbn [snd] in H.
  assert (∀ j, files fs' !! GetMissionDataFilePath u j =
               if decide (j = i) then None else files fs !! GetMissionDataFilePath u j) as Hj.
  { intros j. rewrite H. case_decide as E; [subst; apply lookup_delete_eq|].
    rewrite lookup_delete_ne; [done|]. intros E'%path_inj. congruence. }
  assert (files fs' ⊆ files fs) as Hs by (rewrite H; apply delete_subseteq).
  destruct ok; [|done]. split; [intros j; by rewrite DeleteMissionSnapshot_files|].
  etrans; [apply DeleteMissionSnapshot_subseteq|done].
Qed.

Lemma Storage_SaveMissionInfo_files fs u info :
  files (Storage_SaveMissionInfo fs u info) =
    <[GetMissionDataFilePath u (mission_id info) := ToJsonStr info]> (files fs).
Proof.
  unfold Storage_SaveMissionInfo. set (p := GetMissionDataFilePath u (mission_id info)).
  destruct (FileExists fs (ExtractFilePath p)); [by rewrite save_file by apply save_ok|].
  pose proof (create_dir_ok fs (ExtractFilePath p)) as H1.
  pose proof (create_dir_files fs (ExtractFilePath p)) as H2.
  destruct (ForceCreateDirectory fs (ExtractFilePath p)) as [ok fs']. cbn [fst snd] in *. subst ok.
  rewrite save_file by apply save_ok. by rewrite H2.
Qed.

Lemma delete_rel u fs m i :
  store_rel u fs m → store_rel u (Storage_DeleteMissionInfo fs u i) (delete i m).
Proof.
  intros [Hs Ho Hk]. destruct (Storage_DeleteMissionInfo_files fs u i) as [Hf Hsub]. split.
  - intros j info [Hne Hj]%lookup_delete_Some. rewrite Hf, decide_False by congruence. auto.
  - intros p [s Hp] Hb Hv. destruct (Ho p) as (j & Hj & ->); [|done|done|].
    { exists s. by eapply lookup_weaken. }
    exists j. split; [|done]. rewrite Hf in Hp. case_decide; [done|]. by rewrite lookup_delete_ne.
  - intros j info [_ Hj]%lookup_delete_Some. auto.
Qed.

Lemma save_rel u fs m info :
  storable info = true →
  store_rel u fs m → store_rel u (Storage_SaveMissionInfo fs u info) (<[mission_id info := info]> m).
Proof.
  intros Hst [Hs Ho Hk]. split.
  - intros j x. rewrite Storage_SaveMissionInfo_files. intros [[<- <-]|[Hne Hj]]%lookup_insert_Some;
      [apply lookup_insert_eq|]. rewrite lookup_insert_ne; [auto|]. intros E%path_inj. done.
  - intros p. rewrite Storage_SaveMissionInfo_files. intros [s Hp] Hb Hv.
    apply lookup_insert_Some in Hp as [[<- _]|[_ Hp]].
    + exists (mission_id info). split; [|done]. eexists. apply lookup_insert_eq.
    + destruct (Ho p) as (j & [x Hj] & ->); [by eexists|done|done|]. exists j. split; [|done].
      destruct (decide (j = mission_id info)) as [->|]; [eexists; apply lookup_insert_eq|].
      exists x. by rewrite lookup_insert_ne.
  - intros j x [[<- <-]|[Hne Hj]]%lookup_insert_Some; auto.
Qed.

Lemma run_job_rel u fs m c :
  call_ok c = true → store_rel u fs m → store_rel u (run_job fs (job_of u c)) (astep m c).
Proof. destruct c as [info|i]; cbn; [apply save_rel|intros _; apply delete_rel]. Qed.

(** ** Loading *)

Lemma persisted_id info : mission_id (persisted fresh_mission info) = mission_id info.
Proof. by destruct info as [[]]. Qed.

Lemma persisted_temporary info : isTemporary (persisted fresh_mission info) = isTemporary info.
Proof. by destruct info as [[]]. Qed.

(** A file of the directory gives a mission exactly when it is the file of one. *)
Lemma read_mission_spec u fs m p x :
  store_rel u fs m → p ∈ GetDirFiles fs (GetMissionDataDirPath u) →
  read_mission fresh_mission fs p = Some x ↔
  ∃ info, m !! mission_id info = Some info ∧ p = GetMissionDataFilePath u (mission_id info) ∧
          x = persisted fresh_mission info.
Proof.
  intros [Hs Ho Hk] [Hp Hb]%dir_files. unfold read_mission.
  assert (∀ i info, m !! i = Some info → p = GetMissionDataFilePath u i →
    CheckFileNameValid p = true ∧ LoadStringFromFile fs p = Some (ToJsonStr info) ∧
    FromJsonStr fresh_mission (ToJsonStr info) = (true, persisted fresh_mission info) ∧ mission_id info = i) as Hr.
  { intros i info Hi ->. destruct (Hk i info Hi) as [Hid Hst]. pose proof (storable_id _ Hst) as Hrange.
    rewrite load_file, (Hs i info Hi). split_and!; [apply CheckFileNameValid_path; lia|done| |done].
    unfold storable in Hst. rewrite !andb_true_iff in Hst. destruct Hst as [[? ?] _]. by apply json_form_roundtrip. }
  destruct (CheckFileNameValid p) eqn:Hv; cbn [negb].
  - destruct (Ho p Hp Hb Hv) as (i & [info Hi] & Ep). destruct (Hr i info Hi Ep) as (_ & -> & -> & <-).
    split; [intros [= <-]; by exists info|]. intros (info' & Hi' & Ep' & ->).
    rewrite Ep' in Ep. apply path_inj in Ep. rewrite Ep, Hi in Hi'. by injection Hi' as <-.
  - split; [done|]. intros (info & Hi & Ep & _). by destruct (Hr _ info Hi Ep).
Qed.

(** The loop collects the missions it reads, by their mark. *)
Lemma load_loop_spec fs names l t :
  load_loop fresh_mission fs names l t =
    (l ++ filter (λ x, isTemporary x = false) (omap (read_mission fresh_mission fs) names),
     t ++ (mission_id <$> filter (λ x, isTemporary x = true) (omap (read_mission fresh_mission fs) names))).
Proof.
  revert l t. induction names as [|p names IH]; intros l t; [by rewrite !app_nil_r|].
  cbn [load_loop omap list_omap]. destruct (read_mission fresh_mission fs p) as [x|]; [|apply IH].
  rewrite !filter_cons. destruct (isTemporary x) eqn:E; rewrite IH;
    repeat case_decide; try congruence; cbn [fmap list_fmap]; by rewrite <-app_assoc.
Qed.

Lemma read_missions_spec u fs m x :
  store_rel u fs m →
  x ∈ omap (read_mission fresh_mission fs) (GetDirFiles fs (GetMissionDataDirPath u)) ↔
  ∃ i info, m !! i = Some info ∧ x = persisted fresh_mission info.
Proof.
  intros HR. rewrite list_elem_of_omap. split.
  - intros (p & Hp & Hx). apply (read_mission_spec u fs m p x HR Hp) in Hx as (info & ? & _ & ?). eauto.
  - intros (i & info & Hi & ->). destruct (sr_ok _ _ _ HR i info Hi) as [Hid _]. subst i.
    assert (GetMissionDataFilePath u (mission_id info) ∈ GetDirFiles fs (GetMissionDataDirPath u)) as Hp.
    { apply dir_files. split; [|apply path_below]. eexists. by apply (sr_saved _ _ _ HR). }
    exists (GetMissionDataFilePath u (mission_id info)). split; [done|].
    apply (read_mission_spec u fs m _ _ HR Hp). by exists info.
Qed.

Lemma read_missions_distinct u fs m names :
  store_rel u fs m → NoDup names → (∀ p, p ∈ names → p ∈ GetDirFiles fs (GetMissionDataDirPath u)) →
  NoDup (mission_id <$> omap (read_mission fresh_mission fs) names).
Proof.
  intros HR. induction 1 as [|p names Hp Hn IH]; intros Hin; [constructor|].
  cbn [omap list_omap]. assert (∀ q, q ∈ names → q ∈ GetDirFiles fs (GetMissionDataDirPath u)) as Hin'
    by (intros q Hq; by apply Hin, list_elem_of_further).
  destruct (read_mission fresh_mission fs p) as [x|] eqn:E; [|by apply IH].
  cbn [fmap list_fmap]. constructor; [|by apply IH].
  intros (y & Exy & Hy)%list_elem_of_fmap. apply list_elem_of_omap in Hy as (q & Hq & Hy).
  apply (read_mission_spec u fs m p x HR) in E as (info & _ & -> & ->); [|apply Hin, list_elem_of_here].
  apply (read_mission_spec u fs m q y HR (Hin' q Hq)) in Hy as (info' & _ & -> & ->).
  rewrite !persisted_id in Exy. rewrite Exy in Hp. done.
Qed.

(** Loading yields the missions that are not temporary, each once. *)
Lemma Storage_LoadAllMissionInfo_spec u fs m :
  store_rel u fs m →
  ∃ l fs', Storage_LoadAllMissionInfo fresh_mission fs u [] = (true, l, fs') ∧
    (∀ x, x ∈ l ↔ ∃ i info, m !! i = Some info ∧ isTemporary info = false ∧ x = persisted fresh_mission info) ∧
    NoDup (mission_id <$> l).
Proof.
  intros HR. unfold Storage_LoadAllMissionInfo. rewrite load_loop_spec. cbn [app].
  eexists _, _. split; [done|]. split.
  - intros x. rewrite list_elem_of_filter, (read_missions_spec u fs m x HR). split.
    + intros [Ht (i & info & Hi & ->)]. rewrite persisted_temporary in Ht. eauto.
    + intros (i & info & Hi & Ht & ->). rewrite persisted_temporary. eauto.
  - eapply sublist_NoDup; [|apply sublist_fmap_mono, sublist_filter].
    eapply read_missions_distinct; [done|apply dir_files_once|done].
Qed.

(** ** Posted calls and the order in which their tasks run *)

Definition issue (p : TaskDataPersistenceMgr) (c : StoreCall) : TaskDataPersistenceMgr :=
  match c with
  | CSave info => (Persist_SaveMissionInfo p info).2
  | CDelete i => (Persist_DeleteMissionInfo p i).2
  end.

(** The inner handle of the task the next call posts. *)
Definition next_task (p : TaskDataPersistenceMgr) : Ptr :=
  match persist_handler_ p with Some h => Pos.succ (fresh_ptr h) | None => 1%positive end.

Fixpoint issue_all (p : TaskDataPersistenceMgr) (cs : list StoreCall)
  : TaskDataPersistenceMgr * list Ptr :=
  match cs with
  | [] => (p, [])
  | c :: cs => let '(p', ts) := issue_all (issue p c) cs in (p', next_task p :: ts)
  end.

(** The manager serves the user [u] with the handler [h], whose tasks are numbered
    below its next number. *)
Record serves (p : TaskDataPersistenceMgr) (h : TaskHandlerWrap StoreJob) u : Prop := {
  sv_handler : persist_handler_ p = Some h;
  sv_user : currentMissionDataStorage_ p = Some u;
  sv_old : ∀ j, is_Some (pending h !! j) → (j < fresh_ptr h)%positive;
}.

(** FFRT holds the task [i] of the call [c]. *)
Definition holds (h : TaskHandlerWrap StoreJob) u (x : Ptr * StoreCall) : Prop :=
  ∃ w, pending h !! x.1 = Some w ∧ w_job w = JUser (job_of u x.2).

Lemma issue_spec p h u c :
  serves p h u →
  ∃ h', serves (issue p c) h' u ∧ persist_fs (issue p c) = persist_fs p ∧
    holds h' u (next_task p, c) ∧ (next_task p < fresh_ptr h')%positive ∧
    (fresh_ptr h < next_task p)%positive ∧
    ∀ j w, pending h !! j = Some w → pending h' !! j = Some w.
Proof.
  intros [Hh Hu Ho].
  assert (∃ name, (issue p c) = (post p (λ u, job_of u c) name).2) as [name ->]
    by (destruct c; by eexists).
  unfold post, next_task. rewrite Hh, Hu. cbn -[lookup insert]. eexists.
  split_and!; [split; [done|done|]|done| | | |].
  - intros j [w Hw]. cbn -[lookup insert] in Hw |- *.
    apply lookup_insert_Some in Hw as [[<- _]|[_ Hj]]; [lia|].
    assert (j < fresh_ptr h)%positive by (apply Ho; eauto). lia.
  - eexists. cbn -[lookup insert]. rewrite lookup_insert_eq. done.
  - cbn. lia.
  - lia.
  - intros j w Hj. cbn -[lookup insert]. rewrite lookup_insert_ne; [done|].
    assert (j < fresh_ptr h)%positive by (apply Ho; eauto). lia.
Qed.

Lemma issue_all_spec cs p h u :
  serves p h u →
  ∃ h', let '(p', ts) := issue_all p cs in
    serves p' h' u ∧ persist_fs p' = persist_fs p ∧ length ts = length cs ∧
    Forall (holds h' u) (zip ts cs) ∧ NoDup ts ∧ Forall (λ k : Ptr, fresh_ptr h < k)%positive ts ∧
    ∀ j w, pending h !! j = Some w → pending h' !! j = Some w.
Proof.
  revert p h. induction cs as [|c cs IH]; intros p h Hs.
  { exists h. cbn. split_and!; try done; constructor. }
  destruct (issue_spec p h u c Hs) as (h1 & Hs1 & Hf1 & (w & Hw & Hj) & Hlt & Hgt & Hk1).
  destruct (IH _ _ Hs1) as (h2 & H). cbn [issue_all]. destruct (issue_all (issue p c) cs) as [p' ts].
  destruct H as (Hs2 & Hf2 & Hlen & Hh2 & Hn & Hbig & Hk2). exists h2. split_and!.
  - done.
  - congruence.
  - cbn. by rewrite Hlen.
  - cbn [zip zip_with]. constructor; [|done]. exists w. split; [by apply Hk2|done].
  - constructor; [|done]. intros Hin. rewrite Forall_forall in Hbig. specialize (Hbig _ Hin). lia.
  - constructor; [done|]. eapply Forall_impl; [exact Hbig|]. cbn. intros. lia.
  - auto.
Qed.

(** A task that FFRT holds does its job on the files. *)
Lemma RunStoreTask_spec p h u x :
  serves p h u → holds h u x →
  ∃ h', serves (RunStoreTask p x.1) h' u ∧
    persist_fs (RunStoreTask p x.1) = run_job (persist_fs p) (job_of u x.2) ∧
    ∀ y, y.1 ≠ x.1 → holds h u y → holds h' u y.
Proof.
  intros [Hh Hu Ho] (w & Hw & Hj). unfold RunStoreTask, StartTask. rewrite Hh, Hw. cbn zeta. rewrite Hj.
  unfold FinishTask. cbn -[lookup insert delete]. rewrite lookup_insert_eq. eexists.
  split_and!; [split; [done|done|]|done|].
  - intros j [w' Hw']. cbn -[lookup delete] in Hw' |- *. apply lookup_delete_Some in Hw' as [_ Hw'].
    apply Ho. eauto.
  - intros y Hne (w' & Hw' & Hj'). exists w'. split; [|done]. cbn -[lookup delete].
    by rewrite lookup_delete_ne by congruence.
Qed.

Lemma run_all_spec order p h u m :
  serves p h u → Forall (holds h u) order → NoDup order.*1 → forallb call_ok order.*2 = true →
  store_rel u (persist_fs p) m →
  let p' := foldl RunStoreTask p order.*1 in
  currentMissionDataStorage_ p' = Some u ∧ store_rel u (persist_fs p') (foldl astep m order.*2).
Proof.
  revert p h m. induction order as [|x order IH]; intros p h m Hs Hh Hn Hok HR.
  { cbn. split; [apply Hs|done]. }
  inversion Hh as [|?? Hx Hh']; subst. cbn in Hn. inversion Hn as [|?? Hnx Hn']; subst.
  cbn in Hok. apply andb_true_iff in Hok as [Hc Hok].
  destruct (RunStoreTask_spec p h u x Hs Hx) as (h' & Hs' & Hf & Hk).
  cbn [fmap list_fmap foldl]. apply (IH _ h'); [done| |done|done|].
  - rewrite Forall_forall in Hh' |- *. intros y Hy. apply Hk; [|by apply Hh'].
    intros E. apply Hnx. rewrite <-E. by apply list_elem_of_fmap_2.
  - rewrite Hf. by apply run_job_rel.
Qed.

Lemma forallb_Permutation {A} (f : A → bool) (k l : list A) : k ≡ₚ l → forallb f k = forallb f l.
Proof. induction 1; cbn; try congruence. by rewrite !andb_assoc, (andb_comm (f y)). Qed.

Lemma storage_run p h u m0 cs order :
  serves p h u → store_rel u (persist_fs p) m0 → forallb call_ok cs = true →
  let '(p1, tasks) := issue_all p cs in
  order ≡ₚ zip tasks cs →
  let p2 := foldl RunStoreTask p1 order.*1 in
  ∃ l p3, Persist_LoadAllMissionInfo fresh_mission p2 [] = (true, l, p3) ∧
    (∀ x, x ∈ l ↔ ∃ i info, foldl astep m0 order.*2 !! i = Some info ∧ isTemporary info = false ∧
                            x = persisted fresh_mission info) ∧
    NoDup (mission_id <$> l).
Proof.
  intros Hs HR Hok. destruct (issue_all_spec cs p h u Hs) as (h1 & H).
  destruct (issue_all p cs) as [p1 tasks]. destruct H as (Hs1 & Hf & Hlen & Hh & Hn & _ & _).
  intros Hperm p2.
  destruct (run_all_spec order p1 h1 u m0) as [Hu HR2]; [done|by rewrite Hperm| | |by rewrite Hf|].
  - rewrite Hperm. rewrite fst_zip by lia. done.
  - rewrite (forallb_Permutation _ _ (zip tasks cs).*2) by (by rewrite Hperm). by rewrite snd_zip by lia.
  - unfold Persist_LoadAllMissionInfo. fold p2 in Hu, HR2. rewrite Hu.
    destruct (Storage_LoadAllMissionInfo_spec u (persist_fs p2) _ HR2) as (l & fs' & -> & Hl & Hd).
    eexists _, _. split; [done|]. by split.
Qed.

(** C40: The storage refines a map from identifiers to missions. Where the file
    functions do not fail ([FileReliable]), the files of the user are those of some map
    when the calls begin, and every mission that is saved is one the storage can write
    ([storable]: numbers of 32 bits, texts in UTF-8, an identifier that is not
    negative): for any sequence of saves and removals, once the posted tasks have run,
    in any order, a load succeeds and yields exactly the missions of the map that the
    calls build in the order in which their tasks ran, as far as they are not
    temporary: each once, and with what their file keeps of them. *)
Theorem storage_refines_map (p : TaskDataPersistenceMgr) (h : TaskHandlerWrap StoreJob) (u : Z)
    (m0 : gmap Z InnerMissionInfo) (cs : list StoreCall) (order : list (Ptr * StoreCall)) :
  serves p h u → store_rel u (persist_fs p) m0 → forallb call_ok cs = true →
  order ≡ₚ zip (issue_all p cs).2 cs →
  ∃ l p', Persist_LoadAllMissionInfo fresh_mission
            (foldl RunStoreTask (issue_all p cs).1 order.*1) [] = (true, l, p') ∧
    (∀ x, x ∈ l ↔ ∃ i info, foldl astep m0 order.*2 !! i = Some info ∧ isTemporary info = false ∧
                            x = persisted fresh_mission info) ∧
    NoDup (mission_id <$> l).
Proof.
  intros Hs HR Hok Hperm. pose proof (storage_run p h u m0 cs order Hs HR Hok) as H.
  destruct (issue_all p cs) as [p1 tasks]. by apply H.
Qed.

(** The handler of the storage is the concurrent one, and its tasks are not ordered:
    when the removal of a mission overtakes its save, the mission is loaded again. *)
Lemma deleted_mission_returns p h u m0 info :
  serves p h u → store_rel u (persist_fs p) m0 → storable info = true → isTemporary info = false →
  let '(p1, tasks) := issue_all p [CSave info; CDelete (mission_id info)] in
  ∃ l p3, Persist_LoadAllMissionInfo fresh_mission (foldl RunStoreTask p1 (reverse tasks)) [] = (true, l, p3) ∧
    persisted fresh_mission info ∈ l.
Proof.
  intros Hs HR Hst Ht. set (cs := [CSave info; CDelete (mission_id info)]).
  destruct (issue_all_spec cs p h u Hs) as (h1 & H).
  pose proof (storage_run p h u m0 cs) as Hrun. destruct (issue_all p cs) as [p1 tasks].
  destruct H as (_ & _ & Hlen & _). destruct tasks as [|i [|j [|]]]; try done.
  destruct (Hrun [(j, CDelete (mission_id info)); (i, CSave info)]) as (l & p3 & E & Hl & _);
    [done|done|cbn; by rewrite Hst|apply Permutation_swap|].
  exists l, p3. split; [exact E|]. apply Hl. exists (mission_id info), info. cbn -[lookup insert delete].
  split; [apply lookup_insert_eq|done].
Qed.
End Refine.

(** ** A file system that satisfies the laws *)

Module SampleFiles.
(** The part of a path after its last separator. *)
Fixpoint file_name (s : string) : string :=
  match s with
  | EmptyString => EmptyString
  | String _ s' => if no_char "/" s then s else file_name s'
  end.

Definition sample_files : FileLib := {|
  FS := gmap string string;
  files := λ fs, fs;
  GetDirFiles := λ fs d, filter (λ p, below d p = true) (map_to_list fs).*1;
  LoadStringFromFile := λ fs p, fs !! p;
  SaveStringToFile := λ fs p s, (true, <[p := s]> fs);
  RemoveFile := λ fs p, (true, delete p fs);
  FileExists := λ fs p, bool_decide (is_Some (fs !! p));
  ForceCreateDirectory := λ fs d, (true, fs);
  ForceRemoveDirectory := λ fs d, (true, filter (λ x, below d x.1 = false) fs);
  ExtractFilePath := λ p, p;
  ExtractFileName := file_name;
|}.

Lemma file_name_spec (d f : string) : no_char "/" f = true → file_name (d +:+ "/" +:+ f) = f.
Proof.
  intros Hf. assert (file_name f = f) as Hn by (destruct f; [done|]; cbn [file_name]; by rewrite Hf).
  induction d as [|c d IH]; [exact Hn|]. rewrite string_app_cons. cbn [file_name].
  assert (no_char "/" (String c (d +:+ "/" +:+ f)) = false) as ->; [|done].
  cbn [no_char]. rewrite no_char_app. cbn. by rewrite !andb_false_r.
Qed.

#[global] Instance sample_files_laws : FileLaws sample_files.
Proof.
  split; cbn -[lookup insert delete filter].
  - intros fs d p. rewrite list_elem_of_filter, list_elem_of_fmap. split.
    + intros [Hb ([q s] & -> & Hq%elem_of_map_to_list)]. split; [by eexists|done].
    + intros [[s Hs] Hb]. split; [done|]. exists (p, s). split; [done|by apply elem_of_map_to_list].
  - intros fs d. apply NoDup_filter, NoDup_fst_map_to_list.
  - done.
  - done.
  - done.
  - done.
  - done.
  - apply file_name_spec.
Qed.

#[global] Instance sample_files_reliable : FileReliable sample_files.
Proof. by split. Qed.

Definition sample_persist : @TaskDataPersistenceMgr SampleLibs.sample_want sample_files :=
  @mkPersist SampleLibs.sample_want sample_files ∅ (Some TaskHandlerWrap_new) {[100%Z := ()]} (Some 100%Z) 100.
End SampleFiles.

Lemma storage_refines_map_witness :
  let WL := SampleLibs.sample_want in let JL := SampleLibs.sample_json in let FL := SampleFiles.sample_files in
  let cs := [CSave (SampleLibs.sample_mission 7 "1042"); CDelete 7] in
  ∃ l p', Persist_LoadAllMissionInfo (SampleLibs.sample_mission 0 "")
    (foldl RunStoreTask (issue_all SampleFiles.sample_persist cs).1 [2%positive; 4%positive]) [] = (true, l, p') ∧
    ∀ x, x ∈ l ↔ ∃ i info, (∅ : gmap Z InnerMissionInfo) !! i = Some info ∧ isTemporary info = false ∧
      x = persisted (SampleLibs.sample_mission 0 "") info.
Proof.
  intros WL JL FL cs.
  destruct (storage_refines_map (JL := JL) (FL := FL) (SampleLibs.sample_mission 0 "") SampleFiles.sample_persist
    TaskHandlerWrap_new 100 ∅ cs [(2%positive, CSave (SampleLibs.sample_mission 7 "1042")); (4%positive, CDelete 7)])
    as (l & p' & E & Hl & _).
  - split; [reflexivity|reflexivity|]. intros j [w Hw]. cbn -[lookup] in Hw. by rewrite lookup_empty in Hw.
  - split; [intros i info H; by rewrite lookup_empty in H| |intros i info H; by rewrite lookup_empty in H].
    intros p [s Hs]. cbn -[lookup] in Hs. by rewrite lookup_empty in Hs.
  - vm_compute. reflexivity.
  - reflexivity.
  - exists l, p'. split; [exact E|]. intros x. rewrite Hl. cbn -[lookup insert delete].
    rewrite (delete_insert_id (M := gmap Z)) by apply lookup_empty. reflexivity.
Defined.
