(* ===== verification/AppRecord.v ===== *)
(** * Running records of the application manager

    [services/appmgr]: the record of a process ([app_running_record.cpp]), of its
    modules ([module_running_record.cpp]) and of its abilities
    ([ability_running_record.cpp]), with the members that decide whether a process
    ends or is cached. Records are shared objects in the heaps of [AppWorld]; a
    [shared_ptr] is [option Addr]. Types of the bundle framework are kept as far as
    the code compares them. *)

From stdpp Require Import prelude gmap strings list.
From Stdlib Require Import ZArith Lia.
From S2P Require Import Prelude TaskHandler.

Abbreviation Addr := positive (only parsing).
Abbreviation Token := positive (only parsing).

(** Enumerations of the bundle framework: the enumerators the code names. *)
Inductive AbilityType := PAGE | EXTENSION | OTHER_ABILITY (n : Z).
Inductive ExtensionAbilityType := SERVICE | OTHER_EXTENSION (n : Z).

#[global] Instance AbilityType_eq_dec : EqDecision AbilityType.
Proof. solve_decision. Defined.
#[global] Instance ExtensionAbilityType_eq_dec : EqDecision ExtensionAbilityType.
Proof. solve_decision. Defined.

Inductive SupportProcessCacheState := UNSPECIFIED | SUPPORT | NOT_SUPPORT.

Inductive ApplicationState :=
| APP_STATE_CREATE | APP_STATE_READY | APP_STATE_FOREGROUND | APP_STATE_FOCUS
| APP_STATE_BACKGROUND | APP_STATE_TERMINATED | APP_STATE_END
| APP_STATE_SET_COLD_START | APP_STATE_CACHED.

#[global] Instance ApplicationState_eq_dec : EqDecision ApplicationState.
Proof. solve_decision. Defined.

Record ApplicationInfo := mkAppInfo {
  apiTargetVersion : Z;
  info_bundleName : string;
  isLauncherApp : bool;
}.

(** [AbilityInfo] and [ExtensionAbilityInfo] of a hap, by their types. *)
Record HapModuleInfo := mkHapModule {
  moduleName : string;
  abilityInfos : list (AbilityType * ExtensionAbilityType);
  extensionInfos : list ExtensionAbilityType;
}.

Record AbilityRunningRecord := mkAbility {
  ab_token : Token;
  ab_type : option AbilityType;     (* [info_->type], [None] when [info_] is null *)
  ab_isTerminating_ : bool;
}.

#[global] Instance AbilityRunningRecord_reconstruct : Reconstruct AbilityRunningRecord := λ a,
  mkAbility (ab_token a) (ab_type a) (ab_isTerminating_ a).

Record ModuleRunningRecord := mkModule {
  abilities_ : gmap Token Addr;
  terminateAbilities_ : gmap Token Addr;
  owenInfo_ : HapModuleInfo;
}.

#[global] Instance ModuleRunningRecord_reconstruct : Reconstruct ModuleRunningRecord := λ m,
  mkModule (abilities_ m) (terminateAbilities_ m) (owenInfo_ m).

Record AppRunningRecord := mkApp {
  mainBundleName_ : string;
  mainUid_ : Z;
  mainAppName_ : string;
  appInfo_ : option ApplicationInfo;
  isKeepAliveApp_ : bool;
  isSingleton_ : bool;
  isMainProcess_ : bool;
  hapModules_ : gmap string (list (option Addr));
  parentAppRecord_ : option Addr;
  procCacheSupportState_ : SupportProcessCacheState;
  processCacheBlocked : bool;
  isAttachedToStatusBar : bool;
  isTerminating : bool;
  priorityPid : option Z;           (* the pid of [priorityObject_], [None] when null *)
  appLifeCycleDeal_ : bool;         (* not null *)
  hasTaskHandler_ : bool;           (* [taskHandler_] is not null *)
  appInfos_ : gmap string ApplicationInfo;
}.

#[global] Instance AppRunningRecord_reconstruct : Reconstruct AppRunningRecord := λ r,
  mkApp (mainBundleName_ r) (mainUid_ r) (mainAppName_ r) (appInfo_ r) (isKeepAliveApp_ r)
    (isSingleton_ r) (isMainProcess_ r) (hapModules_ r) (parentAppRecord_ r)
    (procCacheSupportState_ r) (processCacheBlocked r) (isAttachedToStatusBar r) (isTerminating r)
    (priorityPid r) (appLifeCycleDeal_ r) (hasTaskHandler_ r) (appInfos_ r).

(** Closures posted to the task handler of the service. *)
Inductive Closure :=
| NotifyCached (appRecord : Addr)
| DelayKill (pid : Z).

(** The cache of processes ([cache_process_manager.h]). *)
Record CacheProcessManager := mkCacheMgr {
  maxProcCacheNum_ : Z;
  cachedAppRecordQueue_ : list (option Addr);
  shouldCheckApi : bool;
  shouldCheckSupport : bool;
  sameAppSet : gmap string (gmap Z (gset Addr));
  srvExtRecords : gset Addr;
  srvExtCheckedFlag : gset Addr;
}.

#[global] Instance CacheProcessManager_reconstruct : Reconstruct CacheProcessManager := λ c,
  mkCacheMgr (maxProcCacheNum_ c) (cachedAppRecordQueue_ c) (shouldCheckApi c)
    (shouldCheckSupport c) (sameAppSet c) (srvExtRecords c) (srvExtCheckedFlag c).

(** What the manager asks of other parts, in order. *)
Inductive AppCall :=
| CallCacheProcess (r : Addr)                          (* [appLifeCycleDeal_->ScheduleCacheProcess] *)
| CallSecurityExit (r : Addr)                          (* [appLifeCycleDeal_->ScheduleProcessSecurityExit] *)
| CallCacheStateChanged (r : Addr) (s : ApplicationState) (* observers *)
| CallSysEvent (r : Addr) (state : string).            (* [CACHE_START_APP] *)

#[global] Instance AppCall_eq_dec : EqDecision AppCall.
Proof. solve_decision. Defined.

(** The service the cache reaches through its weak pointer: its running records,
    [None] for a null [appRunningManager_], and whether it has a task handler. *)
Record AppMgrServiceInner := mkAppMgr {
  appRunningManager_ : option (gmap Z (option Addr));
  inner_taskHandler_ : bool;
}.

Record AppWorld := mkAppWorld {
  apps : gmap Addr AppRunningRecord;
  modules : gmap Addr ModuleRunningRecord;
  abilities : gmap Addr AbilityRunningRecord;
  taskHandlerW : TaskHandlerWrap Closure;
  cacheMgr : CacheProcessManager;
  appMgr_ : option AppMgrServiceInner;
  calls : list AppCall;
}.

#[global] Instance AppWorld_reconstruct : Reconstruct AppWorld := λ w,
  mkAppWorld (apps w) (modules w) (abilities w) (taskHandlerW w) (cacheMgr w) (appMgr_ w) (calls w).

Implicit Types (w : AppWorld) (r : AppRunningRecord) (a : Addr).

Definition log_call (c : AppCall) w : AppWorld := w <| calls ::= (.++ [c]) |>.

(** The record behind a pointer that is not null. *)
Definition app_at w a : outcome AppRunningRecord := deref (apps w !! a).
Definition module_at w a : outcome ModuleRunningRecord := deref (modules w !! a).
Definition ability_at w a : outcome AbilityRunningRecord := deref (abilities w !! a).

(** ** Modules *)

(** [ModuleRunningRecord::GetAbilityRunningRecordByToken] *)
Definition Module_GetAbilityRunningRecordByToken (m : ModuleRunningRecord) (token : option Token)
  : option Addr :=
  match token with
  | None => None
  | Some t => abilities_ m !! t
  end.

Definition GetAbilityByTerminateLists (m : ModuleRunningRecord) (token : option Token)
  : option Addr :=
  match token with
  | None => None
  | Some t => terminateAbilities_ m !! t
  end.

Definition Module_IsLastAbilityRecord (m : ModuleRunningRecord) (token : option Token) : bool :=
  match token with
  | None => false
  | Some t => bool_decide (size (abilities_ m) = 1%nat) && bool_decide (is_Some (abilities_ m !! t))
  end.

(** The number of abilities whose information says they are pages. *)
Fixpoint count_pages w (l : list (Token * Addr)) (n : Z) : outcome Z :=
  match l with
  | [] => Ret n
  | (_, p) :: l =>
      let* ab := ability_at w p in
      count_pages w l (if bool_decide (ab_type ab = Some PAGE) then (n + 1)%Z else n)
  end.

Definition GetPageAbilitySize w (m : ModuleRunningRecord) : outcome Z :=
  count_pages w (map_to_list (abilities_ m)) 0.

Fixpoint exists_not_page w (l : list (Token * Addr)) : outcome bool :=
  match l with
  | [] => Ret false
  | (_, p) :: l =>
      let* ab := ability_at w p in
      match ab_type ab with
      | Some t => if bool_decide (t = PAGE) then exists_not_page w l else Ret true
      | None => exists_not_page w l
      end
  end.

Definition Module_ExtensionAbilityRecordExists w (m : ModuleRunningRecord) : outcome bool :=
  exists_not_page w (map_to_list (abilities_ m)).

(** ** Processes *)

Definition IsKeepAliveApp r : bool := isKeepAliveApp_ r && isSingleton_ r && isMainProcess_ r.

(** [GetAllModuleRecord]: the modules of all bundles, in the order of their names. *)
Definition GetAllModuleRecord r : list (option Addr) := map_iter (hapModules_ r) ≫= snd.

(** The first module in which a lookup of the token succeeds. *)
Fixpoint find_module w (look : ModuleRunningRecord → option Addr) (l : list (option Addr))
  : outcome (option Addr) :=
  match l with
  | [] => Ret None
  | None :: l => find_module w look l
  | Some p :: l =>
      let* m := module_at w p in
      match look m with
      | Some _ => Ret (Some p)
      | None => find_module w look l
      end
  end.

Definition GetModuleRunningRecordByToken w r (token : option Token) : outcome (option Addr) :=
  match token with
  | None => Ret None
  | Some _ => find_module w (λ m, Module_GetAbilityRunningRecordByToken m token) (GetAllModuleRecord r)
  end.

Definition GetModuleRunningRecordByTerminateLists w r (token : option Token)
  : outcome (option Addr) :=
  match token with
  | None => Ret None
  | Some _ => find_module w (λ m, GetAbilityByTerminateLists m token) (GetAllModuleRecord r)
  end.

Definition GetAbilityRunningRecordByToken w r (token : option Token) : outcome (option Addr) :=
  let* p := GetModuleRunningRecordByToken w r token in
  match p with
  | None => Ret None
  | Some p => let* m := module_at w p in Ret (Module_GetAbilityRunningRecordByToken m token)
  end.

Definition IsLastAbilityRecord w r (token : option Token) : outcome bool :=
  let* p := GetModuleRunningRecordByToken w r token in
  match p with
  | None => Ret false
  | Some p =>
      if bool_decide (length (GetAllModuleRecord r) = 1%nat)
      then let* m := module_at w p in Ret (Module_IsLastAbilityRecord m token)
      else Ret false
  end.

(** The loop of [IsLastPageAbilityRecord], which leaves when it has seen two pages. *)
Fixpoint sum_pages w (l : list (option Addr)) (n : Z) : outcome bool :=
  match l with
  | [] => Ret (n =? 1)%Z
  | p :: l =>
      let* n' := match p with
                 | Some p => let* m := module_at w p in
                             let* k := GetPageAbilitySize w m in Ret (n + k)%Z
                 | None => Ret n
                 end in
      if (1 <? n')%Z then Ret false else sum_pages w l n'
  end.

Definition IsLastPageAbilityRecord w r (token : option Token) : outcome bool :=
  let* p := GetModuleRunningRecordByToken w r token in
  match p with
  | None => Ret false
  | Some _ => sum_pages w (GetAllModuleRecord r) 0
  end.

Fixpoint any_extension w (l : list (option Addr)) : outcome bool :=
  match l with
  | [] => Ret false
  | None :: l => any_extension w l
  | Some p :: l =>
      let* m := module_at w p in
      let* b := Module_ExtensionAbilityRecordExists w m in
      if b then Ret true else any_extension w l
  end.

Definition ExtensionAbilityRecordExists w r : outcome bool :=
  any_extension w (GetAllModuleRecord r).

(** [AppRunningRecord::CancelTask] and [PostTask] reach the shared task handler. *)
Section Tasks.
Variable ffrt_cancel : gmap Ptr (Work Closure) → Ptr → bool.

Definition App_CancelTask w r (msg : string) : AppWorld * bool :=
  if hasTaskHandler_ r then
    let '(h, ok) := CancelTask ffrt_cancel (taskHandlerW w) msg in (w <| taskHandlerW := h |>, ok)
  else (w, false).

Definition App_PostTask w r (msg : string) (timeOut : Z) (task : Closure) : AppWorld :=
  if hasTaskHandler_ r then
    w <| taskHandlerW := (SubmitTask_named (taskHandlerW w) (Some (JUser task)) msg timeOut true).1 |>
  else w.
End Tasks.

Definition ScheduleCacheProcess w a r : AppWorld :=
  if appLifeCycleDeal_ r then log_call (CallCacheProcess a) w else w.

Definition SetTerminating w a : AppWorld :=
  w <| apps ::= alter (λ r, r <| isTerminating := true |>) a |>.

Definition SetSupportedProcessCache w a (isSupport : bool) : AppWorld :=
  w <| apps ::= alter (λ r, r <| procCacheSupportState_ :=
         if isSupport then SUPPORT else NOT_SUPPORT |>) a |>.

(** ** Modules that come and go

    A record that is made gets an address at which there is none. *)

Definition next_addr {V : Type} (m : gmap Addr V) : Addr := Pos.succ (set_fold Pos.max 1%positive (dom m)).

(** [GetModuleRecordByModuleName]: the loop, which follows every pointer. *)
Fixpoint find_by_name w (name : string) (l : list (option Addr)) : outcome (option Addr) :=
  match l with
  | [] => Ret None
  | None :: _ => Undef
  | Some q :: l =>
      let* m := module_at w q in
      if decide (moduleName (owenInfo_ m) = name) then Ret (Some q) else find_by_name w name l
  end.

Definition GetModuleRecordByModuleName w r (bundleName name : string) : outcome (option Addr) :=
  match hapModules_ r !! bundleName with
  | Some moduleRecords => find_by_name w name moduleRecords
  | None => Ret None
  end.

(** [std::make_shared<ModuleRunningRecord>] and [Init]. *)
Definition make_module w (hapModuleInfo : HapModuleInfo) : AppWorld * Addr :=
  let q := next_addr (modules w) in
  (w <| modules ::= <[q := mkModule ∅ ∅ hapModuleInfo]> |>, q).

(** [ModuleRunningRecord::AddAbility] with a token and information that are not
    null; of the information, the type. *)
Definition AddAbility w (q : Addr) (token : Token) (abilityInfo : AbilityType) : outcome AppWorld :=
  let* m := module_at w q in
  match Module_GetAbilityRunningRecordByToken m (Some token) with
  | Some _ => Ret w
  | None =>
      let x := next_addr (abilities w) in
      Ret (w <| abilities ::= <[x := mkAbility token (Some abilityInfo) false]> |>
             <| modules ::= <[q := m <| abilities_ ::= <[token := x]> |>]> |>)
  end.

(** The module of the hap in the record at [a], made if it is not there. *)
Definition module_for w a r (appInfo : ApplicationInfo) (hapModuleInfo : HapModuleInfo)
  : outcome (AppWorld * Addr) :=
  let bundleName := info_bundleName appInfo in
  match hapModules_ r !! bundleName with
  | Some l =>
      let* moduleRecord := GetModuleRecordByModuleName w r bundleName (moduleName hapModuleInfo) in
      match moduleRecord with
      | Some q => Ret (w, q)
      | None =>
          let '(w, q) := make_module w hapModuleInfo in
          Ret (w <| apps ::= <[a := r <| hapModules_ ::= <[bundleName := l ++ [Some q]]> |>]> |>, q)
      end
  | None =>
      let '(w, q) := make_module w hapModuleInfo in
      Ret (w <| apps ::= <[a := r <| hapModules_ ::= <[bundleName := [Some q]]> |>
                                  <| appInfos_ ::= λ m, match m !! bundleName with
                                                        | Some _ => m
                                                        | None => <[bundleName := appInfo]> m
                                                        end |>]> |>, q)
  end.

Definition AddModule w a (appInfo : option ApplicationInfo) (abilityInfo : option AbilityType)
    (token : option Token) (hapModuleInfo : HapModuleInfo) : outcome AppWorld :=
  match appInfo with
  | None => Ret w
  | Some appInfo =>
      let* r := app_at w a in
      let* (w, q) := module_for w a r appInfo hapModuleInfo in
      match abilityInfo, token with
      | Some abilityInfo, Some token => AddAbility w q token abilityInfo
      | _, _ => Ret w
      end
  end.

(** [AddModules], which passes no ability. *)
Fixpoint AddModules w a (appInfo : option ApplicationInfo) (moduleInfos : list HapModuleInfo)
  : outcome AppWorld :=
  match moduleInfos with
  | [] => Ret w
  | iter :: moduleInfos =>
      let* w := AddModule w a appInfo None None iter in AddModules w a appInfo moduleInfos
  end.

(** The loop of [RemoveModuleRecord] over the bundles: the first in whose list the
    module is loses it, and goes with its information when the list is then empty. *)
Fixpoint remove_module_loop (moduleRecord : option Addr) (isExtensionDebug : bool)
    (items : list (string * list (option Addr))) r : AppRunningRecord :=
  match items with
  | [] => r
  | (bundleName, l) :: items =>
      if existsb (λ q, bool_decide (moduleRecord = q)) l then
        let l := erase_first (λ q, bool_decide (moduleRecord = q)) l in
        if bool_decide (l = []) && negb isExtensionDebug
        then r <| appInfos_ ::= delete bundleName |> <| hapModules_ ::= delete bundleName |>
        else r <| hapModules_ ::= <[bundleName := l]> |>
      else remove_module_loop moduleRecord isExtensionDebug items r
  end.

Definition RemoveModuleRecord w a (moduleRecord : option Addr) (isExtensionDebug : bool)
  : outcome AppWorld :=
  let* r := app_at w a in
  Ret (w <| apps ::= <[a := remove_module_loop moduleRecord isExtensionDebug (map_iter (hapModules_ r)) r]> |>).
