(* ===== verification/CacheProcess.v ===== *)
(** * Cached processes

    [services/appmgr/src/cache_process_manager.cpp]: the queue of processes that
    stay alive after their last ability ended, the sets of cached processes per
    application, and the check whether a process may be cached; with the members of
    the application manager it calls ([IsAppProcessesAllCached],
    [OnAppCacheStateChanged], [KillApplicationByRecord]).

    [ShrinkAndKillCache] keeps a reference to the first element of a [std::deque]
    over the [pop_front] that destroys it. What a read through that reference gives
    is the parameter [popped_front]: the standard leaves it undefined
    ([popped_undefined]); a library that leaves the pointer of a destroyed
    [shared_ptr] in place gives the old value ([popped_kept]). *)

From stdpp Require Import prelude gmap strings list sorting.
From Stdlib Require Import ZArith Lia.
From S2P Require Import Prelude TaskHandler AppRecord.

Implicit Types (w : AppWorld) (r : AppRunningRecord) (a : Addr) (p : option Addr).

Definition API12 : Z := 12.
Definition API_VERSION_MOD : Z := 100.
Definition DELAY_NOTIFY_PROCESS_CACHED_STATE : Z := 2000.
Definition KILL_PROCESS_TIMEOUT : Z := 3000.
Definition DELAY_CACHED_STATE_NOTIFY : string := "DELAY_CACHED_STATE_NOTIFY".

Definition popped_undefined p : outcome (option Addr) := Undef.
Definition popped_kept p : outcome (option Addr) := Ret p.

(** [*begin()] of a [std::set] of pointers: the least address. *)
Definition set_begin (X : gset Addr) : option Addr :=
  head (merge_sort Pos.le (elements X)).

Definition QueryEnableProcessCache (c : CacheProcessManager) : bool := (0 <? maxProcCacheNum_ c)%Z.

(** [maxProcessCacheNum] is the system parameter, 0 when it is not set. *)
Definition RefreshCacheNum w (maxProcessCacheNum : Z) : AppWorld :=
  w <| cacheMgr ::= λ c, c <| maxProcCacheNum_ := maxProcessCacheNum |> |>.

Definition CacheProcessManager_new (maxNum : Z) (checkApi checkSupport : bool)
  : CacheProcessManager := mkCacheMgr maxNum [] checkApi checkSupport ∅ ∅ ∅.

Definition SetAppMgr w (m : option AppMgrServiceInner) : AppWorld := w <| appMgr_ := m |>.

Definition IsCachedProcess (c : CacheProcessManager) p : bool :=
  match p with
  | None => false
  | Some _ => existsb (λ q, bool_decide (q = p)) (cachedAppRecordQueue_ c)
  end.

Definition GetCurrentCachedProcNum (c : CacheProcessManager) : Z :=
  i32 (Z.of_nat (length (cachedAppRecordQueue_ c))).

(** ** The sets of cached processes per bundle and user identifier *)

Abbreviation app_sets := (gmap string (gmap Z (gset positive))) (only parsing).

Definition AddToApplicationSet w p : outcome AppWorld :=
  match p with
  | None => Ret w
  | Some a =>
      let* r := app_at w a in
      let bundleName := mainBundleName_ r in
      let uid := mainUid_ r in
      let S := sameAppSet (cacheMgr w) in
      let S := match S !! bundleName with
               | None => <[bundleName := {[uid := {[a]}]}]> S
               | Some _ => S
               end in
      let m := default ∅ (S !! bundleName) in
      let S := match m !! uid with
               | None => <[bundleName := <[uid := {[a]}]> m]> S
               | Some X => <[bundleName := <[uid := {[a]} ∪ X]> m]> S
               end in
      Ret (w <| cacheMgr ::= λ c, c <| sameAppSet := S |> |>)
  end.

Definition RemoveFromApplicationSet w p : outcome AppWorld :=
  match p with
  | None => Ret w
  | Some a =>
      let* r := app_at w a in
      let bundleName := mainBundleName_ r in
      let S := sameAppSet (cacheMgr w) in
      match S !! bundleName with
      | None => Ret w
      | Some m =>
          let uid := mainUid_ r in
          match m !! uid with
          | None => Ret w
          | Some X =>
              let X := X ∖ {[a]} in
              let m := if decide (size X = 0%nat) then delete uid m else <[uid := X]> m in
              let S := if decide (size m = 0%nat) then delete bundleName S
                       else <[bundleName := m]> S in
              Ret (w <| cacheMgr ::= λ c, c <| sameAppSet := S |> |>)
          end
      end
  end.

(** ** Whether a process may be cached *)

(** A hap declares a service extension, as an ability or as an extension. *)
Definition hap_has_service (i : HapModuleInfo) : bool :=
  existsb (λ x, bool_decide (x.1 = EXTENSION) && bool_decide (x.2 = SERVICE)) (abilityInfos i) ||
  existsb (λ x, bool_decide (x = SERVICE)) (extensionInfos i).

(** The loop over the modules, which records the process at every service found. *)
Fixpoint scan_modules w (l : list (option Addr)) a (records : gset Addr) : outcome (gset Addr) :=
  match l with
  | [] => Ret records
  | None :: l => scan_modules w l a records
  | Some q :: l =>
      let* m := module_at w q in
      scan_modules w l a (if hap_has_service (owenInfo_ m) then {[a]} ∪ records else records)
  end.

Definition IsAppContainsSrvExt w p : outcome (AppWorld * bool) :=
  match p with
  | None => Ret (w, false)
  | Some a =>
      let c := cacheMgr w in
      if decide (a ∈ srvExtCheckedFlag c) then Ret (w, bool_decide (a ∈ srvExtRecords c))
      else
        let* r := app_at w a in
        let* records := scan_modules w (GetAllModuleRecord r) a (srvExtRecords c) in
        Ret (w <| cacheMgr ::= λ c, c <| srvExtRecords := records |>
                                      <| srvExtCheckedFlag ::= ({[a]} ∪.) |> |>,
             bool_decide (a ∈ records))
  end.

Section Manager.
(** The bundle of the shell assistant, from the configuration of the device. *)
Variable shellAssistantBundleName : string.
(** What a read of the popped element gives. *)
Variable popped_front : option Addr → outcome (option Addr).
(** The answer of FFRT to a cancellation. *)
Variable ffrt_cancel : gmap Ptr (Work Closure) → Ptr → bool.
(** Whether the process exits within the time [WaitForRemoteProcessExit] waits. *)
Variable process_exits : Z → bool.

Definition IsAppSupportProcessCacheInnerFirst w p : outcome bool :=
  match p with
  | None => Ret false
  | Some a =>
      let* r := app_at w a in
      if bool_decide (mainBundleName_ r = shellAssistantBundleName) then Ret false
      else if processCacheBlocked r then Ret false
      else match procCacheSupportState_ r with
           | UNSPECIFIED => Ret (if shouldCheckSupport (cacheMgr w) then false else true)
           | SUPPORT => Ret true
           | NOT_SUPPORT => Ret false
           end
  end.

Definition IsAppSupportProcessCache w p : outcome (AppWorld * bool) :=
  match p with
  | None => Ret (w, false)
  | Some a =>
      let* r := app_at w a in
      match appInfo_ r with
      | None => Ret (w, false)
      | Some appInfo =>
          let actualVer := Z.rem (apiTargetVersion appInfo) API_VERSION_MOD in
          if shouldCheckApi (cacheMgr w) && (actualVer <? API12)%Z then Ret (w, false)
          else
            let* (w, contains) := IsAppContainsSrvExt w p in
            if contains then Ret (w, false)
            else if isAttachedToStatusBar r then Ret (w, false)
            else if IsKeepAliveApp r then Ret (w, false)
            else if bool_decide (is_Some (parentAppRecord_ r)) then Ret (w, false)
            else let* b := IsAppSupportProcessCacheInnerFirst w p in Ret (w, b)
      end
  end.

Definition IsAppShouldCache w p : outcome (AppWorld * bool) :=
  match p with
  | None => Ret (w, false)
  | Some _ =>
      if negb (QueryEnableProcessCache (cacheMgr w)) then Ret (w, false)
      else if IsCachedProcess (cacheMgr w) p then Ret (w, true)
      else IsAppSupportProcessCache w p
  end.

(** The loop over the modules of [IsAppAbilitiesEmpty]. *)
Fixpoint modules_empty w (l : list (option Addr)) : outcome bool :=
  match l with
  | [] => Ret true
  | None :: l => modules_empty w l
  | Some q :: l =>
      let* m := module_at w q in
      if decide (abilities_ m = ∅) then modules_empty w l else Ret false
  end.

Definition IsAppAbilitiesEmpty w p : outcome bool :=
  match p with
  | None => Ret false
  | Some a => let* r := app_at w a in modules_empty w (GetAllModuleRecord r)
  end.

(** ** The application manager behind [appMgr_] *)

(** [AppRunningManager::IsAppProcessesAllCached] *)
Fixpoint all_cached w (bundleName : string) (uid : Z) (cachedSet : gset Addr)
    (items : list (Z * option Addr)) : outcome (AppWorld * bool) :=
  match items with
  | [] => Ret (w, true)
  | (_, None) :: items => all_cached w bundleName uid cachedSet items
  | (_, Some a) :: items =>
      let* r := app_at w a in
      if bool_decide (mainBundleName_ r = bundleName) && bool_decide (mainUid_ r = uid) then
        let* (w, supportCache) := IsAppSupportProcessCache w (Some a) in
        if (bool_decide (a ∉ cachedSet) && supportCache) || negb supportCache then Ret (w, false)
        else all_cached w bundleName uid cachedSet items
      else all_cached w bundleName uid cachedSet items
  end.

Definition Running_IsAppProcessesAllCached w (running : gmap Z (option Addr)) (bundleName : string)
    (uid : Z) (cachedSet : gset Addr) : outcome (AppWorld * bool) :=
  if decide (size cachedSet = 0%nat) then Ret (w, false)
  else all_cached w bundleName uid cachedSet (map_iter running).

(** [AppMgrServiceInner::IsAppProcessesAllCached] *)
Definition IsAppProcessesAllCached w (s : AppMgrServiceInner) (bundleName : string) (uid : Z)
    (cachedSet : gset Addr) : outcome (AppWorld * bool) :=
  match appRunningManager_ s with
  | None => Ret (w, false)
  | Some running => Running_IsAppProcessesAllCached w running bundleName uid cachedSet
  end.

Definition OnAppCacheStateChanged w p (state : ApplicationState) : outcome AppWorld :=
  match p with
  | None => Ret w
  | Some a =>
      let* r := app_at w a in
      match priorityPid r with
      | None => Ret w
      | Some _ => Ret (log_call (CallCacheStateChanged a state) w)
      end
  end.

Definition PrepareActivateCache w p : outcome AppWorld :=
  if negb (QueryEnableProcessCache (cacheMgr w)) then Ret w
  else match p with
       | None => Ret w
       | Some _ =>
           if negb (IsCachedProcess (cacheMgr w) p) then Ret w
           else match appMgr_ w with
                | None => Ret w
                | Some _ => OnAppCacheStateChanged w p APP_STATE_READY
                end
       end.

(** [AppRunningRecord::ScheduleProcessSecurityExit] *)
Definition ScheduleProcessSecurityExit w a r : outcome AppWorld :=
  if appLifeCycleDeal_ r then
    let* w := PrepareActivateCache w (Some a) in Ret (log_call (CallSecurityExit a) w)
  else Ret w.

Definition KillApplicationByRecord w (s : AppMgrServiceInner) p : outcome AppWorld :=
  match p with
  | None => Ret w
  | Some a =>
      if negb (inner_taskHandler_ s) then Ret w
      else
        let* r := app_at w a in
        let* pid := deref (priorityPid r) in
        let w := SetTerminating w a in
        let* w := ScheduleProcessSecurityExit w a r in
        if process_exits pid then Ret w
        else Ret (w <| taskHandlerW := (SubmitTask_named (taskHandlerW w) (Some (JUser (DelayKill pid)))
                       "DelayKillProcess" KILL_PROCESS_TIMEOUT true).1 |>)
  end.

(** ** The operations of the cache *)

(** [HiSysEventWrite] reads the application information of the record. *)
Definition sys_event w a (state : string) : outcome AppWorld :=
  let* r := app_at w a in
  let* _ := deref (appInfo_ r) in
  Ret (log_call (CallSysEvent a state) w).

Definition KillProcessByRecord w p : outcome (AppWorld * bool) :=
  match p with
  | None => Ret (w, false)
  | Some a =>
      match appMgr_ w with
      | None => Ret (w, false)
      | Some s =>
          let* w := OnAppCacheStateChanged w p APP_STATE_READY in
          let* w := KillApplicationByRecord w s p in
          Ret (w, true)
      end
  end.

(** The first loop of [ShrinkAndKillCache]; [q] is the queue. *)
Fixpoint shrink_loop w (q : list (option Addr)) (cleanList : list Addr)
  : outcome (AppWorld * list Addr) :=
  let w := w <| cacheMgr ::= λ c, c <| cachedAppRecordQueue_ := q |> |> in
  if (maxProcCacheNum_ (cacheMgr w) <? GetCurrentCachedProcNum (cacheMgr w))%Z then
    match q with
    | [] => Undef
    | x :: q =>
        let w := w <| cacheMgr ::= λ c, c <| cachedAppRecordQueue_ := q |> |> in
        let* tmpAppRecord := popped_front x in
        let* w := RemoveFromApplicationSet w tmpAppRecord in
        match tmpAppRecord with
        | None => shrink_loop w q cleanList
        | Some a => shrink_loop w q (cleanList ++ [a])
        end
    end
  else Ret (w, cleanList).

(** The second loop: the records removed are reported and killed. *)
Fixpoint kill_loop w (cleanList : list Addr) : outcome AppWorld :=
  match cleanList with
  | [] => Ret w
  | a :: cleanList =>
      let* w := sys_event w a "killForOverload" in
      let* (w, _) := KillProcessByRecord w (Some a) in
      kill_loop w cleanList
  end.

Definition ShrinkAndKillCache w : outcome AppWorld :=
  if (maxProcCacheNum_ (cacheMgr w) <=? 0)%Z then Ret w
  else
    let* (w, cleanList) := shrink_loop w (cachedAppRecordQueue_ (cacheMgr w)) [] in
    kill_loop w cleanList.

Definition PenddingCacheProcess w p : outcome (AppWorld * bool) :=
  if negb (QueryEnableProcessCache (cacheMgr w)) then Ret (w, false)
  else match p with
       | None => Ret (w, false)
       | Some a =>
           let* r := app_at w a in
           if IsKeepAliveApp r then Ret (w, false)
           else
             let w := w <| cacheMgr ::= λ c, c <| cachedAppRecordQueue_ ::= (.++ [p]) |> |> in
             let* w := AddToApplicationSet w p in
             let* w := ShrinkAndKillCache w in
             Ret (w, true)
       end.

Definition CheckAndCacheProcess w p : outcome (AppWorld * bool) :=
  if negb (QueryEnableProcessCache (cacheMgr w)) then Ret (w, false)
  else match p with
       | None => Ret (w, false)
       | Some a =>
           if negb (IsCachedProcess (cacheMgr w) p) then Ret (w, false)
           else
             let* empty := IsAppAbilitiesEmpty w p in
             if negb empty then Ret (w, true)
             else
               let* r := app_at w a in
               let w := ScheduleCacheProcess w a r in
               let* w := sys_event w a "processEnterCache" in
               let '(w, _) := App_CancelTask ffrt_cancel w r DELAY_CACHED_STATE_NOTIFY in
               let w := App_PostTask w r DELAY_CACHED_STATE_NOTIFY
                          DELAY_NOTIFY_PROCESS_CACHED_STATE (NotifyCached a) in
               Ret (w, true)
       end.

Definition CheckAndNotifyCachedState w p : outcome (AppWorld * bool) :=
  match p with
  | None => Ret (w, false)
  | Some a =>
      match appMgr_ w with
      | None => Ret (w, false)
      | Some s =>
          let* r := app_at w a in
          let bundleName := mainBundleName_ r in
          let uid := mainUid_ r in
          match sameAppSet (cacheMgr w) !! bundleName ≫= (.!! uid) with
          | None => Ret (w, false)
          | Some X =>
              if decide (size X = 0%nat) then Ret (w, false)
              else
                let* (w, all) := IsAppProcessesAllCached w s bundleName uid X in
                if negb all then Ret (w, false)
                else
                  let notifyRecord := set_begin X in
                  let* w := OnAppCacheStateChanged w notifyRecord APP_STATE_CACHED in
                  Ret (w, true)
          end
      end
  end.

(** The loop of [RemoveCacheRecord]: every occurrence is erased. *)
Fixpoint remove_loop w (q : list (option Addr)) p (kept : list (option Addr)) : outcome AppWorld :=
  match q with
  | [] => Ret (w <| cacheMgr ::= λ c, c <| cachedAppRecordQueue_ := kept |> |>)
  | x :: q =>
      if decide (p = x) then
        let* w := RemoveFromApplicationSet w x in remove_loop w q p kept
      else remove_loop w q p (kept ++ [x])
  end.

Definition RemoveCacheRecord w p : outcome AppWorld :=
  remove_loop w (cachedAppRecordQueue_ (cacheMgr w)) p [].

Definition OnProcessKilled w p : outcome AppWorld :=
  if negb (QueryEnableProcessCache (cacheMgr w)) then Ret w
  else match p with
       | None => Ret w
       | Some a =>
           let* (w, _) := CheckAndNotifyCachedState w p in
           let w := w <| cacheMgr ::= λ c, c <| srvExtRecords ::= (.∖ {[a]}) |>
                                             <| srvExtCheckedFlag ::= (.∖ {[a]}) |> |> in
           if negb (IsCachedProcess (cacheMgr w) p) then Ret w
           else
             let* w := RemoveCacheRecord w p in
             sys_event w a "destroyedByExternal"
       end.

Definition ReuseCachedProcess w p : outcome (AppWorld * bool) :=
  if negb (QueryEnableProcessCache (cacheMgr w)) then Ret (w, false)
  else match p with
       | None => Ret (w, false)
       | Some a =>
           if negb (IsCachedProcess (cacheMgr w) p) then Ret (w, false)
           else
             let* w := RemoveCacheRecord w p in
             let* w := sys_event w a "exitCacheNormal" in
             let* w := sys_event w a "processCacheLaunch" in
             match appMgr_ w with
             | None => Ret (w, true)
             | Some _ =>
                 let* w := OnAppCacheStateChanged w p APP_STATE_READY in Ret (w, true)
             end
       end.

(** [PrintCacheQueue], as the parts written to the stream. *)
Definition PrintCacheQueue w : outcome (Z * list string) :=
  let fix go (q : list (option Addr)) (out : list string) : outcome (list string) :=
    match q with
    | [] => Ret out
    | None :: q => go q (out ++ ["null, "])
    | Some a :: q => let* r := app_at w a in go q (out ++ [mainAppName_ r +:+ ", "])
    end in
  let* names := go (cachedAppRecordQueue_ (cacheMgr w)) [] in
  Ret (Z.of_nat (length (cachedAppRecordQueue_ (cacheMgr w))), names ++ ["."]).
End Manager.

(** ** Worlds that agree on what does not change

    The operations of the cache leave the records as they are, except for the mark
    of a terminating process. *)

Definition static r : AppRunningRecord := r <| isTerminating := false |>.

Record extends w w' : Prop := {
  ex_apps : ∀ a, static <$> apps w' !! a = static <$> apps w !! a;
  ex_modules : modules w' = modules w;
  ex_appMgr : appMgr_ w' = appMgr_ w;
}.

#[global] Instance extends_preorder : PreOrder extends.
Proof.
  split; [by split|]. intros w1 w2 w3 [A1 B1 C1] [A2 B2 C2].
  split; [intros a; by rewrite A2, A1|by rewrite B2|by rewrite C2].
Qed.

Lemma extends_same w w' :
  apps w' = apps w → modules w' = modules w → appMgr_ w' = appMgr_ w → extends w w'.
Proof. intros E ??. split; [by intros a; rewrite E|done..]. Qed.

(** The bundle and user of the record at [a]. *)
Definition key_of w a : option (string * Z) :=
  (λ r, (mainBundleName_ r, mainUid_ r)) <$> apps w !! a.

Lemma key_of_static w a :
  key_of w a = (λ r, (mainBundleName_ r, mainUid_ r)) <$> (static <$> apps w !! a).
Proof. unfold key_of. by destruct (apps w !! a). Qed.

Lemma extends_key w w' a : extends w w' → key_of w' a = key_of w a.
Proof. intros H. rewrite !key_of_static. by rewrite (ex_apps _ _ H). Qed.

Lemma extends_app w w' a r' :
  extends w w' → apps w' !! a = Some r' → ∃ r, apps w !! a = Some r ∧ static r = static r'.
Proof.
  intros H E. pose proof (ex_apps _ _ H a) as Hs. rewrite E in Hs.
  destruct (apps w !! a) as [r|]; [|done]. exists r. split; [done|]. cbn in Hs. congruence.
Qed.

(** ** Well-formed worlds: every pointer the cache may follow is live, and records
    have their application information and priority object. *)
Record app_wf w r : Prop := {
  wf_info : is_Some (appInfo_ r);
  wf_pid : is_Some (priorityPid r);
  wf_modules : ∀ q, Some q ∈ GetAllModuleRecord r → is_Some (modules w !! q);
  wf_not_null : None ∉ GetAllModuleRecord r;
}.

Definition live w a : Prop := is_Some (apps w !! a).

Record world_wf w : Prop := {
  ww_apps : ∀ a r, apps w !! a = Some r → app_wf w r;
  ww_running : ∀ s running i a, appMgr_ w = Some s → appRunningManager_ s = Some running →
               running !! i = Some (Some a) → live w a;
}.

Lemma app_wf_static w r r' : static r = static r' → app_wf w r → app_wf w r'.
Proof. destruct r, r'. unfold static. cbn. intros [= ??]; subst. intros []. split; done. Qed.

Lemma extends_live w w' a : extends w w' → live w a ↔ live w' a.
Proof.
  intros H. unfold live. rewrite <-(fmap_is_Some static (apps w !! a)), <-(fmap_is_Some static (apps w' !! a)).
  by rewrite (ex_apps _ _ H).
Qed.

Lemma extends_wf w w' : extends w w' → world_wf w → world_wf w'.
Proof.
  intros He [Ha Hr]. split.
  - intros a r' E. destruct (extends_app _ _ _ _ He E) as (r & Er & Es).
    apply (app_wf_static w' r r' Es). destruct (Ha a r Er) as [? ? Hm ?]. split; [done|done| |done].
    intros q Hq. rewrite (ex_modules _ _ He). auto.
  - intros s running i a Hs Hrn Hi. rewrite (ex_appMgr _ _ He) in Hs.
    rewrite <-(extends_live w w') by done. eauto.
Qed.

#[export] Hint Resolve extends_wf : rt.

Lemma app_at_live w a : live w a → ∃ r, apps w !! a = Some r ∧ app_at w a = Ret r.
Proof. intros [r Hr]. exists r. unfold app_at. by rewrite Hr. Qed.

(** ** The memoised search for a service extension *)

(** The reference: some module of the process declares a service extension. *)
Definition contains_service w r : bool :=
  existsb (λ q, match q ≫= (modules w !!.) with
                | Some m => hap_has_service (owenInfo_ m)
                | None => false
                end) (GetAllModuleRecord r).

Definition contains_at w a : bool :=
  match apps w !! a with Some r => contains_service w r | None => false end.

(** What the memo says of the process at [a], and the search where it has not looked. *)
Definition remembered w a : bool :=
  if decide (a ∈ srvExtCheckedFlag (cacheMgr w)) then bool_decide (a ∈ srvExtRecords (cacheMgr w))
  else contains_at w a.

(** Only a process that was checked is recorded. *)
Definition memo_ok w : Prop := srvExtRecords (cacheMgr w) ⊆ srvExtCheckedFlag (cacheMgr w).

(** What is remembered of the process at [a] stays. *)
Record memo_keeps a w w' : Prop := {
  mk_checked : a ∈ srvExtCheckedFlag (cacheMgr w) → a ∈ srvExtCheckedFlag (cacheMgr w');
  mk_value : remembered w' a = remembered w a;
}.

#[global] Instance memo_keeps_preorder a : PreOrder (memo_keeps a).
Proof. split; [by split|]. intros ??? [] []. split; [auto|congruence]. Qed.

(** The rest of the cache as [c], whatever the memo holds. *)
Record memo_only (c c' : CacheProcessManager) : Prop := {
  mo_max : maxProcCacheNum_ c' = maxProcCacheNum_ c;
  mo_queue : cachedAppRecordQueue_ c' = cachedAppRecordQueue_ c;
  mo_api : shouldCheckApi c' = shouldCheckApi c;
  mo_support : shouldCheckSupport c' = shouldCheckSupport c;
  mo_sets : sameAppSet c' = sameAppSet c;
}.

#[global] Instance memo_only_preorder : PreOrder memo_only.
Proof. split; [by split|]. intros ??? [] []. split; congruence. Qed.

Lemma scan_modules_spec w l a X :
  (∀ q, Some q ∈ l → is_Some (modules w !! q)) →
  scan_modules w l a X = Ret (if existsb (λ q, match q ≫= (modules w !!.) with
                                | Some m => hap_has_service (owenInfo_ m)
                                | None => false
                                end) l then {[a]} ∪ X else X).
Proof.
  revert X. induction l as [|[q|] l IH]; intros X Hl; [done| |].
  - destruct (Hl q (list_elem_of_here _ _)) as [m Hm]. cbn. unfold module_at. rewrite Hm. cbn.
    rewrite IH by (intros q' Hq'; by apply Hl, list_elem_of_further).
    destruct (hap_has_service _); [|done]. cbn. case_match; f_equal; set_solver.
  - cbn. apply IH. intros q' Hq'. by apply Hl, list_elem_of_further.
Qed.

Lemma extends_contains w w' r r' :
  extends w w' → static r = static r' → contains_service w' r' = contains_service w r.
Proof.
  intros He Hs. unfold contains_service. rewrite (ex_modules _ _ He).
  apply (f_equal hapModules_) in Hs. cbn in Hs. unfold GetAllModuleRecord. by rewrite Hs.
Qed.

Lemma extends_contains_at w w' a : extends w w' → contains_at w' a = contains_at w a.
Proof.
  intros He. unfold contains_at. pose proof (ex_apps _ _ He a) as H.
  destruct (apps w' !! a) as [r'|], (apps w !! a) as [r|]; try done.
  apply (inj Some) in H. by apply extends_contains.
Qed.

Lemma extends_memo_keeps w w' a :
  extends w w' → srvExtRecords (cacheMgr w') = srvExtRecords (cacheMgr w) →
  srvExtCheckedFlag (cacheMgr w') = srvExtCheckedFlag (cacheMgr w) → memo_keeps a w w'.
Proof.
  intros He E1 E2. split; [by rewrite E2|]. unfold remembered.
  by rewrite E1, E2, (extends_contains_at w w' a He).
Qed.

(** What a query may change: the memo, which it extends. *)
Record quiet w w' : Prop := {
  qu_extends : extends w w';
  qu_memo : memo_only (cacheMgr w) (cacheMgr w');
  qu_calls : calls w' = calls w;
  qu_tasks : taskHandlerW w' = taskHandlerW w;
  qu_keeps : ∀ a, memo_keeps a w w';
}.

#[global] Instance quiet_preorder : PreOrder quiet.
Proof.
  split; [by split|]. intros ??? [A1 B1 C1 D1 E1] [A2 B2 C2 D2 E2].
  split; [by etrans|by etrans|congruence|congruence|intros a; etrans; [apply E1|apply E2]].
Qed.

Lemma quiet_wf w w' : quiet w w' → world_wf w → world_wf w'.
Proof. intros [] ?. by eapply extends_wf. Qed.

Lemma IsAppContainsSrvExt_spec w a r :
  world_wf w → memo_ok w → apps w !! a = Some r →
  ∃ w', IsAppContainsSrvExt w (Some a) = Ret (w', remembered w a) ∧
        quiet w w' ∧ memo_ok w' ∧ apps w' = apps w.
Proof.
  intros Hw Hm Hr. unfold IsAppContainsSrvExt, remembered at 1. case_decide as Hc; [by exists w|].
  assert (a ∉ srvExtRecords (cacheMgr w)) as Hn by (intros ?; by apply Hc, Hm).
  unfold app_at, contains_at. rewrite Hr. cbn [deref obind].
  rewrite scan_modules_spec by (apply (ww_apps _ Hw a r Hr)).
  fold (contains_service w r). cbn [obind].
  set (X := if contains_service w r then _ else _).
  assert (∀ b, b ∈ X ↔ b ∈ srvExtRecords (cacheMgr w) ∨ b = a ∧ contains_service w r = true) as HX.
  { intros b. unfold X. destruct (contains_service w r); set_solver. }
  assert (bool_decide (a ∈ X) = contains_service w r) as Ea.
  { apply eq_true_iff_eq. rewrite bool_decide_eq_true, HX. naive_solver. }
  rewrite Ea. eexists. split; [done|].
  split_and!; [|intros b; cbn; rewrite HX; specialize (Hm b); set_solver|done].
  split; [by apply extends_same|done..|]. intros b. split; [cbn; set_solver|].
  unfold remembered, contains_at. cbn -[lookup].
  destruct (decide (b = a)) as [->|Hne].
  - rewrite decide_True, decide_False, Ea, Hr by (done || set_solver). done.
  - rewrite (bool_decide_ext (b ∈ X) (b ∈ srvExtRecords (cacheMgr w))) by (rewrite HX; naive_solver).
    assert (b ∈ {[a]} ∪ srvExtCheckedFlag (cacheMgr w) ↔ b ∈ srvExtCheckedFlag (cacheMgr w)) as HC by set_solver.
    rewrite (decide_ext _ _ _ _ HC). done.
Qed.

(** ** The decision whether a process may be cached, without the memo *)

Section Spec.
Variable shellAssistantBundleName : string.

(** The decision, given whether a module declares a service extension. *)
Definition supports_when (contains : bool) w r : bool :=
  match appInfo_ r with
  | None => false
  | Some i =>
      negb (shouldCheckApi (cacheMgr w) && (Z.rem (apiTargetVersion i) API_VERSION_MOD <? API12)%Z) &&
      negb contains && negb (isAttachedToStatusBar r) && negb (IsKeepAliveApp r) &&
      negb (bool_decide (is_Some (parentAppRecord_ r))) &&
      negb (bool_decide (mainBundleName_ r = shellAssistantBundleName)) &&
      negb (processCacheBlocked r) &&
      match procCacheSupportState_ r with
      | UNSPECIFIED => negb (shouldCheckSupport (cacheMgr w))
      | SUPPORT => true
      | NOT_SUPPORT => false
      end
  end.

(** The reference: without the memo. *)
Definition supports_cache w r : bool := supports_when (contains_service w r) w r.

(** With what is remembered of the process at [a]. *)
Definition supports_now w a r : bool := supports_when (remembered w a) w r.

Lemma IsAppSupportProcessCache_spec w a r :
  world_wf w → memo_ok w → apps w !! a = Some r →
  ∃ w', IsAppSupportProcessCache shellAssistantBundleName w (Some a) = Ret (w', supports_now w a r) ∧
        quiet w w' ∧ memo_ok w' ∧ apps w' = apps w.
Proof.
  intros Hw Hm Hr. unfold IsAppSupportProcessCache, supports_now, supports_when, app_at.
  rewrite Hr. cbn [deref obind].
  destruct (appInfo_ r) as [i|]; [|by exists w].
  destruct (shouldCheckApi _ && _); [by exists w|].
  destruct (IsAppContainsSrvExt_spec w a r Hw Hm Hr) as (w' & -> & Hq & Hm' & Ha). exists w'.
  split_and!; [|done..]. cbn [obind].
  unfold IsAppSupportProcessCacheInnerFirst, app_at. rewrite Ha, Hr. cbn [deref obind].
  rewrite (mo_support _ _ (qu_memo _ _ Hq)).
  repeat (case_match; [done|]). repeat case_match; done.
Qed.

Lemma supports_now_quiet w w' a r :
  quiet w w' → supports_now w' a r = supports_now w a r.
Proof.
  intros [_ Hm _ _ Hk]. unfold supports_now, supports_when.
  by rewrite (mo_api _ _ Hm), (mo_support _ _ Hm), (mk_value _ _ _ (Hk a)).
Qed.

(** The process of a running record is cached, if it is one of the application. *)
Definition item_cached w (b : string) (u : Z) (X : gset Addr) (item : Z * option Addr) : bool :=
  match item.2 ≫= λ a, (a,.) <$> apps w !! a with
  | None => true
  | Some (a, r) =>
      if bool_decide (mainBundleName_ r = b) && bool_decide (mainUid_ r = u)
      then bool_decide (a ∈ X) && supports_now w a r else true
  end.

Lemma all_cached_spec w b u X items :
  world_wf w → memo_ok w → (∀ i a, (i, Some a) ∈ items → live w a) →
  ∃ w', all_cached shellAssistantBundleName w b u X items = Ret (w', forallb (item_cached w b u X) items) ∧
        quiet w w' ∧ memo_ok w' ∧ apps w' = apps w.
Proof.
  revert w. induction items as [|[i [a|]] items IH]; intros w Hw Hm Hl; [by exists w| |].
  - destruct (Hl i a (list_elem_of_here _ _)) as [r Hr].
    assert (∀ j c, (j, Some c) ∈ items → live w c) as Hl'
      by (intros j c Hj; eapply Hl, list_elem_of_further, Hj).
    cbn [all_cached forallb]. unfold item_cached at 1, app_at. cbn [mbind option_bind snd].
    rewrite Hr. cbn [deref obind fmap option_fmap option_map].
    destruct (bool_decide (mainBundleName_ r = b) && bool_decide (mainUid_ r = u)); [|by apply IH].
    destruct (IsAppSupportProcessCache_spec w a r Hw Hm Hr) as (w' & -> & Hq & Hm' & Ha). cbn [obind].
    destruct (supports_now w a r), (decide (a ∈ X)) as [Hx|Hx];
      rewrite ?(bool_decide_true (a ∈ X)), ?(bool_decide_false (a ∈ X)), ?(bool_decide_true (a ∉ X)),
        ?(bool_decide_false (a ∉ X)) by (done || by intros []); cbn; try (by exists w').
    destruct (IH w') as (w2 & -> & Hq2 & Hm2 & Ha2);
      [by eapply quiet_wf|done|intros j c Hj; unfold live; rewrite Ha; by eapply Hl'|].
    exists w2. split_and!; [|by etrans|done|congruence].
    do 2 f_equal. clear -Ha Hq. induction items as [|[j q] items IH]; [done|]. cbn [forallb].
    rewrite IH. f_equal. unfold item_cached. cbn. destruct q as [q|]; [|done]. cbn. rewrite Ha.
    destruct (apps w !! q); [|done]. cbn. by rewrite (supports_now_quiet w w').
  - cbn [all_cached forallb]. apply IH; [done|done|]. intros j c Hj. eapply Hl, list_elem_of_further, Hj.
Qed.
End Spec.

(** ** The sets per application *)

Definition set_at (S : app_sets) (b : string) (u : Z) : gset Addr := default ∅ (S !! b ≫= (.!! u)).

(** No empty set is kept. *)
Definition sets_wf (S : app_sets) : Prop :=
  map_Forall (λ _ m, m ≠ ∅ ∧ map_Forall (λ _ X, X ≠ ∅) m) S.

Lemma set_at_insert S b (m : gmap Z (gset Addr)) b' u' :
  set_at (<[b := m]> S) b' u' = if decide (b' = b) then default ∅ (m !! u') else set_at S b' u'.
Proof.
  unfold set_at. case_decide; subst; [by rewrite lookup_insert_eq|by rewrite lookup_insert_ne].
Qed.

Lemma set_at_delete S b b' u' :
  set_at (delete b S) b' u' = if decide (b' = b) then ∅ else set_at S b' u'.
Proof.
  unfold set_at. case_decide; subst; [by rewrite lookup_delete_eq|by rewrite lookup_delete_ne].
Qed.

Lemma set_at_lookup S b m u : S !! b = Some m → set_at S b u = default ∅ (m !! u).
Proof. intros H. unfold set_at. by rewrite H. Qed.

(** A map of sets in which the set of [u] is replaced by [X], or dropped if empty. *)
Definition put_set (m : gmap Z (gset Addr)) (u : Z) (X : gset Addr) : gmap Z (gset Addr) :=
  if decide (size X = 0%nat) then delete u m else <[u := X]> m.

Lemma put_set_lookup m u X u' :
  default ∅ (put_set m u X !! u') = if decide (u' = u) then X else default ∅ (m !! u').
Proof.
  unfold put_set. case_decide as HX; case_decide; subst;
    rewrite ?lookup_delete_eq, ?lookup_insert_eq, ?lookup_delete_ne, ?lookup_insert_ne by done; try done.
  apply size_empty_iff in HX. cbn. by apply leibniz_equiv_iff in HX.
Qed.

Lemma put_set_wf m u X : map_Forall (λ _ X, X ≠ ∅) m → map_Forall (λ _ X, X ≠ ∅) (put_set m u X).
Proof.
  intros Hm. unfold put_set. case_decide as HX.
  - by apply map_Forall_delete.
  - apply map_Forall_insert_2; [|done]. intros ->. by rewrite size_empty in HX.
Qed.

(** Every set of [S] as it was, but for the set of [(b, u)], which is [f] of it. *)
Definition set_changed (S S' : app_sets) (b : string) (u : Z) (f : gset Addr → gset Addr) : Prop :=
  sets_wf S' ∧
  ∀ b' u', set_at S' b' u' =
    if decide ((b', u') = (b, u)) then f (set_at S b' u') else set_at S b' u'.

Lemma key_of_app_at w a b u :
  key_of w a = Some (b, u) → ∃ r, app_at w a = Ret r ∧ mainBundleName_ r = b ∧ mainUid_ r = u.
Proof.
  unfold key_of, app_at. destruct (apps w !! a) as [r|]; [|done]. intros [= <- <-]. by exists r.
Qed.

Lemma RemoveFromApplicationSet_spec w a b u :
  key_of w a = Some (b, u) → sets_wf (sameAppSet (cacheMgr w)) →
  ∃ S, RemoveFromApplicationSet w (Some a) = Ret (w <| cacheMgr ::= λ c, c <| sameAppSet := S |> |>) ∧
       set_changed (sameAppSet (cacheMgr w)) S b u (.∖ {[a]}).
Proof.
  intros (r & Er & Eb & Eu)%key_of_app_at Hwf. unfold RemoveFromApplicationSet. rewrite Er. cbn [obind].
  rewrite Eb, Eu. set (S := sameAppSet (cacheMgr w)) in *.
  assert (∀ X, set_at S b u = ∅ → X = w → ∃ S', Ret X = Ret (w <| cacheMgr ::= λ c, c <| sameAppSet := S' |> |>) ∧
            set_changed S S' b u (.∖ {[a]})) as Hno.
  { intros X He ->. exists S. split; [by destruct w as [? ? ? ? []]|]. split; [done|].
    intros b' u'. case_decide as E; [injection E as -> ->; set_solver|done]. }
  destruct (S !! b) as [m|] eqn:Hb; [|by apply Hno; [unfold set_at; rewrite Hb|]].
  destruct (m !! u) as [X|] eqn:Hu; [|by apply Hno; [unfold set_at; rewrite Hb; cbn; rewrite Hu|]].
  destruct (Hwf b m Hb) as [_ Hm]. fold (put_set m u (X ∖ {[a]})). eexists. split; [done|].
  pose proof (put_set_wf m u (X ∖ {[a]}) Hm) as Hp. pose proof (put_set_lookup m u (X ∖ {[a]})) as Hl.
  set (m' := put_set m u (X ∖ {[a]})) in *. split.
  - case_decide as Hs; [by apply map_Forall_delete|]. apply map_Forall_insert_2; [|done].
    split; [|done]. intros E. by rewrite E, map_size_empty in Hs.
  - intros b' u'. assert (set_at S b u = X) as HX by (unfold set_at; rewrite Hb; cbn; by rewrite Hu).
    assert (set_at S b u' = default ∅ (m !! u')) as HS by (unfold set_at; by rewrite Hb).
    destruct (decide (size m' = 0%nat)) as [H0|H0].
    + apply map_size_empty_iff in H0. rewrite set_at_delete. specialize (Hl u').
      rewrite H0, lookup_empty in Hl. cbn in Hl.
      repeat case_decide; simplify_eq; rewrite ?HX; try done; try congruence.
    + rewrite set_at_insert, Hl. repeat case_decide; simplify_eq; congruence.
Qed.

Lemma AddToApplicationSet_spec w a b u :
  key_of w a = Some (b, u) → sets_wf (sameAppSet (cacheMgr w)) →
  ∃ S, AddToApplicationSet w (Some a) = Ret (w <| cacheMgr ::= λ c, c <| sameAppSet := S |> |>) ∧
       set_changed (sameAppSet (cacheMgr w)) S b u ({[a]} ∪.).
Proof.
  intros (r & Er & Eb & Eu)%key_of_app_at Hwf. unfold AddToApplicationSet. rewrite Er. cbn [obind].
  rewrite Eb, Eu. set (S := sameAppSet (cacheMgr w)) in *. eexists. split; [done|].
  assert (∀ X, {[a]} ∪ X ≠ (∅ : gset Addr)) as Hne by set_solver.
  destruct (S !! b) as [m|] eqn:Hb; rewrite ?Hb; cbn [default from_option id].
  - destruct (Hwf b m Hb) as [_ Hm].
    assert (set_at S b u = default ∅ (m !! u)) as HS by (unfold set_at; by rewrite Hb).
    assert (∀ u', set_at S b u' = default ∅ (m !! u')) as HS' by (intros; unfold set_at; by rewrite Hb).
    destruct (m !! u) as [X|] eqn:Hu; cbn [default from_option id] in HS; (split;
      [apply map_Forall_insert_2; [|done]; split; [apply insert_non_empty|];
       apply map_Forall_insert_2; [set_solver|done]|]);
      intros b' u'; rewrite set_at_insert; repeat case_decide; simplify_eq; rewrite ?lookup_insert_eq;
      cbn; rewrite ?HS, ?HS', ?lookup_insert_ne by congruence; try done; set_solver.
  - rewrite lookup_insert_eq. cbn [default from_option id]. rewrite lookup_singleton_eq, !insert_insert_eq.
    assert (∀ u', set_at S b u' = ∅) as HS by (intros; unfold set_at; by rewrite Hb).
    split.
    + apply map_Forall_insert_2; [|done]. split; [apply insert_non_empty|].
      rewrite insert_singleton_eq. apply map_Forall_singleton. set_solver.
    + intros b' u'. rewrite set_at_insert, insert_singleton_eq. repeat case_decide; simplify_eq;
        rewrite ?lookup_singleton_eq, ?lookup_singleton_ne, ?HS by congruence; cbn; set_solver.
Qed.

(** ** Shrinking the queue *)

(** The cache with another queue and other sets. *)
Definition with_queue w (q : list (option Addr)) (S : app_sets) : AppWorld :=
  w <| cacheMgr ::= λ c, c <| cachedAppRecordQueue_ := q |> <| sameAppSet := S |> |>.

(** The records of [l] that belong to the application [(b, u)] are removed. *)
Definition sets_without w (S S' : app_sets) (l : list (option Addr)) : Prop :=
  sets_wf S' ∧
  ∀ b u x, x ∈ set_at S' b u ↔ x ∈ set_at S b u ∧ ¬ (Some x ∈ l ∧ key_of w x = Some (b, u)).

(** Every pointer of [q] refers to a record. *)
Definition all_live w (q : list (option Addr)) : Prop := ∀ x, x ∈ q → ∃ a, x = Some a ∧ live w a.

Lemma all_live_cons w x q : all_live w (x :: q) ↔ (∃ a, x = Some a ∧ live w a) ∧ all_live w q.
Proof.
  unfold all_live. split.
  - intros H. split; [apply H, list_elem_of_here|]. intros y Hy. by apply H, list_elem_of_further.
  - intros [H1 H2] y [->|Hy]%elem_of_cons; auto.
Qed.

Lemma live_key w a : live w a → ∃ b u, key_of w a = Some (b, u).
Proof. intros [r Hr]. exists (mainBundleName_ r), (mainUid_ r). unfold key_of. by rewrite Hr. Qed.

Lemma sets_without_nil w S : sets_wf S → sets_without w S S [].
Proof. intros H. split; [done|]. intros b u x. split; [|tauto]. intros ?; split; [done|]. by intros [[]%not_elem_of_nil _]. Qed.

Lemma sets_without_step w S S1 S2 a b u l :
  key_of w a = Some (b, u) → set_changed S S1 b u (.∖ {[a]}) → sets_without w S1 S2 l →
  sets_without w S S2 (Some a :: l).
Proof.
  intros Hk [_ H1] [Hwf H2]. split; [done|]. intros b' u' x. rewrite H2, H1. setoid_rewrite elem_of_cons.
  case_decide as E.
  - injection E as -> ->. destruct (decide (x = a)) as [->|]; [|naive_solver set_solver].
    split; [set_solver|]. intros [_ Hn]. exfalso. apply Hn. auto.
  - naive_solver congruence.
Qed.

Definition INT_RANGE (n : nat) : Prop := (Z.of_nat n ≤ INT_MAX)%Z.

Lemma GetCurrentCachedProcNum_small c :
  INT_RANGE (length (cachedAppRecordQueue_ c)) →
  GetCurrentCachedProcNum c = Z.of_nat (length (cachedAppRecordQueue_ c)).
Proof. intros H. unfold GetCurrentCachedProcNum. apply i32_small. unfold INT_RANGE in H. lia. Qed.

Lemma with_queue_twice w q S q' S' : with_queue (with_queue w q S) q' S' = with_queue w q' S'.
Proof. by destruct w as [? ? ? ? []]. Qed.

Lemma shrink_loop_spec q w max clean :
  maxProcCacheNum_ (cacheMgr w) = Z.of_nat max → (0 < max)%nat → INT_RANGE (length q) →
  all_live w q → sets_wf (sameAppSet (cacheMgr w)) →
  let k := (length q - max)%nat in
  ∃ S, shrink_loop popped_kept w q clean =
         Ret (with_queue w (drop k q) S, clean ++ omap id (take k q)) ∧
       sets_without w (sameAppSet (cacheMgr w)) S (take k q).
Proof.
  revert w clean. induction q as [|x q IH]; intros w clean Hmax Hpos Hr Hl Hwf k.
  - exists (sameAppSet (cacheMgr w)). cbn [shrink_loop]. rewrite GetCurrentCachedProcNum_small by done.
    cbn -[sameAppSet]. rewrite Hmax, (proj2 (Z.ltb_ge _ _)), app_nil_r by lia.
    split; [by destruct w as [? ? ? ? []]|by apply sets_without_nil].
  - apply all_live_cons in Hl as [(a & -> & Ha) Hl]. destruct (live_key w a Ha) as (b & u & Hk).
    cbn [shrink_loop]. rewrite GetCurrentCachedProcNum_small by done. cbn -[sameAppSet Z.of_nat length RemoveFromApplicationSet shrink_loop].
    rewrite Hmax. destruct (Z.ltb_spec (Z.of_nat max) (Z.of_nat (length (Some a :: q)))) as [Hlt|Hge].
    + cbn [length] in Hlt. assert (k = S (length q - max)) as -> by (subst k; cbn [length]; lia).
      match goal with |- context [RemoveFromApplicationSet ?w1 _] => set (w1' := w1) end.
      destruct (RemoveFromApplicationSet_spec w1' a b u) as (S1 & -> & HS1); [done|done|].
      cbn [obind].
      match goal with |- context [shrink_loop _ ?w2 _ _] => set (w2' := w2) end.
      destruct (IH w2' (clean ++ [a])) as (S2 & -> & HS2);
        [done|done|unfold INT_RANGE in *; cbn [length] in *; lia|done|apply HS1|].
      exists S2. split; [|by eapply sets_without_step].
      cbn [take drop omap list_omap]. by rewrite <-app_assoc.
    + assert (k = 0%nat) as -> by (subst k; cbn [length] in *; lia).
      exists (sameAppSet (cacheMgr w)). cbn [drop take omap list_omap]. rewrite app_nil_r.
      split; [by destruct w as [? ? ? ? []]|by apply sets_without_nil].
Qed.
