(* ===== verification/AppModules.v ===== *)
(** * Modules of a running process

    What adding a module to a process ([AppRunningRecord::AddModule]) and removing
    one ([RemoveModuleRecord]) do to the world the cache of processes reads: records
    stay where they are, under the same bundle and user; the modules of one process
    change, and with them whether it contains a service extension. *)

From stdpp Require Import prelude gmap strings list.
From Stdlib Require Import ZArith Lia.
From S2P Require Import Prelude TaskHandler AppRecord CacheProcess.

Implicit Types (w : AppWorld) (r : AppRunningRecord) (a : Addr) (p : option Addr).

(** Records stay, and keep their bundle and user. *)
Definition grows w w' : Prop := ∀ a, key_of w' a = key_of w a.

#[global] Instance grows_preorder : PreOrder grows.
Proof. split; [done|]. intros ??? H1 H2 a. by rewrite H2, H1. Qed.

Lemma extends_grows w w' : extends w w' → grows w w'.
Proof. intros He a. by apply extends_key. Qed.

Lemma live_key_of w a : live w a ↔ is_Some (key_of w a).
Proof. unfold live, key_of. by rewrite fmap_is_Some. Qed.

Lemma grows_live w w' a : grows w w' → live w a ↔ live w' a.
Proof. intros H. by rewrite !live_key_of, H. Qed.

(** ** The modules of a record *)

Lemma elem_of_modules r p :
  p ∈ GetAllModuleRecord r ↔ ∃ b l, hapModules_ r !! b = Some l ∧ p ∈ l.
Proof.
  unfold GetAllModuleRecord. rewrite list_elem_of_bind. split.
  - intros ([b l] & Hp & Hb%elem_of_map_iter). eauto.
  - intros (b & l & Hb & Hp). exists (b, l). by rewrite elem_of_map_iter.
Qed.

Lemma contains_service_true w r :
  contains_service w r = true ↔
  ∃ q m, Some q ∈ GetAllModuleRecord r ∧ modules w !! q = Some m ∧ hap_has_service (owenInfo_ m) = true.
Proof.
  unfold contains_service. rewrite existsb_exists. setoid_rewrite <-list_elem_of_In. split.
  - intros ([q|] & Hq & H); [|done]. cbn in H. destruct (modules w !! q) as [m|] eqn:E; [|done]. eauto.
  - intros (q & m & Hq & Hm & H). exists (Some q). cbn. by rewrite Hm.
Qed.

(** What the cache reads of a record, but for its modules. *)
Definition same_process r r' : Prop :=
  mainBundleName_ r' = mainBundleName_ r ∧ mainUid_ r' = mainUid_ r ∧
  appInfo_ r' = appInfo_ r ∧ priorityPid r' = priorityPid r.

(** The modules of the process at [a] changed from [w] to [w']; of the modules that
    were there, only the abilities. *)
Record edits a w w' : Prop := {
  ed_cache : cacheMgr w' = cacheMgr w;
  ed_mgr : appMgr_ w' = appMgr_ w;
  ed_modules : ∀ q m, modules w !! q = Some m →
               ∃ m', modules w' !! q = Some m' ∧ owenInfo_ m' = owenInfo_ m;
  ed_others : ∀ b, b ≠ a → apps w' !! b = apps w !! b;
  ed_app : ∃ r r', apps w !! a = Some r ∧ apps w' !! a = Some r' ∧ same_process r r' ∧
           ∀ p, p ∈ GetAllModuleRecord r' →
                p ∈ GetAllModuleRecord r ∨ ∃ q, p = Some q ∧ is_Some (modules w' !! q);
}.

Lemma edits_grows a w w' : edits a w w' → grows w w'.
Proof.
  intros [_ _ _ Ho (r & r' & Hr & Hr' & (E1 & E2 & _) & _)] b. unfold key_of.
  destruct (decide (b = a)) as [->|Hne]; [|by rewrite Ho].
  rewrite Hr, Hr'. cbn. by rewrite E1, E2.
Qed.

Lemma edits_wf a w w' : edits a w w' → world_wf w → world_wf w'.
Proof.
  intros He [Ha Hl]. pose proof (edits_grows _ _ _ He) as Hg.
  destruct He as [_ Hm Hmods Ho (r & r' & Hr & Hr' & (_ & _ & Ei & Ep) & Hin)].
  assert (∀ q, is_Some (modules w !! q) → is_Some (modules w' !! q)) as Hlive.
  { intros q [m Hq]. destruct (Hmods q m Hq) as (m' & ? & _). by exists m'. }
  split.
  - intros b rb Hb. destruct (decide (b = a)) as [->|Hne].
    + rewrite Hr' in Hb. injection Hb as <-. destruct (Ha a r Hr) as [? ? W1 W2].
      split; [by rewrite Ei|by rewrite Ep| |]; [intros q|]; intros [?|(q' & E & ?)]%Hin;
        [auto|by injection E as ->|done|done].
    + rewrite Ho in Hb by done. destruct (Ha b rb Hb) as [? ? W1 W2]. split; [done|done|auto|done].
  - intros s running i b Hs Hrn Hi. rewrite Hm in Hs. apply (grows_live w w'); [done|]. eauto.
Qed.

(** A process whose modules are the old ones, and new ones without a service. *)
Lemma contains_service_same w w' r r' :
  app_wf w r →
  (∀ q m, modules w !! q = Some m → ∃ m', modules w' !! q = Some m' ∧ owenInfo_ m' = owenInfo_ m) →
  (∀ p, p ∈ GetAllModuleRecord r → p ∈ GetAllModuleRecord r') →
  (∀ q m', Some q ∈ GetAllModuleRecord r' → Some q ∉ GetAllModuleRecord r →
           modules w' !! q = Some m' → hap_has_service (owenInfo_ m') = false) →
  contains_service w' r' = contains_service w r.
Proof.
  intros [_ _ Hwf _] Hmods Hsub Hnew. apply eq_true_iff_eq. rewrite !contains_service_true. split.
  - intros (q & m' & Hq & Hm' & H). destruct (decide (Some q ∈ GetAllModuleRecord r)) as [Hold|Hn].
    + destruct (Hwf q Hold) as [m Hm]. destruct (Hmods q m Hm) as (m2 & E & Eo).
      assert (m2 = m') as -> by congruence. exists q, m. by rewrite <-Eo.
    + rewrite (Hnew q m') in H by done. done.
  - intros (q & m & Hq & Hm & H). destruct (Hmods q m Hm) as (m' & Hm' & Eo).
    exists q, m'. rewrite Eo. auto.
Qed.

Lemma edits_others a b w w' : world_wf w → edits a w w' → b ≠ a → contains_at w' b = contains_at w b.
Proof.
  intros Hw He Hne. unfold contains_at. rewrite (ed_others _ _ _ He b Hne).
  destruct (apps w !! b) as [r|] eqn:Hb; [|done].
  apply contains_service_same; [by apply (ww_apps _ Hw b)|apply He|done|done].
Qed.

(** ** Adding *)

Lemma next_addr_fresh {V : Type} (m : gmap Addr V) : m !! next_addr m = None.
Proof.
  unfold next_addr. apply not_elem_of_dom. intros Hin.
  assert (∀ x, x ∈ dom m → (x ≤ set_fold Pos.max 1 (dom m))%positive) as Hmax; [|specialize (Hmax _ Hin); lia].
  apply (set_fold_ind_L (λ n (X : gset Addr), ∀ x, x ∈ X → (x ≤ n)%positive)); [set_solver|].
  intros x X n _ IH y [->%elem_of_singleton|Hy]%elem_of_union; [lia|]. specialize (IH y Hy). lia.
Qed.

Lemma find_by_name_spec w name l :
  (∀ q, Some q ∈ l → is_Some (modules w !! q)) → None ∉ l →
  ∃ o, find_by_name w name l = Ret o ∧ ∀ q, o = Some q → Some q ∈ l.
Proof.
  induction l as [|[q|] l IH]; intros Hl Hn; [by exists None| |].
  - destruct (Hl q (list_elem_of_here _ _)) as [m Hm]. cbn. unfold module_at. rewrite Hm. cbn.
    case_decide; [exists (Some q); split; [done|intros ? [= ->]; apply list_elem_of_here]|].
    destruct IH as (o & -> & Ho); [intros q' Hq'; by apply Hl, list_elem_of_further|set_solver|].
    exists o. split; [done|]. intros q' Hq'. apply list_elem_of_further. auto.
  - destruct Hn. apply list_elem_of_here.
Qed.

(** A module made for the hap, which a bundle of the record has got at its end. *)
Definition module_made w a r (hap : HapModuleInfo) (q : Addr) w' : Prop :=
  edits a w w' ∧ modules w !! q = None ∧ modules w' = <[q := mkModule ∅ ∅ hap]> (modules w) ∧
  ∃ r', apps w' !! a = Some r' ∧
        ∀ p, p ∈ GetAllModuleRecord r' ↔ p ∈ GetAllModuleRecord r ∨ p = Some q.

Lemma elem_of_modules_snoc r r' b q :
  hapModules_ r' = <[b := default [] (hapModules_ r !! b) ++ [Some q]]> (hapModules_ r) →
  ∀ p, p ∈ GetAllModuleRecord r' ↔ p ∈ GetAllModuleRecord r ∨ p = Some q.
Proof.
  intros Hh p. rewrite !elem_of_modules, Hh. setoid_rewrite lookup_insert_Some. split.
  - intros (b' & k & [[<- <-]|[_ Hb]] & Hp); [|eauto].
    apply elem_of_app in Hp as [Hp|Hp%list_elem_of_singleton]; [|auto].
    left. destruct (hapModules_ r !! b) as [k|] eqn:E; [eauto|by apply not_elem_of_nil in Hp].
  - intros [(b' & k & Hb & Hp)| ->].
    + destruct (decide (b = b')) as [<-|Hne]; [|by eauto 6]. eexists b, _. split; [by left|].
      rewrite Hb. apply elem_of_app. by left.
    + eexists b, _. split; [by left|]. apply elem_of_app. right. apply list_elem_of_here.
Qed.

Lemma make_module_made w a r r' b hap :
  apps w !! a = Some r → same_process r r' →
  hapModules_ r' =
    <[b := default [] (hapModules_ r !! b) ++ [Some (make_module w hap).2]]> (hapModules_ r) →
  module_made w a r hap (make_module w hap).2 ((make_module w hap).1 <| apps ::= <[a := r']> |>).
Proof.
  intros Hr Hs Hh. pose proof (elem_of_modules_snoc _ _ _ _ Hh) as Hin. set (w' := _ <| apps ::= _ |>).
  pose proof (next_addr_fresh (modules w)) as Hq. cbn [make_module snd] in *.
  set (q := next_addr (modules w)) in *.
  assert (modules w' = <[q := mkModule ∅ ∅ hap]> (modules w)) as Em by done.
  assert (apps w' = <[a := r']> (apps w)) as Ea by done.
  split_and!; [|done|done|].
  - split; [done|done| | |].
    + intros x m Hx. rewrite Em. exists m. split; [|done]. rewrite lookup_insert_ne; [done|congruence].
    + intros c Hc. by rewrite Ea, lookup_insert_ne.
    + exists r, r'. rewrite Ea, lookup_insert_eq. split_and!; [done|done|done|].
      intros p [?| ->]%Hin; [by left|right]. exists q. by rewrite Em, lookup_insert_eq.
  - exists r'. by rewrite Ea, lookup_insert_eq.
Qed.

(** The module is one of the record, or it was made. *)
Lemma module_for_spec w a r i hap :
  world_wf w → apps w !! a = Some r →
  ∃ w' q, module_for w a r i hap = Ret (w', q) ∧ is_Some (modules w' !! q) ∧
    (w' = w ∨ module_made w a r hap q w').
Proof.
  intros Hw Hr. destruct (ww_apps _ Hw a r Hr) as [_ _ Hm Hn].
  assert (∀ r', same_process r r' → hapModules_ r' = <[info_bundleName i :=
      default [] (hapModules_ r !! info_bundleName i) ++ [Some (make_module w hap).2]]> (hapModules_ r) →
    let w' := (make_module w hap).1 <| apps ::= <[a := r']> |> in
    ∃ w2 q, Ret (w', (make_module w hap).2) = Ret (w2, q) ∧ is_Some (modules w2 !! q) ∧
            (w2 = w ∨ module_made w a r hap q w2)) as Hnew.
  { intros r' Hs Hh w'. pose proof (make_module_made w a r r' _ hap Hr Hs Hh) as Hmade.
    eexists w', _. split; [done|]. split; [|by right].
    destruct Hmade as (_ & _ & Em & _). change (is_Some (modules w' !! (make_module w hap).2)).
    unfold w'. by rewrite Em, lookup_insert_eq. }
  unfold module_for. destruct (hapModules_ r !! info_bundleName i) as [l|] eqn:El; cbn in Hnew.
  - unfold GetModuleRecordByModuleName. rewrite El.
    destruct (find_by_name_spec w (moduleName hap) l) as (o & -> & Ho).
    { intros x Hx. apply Hm, elem_of_modules. eauto. }
    { intros H. apply Hn, elem_of_modules. eauto. }
    cbn [obind]. destruct o as [x|].
    { exists w, x. split_and!; [done| |by left]. apply Hm, elem_of_modules. eauto. }
    by apply (Hnew (r <| hapModules_ ::= _ |>)).
  - by apply (Hnew (r <| hapModules_ ::= _ |> <| appInfos_ ::= _ |>)).
Qed.

Lemma AddAbility_spec w a q t ty :
  is_Some (apps w !! a) → is_Some (modules w !! q) →
  ∃ w', AddAbility w q t ty = Ret w' ∧ (w' = w ∨ edits a w w' ∧ apps w' = apps w).
Proof.
  intros [r Hr] [m Hm]. unfold AddAbility, module_at. rewrite Hm. cbn [deref obind].
  destruct (Module_GetAbilityRunningRecordByToken m (Some t)); [exists w; auto|].
  eexists. split; [done|]. right. split; [|done]. split; [done|done| |done|].
  - intros x m' Hx. cbn -[insert]. destruct (decide (x = q)) as [->|Hne].
    + rewrite lookup_insert_eq. eexists. split; [done|]. cbn. congruence.
    + rewrite lookup_insert_ne by done. eauto.
  - exists r, r. by split_and!; [..|left].
Qed.

Lemma edits_trans a w1 w2 w3 : edits a w1 w2 → edits a w2 w3 → edits a w1 w3.
Proof.
  intros [A1 A2 A3 A4 (r1 & r2 & E1 & E2 & (S1 & S2 & S3 & S4) & Hin1)]
    [B1 B2 B3 B4 (r2' & r3 & E2' & E3 & (T1 & T2 & T3 & T4) & Hin2)].
  assert (r2' = r2) as -> by congruence. split.
  - congruence.
  - congruence.
  - intros q m Hq. destruct (A3 q m Hq) as (m2 & H2 & <-). by apply B3.
  - intros b Hb. by rewrite B4, A4.
  - exists r1, r3. unfold same_process. split_and!; try congruence.
    intros p [Hp|?]%Hin2; [|by right]. apply Hin1 in Hp as [?|(q & -> & [m Hm])]; [by left|right].
    exists q. split; [done|]. destruct (B3 q m Hm) as (m3 & ? & _). by exists m3.
Qed.

(** Adding a module is defined, and edits the process alone; one without a service
    leaves it unchanged whether the process contains a service. *)
Lemma AddModule_spec w a appInfo ab t hap :
  world_wf w → live w a →
  ∃ w', AddModule w a appInfo ab t hap = Ret w' ∧ (w' = w ∨ edits a w w') ∧
        (hap_has_service hap = false → contains_at w' a = contains_at w a).
Proof.
  intros Hw [r Hr]. unfold AddModule. destruct appInfo as [i|]; [|exists w; auto].
  unfold app_at. rewrite Hr. cbn [deref obind].
  destruct (module_for_spec w a r i hap Hw Hr) as (w1 & q & -> & Hq & H1). cbn [obind].
  assert ((w1 = w ∨ edits a w w1) ∧ (hap_has_service hap = false → contains_at w1 a = contains_at w a))
    as [He1 Hc1].
  { destruct H1 as [->|(He & Hnew & Em & r' & Hr' & Hin)]; [auto|]. split; [by right|].
    intros Hs. unfold contains_at. rewrite Hr, Hr'. apply contains_service_same.
    - by apply (ww_apps _ Hw a).
    - apply He.
    - intros p Hp. apply Hin. by left.
    - intros x m [?|[= ->]]%Hin Hn Hx; [done|]. rewrite Em, lookup_insert_eq in Hx. by injection Hx as <-. }
  destruct ab as [ty|], t as [t|]; try by (exists w1).
  assert (world_wf w1) as Hw1 by (destruct He1 as [->|He1]; [done|by eapply edits_wf]).
  assert (live w1 a) as Hl1.
  { destruct He1 as [->|He1]; [by exists r|]. apply (grows_live w w1); [by eapply edits_grows|by exists r]. }
  destruct (AddAbility_spec w1 a q t ty Hl1 Hq) as (w2 & -> & [->|[He2 Ea]]); [by exists w1|].
  exists w2. split_and!; [done| |].
  - right. destruct He1 as [->|He1]; [done|by eapply edits_trans].
  - intros Hs. rewrite <-Hc1 by done. unfold contains_at. rewrite Ea.
    destruct (apps w1 !! a) as [r1|] eqn:Hr1; [|done].
    apply contains_service_same; [by apply (ww_apps _ Hw1 a)|apply He2|done|done].
Qed.

(** ** Removing *)

Lemma remove_module_loop_spec p dbg items r :
  (∀ b l, (b, l) ∈ items → hapModules_ r !! b = Some l) →
  let r' := remove_module_loop p dbg items r in
  same_process r r' ∧ ∀ x, x ∈ GetAllModuleRecord r' → x ∈ GetAllModuleRecord r.
Proof.
  induction items as [|[b l] items IH]; intros Hi; cbn [remove_module_loop]; [done|].
  destruct (existsb _ l).
  - specialize (Hi b l (list_elem_of_here _ _)). destruct (_ && _); (split; [done|]); intros x;
      rewrite !elem_of_modules; cbn -[insert delete].
    + intros (b' & k & [_ Hk]%lookup_delete_Some & Hx). eauto.
    + intros (b' & k & [[<- <-]|[_ Hk]]%lookup_insert_Some & Hx); [|eauto].
      exists b, l. split; [done|]. by eapply elem_of_erase_first.
  - apply IH. intros b' l' H. by apply Hi, list_elem_of_further.
Qed.

Lemma RemoveModuleRecord_spec w a p dbg :
  live w a → ∃ w', RemoveModuleRecord w a p dbg = Ret w' ∧ edits a w w'.
Proof.
  intros [r Hr]. unfold RemoveModuleRecord, app_at. rewrite Hr. cbn [deref obind].
  destruct (remove_module_loop_spec p dbg (map_iter (hapModules_ r)) r) as [Hs Hin].
  { intros b l. by rewrite elem_of_map_iter. }
  eexists. split; [done|]. split; [done|done|eauto| |].
  - intros b Hb. cbn -[insert]. by rewrite lookup_insert_ne.
  - eexists r, _. split_and!; [done|cbn -[insert]; apply lookup_insert_eq|done|]. intros x ?. left. by apply Hin.
Qed.
