(* ===== verification/CacheTheorems.v ===== *)
(** * Theorems on cached processes

    The bound of the queue, the agreement of the queue with the sets per
    application, the equivalence of the memoised check with its definition, and the
    notification that one process takes from another. *)

From stdpp Require Import prelude gmap strings list sorting.
From Stdlib Require Import ZArith Lia.
From S2P Require Import Prelude TaskHandler AppRecord CacheProcess AppModules.

Implicit Types (w : AppWorld) (r : AppRunningRecord) (a : Addr) (p : option Addr).

(** ** Killing the processes removed from the queue *)

Definition terminating w a : Prop := ∃ r, apps w !! a = Some r ∧ isTerminating r = true.

(** The service is there and has a task handler: a kill is carried out. *)
Definition can_kill w : bool :=
  match appMgr_ w with Some s => inner_taskHandler_ s | None => false end.

Definition has_life_cycle w a : bool :=
  match apps w !! a with Some r => appLifeCycleDeal_ r | None => false end.

(** The calls made for one process that is killed for overload: observers hear that
    it is ready before it is told to exit. *)
Definition kill_calls w a : list AppCall :=
  [CallSysEvent a "killForOverload"] ++
  match appMgr_ w with
  | None => []
  | Some s =>
      [CallCacheStateChanged a APP_STATE_READY] ++
      if inner_taskHandler_ s && has_life_cycle w a then
        (if QueryEnableProcessCache (cacheMgr w) && IsCachedProcess (cacheMgr w) (Some a)
         then [CallCacheStateChanged a APP_STATE_READY] else []) ++ [CallSecurityExit a]
      else []
  end.

Lemma has_life_cycle_extends w w' a : extends w w' → has_life_cycle w' a = has_life_cycle w a.
Proof.
  intros He. unfold has_life_cycle. pose proof (ex_apps _ _ He a) as H.
  destruct (apps w' !! a) as [r'|], (apps w !! a) as [r|]; try done.
  apply (inj Some) in H. by apply (f_equal appLifeCycleDeal_) in H.
Qed.

Lemma kill_calls_extends w w' a :
  extends w w' → cacheMgr w' = cacheMgr w → kill_calls w' a = kill_calls w a.
Proof.
  intros He Hc. unfold kill_calls. by rewrite (ex_appMgr _ _ He), Hc, (has_life_cycle_extends w w').
Qed.

Lemma SetTerminating_extends w a : extends w (SetTerminating w a).
Proof.
  split; [|done..]. intros b. cbn -[lookup]. destruct (decide (b = a)) as [->|Hne].
  - rewrite lookup_alter_eq. by destruct (apps w !! a).
  - by rewrite lookup_alter_ne.
Qed.

Lemma log_call_extends w c : extends w (log_call c w).
Proof. by apply extends_same. Qed.

#[local] Hint Resolve SetTerminating_extends log_call_extends : rt.

Section Kill.
Variable process_exits : Z → bool.

(** One turn of the loop that kills. *)
Lemma kill_one_spec w a r :
  world_wf w → apps w !! a = Some r →
  ∃ w1 w2 b, sys_event w a "killForOverload" = Ret w1 ∧
    KillProcessByRecord process_exits w1 (Some a) = Ret (w2, b) ∧
    extends w w2 ∧ cacheMgr w2 = cacheMgr w ∧ calls w2 = calls w ++ kill_calls w a ∧
    apps w2 = (if can_kill w then alter (λ r, r <| isTerminating := true |>) a (apps w) else apps w).
Proof.
  intros Hw Hr. destruct (ww_apps _ Hw a r Hr) as [[i Hi] [pid Hp] _].
  unfold sys_event, app_at. rewrite Hr. cbn [deref obind]. rewrite Hi. cbn [deref obind].
  set (w1 := log_call _ w). exists w1. assert (apps w1 !! a = Some r) as Hr1 by done.
  unfold KillProcessByRecord, can_kill, kill_calls. change (appMgr_ w1) with (appMgr_ w).
  destruct (appMgr_ w) as [s|] eqn:Hs; [|exists w1, false; split_and!; try done; apply log_call_extends].
  unfold OnAppCacheStateChanged, app_at. rewrite Hr1. cbn [deref obind]. rewrite Hp. cbn [obind].
  set (w2 := log_call _ w1). unfold KillApplicationByRecord, app_at.
  change (apps w2) with (apps w). rewrite Hr. cbn [deref obind]. rewrite Hp. cbn [deref obind].
  assert (extends w w2) as He2 by (etrans; [apply log_call_extends|apply log_call_extends]).
  destruct (inner_taskHandler_ s); cbn [negb andb].
  2: { exists w2, true. split_and!; try done. cbn. by rewrite <-app_assoc. }
  unfold has_life_cycle, ScheduleProcessSecurityExit. rewrite Hr. set (w3 := SetTerminating w2 a).
  assert (extends w w3) as He3 by (etrans; [done|apply SetTerminating_extends]).
  assert (apps w3 = alter (λ r, r <| isTerminating := true |>) a (apps w)) as Ha3 by done.
  destruct (appLifeCycleDeal_ r) eqn:Hl; cbn [andb].
  2: { cbn [obind]. destruct (process_exits pid).
       - exists w3, true. split_and!; try done. cbn. by rewrite <-app_assoc.
       - eexists _, true. split_and!; try done; [etrans; [done|by apply extends_same]|].
         cbn. by rewrite <-app_assoc. }
  unfold PrepareActivateCache, OnAppCacheStateChanged, app_at. rewrite Ha3, lookup_alter_eq, Hr.
  cbn [fmap option_fmap option_map deref obind]. change (appMgr_ w3) with (appMgr_ w). rewrite Hs.
  change (cacheMgr w3) with (cacheMgr w).
  replace (priorityPid (r <| isTerminating := true |>)) with (Some pid) by (by destruct r).
  destruct (QueryEnableProcessCache (cacheMgr w)), (IsCachedProcess (cacheMgr w) (Some a));
    cbn [negb andb obind]; destruct (process_exits pid); eexists _, true;
    (split_and!; [done|done|etrans; [done|by apply extends_same]|done| |done]);
    cbn; rewrite <-!app_assoc; done.
Qed.

Lemma kill_loop_spec l w :
  world_wf w → (∀ a, a ∈ l → live w a) →
  ∃ w', kill_loop process_exits w l = Ret w' ∧ extends w w' ∧ cacheMgr w' = cacheMgr w ∧
        calls w' = calls w ++ (l ≫= kill_calls w) ∧
        (∀ a, terminating w' a ↔ terminating w a ∨ (can_kill w = true ∧ a ∈ l)).
Proof.
  revert w. induction l as [|a l IH]; intros w Hw Hl.
  { exists w. rewrite app_nil_r. split_and!; try done. intros a. split; [auto|].
    intros [?|[_ []%not_elem_of_nil]]; done. }
  destruct (Hl a (list_elem_of_here _ _)) as [r Hr].
  destruct (kill_one_spec w a r Hw Hr) as (w1 & w2 & b & E1 & E2 & He & Hc & Hcalls & Happs).
  cbn [kill_loop]. rewrite E1. cbn [obind]. rewrite E2. cbn [obind].
  destruct (IH w2) as (w' & -> & He' & Hc' & Hcalls' & Ht).
  { by eapply extends_wf. }
  { intros b' Hb'. apply (extends_live w w2); [done|]. by apply Hl, list_elem_of_further. }
  exists w'. split_and!; [done|by etrans|congruence| |].
  - rewrite Hcalls', Hcalls, bind_cons, <-app_assoc. do 2 f_equal.
    apply list_bind_ext; [|done]. intros x. by apply kill_calls_extends.
  - intros x. rewrite Ht. unfold can_kill. rewrite (ex_appMgr _ _ He). fold (can_kill w).
    rewrite elem_of_cons. unfold terminating at 1. rewrite Happs.
    destruct (can_kill w); [|by unfold terminating; naive_solver].
    destruct (decide (x = a)) as [->|Hne]; [|rewrite lookup_alter_ne by done; unfold terminating; naive_solver].
    rewrite lookup_alter_eq, Hr. cbn. split; [intros _; auto|intros _; left; eexists; split; [done|done]].
Qed.
End Kill.

(** ** Entering the queue *)

Section Pend.
Variable process_exits : Z → bool.
#[local] Abbreviation Pendding := (PenddingCacheProcess popped_kept process_exits).

(** The state a process enters: the queue with the process at its end, and the sets
    with the process in its application. *)
Record pend_result w a (max : nat) w' : Prop := {
  pr_extends : extends w w';
  pr_queue : let q := cachedAppRecordQueue_ (cacheMgr w) ++ [Some a] in
             cachedAppRecordQueue_ (cacheMgr w') = drop (length q - max) q;
  pr_sets : let q := cachedAppRecordQueue_ (cacheMgr w) ++ [Some a] in
            ∃ S b u, key_of w a = Some (b, u) ∧
              set_changed (sameAppSet (cacheMgr w)) S b u ({[a]} ∪.) ∧
              sets_without w S (sameAppSet (cacheMgr w')) (take (length q - max) q);
  pr_rest : cacheMgr w' = cacheMgr (with_queue w (cachedAppRecordQueue_ (cacheMgr w'))
                                      (sameAppSet (cacheMgr w')));
  pr_calls : let q := cachedAppRecordQueue_ (cacheMgr w) ++ [Some a] in
             calls w' = calls w ++ (omap id (take (length q - max) q) ≫= kill_calls w');
  pr_terminating : let q := cachedAppRecordQueue_ (cacheMgr w) ++ [Some a] in
             ∀ x, terminating w' x ↔
                  terminating w x ∨ (can_kill w = true ∧ Some x ∈ take (length q - max) q);
}.

Lemma elem_of_omap_id (l : list (option Addr)) x : x ∈ omap id l ↔ Some x ∈ l.
Proof.
  rewrite list_elem_of_omap. split; [|intros ?; by exists (Some x)].
  intros (y & Hy & E). cbn in E. by subst y.
Qed.

Lemma set_changed_wf S S' b u f : set_changed S S' b u f → sets_wf S'.
Proof. by intros []. Qed.

Lemma PenddingCacheProcess_spec w a r max :
  world_wf w → sets_wf (sameAppSet (cacheMgr w)) → all_live w (cachedAppRecordQueue_ (cacheMgr w)) →
  apps w !! a = Some r → IsKeepAliveApp r = false →
  maxProcCacheNum_ (cacheMgr w) = Z.of_nat max → (0 < max)%nat →
  INT_RANGE (S (length (cachedAppRecordQueue_ (cacheMgr w)))) →
  ∃ w', Pendding w (Some a) = Ret (w', true) ∧ pend_result w a max w'.
Proof.
  intros Hw Hs Hl Hr Hk Hmax Hpos Hrange. unfold PenddingCacheProcess, QueryEnableProcessCache.
  rewrite Hmax, (proj2 (Z.ltb_lt _ _)) by lia. cbn [negb]. unfold app_at. rewrite Hr.
  cbn [deref obind]. rewrite Hk.
  set (q := cachedAppRecordQueue_ (cacheMgr w) ++ [Some a]).
  match goal with |- context [AddToApplicationSet ?x _] => set (w1 := x) end.
  destruct (live_key w a) as (b & u & Hkey); [by eexists|].
  destruct (AddToApplicationSet_spec w1 a b u Hkey Hs) as (S1 & -> & HS1). cbn [obind].
  set (w2 := w1 <| cacheMgr ::= _ |>).
  unfold ShrinkAndKillCache. change (maxProcCacheNum_ (cacheMgr w2)) with (maxProcCacheNum_ (cacheMgr w)).
  rewrite Hmax, (proj2 (Z.leb_gt _ _)) by lia.
  change (cachedAppRecordQueue_ (cacheMgr w2)) with q.
  destruct (shrink_loop_spec q w2 max []) as (S2 & -> & HS2); [done|done| | |by eapply set_changed_wf|].
  { subst q. unfold INT_RANGE in *. rewrite length_app. cbn [length]. lia. }
  { intros x [Hx| ->%list_elem_of_singleton]%elem_of_app; [by apply Hl|]. exists a. split; [done|by eexists]. }
  cbn [obind app]. set (w3 := with_queue w2 _ S2). set (l := omap id _).
  assert (extends w w3) as He3 by (by apply extends_same).
  destruct (kill_loop_spec process_exits l w3) as (w' & -> & He & Hc & Hcalls & Ht).
  { by eapply extends_wf. }
  { intros x Hx. apply elem_of_omap_id, elem_of_take in Hx as (i & Hi & _).
    apply list_elem_of_lookup_2 in Hi. apply (extends_live w w3); [done|].
    apply elem_of_app in Hi as [Hi|[= ->]%list_elem_of_singleton]; [|by eexists].
    destruct (Hl _ Hi) as (? & [= <-] & ?). done. }
  cbn [obind]. exists w'. split; [done|]. split; fold q.
  - by etrans.
  - cbn zeta. by rewrite Hc.
  - exists S1, b, u. split_and!; [done|done|by rewrite Hc].
  - rewrite Hc. done.
  - cbn zeta. rewrite Hcalls. apply (f_equal (app _)), list_bind_ext; [|done].
    intros x. symmetry. by apply kill_calls_extends.
  - cbn zeta. intros x. rewrite Ht. subst l. by rewrite elem_of_omap_id.
Qed.

(** ** The invariant *)

(** The sets hold the processes of the queue, each in its application. *)
Definition agree w : Prop := ∀ b u x,
  x ∈ set_at (sameAppSet (cacheMgr w)) b u ↔
  Some x ∈ cachedAppRecordQueue_ (cacheMgr w) ∧ key_of w x = Some (b, u).

Record CacheInv w : Prop := {
  ci_wf : world_wf w;
  ci_memo : memo_ok w;
  ci_sets : sets_wf (sameAppSet (cacheMgr w));
  ci_live : all_live w (cachedAppRecordQueue_ (cacheMgr w));
  ci_nodup : NoDup (cachedAppRecordQueue_ (cacheMgr w));
  ci_agree : agree w;
}.

Lemma memo_ok_same w w' :
  srvExtRecords (cacheMgr w') = srvExtRecords (cacheMgr w) →
  srvExtCheckedFlag (cacheMgr w') = srvExtCheckedFlag (cacheMgr w) → memo_ok w → memo_ok w'.
Proof. intros E1 E2 Hm. unfold memo_ok. by rewrite E1, E2. Qed.

Lemma all_live_extends w w' q : extends w w' → all_live w q → all_live w' q.
Proof.
  intros He Hl x Hx. destruct (Hl x Hx) as (a & -> & Ha). exists a. split; [done|].
  by apply (extends_live w w').
Qed.

(** A new process keeps the invariant. *)
Lemma PenddingCacheProcess_inv w a max w' :
  CacheInv w → Some a ∉ cachedAppRecordQueue_ (cacheMgr w) → live w a →
  pend_result w a max w' → CacheInv w'.
Proof.
  intros [Hw Hm Hs Hl Hn Ha] Hnew Hla [He Hq (S & b & u & Hk & HS & HS') Hrest _ _].
  cbn zeta in *. set (q := cachedAppRecordQueue_ (cacheMgr w) ++ [Some a]) in *.
  assert (NoDup q) as Hnq.
  { apply NoDup_app. split_and!; [done| |apply NoDup_singleton].
    intros x Hx ->%list_elem_of_singleton. done. }
  assert (all_live w q) as Hlq.
  { intros x [Hx| ->%list_elem_of_singleton]%elem_of_app; [by apply Hl|]. by exists a. }
  split.
  - by eapply extends_wf.
  - eapply memo_ok_same; [by rewrite Hrest|by rewrite Hrest|done].
  - apply HS'.
  - eapply all_live_extends; [exact He|]. rewrite Hq. intros x Hx. apply Hlq.
    rewrite <-(take_drop (length q - max) q). apply elem_of_app. by right.
  - rewrite Hq. rewrite <-(take_drop (length q - max) q) in Hnq. by apply NoDup_app in Hnq as (_ & _ & ?).
  - intros b' u' x. rewrite (extends_key w w' x He), Hq.
    destruct HS as [_ HS], HS' as [_ HS']. rewrite HS', HS.
    assert (Some x ∈ q ↔ Some x ∈ take (length q - max) q ∨ Some x ∈ drop (length q - max) q) as Hsplit
      by (by rewrite <-elem_of_app, take_drop).
    assert (Some x ∈ take (length q - max) q → Some x ∈ drop (length q - max) q → False) as Hdisj.
    { rewrite <-(take_drop (length q - max) q) in Hnq. apply NoDup_app in Hnq as (_ & Hd & _). by apply Hd. }
    assert (Some x ∈ q ↔ Some x ∈ cachedAppRecordQueue_ (cacheMgr w) ∨ x = a) as Hin.
    { subst q. rewrite elem_of_app, list_elem_of_singleton. naive_solver. }
    case_decide as E; rewrite ?elem_of_union, ?elem_of_singleton, (Ha _ _ x);
      clear -Hsplit Hdisj Hin Hk E; naive_solver congruence.
Qed.
End Pend.

(** ** Leaving the queue *)

Lemma remove_loop_spec q w a b u kept :
  key_of w a = Some (b, u) → sets_wf (sameAppSet (cacheMgr w)) →
  ∃ S, remove_loop w q (Some a) kept = Ret (with_queue w (kept ++ filter (.≠ Some a) q) S) ∧
       sets_without w (sameAppSet (cacheMgr w)) S (filter (Some a =.) q).
Proof.
  revert w kept. induction q as [|x q IH]; intros w kept Hk Hs.
  { exists (sameAppSet (cacheMgr w)). rewrite app_nil_r. split; [|by apply sets_without_nil].
    by destruct w as [? ? ? ? []]. }
  cbn [remove_loop]. destruct (decide (Some a = x)) as [<-|Hne].
  - destruct (RemoveFromApplicationSet_spec w a b u Hk Hs) as (S1 & -> & HS1). cbn [obind].
    set (w1 := w <| cacheMgr ::= _ |>).
    destruct (IH w1 kept) as (S2 & -> & HS2); [done|apply HS1|]. exists S2.
    rewrite filter_cons_False by tauto. rewrite filter_cons_True by done.
    split; [done|]. by eapply sets_without_step.
  - destruct (IH w (kept ++ [x])) as (S & -> & HS); [done|done|]. exists S.
    rewrite filter_cons_True by congruence. rewrite filter_cons_False by done.
    split; [|done]. by rewrite <-app_assoc.
Qed.

(** Without duplicates, the record is the only one that leaves. *)
Lemma RemoveCacheRecord_inv w a :
  CacheInv w → live w a →
  ∃ S, let w' := with_queue w (filter (.≠ Some a) (cachedAppRecordQueue_ (cacheMgr w))) S in
       RemoveCacheRecord w (Some a) = Ret w' ∧ CacheInv w'.
Proof.
  intros [Hw Hm Hs Hl Hn Ha] Hla. destruct (live_key w a Hla) as (b & u & Hk).
  destruct (remove_loop_spec (cachedAppRecordQueue_ (cacheMgr w)) w a b u [] Hk Hs) as (S & E & HS).
  exists S. cbn zeta. set (w' := with_queue w _ S). split; [done|].
  assert (extends w w') as He by (by apply extends_same).
  assert (∀ x, x ∈ filter (.≠ Some a) (cachedAppRecordQueue_ (cacheMgr w)) ↔
               x ≠ Some a ∧ x ∈ cachedAppRecordQueue_ (cacheMgr w)) as Hf
    by (intros x; rewrite list_elem_of_filter; done).
  split.
  - by eapply extends_wf.
  - by eapply memo_ok_same.
  - apply HS.
  - eapply all_live_extends; [exact He|]. intros x [_ Hx]%Hf. by apply Hl.
  - by apply NoDup_filter.
  - intros b' u' x. rewrite (extends_key w w' x He). change (sameAppSet (cacheMgr w')) with S.
    change (cachedAppRecordQueue_ (cacheMgr w')) with
      (filter (.≠ Some a) (cachedAppRecordQueue_ (cacheMgr w))).
    destruct HS as [_ HS]. rewrite HS, (Ha b' u' x), Hf.
    rewrite (list_elem_of_filter (Some a =.)). naive_solver congruence.
Qed.

(** ** Changes that keep the queue and the sets *)

(** [w'] is as [w], but for the memo, the posted tasks and the calls made. *)
Record stable w w' : Prop := {
  st_extends : extends w w';
  st_memo : memo_only (cacheMgr w) (cacheMgr w');
  st_keeps : ∀ a, memo_keeps a w w';
}.

#[global] Instance stable_preorder : PreOrder stable.
Proof.
  split; [by split|]. intros ??? [? ? K1] [? ? K2].
  split; [by etrans|by etrans|intros a; etrans; [apply K1|apply K2]].
Qed.

Lemma stable_same w w' : extends w w' → cacheMgr w' = cacheMgr w → stable w w'.
Proof.
  intros He E. split; [done|by rewrite E|]. intros a. by apply extends_memo_keeps; rewrite ?E.
Qed.

Lemma quiet_stable w w' : quiet w w' → stable w w'.
Proof. by intros []. Qed.

Lemma stable_inv w w' : stable w w' → memo_ok w' → CacheInv w → CacheInv w'.
Proof.
  intros [He Hm _] Hmo [Hw Hmw Hs Hl Hn Ha]. destruct Hm as [_ Eq _ _ Es].
  split; [by eapply extends_wf|done|by rewrite Es|rewrite Eq; by eapply all_live_extends|by rewrite Eq|].
  intros b u x. rewrite Es, Eq, (extends_key w w' x He). apply Ha.
Qed.

Lemma stable_same_inv w w' : extends w w' → cacheMgr w' = cacheMgr w → CacheInv w → CacheInv w'.
Proof.
  intros He E HI. eapply stable_inv; [by apply stable_same| |done].
  eapply memo_ok_same; [by rewrite E..|apply HI].
Qed.

Lemma sys_event_spec w a s :
  world_wf w → live w a → sys_event w a s = Ret (log_call (CallSysEvent a s) w).
Proof.
  intros Hw [r Hr]. destruct (ww_apps _ Hw a r Hr) as [[i Hi] _ _].
  unfold sys_event, app_at. rewrite Hr. cbn. by rewrite Hi.
Qed.

Lemma OnAppCacheStateChanged_spec w a s :
  world_wf w → live w a →
  OnAppCacheStateChanged w (Some a) s = Ret (log_call (CallCacheStateChanged a s) w).
Proof.
  intros Hw [r Hr]. destruct (ww_apps _ Hw a r Hr) as [_ [p Hp] _].
  unfold OnAppCacheStateChanged, app_at. rewrite Hr. cbn. by rewrite Hp.
Qed.

Lemma IsCachedProcess_spec (c : CacheProcessManager) a :
  IsCachedProcess c (Some a) = true ↔ Some a ∈ cachedAppRecordQueue_ c.
Proof.
  cbn. rewrite existsb_exists. split.
  - intros (x & Hx & ->%bool_decide_eq_true). by apply list_elem_of_In.
  - intros H. exists (Some a). split; [by apply list_elem_of_In|by apply bool_decide_eq_true].
Qed.

Lemma set_begin_Some (X : gset Addr) : X ≠ ∅ → ∃ x, set_begin X = Some x ∧ x ∈ X ∧ ∀ y, y ∈ X → (x ≤ y)%positive.
Proof.
  intros HX. unfold set_begin.
  pose proof (merge_sort_Permutation Pos.le (elements X)) as Hp.
  assert (StronglySorted Pos.le (merge_sort Pos.le (elements X))) as Hsrt.
  { apply Sorted_StronglySorted; [exact Pos.le_trans|]. apply Sorted_merge_sort. intros x y. lia. }
  destruct (merge_sort Pos.le (elements X)) as [|x l] eqn:E.
  - apply Permutation_nil in Hp. apply elements_empty_inv in Hp. by apply leibniz_equiv in Hp.
  - exists x. split; [done|]. inversion Hsrt as [|?? _ Hx]; subst.
    assert (∀ y, y ∈ X ↔ y ∈ x :: l) as Hin by (intros y; rewrite Hp; by rewrite elem_of_elements).
    split; [apply Hin, list_elem_of_here|]. intros y [->|Hy]%Hin%elem_of_cons; [lia|].
    rewrite Forall_forall in Hx. by apply Hx.
Qed.

(** ** The operations on a consistent cache *)

Section Operations.
Variable shellAssistantBundleName : string.
Variable ffrt_cancel : gmap Ptr (Work Closure) → Ptr → bool.
Variable process_exits : Z → bool.

Abbreviation Notify := (CheckAndNotifyCachedState shellAssistantBundleName).
Abbreviation Killed := (OnProcessKilled shellAssistantBundleName).
Abbreviation Should := (IsAppShouldCache shellAssistantBundleName).
Abbreviation Cache := (CheckAndCacheProcess ffrt_cancel).
Abbreviation Pendding := (PenddingCacheProcess popped_kept process_exits).

(** All running processes of the application of the record at [a] are cached. *)
Definition app_all_cached w a : bool :=
  match appMgr_ w ≫= appRunningManager_, key_of w a with
  | Some running, Some (b, u) =>
      let X := set_at (sameAppSet (cacheMgr w)) b u in
      bool_decide (X ≠ ∅) && forallb (item_cached shellAssistantBundleName w b u X) (map_iter running)
  | _, _ => false
  end.

(** The record observers are told about: the first of the set. *)
Definition first_of_app w a : option Addr :=
  key_of w a ≫= λ k, set_begin (set_at (sameAppSet (cacheMgr w)) k.1 k.2).

(** The notification is sent exactly when the whole application is cached, once,
    for the first of its records. *)
Lemma CheckAndNotifyCachedState_spec w a :
  CacheInv w → live w a →
  ∃ w', Notify w (Some a) = Ret (w', app_all_cached w a) ∧ stable w w' ∧ memo_ok w' ∧ apps w' = apps w ∧
        taskHandlerW w' = taskHandlerW w ∧
        calls w' = calls w ++ (if app_all_cached w a then
          match first_of_app w a with Some x => [CallCacheStateChanged x APP_STATE_CACHED] | None => [] end
        else []).
Proof.
  intros HI [r Hr]. pose proof (ci_wf _ HI) as Hw. pose proof (ci_memo _ HI) as Hm.
  assert (∃ w', Ret (w, false) = Ret (w', false) ∧ stable w w' ∧ memo_ok w' ∧ apps w' = apps w ∧
            taskHandlerW w' = taskHandlerW w ∧ calls w' = calls w ++ []) as Hno
    by (exists w; rewrite app_nil_r; by split_and!).
  unfold CheckAndNotifyCachedState, app_all_cached, first_of_app, key_of, app_at.
  destruct (appMgr_ w) as [s|] eqn:Hs; [|exact Hno]. rewrite Hr. cbn -[set_at set_begin lookup].
  set (b := mainBundleName_ r). set (u := mainUid_ r). unfold IsAppProcessesAllCached.
  destruct (sameAppSet (cacheMgr w) !! b ≫= (.!! u)) as [X|] eqn:HX.
  2: { destruct (appRunningManager_ s); [|exact Hno]. unfold set_at. rewrite HX. exact Hno. }
  assert (set_at (sameAppSet (cacheMgr w)) b u = X) as -> by (unfold set_at; by rewrite HX).
  assert (X ≠ ∅) as HXne.
  { destruct (sameAppSet (cacheMgr w) !! b) as [m|] eqn:Hb; [|done]. cbn in HX.
    by destruct (ci_sets _ HI b m Hb) as [_ Hm']; apply (Hm' u X). }
  rewrite decide_False by (by rewrite size_empty_iff, leibniz_equiv_iff).
  destruct (appRunningManager_ s) as [running|] eqn:Hrn; [|exact Hno].
  unfold Running_IsAppProcessesAllCached. rewrite decide_False by (by rewrite size_empty_iff, leibniz_equiv_iff).
  rewrite bool_decide_true by done. cbn [andb].
  destruct (all_cached_spec shellAssistantBundleName w b u X (map_iter running) Hw Hm) as (w' & -> & Hq & Hm' & Ha').
  { intros i x Hx%elem_of_map_iter. by eapply ww_running. }
  cbn [obind]. destruct (forallb _ _); cbn [negb].
  2: { exists w'. rewrite app_nil_r. split_and!; try done; [by apply quiet_stable|apply Hq|apply Hq]. }
  destruct (set_begin_Some X HXne) as (x & -> & Hx & _).
  assert (live w x) as Hlx.
  { assert (x ∈ set_at (sameAppSet (cacheMgr w)) b u) as Hx' by (unfold set_at; by rewrite HX).
    apply (ci_agree _ HI) in Hx' as [Hx' _]. destruct (ci_live _ HI _ Hx') as (? & [= <-] & ?). done. }
  rewrite OnAppCacheStateChanged_spec; [|by eapply quiet_wf|unfold live; by rewrite Ha'].
  cbn [obind]. eexists. split; [done|]. split_and!; [|done|done|apply Hq|cbn; by rewrite (qu_calls _ _ Hq)].
  etrans; [by apply quiet_stable|]. by apply stable_same; [apply log_call_extends|].
Qed.

(** Forgetting the memo of a record keeps the memo right for the others. *)
Lemma forget_memo_inv w a :
  CacheInv w →
  CacheInv (w <| cacheMgr ::= λ c, c <| srvExtRecords ::= (.∖ {[a]}) |> <| srvExtCheckedFlag ::= (.∖ {[a]}) |> |>).
Proof.
  intros [Hw Hm Hs Hl Hn Ha]. split; [|unfold memo_ok in *; cbn; set_solver|done|done|done|done].
  eapply extends_wf; [|exact Hw]. by apply extends_same.
Qed.

(** Of the other processes everything remembered stays. *)
Lemma forget_keeps w a b :
  b ≠ a →
  memo_keeps b w (w <| cacheMgr ::= λ c, c <| srvExtRecords ::= (.∖ {[a]}) |> <| srvExtCheckedFlag ::= (.∖ {[a]}) |> |>).
Proof.
  intros Hne. split; [cbn; set_solver|]. unfold remembered. cbn -[lookup].
  assert (∀ X : gset Addr, b ∈ X ∖ {[a]} ↔ b ∈ X) as H by set_solver.
  rewrite (decide_ext _ _ _ _ (H _)), (bool_decide_ext _ _ (H _)). done.
Qed.

Lemma OnProcessKilled_inv w a :
  CacheInv w → live w a →
  ∃ w', Killed w (Some a) = Ret w' ∧ CacheInv w' ∧ extends w w' ∧
        maxProcCacheNum_ (cacheMgr w') = maxProcCacheNum_ (cacheMgr w) ∧
        cachedAppRecordQueue_ (cacheMgr w') =
          (if QueryEnableProcessCache (cacheMgr w)
           then filter (.≠ Some a) (cachedAppRecordQueue_ (cacheMgr w))
           else cachedAppRecordQueue_ (cacheMgr w)) ∧
        (∀ b, memo_keeps b w w' ∨ b = a ∧ a ∉ srvExtCheckedFlag (cacheMgr w')).
Proof.
  intros HI Hl. unfold OnProcessKilled.
  destruct (QueryEnableProcessCache (cacheMgr w)); [|exists w; split_and!; by try left].
  cbn [negb]. destruct (CheckAndNotifyCachedState_spec w a HI Hl) as (w1 & -> & Hst & Hm & Hap & _).
  cbn [obind]. pose proof (stable_inv w w1 Hst Hm HI) as HI1. apply (forget_memo_inv w1 a) in HI1.
  set (w2 := w1 <| cacheMgr ::= _ |>) in *.
  assert (extends w w2) as He2 by (etrans; [apply Hst|by apply extends_same]).
  assert (∀ w3, extends w2 w3 → srvExtRecords (cacheMgr w3) = srvExtRecords (cacheMgr w2) →
    srvExtCheckedFlag (cacheMgr w3) = srvExtCheckedFlag (cacheMgr w2) →
    ∀ b, memo_keeps b w w3 ∨ b = a ∧ a ∉ srvExtCheckedFlag (cacheMgr w3)) as Hmemo.
  { intros w3 He3 F1 F2 b. destruct (decide (b = a)) as [->|Hne]; [right; split; [done|]|left].
    - rewrite F2. cbn. set_solver.
    - etrans; [apply (st_keeps _ _ Hst)|]. etrans; [by apply forget_keeps|by apply extends_memo_keeps]. }
  destruct Hst as [_ [E1 E2 _ _ _] _].
  destruct (IsCachedProcess (cacheMgr w2) (Some a)) eqn:Hc; cbn [negb].
  - destruct (RemoveCacheRecord_inv w2 a) as (S & -> & HI3); [done|by apply (extends_live w w2)|].
    cbn [obind]. set (w3 := with_queue w2 _ S) in *.
    assert (extends w w3) as He3 by (etrans; [exact He2|by apply extends_same]).
    rewrite sys_event_spec; [|apply HI3|by apply (extends_live w w3)].
    eexists. split; [done|]. split_and!.
    + eapply stable_same_inv; [| |exact HI3]; [apply log_call_extends|done].
    + etrans; [exact He3|apply log_call_extends].
    + exact E1.
    + cbn -[filter]. by rewrite E2.
    + by apply Hmemo; [apply extends_same|..].
  - exists w2. split_and!; try done; [|by apply Hmemo]. cbn -[filter]. rewrite E2, filter_all; [done|].
    intros x Hx ->. assert (IsCachedProcess (cacheMgr w2) (Some a) = true); [|congruence].
    apply IsCachedProcess_spec. cbn. by rewrite E2.
Qed.

Lemma ReuseCachedProcess_inv w a :
  CacheInv w → live w a →
  ∃ w' b, ReuseCachedProcess w (Some a) = Ret (w', b) ∧ CacheInv w' ∧ extends w w' ∧
        maxProcCacheNum_ (cacheMgr w') = maxProcCacheNum_ (cacheMgr w) ∧
        cachedAppRecordQueue_ (cacheMgr w') =
          (if b then filter (.≠ Some a) (cachedAppRecordQueue_ (cacheMgr w))
           else cachedAppRecordQueue_ (cacheMgr w)) ∧
        (b = true ↔ QueryEnableProcessCache (cacheMgr w) = true ∧ Some a ∈ cachedAppRecordQueue_ (cacheMgr w)) ∧
        (∀ x, memo_keeps x w w').
Proof.
  intros HI Hl. unfold ReuseCachedProcess.
  destruct (QueryEnableProcessCache (cacheMgr w)); [|exists w, false; split_and!; try done; split; [done|by intros []]].
  destruct (IsCachedProcess (cacheMgr w) (Some a)) eqn:Hc; cbn [negb].
  2: { exists w, false. split_and!; try done. split; [done|]. intros [_ H%IsCachedProcess_spec]. congruence. }
  apply IsCachedProcess_spec in Hc.
  destruct (RemoveCacheRecord_inv w a HI Hl) as (S & -> & HI1). cbn [obind].
  set (w1 := with_queue w _ S) in *. assert (extends w w1) as He1 by (by apply extends_same).
  assert (∀ w2, extends w1 w2 → cacheMgr w2 = cacheMgr w1 → CacheInv w2 ∧ extends w w2 ∧
    maxProcCacheNum_ (cacheMgr w2) = maxProcCacheNum_ (cacheMgr w) ∧
    cachedAppRecordQueue_ (cacheMgr w2) = filter (.≠ Some a) (cachedAppRecordQueue_ (cacheMgr w)) ∧
    ∀ x, memo_keeps x w w2) as Hend.
  { intros w2 He Hm. assert (extends w w2) as He' by (by etrans).
    split_and!; [eapply stable_same_inv; [exact He|done..]|done|by rewrite Hm|by rewrite Hm|].
    intros x. by apply extends_memo_keeps; rewrite ?Hm. }
  rewrite sys_event_spec; [|apply HI1|by apply (extends_live w w1)]. cbn [obind].
  set (w2 := log_call _ w1). assert (extends w1 w2) as He2 by apply log_call_extends.
  assert (live w2 a) as Hl2 by (by apply (extends_live w w2); [etrans|]).
  rewrite sys_event_spec; [|by eapply extends_wf, ci_wf|done]. cbn [obind].
  set (w3 := log_call _ w2). assert (extends w1 w3) as He3 by (etrans; [done|apply log_call_extends]).
  change (appMgr_ w3) with (appMgr_ w). destruct (appMgr_ w).
  - rewrite OnAppCacheStateChanged_spec; [|by eapply extends_wf, ci_wf|done]. cbn [obind].
    eexists _, true. split; [done|]. edestruct Hend as (A & B & C & D & K); [..|split_and!; [exact A|exact B|exact C|exact D|done|exact K]];
      [etrans; [exact He3|apply log_call_extends]|done].
  - exists w3, true. split; [done|]. destruct (Hend w3) as (?&?&?&?&?); [done..|]. by split_and!.
Qed.

Lemma IsAppShouldCache_spec w a r :
  world_wf w → memo_ok w → apps w !! a = Some r →
  ∃ w', Should w (Some a) =
          Ret (w', QueryEnableProcessCache (cacheMgr w) &&
                   (IsCachedProcess (cacheMgr w) (Some a) || supports_now shellAssistantBundleName w a r)) ∧
        quiet w w' ∧ memo_ok w' ∧ apps w' = apps w.
Proof.
  intros Hw Hm Hr. unfold IsAppShouldCache.
  destruct (QueryEnableProcessCache (cacheMgr w)); [|by exists w].
  destruct (IsCachedProcess (cacheMgr w) (Some a)); [by exists w|].
  destruct (IsAppSupportProcessCache_spec shellAssistantBundleName w a r Hw Hm Hr) as (w' & E & ?).
  exists w'. by rewrite E.
Qed.

Lemma PrepareActivateCache_stable w a :
  world_wf w → live w a →
  ∃ w', PrepareActivateCache w (Some a) = Ret w' ∧ extends w w' ∧ cacheMgr w' = cacheMgr w.
Proof.
  intros Hw Hl. unfold PrepareActivateCache. repeat case_match; try (by exists w).
  rewrite OnAppCacheStateChanged_spec by done. eexists. split_and!; [done|apply log_call_extends|done].
Qed.

Lemma modules_empty_defined w l :
  (∀ q, Some q ∈ l → is_Some (modules w !! q)) → ∃ b, modules_empty w l = Ret b.
Proof.
  induction l as [|[q|] l IH]; intros Hl; [by eexists| |].
  - destruct (Hl q (list_elem_of_here _ _)) as [m Hm]. cbn. unfold module_at. rewrite Hm. cbn.
    case_decide; [|by eexists]. apply IH. intros q' Hq'. by apply Hl, list_elem_of_further.
  - cbn. apply IH. intros q' Hq'. by apply Hl, list_elem_of_further.
Qed.

Lemma CheckAndCacheProcess_stable w a :
  world_wf w → live w a →
  ∃ w' b, Cache w (Some a) = Ret (w', b) ∧ extends w w' ∧ cacheMgr w' = cacheMgr w.
Proof.
  intros Hw [r Hr]. unfold CheckAndCacheProcess, IsAppAbilitiesEmpty, app_at. rewrite Hr.
  repeat (case_match; [by eexists w, _|]). cbn [deref obind].
  destruct (modules_empty_defined w (GetAllModuleRecord r)) as [e ->]; [by apply (ww_apps _ Hw a r)|].
  cbn [obind]. destruct e; cbn [negb]; [|by eexists w, _].
  set (w1 := ScheduleCacheProcess w a r).
  assert (extends w w1 ∧ cacheMgr w1 = cacheMgr w ∧ apps w1 !! a = Some r) as (He1 & Hc1 & Hr1).
  { unfold w1, ScheduleCacheProcess. destruct (appLifeCycleDeal_ r); [|done].
    split_and!; [apply log_call_extends|done|done]. }
  rewrite sys_event_spec; [|by eapply extends_wf|by eexists]. cbn [obind].
  unfold App_CancelTask, App_PostTask. destruct (hasTaskHandler_ r).
  - destruct (CancelTask _ _ _) as [h ok]. eexists _, _.
    split_and!; [done|etrans; [done|by apply extends_same]|done].
  - eexists _, _. split_and!; [done|etrans; [done|by apply extends_same]|done].
Qed.

(** ** Runs *)

(** The operations clients call. A process enters the queue when it is not there
    ([OPend]): the caller has asked [IsCachedProcess]. Modules are added to a process
    when an ability starts in it and removed when their last ability ended. *)
Inductive CacheOp :=
| OPend (a : Addr)
| OCheckAndCache (a : Addr)
| ONotify (a : Addr)
| OKilled (a : Addr)
| OReuse (a : Addr)
| OShould (a : Addr)
| OActivate (a : Addr)
| ORefresh (maxNum : Z)
| OAddModule (a : Addr) (appInfo : option ApplicationInfo) (abilityInfo : option AbilityType)
    (token : option Token) (hapModuleInfo : HapModuleInfo)
| ORemoveModule (a : Addr) (moduleRecord : option Addr) (isExtensionDebug : bool).

Definition cexec w (op : CacheOp) : outcome AppWorld :=
  match op with
  | OPend a =>
      if IsCachedProcess (cacheMgr w) (Some a) then Ret w
      else let* (w, _) := Pendding w (Some a) in Ret w
  | OCheckAndCache a => let* (w, _) := Cache w (Some a) in Ret w
  | ONotify a => let* (w, _) := Notify w (Some a) in Ret w
  | OKilled a => Killed w (Some a)
  | OReuse a => let* (w, _) := ReuseCachedProcess w (Some a) in Ret w
  | OShould a => let* (w, _) := Should w (Some a) in Ret w
  | OActivate a => PrepareActivateCache w (Some a)
  | ORefresh n => Ret (RefreshCacheNum w n)
  | OAddModule a appInfo abilityInfo token hapModuleInfo =>
      AddModule w a appInfo abilityInfo token hapModuleInfo
  | ORemoveModule a moduleRecord isExtensionDebug => RemoveModuleRecord w a moduleRecord isExtensionDebug
  end.

Fixpoint crun w (ops : list CacheOp) : outcome AppWorld :=
  match ops with
  | [] => Ret w
  | op :: ops => let* w := cexec w op in crun w ops
  end.

(** The records exist, and the parameter of the system is below the largest [int]. *)
Definition op_ok w (op : CacheOp) : Prop :=
  match op with
  | OPend a | OCheckAndCache a | ONotify a | OKilled a | OReuse a | OShould a | OActivate a
  | OAddModule a _ _ _ _ | ORemoveModule a _ _ => live w a
  | ORefresh n => (n < INT_MAX)%Z
  end.

Lemma op_ok_grows w w' op : grows w w' → op_ok w op → op_ok w' op.
Proof. intros He. destruct op; cbn [op_ok]; rewrite <-?(grows_live w w') by exact He; tauto. Qed.

(** The operation leaves it as it is whether the process at [a] has a module with a
    service extension. *)
Definition no_service_change a (op : CacheOp) : Prop :=
  match op with
  | OAddModule b _ _ _ hap => b = a → hap_has_service hap = false
  | ORemoveModule b _ _ => b ≠ a
  | _ => True
  end.

(** What an operation does to the memo: only the kill of a process forgets what is
    remembered of it, and what is remembered stays right when the modules do not
    change. *)
Definition memo_step (op : CacheOp) w w' : Prop := ∀ a,
  (op ≠ OKilled a → a ∈ srvExtCheckedFlag (cacheMgr w) →
     a ∈ srvExtCheckedFlag (cacheMgr w') ∧ remembered w' a = remembered w a) ∧
  (no_service_change a op → remembered w a = contains_at w a → remembered w' a = contains_at w' a).

Lemma remembered_unchecked w a : a ∉ srvExtCheckedFlag (cacheMgr w) → remembered w a = contains_at w a.
Proof. intros H. unfold remembered. by rewrite decide_False. Qed.

Lemma memo_step_extends op w w' :
  extends w w' →
  (∀ a, memo_keeps a w w' ∨ op = OKilled a ∧ a ∉ srvExtCheckedFlag (cacheMgr w')) → memo_step op w w'.
Proof.
  intros He H a. rewrite (extends_contains_at w w' a He).
  destruct (H a) as [[H1 H2]|[-> Hn]]; [rewrite H2; auto|]. split; [done|]. intros _ _.
  by rewrite remembered_unchecked, (extends_contains_at w w' a He).
Qed.

(** An edit of the modules leaves the memo alone. *)
Lemma memo_step_edits op a w w' :
  world_wf w → edits a w w' → (no_service_change a op → contains_at w' a = contains_at w a) →
  memo_step op w w'.
Proof.
  intros Hw He Ha b. unfold remembered. rewrite (ed_cache _ _ _ He). split.
  - intros _ Hc. by rewrite !decide_True.
  - intros Hn. assert (contains_at w' b = contains_at w b) as ->; [|done].
    destruct (decide (b = a)) as [->|Hne]; [auto|by eapply edits_others].
Qed.

Lemma edits_inv a w w' : edits a w w' → CacheInv w → CacheInv w'.
Proof.
  intros He [Hw Hm Hs Hl Hn Ha]. pose proof (edits_grows _ _ _ He) as Hg.
  pose proof (ed_cache _ _ _ He) as E. unfold memo_ok, agree in *.
  split; unfold memo_ok, agree; rewrite ?E; try done.
  - by eapply edits_wf.
  - intros x Hx. destruct (Hl x Hx) as (b & -> & Hb). exists b. split; [done|by apply (grows_live w w')].
  - intros b u x. rewrite (Hg x). apply Ha.
Qed.

(** The queue and its bound leave room in an [int]. *)
Definition in_range w : Prop :=
  (maxProcCacheNum_ (cacheMgr w) < INT_MAX)%Z ∧
  (Z.of_nat (length (cachedAppRecordQueue_ (cacheMgr w))) < INT_MAX)%Z.

Lemma pend_in_range w a max w' :
  in_range w → maxProcCacheNum_ (cacheMgr w) = Z.of_nat max → pend_result w a max w' →
  in_range w' ∧ (length (cachedAppRecordQueue_ (cacheMgr w')) ≤ max)%nat.
Proof.
  intros [H1 H2] Hmax [_ Hq _ Hrest _ _]. cbn zeta in *. unfold in_range. rewrite Hrest at 1.
  cbn [with_queue]. rewrite Hq, length_drop, length_app. cbn -[INT_MAX]. lia.
Qed.

Lemma OPend_inv w a :
  CacheInv w → in_range w → live w a →
  ∃ w', cexec w (OPend a) = Ret w' ∧ CacheInv w' ∧ in_range w' ∧ extends w w' ∧
        ∀ b, memo_keeps b w w'.
Proof.
  intros HI HR [r Hr]. cbn [cexec].
  destruct (IsCachedProcess (cacheMgr w) (Some a)) eqn:Hc; [by exists w|].
  assert (Some a ∉ cachedAppRecordQueue_ (cacheMgr w)) as Hnew
    by (intros H%IsCachedProcess_spec; congruence).
  destruct (QueryEnableProcessCache (cacheMgr w)) eqn:Hq.
  2: { unfold PenddingCacheProcess. rewrite Hq. by exists w. }
  destruct (IsKeepAliveApp r) eqn:Hk.
  { unfold PenddingCacheProcess, app_at. rewrite Hq, Hr. cbn. rewrite Hk. by exists w. }
  apply Z.ltb_lt in Hq. set (max := Z.to_nat (maxProcCacheNum_ (cacheMgr w))).
  assert (maxProcCacheNum_ (cacheMgr w) = Z.of_nat max) as Hmax by (subst max; lia).
  destruct (PenddingCacheProcess_spec process_exits w a r max) as (w' & -> & Hp);
    [apply HI|apply HI|apply HI|done|done|done|lia|destruct HR; unfold INT_RANGE; lia|].
  exists w'. split_and!; [done| | |apply Hp|].
  - apply (PenddingCacheProcess_inv process_exits w a max w'); [done|done|by exists r|done].
  - by eapply pend_in_range.
  - intros b. destruct Hp as [He _ _ Hrest _ _].
    apply extends_memo_keeps; [done|by rewrite Hrest|by rewrite Hrest].
Qed.

(** The operations on the modules. *)
Lemma module_op_inv w op a (c : outcome AppWorld) :
  CacheInv w → in_range w → cexec w op = c →
  (∃ w', c = Ret w' ∧ (w' = w ∨ edits a w w') ∧ (no_service_change a op → contains_at w' a = contains_at w a)) →
  ∃ w', cexec w op = Ret w' ∧ CacheInv w' ∧ in_range w' ∧ grows w w' ∧ memo_step op w w'.
Proof.
  intros HI HR E (w' & Ec & Hor & Hc). rewrite Ec in E. exists w'. split; [done|].
  destruct Hor as [->|He]; [by split_and!|].
  split_and!; [by eapply edits_inv| |by eapply edits_grows|by eapply memo_step_edits; [apply HI|..]].
  unfold in_range. by rewrite (ed_cache _ _ _ He).
Qed.

(** An operation that leaves the records as they are. *)
Lemma extends_op_inv w op w' :
  cexec w op = Ret w' → CacheInv w' → in_range w' → extends w w' →
  (∀ a, memo_keeps a w w' ∨ op = OKilled a ∧ a ∉ srvExtCheckedFlag (cacheMgr w')) →
  ∃ w', cexec w op = Ret w' ∧ CacheInv w' ∧ in_range w' ∧ grows w w' ∧ memo_step op w w'.
Proof.
  intros E HI HR He Hm. exists w'. split_and!; [done|done|done|by apply extends_grows|].
  by apply memo_step_extends.
Qed.

Lemma shorter_in_range w w' a (b : bool) :
  in_range w → maxProcCacheNum_ (cacheMgr w') = maxProcCacheNum_ (cacheMgr w) →
  cachedAppRecordQueue_ (cacheMgr w') =
    (if b then filter (.≠ Some a) (cachedAppRecordQueue_ (cacheMgr w))
     else cachedAppRecordQueue_ (cacheMgr w)) →
  in_range w'.
Proof.
  intros [R1 R2] E1 E2. split; [by rewrite E1|]. rewrite E2. destruct b; [|done].
  pose proof (length_filter (.≠ Some a) (cachedAppRecordQueue_ (cacheMgr w))). lia.
Qed.

Lemma cexec_inv w op :
  CacheInv w → in_range w → op_ok w op →
  ∃ w', cexec w op = Ret w' ∧ CacheInv w' ∧ in_range w' ∧ grows w w' ∧ memo_step op w w'.
Proof.
  intros HI HR Hok. pose proof (ci_wf _ HI) as Hw. pose proof (ci_memo _ HI) as Hm.
  assert (∀ w', stable w w' → memo_ok w' → cexec w op = Ret w' →
    ∃ w', cexec w op = Ret w' ∧ CacheInv w' ∧ in_range w' ∧ grows w w' ∧ memo_step op w w') as Hst.
  { intros w' Hst Hm' E. apply (extends_op_inv w op w'); [done|by eapply stable_inv| |apply Hst|].
    - destruct Hst as [_ [E1 E2 _ _ _] _]. unfold in_range. by rewrite E1, E2.
    - intros a. left. apply Hst. }
  assert (∀ w', extends w w' → cacheMgr w' = cacheMgr w → cexec w op = Ret w' →
    ∃ w', cexec w op = Ret w' ∧ CacheInv w' ∧ in_range w' ∧ grows w w' ∧ memo_step op w w') as Hsame.
  { intros w' He E. apply Hst; [by apply stable_same|by eapply memo_ok_same; [rewrite E..|]]. }
  destruct op as [a|a|a|a|a|a|a|n|a i ab t hap|a p dbg]; cbn [op_ok] in Hok.
  - destruct (OPend_inv w a HI HR Hok) as (w' & E & ? & ? & ? & ?). eapply extends_op_inv; eauto.
  - destruct (CheckAndCacheProcess_stable w a Hw Hok) as (w' & b & E & He & Hc).
    apply (Hsame w'); [done|done|]. cbn [cexec]. by rewrite E.
  - destruct (CheckAndNotifyCachedState_spec w a HI Hok) as (w' & E & Hs & Hm' & _).
    apply (Hst w'); [done|done|]. cbn [cexec]. by rewrite E.
  - destruct (OnProcessKilled_inv w a HI Hok) as (w' & E & HI' & He & E1 & E2 & Hk).
    apply (extends_op_inv w (OKilled a) w'); [done|done|by eapply shorter_in_range|done|].
    intros b. destruct (Hk b) as [?|[-> ?]]; auto.
  - destruct (ReuseCachedProcess_inv w a HI Hok) as (w' & b & E & HI' & He & E1 & E2 & _ & Hk).
    apply (extends_op_inv w (OReuse a) w'); [cbn [cexec]; by rewrite E|done|by eapply shorter_in_range|done|auto].
  - destruct Hok as [r Hr]. destruct (IsAppShouldCache_spec w a r Hw Hm Hr) as (w' & E & Hq & Hm' & _).
    apply (Hst w'); [by apply quiet_stable|done|]. cbn [cexec]. by rewrite E.
  - destruct (PrepareActivateCache_stable w a Hw Hok) as (w' & E & He & Hc). by apply (Hsame w').
  - assert (extends w (RefreshCacheNum w n)) as He by (by apply extends_same).
    apply (extends_op_inv w (ORefresh n) (RefreshCacheNum w n)); [done| |split; [done|apply HR]|done|].
    + destruct HI. split; [by eapply extends_wf|done|done|by eapply all_live_extends|done|done].
    + intros a. left. by apply extends_memo_keeps.
  - eapply (module_op_inv w _ a); [done..|].
    destruct (AddModule_spec w a i ab t hap Hw Hok) as (w' & E & He & Hc). exists w'. split_and!; [done|done|].
    intros H. by apply Hc, H.
  - eapply (module_op_inv w _ a); [done..|].
    destruct (RemoveModuleRecord_spec w a p dbg Hok) as (w' & E & He). exists w'.
    split_and!; [done|by right|]. intros H. by destruct H.
Qed.

Lemma crun_app w ops1 ops2 : crun w (ops1 ++ ops2) = (let* w := crun w ops1 in crun w ops2).
Proof.
  revert w. induction ops1 as [|op ops1 IH]; intros w; [done|]. cbn. by destruct (cexec w op); cbn.
Qed.

Lemma crun_inv w ops :
  CacheInv w → in_range w → Forall (op_ok w) ops →
  ∃ w', crun w ops = Ret w' ∧ CacheInv w' ∧ in_range w' ∧ grows w w' ∧
        ∀ a, (Forall (λ op, op ≠ OKilled a) ops → a ∈ srvExtCheckedFlag (cacheMgr w) →
                remembered w' a = remembered w a) ∧
             (Forall (no_service_change a) ops → remembered w a = contains_at w a →
                remembered w' a = contains_at w' a).
Proof.
  intros HI HR Hok. revert w HI HR Hok. induction ops as [|op ops IH]; intros w HI HR Hok; [by exists w|].
  inversion Hok as [|?? H1 H2]; subst.
  destruct (cexec_inv w op HI HR H1) as (w1 & E & HI1 & HR1 & He & Hm).
  cbn [crun]. rewrite E. cbn [obind]. destruct (IH w1 HI1 HR1) as (w' & ? & ? & ? & ? & Hm').
  { eapply Forall_impl; [exact H2|]. intros o. by apply op_ok_grows. }
  exists w'. split_and!; try done; [by etrans|]. intros a. destruct (Hm a) as [A1 A2], (Hm' a) as [B1 B2].
  split; (intros HF Hc; inversion HF; subst); [|by apply B2, A2].
  destruct A1 as [? <-]; [done..|]. by apply B1.
Qed.

(** A manager that was just created, over well-formed records. *)
Definition initial w (maxNum : Z) (api support : bool) : Prop :=
  world_wf w ∧ cacheMgr w = CacheProcessManager_new maxNum api support ∧ (maxNum < INT_MAX)%Z.

Lemma initial_inv w n api sup : initial w n api sup → CacheInv w ∧ in_range w.
Proof.
  intros (Hw & Hc & Hn). unfold in_range. rewrite Hc. split; [|split; [done|reflexivity]].
  split; rewrite ?Hc; cbn -[lookup].
  - done.
  - unfold memo_ok. rewrite Hc. cbn. set_solver.
  - apply map_Forall_empty.
  - intros x []%not_elem_of_nil.
  - constructor.
  - intros b u x. rewrite Hc. cbn -[lookup]. unfold set_at. rewrite lookup_empty. cbn.
    split; [set_solver|]. by intros [[]%not_elem_of_nil _].
Qed.
End Operations.

(** A read of the popped element is all that makes the shrinking undefined. *)
Lemma shrink_loop_undefined q w max :
  maxProcCacheNum_ (cacheMgr w) = Z.of_nat max → INT_RANGE (length q) →
  shrink_loop popped_undefined w q [] =
    if decide (length q ≤ max)%nat then shrink_loop popped_kept w q [] else Undef.
Proof.
  intros Hmax Hr. destruct q as [|x q]; cbn [shrink_loop];
    rewrite GetCurrentCachedProcNum_small by done; cbn -[Z.of_nat INT_MAX decide RemoveFromApplicationSet];
    rewrite Hmax; case_decide as H; case_match eqn:E; try done;
    first [apply Z.ltb_lt in E|apply Z.ltb_ge in E]; cbn [length] in *; lia.
Qed.

Lemma PenddingCacheProcess_undefined exits w a r max :
  world_wf w → sets_wf (sameAppSet (cacheMgr w)) → live w a →
  apps w !! a = Some r → IsKeepAliveApp r = false →
  maxProcCacheNum_ (cacheMgr w) = Z.of_nat max → (0 < max)%nat →
  INT_RANGE (S (length (cachedAppRecordQueue_ (cacheMgr w)))) →
  PenddingCacheProcess popped_undefined exits w (Some a) =
    if decide (length (cachedAppRecordQueue_ (cacheMgr w)) < max)%nat
    then PenddingCacheProcess popped_kept exits w (Some a) else Undef.
Proof.
  intros Hw Hs Hl Hr Hk Hmax Hpos Hrange. unfold PenddingCacheProcess, QueryEnableProcessCache.
  rewrite Hmax, (proj2 (Z.ltb_lt _ _)) by lia. cbn [negb]. unfold app_at. rewrite Hr.
  cbn [deref obind]. rewrite Hk.
  match goal with |- context [AddToApplicationSet ?x _] => set (w1 := x) end.
  destruct (live_key w a Hl) as (b & u & Hkey).
  destruct (AddToApplicationSet_spec w1 a b u Hkey Hs) as (S1 & -> & HS1). cbn [obind].
  set (w2 := w1 <| cacheMgr ::= _ |>). unfold ShrinkAndKillCache.
  change (maxProcCacheNum_ (cacheMgr w2)) with (maxProcCacheNum_ (cacheMgr w)).
  rewrite Hmax, (proj2 (Z.leb_gt _ _)) by lia.
  change (cachedAppRecordQueue_ (cacheMgr w2)) with (cachedAppRecordQueue_ (cacheMgr w) ++ [Some a]).
  rewrite (shrink_loop_undefined _ w2 max); [|done|unfold INT_RANGE in *; rewrite length_app; cbn [length]; lia].
  rewrite length_app. cbn [length]. repeat case_decide; try lia; done.
Qed.

(** ** The properties *)

(** C35: However processes enter, leave, are reused, killed, notified and checked,
    get modules and lose them, and whatever the limit is set to: where a process
    enters only when it is not queued, and where a reference to the element just
    popped still reads that element ([popped_kept]), no call is undefined, the queue
    holds no process twice, and the sets per application hold exactly the queued
    processes of the application, with no empty set left behind. The language does
    not promise such a read: by it the call is undefined when a process has to leave
    the queue. *)
Theorem cache_consistent (shell : string) (ffrt_cancel : gmap Ptr (Work Closure) → Ptr → bool)
    (exits : Z → bool) (w0 : AppWorld) (maxNum : Z) (api support : bool) (ops : list CacheOp) :
  initial w0 maxNum api support → Forall (op_ok w0) ops →
  ∃ w, crun shell ffrt_cancel exits w0 ops = Ret w ∧
    NoDup (cachedAppRecordQueue_ (cacheMgr w)) ∧
    (∀ b u x, x ∈ set_at (sameAppSet (cacheMgr w)) b u ↔
              Some x ∈ cachedAppRecordQueue_ (cacheMgr w) ∧ key_of w x = Some (b, u)) ∧
    sets_wf (sameAppSet (cacheMgr w)).
Proof.
  intros [HI HR]%initial_inv Hok.
  destruct (crun_inv shell ffrt_cancel exits w0 ops HI HR Hok) as (w & E & HI' & _).
  exists w. split_and!; [done|apply HI'|apply HI'|apply HI'].
Qed.

(** C36: The queue is bounded. A process that enters a reachable cache leaves it with
    at most the configured number of processes, the newest ones in their order; the
    others, oldest first, are reported to observers and told to exit, and they are
    the only ones marked as terminating; when there is room nobody is killed. This
    holds where a reference to a popped element still reads its old value; by the
    language the call is undefined exactly when some process has to leave. *)
Theorem PenddingCacheProcess_bounded (shell : string)
    (ffrt_cancel : gmap Ptr (Work Closure) → Ptr → bool) (exits : Z → bool)
    (w0 : AppWorld) (maxNum : Z) (api support : bool) (ops : list CacheOp) (w : AppWorld)
    (a : Addr) (r : AppRunningRecord) :
  initial w0 maxNum api support → Forall (op_ok w0) ops →
  crun shell ffrt_cancel exits w0 ops = Ret w →
  apps w !! a = Some r → IsKeepAliveApp r = false → (0 < maxProcCacheNum_ (cacheMgr w))%Z →
  let q := cachedAppRecordQueue_ (cacheMgr w) ++ [Some a] in
  let over := (length q - Z.to_nat (maxProcCacheNum_ (cacheMgr w)))%nat in
  (∃ w', PenddingCacheProcess popped_kept exits w (Some a) = Ret (w', true) ∧
     cachedAppRecordQueue_ (cacheMgr w') = drop over q ∧
     (Z.of_nat (length (cachedAppRecordQueue_ (cacheMgr w'))) ≤ maxProcCacheNum_ (cacheMgr w))%Z ∧
     calls w' = calls w ++ (omap id (take over q) ≫= kill_calls w') ∧
     (∀ x, terminating w' x ↔ terminating w x ∨ (can_kill w = true ∧ Some x ∈ take over q))) ∧
  (PenddingCacheProcess popped_undefined exits w (Some a) = Undef ↔ (0 < over)%nat).
Proof.
  intros [HI0 HR0]%initial_inv Hok Hrun Hr Hk Hpos q over.
  destruct (crun_inv shell ffrt_cancel exits w0 ops HI0 HR0 Hok) as (? & E & HI & HR & _).
  rewrite Hrun in E. injection E as <-. set (max := Z.to_nat (maxProcCacheNum_ (cacheMgr w))) in *.
  assert (maxProcCacheNum_ (cacheMgr w) = Z.of_nat max) as Hmax by (subst max; lia).
  assert (INT_RANGE (S (length (cachedAppRecordQueue_ (cacheMgr w))))) as Hrange
    by (destruct HR; unfold INT_RANGE; lia).
  destruct (PenddingCacheProcess_spec exits w a r max) as (w' & E & Hp);
    [apply HI|apply HI|apply HI|done|done|done|lia|done|].
  split.
  - exists w'. split_and!; [done|apply Hp| |apply Hp|apply Hp].
    destruct (pend_in_range w a max w') as [_ Hlen]; [done|done|done|lia].
  - rewrite (PenddingCacheProcess_undefined exits w a r max); [|apply HI|apply HI|by exists r|done..|lia|done].
    rewrite E. subst over q. rewrite length_app. cbn [length]. case_decide; split; try done; lia.
Qed.

(** C37: The check whether a process may be cached decides by a recent enough
    interface, no service extension in any module, not on the status bar, not
    resident, no parent, not the shell assistant, not blocked, and the support the
    application declared; for the service extension it answers what it remembers.
    From a moment at which the process has not been checked, or is no more remembered,
    its answers are those of the definition that searches the modules each time, for
    as long as no module with a service extension is added to the process and no
    module is removed from it, whatever else happens. Once the process was checked,
    what is remembered of it stays until it is reported killed, also when its modules
    change. *)
Theorem IsAppSupportProcessCache_equiv (shell : string)
    (ffrt_cancel : gmap Ptr (Work Closure) → Ptr → bool) (exits : Z → bool)
    (w0 : AppWorld) (maxNum : Z) (api support : bool) (ops1 ops2 : list CacheOp) (w1 w : AppWorld)
    (a : Addr) (r : AppRunningRecord) :
  initial w0 maxNum api support → Forall (op_ok w0) (ops1 ++ ops2) →
  crun shell ffrt_cancel exits w0 ops1 = Ret w1 → crun shell ffrt_cancel exits w1 ops2 = Ret w →
  apps w !! a = Some r →
  (∃ w', IsAppSupportProcessCache shell w (Some a) = Ret (w', supports_when shell (remembered w a) w r) ∧
         apps w' = apps w ∧ memo_only (cacheMgr w) (cacheMgr w') ∧ calls w' = calls w) ∧
  (a ∉ srvExtCheckedFlag (cacheMgr w1) → Forall (no_service_change a) ops2 →
     supports_when shell (remembered w a) w r = supports_cache shell w r) ∧
  (a ∈ srvExtCheckedFlag (cacheMgr w1) → Forall (λ op, op ≠ OKilled a) ops2 →
     remembered w a = remembered w1 a).
Proof.
  intros [HI0 HR0]%initial_inv [Hok1 Hok2]%Forall_app E1 E2 Hr.
  destruct (crun_inv shell ffrt_cancel exits w0 ops1 HI0 HR0 Hok1) as (? & F1 & HI1 & HR1 & Hg & _).
  rewrite E1 in F1. injection F1 as <-.
  assert (Forall (op_ok w1) ops2) as Hok by (eapply Forall_impl; [exact Hok2|intros o; by apply op_ok_grows]).
  destruct (crun_inv shell ffrt_cancel exits w1 ops2 HI1 HR1 Hok) as (? & F2 & HI & _ & _ & Hm).
  rewrite E2 in F2. injection F2 as <-. destruct (Hm a) as [Hsticky Hexact]. split_and!; [| |auto].
  - destruct (IsAppSupportProcessCache_spec shell w a r (ci_wf _ HI) (ci_memo _ HI) Hr) as (w' & ? & Hq & _ & ?).
    exists w'. split_and!; [done|done|apply Hq|apply Hq].
  - intros Hc Hno. rewrite Hexact; [|done|by apply remembered_unchecked].
    unfold supports_cache, contains_at. by rewrite Hr.
Qed.

(** ** An example: two processes with one module each *)

Module Demo.
Definition app (bundle : string) (m : Addr) : AppRunningRecord :=
  mkApp bundle 100 bundle (Some (mkAppInfo 12 bundle false)) false false true {[bundle := [Some m]]}
    None SUPPORT false false false (Some 7%Z) true true
    {[bundle := mkAppInfo 12 bundle false]}.

Definition hap : HapModuleInfo := mkHapModule "entry" [(PAGE, OTHER_EXTENSION 0)] [].

(** The process at 1 runs an ability with token 5, the process at 2 has none left. *)
Definition world (max : Z) : AppWorld :=
  mkAppWorld {[1%positive := app "x" 11; 2%positive := app "y" 12]}
    {[11%positive := mkModule {[5%positive := 21%positive]} ∅ hap; 12%positive := mkModule ∅ ∅ hap]}
    {[21%positive := mkAbility 5 (Some PAGE) false]} TaskHandlerWrap_new
    (CacheProcessManager_new max true true)
    (Some (mkAppMgr (Some {[1%Z := Some 1%positive; 2%Z := Some 2%positive]}) true)) [].

Lemma world_initial max : (max < INT_MAX)%Z → initial (world max) max true true.
Proof.
  intros Hmax. split_and!; [|done|done]. split.
  - intros a r. cbn [world apps].
    intros [[<- <-]|[_ [<- <-]%lookup_singleton_Some]]%lookup_insert_Some;
      (split; [by eexists|by eexists| |by intros [=]%list_elem_of_singleton]);
      intros q [= ->]%list_elem_of_singleton; by eexists.
  - intros s running i a [= <-] [= <-]. cbn -[lookup insert].
    intros [[<- [= <-]]|[_ [<- [= <-]]%lookup_singleton_Some]]%lookup_insert_Some; by eexists.
Qed.

Lemma world_live max a : a = 1%positive ∨ a = 2%positive → live (world max) a.
Proof. intros [-> | ->]; by eexists. Qed.

Definition exits (pid : Z) : bool := false.

(** Two more haps, and the addition of one to the process at 1. *)
Definition hap2 : HapModuleInfo := mkHapModule "feature" [(PAGE, OTHER_EXTENSION 0)] [].
Definition hap3 : HapModuleInfo := mkHapModule "library" [] [OTHER_EXTENSION 1].

Definition add (h : HapModuleInfo) : CacheOp :=
  OAddModule 1 (Some (mkAppInfo 12 "x" false)) (Some PAGE) (Some 6%positive) h.
End Demo.

Lemma cache_consistent_witness :
  ∃ w, crun "shell" ffrt_cancel_held Demo.exits (Demo.world 1) [OPend 1; OPend 2; OKilled 2] = Ret w ∧
       NoDup (cachedAppRecordQueue_ (cacheMgr w)).
Proof.
  destruct (cache_consistent "shell" ffrt_cancel_held Demo.exits (Demo.world 1) 1 true true
    [OPend 1; OPend 2; OKilled 2]) as (w & E & H & _).
  - by apply Demo.world_initial.
  - repeat constructor; by apply Demo.world_live; auto.
  - exists w. split; [exact E|exact H].
Defined.

Lemma PenddingCacheProcess_bounded_witness :
  ∃ w, crun "shell" ffrt_cancel_held Demo.exits (Demo.world 1) [OPend 1] = Ret w ∧
       PenddingCacheProcess popped_undefined Demo.exits w (Some 2%positive) = Undef.
Proof.
  destruct (crun "shell" ffrt_cancel_held Demo.exits (Demo.world 1) [OPend 1]) as [w|] eqn:E;
    [|vm_compute in E; discriminate].
  exists w. split; [done|].
  apply (PenddingCacheProcess_bounded "shell" ffrt_cancel_held Demo.exits (Demo.world 1) 1 true true
    [OPend 1] w 2%positive (Demo.app "y" 12)).
  - by apply Demo.world_initial.
  - repeat constructor; by apply Demo.world_live; auto.
  - exact E.
  - vm_compute in E. injection E as <-. reflexivity.
  - reflexivity.
  - vm_compute in E. injection E as <-. reflexivity.
  - vm_compute in E. injection E as <-. vm_compute. lia.
Defined.

(** Before its first check the process has got a second module, and after the check
    a third. *)
Lemma IsAppSupportProcessCache_equiv_witness :
  ∃ w1 w w', crun "shell" ffrt_cancel_held Demo.exits (Demo.world 1) [OPend 2; Demo.add Demo.hap2] = Ret w1 ∧
    crun "shell" ffrt_cancel_held Demo.exits w1 [OShould 1; Demo.add Demo.hap3] = Ret w ∧
    IsAppSupportProcessCache "shell" w (Some 1%positive) = Ret (w', true).
Proof.
  destruct (crun "shell" ffrt_cancel_held Demo.exits (Demo.world 1) [OPend 2; Demo.add Demo.hap2])
    as [w1|] eqn:E1; [|vm_compute in E1; discriminate].
  destruct (crun "shell" ffrt_cancel_held Demo.exits w1 [OShould 1; Demo.add Demo.hap3]) as [w|] eqn:E2.
  2: { vm_compute in E1. injection E1 as <-. vm_compute in E2. discriminate. }
  destruct (apps w !! 1%positive) as [r|] eqn:Hr.
  2: { vm_compute in E1. injection E1 as <-. vm_compute in E2. injection E2 as <-. vm_compute in Hr. discriminate. }
  destruct (IsAppSupportProcessCache_equiv "shell" ffrt_cancel_held Demo.exits (Demo.world 1) 1 true true
    [OPend 2; Demo.add Demo.hap2] [OShould 1; Demo.add Demo.hap3] w1 w 1%positive r)
    as ((w' & E & _) & Hexact & _).
  - by apply Demo.world_initial.
  - repeat constructor; by apply Demo.world_live; auto.
  - exact E1.
  - exact E2.
  - exact Hr.
  - exists w1, w, w'. split; [done|]. split; [done|]. rewrite E, Hexact.
    + vm_compute in E1. injection E1 as <-. vm_compute in E2. injection E2 as <-.
      vm_compute in Hr. injection Hr as <-. vm_compute. reflexivity.
    + vm_compute in E1. injection E1 as <-. vm_compute. discriminate.
    + repeat constructor.
Defined.

(** The memo goes stale: a process is checked, then a module with a service extension
    is added to it, and the check still answers that it may be cached. *)
Example service_added_after_check :
  ∃ w w' r, crun "shell" ffrt_cancel_held Demo.exits (Demo.world 1)
      [OShould 1; Demo.add (mkHapModule "late" [] [SERVICE])] = Ret w ∧
    apps w !! 1%positive = Some r ∧ supports_cache "shell" w r = false ∧
    IsAppSupportProcessCache "shell" w (Some 1%positive) = Ret (w', true).
Proof. eexists _, _, _. split_and!; vm_compute; reflexivity. Qed.
