(* ===== verification/AppRunning.v ===== *)
(** * The end of the last ability of a process

    [AppRunningManager::PrepareTerminate] ([services/appmgr/src/app_running_manager.cpp])
    on top of the records and the cache of processes, and what the composition of
    the application manager, the cache and the shared task handler does: a process
    queued twice, and a notification cancelled by another process. *)

From stdpp Require Import prelude gmap strings list.
From Stdlib Require Import ZArith Lia.
From S2P Require Import Prelude TaskHandler AppRecord CacheProcess CacheTheorems.

Implicit Types (w : AppWorld) (r : AppRunningRecord) (a : Addr) (p : option Addr).

(** The loop of [GetAppRunningRecordByAbilityToken]. *)
Fixpoint find_app_by_token w (items : list (Z * option Addr)) (token : option Token)
  : outcome (option Addr) :=
  match items with
  | [] => Ret None
  | (_, None) :: items => find_app_by_token w items token
  | (_, Some a) :: items =>
      let* r := app_at w a in
      let* ab := GetAbilityRunningRecordByToken w r token in
      match ab with
      | Some _ => Ret (Some a)
      | None => find_app_by_token w items token
      end
  end.

Definition GetAppRunningRecordByAbilityToken w (running : gmap Z (option Addr)) (token : option Token)
  : outcome (option Addr) := find_app_by_token w (map_iter running) token.

Section Prepare.
Variable shellAssistantBundleName : string.
Variable popped_front : option Addr → outcome (option Addr).
Variable process_exits : Z → bool.
(** [ExitResidentProcessManager::IsMemorySizeSufficent] *)
Variable memory_sufficient : bool.

Definition PrepareTerminate w (running : gmap Z (option Addr)) (token : option Token)
    (clearMissionFlag : bool) : outcome AppWorld :=
  match token with
  | None => Ret w
  | Some _ =>
      let* appRecord := GetAppRunningRecordByAbilityToken w running token in
      match appRecord with
      | None => Ret w
      | Some a =>
          let* r := app_at w a in
          let* abilityRecord := GetAbilityRunningRecordByToken w r token in
          let w := match abilityRecord with
                   | Some x => w <| abilities ::= alter (λ y, y <| ab_isTerminating_ := true |>) x |>
                   | None => w
                   end in
          let* isLastAbility := if clearMissionFlag then IsLastPageAbilityRecord w r token
                                else IsLastAbilityRecord w r token in
          if isLastAbility && (negb (IsKeepAliveApp r) || negb memory_sufficient) then
            let* (w, should) := IsAppShouldCache shellAssistantBundleName w (Some a) in
            if should then
              let* (w, _) := PenddingCacheProcess popped_front process_exits w (Some a) in Ret w
            else Ret (SetTerminating w a)
          else Ret w
      end
  end.
End Prepare.

(** ** Queries that only read what does not change *)

Lemma static_modules r r' : static r = static r' → GetAllModuleRecord r = GetAllModuleRecord r'.
Proof. intros H. apply (f_equal hapModules_) in H. cbn in H. unfold GetAllModuleRecord. by rewrite H. Qed.

Lemma find_module_same w w' look l : modules w' = modules w → find_module w' look l = find_module w look l.
Proof.
  intros E. induction l as [|[q|] l IH]; [done| |done]. cbn. unfold module_at. rewrite E.
  destruct (modules w !! q); [|done]. cbn. by rewrite IH.
Qed.

Lemma GetModuleRunningRecordByToken_same w w' r r' token :
  modules w' = modules w → static r = static r' →
  GetModuleRunningRecordByToken w' r' token = GetModuleRunningRecordByToken w r token.
Proof.
  intros Em Hs. unfold GetModuleRunningRecordByToken. destruct token; [|done].
  rewrite (static_modules _ _ Hs). by apply find_module_same.
Qed.

Lemma GetAbilityRunningRecordByToken_same w w' r r' token :
  modules w' = modules w → static r = static r' →
  GetAbilityRunningRecordByToken w' r' token = GetAbilityRunningRecordByToken w r token.
Proof.
  intros Em Hs. unfold GetAbilityRunningRecordByToken.
  rewrite (GetModuleRunningRecordByToken_same w w' r r') by done. unfold module_at. by rewrite Em.
Qed.

Lemma IsLastAbilityRecord_same w w' r r' token :
  modules w' = modules w → static r = static r' →
  IsLastAbilityRecord w' r' token = IsLastAbilityRecord w r token.
Proof.
  intros Em Hs. unfold IsLastAbilityRecord.
  rewrite (GetModuleRunningRecordByToken_same w w' r r') by done.
  rewrite (static_modules _ _ Hs). unfold module_at. by rewrite Em.
Qed.

Lemma find_app_by_token_same w w' items token :
  extends w w' → find_app_by_token w' items token = find_app_by_token w items token.
Proof.
  intros He. induction items as [|[i [a|]] items IH]; [done| |done]. cbn. unfold app_at.
  pose proof (ex_apps _ _ He a) as Hs.
  destruct (apps w' !! a) as [r'|], (apps w !! a) as [r|]; try done. apply (inj Some) in Hs. cbn.
  rewrite (GetAbilityRunningRecordByToken_same w w' r r') by (done || apply He).
  destruct (GetAbilityRunningRecordByToken w r token) as [[x|]|]; [done|done|done].
Qed.

Lemma IsKeepAliveApp_static r r' : static r = static r' → IsKeepAliveApp r = IsKeepAliveApp r'.
Proof.
  intros H. unfold IsKeepAliveApp. pose proof (f_equal isKeepAliveApp_ H). pose proof (f_equal isSingleton_ H).
  pose proof (f_equal isMainProcess_ H). cbn in *. congruence.
Qed.

Section Twice.
Variables (shell : string) (exits : Z → bool) (mem : bool).
Abbreviation Prepare := (PrepareTerminate shell popped_kept exits mem).

(** A process of which the token names the last ability, and that is not resident. *)
Record last_of w (running : gmap Z (option Addr)) (token : Token) a r : Prop := {
  lo_found : GetAppRunningRecordByAbilityToken w running (Some token) = Ret (Some a);
  lo_app : apps w !! a = Some r;
  lo_last : IsLastAbilityRecord w r (Some token) = Ret true;
  lo_not_resident : IsKeepAliveApp r = false;
}.

Lemma last_of_extends w w' running token a r :
  extends w w' → last_of w running token a r → ∃ r', last_of w' running token a r' ∧ static r = static r'.
Proof.
  intros He [Hf Ha Hl Hk]. pose proof (ex_apps _ _ He a) as Hs. rewrite Ha in Hs.
  destruct (apps w' !! a) as [r'|] eqn:Ha'; [|done]. apply (inj Some) in Hs. exists r'. split; [|done].
  split; [|done| |].
  - unfold GetAppRunningRecordByAbilityToken in *. by rewrite (find_app_by_token_same w w').
  - by rewrite (IsLastAbilityRecord_same w w' r r') by (done || apply He).
  - by rewrite (IsKeepAliveApp_static r' r).
Qed.

Lemma last_of_token w running token a r :
  last_of w running token a r → ∃ x, GetAbilityRunningRecordByToken w r (Some token) = Ret x.
Proof.
  intros [_ _ Hl _]. unfold IsLastAbilityRecord, GetAbilityRunningRecordByToken in *.
  destruct (GetModuleRunningRecordByToken w r (Some token)) as [[m|]|]; [|by eexists|done].
  cbn in *. case_bool_decide; [|done]. destruct (module_at w m); [by eexists|done].
Qed.

(** Preparing the termination of a cacheable process queues it. *)
Lemma PrepareTerminate_queues w running token a r max :
  world_wf w → memo_ok w → sets_wf (sameAppSet (cacheMgr w)) →
  all_live w (cachedAppRecordQueue_ (cacheMgr w)) → in_range w →
  last_of w running token a r → maxProcCacheNum_ (cacheMgr w) = Z.of_nat max → (0 < max)%nat →
  Some a ∈ cachedAppRecordQueue_ (cacheMgr w) ∨ supports_now shell w a r = true →
  ∃ w1 w2, Prepare w running (Some token) false = Ret w2 ∧ stable w w1 ∧ memo_ok w1 ∧ apps w1 = apps w ∧
           pend_result w1 a max w2.
Proof.
  intros Hw Hm Hs Hl HR Hlast Hmax Hpos Hsup. destruct (last_of_token _ _ _ _ _ Hlast) as [x Ex].
  destruct Hlast as [Hf Ha Hla Hk]. unfold PrepareTerminate. rewrite Hf. cbn [obind].
  unfold app_at. rewrite Ha. cbn [deref obind]. rewrite Ex. cbn [obind].
  set (w0 := match x with Some _ => _ | None => _ end).
  assert (extends w w0 ∧ cacheMgr w0 = cacheMgr w ∧ apps w0 = apps w) as (He0 & Hc0 & Ha0)
    by (by destruct x; split_and!; try apply extends_same).
  rewrite (IsLastAbilityRecord_same w w0 r r) by (done || apply He0). rewrite Hla. cbn [obind].
  rewrite Hk. cbn [negb orb andb].
  destruct (IsAppShouldCache_spec shell w0 a r) as (w1 & -> & Hq & Hm1 & Ha1);
    [by eapply extends_wf|eapply memo_ok_same; [by rewrite Hc0..|done]|by rewrite Ha0|].
  assert (QueryEnableProcessCache (cacheMgr w0) = true) as ->
    by (unfold QueryEnableProcessCache; rewrite Hc0, Hmax; apply Z.ltb_lt; lia).
  assert (IsCachedProcess (cacheMgr w0) (Some a) || supports_now shell w0 a r = true) as ->.
  { rewrite Hc0. destruct Hsup as [Hin%IsCachedProcess_spec|Hsup]; [by rewrite Hin|].
    unfold supports_now, supports_when in *. rewrite Hc0.
    assert (remembered w0 a = remembered w a) as -> by (by apply extends_memo_keeps; rewrite ?Hc0).
    rewrite Hsup. apply orb_true_r. }
  cbn [andb obind]. destruct Hq as [He1 Hmo _ _ Hk1]. pose proof Hmo as [E1 E2 _ _ E5].
  assert (extends w w1) as He by (by etrans).
  destruct (PenddingCacheProcess_spec exits w1 a r max) as (w2 & -> & Hp).
  { by eapply extends_wf. }
  { by rewrite E5, Hc0. }
  { rewrite E2, Hc0. by eapply all_live_extends. }
  { by rewrite Ha1, Ha0. }
  { done. }
  { by rewrite E1, Hc0. }
  { done. }
  { rewrite E2, Hc0. destruct HR. unfold INT_RANGE. lia. }
  cbn [obind]. exists w1, w2. split_and!; [done| |done|congruence|done].
  split; [done|by rewrite <-Hc0|]. intros b. etrans; [|apply Hk1].
  by apply extends_memo_keeps; rewrite ?Hc0.
Qed.
(** What the next call needs of the state after a process was queued. *)
Lemma pend_result_next w a max w' :
  world_wf w → memo_ok w → all_live w (cachedAppRecordQueue_ (cacheMgr w)) → live w a → in_range w →
  maxProcCacheNum_ (cacheMgr w) = Z.of_nat max → pend_result w a max w' →
  world_wf w' ∧ memo_ok w' ∧ sets_wf (sameAppSet (cacheMgr w')) ∧
  all_live w' (cachedAppRecordQueue_ (cacheMgr w')) ∧ in_range w' ∧
  maxProcCacheNum_ (cacheMgr w') = Z.of_nat max.
Proof.
  intros Hw Hm Hl Hla HR Hmax Hp. pose proof Hp as [He Hq (S & b & u & _ & _ & HS) Hrest _ _].
  cbn zeta in *. split_and!.
  - by eapply extends_wf.
  - eapply memo_ok_same; [by rewrite Hrest|by rewrite Hrest|done].
  - apply HS.
  - eapply all_live_extends; [exact He|]. rewrite Hq. intros x Hx.
    assert (x ∈ cachedAppRecordQueue_ (cacheMgr w) ++ [Some a]) as Hx'.
    { erewrite <-(take_drop _ (_ ++ _)). apply elem_of_app. right. exact Hx. }
    apply elem_of_app in Hx' as [Hx'| ->%list_elem_of_singleton]; [by apply Hl|by exists a].
  - by eapply pend_in_range.
  - by rewrite Hrest.
Qed.

(** The queue ends with the process that entered last. *)
Lemma drop_snoc {A} (q : list A) (x : A) (k : nat) :
  (k ≤ length q)%nat → drop k (q ++ [x]) = drop k q ++ [x].
Proof. intros H. by rewrite drop_app_le. Qed.

(** Nothing keeps a process from being queued twice: a queued process is one
    that should be cached, so preparing the termination of its last ability once more
    queues it again. With a limit of two or more the queue then ends with the process
    twice. With a limit of one the process is pushed out by itself: it is told to exit
    while it stays queued, as a cached process, and is missing in the set of its
    application. *)
Theorem PrepareTerminate_twice (ffrt_cancel : gmap Ptr (Work Closure) → Ptr → bool)
    (w0 : AppWorld) (maxNum : Z) (api support : bool) (ops : list CacheOp) (w : AppWorld)
    (running : gmap Z (option Addr)) (token : Token) (a : Addr) (r : AppRunningRecord) :
  initial w0 maxNum api support → Forall (op_ok w0) ops →
  crun shell ffrt_cancel exits w0 ops = Ret w →
  last_of w running token a r → supports_now shell w a r = true →
  (0 < maxProcCacheNum_ (cacheMgr w))%Z →
  ∃ w1 w2, Prepare w running (Some token) false = Ret w1 ∧
    Prepare w1 running (Some token) false = Ret w2 ∧
    ((2 ≤ maxProcCacheNum_ (cacheMgr w))%Z →
      ∃ l, cachedAppRecordQueue_ (cacheMgr w2) = l ++ [Some a; Some a]) ∧
    (maxProcCacheNum_ (cacheMgr w) = 1%Z →
      cachedAppRecordQueue_ (cacheMgr w2) = [Some a] ∧ (can_kill w = true → terminating w2 a) ∧
      a ∉ set_at (sameAppSet (cacheMgr w2)) (mainBundleName_ r) (mainUid_ r)).
Proof.
  intros [HI0 HR0]%initial_inv Hok Hrun Hlast Hsup Hpos.
  destruct (crun_inv shell ffrt_cancel exits w0 ops HI0 HR0 Hok) as (? & E & HI & HR & _).
  rewrite Hrun in E. injection E as <-. set (max := Z.to_nat (maxProcCacheNum_ (cacheMgr w))).
  assert (maxProcCacheNum_ (cacheMgr w) = Z.of_nat max) as Hmax by (subst max; lia).
  assert (0 < max)%nat as Hpos' by lia.
  destruct (PrepareTerminate_queues w running token a r max) as (wi & w1 & E1 & [Hei Hmoi _] & Hmi & Hai & Hp1);
    [apply HI|apply HI|apply HI|apply HI|done|done|done|done|by right|].
  pose proof (mo_max _ _ Hmoi) as Emax. pose proof (mo_queue _ _ Hmoi) as Eq.
  assert (live w a) as Hla by (by exists r; apply Hlast).
  assert (in_range wi) as HRi by (unfold in_range; by rewrite Emax, Eq).
  assert (live wi a) as Hlai by (by apply (extends_live w wi)).
  destruct (pend_result_next wi a max w1) as (Hw1 & Hm1 & Hs1 & Hl1 & HR1 & Hmax1);
    [by eapply extends_wf, ci_wf|done|rewrite Eq; eapply all_live_extends; [done|apply HI]|done|done|congruence|done|].
  assert (extends w w1) as He1 by (etrans; [done|apply Hp1]).
  destruct (last_of_extends w w1 _ _ _ _ He1 Hlast) as (r1 & Hlast1 & Hst).
  assert (∃ l1, cachedAppRecordQueue_ (cacheMgr w1) = l1 ++ [Some a] ∧ (length l1 < max)%nat) as (l1 & Eq1 & Hl1').
  { pose proof (pr_queue _ _ _ _ Hp1) as Hq1. cbn zeta in Hq1. rewrite Hq1, length_app. cbn [length].
    rewrite drop_snoc by lia. eexists. split; [done|]. rewrite length_drop. lia. }
  destruct (PrepareTerminate_queues w1 running token a r1 max) as (wj & w2 & E2 & [Hej Hmoj _] & Hmj & Haj & Hp2);
    [done..| |].
  { left. rewrite Eq1. apply elem_of_app. right. by apply list_elem_of_singleton. }
  exists w1, w2. split_and!; [done|done| |].
  - intros H2. pose proof (pr_queue _ _ _ _ Hp2) as Hq2. cbn zeta in Hq2. rewrite Hq2, (mo_queue _ _ Hmoj), Eq1.
    rewrite <-app_assoc. cbn [app]. rewrite !length_app. cbn [length].
    rewrite drop_app_le by lia. by eexists.
  - intros H1. assert (max = 1%nat) as -> by lia. destruct l1; [|cbn in Hl1'; lia]. cbn [app] in Eq1.
    destruct Hp2 as [He2 Hq2 (S & b & u & Hk & HS & HS') _ _ Ht]. cbn zeta in *.
    rewrite (mo_queue _ _ Hmoj), Eq1 in *. cbn [app length Nat.sub drop take] in *.
    split_and!; [done| |].
    + intros Hck. apply Ht. right. split; [|by apply list_elem_of_singleton].
      unfold can_kill in *. by rewrite (ex_appMgr _ _ Hej), (ex_appMgr _ _ He1).
    + rewrite (extends_key w1 wj a Hej), (extends_key w w1 a He1) in Hk. unfold key_of in Hk.
      rewrite (lo_app _ _ _ _ _ Hlast) in Hk. injection Hk as <- <-.
      destruct HS' as [_ HS']. rewrite HS'. intros [_ Hn]. apply Hn.
      split; [by apply list_elem_of_singleton|].
      rewrite (extends_key w1 wj a Hej), (extends_key w w1 a He1). unfold key_of.
      by rewrite (lo_app _ _ _ _ _ Hlast).
Qed.
End Twice.

(** ** The delayed notification and the shared task handler *)

Section Notification.
Variable ffrt_cancel : gmap Ptr (Work Closure) → Ptr → bool.
Hypothesis ffrt_cancel_spec : ∀ m i, ffrt_cancel m i = true ↔ is_Some (m !! i).

(** The task FFRT holds as [i] will notify that the process at [a] is cached. *)
Definition notifies (h : TaskHandlerWrap Closure) (i : Ptr) a : Prop :=
  ∃ wk, pending h !! i = Some wk ∧ w_job wk = JUser (NotifyCached a).

(** The handler of the service after any history of tasks. *)
Definition reachable_handler (h : TaskHandlerWrap Closure) : Prop :=
  ∃ cs, h = hs_handler (hrun ffrt_cancel HState_new cs).

(** A process without abilities that is queued and has a task handler enters the cache. *)
Record enters_cache w a r : Prop := {
  ec_app : apps w !! a = Some r;
  ec_queued : Some a ∈ cachedAppRecordQueue_ (cacheMgr w);
  ec_empty : IsAppAbilitiesEmpty w (Some a) = Ret true;
  ec_info : is_Some (appInfo_ r);
  ec_handler : hasTaskHandler_ r = true;
}.

(** Cancelling and posting again under one name. *)
Definition repost (h : TaskHandlerWrap Closure) a : TaskHandlerWrap Closure :=
  (SubmitTask_named (CancelTask ffrt_cancel h DELAY_CACHED_STATE_NOTIFY).1 (Some (JUser (NotifyCached a)))
     DELAY_CACHED_STATE_NOTIFY DELAY_NOTIFY_PROCESS_CACHED_STATE true).1.

Lemma CheckAndCacheProcess_repost w a r :
  QueryEnableProcessCache (cacheMgr w) = true → enters_cache w a r →
  ∃ w', CheckAndCacheProcess ffrt_cancel w (Some a) = Ret (w', true) ∧
        taskHandlerW w' = repost (taskHandlerW w) a ∧ cacheMgr w' = cacheMgr w ∧ apps w' = apps w ∧
        modules w' = modules w.
Proof.
  intros Hq [Ha Hc He [i Hi] Hh]. unfold CheckAndCacheProcess.
  rewrite Hq, (proj2 (IsCachedProcess_spec _ _) Hc), He. cbn [negb obind].
  unfold app_at. rewrite Ha. cbn [deref obind]. set (w1 := ScheduleCacheProcess w a r).
  assert (apps w1 = apps w ∧ cacheMgr w1 = cacheMgr w ∧ taskHandlerW w1 = taskHandlerW w ∧
          modules w1 = modules w) as (A1 & A2 & A3 & A4)
    by (unfold w1, ScheduleCacheProcess; by destruct (appLifeCycleDeal_ r)).
  unfold sys_event, app_at. rewrite A1, Ha. cbn [deref obind]. rewrite Hi. cbn [deref obind].
  unfold App_CancelTask, App_PostTask, repost. rewrite Hh. cbn -[CancelTask SubmitTask_named]. rewrite A3.
  destruct (CancelTask ffrt_cancel (taskHandlerW w) DELAY_CACHED_STATE_NOTIFY) as [h ok].
  eexists. split; [done|]. by split_and!.
Qed.

(** After reposting for [a] the name stands for a task that notifies of [a], and of
    the other tasks only the one the name stood for before is gone. *)
Lemma repost_spec h a issued log :
  HInv h issued log →
  ∃ i th issued', HInv (repost h a) issued' (log ++ log_cancel
      (default TaskHandle_null (tasks_ h !! DELAY_CACHED_STATE_NOTIFY))
      (CancelTask ffrt_cancel h DELAY_CACHED_STATE_NOTIFY).2) ∧
    tasks_ (repost h a) !! DELAY_CACHED_STATE_NOTIFY = Some th ∧ innerTaskHandle_ th = Some i ∧
    notifies (repost h a) i a ∧
    (∀ j b, notifies (repost h a) j b → j = i ∧ b = a ∨
       notifies h j b ∧ ∀ th', tasks_ h !! DELAY_CACHED_STATE_NOTIFY = Some th' → innerTaskHandle_ th' ≠ Some j) ∧
    (∀ th' j, tasks_ h !! DELAY_CACHED_STATE_NOTIFY = Some th' → innerTaskHandle_ th' = Some j →
       (j < fresh_ptr (repost h a))%positive ∧ pending (repost h a) !! j = None).
Proof.
  intros HI. assert (∀ th j, tasks_ h !! DELAY_CACHED_STATE_NOTIFY = Some th → innerTaskHandle_ th = Some j →
    (j < fresh_ptr h)%positive) as Hold.
  { intros th j Hth Hj. destruct (hi_issued _ _ _ HI th (hi_tasks _ _ _ HI _ _ Hth)) as [->|(c & -> & Hlt & _)];
      [done|]. by injection Hj as <-. }
  pose proof (CancelTask_evolves ffrt_cancel h DELAY_CACHED_STATE_NOTIFY) as [Hf1 _].
  unfold repost.
  destruct (CancelTask ffrt_cancel h DELAY_CACHED_STATE_NOTIFY) as [h1 ok] eqn:E.
  pose proof (CancelTask_pending ffrt_cancel h DELAY_CACHED_STATE_NOTIFY) as Hev. rewrite E in Hev.
  destruct (CancelTask_inv ffrt_cancel ffrt_cancel_spec _ _ _ _ _ _ HI E) as (HI1 & Ht & _ & Hgone).
  cbn [fst snd] in *.
  pose proof (SubmitTask_named_evolves h1 (Some (JUser (NotifyCached a))) DELAY_CACHED_STATE_NOTIFY
    DELAY_NOTIFY_PROCESS_CACHED_STATE true) as [Hf2 Hp2].
  destruct (SubmitTask_named h1 _ _ _ _) as [h2 th] eqn:E2.
  pose proof (SubmitTask_named_inv _ _ _ _ _ _ _ _ _ HI1 E2) as HI2. cbn [fst] in *.
  assert (∀ th' j, tasks_ h !! DELAY_CACHED_STATE_NOTIFY = Some th' → innerTaskHandle_ th' = Some j →
    (j < fresh_ptr h2)%positive ∧ pending h2 !! j = None) as Hlast.
  { intros th' j Hth' Hj. specialize (Hold th' j Hth' Hj). split; [lia|].
    destruct (pending h2 !! j) as [wk|] eqn:Ew; [|done].
    apply Hp2 in Ew; [|lia]. by rewrite (Hgone th' j Hth' Hj) in Ew. }
  unfold SubmitTask_named in E2.
  assert (tasks_ h1 !! DELAY_CACHED_STATE_NOTIFY = None) as Hnone by (rewrite Ht; apply lookup_delete_eq).
  rewrite Hnone in E2. cbn -[lookup insert DELAY_CACHED_STATE_NOTIFY] in E2. injection E2 as <- <-.
  eexists _, _, _. split_and!; [exact HI2| | | | |exact Hlast].
  - cbn -[lookup insert DELAY_CACHED_STATE_NOTIFY]. apply lookup_insert_eq.
  - done.
  - eexists. cbn -[lookup insert DELAY_CACHED_STATE_NOTIFY]. rewrite lookup_insert_ne by lia.
    rewrite lookup_insert_eq. done.
  - intros j b (wk & Hj & Hb). cbn -[lookup insert DELAY_CACHED_STATE_NOTIFY] in Hj.
    apply lookup_insert_Some in Hj as [[_ <-]|[_ Hj]]; [done|].
    apply lookup_insert_Some in Hj as [[<- <-]|[_ Hj]]; [left; cbn in Hb; split; [done|congruence]|].
    right. split.
    + exists wk. split; [by apply Hev|done].
    + intros th' Hth' Hi. rewrite (Hgone th' j Hth' Hi) in Hj. done.
Qed.

(** The task that tells observers that a process is cached is posted under one
    name to the task handler that all processes share, after the task of that name was
    cancelled. When a second process enters the cache before the delay of the first
    has passed, the notification of the first is cancelled and never sent, in whatever
    way the run goes on; only the second is notified. *)
Theorem cached_notification_lost (w : AppWorld) (a b : Addr) (ra rb : AppRunningRecord) :
  reachable_handler (taskHandlerW w) → QueryEnableProcessCache (cacheMgr w) = true →
  enters_cache w a ra → enters_cache w b rb → a ≠ b →
  (∀ i, ¬ notifies (taskHandlerW w) i a) →
  ∃ w1 w2, CheckAndCacheProcess ffrt_cancel w (Some a) = Ret (w1, true) ∧
    CheckAndCacheProcess ffrt_cancel w1 (Some b) = Ret (w2, true) ∧
    (∃ i, notifies (taskHandlerW w1) i a ∧ pending (taskHandlerW w2) !! i = None ∧
       ∀ cs, Started i ∉ hs_log (hrun ffrt_cancel (mkHState (taskHandlerW w2) [] []) cs)) ∧
    (∀ i, ¬ notifies (taskHandlerW w2) i a) ∧ ∃ i, notifies (taskHandlerW w2) i b.
Proof.
  intros [cs0 Hh] Hq Ha Hb Hab Hno.
  assert (HState_inv (hrun ffrt_cancel HState_new cs0)) as HI
    by (apply hrun_inv; [done|apply HInv_new]).
  unfold HState_inv in HI. rewrite <-Hh in HI.
  destruct (CheckAndCacheProcess_repost w a ra Hq Ha) as (w1 & E1 & Hh1 & Hc1 & Ha1 & Hm1).
  assert (enters_cache w1 b rb) as Hb1.
  { destruct Hb as [B1 B2 B3 B4 B5]. split; [by rewrite Ha1|by rewrite Hc1| |done|done].
    rewrite <-B3. unfold IsAppAbilitiesEmpty, app_at. rewrite Ha1. destruct (apps w !! b); [|done]. cbn.
    clear -Hm1. generalize (GetAllModuleRecord a0). intros l. induction l as [|[q|] l IH]; [done| |done].
    cbn. unfold module_at. rewrite Hm1. destruct (modules w !! q); [|done]. cbn. by rewrite IH. }
  destruct (CheckAndCacheProcess_repost w1 b rb) as (w2 & E2 & Hh2 & _); [by rewrite Hc1|done|].
  destruct (repost_spec _ a _ _ HI) as (i & th & iss & HI1 & Ht & Hi & Hn & Honly & _). rewrite <-Hh1 in *.
  destruct (repost_spec _ b _ _ HI1) as (j & th2 & iss2 & HI2 & Ht2 & Hj & Hn2 & Honly2 & Hgone). rewrite <-Hh2 in *.
  assert (∀ k, ¬ notifies (taskHandlerW w2) k a) as Hlost.
  { intros k [[-> ->]|[Hk Hne]]%Honly2; [done|].
    destruct (Honly k a Hk) as [[-> _]|[Hk' _]]; [by eapply Hne|by eapply Hno]. }
  exists w1, w2. split_and!; [done|done| |done|by exists j].
  exists i. destruct (Hgone th i Ht Hi) as [Hlt Hnone]. split_and!; [done|done|].
  intros cs. destruct (gone_never_started ffrt_cancel (mkHState (taskHandlerW w2) [] []) i cs) as (new & -> & Hnew);
    done.
Qed.
End Notification.

Lemma PrepareTerminate_twice_witness :
  ∃ w1 w2,
    PrepareTerminate "shell" popped_kept Demo.exits true (Demo.world 1) {[1%Z := Some 1%positive]}
      (Some 5%positive) false = Ret w1 ∧
    PrepareTerminate "shell" popped_kept Demo.exits true w1 {[1%Z := Some 1%positive]}
      (Some 5%positive) false = Ret w2 ∧ cachedAppRecordQueue_ (cacheMgr w2) = [Some 1%positive].
Proof.
  destruct (PrepareTerminate_twice "shell" Demo.exits true ffrt_cancel_held (Demo.world 1) 1 true true []
    (Demo.world 1) {[1%Z := Some 1%positive]} 5%positive 1%positive (Demo.app "x" 11))
    as (w1 & w2 & E1 & E2 & _ & H).
  - by apply Demo.world_initial.
  - constructor.
  - reflexivity.
  - split; reflexivity.
  - reflexivity.
  - reflexivity.
  - exists w1, w2. split_and!; [exact E1|exact E2|by apply H].
Defined.

(** Both processes of the example without abilities, queued. *)
Definition demo_queued : AppWorld :=
  Demo.world 2 <| modules := {[11%positive := mkModule ∅ ∅ Demo.hap; 12%positive := mkModule ∅ ∅ Demo.hap]} |>
    <| cacheMgr ::= λ c, c <| cachedAppRecordQueue_ := [Some 1%positive; Some 2%positive] |> |>.

Lemma cached_notification_lost_witness :
  ∃ w1 w2, CheckAndCacheProcess ffrt_cancel_held demo_queued (Some 1%positive) = Ret (w1, true) ∧
    CheckAndCacheProcess ffrt_cancel_held w1 (Some 2%positive) = Ret (w2, true) ∧
    ∀ i, ¬ notifies (taskHandlerW w2) i 1.
Proof.
  destruct (cached_notification_lost ffrt_cancel_held ffrt_cancel_held_spec demo_queued 1 2
    (Demo.app "x" 11) (Demo.app "y" 12)) as (w1 & w2 & E1 & E2 & _ & H & _).
  - by exists [].
  - reflexivity.
  - split; [reflexivity|left|reflexivity|by eexists|reflexivity].
  - split; [reflexivity|right; left|reflexivity|by eexists|reflexivity].
  - done.
  - intros i (wk & Hw & _). cbn -[lookup] in Hw. by rewrite lookup_empty in Hw.
  - exists w1, w2. split_and!; [exact E1|exact E2|exact H].
Defined.
