(* ===== verification/Permission.v ===== *)
(** * Permission checks of a call

    [services/common/src/permission_verification.cpp]: what the services ask about
    the caller of an IPC call, and the decisions whether an ability may be started,
    connected or called.

    The access token service, the identity of the caller and system parameters are
    outside the repository: a [CallEnv] holds their answers during one call. *)

From stdpp Require Import prelude strings list.
From Stdlib Require Import ZArith Lia.
From S2P Require Import Prelude.

(** ** What the outside answers during a call *)

(** [ATokenTypeEnum]; the values no check asks for are one. *)
Inductive TokenType := TOKEN_HAP | TOKEN_NATIVE | TOKEN_SHELL | TOKEN_OTHER.
#[global] Instance TokenType_eq_dec : EqDecision TokenType.
Proof. solve_decision. Defined.

Record CallEnv := mkCallEnv {
  CallingTokenID : Z;
  CallingFullTokenID : Z;
  CallingPid : Z;
  GetTokenTypeFlag : Z → TokenType;
  GetNativeTokenInfo : Z → option string;
  GetHapTokenInfo : Z → option string;
  VerifyAccessToken : Z → string → bool;
  IsSystemAppByFullTokenID : Z → bool;
  GetParameter : string → string → string;
}.

Definition PERMISSION_ACCESS_DLP : string := "ohos.permission.ACCESS_DLP_FILE".
Definition PERMISSION_GET_RUNNING_INFO : string := "ohos.permission.GET_RUNNING_INFO".
Definition PERMISSION_INTERACT_ACROSS_LOCAL_ACCOUNTS : string :=
  "ohos.permission.INTERACT_ACROSS_LOCAL_ACCOUNTS".
Definition PERMISSION_MANAGE_MISSION : string := "ohos.permission.MANAGE_MISSIONS".
Definition PERMISSION_RUNNING_STATE_OBSERVER : string := "ohos.permission.RUNNING_STATE_OBSERVER".
Definition PERMISSION_SET_ABILITY_CONTROLLER : string := "ohos.permission.SET_ABILITY_CONTROLLER".
Definition PERMISSION_UPDATE_CONFIGURATION : string := "ohos.permission.UPDATE_CONFIGURATION".
Definition PERMISSION_UPDATE_APP_CONFIGURATION : string :=
  "ohos.permission.UPDATE_APP_CONFIGURATION".
Definition PERMISSION_INSTALL_BUNDLE : string := "ohos.permission.INSTALL_BUNDLE".
Definition PERMISSION_GET_BUNDLE_INFO_PRIVILEGED : string :=
  "ohos.permission.GET_BUNDLE_INFO_PRIVILEGED".
Definition PERMISSION_START_INVISIBLE_ABILITY : string := "ohos.permission.START_INVISIBLE_ABILITY".
Definition PERMISSION_START_ABILITIES_FROM_BACKGROUND : string :=
  "ohos.permission.START_ABILITIES_FROM_BACKGROUND".
Definition PERMISSION_START_ABILIIES_FROM_BACKGROUND : string :=
  "ohos.permission.START_ABILIIES_FROM_BACKGROUND".
Definition PERMISSION_ABILITY_BACKGROUND_COMMUNICATION : string :=
  "ohos.permission.ABILITY_BACKGROUND_COMMUNICATION".
Definition PERMISSION_PROXY_AUTHORIZATION_URI : string := "ohos.permission.PROXY_AUTHORIZATION_URI".
Definition PERMISSION_FILE_ACCESS_MANAGER : string := "ohos.permission.FILE_ACCESS_MANAGER".
Definition PERMISSION_WRITE_IMAGEVIDEO : string := "ohos.permission.WRITE_IMAGEVIDEO".
Definition PERMISSION_READ_IMAGEVIDEO : string := "ohos.permission.READ_IMAGEVIDEO".
Definition PERMISSION_WRITE_AUDIO : string := "ohos.permission.WRITE_AUDIO".
Definition PERMISSION_READ_AUDIO : string := "ohos.permission.READ_AUDIO".
Definition PERMISSION_GRANT_URI_PERMISSION_PRIVILEGED : string :=
  "ohos.permission.GRANT_URI_PERMISSION_PRIVILEGED".
Definition PERMISSION_PREPARE_TERMINATE : string := "ohos.permission.PREPARE_APP_TERMINATE".
Definition PERMISSION_START_RECENT_ABILITY : string := "ohos.permission.START_RECENT_ABILITY".
Definition PERMISSION_PRELOAD_APPLICATION : string := "ohos.permission.PRELOAD_APPLICATION".
Definition PERMISSION_PRE_START_ATOMIC_SERVICE : string :=
  "ohos.permission.PRE_START_ATOMIC_SERVICE".
Definition PERMISSION_KILL_PROCESS_DEPENDED_ON_WEB : string :=
  "ohos.permission.KILL_PROCESS_DEPENDED_ON_ARKWEB".

Definition FOUNDATION_PROCESS_NAME : string := "foundation".
Definition OBSERVER_NATIVE_CALLER : list string := ["memmgrservice"; "resource_schedule_service"].
Definition SUPPORT_SYSTEM_ABILITY_PERMISSION : string := "abilitymanagerservice.support.sa.call".
Definition DLP_INDEX : string := "ohos.dlp.params.index".
Definition DLP_PARAMS_SECURITY_FLAG : string := "ohos.dlp.params.securityFlag".
Definition SHELL_START_EXTENSION_FLOOR : Z := 0.
Definition SHELL_START_EXTENSION_CEIL : Z := 21.
Definition API8 : Z := 8.

Definition ERR_OK : Z := 0.
Definition CHECK_PERMISSION_FAILED : Z := 2097177.
Definition ABILITY_VISIBLE_FALSE_DENY_REQUEST : Z := 2097179.

(** [PermissionVerification::VerificationInfo] *)
Record VerificationInfo := mkVerificationInfo {
  visible : bool;
  isBackgroundCall : bool;
  associatedWakeUp : bool;
  accessTokenId : Z;
  apiTargetVersion : Z;
  withContinuousTask : bool;
  specifyTokenId : Z;
}.

(** ** The checks *)

Section Verification.
Variable env : CallEnv.
(** The error code of the base library, and the parts of [Want] in use. *)
Variable ERR_PERMISSION_DENIED : Z.
Context {Want : Type} (GetIntParam : Want → string → Z → Z) (RemoveParam : Want → string → Want).
Implicit Types (info : VerificationInfo) (permissionName : string).

(** The token travels as an [int] and is read back as a [uint32_t]. *)
Definition VerifyPermissionByTokenId (tokenId : Z) permissionName : bool :=
  VerifyAccessToken env (u32 tokenId) permissionName.

Definition VerifyCallingPermission permissionName (specifyTokenId : Z) : bool :=
  let callerToken := if (specifyTokenId =? 0)%Z then CallingTokenID env else specifyTokenId in
  VerifyAccessToken env callerToken permissionName.

Definition IsSACall : bool :=
  bool_decide (GetTokenTypeFlag env (CallingTokenID env) = TOKEN_NATIVE).

Definition IsShellCall : bool :=
  bool_decide (GetTokenTypeFlag env (CallingTokenID env) = TOKEN_SHELL).

Definition CheckSpecificSystemAbilityAccessPermission (processName : string) : bool :=
  if negb IsSACall then false
  else match GetNativeTokenInfo env (CallingTokenID env) with
       | None => false
       | Some name => bool_decide (name = processName)
       end.

Definition CheckObserverCallerPermission : bool :=
  if negb IsSACall then false
  else match GetNativeTokenInfo env (CallingTokenID env) with
       | None => false
       | Some name => bool_decide (name ∈ OBSERVER_NATIVE_CALLER)
       end.

Definition VerifyRunningInfoPerm : bool := VerifyCallingPermission PERMISSION_GET_RUNNING_INFO 0.
Definition VerifyControllerPerm : bool :=
  VerifyCallingPermission PERMISSION_SET_ABILITY_CONTROLLER 0.

Definition VerifyDlpPermission (want : Want) : bool * Want :=
  if (GetIntParam want DLP_INDEX 0 =? 0)%Z then (true, RemoveParam want DLP_PARAMS_SECURITY_FLAG)
  else (VerifyCallingPermission PERMISSION_ACCESS_DLP 0, want).

Definition VerifyAccountPermission : Z :=
  if VerifyCallingPermission PERMISSION_INTERACT_ACROSS_LOCAL_ACCOUNTS 0 then ERR_OK
  else CHECK_PERMISSION_FAILED.

Definition VerifyMissionPermission : bool := VerifyCallingPermission PERMISSION_MANAGE_MISSION 0.

Definition VerifyAppStateObserverPermission : Z :=
  if VerifyCallingPermission PERMISSION_RUNNING_STATE_OBSERVER 0 then ERR_OK
  else ERR_PERMISSION_DENIED.

Definition VerifyUpdateConfigurationPerm : Z :=
  if VerifyCallingPermission PERMISSION_UPDATE_CONFIGURATION 0 then ERR_OK
  else ERR_PERMISSION_DENIED.

Definition VerifyUpdateAPPConfigurationPerm : Z :=
  if VerifyCallingPermission PERMISSION_UPDATE_APP_CONFIGURATION 0 then ERR_OK
  else ERR_PERMISSION_DENIED.

Definition VerifyInstallBundlePermission : bool :=
  VerifyCallingPermission PERMISSION_INSTALL_BUNDLE 0.
Definition VerifyGetBundleInfoPrivilegedPermission : bool :=
  VerifyCallingPermission PERMISSION_GET_BUNDLE_INFO_PRIVILEGED 0.

Definition VerifyStartRecentAbilityPermission : bool :=
  if VerifyCallingPermission PERMISSION_START_RECENT_ABILITY 0 then true
  else VerifyMissionPermission.

Definition IsCallFromSameAccessToken (accessTokenId : Z) : bool :=
  (CallingTokenID env =? accessTokenId)%Z.

Definition JudgeStartInvisibleAbility (accessTokenId : Z) (visible : bool) (specifyTokenId : Z)
  : bool :=
  if visible then true
  else if ((0 <? specifyTokenId) && (accessTokenId =? specifyTokenId))%Z then true
  else if IsCallFromSameAccessToken accessTokenId then true
  else VerifyCallingPermission PERMISSION_START_INVISIBLE_ABILITY specifyTokenId.

Definition JudgeStartAbilityFromBackground (isBackgroundCall withContinuousTask : bool) : bool :=
  if negb isBackgroundCall then true
  else if withContinuousTask then true
  else VerifyCallingPermission PERMISSION_START_ABILITIES_FROM_BACKGROUND 0 ||
       VerifyCallingPermission PERMISSION_START_ABILIIES_FROM_BACKGROUND 0.

Definition JudgeAssociatedWakeUp (accessTokenId : Z) (associatedWakeUp : bool) : bool :=
  if IsCallFromSameAccessToken accessTokenId then true else associatedWakeUp.

Definition IsSupportSaCallPermission : bool :=
  bool_decide (GetParameter env SUPPORT_SYSTEM_ABILITY_PERMISSION "true" = "true").

Definition JudgeInvisibleAndBackground info (isCallByShortcut : bool) : Z :=
  if (specifyTokenId info =? 0)%Z && IsSupportSaCallPermission && IsSACall then ERR_OK
  else if negb isCallByShortcut &&
          negb (JudgeStartInvisibleAbility (accessTokenId info) (visible info) (specifyTokenId info))
  then ABILITY_VISIBLE_FALSE_DENY_REQUEST
  else if negb (JudgeStartAbilityFromBackground (isBackgroundCall info) (withContinuousTask info))
  then CHECK_PERMISSION_FAILED
  else ERR_OK.

Definition CheckCallDataAbilityPermission info (isShell : bool) : Z :=
  if ((API8 <? apiTargetVersion info)%Z || isShell) &&
     negb (JudgeStartAbilityFromBackground (isBackgroundCall info) (withContinuousTask info))
  then CHECK_PERMISSION_FAILED
  else if negb (JudgeStartInvisibleAbility (accessTokenId info) (visible info) 0)
  then ABILITY_VISIBLE_FALSE_DENY_REQUEST
  else if negb (JudgeAssociatedWakeUp (accessTokenId info) (associatedWakeUp info))
  then CHECK_PERMISSION_FAILED
  else ERR_OK.

Definition CheckCallServiceAbilityPermission info : Z :=
  if CheckSpecificSystemAbilityAccessPermission FOUNDATION_PROCESS_NAME then ERR_OK
  else if ((API8 <? apiTargetVersion info)%Z || IsShellCall) &&
     negb (JudgeStartAbilityFromBackground (isBackgroundCall info) (withContinuousTask info))
  then CHECK_PERMISSION_FAILED
  else if negb (JudgeStartInvisibleAbility (accessTokenId info) (visible info) 0)
  then ABILITY_VISIBLE_FALSE_DENY_REQUEST
  else if negb (JudgeAssociatedWakeUp (accessTokenId info) (associatedWakeUp info))
  then CHECK_PERMISSION_FAILED
  else ERR_OK.

Definition CheckCallAbilityPermission info (isCallByShortcut : bool) : Z :=
  JudgeInvisibleAndBackground info isCallByShortcut.

Definition CheckCallServiceExtensionPermission info : Z :=
  JudgeInvisibleAndBackground info false.

Definition CheckStartByCallPermission info : Z :=
  if IsCallFromSameAccessToken (accessTokenId info) then CHECK_PERMISSION_FAILED
  else if negb (VerifyCallingPermission PERMISSION_ABILITY_BACKGROUND_COMMUNICATION 0)
  then CHECK_PERMISSION_FAILED
  else if negb (JudgeStartInvisibleAbility (accessTokenId info) (visible info) 0)
  then ABILITY_VISIBLE_FALSE_DENY_REQUEST
  else if negb (JudgeStartAbilityFromBackground (isBackgroundCall info) (withContinuousTask info))
  then CHECK_PERMISSION_FAILED
  else ERR_OK.

Definition IsSystemAppCall : bool := IsSystemAppByFullTokenID env (CallingFullTokenID env).

Definition JudgeCallerIsAllowedToUseSystemAPI : bool :=
  if IsSACall || IsShellCall then true
  else IsSystemAppByFullTokenID env (CallingFullTokenID env).

Definition VerifyPrepareTerminatePermission : bool :=
  VerifyCallingPermission PERMISSION_PREPARE_TERMINATE 0.
Definition VerifyPrepareTerminatePermission_token (tokenId : Z) : bool :=
  VerifyAccessToken env (u32 tokenId) PERMISSION_PREPARE_TERMINATE.

Definition VerifyShellStartExtensionType (type : Z) : bool :=
  IsShellCall && (SHELL_START_EXTENSION_FLOOR <=? type)%Z && (type <=? SHELL_START_EXTENSION_CEIL)%Z.

Definition VerifyPreloadApplicationPermission : bool :=
  VerifyCallingPermission PERMISSION_PRELOAD_APPLICATION 0.
Definition VerifyPreStartAtomicServicePermission : bool :=
  VerifyCallingPermission PERMISSION_PRE_START_ATOMIC_SERVICE 0.

Definition VerifyKillProcessDependedOnWebPermission : bool :=
  IsSACall && VerifyCallingPermission PERMISSION_KILL_PROCESS_DEPENDED_ON_WEB 0.

End Verification.

(** ** More permissions never turn an allowed start into a refused one *)

(** [e'] differs from [e] only in that more permissions are granted. *)
Record more_permissions (e e' : CallEnv) : Prop := {
  mp_token : CallingTokenID e' = CallingTokenID e;
  mp_full : CallingFullTokenID e' = CallingFullTokenID e;
  mp_type : ∀ t, GetTokenTypeFlag e' t = GetTokenTypeFlag e t;
  mp_native : ∀ t, GetNativeTokenInfo e' t = GetNativeTokenInfo e t;
  mp_param : ∀ p d, GetParameter e' p d = GetParameter e p d;
  mp_verify : ∀ t p, VerifyAccessToken e t p = true → VerifyAccessToken e' t p = true;
}.

Section Monotone.
Context (e e' : CallEnv) (Hle : more_permissions e e').

Lemma VerifyCallingPermission_mono p t :
  VerifyCallingPermission e p t = true → VerifyCallingPermission e' p t = true.
Proof. unfold VerifyCallingPermission. rewrite (mp_token _ _ Hle). apply (mp_verify _ _ Hle). Qed.

Lemma JudgeStartInvisibleAbility_mono a v t :
  JudgeStartInvisibleAbility e a v t = true → JudgeStartInvisibleAbility e' a v t = true.
Proof.
  unfold JudgeStartInvisibleAbility, IsCallFromSameAccessToken. rewrite (mp_token _ _ Hle).
  repeat case_match; auto using VerifyCallingPermission_mono.
Qed.

Lemma JudgeStartAbilityFromBackground_mono b t :
  JudgeStartAbilityFromBackground e b t = true → JudgeStartAbilityFromBackground e' b t = true.
Proof.
  unfold JudgeStartAbilityFromBackground. repeat case_match; rewrite ?orb_true_iff; try done.
  intros [?|?]; eauto using VerifyCallingPermission_mono.
Qed.

Lemma caller_kind :
  IsSACall e' = IsSACall e ∧ IsShellCall e' = IsShellCall e ∧
  IsSupportSaCallPermission e' = IsSupportSaCallPermission e ∧
  (∀ a, IsCallFromSameAccessToken e' a = IsCallFromSameAccessToken e a) ∧
  (∀ a w, JudgeAssociatedWakeUp e' a w = JudgeAssociatedWakeUp e a w) ∧
  (∀ n, CheckSpecificSystemAbilityAccessPermission e' n =
        CheckSpecificSystemAbilityAccessPermission e n).
Proof.
  unfold IsShellCall, IsSupportSaCallPermission, CheckSpecificSystemAbilityAccessPermission,
    JudgeAssociatedWakeUp, IsSACall, IsCallFromSameAccessToken.
  rewrite (mp_token _ _ Hle), (mp_type _ _ Hle), (mp_native _ _ Hle), (mp_param _ _ Hle). done.
Qed.

(** Guards of the form [if negb b then err else k]. *)
Ltac mono_guards :=
  repeat match goal with
  | |- context [negb ?b] => destruct b eqn:?; cbn [negb andb orb]
  | |- context [if ?b then _ else _] => destruct b eqn:?; cbn [negb andb orb]
  end; try done;
  repeat match goal with
  | H : JudgeStartInvisibleAbility e _ _ _ = true |- _ =>
      apply JudgeStartInvisibleAbility_mono in H
  | H : JudgeStartAbilityFromBackground e _ _ = true |- _ =>
      apply JudgeStartAbilityFromBackground_mono in H
  | H : VerifyCallingPermission e _ _ = true |- _ => apply VerifyCallingPermission_mono in H
  end; rewrite ?andb_true_r, ?andb_false_r in *; congruence.

Lemma checks_monotone info (sc isShell : bool) :
  (CheckCallAbilityPermission e info sc = ERR_OK →
   CheckCallAbilityPermission e' info sc = ERR_OK) ∧
  (CheckCallServiceExtensionPermission e info = ERR_OK →
   CheckCallServiceExtensionPermission e' info = ERR_OK) ∧
  (CheckCallServiceAbilityPermission e info = ERR_OK →
   CheckCallServiceAbilityPermission e' info = ERR_OK) ∧
  (CheckCallDataAbilityPermission e info isShell = ERR_OK →
   CheckCallDataAbilityPermission e' info isShell = ERR_OK) ∧
  (CheckStartByCallPermission e info = ERR_OK → CheckStartByCallPermission e' info = ERR_OK).
Proof.
  destruct caller_kind as (Hsa & Hsh & Hsup & Hsame & Hw & Hsp).
  unfold CheckCallAbilityPermission, CheckCallServiceExtensionPermission,
    CheckCallServiceAbilityPermission, CheckCallDataAbilityPermission, CheckStartByCallPermission,
    JudgeInvisibleAndBackground.
  rewrite Hsa, Hsh, Hsup, Hsame, Hw, Hsp. split_and!; mono_guards.
Qed.
End Monotone.

(** ** Starts from the background *)

(** The caller holds neither spelling of the permission to start from the
    background, is in the background and has no continuous task. *)
Definition confined_to_foreground (env : CallEnv) (info : VerificationInfo) : Prop :=
  isBackgroundCall info = true ∧ withContinuousTask info = false ∧
  VerifyAccessToken env (CallingTokenID env) PERMISSION_START_ABILITIES_FROM_BACKGROUND = false ∧
  VerifyAccessToken env (CallingTokenID env) PERMISSION_START_ABILIIES_FROM_BACKGROUND = false.

Lemma confined_judged env info :
  confined_to_foreground env info →
  JudgeStartAbilityFromBackground env (isBackgroundCall info) (withContinuousTask info) = false.
Proof.
  intros (Hb & Ht & H1 & H2). unfold JudgeStartAbilityFromBackground, VerifyCallingPermission.
  rewrite Hb, Ht. cbn. by rewrite H1, H2.
Qed.

(** The grounds of [JudgeStartInvisibleAbility] without a specified token. *)
Definition may_see (env : CallEnv) (info : VerificationInfo) : Prop :=
  visible info = true ∨ CallingTokenID env = accessTokenId info ∨
  VerifyAccessToken env (CallingTokenID env) PERMISSION_START_INVISIBLE_ABILITY = true.

Lemma may_see_judged env info :
  JudgeStartInvisibleAbility env (accessTokenId info) (visible info) 0 = true ↔ may_see env info.
Proof.
  unfold JudgeStartInvisibleAbility, IsCallFromSameAccessToken, may_see, VerifyCallingPermission.
  cbn. destruct (visible info); [intuition|].
  destruct (Z.eqb_spec (CallingTokenID env) (accessTokenId info)); intuition congruence.
Qed.

(** The grounds of [JudgeAssociatedWakeUp]. *)
Definition may_wake (env : CallEnv) (info : VerificationInfo) : Prop :=
  CallingTokenID env = accessTokenId info ∨ associatedWakeUp info = true.

Lemma may_wake_judged env info :
  JudgeAssociatedWakeUp env (accessTokenId info) (associatedWakeUp info) = true ↔ may_wake env info.
Proof.
  unfold JudgeAssociatedWakeUp, IsCallFromSameAccessToken, may_wake.
  destruct (Z.eqb_spec (CallingTokenID env) (accessTokenId info)); intuition congruence.
Qed.

(** A chain of guards that refuse ends in [ERR_OK] when none applies. *)
Lemma refuse_iff (b : bool) (err k : Z) :
  err ≠ ERR_OK → (if b then err else k) = ERR_OK ↔ b = false ∧ k = ERR_OK.
Proof. intros He. destruct b; intuition congruence. Qed.

Lemma accept_iff (b : bool) (k : Z) :
  (if b then ERR_OK else k) = ERR_OK ↔ b = true ∨ k = ERR_OK.
Proof. destruct b; intuition congruence. Qed.

Lemma confined_extension env info sc :
  confined_to_foreground env info →
  JudgeInvisibleAndBackground env info sc = ERR_OK ↔
  specifyTokenId info = 0%Z ∧ IsSupportSaCallPermission env = true ∧ IsSACall env = true.
Proof.
  intros Hc%confined_judged. unfold JudgeInvisibleAndBackground.
  rewrite Hc, accept_iff, !refuse_iff, !andb_true_iff, Z.eqb_eq by done. naive_solver.
Qed.

(** The guards that follow for service and data abilities. *)
Lemma confined_ability env info (old : bool) :
  confined_to_foreground env info →
  (if ((API8 <? apiTargetVersion info)%Z || old) &&
      negb (JudgeStartAbilityFromBackground env (isBackgroundCall info) (withContinuousTask info))
   then CHECK_PERMISSION_FAILED
   else if negb (JudgeStartInvisibleAbility env (accessTokenId info) (visible info) 0)
   then ABILITY_VISIBLE_FALSE_DENY_REQUEST
   else if negb (JudgeAssociatedWakeUp env (accessTokenId info) (associatedWakeUp info))
   then CHECK_PERMISSION_FAILED else ERR_OK) = ERR_OK ↔
  (apiTargetVersion info ≤ API8)%Z ∧ old = false ∧ may_see env info ∧ may_wake env info.
Proof.
  intros Hc%confined_judged.
  rewrite Hc, <-may_see_judged, <-may_wake_judged, !refuse_iff, !negb_false_iff, andb_true_r,
    orb_false_iff, Z.ltb_ge by done. tauto.
Qed.

(** C24: A caller that is confined to the foreground can start an ability or a
    service extension only as a system service that speaks for itself, while such
    calls are supported; a service ability only as the foundation, or, for an
    application of an interface up to 8 that is not the shell, when it may see and
    wake the target; a data ability only for such an interface, when the argument says
    that the caller is not the shell and it may see and wake the target; and it can
    never start by call. *)
Theorem background_start_policy (env : CallEnv) (info : VerificationInfo) (sc isShell : bool) :
  confined_to_foreground env info →
  (CheckCallAbilityPermission env info sc = ERR_OK ↔
   specifyTokenId info = 0%Z ∧ IsSupportSaCallPermission env = true ∧ IsSACall env = true) ∧
  (CheckCallServiceExtensionPermission env info = ERR_OK ↔
   specifyTokenId info = 0%Z ∧ IsSupportSaCallPermission env = true ∧ IsSACall env = true) ∧
  (CheckCallServiceAbilityPermission env info = ERR_OK ↔
   CheckSpecificSystemAbilityAccessPermission env FOUNDATION_PROCESS_NAME = true ∨
   (apiTargetVersion info ≤ API8)%Z ∧ IsShellCall env = false ∧ may_see env info ∧
   may_wake env info) ∧
  (CheckCallDataAbilityPermission env info isShell = ERR_OK ↔
   (apiTargetVersion info ≤ API8)%Z ∧ isShell = false ∧ may_see env info ∧ may_wake env info) ∧
  CheckStartByCallPermission env info ≠ ERR_OK.
Proof.
  intros Hc. pose proof (confined_extension env info sc Hc).
  pose proof (confined_extension env info false Hc).
  unfold CheckCallAbilityPermission, CheckCallServiceExtensionPermission,
    CheckCallServiceAbilityPermission, CheckCallDataAbilityPermission, CheckStartByCallPermission.
  rewrite accept_iff, !confined_ability, !refuse_iff, (confined_judged env info Hc) by done.
  split_and!; try done. cbn. naive_solver.
Qed.

(** ** A concrete caller *)

Module Demo.

(** An application in the background without permissions. *)
Definition background_app : CallEnv := {|
  CallingTokenID := 20;
  CallingFullTokenID := 20;
  CallingPid := 200;
  GetTokenTypeFlag _ := TOKEN_HAP;
  GetNativeTokenInfo _ := None;
  GetHapTokenInfo _ := Some "com.example";
  VerifyAccessToken _ _ := false;
  IsSystemAppByFullTokenID _ := false;
  GetParameter _ d := d;
|}.

(** It starts a visible target of interface 9 of another application. *)
Definition visible_target : VerificationInfo :=
  mkVerificationInfo true true true 30 9 false 0.

Lemma background_start_policy_witness :
  CheckCallAbilityPermission background_app visible_target false ≠ ERR_OK ∧
  CheckCallServiceAbilityPermission background_app visible_target ≠ ERR_OK.
Proof.
  destruct (background_start_policy background_app visible_target false false) as (H1 & _ & H3 & _).
  - split; [reflexivity|]. split; [reflexivity|]. split; reflexivity.
  - split.
    + intros H. apply H1 in H as (_ & _ & H). discriminate.
    + intros H. apply H3 in H as [H|[H _]]; [discriminate|]. vm_compute in H. by apply H.
Defined.

End Demo.
