(* ===== verification/UriPerm.v ===== *)
(** * URI permissions

    [services/uripermmgr]: which application may read or write which URI, granted
    by a call of an application or of the ability manager
    ([uri_permission_manager_stub_impl.cpp], with [tokenid_permission.cpp] and
    [uri_permission_utils.cpp]).

    [uriMap_] is a finite map iterated in key order. The class [Uri], the bundle,
    account, storage and application managers and the access tokens are outside: a
    [UriEnv] holds their answers during one call, and what the calls tell them is
    recorded as [UriAct]s. *)

From stdpp Require Import prelude gmap strings list.
From Stdlib Require Import ZArith Lia.
From S2P Require Import Prelude Permission.

(** ** The outside *)

Class UriLib := {
  Uri : Type;
  Uri_of : string → Uri;
  ToString : Uri → string;
  GetScheme : Uri → string;
  GetAuthority : Uri → string;
  GetPath : Uri → string;
}.

(** What the bundle manager knows of a bundle and a user: access tokens, [None]
    when the query fails. *)
Record BundleMgr := mkBundleMgr {
  GetBundleInfo : string → Z → option Z;
  GetCloneBundleInfo : string → Z → Z → option Z;
  GetSandboxBundleInfo : string → Z → Z → option Z;
  GetApplicationInfo : string → Z → option Z;
}.

(** A remote object is a number; [uninit_mode] is what reading the uninitialized
    [mode] of a [PolicyInfo] gives: undefined by the language, some number on a
    machine. *)
Record UriEnv := mkUriEnv {
  caller : CallEnv;
  bundleMgr : option BundleMgr;
  QueryActiveOsAccountIds : option (list Z);
  appMgrService : option Z;
  storageService : option Z;
  JudgeSandboxByPid : Z → Z → Z * bool;
  CreateShareFile : Z → list string → Z → Z → list Z;
  storage_DeleteShareFile : Z → Z → list string → Z;
  GRANT_PERSIST_URI_PERMISSION : bool;
  uninit_mode : outcome Z;
}.

Record PolicyInfo := mkPolicyInfo { path : string; mode : Z }.

(** What a call tells the others, in order. The last two are the calls of
    [setPolicy] and [persistPermission], which ignore their arguments. *)
Inductive UriAct :=
| ACreateShareFile (uriVec : list string) (tokenId flag : Z)
| ADeleteShareFile (tokenId : Z) (uriVec : list string)
| AUnprivilegedEvent (callerBundle targetBundle : string)
| AGrantEvent (callerBundle targetBundle uri : string)
| ASetPolicy (tokenId : Z) (policy : list PolicyInfo) (policyFlag : Z)
| APersist (policy : list PolicyInfo).

Definition INNER_ERR : Z := 2097167.
Definition GET_BUNDLE_MANAGER_SERVICE_FAILED : Z := 2097165.
Definition GET_BUNDLE_INFO_FAILED : Z := 2097183.
Definition ERR_CODE_INVALID_URI_FLAG : Z := 2097212.
Definition ERR_CODE_INVALID_URI_TYPE : Z := 2097213.
Definition ERR_CODE_GRANT_URI_PERMISSION : Z := 2097216.
Definition EEXIST : Z := 17.
Definition MAX_APP_CLONE_INDEX : Z := 1000.
Definition DEFAULT_USER_ID : Z := 0.
Definition DEFAULT_ABILITY_ID : Z := -1.
Definition FLAG_READ_URI : Z := 1.
Definition FLAG_WRITE_URI : Z := 2.
Definition FLAG_READ_WRITE_URI : Z := Z.lor FLAG_READ_URI FLAG_WRITE_URI.
Definition FLAG_AUTH_PERSISTABLE_URI_PERMISSION : Z := 64.
Definition CLOUND_DOCS_URI_MARK : string := "?networkid=".
Definition READ_MODE : Z := Z.shiftl 1 0.
Definition WRITE_MODE : Z := Z.shiftl 1 1.
Definition IS_POLICY_ALLOWED_TO_BE_PRESISTED : Z := Z.shiftl 1 0.

(** A flag is set. *)
Definition has (flag bit : Z) : bool := negb (Z.land flag bit =? 0)%Z.

(** ** The records *)

Record GrantInfo := mkGrantInfo {
  flag : Z;
  fromTokenId : Z;
  targetTokenId : Z;
  autoRemove : bool;
  abilityIds : gset Z;
}.
#[global] Instance GrantInfo_eq_dec : EqDecision GrantInfo.
Proof. solve_decision. Defined.
#[global] Instance reconstruct_GrantInfo : Reconstruct GrantInfo := λ g,
  mkGrantInfo (flag g) (fromTokenId g) (targetTokenId g) (autoRemove g) (abilityIds g).

Definition AddAbilityId (abilityId : Z) (g : GrantInfo) : GrantInfo :=
  if (abilityId =? DEFAULT_ABILITY_ID)%Z then g
  else g <| abilityIds ::= λ S, {[abilityId]} ∪ S |>.

Definition RemoveAbilityId (abilityId : Z) (g : GrantInfo) : bool * GrantInfo :=
  (bool_decide (abilityId ∈ abilityIds g), g <| abilityIds ::= λ S, S ∖ {[abilityId]} |>).

Definition IsEmptyAbilityId (g : GrantInfo) : bool := bool_decide (abilityIds g = ∅).

(** The service, with the flag [AppUtils] loads once: whether it is loaded, and its
    value. *)
Record UriPermMgr := mkUriPermMgr {
  uriMap_ : gmap string (list GrantInfo);
  appMgr_ : option Z;
  storageManager_ : option Z;
  isGrantPersistUriPermission_ : bool * bool;
}.
#[global] Instance reconstruct_UriPermMgr : Reconstruct UriPermMgr := λ s,
  mkUriPermMgr (uriMap_ s) (appMgr_ s) (storageManager_ s) (isGrantPersistUriPermission_ s).

(** The permissions of a token, looked up when first asked for. *)
Record TokenIdPermission := mkTokenIdPermission {
  tokenId_ : Z;
  haveFileAccessManagerPermission_ : bool;
  haveReadImageVideoPermission_ : bool;
  haveWriteImageVideoPermission_ : bool;
  haveReadAudioPermission_ : bool;
  haveWriteAudioPermission_ : bool;
  haveProxyAuthorizationUriPermission_ : bool;
  initFileAccessManagerPermission_ : bool;
  initReadImageVideoPermission_ : bool;
  initWriteImageVideoPermission_ : bool;
  initReadAudioPermission_ : bool;
  initWriteAudioPermission_ : bool;
  initProxyAuthorizationUriPermission_ : bool;
}.
#[global] Instance reconstruct_TokenIdPermission : Reconstruct TokenIdPermission := λ p,
  mkTokenIdPermission (tokenId_ p) (haveFileAccessManagerPermission_ p)
    (haveReadImageVideoPermission_ p) (haveWriteImageVideoPermission_ p)
    (haveReadAudioPermission_ p) (haveWriteAudioPermission_ p)
    (haveProxyAuthorizationUriPermission_ p) (initFileAccessManagerPermission_ p)
    (initReadImageVideoPermission_ p) (initWriteImageVideoPermission_ p)
    (initReadAudioPermission_ p) (initWriteAudioPermission_ p)
    (initProxyAuthorizationUriPermission_ p).

Definition TokenIdPermission_new (tokenId : Z) : TokenIdPermission :=
  mkTokenIdPermission tokenId false false false false false false false false false false false
    false.

Section UriPerm.
Context {UL : UriLib}.
Variable env : UriEnv.
Implicit Types (s : UriPermMgr) (p : TokenIdPermission) (uriStr bundleName : string)
  (tokenId appIndex abilityId fl : Z).

(** ** [TokenIdPermission] *)

Definition verify_token p (permissionName : string) : bool :=
  VerifyPermissionByTokenId (caller env) (i32 (tokenId_ p)) permissionName.

Definition VerifyProxyAuthorizationUriPermission p : bool * TokenIdPermission :=
  let p := if initProxyAuthorizationUriPermission_ p then p
           else p <| initProxyAuthorizationUriPermission_ := true |>
                  <| haveProxyAuthorizationUriPermission_ :=
                       verify_token p PERMISSION_PROXY_AUTHORIZATION_URI |> in
  (haveProxyAuthorizationUriPermission_ p, p).

Definition VerifyFileAccessManagerPermission p : bool * TokenIdPermission :=
  let p := if initFileAccessManagerPermission_ p then p
           else p <| initFileAccessManagerPermission_ := true |>
                  <| haveFileAccessManagerPermission_ :=
                       verify_token p PERMISSION_FILE_ACCESS_MANAGER |> in
  (haveFileAccessManagerPermission_ p, p).

Definition VerifyReadImageVideoPermission p : bool * TokenIdPermission :=
  let p := if initReadImageVideoPermission_ p then p
           else p <| initReadImageVideoPermission_ := true |>
                  <| haveReadImageVideoPermission_ := verify_token p PERMISSION_READ_IMAGEVIDEO |> in
  (haveReadImageVideoPermission_ p, p).

Definition VerifyWriteImageVideoPermission p : bool * TokenIdPermission :=
  let p := if initWriteImageVideoPermission_ p then p
           else p <| initWriteImageVideoPermission_ := true |>
                  <| haveWriteImageVideoPermission_ := verify_token p PERMISSION_WRITE_IMAGEVIDEO |> in
  (haveWriteImageVideoPermission_ p, p).

Definition VerifyReadAudioPermission p : bool * TokenIdPermission :=
  let p := if initReadAudioPermission_ p then p
           else p <| initReadAudioPermission_ := true |>
                  <| haveReadAudioPermission_ := verify_token p PERMISSION_READ_AUDIO |> in
  (haveReadAudioPermission_ p, p).

Definition VerifyWriteAudioPermission p : bool * TokenIdPermission :=
  let p := if initWriteAudioPermission_ p then p
           else p <| initWriteAudioPermission_ := true |>
                  <| haveWriteAudioPermission_ := verify_token p PERMISSION_WRITE_AUDIO |> in
  (haveWriteAudioPermission_ p, p).

(** ** [UPMSUtils] *)

Definition GetCurrentAccountId : Z :=
  match QueryActiveOsAccountIds env with
  | None => DEFAULT_USER_ID
  | Some [] => DEFAULT_USER_ID
  | Some (i :: _) => i
  end.

Definition IsFoundationCall : bool :=
  let callerTokenId := CallingTokenID (caller env) in
  if bool_decide (GetTokenTypeFlag (caller env) callerTokenId ≠ TOKEN_NATIVE) then false
  else match GetNativeTokenInfo (caller env) callerTokenId with
       | None => false
       | Some processName => bool_decide (processName = FOUNDATION_PROCESS_NAME)
       end.

Definition IsSAOrSystemAppCall : bool := IsSystemAppCall (caller env) || IsSACall (caller env).

Definition GetBundleNameByTokenId tokenId : option string :=
  if bool_decide (GetTokenTypeFlag (caller env) tokenId = TOKEN_HAP)
  then GetHapTokenInfo (caller env) tokenId else None.

Definition CheckIsSystemAppByBundleName bundleName : bool :=
  match bundleMgr env with
  | None => false
  | Some bms =>
      match GetApplicationInfo bms bundleName GetCurrentAccountId with
      | None => false
      | Some accessTokenIdEx => IsSystemAppByFullTokenID (caller env) accessTokenIdEx
      end
  end.

Definition CheckIsSystemAppByTokenId tokenId : bool :=
  match GetBundleNameByTokenId tokenId with
  | Some bundleName => CheckIsSystemAppByBundleName bundleName
  | None => false
  end.

Definition UPMS_IsSystemAppCall tokenId : bool :=
  if IsFoundationCall then CheckIsSystemAppByTokenId tokenId else IsSystemAppCall (caller env).

(** The code, and the token that the code [ERR_OK] sets. *)
Definition GetTokenIdByBundleName bundleName appIndex : Z * Z :=
  match bundleMgr env with
  | None => (GET_BUNDLE_MANAGER_SERVICE_FAILED, 0%Z)
  | Some bms =>
      let userId := GetCurrentAccountId in
      let found :=
        if (appIndex =? 0)%Z then GetBundleInfo bms bundleName userId
        else if (appIndex <=? MAX_APP_CLONE_INDEX)%Z
        then GetCloneBundleInfo bms bundleName appIndex userId
        else GetSandboxBundleInfo bms bundleName appIndex userId in
      match found with
      | None => (GET_BUNDLE_INFO_FAILED, 0%Z)
      | Some token => (ERR_OK, token)
      end
  end.

Definition SendShareUnPrivilegeUriEvent (callerTokenId targetTokenId : Z) : list UriAct :=
  match GetBundleNameByTokenId callerTokenId, GetBundleNameByTokenId targetTokenId with
  | Some c, Some t => [AUnprivilegedEvent c t]
  | _, _ => []
  end.

Definition CheckAndCreateEventInfo (callerTokenId targetTokenId : Z) : option (string * string) :=
  match GetBundleNameByTokenId callerTokenId with
  | None => None
  | Some callerBundleName =>
      if negb (CheckIsSystemAppByBundleName callerBundleName) then None
      else match GetBundleNameByTokenId targetTokenId with
           | None => None
           | Some targetBundleName =>
               if CheckIsSystemAppByBundleName targetBundleName then None
               else Some (callerBundleName, targetBundleName)
           end
  end.

Definition granted_code (res : Z) : bool := (res =? 0)%Z || (res =? - EEXIST)%Z.

(** The loop over [resVec], which reads [uriVec] at the same index. *)
Fixpoint event_loop (c t : string) (uriVec : list string) (resVec : list Z) (i : nat)
  : outcome (list UriAct) :=
  match resVec with
  | [] => Ret []
  | res :: resVec =>
      if granted_code res then
        let* uri := deref (uriVec !! i) in
        let* acts := event_loop c t uriVec resVec (S i) in
        Ret (AGrantEvent c t uri :: acts)
      else event_loop c t uriVec resVec (S i)
  end.

Definition SendSystemAppGrantUriPermissionEvent (callerTokenId targetTokenId : Z)
    (uriVec : list string) (resVec : list Z) : outcome (list UriAct) :=
  match CheckAndCreateEventInfo callerTokenId targetTokenId with
  | None => Ret []
  | Some (c, t) => event_loop c t uriVec resVec 0
  end.

(** ** Verification *)

Fixpoint verify_loop (l : list GrantInfo) (newFlag tokenId : Z) : bool :=
  match l with
  | [] => false
  | it :: l =>
      if (targetTokenId it =? tokenId)%Z && has (Z.lor (flag it) FLAG_READ_URI) newFlag then true
      else verify_loop l newFlag tokenId
  end.

Definition IsDistributedSubDirUri (inputUri cachedUri : string) : bool :=
  let iPos := find inputUri CLOUND_DOCS_URI_MARK in
  let cPos := find cachedUri CLOUND_DOCS_URI_MARK in
  if (iPos =? npos)%Z || (cPos =? npos)%Z then false
  else
    let iTempUri := String.substring 0 (Z.to_nat iPos) inputUri in
    let cTempUri := String.substring 0 (Z.to_nat cPos) cachedUri in
    (find iTempUri (cTempUri +:+ "/") =? 0)%Z.

(** The walk of [VerifySubDirUriPermission] from the last entry of the map. *)
Fixpoint sub_dir_loop (entries : list (string * list GrantInfo)) uriStr (newFlag tokenId : Z)
  : bool :=
  match entries with
  | [] => false
  | (cachedUri, l) :: entries =>
      if negb (IsDistributedSubDirUri uriStr cachedUri)
      then sub_dir_loop entries uriStr newFlag tokenId
      else verify_loop l newFlag tokenId
  end.

Definition VerifySubDirUriPermission s uriStr (newFlag tokenId : Z) : bool :=
  if (find uriStr CLOUND_DOCS_URI_MARK =? npos)%Z then false
  else sub_dir_loop (reverse (map_iter (uriMap_ s))) uriStr newFlag tokenId.

Definition VerifyUriPermission s (uri : Uri) (fl tokenId : Z) : bool :=
  let uriStr := ToString uri in
  if negb IsSAOrSystemAppCall then false
  else if negb (has fl FLAG_READ_WRITE_URI) then false
  else
    let newFlag := if has fl FLAG_WRITE_URI then FLAG_WRITE_URI else FLAG_READ_URI in
    match uriMap_ s !! uriStr with
    | Some l => verify_loop l newFlag tokenId
    | None => VerifySubDirUriPermission s uriStr newFlag tokenId
    end.

(** ** What a token may pass on *)

Definition CheckProxyUriPermission s p (uri : Uri) fl : bool * TokenIdPermission :=
  let '(b, p) := VerifyProxyAuthorizationUriPermission p in
  (b && VerifyUriPermission s uri fl (tokenId_ p), p).

Definition AccessDocsUriPermission s p (uri : Uri) fl : bool * TokenIdPermission :=
  let '(b, p) := VerifyFileAccessManagerPermission p in
  if b then (true, p) else CheckProxyUriPermission s p uri fl.

Definition AccessMediaUriPermission s p (uri : Uri) fl : bool * TokenIdPermission :=
  let isWriteFlag := has fl FLAG_WRITE_URI in
  let path := GetPath uri in
  if String.prefix "/Photo/" path then
    let '(b, p) := VerifyWriteImageVideoPermission p in
    if b then (true, p)
    else
      let '(b, p) := if isWriteFlag then (false, p) else VerifyReadImageVideoPermission p in
      if b then (true, p) else CheckProxyUriPermission s p uri fl
  else if String.prefix "/Audio/" path then
    let '(b, p) := VerifyWriteAudioPermission p in
    if b then (true, p)
    else
      let '(b, p) := if isWriteFlag then (false, p) else VerifyReadAudioPermission p in
      if b then (true, p) else CheckProxyUriPermission s p uri fl
  else (false, p).

Definition CheckUriPermission s (uri : Uri) fl p : bool * TokenIdPermission :=
  let authority := GetAuthority uri in
  if String.eqb (GetScheme uri) "content" then (IsFoundationCall, p)
  else if String.eqb authority "docs" then AccessDocsUriPermission s p uri fl
  else if String.eqb authority "media" then AccessMediaUriPermission s p uri fl
  else
    let '(ret, authorityTokenId) := GetTokenIdByBundleName authority 0 in
    if negb (ret =? ERR_OK)%Z then (false, p)
    else if (tokenId_ p =? authorityTokenId)%Z then (true, p)
    else CheckProxyUriPermission s p uri fl.

Definition CheckUriTypeIsValid (uri : Uri) : bool :=
  String.eqb (GetScheme uri) "file" || String.eqb (GetScheme uri) "content".

(** The loop of [CheckUriAuthorization]; the answer of a URI of another type stays
    [false]. *)
Fixpoint authorization_loop s (uriVec : list string) fl p : list bool :=
  match uriVec with
  | [] => []
  | uriStr :: uriVec =>
      let uri := Uri_of uriStr in
      if negb (CheckUriTypeIsValid uri) then false :: authorization_loop s uriVec fl p
      else let '(b, p) := CheckUriPermission s uri fl p in
           b :: authorization_loop s uriVec fl p
  end.

Definition CheckUriAuthorization s (uriVec : list string) fl tokenId : list bool :=
  let result := replicate (length uriVec) false in
  if negb IsSAOrSystemAppCall then result
  else if negb (has fl FLAG_READ_WRITE_URI) then result
  else authorization_loop s uriVec fl (TokenIdPermission_new tokenId).

End UriPerm.

Section UriGrant.
Context {UL : UriLib}.
Variable env : UriEnv.
Implicit Types (s : UriPermMgr) (uriStr bundleName : string)
  (callerTokenId targetTokenId abilityId fl : Z).

(** [ConnectManager]: the proxy kept, or the one found. *)
Definition ConnectManager (mgr service : option Z) : option Z :=
  match mgr with
  | Some _ => mgr
  | None => service
  end.

Definition connect_storage s : UriPermMgr :=
  s <| storageManager_ := ConnectManager (storageManager_ s) (storageService env) |>.

Definition IsGrantPersistUriPermission s : bool * UriPermMgr :=
  let s := if (isGrantPersistUriPermission_ s).1 then s
           else s <| isGrantPersistUriPermission_ := (true, GRANT_PERSIST_URI_PERMISSION env) |> in
  ((isGrantPersistUriPermission_ s).2, s).

Definition CheckCalledBySandBox s : Z * UriPermMgr :=
  let s := s <| appMgr_ := ConnectManager (appMgr_ s) (appMgrService env) |> in
  match appMgr_ s with
  | None => (INNER_ERR, s)
  | Some mgr =>
      let '(ret, isSandbox) := JudgeSandboxByPid env mgr (CallingPid (caller env)) in
      if negb (ret =? ERR_OK)%Z then (INNER_ERR, s)
      else if isSandbox then (ERR_CODE_GRANT_URI_PERMISSION, s)
      else (ERR_OK, s)
  end.

(** ** Granting *)

(** The loop of [AddTempUriPermission] over the records of a URI: the record of the
    same grantor and target is updated, or the new one appended. *)
Fixpoint add_temp_loop (l : list GrantInfo) (info : GrantInfo) fl abilityId : list GrantInfo :=
  match l with
  | [] => [info]
  | item :: l =>
      if (fromTokenId item =? fromTokenId info)%Z && (UriPerm.targetTokenId item =? UriPerm.targetTokenId info)%Z
      then
        let autoRemove' := autoRemove info in
        let item := AddAbilityId abilityId item in
        let item :=
          if negb (has (flag item) FLAG_WRITE_URI) && has fl FLAG_WRITE_URI
          then item <| autoRemove := autoRemove' |> <| flag ::= λ f, Z.lor f FLAG_WRITE_URI |>
          else if has (flag item) FLAG_WRITE_URI && negb (has fl FLAG_WRITE_URI) then item
          else if negb autoRemove' then item <| autoRemove := autoRemove' |>
          else item in
        item :: l
      else item :: add_temp_loop l info fl abilityId
  end.

Definition AddTempUriPermission s uriStr fl callerTokenId targetTokenId abilityId : UriPermMgr :=
  let autoRemove := negb (abilityId =? DEFAULT_ABILITY_ID)%Z in
  let info := AddAbilityId abilityId (mkGrantInfo fl callerTokenId targetTokenId autoRemove ∅) in
  match uriMap_ s !! uriStr with
  | None => s <| uriMap_ ::= <[uriStr := [info]]> |>
  | Some infoList => s <| uriMap_ ::= <[uriStr := add_temp_loop infoList info fl abilityId]> |>
  end.

Definition GrantUriPermissionImpl s (uri : Uri) fl callerTokenId targetTokenId abilityId
  : outcome (Z * UriPermMgr * list UriAct) :=
  let s := connect_storage s in
  match storageManager_ s with
  | None => Ret (INNER_ERR, s, [])
  | Some mgr =>
      let uriStr := ToString uri in
      let resVec := CreateShareFile env mgr [uriStr] targetTokenId fl in
      let acts := [ACreateShareFile [uriStr] targetTokenId fl] in
      match resVec with
      | [] => Ret (INNER_ERR, s, acts)
      | res :: _ =>
          if negb (granted_code res) then Ret (INNER_ERR, s, acts)
          else
            let s := AddTempUriPermission s uriStr fl callerTokenId targetTokenId abilityId in
            let* events :=
              SendSystemAppGrantUriPermissionEvent env callerTokenId targetTokenId [uriStr] resVec in
            Ret (ERR_OK, s, acts ++ events)
      end
  end.

Definition GrantSingleUriPermission s (uri : Uri) fl callerTokenId targetTokenId abilityId
  : outcome (Z * UriPermMgr * list UriAct) :=
  if negb (CheckUriTypeIsValid uri) then Ret (ERR_CODE_INVALID_URI_TYPE, s, [])
  else
    let '(b, _) := CheckUriPermission env s uri fl (TokenIdPermission_new callerTokenId) in
    if negb b then
      Ret (CHECK_PERMISSION_FAILED, s, SendShareUnPrivilegeUriEvent env callerTokenId targetTokenId)
    else GrantUriPermissionImpl s uri fl callerTokenId targetTokenId abilityId.

(** The loop over the results, which come one per URI. *)
Fixpoint batch_loop s (uriVec : list string) (resVec : list Z) fl callerTokenId targetTokenId
    abilityId (successCount : nat) : UriPermMgr * nat :=
  match uriVec, resVec with
  | uriStr :: uriVec, ret :: resVec =>
      if negb (granted_code ret)
      then batch_loop s uriVec resVec fl callerTokenId targetTokenId abilityId successCount
      else
        let s := AddTempUriPermission s uriStr fl callerTokenId targetTokenId abilityId in
        batch_loop s uriVec resVec fl callerTokenId targetTokenId abilityId (S successCount)
  | _, _ => (s, successCount)
  end.

Definition GrantBatchUriPermissionImpl s (uriVec : list string) fl callerTokenId targetTokenId
    abilityId : outcome (Z * UriPermMgr * list UriAct) :=
  let s := connect_storage s in
  match storageManager_ s with
  | None => Ret (INNER_ERR, s, [])
  | Some mgr =>
      let resVec := CreateShareFile env mgr uriVec targetTokenId fl in
      let acts := [ACreateShareFile uriVec targetTokenId fl] in
      match resVec with
      | [] => Ret (INNER_ERR, s, acts)
      | res :: _ =>
          if negb (length resVec =? length uriVec)%nat then Ret (res, s, acts)
          else
            let '(s, successCount) :=
              batch_loop s uriVec resVec fl callerTokenId targetTokenId abilityId 0 in
            if (successCount =? 0)%nat then Ret (INNER_ERR, s, acts)
            else
              let* events :=
                SendSystemAppGrantUriPermissionEvent env callerTokenId targetTokenId uriVec resVec in
              Ret (ERR_OK, s, acts ++ events)
      end
  end.

(** The loop of [GrantBatchUriPermission]: the URIs that may be shared, and whether
    one was refused. *)
Fixpoint share_loop s (uriVec : list Uri) fl (p : TokenIdPermission) (uriStrVec : list string)
    (failed : bool) : list string * bool :=
  match uriVec with
  | [] => (uriStrVec, failed)
  | uri :: uriVec =>
      if negb (CheckUriTypeIsValid uri) then share_loop s uriVec fl p uriStrVec failed
      else
        let '(b, p) := CheckUriPermission env s uri fl p in
        if negb b then share_loop s uriVec fl p uriStrVec true
        else share_loop s uriVec fl p (uriStrVec ++ [ToString uri]) failed
  end.

Definition GrantBatchUriPermission s (uriVec : list Uri) fl callerTokenId targetTokenId abilityId
  : outcome (Z * UriPermMgr * list UriAct) :=
  let '(uriStrVec, checkUriPermissionFailedFlag) :=
    share_loop s uriVec fl (TokenIdPermission_new callerTokenId) [] false in
  let acts := if checkUriPermissionFailedFlag
              then SendShareUnPrivilegeUriEvent env callerTokenId targetTokenId else [] in
  match uriStrVec with
  | [] => Ret (INNER_ERR, s, acts)
  | _ =>
      let* (ret, s, acts') :=
        GrantBatchUriPermissionImpl s uriStrVec fl callerTokenId targetTokenId abilityId in
      Ret (ret, s, acts ++ acts')
  end.

Definition GrantUriPermissionInner s (uriVec : list Uri) fl (targetBundleName : string)
    (appIndex initiatorTokenId abilityId : Z) : outcome (Z * UriPermMgr * list UriAct) :=
  let fl := Z.land fl FLAG_READ_WRITE_URI in
  let '(ret, targetTokenId) := GetTokenIdByBundleName env targetBundleName appIndex in
  if negb (ret =? ERR_OK)%Z then Ret (ret, s, [])
  else
    let '(recordId, appTokenId) :=
      if IsFoundationCall env then (abilityId, initiatorTokenId)
      else ((-1)%Z, CallingTokenID (caller env)) in
    match uriVec with
    | [uri] => GrantSingleUriPermission s uri fl appTokenId targetTokenId recordId
    | _ => GrantBatchUriPermission s uriVec fl appTokenId targetTokenId recordId
    end.

(** [checkPersistPermission] of this file approves every policy. *)
Definition checkPersistPermission (policy : list PolicyInfo) : list bool :=
  (λ _, true) <$> policy.

Definition HandleUriPermission (tokenId : Z) fl (docsVec : list PolicyInfo) (isSystemAppCall : bool)
  : list UriAct :=
  let policyFlag := if has fl FLAG_AUTH_PERSISTABLE_URI_PERMISSION
                    then Z.lor 0 IS_POLICY_ALLOWED_TO_BE_PRESISTED else 0%Z in
  let result := checkPersistPermission docsVec in
  if negb (length docsVec =? length result)%nat then []
  else
    let policyVec := (filter (λ x : PolicyInfo * bool, x.2 = true) (zip docsVec result)).*1 in
    match policyVec with
    | [] => []
    | _ => ASetPolicy tokenId policyVec policyFlag ::
           (if has policyFlag IS_POLICY_ALLOWED_TO_BE_PRESISTED && isSystemAppCall
            then [APersist policyVec] else [])
    end.

(** The loop of [GrantUriPermissionFor2In1Inner] that separates the documents of
    this device. *)
Fixpoint split_2in1 (uriVec : list Uri) fl (docsVec : list PolicyInfo) (otherVec : list Uri)
  : outcome (list PolicyInfo * list Uri) :=
  match uriVec with
  | [] => Ret (docsVec, otherVec)
  | uri :: uriVec =>
      if negb (String.eqb (GetScheme uri) "file") then split_2in1 uriVec fl docsVec otherVec
      else
        let* m := uninit_mode env in
        let policyInfo := mkPolicyInfo (ToString uri)
          (Z.lor m (if has fl FLAG_WRITE_URI then WRITE_MODE else READ_MODE)) in
        if String.eqb (GetAuthority uri) "docs" &&
           (find (ToString uri) CLOUND_DOCS_URI_MARK =? npos)%Z
        then split_2in1 uriVec fl (docsVec ++ [policyInfo]) otherVec
        else split_2in1 uriVec fl docsVec (otherVec ++ [uri])
  end.

Definition GrantUriPermissionFor2In1Inner s (uriVec : list Uri) fl (targetBundleName : string)
    (appIndex : Z) (isSystemAppCall : bool) (initiatorTokenId abilityId : Z)
  : outcome (Z * UriPermMgr * list UriAct) :=
  let* (docsVec, otherVec) := split_2in1 uriVec fl [] [] in
  let rest s acts :=
    let '(ret, tokenId) := GetTokenIdByBundleName env targetBundleName appIndex in
    if negb (ret =? ERR_OK)%Z then Ret (ret, s, acts)
    else Ret (ERR_OK, s, acts ++ HandleUriPermission tokenId fl docsVec isSystemAppCall) in
  match otherVec with
  | [] => rest s []
  | _ =>
      let* (ret, s, acts) :=
        GrantUriPermissionInner s otherVec fl targetBundleName appIndex initiatorTokenId abilityId in
      match docsVec with
      | [] => Ret (ret, s, acts)
      | _ => rest s acts
      end
  end.

Definition GrantUriPermission_vec s (uriVec : list Uri) fl (targetBundleName : string)
    (appIndex initiatorTokenId abilityId : Z) : outcome (Z * UriPermMgr * list UriAct) :=
  if negb (IsSAOrSystemAppCall env) then Ret (CHECK_PERMISSION_FAILED, s, [])
  else
    let '(checkResult, s) := CheckCalledBySandBox s in
    if negb (checkResult =? ERR_OK)%Z then Ret (checkResult, s, [])
    else if negb (has fl FLAG_READ_WRITE_URI) then Ret (ERR_CODE_INVALID_URI_FLAG, s, [])
    else
      let '(persist, s) := IsGrantPersistUriPermission s in
      if persist
      then
        let isSystemAppCall := UPMS_IsSystemAppCall env initiatorTokenId in
        GrantUriPermissionFor2In1Inner s uriVec fl targetBundleName appIndex isSystemAppCall
          initiatorTokenId abilityId
      else GrantUriPermissionInner s uriVec fl targetBundleName appIndex initiatorTokenId abilityId.

Definition GrantUriPermission s (uri : Uri) fl (targetBundleName : string)
    (appIndex initiatorTokenId abilityId : Z) : outcome (Z * UriPermMgr * list UriAct) :=
  if negb (IsSAOrSystemAppCall env) then Ret (CHECK_PERMISSION_FAILED, s, [])
  else GrantUriPermission_vec s [uri] fl targetBundleName appIndex initiatorTokenId abilityId.

Definition GrantBatchUriPermissionPrivileged s (uriVec : list Uri) fl callerTokenId targetTokenId
  : outcome (Z * UriPermMgr * list UriAct) :=
  match ToString <$> filter (λ uri, CheckUriTypeIsValid uri = true) uriVec with
  | [] => Ret (ERR_CODE_INVALID_URI_TYPE, s, [])
  | uriStrVec =>
      GrantBatchUriPermissionImpl s uriStrVec fl callerTokenId targetTokenId DEFAULT_ABILITY_ID
  end.

(** The documents of this device, which [GrantBatchUriPermissionFor2In1Privileged]
    does not record. *)
Definition local_docs (uri : Uri) : bool :=
  String.eqb (GetAuthority uri) "docs" && (find (ToString uri) CLOUND_DOCS_URI_MARK =? npos)%Z.

Definition GrantBatchUriPermissionFor2In1Privileged s (uriVec : list Uri) fl callerTokenId
    targetTokenId : outcome (Z * UriPermMgr * list UriAct) :=
  let valid := filter (λ uri, CheckUriTypeIsValid uri = true) uriVec in
  let uriStrVec := ToString <$> filter (λ uri, local_docs uri = false) valid in
  let docsVec := (λ uri, mkPolicyInfo (ToString uri)
                    (if has fl FLAG_WRITE_URI then WRITE_MODE else READ_MODE)) <$>
                 filter (λ uri, local_docs uri = true) valid in
  let docs := HandleUriPermission targetTokenId fl docsVec (IsSystemAppCall (caller env)) in
  match uriStrVec, docsVec with
  | [], [] => Ret (ERR_CODE_INVALID_URI_TYPE, s, [])
  | [], _ => Ret (ERR_OK, s, docs)
  | _, _ =>
      let* (ret, s, acts) :=
        GrantBatchUriPermissionImpl s uriStrVec fl callerTokenId targetTokenId DEFAULT_ABILITY_ID in
      match docsVec with
      | [] => Ret (ret, s, acts)
      | _ => Ret (ERR_OK, s, acts ++ docs)
      end
  end.

Definition GrantUriPermissionPrivileged s (uriVec : list Uri) fl (targetBundleName : string)
    (appIndex : Z) : outcome (Z * UriPermMgr * list UriAct) :=
  let callerTokenId := CallingTokenID (caller env) in
  if negb (VerifyPermissionByTokenId (caller env) (i32 callerTokenId)
             PERMISSION_GRANT_URI_PERMISSION_PRIVILEGED)
  then Ret (CHECK_PERMISSION_FAILED, s, [])
  else if negb (has fl FLAG_READ_WRITE_URI) then Ret (ERR_CODE_INVALID_URI_FLAG, s, [])
  else
    let fl := Z.land fl FLAG_READ_WRITE_URI in
    let '(ret, targetTokenId) := GetTokenIdByBundleName env targetBundleName appIndex in
    if negb (ret =? ERR_OK)%Z then Ret (ret, s, [])
    else
      let '(persist, s) := IsGrantPersistUriPermission s in
      if persist then GrantBatchUriPermissionFor2In1Privileged s uriVec fl callerTokenId targetTokenId
      else GrantBatchUriPermissionPrivileged s uriVec fl callerTokenId targetTokenId.

(** ** Revoking *)

Definition DeleteShareFile s targetTokenId (uriVec : list string) : Z * UriPermMgr * list UriAct :=
  let s := connect_storage s in
  match storageManager_ s with
  | None => (INNER_ERR, s, [])
  | Some mgr =>
      (storage_DeleteShareFile env mgr targetTokenId uriVec, s,
       [ADeleteShareFile targetTokenId uriVec])
  end.

(** The inner loop of [RemoveUriRecord] over the records of a URI: the records left
    and whether one was erased. *)
Fixpoint remove_record_loop (l : list GrantInfo) (tokenId abilityId : Z) : list GrantInfo * bool :=
  match l with
  | [] => ([], false)
  | it :: l =>
      let continue it := let '(l, erased) := remove_record_loop l tokenId abilityId in (it :: l, erased) in
      if negb (UriPerm.targetTokenId it =? tokenId)%Z then continue it
      else
        let '(removed, it) := RemoveAbilityId abilityId it in
        if negb removed then continue it
        else if negb (autoRemove it) then continue it
        else if negb (IsEmptyAbilityId it) then (it :: l, false)
        else (l, true)
  end.

Fixpoint remove_map_loop (entries : list (string * list GrantInfo))
    (m : gmap string (list GrantInfo)) (uriList : list string) (tokenId abilityId : Z)
  : gmap string (list GrantInfo) * list string :=
  match entries with
  | [] => (m, uriList)
  | (uriStr, l) :: entries =>
      let '(l, erased) := remove_record_loop l tokenId abilityId in
      let uriList := if erased then uriList ++ [uriStr] else uriList in
      let m := match l with [] => delete uriStr m | _ => <[uriStr := l]> m end in
      remove_map_loop entries m uriList tokenId abilityId
  end.

Definition RemoveUriRecord s (uriList : list string) (tokenId abilityId : Z)
  : UriPermMgr * list string :=
  let '(m, uriList) :=
    remove_map_loop (map_iter (uriMap_ s)) (uriMap_ s) uriList tokenId abilityId in
  (s <| uriMap_ := m |>, uriList).

Definition RevokeUriPermission s (tokenId abilityId : Z) : UriPermMgr * list UriAct :=
  if negb (IsFoundationCall env) then (s, [])
  else
    let '(s, uriList) := RemoveUriRecord s [] tokenId abilityId in
    match uriList with
    | [] => (s, [])
    | _ => let '(_, s, acts) := DeleteShareFile s tokenId uriList in (s, acts)
    end.

(** [uriLists[token].emplace_back(uri)] *)
Definition note (token : Z) uriStr (uriLists : gmap Z (list string)) : gmap Z (list string) :=
  <[token := default [] (uriLists !! token) ++ [uriStr]]> uriLists.

(** The records of one URI that [RevokeAllUriPermissions] erases are noted. *)
Fixpoint revoke_loop (l : list GrantInfo) uriStr (tokenId : Z) (uriLists : gmap Z (list string))
  : list GrantInfo * gmap Z (list string) :=
  match l with
  | [] => ([], uriLists)
  | it :: l =>
      if (UriPerm.targetTokenId it =? tokenId)%Z || (fromTokenId it =? tokenId)%Z
      then revoke_loop l uriStr tokenId (note (UriPerm.targetTokenId it) uriStr uriLists)
      else let '(l, uriLists) := revoke_loop l uriStr tokenId uriLists in (it :: l, uriLists)
  end.

(** The URI belongs to the application of the token. *)
Definition owned_by uriStr (tokenId : Z) : bool :=
  let '(ret, authorityTokenId) := GetTokenIdByBundleName env (GetAuthority (Uri_of uriStr)) 0 in
  (ret =? ERR_OK)%Z && (authorityTokenId =? tokenId)%Z.

Fixpoint revoke_map_loop (entries : list (string * list GrantInfo))
    (m : gmap string (list GrantInfo)) (uriLists : gmap Z (list string)) (tokenId : Z)
  : gmap string (list GrantInfo) * gmap Z (list string) :=
  match entries with
  | [] => (m, uriLists)
  | (uriStr, l) :: entries =>
      if owned_by uriStr tokenId then
        let uriLists := foldl (λ u r, note (UriPerm.targetTokenId r) uriStr u) uriLists l in
        revoke_map_loop entries (delete uriStr m) uriLists tokenId
      else
        let '(l, uriLists) := revoke_loop l uriStr tokenId uriLists in
        let m := match l with [] => delete uriStr m | _ => <[uriStr := l]> m end in
        revoke_map_loop entries m uriLists tokenId
  end.

(** The deletions, token by token, up to the first that fails. *)
Fixpoint delete_loop s (uriLists : list (Z * list string)) : Z * UriPermMgr * list UriAct :=
  match uriLists with
  | [] => (ERR_OK, s, [])
  | (token, uriVec) :: uriLists =>
      let '(ret, s, acts) := DeleteShareFile s token uriVec in
      if negb (ret =? ERR_OK)%Z then (INNER_ERR, s, acts)
      else let '(ret, s, acts') := delete_loop s uriLists in (ret, s, acts ++ acts')
  end.

Definition RevokeAllUriPermissions s (tokenId : Z) : Z * UriPermMgr * list UriAct :=
  if negb (IsFoundationCall env) then (CHECK_PERMISSION_FAILED, s, [])
  else
    let '(m, uriLists) := revoke_map_loop (map_iter (uriMap_ s)) (uriMap_ s) ∅ tokenId in
    delete_loop (s <| uriMap_ := m |>) (map_iter uriLists).

Definition RevokeUriPermissionManually s (uri : Uri) bundleName (appIndex : Z)
  : Z * UriPermMgr * list UriAct :=
  if negb (IsSAOrSystemAppCall env) then (CHECK_PERMISSION_FAILED, s, [])
  else if negb (CheckUriTypeIsValid uri) then (ERR_CODE_INVALID_URI_TYPE, s, [])
  else
    let '(ret, targetTokenId) := GetTokenIdByBundleName env bundleName appIndex in
    if negb (ret =? ERR_OK)%Z then (INNER_ERR, s, [])
    else
      let uriStr := ToString uri in
      let '(_, authorityTokenId) := GetTokenIdByBundleName env (GetAuthority uri) 0 in
      let callerTokenId := CallingTokenID (caller env) in
      let isRevokeSelfUri :=
        (callerTokenId =? targetTokenId)%Z || (callerTokenId =? authorityTokenId)%Z in
      match uriMap_ s !! uriStr with
      | None => (ERR_OK, s, [])
      | Some l =>
          let matches it := (UriPerm.targetTokenId it =? targetTokenId)%Z &&
                            ((callerTokenId =? fromTokenId it)%Z || isRevokeSelfUri) in
          let uriList := match find_if matches l with Some _ => [uriStr] | None => [] end in
          let l := erase_first matches l in
          let m := match l with [] => delete uriStr (uriMap_ s) | _ => <[uriStr := l]> (uriMap_ s) end in
          DeleteShareFile (s <| uriMap_ := m |>) targetTokenId uriList
      end.

End UriGrant.
