(* ===== verification/UriTheorems.v ===== *)
(** * Theorems on URI permissions

    The records in force after any sequence of calls, who may create them, what the
    revocations leave, and how sub-directories are verified. *)

From stdpp Require Import prelude gmap strings list sorting.
From Stdlib Require Import ZArith Lia.
From S2P Require Import Prelude Permission UriPerm.

(** ** Flags *)

(** The flags of a record: reading, writing or both. *)
Definition rw_flag (f : Z) : Prop := (f = 1 ∨ f = 2 ∨ f = 3)%Z.

Lemma land_rw f : has f FLAG_READ_WRITE_URI = true → rw_flag (Z.land f FLAG_READ_WRITE_URI).
Proof.
  unfold has, rw_flag. rewrite negb_true_iff, Z.eqb_neq.
  assert (Z.land f FLAG_READ_WRITE_URI = f mod 4)%Z as ->
    by (change FLAG_READ_WRITE_URI with (Z.ones 2); apply Z.land_ones; lia).
  pose proof (Z.mod_pos_bound f 4). lia.
Qed.

Lemma has_land_write f : has (Z.land f FLAG_READ_WRITE_URI) FLAG_WRITE_URI = has f FLAG_WRITE_URI.
Proof. unfold has. by rewrite <-Z.land_assoc. Qed.

Lemma has_land_rw f : has (Z.land f FLAG_READ_WRITE_URI) FLAG_READ_WRITE_URI = has f FLAG_READ_WRITE_URI.
Proof. unfold has. by rewrite <-Z.land_assoc. Qed.

Lemma rw_flag_lor f : rw_flag f → rw_flag (Z.lor f FLAG_WRITE_URI).
Proof. unfold rw_flag. intros [->|[->| ->]]; auto. Qed.

(** A record serves a request: every record serves reading. *)
Lemma serves f w :
  has (Z.lor f FLAG_READ_URI) (if w : bool then FLAG_WRITE_URI else FLAG_READ_URI) =
  (if w then has f FLAG_WRITE_URI else true).
Proof.
  unfold has. rewrite Z.land_lor_distr_l. destruct w.
  - change (Z.land FLAG_READ_URI FLAG_WRITE_URI) with 0%Z. by rewrite Z.lor_0_r.
  - change (Z.land FLAG_READ_URI FLAG_READ_URI) with 1%Z.
    destruct (Z.eqb_spec (Z.lor (Z.land f FLAG_READ_URI) 1) 0) as [H|]; [|done].
    apply Z.lor_eq_0_iff in H as [_ H]. done.
Qed.

(** ** Rights *)

(** The records of [l] let [tokenId] read, and write when [w] is set. *)
Definition allows (l : list GrantInfo) (tokenId : Z) (w : bool) : Prop :=
  ∃ g, g ∈ l ∧ targetTokenId g = tokenId ∧ (w = true → has (flag g) FLAG_WRITE_URI = true).

(** The records of a URI do. *)
Definition right (m : gmap string (list GrantInfo)) (u : string) (tokenId : Z) (w : bool) : Prop :=
  ∃ l, m !! u = Some l ∧ allows l tokenId w.

Lemma verify_loop_allows l w tokenId :
  verify_loop l (if w : bool then FLAG_WRITE_URI else FLAG_READ_URI) tokenId = true ↔
  allows l tokenId w.
Proof.
  unfold allows. induction l as [|g l IH]; cbn [verify_loop].
  - split; [done|]. by intros (g & []%not_elem_of_nil & _).
  - rewrite serves. destruct (Z.eqb_spec (targetTokenId g) tokenId) as [Ht|Ht]; cbn [andb].
    + destruct w; [destruct (has (flag g) FLAG_WRITE_URI) eqn:Hw|]; [| |].
      * split; [|done]. intros _. exists g. split; [left|done].
      * rewrite IH. setoid_rewrite elem_of_cons. split; [naive_solver|].
        intros (x & [->|Hx] & Hx'); [destruct Hx' as [_ Hx']; by rewrite Hx' in Hw|eauto].
      * split; [|done]. intros _. exists g. split; [left|done].
    + rewrite IH. setoid_rewrite elem_of_cons. naive_solver.
Qed.

(** The part of a URI in front of the mark of a network identifier. *)
Definition dir (u : string) : string :=
  String.substring 0 (Z.to_nat (find u CLOUND_DOCS_URI_MARK)) u.

Lemma marked_split u :
  find u CLOUND_DOCS_URI_MARK ≠ npos → ∃ r, u = dir u +:+ CLOUND_DOCS_URI_MARK +:+ r.
Proof.
  unfold dir, find. destruct (String.index 0 CLOUND_DOCS_URI_MARK u) as [n|] eqn:Hi; [|done].
  intros _. rewrite Nat2Z.id. apply index_split in Hi as (r & Hr & _). eauto.
Qed.

Lemma sub_dir_split i k :
  IsDistributedSubDirUri i k = true →
  ∃ r x, k = dir k +:+ CLOUND_DOCS_URI_MARK +:+ r ∧ dir i = dir k +:+ "/" +:+ x.
Proof.
  unfold IsDistributedSubDirUri. fold (dir i) (dir k).
  destruct (Z.eqb_spec (find i CLOUND_DOCS_URI_MARK) npos) as [|_]; [done|].
  destruct (Z.eqb_spec (find k CLOUND_DOCS_URI_MARK) npos) as [|Hk]; [done|]. cbn [orb].
  rewrite Z.eqb_eq. unfold find at 1.
  destruct (String.index 0 (dir k +:+ "/") (dir i)) as [n|] eqn:Hi; [|done].
  intros Hn. assert (n = 0%nat) as -> by lia. apply index_zero, prefix_split in Hi as [x Hx].
  destruct (marked_split k Hk) as [r Hr]. exists r, x. by rewrite Hx, string_app_assoc.
Qed.

(** Of two directories above a URI the outer one comes later in the map: the mark
    starts with a character greater than the slash. *)
Lemma outer_directory_greater i k k' :
  IsDistributedSubDirUri i k = true → IsDistributedSubDirUri i k' = true →
  (String.length (dir k) < String.length (dir k'))%nat → String.ltb k' k = true.
Proof.
  intros (r & x & Hk & Hx)%sub_dir_split (r' & x' & Hk' & Hx')%sub_dir_split Hl.
  rewrite Hx in Hx'. destruct (string_app_longer _ _ _ _ _ Hx' Hl) as [z Hz].
  unfold String.ltb. rewrite Hk', Hk, Hz, string_app_assoc, string_compare_app. done.
Qed.

Lemma sub_dir_loop_find es u newFlag tokenId :
  sub_dir_loop es u newFlag tokenId =
    match find_if (λ e, IsDistributedSubDirUri u e.1) es with
    | Some e => verify_loop e.2 newFlag tokenId
    | None => false
    end.
Proof.
  induction es as [|[k l] es IH]; [done|]. cbn [sub_dir_loop find_if fst].
  by destruct (IsDistributedSubDirUri u k).
Qed.

(** The last entry of a sorted list that passes a test. *)
Lemma find_if_reverse_greatest {A : Type} (R : A → A → Prop) (p : A → bool) l x :
  StronglySorted R l → find_if p (reverse l) = Some x →
  ∀ y, y ∈ l → p y = true → y = x ∨ R y x.
Proof.
  intros Hs (l1 & l2 & Hl & _ & Hf)%find_if_Some y Hy Hp.
  apply (f_equal reverse) in Hl.
  rewrite reverse_involutive, reverse_app, reverse_cons in Hl. subst l.
  rewrite <-app_assoc in Hs, Hy. cbn in Hs, Hy.
  apply elem_of_app in Hy as [Hy|[->|Hy]%elem_of_cons]; [right|by left|].
  - apply StronglySorted_app_1_elem_of with (x1 := y) (x2 := x) in Hs; [done|done|left].
  - rewrite elem_of_reverse in Hy. rewrite Forall_forall in Hf. by rewrite (Hf y Hy) in Hp.
Qed.

(** A URI of another device that has no records of its own is verified against one
    URI above it: the greatest in the order of the map, which of several directories
    is the outermost. Records for the directories below that one are not consulted. *)
Theorem VerifySubDirUriPermission_outermost (s : UriPermMgr) (u : string)
    (w : bool) (tokenId : Z) :
  (VerifySubDirUriPermission s u (if w then FLAG_WRITE_URI else FLAG_READ_URI) tokenId = true ↔
   ∃ k l, uriMap_ s !! k = Some l ∧ IsDistributedSubDirUri u k = true ∧ allows l tokenId w ∧
     ∀ k', is_Some (uriMap_ s !! k') → IsDistributedSubDirUri u k' = true →
       String.leb k' k = true ∧ (String.length (dir k) ≤ String.length (dir k'))%nat).
Proof.
  assert (∀ k k', IsDistributedSubDirUri u k = true → IsDistributedSubDirUri u k' = true →
    String.leb k' k = true → (String.length (dir k) ≤ String.length (dir k'))%nat) as Hout.
  { intros k k' Hk Hk' Hle. destruct (le_lt_dec (String.length (dir k)) (String.length (dir k'))); [done|].
    pose proof (outer_directory_greater u k' k Hk' Hk l) as Hlt.
    by rewrite string_ltb_leb, Hle in Hlt. }
  unfold VerifySubDirUriPermission. destruct (Z.eqb_spec (find u CLOUND_DOCS_URI_MARK) npos) as [Hu|Hu].
  { split; [done|]. intros (k & l & _ & Hk & _). unfold IsDistributedSubDirUri in Hk.
    by rewrite Hu in Hk. }
  rewrite sub_dir_loop_find.
  destruct (find_if _ _) as [[k l]|] eqn:Hf; cbn [snd].
  - pose proof (find_if_reverse_greatest entry_le _ _ _ (map_iter_string_sorted _) Hf) as Hmax.
    apply find_if_elem in Hf as [Hin Hk]. cbn in Hk.
    rewrite elem_of_reverse, elem_of_map_iter in Hin. rewrite verify_loop_allows. split.
    + intros Ha. exists k, l. split_and!; try done. intros k' [l' Hl'] Hk'.
      assert (String.leb k' k = true) as Hle.
      { destruct (Hmax (k', l')) as [[= -> _]|H]; try done; [by apply elem_of_map_iter|].
        apply string_leb_refl. }
      split; [done|]. by apply Hout.
    + intros (k2 & l2 & Hl2 & Hk2 & Ha & Hg).
      destruct (Hmax (k2, l2)) as [[= <- <-]|H]; try done; [by apply elem_of_map_iter|].
      unfold entry_le in H. cbn in H. destruct (Hg k) as [Hle _]; [by eexists|done|].
      assert (k2 = k) as -> by (by apply String.leb_antisym). congruence.
  - split; [done|]. intros (k & l & Hl & Hk & _). rewrite find_if_None in Hf.
    specialize (Hf (k, l)). rewrite elem_of_reverse, elem_of_map_iter in Hf.
    specialize (Hf Hl). cbn in Hf. congruence.
Qed.

(** ** The records of a URI *)

Definition grant_key (g : GrantInfo) : Z * Z := (fromTokenId g, targetTokenId g).

(** A record is for reading or writing, and a record that goes with its abilities
    has one. *)
Record info_ok (g : GrantInfo) : Prop := {
  ok_flag : rw_flag (flag g);
  ok_owner : autoRemove g = true → abilityIds g ≠ ∅;
  ok_ability : DEFAULT_ABILITY_ID ∉ abilityIds g;
}.

Record list_ok (l : list GrantInfo) : Prop := {
  ok_nonempty : l ≠ [];
  ok_distinct : NoDup (grant_key <$> l);
  ok_infos : Forall info_ok l;
}.

Definition map_ok (m : gmap string (list GrantInfo)) : Prop := map_Forall (λ _, list_ok) m.

(** The record a grant creates. *)
Definition new_info (fl from target ab : Z) : GrantInfo :=
  AddAbilityId ab (mkGrantInfo fl from target (negb (ab =? DEFAULT_ABILITY_ID)%Z) ∅).

Lemma new_info_fields fl from target ab :
  flag (new_info fl from target ab) = fl ∧ grant_key (new_info fl from target ab) = (from, target) ∧
  autoRemove (new_info fl from target ab) = negb (ab =? DEFAULT_ABILITY_ID)%Z.
Proof. unfold new_info, AddAbilityId. by destruct (ab =? DEFAULT_ABILITY_ID)%Z. Qed.

Lemma AddAbilityId_ok ab g :
  DEFAULT_ABILITY_ID ∉ abilityIds g →
  (DEFAULT_ABILITY_ID ∉ abilityIds (AddAbilityId ab g)) ∧
  (ab ≠ DEFAULT_ABILITY_ID → abilityIds (AddAbilityId ab g) ≠ ∅) ∧
  abilityIds g ⊆ abilityIds (AddAbilityId ab g).
Proof.
  unfold AddAbilityId. intros Hg. destruct (Z.eqb_spec ab DEFAULT_ABILITY_ID); [done|]. cbn.
  set_solver.
Qed.

Lemma AddAbilityId_fields ab g :
  flag (AddAbilityId ab g) = flag g ∧ grant_key (AddAbilityId ab g) = grant_key g ∧
  autoRemove (AddAbilityId ab g) = autoRemove g.
Proof. unfold AddAbilityId. by destruct (ab =? DEFAULT_ABILITY_ID)%Z. Qed.

Lemma new_info_ok fl from target ab : rw_flag fl → info_ok (new_info fl from target ab).
Proof.
  intros Hf. destruct (new_info_fields fl from target ab) as (H1 & _ & H3).
  edestruct (AddAbilityId_ok ab (mkGrantInfo fl from target (negb (ab =? DEFAULT_ABILITY_ID)%Z) ∅))
    as (Hd & Hn & _); [cbn; set_solver|].
  split; [by rewrite H1| |done]. rewrite H3, negb_true_iff, Z.eqb_neq. done.
Qed.

(** One record after a grant of the same grantor to the same target. *)
Definition merge (item : GrantInfo) (fl ab : Z) : GrantInfo :=
  let auto := negb (ab =? DEFAULT_ABILITY_ID)%Z in
  let item := AddAbilityId ab item in
  if negb (has (flag item) FLAG_WRITE_URI) && has fl FLAG_WRITE_URI
  then item <| autoRemove := auto |> <| flag ::= λ f, Z.lor f FLAG_WRITE_URI |>
  else if has (flag item) FLAG_WRITE_URI && negb (has fl FLAG_WRITE_URI) then item
  else if negb auto then item <| autoRemove := auto |> else item.

Lemma merge_key item fl ab : grant_key (merge item fl ab) = grant_key item.
Proof.
  pose proof (AddAbilityId_fields ab item) as (_ & Hk & _). unfold merge. rewrite <-Hk.
  repeat case_match; done.
Qed.

Lemma merge_ok item fl ab : info_ok item → info_ok (merge item fl ab).
Proof.
  intros [Hf Ho Hd]. destruct (AddAbilityId_ok ab item Hd) as (Hd' & Hn & Hs).
  pose proof (AddAbilityId_fields ab item) as (Hf' & _ & Ha').
  assert (autoRemove (AddAbilityId ab item) = true → abilityIds (AddAbilityId ab item) ≠ ∅) as Ho'.
  { rewrite Ha'. intros H%Ho. set_solver. }
  assert (rw_flag (flag (AddAbilityId ab item))) as Hfl by (by rewrite Hf').
  unfold merge. destruct (Z.eqb_spec ab DEFAULT_ABILITY_ID); repeat case_match;
    split; cbn; auto using rw_flag_lor.
Qed.

(** A grant adds the right to write only when it is for writing. *)
Lemma has_write_lor f : has (Z.lor f FLAG_WRITE_URI) FLAG_WRITE_URI = true.
Proof.
  unfold has. rewrite Z.land_lor_distr_l, negb_true_iff, Z.eqb_neq.
  intros [_ H]%Z.lor_eq_0_iff. done.
Qed.

Lemma merge_write item fl ab :
  has (flag (merge item fl ab)) FLAG_WRITE_URI =
    has (flag item) FLAG_WRITE_URI || has fl FLAG_WRITE_URI.
Proof.
  pose proof (AddAbilityId_fields ab item) as (Hf & _ & _). unfold merge. rewrite Hf.
  destruct (has (flag item) FLAG_WRITE_URI) eqn:H1, (has fl FLAG_WRITE_URI) eqn:H2; cbn [negb andb orb];
    repeat case_match; cbn; rewrite ?has_write_lor, ?Hf; done.
Qed.

(** The update of the records of a URI by a grant. *)
Definition add_info (l : list GrantInfo) (fl from target ab : Z) : list GrantInfo :=
  add_temp_loop l (new_info fl from target ab) fl ab.

Lemma add_temp_loop_cons g l fl from target ab :
  add_info (g :: l) fl from target ab =
    if decide (grant_key g = (from, target)) then merge g fl ab :: l
    else g :: add_info l fl from target ab.
Proof.
  unfold add_info. cbn [add_temp_loop].
  destruct (new_info_fields fl from target ab) as (_ & Hk & Ha). injection Hk as Hf Ht.
  rewrite Ha, Hf, Ht. unfold grant_key.
  destruct (Z.eqb_spec (fromTokenId g) from), (Z.eqb_spec (targetTokenId g) target);
    case_decide; try congruence; done.
Qed.

Lemma add_info_keys l fl from target ab :
  grant_key <$> add_info l fl from target ab =
    (grant_key <$> l) ++ if decide ((from, target) ∈ grant_key <$> l) then [] else [(from, target)].
Proof.
  induction l as [|g l IH].
  - cbn. destruct (new_info_fields fl from target ab) as (_ & Hk & _). by rewrite Hk.
  - rewrite add_temp_loop_cons. destruct (decide (grant_key g = (from, target))) as [Hg|Hg];
      rewrite !fmap_cons; cbn [app].
    + rewrite merge_key, decide_True by (rewrite Hg; left). by rewrite app_nil_r.
    + rewrite IH. f_equal. f_equal.
      destruct (decide ((from, target) ∈ grant_key <$> l));
        [rewrite decide_True by (by right)|rewrite decide_False by (rewrite elem_of_cons; naive_solver)];
        done.
Qed.

Lemma add_info_ok l fl from target ab :
  rw_flag fl → NoDup (grant_key <$> l) → Forall info_ok l → list_ok (add_info l fl from target ab).
Proof.
  intros Hf Hnd Hok. split.
  - destruct l as [|g l]; [done|]. rewrite add_temp_loop_cons. by case_decide.
  - rewrite add_info_keys. case_decide; [by rewrite app_nil_r|].
    apply NoDup_app. split_and!; [done| |apply NoDup_singleton]. set_solver.
  - clear Hnd. induction Hok as [|g l Hg Hl IH].
    + constructor; [by apply new_info_ok|constructor].
    + rewrite add_temp_loop_cons. case_decide; constructor; auto using merge_ok.
Qed.

Lemma add_info_allows l fl from target ab tokenId w :
  allows (add_info l fl from target ab) tokenId w →
  allows l tokenId w ∨ tokenId = target ∧ (w = true → has fl FLAG_WRITE_URI = true).
Proof.
  unfold allows. induction l as [|g l IH].
  - intros (x & ->%list_elem_of_singleton & Ht & Hw). right.
    destruct (new_info_fields fl from target ab) as (Hf & Hk & _). injection Hk as _ Hk.
    by rewrite <-Hf, <-Ht.
  - rewrite add_temp_loop_cons. case_decide as Hg; setoid_rewrite elem_of_cons; intros (x & [->|Hx] & Ht & Hw).
    + pose proof (merge_key g fl ab) as [= _ Hk2]. rewrite Hk2 in Ht. rewrite merge_write in Hw.
      injection Hg as _ Hg. destruct w; [|naive_solver].
      specialize (Hw eq_refl). apply orb_true_iff in Hw as [Hw|Hw]; [left; exists g; naive_solver|].
      right. split; [congruence|done].
    + left. exists x. naive_solver.
    + left. exists g. naive_solver.
    + destruct IH as [(y & Hy & Hy')|]; [by exists x| |by right]. left. exists y. naive_solver.
Qed.

(** ** What a token may pass on, without the memo *)

Section Share.
Context {UL : UriLib}.
Variable env : UriEnv.
Implicit Types (s : UriPermMgr) (p : TokenIdPermission) (uri : Uri) (tokenId fl : Z).

Definition granted tokenId (permissionName : string) : bool :=
  VerifyPermissionByTokenId (caller env) (i32 tokenId) permissionName.

Definition proxied s uri fl tokenId : bool :=
  granted tokenId PERMISSION_PROXY_AUTHORIZATION_URI && VerifyUriPermission env s uri fl tokenId.

Definition may_share s uri fl tokenId : bool :=
  if String.eqb (GetScheme uri) "content" then IsFoundationCall env
  else if String.eqb (GetAuthority uri) "docs"
  then granted tokenId PERMISSION_FILE_ACCESS_MANAGER || proxied s uri fl tokenId
  else if String.eqb (GetAuthority uri) "media" then
    if String.prefix "/Photo/" (GetPath uri)
    then granted tokenId PERMISSION_WRITE_IMAGEVIDEO ||
         (negb (has fl FLAG_WRITE_URI) && granted tokenId PERMISSION_READ_IMAGEVIDEO) ||
         proxied s uri fl tokenId
    else if String.prefix "/Audio/" (GetPath uri)
    then granted tokenId PERMISSION_WRITE_AUDIO ||
         (negb (has fl FLAG_WRITE_URI) && granted tokenId PERMISSION_READ_AUDIO) ||
         proxied s uri fl tokenId
    else false
  else
    let '(ret, owner) := GetTokenIdByBundleName env (GetAuthority uri) 0 in
    (ret =? ERR_OK)%Z && ((tokenId =? owner)%Z || proxied s uri fl tokenId).

(** What the memo holds is what a lookup gives. *)
Record memo_ok tokenId p : Prop := {
  memo_token : tokenId_ p = tokenId;
  memo_file : initFileAccessManagerPermission_ p = true →
    haveFileAccessManagerPermission_ p = granted tokenId PERMISSION_FILE_ACCESS_MANAGER;
  memo_rimage : initReadImageVideoPermission_ p = true →
    haveReadImageVideoPermission_ p = granted tokenId PERMISSION_READ_IMAGEVIDEO;
  memo_wimage : initWriteImageVideoPermission_ p = true →
    haveWriteImageVideoPermission_ p = granted tokenId PERMISSION_WRITE_IMAGEVIDEO;
  memo_raudio : initReadAudioPermission_ p = true →
    haveReadAudioPermission_ p = granted tokenId PERMISSION_READ_AUDIO;
  memo_waudio : initWriteAudioPermission_ p = true →
    haveWriteAudioPermission_ p = granted tokenId PERMISSION_WRITE_AUDIO;
  memo_proxy : initProxyAuthorizationUriPermission_ p = true →
    haveProxyAuthorizationUriPermission_ p = granted tokenId PERMISSION_PROXY_AUTHORIZATION_URI;
}.

Lemma memo_new tokenId : memo_ok tokenId (TokenIdPermission_new tokenId).
Proof. by split. Qed.

(** A lookup through the memo gives [b] and leaves a memo that is right. *)
Definition looks_up tokenId (b : bool) (r : bool * TokenIdPermission) : Prop :=
  r.1 = b ∧ memo_ok tokenId r.2.

Ltac look_up :=
  intros [Ht ? ? ? ? ? ?]; unfold looks_up, granted, verify_token in *; cbn;
  repeat case_match; (split; [auto|split]); cbn; auto; by rewrite ?Ht.

Lemma look_up_file tokenId p : memo_ok tokenId p →
  looks_up tokenId (granted tokenId PERMISSION_FILE_ACCESS_MANAGER) (VerifyFileAccessManagerPermission env p).
Proof. unfold VerifyFileAccessManagerPermission. look_up. Qed.

Lemma look_up_rimage tokenId p : memo_ok tokenId p →
  looks_up tokenId (granted tokenId PERMISSION_READ_IMAGEVIDEO) (VerifyReadImageVideoPermission env p).
Proof. unfold VerifyReadImageVideoPermission. look_up. Qed.

Lemma look_up_wimage tokenId p : memo_ok tokenId p →
  looks_up tokenId (granted tokenId PERMISSION_WRITE_IMAGEVIDEO) (VerifyWriteImageVideoPermission env p).
Proof. unfold VerifyWriteImageVideoPermission. look_up. Qed.

Lemma look_up_raudio tokenId p : memo_ok tokenId p →
  looks_up tokenId (granted tokenId PERMISSION_READ_AUDIO) (VerifyReadAudioPermission env p).
Proof. unfold VerifyReadAudioPermission. look_up. Qed.

Lemma look_up_waudio tokenId p : memo_ok tokenId p →
  looks_up tokenId (granted tokenId PERMISSION_WRITE_AUDIO) (VerifyWriteAudioPermission env p).
Proof. unfold VerifyWriteAudioPermission. look_up. Qed.

Lemma look_up_proxy s uri fl tokenId p : memo_ok tokenId p →
  looks_up tokenId (proxied s uri fl tokenId) (CheckProxyUriPermission env s p uri fl).
Proof.
  intros Hp. unfold CheckProxyUriPermission, proxied, VerifyProxyAuthorizationUriPermission.
  assert (looks_up tokenId (granted tokenId PERMISSION_PROXY_AUTHORIZATION_URI)
    (VerifyProxyAuthorizationUriPermission env p)) as [Hb Hp'].
  { revert Hp. unfold VerifyProxyAuthorizationUriPermission. look_up. }
  unfold VerifyProxyAuthorizationUriPermission in Hb, Hp'. cbn in Hb, Hp'.
  unfold looks_up. cbn. rewrite Hb, (memo_token _ _ Hp'). done.
Qed.

(** A lookup whose failure leads to another. *)
Lemma looks_up_or tokenId b c r k :
  looks_up tokenId b r → (∀ p, memo_ok tokenId p → looks_up tokenId c (k p)) →
  looks_up tokenId (b || c) (let '(x, p) := r in if x then (true, p) else k p).
Proof. destruct r as [x p]. intros [<- Hp] Hk. cbn in *. destruct x; [done|]. by apply Hk. Qed.

Lemma CheckUriPermission_memo s uri fl tokenId p :
  memo_ok tokenId p → looks_up tokenId (may_share s uri fl tokenId) (CheckUriPermission env s uri fl p).
Proof.
  intros Hp. unfold CheckUriPermission, may_share.
  destruct (String.eqb (GetScheme uri) "content"); [done|].
  destruct (String.eqb (GetAuthority uri) "docs").
  { apply looks_up_or; eauto using look_up_file, look_up_proxy. }
  destruct (String.eqb (GetAuthority uri) "media").
  { unfold AccessMediaUriPermission.
    destruct (String.prefix "/Photo/" (GetPath uri)); [|destruct (String.prefix "/Audio/" (GetPath uri)); [|done]].
    - rewrite <-orb_assoc. apply looks_up_or; [by apply look_up_wimage|]. intros p1 Hp1.
      apply looks_up_or; [|eauto using look_up_proxy].
      destruct (has fl FLAG_WRITE_URI); [done|]. by apply look_up_rimage.
    - rewrite <-orb_assoc. apply looks_up_or; [by apply look_up_waudio|]. intros p1 Hp1.
      apply looks_up_or; [|eauto using look_up_proxy].
      destruct (has fl FLAG_WRITE_URI); [done|]. by apply look_up_raudio. }
  destruct (GetTokenIdByBundleName env (GetAuthority uri) 0) as [ret owner].
  rewrite (memo_token _ _ Hp). destruct (ret =? ERR_OK)%Z; [|done]. cbn [negb andb].
  destruct (tokenId =? owner)%Z; [done|]. by apply look_up_proxy.
Qed.

(** The check of a list of URIs answers each as if it were asked alone. *)
Theorem CheckUriAuthorization_each s (uriVec : list string) fl tokenId :
  CheckUriAuthorization env s uriVec fl tokenId =
    (λ u, IsSAOrSystemAppCall env && has fl FLAG_READ_WRITE_URI && CheckUriTypeIsValid (Uri_of u) &&
          may_share s (Uri_of u) fl tokenId) <$> uriVec.
Proof.
  unfold CheckUriAuthorization.
  assert (∀ l : list string, replicate (length l) false = (λ _, false) <$> l) as Hf.
  { induction l as [|x l IH]; [done|]. cbn. by rewrite IH. }
  destruct (IsSAOrSystemAppCall env), (has fl FLAG_READ_WRITE_URI); cbn [negb andb]; try apply Hf.
  generalize (memo_new tokenId). generalize (TokenIdPermission_new tokenId).
  induction uriVec as [|u l IH]; intros p Hp; [done|]. cbn [authorization_loop].
  destruct (CheckUriTypeIsValid (Uri_of u)) eqn:Hv; cbn [negb].
  - pose proof (CheckUriPermission_memo s (Uri_of u) fl tokenId p Hp) as [Hb Hp'].
    destruct (CheckUriPermission env s (Uri_of u) fl p) as [b p'].
    rewrite IH by done. rewrite fmap_cons, Hv. cbn in Hb |- *. by subst.
  - rewrite fmap_cons, Hv, IH by done. done.
Qed.

(** The answers depend on the records alone. *)
Lemma may_share_map s s' uri fl tokenId :
  uriMap_ s' = uriMap_ s → may_share s' uri fl tokenId = may_share s uri fl tokenId.
Proof.
  intros H. unfold may_share, proxied, VerifyUriPermission, VerifySubDirUriPermission. by rewrite H.
Qed.
End Share.

(** ** Grants as additions to the map *)

Definition add_temp (fl from target ab : Z) (m : gmap string (list GrantInfo)) (u : string) :=
  <[u := add_info (default [] (m !! u)) fl from target ab]> m.

Definition add_all (fl from target ab : Z) (m : gmap string (list GrantInfo)) (us : list string) :=
  foldl (add_temp fl from target ab) m us.

(** [m'] is [m] with records for some URIs that satisfy [P]. *)
Definition adds (m m' : gmap string (list GrantInfo)) (P : string → Prop) (fl from target : Z) : Prop :=
  ∃ us ab, Forall P us ∧ m' = add_all fl from target ab m us.

Lemma adds_refl m P fl from target : adds m m P fl from target.
Proof. by exists [], 0%Z. Qed.

Lemma adds_impl m m' (P Q : string → Prop) fl from target :
  adds m m' P fl from target → (∀ u, P u → Q u) → adds m m' Q fl from target.
Proof. intros (us & ab & Hus & ->) H. exists us, ab. split; [|done]. by eapply Forall_impl. Qed.

Lemma add_all_ok fl from target ab m us :
  rw_flag fl → map_ok m → map_ok (add_all fl from target ab m us).
Proof.
  intros Hf. revert m. induction us as [|u us IH]; intros m Hm; [done|]. cbn. apply IH.
  apply map_Forall_insert_2; [|done]. destruct (m !! u) as [l|] eqn:E; cbn [default].
  - destruct (Hm u l E). by apply add_info_ok.
  - apply add_info_ok; [done|constructor|constructor].
Qed.

Lemma add_all_right fl from target ab m us u tokenId w :
  right (add_all fl from target ab m us) u tokenId w →
  right m u tokenId w ∨
  u ∈ us ∧ tokenId = target ∧ (w = true → has fl FLAG_WRITE_URI = true).
Proof.
  revert m. induction us as [|v us IH]; intros m; [by left|]. cbn.
  intros [(l & Hl & Ha)|(? & ?)]%IH; [|right; split; [by right|done]].
  unfold add_temp in Hl. destruct (decide (v = u)) as [->|Hne].
  - rewrite lookup_insert_eq in Hl. apply (inj Some) in Hl as <-.
    apply add_info_allows in Ha as [Ha|Ha]; [|right; split; [left|done]].
    left. destruct (m !! u) as [l|] eqn:E; [by exists l|].
    destruct Ha as (? & []%not_elem_of_nil & _).
  - rewrite lookup_insert_ne in Hl by done. left. by exists l.
Qed.

Lemma AddTempUriPermission_map s u fl from target ab :
  uriMap_ (AddTempUriPermission s u fl from target ab) = add_temp fl from target ab (uriMap_ s) u.
Proof. unfold AddTempUriPermission, add_temp, add_info, new_info. by destruct (uriMap_ s !! u). Qed.

Lemma batch_loop_map s us rs fl from target ab n :
  ∃ us', us' ⊆ us ∧
    uriMap_ (batch_loop s us rs fl from target ab n).1 = add_all fl from target ab (uriMap_ s) us'.
Proof.
  revert s rs n. induction us as [|u us IH]; intros s rs n.
  { exists []. by destruct rs. }
  destruct rs as [|r rs]; [exists []; split; [set_solver|done]|]. cbn [batch_loop]. destruct (negb (granted_code r)).
  - destruct (IH s rs n) as (us' & Hs & ->). exists us'. split; [set_solver|done].
  - destruct (IH (AddTempUriPermission s u fl from target ab) rs (S n)) as (us' & Hs & ->).
    exists (u :: us'). rewrite AddTempUriPermission_map. split; [set_solver|done].
Qed.

Section Grant.
Context {UL : UriLib}.
Variable env : UriEnv.
Implicit Types (s : UriPermMgr) (uri : Uri) (uriVec : list Uri).

Lemma GrantUriPermissionImpl_adds s uri fl from target ab r s' acts :
  GrantUriPermissionImpl env s uri fl from target ab = Ret (r, s', acts) →
  adds (uriMap_ s) (uriMap_ s') (.= ToString uri) fl from target.
Proof.
  unfold GrantUriPermissionImpl. intros H. repeat case_match; simplify_eq/=; try apply adds_refl.
  destruct (SendSystemAppGrantUriPermissionEvent _ _ _ _ _); simplify_eq/=.
  exists [ToString uri], ab. split; [by repeat constructor|].
  by rewrite AddTempUriPermission_map.
Qed.

Lemma GrantBatchUriPermissionImpl_adds s us fl from target ab r s' acts :
  GrantBatchUriPermissionImpl env s us fl from target ab = Ret (r, s', acts) →
  adds (uriMap_ s) (uriMap_ s') (.∈ us) fl from target.
Proof.
  unfold GrantBatchUriPermissionImpl. intros H.
  destruct (storageManager_ _) as [mgr|]; [|simplify_eq/=; apply adds_refl].
  destruct (CreateShareFile _ _ _ _ _) as [|res rs]; [simplify_eq/=; apply adds_refl|].
  destruct (negb _); [simplify_eq/=; apply adds_refl|].
  edestruct (batch_loop_map (connect_storage env s) us (res :: rs) fl from target ab 0)
    as (us' & Hsub & Hm).
  destruct (batch_loop _ _ _ _ _ _ _ _) as [s1 n]. cbn in Hm.
  assert (adds (uriMap_ s) (uriMap_ s1) (.∈ us) fl from target) as Ha.
  { exists us', ab. split; [|by rewrite Hm]. apply Forall_forall. set_solver. }
  destruct (n =? 0)%nat; [by simplify_eq/=|].
  destruct (SendSystemAppGrantUriPermissionEvent _ _ _ _ _); by simplify_eq/=.
Qed.

(** A URI among [uriVec] that the token may pass on. *)
Definition shareable s uriVec fl tokenId (u : string) : Prop :=
  ∃ uri, uri ∈ uriVec ∧ ToString uri = u ∧ CheckUriTypeIsValid uri = true ∧
    may_share env s uri fl tokenId = true.

Lemma shareable_map s s' uriVec fl tokenId u :
  uriMap_ s' = uriMap_ s → shareable s' uriVec fl tokenId u → shareable s uriVec fl tokenId u.
Proof.
  intros Hm (uri & H1 & H2 & H3 & H4). rewrite (may_share_map env s) in H4 by done.
  by exists uri.
Qed.

Lemma share_loop_shareable s uriVec fl tokenId p us failed us' failed' :
  memo_ok env tokenId p → share_loop env s uriVec fl p us failed = (us', failed') →
  ∀ u, u ∈ us' → u ∈ us ∨ shareable s uriVec fl tokenId u.
Proof.
  revert p us failed. induction uriVec as [|uri l IH]; intros p us failed Hp.
  { intros [= -> ->]. by left. }
  assert (∀ u, shareable s l fl tokenId u → shareable s (uri :: l) fl tokenId u) as Hl.
  { intros u (x & Hx & ?). exists x. split; [by right|done]. }
  cbn [share_loop]. destruct (CheckUriTypeIsValid uri) eqn:Hv; cbn [negb].
  - pose proof (CheckUriPermission_memo env s uri fl tokenId p Hp) as [Hb Hp'].
    destruct (CheckUriPermission env s uri fl p) as [b p']. cbn in Hb, Hp'. subst b.
    destruct (may_share env s uri fl tokenId) eqn:Hs; cbn [negb]; intros H u Hu;
      (destruct (IH _ _ _ Hp' H u Hu) as [Hin|]; [|by right; apply Hl]); [|by left].
    apply elem_of_app in Hin as [Hin| ->%list_elem_of_singleton]; [by left|].
    right. exists uri. split_and!; try done. left.
  - intros H u Hu. destruct (IH _ _ _ Hp H u Hu) as [|]; [by left|right; by apply Hl].
Qed.

Lemma GrantSingleUriPermission_adds s uri fl from target ab r s' acts :
  GrantSingleUriPermission env s uri fl from target ab = Ret (r, s', acts) →
  adds (uriMap_ s) (uriMap_ s') (shareable s [uri] fl from) fl from target.
Proof.
  unfold GrantSingleUriPermission. destruct (CheckUriTypeIsValid uri) eqn:Hv; cbn [negb].
  2: { intros [= <- <- <-]. apply adds_refl. }
  pose proof (CheckUriPermission_memo env s uri fl from _ (memo_new env from)) as [Hb _].
  destruct (CheckUriPermission env s uri fl (TokenIdPermission_new from)) as [b p]. cbn in Hb. subst b.
  destruct (may_share env s uri fl from) eqn:Hs; cbn [negb].
  - intros H%GrantUriPermissionImpl_adds. eapply adds_impl; [exact H|]. intros u ->.
    exists uri. split_and!; try done. left.
  - intros [= <- <- <-]. apply adds_refl.
Qed.

Lemma GrantBatchUriPermission_adds s uriVec fl from target ab r s' acts :
  GrantBatchUriPermission env s uriVec fl from target ab = Ret (r, s', acts) →
  adds (uriMap_ s) (uriMap_ s') (shareable s uriVec fl from) fl from target.
Proof.
  unfold GrantBatchUriPermission.
  destruct (share_loop _ _ _ _ _ _ _) as [us failed] eqn:Hl.
  pose proof (share_loop_shareable s uriVec fl from _ _ _ _ _ (memo_new env from) Hl) as Hs.
  destruct us as [|u us]; [intros [= <- <- <-]; apply adds_refl|].
  destruct (GrantBatchUriPermissionImpl _ _ _ _ _ _ _) as [[[r1 s1] a1]|] eqn:Hi; [|done].
  cbn [obind]. intros [= <- <- <-]. apply GrantBatchUriPermissionImpl_adds in Hi.
  eapply adds_impl; [exact Hi|]. intros v Hv. destruct (Hs v Hv) as [[]%not_elem_of_nil|]; done.
Qed.

(** Who grants: the initiator a call of the foundation names, or the caller. *)
Definition grantor (initiatorTokenId : Z) : Z :=
  if IsFoundationCall env then initiatorTokenId else CallingTokenID (caller env).

Lemma GrantUriPermissionInner_adds s uriVec fl bundle idx init ab r s' acts :
  GrantUriPermissionInner env s uriVec fl bundle idx init ab = Ret (r, s', acts) →
  let fl := Z.land fl FLAG_READ_WRITE_URI in
  ∃ target, adds (uriMap_ s) (uriMap_ s')
    (λ u, GetTokenIdByBundleName env bundle idx = (ERR_OK, target) ∧
          shareable s uriVec fl (grantor init) u) fl (grantor init) target.
Proof.
  unfold GrantUriPermissionInner, grantor. cbv zeta.
  destruct (GetTokenIdByBundleName env bundle idx) as [ret target]. exists target.
  destruct (Z.eqb_spec ret ERR_OK) as [->|]; cbn [negb].
  2: { simplify_eq/=. apply adds_refl. }
  revert H. destruct (IsFoundationCall env), uriVec as [|u1 [|u2 l]];
    first [intros H%GrantSingleUriPermission_adds|intros H%GrantBatchUriPermission_adds];
    (eapply adds_impl; [exact H|by intros u Hu]).
Qed.
End Grant.

(** ** The calls of the service *)

Section Calls.
Context {UL : UriLib}.
Implicit Types (env : UriEnv) (s : UriPermMgr) (uri : Uri) (uriVec : list Uri).

Inductive UriCall :=
| CallGrant uri (fl : Z) (bundle : string) (idx init ab : Z)
| CallGrantVec uriVec (fl : Z) (bundle : string) (idx init ab : Z)
| CallPrivileged uriVec (fl : Z) (bundle : string) (idx : Z)
| CallRevoke (tokenId ab : Z)
| CallRevokeAll (tokenId : Z)
| CallRevokeManually uri (bundle : string) (idx : Z).

Definition run_uri_call env s (c : UriCall) : outcome UriPermMgr :=
  match c with
  | CallGrant uri fl bundle idx init ab =>
      let* (_, s, _) := GrantUriPermission env s uri fl bundle idx init ab in Ret s
  | CallGrantVec uriVec fl bundle idx init ab =>
      let* (_, s, _) := GrantUriPermission_vec env s uriVec fl bundle idx init ab in Ret s
  | CallPrivileged uriVec fl bundle idx =>
      let* (_, s, _) := GrantUriPermissionPrivileged env s uriVec fl bundle idx in Ret s
  | CallRevoke tokenId ab => Ret (RevokeUriPermission env s tokenId ab).1
  | CallRevokeAll tokenId => Ret (RevokeAllUriPermissions env s tokenId).1.2
  | CallRevokeManually uri bundle idx => Ret (RevokeUriPermissionManually env s uri bundle idx).1.2
  end.

(** Each call is made in an environment of its own. *)
Fixpoint run_uri_calls s (cs : list (UriEnv * UriCall)) : outcome UriPermMgr :=
  match cs with
  | [] => Ret s
  | (env, c) :: cs => let* s := run_uri_call env s c in run_uri_calls s cs
  end.

(** ** Who may grant *)

(** The grounds on which a token passes a URI on. *)
Inductive MayShare env s uri (fl tokenId : Z) : Prop :=
| share_content : GetScheme uri = "content" → IsFoundationCall env = true → MayShare env s uri fl tokenId
| share_owner : GetTokenIdByBundleName env (GetAuthority uri) 0 = (ERR_OK, tokenId) →
    MayShare env s uri fl tokenId
| share_docs : GetAuthority uri = "docs" → granted env tokenId PERMISSION_FILE_ACCESS_MANAGER = true →
    MayShare env s uri fl tokenId
| share_media (kind read write : string) : GetAuthority uri = "media" →
    (kind, read, write) ∈ [("/Photo/", PERMISSION_READ_IMAGEVIDEO, PERMISSION_WRITE_IMAGEVIDEO);
                           ("/Audio/", PERMISSION_READ_AUDIO, PERMISSION_WRITE_AUDIO)] →
    String.prefix kind (GetPath uri) = true →
    granted env tokenId write = true ∨
      has fl FLAG_WRITE_URI = false ∧ granted env tokenId read = true →
    MayShare env s uri fl tokenId
| share_proxy : granted env tokenId PERMISSION_PROXY_AUTHORIZATION_URI = true →
    VerifyUriPermission env s uri fl tokenId = true → MayShare env s uri fl tokenId.

Lemma proxied_MayShare env s uri fl tokenId :
  proxied env s uri fl tokenId = true → MayShare env s uri fl tokenId.
Proof. intros [? ?]%andb_true_iff. by apply share_proxy. Qed.

Lemma may_share_MayShare env s uri fl tokenId :
  may_share env s uri fl tokenId = true → MayShare env s uri fl tokenId.
Proof.
  unfold may_share. destruct (String.eqb_spec (GetScheme uri) "content"); [by apply share_content|].
  destruct (String.eqb_spec (GetAuthority uri) "docs").
  { intros [|?%proxied_MayShare]%orb_true_iff; [by apply share_docs|done]. }
  destruct (String.eqb_spec (GetAuthority uri) "media").
  { destruct (String.prefix "/Photo/" (GetPath uri)) eqn:Hp;
      [|destruct (String.prefix "/Audio/" (GetPath uri)) eqn:Ha; [|done]];
      intros [Hr|?%proxied_MayShare]%orb_true_iff; try done;
      [eapply (share_media _ _ _ _ _ "/Photo/")|eapply (share_media _ _ _ _ _ "/Audio/")];
      try done; try (by repeat constructor);
      apply orb_true_iff in Hr as [|[?%negb_true_iff ?]%andb_true_iff]; auto. }
  destruct (GetTokenIdByBundleName env (GetAuthority uri) 0) as [ret owner] eqn:Ho.
  rewrite andb_true_iff, orb_true_iff, !Z.eqb_eq. intros [-> [->|?%proxied_MayShare]]; [|done].
  by apply share_owner.
Qed.

(** A call grants [u] to [tokenId], with the right to write when [w] is set. *)
Definition grant_authorised env s uriVec (fl : Z) (bundle : string) (idx init : Z) (u : string)
    (tokenId : Z) (w : bool) : Prop :=
  IsSAOrSystemAppCall env = true ∧ (CheckCalledBySandBox env s).1 = ERR_OK ∧
  GetTokenIdByBundleName env bundle idx = (ERR_OK, tokenId) ∧
  (w = true → has fl FLAG_WRITE_URI = true) ∧
  ∃ uri, uri ∈ uriVec ∧ ToString uri = u ∧ CheckUriTypeIsValid uri = true ∧
    MayShare env s uri (Z.land fl FLAG_READ_WRITE_URI) (grantor env init).

Definition privileged_authorised env uriVec (fl : Z) (bundle : string) (idx : Z) (u : string)
    (tokenId : Z) (w : bool) : Prop :=
  granted env (CallingTokenID (caller env)) PERMISSION_GRANT_URI_PERMISSION_PRIVILEGED = true ∧
  GetTokenIdByBundleName env bundle idx = (ERR_OK, tokenId) ∧
  (w = true → has fl FLAG_WRITE_URI = true) ∧
  ∃ uri, uri ∈ uriVec ∧ ToString uri = u ∧ CheckUriTypeIsValid uri = true.

Definition authorised env s (c : UriCall) (u : string) (tokenId : Z) (w : bool) : Prop :=
  match c with
  | CallGrant uri fl bundle idx init _ => grant_authorised env s [uri] fl bundle idx init u tokenId w
  | CallGrantVec uriVec fl bundle idx init _ =>
      grant_authorised env s uriVec fl bundle idx init u tokenId w
  | CallPrivileged uriVec fl bundle idx => privileged_authorised env uriVec fl bundle idx u tokenId w
  | _ => False
  end.

(** What a grant does to the map: nothing, or records of one flag for URIs that
    satisfy [P]. *)
Definition grants (m m' : gmap string (list GrantInfo)) (fl : Z) (P : string → Z → Prop) : Prop :=
  m' = m ∨ rw_flag (Z.land fl FLAG_READ_WRITE_URI) ∧ ∃ from target,
    adds m m' (λ u, P u target) (Z.land fl FLAG_READ_WRITE_URI) from target.

Lemma grants_map_ok m m' fl P : grants m m' fl P → map_ok m → map_ok m'.
Proof. intros [->|(Hf & from & target & us & ab & _ & ->)] Hm; [done|]. by apply add_all_ok. Qed.

Lemma grants_right m m' fl P u tokenId w :
  grants m m' fl P → right m' u tokenId w →
  right m u tokenId w ∨ P u tokenId ∧ (w = true → has fl FLAG_WRITE_URI = true).
Proof.
  intros [->|(Hf & from & target & us & ab & HP & ->)] Hr; [by left|].
  apply add_all_right in Hr as [|(Hu & -> & Hw)]; [by left|]. right.
  rewrite has_land_write in Hw. split; [|done]. rewrite Forall_forall in HP. auto.
Qed.

Lemma CheckCalledBySandBox_map env s : uriMap_ (CheckCalledBySandBox env s).2 = uriMap_ s.
Proof. unfold CheckCalledBySandBox. repeat case_match; done. Qed.

Lemma IsGrantPersist_map env s : uriMap_ (IsGrantPersistUriPermission env s).2 = uriMap_ s.
Proof. unfold IsGrantPersistUriPermission. cbn. by case_match. Qed.

Lemma split_2in1_other env uriVec fl docs other docs' other' :
  split_2in1 env uriVec fl docs other = Ret (docs', other') →
  ∀ uri, uri ∈ other' → uri ∈ other ∨ uri ∈ uriVec.
Proof.
  revert docs other. induction uriVec as [|x l IH]; intros docs other; cbn [split_2in1].
  { intros [= _ ->]. by left. }
  destruct (negb _); [intros H uri Hu; destruct (IH _ _ H uri Hu); [by left|right; by right]|].
  destruct (uninit_mode env); [|done]. cbn [obind].
  destruct (_ && _); intros H uri Hu; destruct (IH _ _ H uri Hu) as [Hin|];
    try (right; by right); [by left|].
  apply elem_of_app in Hin as [| ->%list_elem_of_singleton]; [by left|right; left].
Qed.

Lemma GrantUriPermissionFor2In1Inner_adds env s uriVec fl bundle idx sys init ab r s' acts :
  GrantUriPermissionFor2In1Inner env s uriVec fl bundle idx sys init ab = Ret (r, s', acts) →
  let fl := Z.land fl FLAG_READ_WRITE_URI in
  ∃ target, adds (uriMap_ s) (uriMap_ s')
    (λ u, GetTokenIdByBundleName env bundle idx = (ERR_OK, target) ∧
          shareable env s uriVec fl (grantor env init) u) fl (grantor env init) target.
Proof.
  unfold GrantUriPermissionFor2In1Inner. cbv zeta.
  destruct (split_2in1 env uriVec fl [] []) as [[docs other]|] eqn:Hs; [|done]. cbn [obind].
  pose proof (split_2in1_other _ _ _ _ _ _ _ Hs) as Ho.
  destruct other as [|x other].
  { destruct (GetTokenIdByBundleName env bundle idx) as [ret t]. exists t.
    destruct (negb _); simplify_eq/=; apply adds_refl. }
  destruct (GrantUriPermissionInner _ _ _ _ _ _ _ _) as [[[r1 s1] a1]|] eqn:Hi; [|done]. cbn [obind].
  apply GrantUriPermissionInner_adds in Hi as [t Hi]. intros H. exists t.
  assert (uriMap_ s' = uriMap_ s1) as ->.
  { revert H. destruct docs; [by intros [= _ <- _]|].
    destruct (GetTokenIdByBundleName env bundle idx). destruct (negb _); by intros [= _ <- _]. }
  eapply adds_impl; [exact Hi|]. intros u [? (uri & Hu & ?)]. split; [done|].
  exists uri. split; [|done]. by destruct (Ho uri Hu) as [[]%not_elem_of_nil|].
Qed.

Lemma GrantUriPermission_vec_grants env s uriVec fl bundle idx init ab r s' acts :
  GrantUriPermission_vec env s uriVec fl bundle idx init ab = Ret (r, s', acts) →
  grants (uriMap_ s) (uriMap_ s') fl (λ u target,
    IsSAOrSystemAppCall env = true ∧ (CheckCalledBySandBox env s).1 = ERR_OK ∧
    GetTokenIdByBundleName env bundle idx = (ERR_OK, target) ∧
    shareable env s uriVec (Z.land fl FLAG_READ_WRITE_URI) (grantor env init) u).
Proof.
  unfold GrantUriPermission_vec. destruct (IsSAOrSystemAppCall env); cbn [negb].
  2: { intros [= _ <- _]. by left. }
  pose proof (CheckCalledBySandBox_map env s) as Hm.
  destruct (CheckCalledBySandBox env s) as [ret s1]. cbn [fst snd] in Hm |- *.
  destruct (Z.eqb_spec ret ERR_OK) as [->|]; cbn [negb]; [|intros [= _ <- _]; by left].
  destruct (has fl FLAG_READ_WRITE_URI) eqn:Hf; cbn [negb]; [|intros [= _ <- _]; by left].
  apply land_rw in Hf. pose proof (IsGrantPersist_map env s1) as Hm2. rewrite Hm in Hm2.
  destruct (IsGrantPersistUriPermission env s1) as [persist s2]. cbn in Hm2.
  intros H. assert (∃ target, adds (uriMap_ s2) (uriMap_ s')
    (λ u, GetTokenIdByBundleName env bundle idx = (ERR_OK, target) ∧
          shareable env s2 uriVec (Z.land fl FLAG_READ_WRITE_URI) (grantor env init) u)
    (Z.land fl FLAG_READ_WRITE_URI) (grantor env init) target) as [target Ha].
  { destruct persist; [exact (GrantUriPermissionFor2In1Inner_adds _ _ _ _ _ _ _ _ _ _ _ _ H)|].
    exact (GrantUriPermissionInner_adds _ _ _ _ _ _ _ _ _ _ _ H). }
  right. split; [done|]. exists (grantor env init), target. rewrite <-Hm2.
  eapply adds_impl; [exact Ha|]. intros u [Ht Hs]. split_and!; try done.
  by eapply shareable_map.
Qed.
End Calls.
