(* ===== verification/UriRevoke.v ===== *)
(** * Revocation of URI permissions, and the service as a whole

    What the revocations leave, the invariant of the records over all calls, and
    that a right appears only through an authorised grant. *)

From stdpp Require Import prelude gmap strings list sorting.
From Stdlib Require Import ZArith Lia.
From S2P Require Import Prelude Permission UriPerm UriTheorems.

Implicit Types (m : gmap string (list GrantInfo)) (l : list GrantInfo).

(** ** Passes that keep rights *)

(** The records left come from records of the same parties with the same flag. *)
Definition shrinks l l' : Prop :=
  ∀ g', g' ∈ l' → ∃ g, g ∈ l ∧ grant_key g' = grant_key g ∧ flag g' = flag g.

(** A revocation rewrites the lists of URIs by [f]; a list that becomes empty goes. *)
Definition rewrites m m' (f : string → list GrantInfo → list GrantInfo) : Prop :=
  ∀ u, m' !! u = m !! u ≫= λ l, nonempty (f u l).

Lemma rewrites_right m m' f u tokenId w :
  rewrites m m' f → (∀ l, shrinks l (f u l)) → right m' u tokenId w → right m u tokenId w.
Proof.
  intros Hr Hs (l' & Hl' & g' & Hg' & Ht & Hw). rewrite Hr in Hl'.
  apply bind_Some in Hl' as (l & Hl & [<- _]%nonempty_Some).
  destruct (Hs l g' Hg') as (g & Hg & Hk & Hf). injection Hk as _ Hk. exists l. split; [done|].
  exists g. rewrite <-Hf. split_and!; [done|congruence|done].
Qed.

Lemma rewrites_ok m m' f :
  rewrites m m' f →
  (∀ u l, list_ok l → NoDup (grant_key <$> f u l) ∧ Forall info_ok (f u l)) →
  map_ok m → map_ok m'.
Proof.
  intros Hr Hf Hm u l' Hl'. rewrite Hr in Hl'. apply bind_Some in Hl' as (l & Hl & [<- Hne]%nonempty_Some).
  destruct (Hf u l (Hm u l Hl)). by split.
Qed.

Lemma shrinks_sublist l l' : sublist l' l → shrinks l l'.
Proof. intros H g Hg. exists g. split; [|done]. by eapply elem_of_sublist. Qed.

Lemma sublist_ok l l' :
  sublist l' l → list_ok l → NoDup (grant_key <$> l') ∧ Forall info_ok l'.
Proof.
  intros Hs [_ Hnd Hok]. split.
  - eapply sublist_NoDup; [exact Hnd|]. by apply sublist_fmap_mono.
  - rewrite Forall_forall in Hok |- *. intros g Hg. apply Hok. by eapply elem_of_sublist.
Qed.

(** ** [RevokeUriPermission] *)

(** A record of the token that lists the ability. *)
Definition holds (tokenId ab : Z) (g : GrantInfo) : bool :=
  (targetTokenId g =? tokenId)%Z && bool_decide (ab ∈ abilityIds g).

Definition strip (ab : Z) (g : GrantInfo) : GrantInfo := g <| abilityIds ::= λ S, S ∖ {[ab]} |>.

Lemma remove_record_loop_cons g l tokenId ab :
  (remove_record_loop (g :: l) tokenId ab).1 =
    if holds tokenId ab g then
      if autoRemove g then
        if decide (abilityIds g ∖ {[ab]} = ∅) then l else strip ab g :: l
      else strip ab g :: (remove_record_loop l tokenId ab).1
    else g :: (remove_record_loop l tokenId ab).1.
Proof.
  unfold holds. cbn [remove_record_loop]. destruct (remove_record_loop l tokenId ab) as [l' e]. cbn [fst].
  destruct (Z.eqb_spec (targetTokenId g) tokenId); cbn [negb andb]; [|done].
  unfold RemoveAbilityId. case_bool_decide as Hin; cbn [negb].
  - unfold IsEmptyAbilityId, strip. cbn. destruct (autoRemove g); [|done]. cbn.
    by repeat case_decide; case_bool_decide.
  - cbn. f_equal. destruct g as [f fr tg au ids]. cbv [assign reconstruct reconstruct_GrantInfo]. cbn in *.
    f_equal. set_solver.
Qed.

Lemma remove_record_loop_shrinks l tokenId ab : shrinks l (remove_record_loop l tokenId ab).1.
Proof.
  induction l as [|g l IH]; [by intros g Hg%not_elem_of_nil|]. rewrite remove_record_loop_cons.
  assert (∀ g', g' ∈ (remove_record_loop l tokenId ab).1 →
    ∃ x, x ∈ g :: l ∧ grant_key g' = grant_key x ∧ flag g' = flag x) as Htl.
  { intros g' Hg'. destruct (IH g' Hg') as (x & Hx & ?). exists x. split; [by right|done]. }
  assert (∀ g', g' ∈ l → ∃ x, x ∈ g :: l ∧ grant_key g' = grant_key x ∧ flag g' = flag x) as Hl.
  { intros g' Hg'. exists g'. split; [by right|done]. }
  intros g'. repeat case_match; rewrite ?elem_of_cons; intros Hin; auto.
  all: destruct Hin as [->|]; [exists g; split; [left|done]|auto].
Qed.

Lemma remove_record_loop_keys l tokenId ab :
  sublist (grant_key <$> (remove_record_loop l tokenId ab).1) (grant_key <$> l).
Proof.
  induction l as [|g l IH]; [done|]. rewrite remove_record_loop_cons.
  repeat case_match; rewrite ?fmap_cons; try done; by constructor.
Qed.

Lemma remove_record_loop_infos l tokenId ab : Forall info_ok l → Forall info_ok (remove_record_loop l tokenId ab).1.
Proof.
  induction 1 as [|g l [Hf Ho Hd] Hl IH]; [constructor|]. rewrite remove_record_loop_cons.
  repeat case_match; try done; constructor; try done; split; cbn; try done;
    (set_solver || congruence).
Qed.

Lemma remove_map_loop_put es m ul tokenId ab :
  (remove_map_loop es m ul tokenId ab).1 =
    foldl (λ m e, put e.1 (remove_record_loop e.2 tokenId ab).1 m) m es.
Proof.
  revert m ul. induction es as [|[u l] es IH]; intros m ul; [done|]. cbn [remove_map_loop foldl fst snd].
  destruct (remove_record_loop l tokenId ab) as [l' e]. cbn [fst]. by rewrite IH.
Qed.

Lemma DeleteShareFile_map env s tokenId us : uriMap_ (DeleteShareFile env s tokenId us).1.2 = uriMap_ s.
Proof. unfold DeleteShareFile. by destruct (storageManager_ (connect_storage env s)). Qed.

Lemma RevokeUriPermission_rewrites env s tokenId ab :
  IsFoundationCall env = true →
  rewrites (uriMap_ s) (uriMap_ (RevokeUriPermission env s tokenId ab).1)
    (λ _ l, (remove_record_loop l tokenId ab).1).
Proof.
  intros Hf u. unfold RevokeUriPermission, RemoveUriRecord. rewrite Hf. cbn [negb].
  rewrite <-(rewrite_map (λ _ l, (remove_record_loop l tokenId ab).1)), <-remove_map_loop_put with (ul := []).
  destruct (remove_map_loop _ _ _ _ _) as [m' [|x ul]]; [done|].
  pose proof (DeleteShareFile_map env (s <| uriMap_ := m' |>) tokenId (x :: ul)) as Hd.
  destruct (DeleteShareFile _ _ _ _) as [[r s'] acts]. cbn in Hd |- *. by rewrite Hd.
Qed.

(** What the end of an ability should do to the records of a URI: the ability is
    taken off the records of its application, and a record that goes with its
    abilities and has none left goes. *)
Definition end_ability (tokenId ab : Z) l : list GrantInfo :=
  omap (λ g, if holds tokenId ab g
             then if autoRemove g && bool_decide (abilityIds g ∖ {[ab]} = ∅) then None
                  else Some (strip ab g)
             else Some g) l.

Lemma end_ability_other tokenId ab l :
  Forall (λ g, holds tokenId ab g = false) l → end_ability tokenId ab l = l.
Proof. unfold end_ability. induction 1 as [|g l Hg _ IH]; [done|]. cbn. by rewrite Hg, IH. Qed.

(** The loop stops at a record that goes with its abilities, so it does so when no
    other record lists the ability. *)
Lemma remove_record_loop_end tokenId ab l :
  (length (filter (λ g, holds tokenId ab g = true) l) ≤ 1)%nat →
  (remove_record_loop l tokenId ab).1 = end_ability tokenId ab l.
Proof.
  induction l as [|g l IH]; [done|]. rewrite remove_record_loop_cons, filter_cons.
  unfold end_ability. cbn [omap list_omap]. fold (end_ability tokenId ab l).
  destruct (holds tokenId ab g) eqn:Hg.
  - rewrite decide_True by done. cbn [length]. intros Hlen.
    assert (Forall (λ g, holds tokenId ab g = false) l) as Hl.
    { apply Forall_forall. intros x Hx. apply not_true_is_false. intros Hh.
      assert (x ∈ filter (λ g, holds tokenId ab g = true) l) as Hin by (by apply list_elem_of_filter).
      destruct (filter _ l); [by apply not_elem_of_nil in Hin|cbn in Hlen; lia]. }
    rewrite IH by (destruct (filter _ l); cbn in *; lia).
    rewrite end_ability_other by done. rewrite bool_decide_decide.
    destruct (autoRemove g); cbn [andb]; [|done]. by case_decide.
  - rewrite decide_False by done. intros Hlen. by rewrite IH.
Qed.

(** C17: When an ability of an application ends and no URI has two records for the
    application that list the ability, the call does what it should for every URI: the
    ability is taken off the records of the application, records that were to go with
    their last ability go, and all others stay as they are and in order. The deletion
    of the shared files is requested for the application. A call that is not from the
    foundation changes nothing. *)
Theorem RevokeUriPermission_ends (env : UriEnv) (s : UriPermMgr) (tokenId ab : Z) :
  (∀ u l, uriMap_ s !! u = Some l →
     (length (filter (λ g, holds tokenId ab g = true) l) ≤ 1)%nat) →
  let '(s', acts) := RevokeUriPermission env s tokenId ab in
  if IsFoundationCall env then
    (∀ u, uriMap_ s' !! u = uriMap_ s !! u ≫= λ l, nonempty (end_ability tokenId ab l)) ∧
    (∀ t us, ADeleteShareFile t us ∈ acts → t = tokenId)
  else s' = s ∧ acts = [].
Proof.
  intros Hone. destruct (IsFoundationCall env) eqn:Hf.
  2: { unfold RevokeUriPermission. by rewrite Hf. }
  pose proof (RevokeUriPermission_rewrites env s tokenId ab Hf) as Hr.
  assert (∀ t us, ADeleteShareFile t us ∈ (RevokeUriPermission env s tokenId ab).2 → t = tokenId) as Ha.
  { intros t us. unfold RevokeUriPermission. rewrite Hf. cbn [negb].
    destruct (RemoveUriRecord s [] tokenId ab) as [s1 [|x ul]]; [by intros []%not_elem_of_nil|].
    unfold DeleteShareFile. destruct (storageManager_ _); cbn [snd];
      [intros [= -> ->]%list_elem_of_singleton; done|by intros []%not_elem_of_nil]. }
  destruct (RevokeUriPermission env s tokenId ab) as [s' acts]. cbn in Hr, Ha. split; [|done].
  intros u. rewrite Hr. destruct (uriMap_ s !! u) as [l|] eqn:E; [|done]. cbn.
  by rewrite remove_record_loop_end by (by eapply Hone).
Qed.

(** ** [RevokeAllUriPermissions] *)

Section RevokeAll.
Context {UL : UriLib}.
Variables (env : UriEnv) (tokenId : Z).
Implicit Types (pairs : list (Z * string)).

(** The records of a URI that are erased, and those that stay. *)
Definition concerns (g : GrantInfo) : bool :=
  (targetTokenId g =? tokenId)%Z || (fromTokenId g =? tokenId)%Z.

Definition erased (u : string) l : list GrantInfo :=
  if owned_by env u tokenId then l else filter (λ g, concerns g = true) l.
Definition kept (u : string) l : list GrantInfo :=
  if owned_by env u tokenId then [] else filter (λ g, concerns g = false) l.

(** What is noted for the deletion of files, in order. *)
Definition noted (e : string * list GrantInfo) : list (Z * string) :=
  (λ g, (targetTokenId g, e.1)) <$> erased e.1 e.2.

Definition note_all (n : gmap Z (list string)) pairs := foldl (λ n p, note p.1 p.2 n) n pairs.

Lemma note_all_app n p q : note_all n (p ++ q) = note_all (note_all n p) q.
Proof. apply foldl_app. Qed.

Lemma revoke_loop_spec l u n :
  revoke_loop l u tokenId n =
    (filter (λ g, concerns g = false) l,
     note_all n ((λ g, (targetTokenId g, u)) <$> filter (λ g, concerns g = true) l)).
Proof.
  revert n. induction l as [|g l IH]; intros n; [done|]. cbn [revoke_loop].
  fold (concerns g). rewrite !filter_cons. destruct (concerns g) eqn:Hg; cbn [andb].
  - rewrite decide_False, decide_True by done. by rewrite IH.
  - rewrite decide_True, decide_False by done. by rewrite IH.
Qed.

Lemma owned_fold u l n :
  foldl (λ n r, note (targetTokenId r) u n) n l = note_all n ((λ g, (targetTokenId g, u)) <$> l).
Proof. revert n. induction l as [|g l IH]; intros n; [done|]. cbn. by rewrite IH. Qed.

Lemma revoke_map_loop_spec es m n :
  revoke_map_loop env es m n tokenId =
    (foldl (λ m e, put e.1 (kept e.1 e.2) m) m es, note_all n (es ≫= noted)).
Proof.
  revert m n. induction es as [|[u l] es IH]; intros m n; [done|].
  cbn [revoke_map_loop foldl fst snd]. rewrite bind_cons, note_all_app.
  assert (kept u l = if owned_by env u tokenId then [] else filter (λ g, concerns g = false) l) as -> by done.
  assert (noted (u, l) = (λ g, (targetTokenId g, u)) <$>
    if owned_by env u tokenId then l else filter (λ g, concerns g = true) l) as -> by done.
  destruct (owned_by env u tokenId).
  - by rewrite owned_fold, IH.
  - by rewrite revoke_loop_spec, IH.
Qed.

Lemma note_all_lookup n pairs t :
  default [] (note_all n pairs !! t) = default [] (n !! t) ++ (filter (λ p, p.1 = t) pairs).*2.
Proof.
  revert n. induction pairs as [|[t' u] pairs IH]; intros n; [by rewrite app_nil_r|].
  cbn [note_all foldl fst snd]. fold (note_all (note t' u n) pairs). rewrite IH. unfold note.
  rewrite filter_cons. cbn [fst]. case_decide; subst.
  - rewrite lookup_insert_eq. cbn. by rewrite <-app_assoc.
  - by rewrite lookup_insert_ne.
Qed.

(** Some record of [m] for the URI and the token is erased. *)
Definition lost m (t : Z) (u : string) : Prop :=
  ∃ l g, m !! u = Some l ∧ g ∈ erased u l ∧ targetTokenId g = t.

Lemma noted_lost m t u :
  (∃ us, note_all ∅ (map_iter m ≫= noted) !! t = Some us ∧ u ∈ us) ↔ lost m t u.
Proof.
  pose proof (note_all_lookup ∅ (map_iter m ≫= noted) t) as Hn. rewrite lookup_empty in Hn. cbn in Hn.
  assert ((∃ us, note_all ∅ (map_iter m ≫= noted) !! t = Some us ∧ u ∈ us) ↔
          u ∈ default [] (note_all ∅ (map_iter m ≫= noted) !! t)) as ->.
  { destruct (note_all _ _ !! t) as [us|]; cbn; [naive_solver|]. split; [naive_solver|].
    by intros []%not_elem_of_nil. }
  rewrite Hn, list_elem_of_fmap. unfold lost. split.
  - intros ([t' u'] & Hu & [Ht Hin]%list_elem_of_filter). cbn in Hu, Ht. subst.
    apply list_elem_of_bind in Hin as ([v l] & Hin & Hv). apply elem_of_map_iter in Hv.
    apply list_elem_of_fmap in Hin as (g & [= -> ->] & Hg). by exists l, g.
  - intros (l & g & Hl & Hg & <-). exists (targetTokenId g, u). split; [done|].
    apply list_elem_of_filter. split; [done|]. apply list_elem_of_bind. exists (u, l).
    split; [|by apply elem_of_map_iter]. apply list_elem_of_fmap. by exists g.
Qed.
End RevokeAll.

Lemma delete_loop_spec env s ls :
  let '(ret, s', acts) := delete_loop env s ls in
  uriMap_ s' = uriMap_ s ∧ (ret = ERR_OK ∨ ret = INNER_ERR) ∧
  (∀ t us, ADeleteShareFile t us ∈ acts → (t, us) ∈ ls) ∧
  (ret = ERR_OK → ∀ t us, (t, us) ∈ ls → ADeleteShareFile t us ∈ acts).
Proof.
  revert s. induction ls as [|[t us] ls IH]; intros s; cbn [delete_loop].
  { split_and!; [done|by left|by intros ?? []%not_elem_of_nil|by intros _ ?? []%not_elem_of_nil]. }
  pose proof (DeleteShareFile_map env s t us) as Hm.
  assert (∀ t' us', ADeleteShareFile t' us' ∈ (DeleteShareFile env s t us).2 → (t', us') = (t, us)) as Hin.
  { unfold DeleteShareFile. destruct (storageManager_ _); cbn [snd]; intros t' us';
      [by intros [= -> ->]%list_elem_of_singleton|by intros []%not_elem_of_nil]. }
  assert ((DeleteShareFile env s t us).1.1 = ERR_OK →
    ADeleteShareFile t us ∈ (DeleteShareFile env s t us).2) as Hok.
  { unfold DeleteShareFile. destruct (storageManager_ _); [|done]. intros _. left. }
  destruct (DeleteShareFile env s t us) as [[ret s1] acts]. cbn [fst snd] in Hm, Hin, Hok.
  destruct (Z.eqb_spec ret ERR_OK) as [->|]; cbn [negb].
  - specialize (IH s1). destruct (delete_loop env s1 ls) as [[ret' s2] acts'].
    destruct IH as (Hm' & Hret & Hsub & Hall). rewrite Hm', Hm. split_and!; [done|done| |].
    + intros t' us' [->%Hin|?%Hsub]%elem_of_app; [left|by right].
    + intros Hr t' us' [[= -> ->]|?]%elem_of_cons; apply elem_of_app; auto.
  - split_and!; [done|by right| |done]. intros t' us' ->%Hin. left.
Qed.

(** C39: revoking everything of a token. A call of the foundation erases the records of
    the URIs that belong to the application of the token and the records to and from
    the token, and leaves every other record as it is and in order. Every deletion of
    files it requests is for a record that was erased, and when it reports success a
    deletion was requested for every erased record; it reports success or an internal
    error. Any other caller is refused and nothing changes. *)
Theorem RevokeAllUriPermissions_spec `{UL : UriLib} (env : UriEnv) (s : UriPermMgr) (tokenId : Z) :
  let '(ret, s', acts) := RevokeAllUriPermissions env s tokenId in
  if IsFoundationCall env then
    (∀ u, uriMap_ s' !! u = uriMap_ s !! u ≫= λ l, nonempty (kept env tokenId u l)) ∧
    (∀ u l g, uriMap_ s' !! u = Some l → g ∈ l →
       owned_by env u tokenId = false ∧ targetTokenId g ≠ tokenId ∧ fromTokenId g ≠ tokenId) ∧
    (ret = ERR_OK ∨ ret = INNER_ERR) ∧
    (∀ t us u, ADeleteShareFile t us ∈ acts → u ∈ us → lost env tokenId (uriMap_ s) t u) ∧
    (ret = ERR_OK → ∀ t u, lost env tokenId (uriMap_ s) t u →
       ∃ us, ADeleteShareFile t us ∈ acts ∧ u ∈ us)
  else ret = CHECK_PERMISSION_FAILED ∧ s' = s ∧ acts = [].
Proof.
  unfold RevokeAllUriPermissions. destruct (IsFoundationCall env); cbn [negb]; [|done].
  rewrite revoke_map_loop_spec.
  set (lists := note_all ∅ (map_iter (uriMap_ s) ≫= noted env tokenId)).
  pose proof (noted_lost env tokenId (uriMap_ s)) as Hlost. fold lists in Hlost.
  pose proof (rewrite_map (kept env tokenId) (uriMap_ s)) as Hrw.
  set (m := foldl _ _ _) in *.
  pose proof (delete_loop_spec env (s <| uriMap_ := m |>) (map_iter lists)) as Hd.
  destruct (delete_loop _ _ _) as [[ret s'] acts]. destruct Hd as (Hm & Hret & Hsub & Hall).
  assert (uriMap_ s' = m) as -> by done. clear Hm. split_and!; [done| |done| |].
  - intros u l g Hl Hg. rewrite Hrw in Hl. apply bind_Some in Hl as (l0 & _ & [<- _]%nonempty_Some).
    unfold kept in Hg. destruct (owned_by env u tokenId); [by apply not_elem_of_nil in Hg|].
    apply list_elem_of_filter in Hg as [Hc _]. unfold concerns in Hc.
    by apply orb_false_iff in Hc as [?%Z.eqb_neq ?%Z.eqb_neq].
  - intros t us u Ht%Hsub Hu. apply Hlost. exists us. split; [|done]. by apply elem_of_map_iter.
  - intros Hok t u (us & Hus & Hu)%Hlost. exists us. split; [|done]. apply Hall; [done|].
    by apply elem_of_map_iter.
Qed.


(** ** The service as a whole *)

Lemma put_shrinks m u l l' :
  m !! u = Some l → sublist l' l →
  (∀ v t w, right (put u l' m) v t w → right m v t w) ∧ (map_ok m → map_ok (put u l' m)).
Proof.
  intros Hl Hs. split.
  - intros v t w (k & Hk & g & Hg & ?). rewrite lookup_put in Hk. case_decide as Hv.
    + apply nonempty_Some in Hk as [<- _]. subst v. exists l. split; [done|].
      exists g. split; [by eapply elem_of_sublist|done].
    + exists k. split; [done|]. by exists g.
  - intros Hm v k Hk. rewrite lookup_put in Hk. case_decide; [|by eapply Hm].
    apply nonempty_Some in Hk as [<- Hne]. destruct (sublist_ok l l' Hs (Hm u l Hl)). by split.
Qed.

Section Whole.
Context {UL : UriLib}.
Implicit Types (env : UriEnv) (s : UriPermMgr) (uri : Uri).

Lemma RevokeUriPermissionManually_map env s uri bundle idx :
  let m' := uriMap_ (RevokeUriPermissionManually env s uri bundle idx).1.2 in
  m' = uriMap_ s ∨ ∃ l l', uriMap_ s !! ToString uri = Some l ∧ sublist l' l ∧
    m' = put (ToString uri) l' (uriMap_ s).
Proof.
  unfold RevokeUriPermissionManually. destruct (negb (IsSAOrSystemAppCall env)); [by left|].
  destruct (negb (CheckUriTypeIsValid uri)); [by left|].
  destruct (GetTokenIdByBundleName env bundle idx) as [ret target].
  destruct (negb (ret =? ERR_OK)%Z); [by left|].
  destruct (GetTokenIdByBundleName env (GetAuthority uri) 0) as [? owner].
  destruct (uriMap_ s !! ToString uri) as [l|]; [|by left].
  right. rewrite DeleteShareFile_map. eexists l, _. split; [done|].
  split; [apply erase_first_sublist|]. by unfold put.
Qed.

Lemma revoke_all_rewrites env s tokenId :
  if IsFoundationCall env
  then rewrites (uriMap_ s) (uriMap_ (RevokeAllUriPermissions env s tokenId).1.2) (kept env tokenId)
  else uriMap_ (RevokeAllUriPermissions env s tokenId).1.2 = uriMap_ s.
Proof.
  unfold RevokeAllUriPermissions. destruct (IsFoundationCall env); cbn [negb]; [|done].
  rewrite revoke_map_loop_spec. intros u. rewrite <-rewrite_map.
  match goal with |- context [delete_loop env ?s ?ls] => pose proof (delete_loop_spec env s ls) as Hd end.
  destruct (delete_loop _ _ _) as [[ret s'] acts]. destruct Hd as (Hm & _). cbn [fst snd].
  by rewrite Hm.
Qed.

Lemma privileged_adds env s uriVec fl from target r s' acts :
  GrantBatchUriPermissionPrivileged env s uriVec fl from target = Ret (r, s', acts) →
  adds (uriMap_ s) (uriMap_ s')
    (.∈ ToString <$> filter (λ uri, CheckUriTypeIsValid uri = true) uriVec) fl from target.
Proof.
  unfold GrantBatchUriPermissionPrivileged. destruct (ToString <$> _) as [|u us].
  - intros [= _ <- _]. apply adds_refl.
  - apply GrantBatchUriPermissionImpl_adds.
Qed.

Lemma privileged_2in1_adds env s uriVec fl from target r s' acts :
  GrantBatchUriPermissionFor2In1Privileged env s uriVec fl from target = Ret (r, s', acts) →
  adds (uriMap_ s) (uriMap_ s')
    (.∈ ToString <$> filter (λ uri, CheckUriTypeIsValid uri = true) uriVec) fl from target.
Proof.
  unfold GrantBatchUriPermissionFor2In1Privileged.
  set (valid := filter (λ uri, CheckUriTypeIsValid uri = true) uriVec).
  assert (∀ u, u ∈ ToString <$> filter (λ uri, local_docs uri = false) valid → u ∈ ToString <$> valid) as Hv.
  { intros u (uri & -> & [_ Hu]%list_elem_of_filter)%list_elem_of_fmap.
    apply list_elem_of_fmap. by exists uri. }
  destruct (ToString <$> filter _ valid) as [|u us].
  { case_match; intros [= _ <- _]; apply adds_refl. }
  destruct (GrantBatchUriPermissionImpl _ _ _ _ _ _ _) as [[[r1 s1] a1]|] eqn:Hi; [|done].
  apply GrantBatchUriPermissionImpl_adds in Hi. cbn [obind].
  case_match; intros [= _ <- _]; (eapply adds_impl; [exact Hi|exact Hv]).
Qed.

(** A revocation takes rights only, and keeps the records well formed. *)
Definition only_takes (m m' : gmap string (list GrantInfo)) : Prop :=
  (∀ u t w, right m' u t w → right m u t w) ∧ (map_ok m → map_ok m').

Lemma only_takes_refl m : only_takes m m.
Proof. done. Qed.

Lemma revocation_takes env s c s' :
  run_uri_call env s c = Ret s' →
  match c with CallRevoke _ _ | CallRevokeAll _ | CallRevokeManually _ _ _ => True | _ => False end →
  only_takes (uriMap_ s) (uriMap_ s').
Proof.
  destruct c as [| | |tokenId ab|tokenId|uri bundle idx]; try done; intros [= <-] _.
  - destruct (IsFoundationCall env) eqn:Hf; [|unfold RevokeUriPermission; by rewrite Hf].
    pose proof (RevokeUriPermission_rewrites env s tokenId ab Hf) as Hr. split.
    + intros u t w. eapply rewrites_right; [exact Hr|]. intros l. apply remove_record_loop_shrinks.
    + eapply rewrites_ok; [exact Hr|]. intros u l [_ Hnd Hok]. split; [|by apply remove_record_loop_infos].
      eapply sublist_NoDup; [exact Hnd|apply remove_record_loop_keys].
  - pose proof (revoke_all_rewrites env s tokenId) as Hr. destruct (IsFoundationCall env).
    2: { by rewrite Hr. }
    assert (∀ u l, sublist (kept env tokenId u l) l) as Hk.
    { intros u l. unfold kept. destruct (owned_by env u tokenId); [apply sublist_nil_l|apply sublist_filter]. }
    split.
    + intros u t w. eapply rewrites_right; [exact Hr|]. intros l. by apply shrinks_sublist.
    + eapply rewrites_ok; [exact Hr|]. intros u l. by apply sublist_ok.
  - destruct (RevokeUriPermissionManually_map env s uri bundle idx) as [->|(l & l' & Hl & Hs & ->)]; [done|].
    destruct (put_shrinks _ _ _ _ Hl Hs). by split.
Qed.

Lemma privileged_grants env s uriVec fl bundle idx r s' acts :
  GrantUriPermissionPrivileged env s uriVec fl bundle idx = Ret (r, s', acts) →
  grants (uriMap_ s) (uriMap_ s') fl (λ u target,
    granted env (CallingTokenID (caller env)) PERMISSION_GRANT_URI_PERMISSION_PRIVILEGED = true ∧
    GetTokenIdByBundleName env bundle idx = (ERR_OK, target) ∧
    ∃ uri, uri ∈ uriVec ∧ ToString uri = u ∧ CheckUriTypeIsValid uri = true).
Proof.
  unfold GrantUriPermissionPrivileged, granted.
  destruct (VerifyPermissionByTokenId _ _ _); cbn [negb]; [|intros [= _ <- _]; by left].
  destruct (has fl FLAG_READ_WRITE_URI) eqn:Hf; cbn [negb]; [|intros [= _ <- _]; by left].
  apply land_rw in Hf. destruct (GetTokenIdByBundleName env bundle idx) as [ret target].
  destruct (Z.eqb_spec ret ERR_OK) as [->|]; cbn [negb]; [|intros [= _ <- _]; by left].
  pose proof (IsGrantPersist_map env s) as Hm. destruct (IsGrantPersistUriPermission env s) as [persist s2].
  cbn in Hm. intros H. right. split; [done|]. exists (CallingTokenID (caller env)), target. rewrite <-Hm.
  assert (adds (uriMap_ s2) (uriMap_ s')
    (.∈ ToString <$> filter (λ uri, CheckUriTypeIsValid uri = true) uriVec)
    (Z.land fl FLAG_READ_WRITE_URI) (CallingTokenID (caller env)) target) as Ha.
  { destruct persist; [by eapply privileged_2in1_adds|by eapply privileged_adds]. }
  eapply adds_impl; [exact Ha|]. intros u Hu.
  apply list_elem_of_fmap in Hu as (uri & -> & [Hv Hin]%list_elem_of_filter).
  split_and!; try done. by exists uri.
Qed.

Lemma GrantUriPermission_grants env s uri fl bundle idx init ab r s' acts :
  GrantUriPermission env s uri fl bundle idx init ab = Ret (r, s', acts) →
  uriMap_ s' = uriMap_ s ∨ GrantUriPermission_vec env s [uri] fl bundle idx init ab = Ret (r, s', acts).
Proof.
  unfold GrantUriPermission. destruct (negb _); [intros [= _ <- _]; by left|by right].
Qed.

(** The predicate of the grants of a call, from its parts. *)
Lemma vec_authorised env s uriVec fl bundle idx init u target w :
  IsSAOrSystemAppCall env = true ∧ (CheckCalledBySandBox env s).1 = ERR_OK ∧
  GetTokenIdByBundleName env bundle idx = (ERR_OK, target) ∧
  shareable env s uriVec (Z.land fl FLAG_READ_WRITE_URI) (grantor env init) u →
  (w = true → has fl FLAG_WRITE_URI = true) →
  grant_authorised env s uriVec fl bundle idx init u target w.
Proof.
  intros (H1 & H2 & H3 & uri & Hin & Hu & Hv & Hs) Hw. split_and!; try done.
  exists uri. split_and!; try done. by apply may_share_MayShare.
Qed.

(** Every call takes rights, or grants some that are authorised. *)
Lemma call_effect env s c s' :
  run_uri_call env s c = Ret s' →
  (∀ u tokenId w, right (uriMap_ s') u tokenId w →
     right (uriMap_ s) u tokenId w ∨ authorised env s c u tokenId w) ∧
  (map_ok (uriMap_ s) → map_ok (uriMap_ s')).
Proof.
  assert (∀ uriVec fl bundle idx init ab r s' acts,
    GrantUriPermission_vec env s uriVec fl bundle idx init ab = Ret (r, s', acts) →
    (∀ u tokenId w, right (uriMap_ s') u tokenId w → right (uriMap_ s) u tokenId w ∨
      grant_authorised env s uriVec fl bundle idx init u tokenId w) ∧
    (map_ok (uriMap_ s) → map_ok (uriMap_ s'))) as Hvec.
  { intros * Hg%GrantUriPermission_vec_grants. split; [|by eapply grants_map_ok].
    intros u tokenId w Hr. destruct (grants_right _ _ _ _ _ _ _ Hg Hr) as [|[H Hw]]; [by left|].
    right. by eapply vec_authorised. }
  destruct c as [uri fl bundle idx init ab|uriVec fl bundle idx init ab|uriVec fl bundle idx| | |];
    try (intros H; destruct (revocation_takes _ _ _ _ H) as [H1 H2]; [done|]; split; auto; fail);
    cbn [run_uri_call authorised].
  - destruct (GrantUriPermission _ _ _ _ _ _ _ _) as [[[r s1] acts]|] eqn:Hg; [|done].
    intros [= <-]. apply GrantUriPermission_grants in Hg as [->|Hg]; [by auto|by eapply Hvec].
  - destruct (GrantUriPermission_vec _ _ _ _ _ _ _ _) as [[[r s1] acts]|] eqn:Hg; [|done].
    intros [= <-]. by eapply Hvec.
  - destruct (GrantUriPermissionPrivileged _ _ _ _ _ _) as [[[r s1] acts]|] eqn:Hg; [|done].
    intros [= <-]. apply privileged_grants in Hg. split; [|by eapply grants_map_ok].
    intros u tokenId w Hr. destruct (grants_right _ _ _ _ _ _ _ Hg Hr) as [|[(H1 & H2 & H3) Hw]]; [by left|].
    by right.
Qed.

(** A record for [d] can decide the verification of [u]: it is for the URI itself, or for a
    directory above a URI of another device. *)
Definition covers (d u : string) : Prop := d = u ∨ IsDistributedSubDirUri u d = true.

(** What is verified rests on a record of a URI that covers it. *)
Lemma verified_right env s uri fl tokenId :
  VerifyUriPermission env s uri fl tokenId = true →
  ∃ d, covers d (ToString uri) ∧ right (uriMap_ s) d tokenId (has fl FLAG_WRITE_URI).
Proof.
  unfold VerifyUriPermission. destruct (negb _); [done|]. destruct (negb _); [done|].
  destruct (uriMap_ s !! ToString uri) as [l|] eqn:Hl.
  - rewrite verify_loop_allows. intros Ha. exists (ToString uri). split; [by left|]. by exists l.
  - rewrite VerifySubDirUriPermission_outermost. intros (k & l & Hk & Hd & Ha & _).
    exists k. split; [by right|]. by exists l.
Qed.

(** A right was there at the start, or an earlier call was authorised to grant it. *)
Lemma right_granted s cs s' d tokenId w :
  run_uri_calls s cs = Ret s' → right (uriMap_ s') d tokenId w →
  right (uriMap_ s) d tokenId w ∨
  ∃ pre env c post s1, cs = pre ++ (env, c) :: post ∧ run_uri_calls s pre = Ret s1 ∧
    authorised env s1 c d tokenId w.
Proof.
  revert s. induction cs as [|[env c] cs IH]; intros s; cbn; [intros [= <-]; by left|].
  destruct (run_uri_call env s c) as [s1|] eqn:Hc; [|done]. cbn. intros Hr Hd.
  destruct (IH s1 Hr Hd) as [H|(pre & env' & c' & post & s2 & -> & Hp & Ha)].
  - destruct (call_effect env s c s1 Hc) as [He _]. destruct (He _ _ _ H) as [|Ha]; [by left|].
    right. by exists [], env, c, cs, s.
  - right. exists ((env, c) :: pre), env', c', post, s2. split; [done|]. split; [|done].
    cbn. by rewrite Hc.
Qed.

(** C12: whatever is verified was granted. Whatever calls are made on a manager without
    records, when reading or writing a URI is verified for a token afterwards, one of the
    calls was authorised to grant that access to that token, for the URI or, for a URI of
    another device, for a directory above it. For an
    ordinary grant the caller is a system service or a system application outside a
    sandbox, the receiver is the named bundle, a right to write was asked for, and the
    grantor (the caller, or the initiator the foundation names) may pass the URI on: it
    owns the URI, or holds the permission for documents or for the media of that kind
    and access, or the foundation shares content, or it may act as a proxy and could
    itself verify the same access before the call. A privileged grant needs the
    privileged permission. A revocation is never that call, although it can make a
    verification succeed by taking the record that hid the one of a directory
    ([revocation_uncovers]). *)
Theorem no_amplification (s0 s : UriPermMgr) (cs : list (UriEnv * UriCall)) (env : UriEnv)
    (uri : Uri) (fl tokenId : Z) :
  uriMap_ s0 = ∅ → run_uri_calls s0 cs = Ret s → VerifyUriPermission env s uri fl tokenId = true →
  ∃ d, covers d (ToString uri) ∧
  ∃ pre env' c post s1, cs = pre ++ (env', c) :: post ∧ run_uri_calls s0 pre = Ret s1 ∧
    authorised env' s1 c d tokenId (has fl FLAG_WRITE_URI).
Proof.
  intros H0 Hr (d & Hc & Hd)%verified_right. exists d. split; [done|].
  destruct (right_granted s0 cs s d _ _ Hr Hd) as [(l & Hl & _)|H]; [|exact H].
  by rewrite H0, lookup_empty in Hl.
Qed.

Lemma run_uri_calls_ok s cs s' :
  run_uri_calls s cs = Ret s' → map_ok (uriMap_ s) → map_ok (uriMap_ s').
Proof.
  revert s. induction cs as [|[env c] cs IH]; intros s; cbn; [by intros [= <-]|].
  destruct (run_uri_call env s c) as [s1|] eqn:Hc; [|done]. cbn. intros H Hm.
  apply (IH s1 H). by apply (call_effect env s c s1 Hc).
Qed.

(** ** When the calls are defined *)

(** The storage answers at most once per URI, and reading the uninitialized mode gives
    a number, as on a machine. *)
Definition env_ok env : Prop :=
  is_ret (uninit_mode env) ∧
  ∀ mgr us t f, (length (CreateShareFile env mgr us t f) ≤ length us)%nat.

Lemma event_loop_defined c t us rs i :
  (i + length rs ≤ length us)%nat → is_ret (event_loop c t us rs i).
Proof.
  revert i. induction rs as [|r rs IH]; intros i Hi; cbn [event_loop]; [by eexists|]. cbn in Hi.
  destruct (IH (S i)) as [acts ->]; [lia|]. destruct (granted_code r); [|by eexists].
  destruct (lookup_lt_is_Some_2 us i) as [u ->]; [lia|]. by eexists.
Qed.

Lemma events_defined env from target us rs :
  (length rs ≤ length us)%nat → is_ret (SendSystemAppGrantUriPermissionEvent env from target us rs).
Proof.
  intros H. unfold SendSystemAppGrantUriPermissionEvent. destruct (CheckAndCreateEventInfo _ _ _) as [[c t]|];
    [by apply event_loop_defined|by eexists].
Qed.

Lemma GrantUriPermissionImpl_defined env s uri fl from target ab :
  env_ok env → is_ret (GrantUriPermissionImpl env s uri fl from target ab).
Proof.
  intros [_ Hl]. unfold GrantUriPermissionImpl. destruct (storageManager_ _) as [mgr|]; [|by eexists].
  specialize (Hl mgr [ToString uri] target fl).
  destruct (CreateShareFile _ _ _ _ _) as [|r rs]; [by eexists|].
  destruct (negb _); [by eexists|]. by destruct (events_defined env from target _ _ Hl) as [acts ->]; eexists.
Qed.

Lemma GrantBatchUriPermissionImpl_defined env s us fl from target ab :
  env_ok env → is_ret (GrantBatchUriPermissionImpl env s us fl from target ab).
Proof.
  intros [_ Hl]. unfold GrantBatchUriPermissionImpl. destruct (storageManager_ _) as [mgr|]; [|by eexists].
  specialize (Hl mgr us target fl). destruct (CreateShareFile _ _ _ _ _) as [|r rs]; [by eexists|].
  destruct (negb _); [by eexists|]. destruct (batch_loop _ _ _ _ _ _ _ _) as [s1 n].
  destruct (n =? 0)%nat; [by eexists|]. by destruct (events_defined env from target _ _ Hl) as [acts ->]; eexists.
Qed.

Lemma GrantUriPermissionInner_defined env s uriVec fl bundle idx init ab :
  env_ok env → is_ret (GrantUriPermissionInner env s uriVec fl bundle idx init ab).
Proof.
  intros He. unfold GrantUriPermissionInner.
  destruct (GetTokenIdByBundleName _ _ _) as [ret target]. destruct (negb _); [by eexists|].
  destruct (if IsFoundationCall env then _ else _) as [rec from].
  assert (is_ret (GrantBatchUriPermission env s uriVec (Z.land fl FLAG_READ_WRITE_URI) from target rec)) as Hb.
  { unfold GrantBatchUriPermission. destruct (share_loop _ _ _ _ _ _ _) as [[|u us] f]; [by eexists|].
    by edestruct GrantBatchUriPermissionImpl_defined as [[[r s1] a] ->]; [done|]; eexists. }
  destruct uriVec as [|u1 [|u2 l]]; try exact Hb. unfold GrantSingleUriPermission.
  destruct (negb _); [by eexists|]. destruct (CheckUriPermission _ _ _ _ _) as [b p].
  destruct (negb b); [by eexists|]. by apply GrantUriPermissionImpl_defined.
Qed.

Lemma split_2in1_defined env uriVec fl docs other :
  is_ret (uninit_mode env) → is_ret (split_2in1 env uriVec fl docs other).
Proof.
  intros [m Hm]. revert docs other. induction uriVec as [|u l IH]; intros docs other; cbn [split_2in1];
    [by eexists|]. rewrite Hm. cbn [obind]. repeat case_match; apply IH.
Qed.

Lemma GrantUriPermission_vec_defined env s uriVec fl bundle idx init ab :
  env_ok env → is_ret (GrantUriPermission_vec env s uriVec fl bundle idx init ab).
Proof.
  intros He. unfold GrantUriPermission_vec. destruct (negb _); [by eexists|].
  destruct (CheckCalledBySandBox env s) as [ret s1]. destruct (negb _); [by eexists|].
  destruct (negb _); [by eexists|]. destruct (IsGrantPersistUriPermission env s1) as [[|] s2];
    [|by apply GrantUriPermissionInner_defined].
  unfold GrantUriPermissionFor2In1Inner.
  destruct (split_2in1_defined env uriVec fl [] [] (proj1 He)) as [[docs other] ->]. cbn [obind].
  destruct (GetTokenIdByBundleName env bundle idx) as [r t].
  destruct other as [|x other]; [destruct (negb _); by eexists|].
  edestruct GrantUriPermissionInner_defined as [[[r1 s3] a] ->]; [done|]. cbn [obind].
  destruct docs; [by eexists|]. destruct (negb _); by eexists.
Qed.

Lemma GrantUriPermissionPrivileged_defined env s uriVec fl bundle idx :
  env_ok env → is_ret (GrantUriPermissionPrivileged env s uriVec fl bundle idx).
Proof.
  intros He. unfold GrantUriPermissionPrivileged. destruct (negb _); [by eexists|].
  destruct (negb _); [by eexists|]. destruct (GetTokenIdByBundleName _ _ _) as [ret target].
  destruct (negb _); [by eexists|]. destruct (IsGrantPersistUriPermission env s) as [[|] s2].
  - unfold GrantBatchUriPermissionFor2In1Privileged. destruct (ToString <$> _) as [|u us].
    { case_match; by eexists. }
    edestruct GrantBatchUriPermissionImpl_defined as [[[r s1] a] ->]; [done|]. cbn [obind].
    case_match; by eexists.
  - unfold GrantBatchUriPermissionPrivileged. destruct (ToString <$> _) as [|u us]; [by eexists|].
    by apply GrantBatchUriPermissionImpl_defined.
Qed.

Lemma run_uri_call_defined env s c : env_ok env → is_ret (run_uri_call env s c).
Proof.
  intros He. destruct c as [uri fl bundle idx init ab|uriVec fl bundle idx init ab|uriVec fl bundle idx| | |];
    cbn [run_uri_call]; try (by eexists).
  - unfold GrantUriPermission. destruct (negb _); [by eexists|].
    by edestruct GrantUriPermission_vec_defined as [[[r s1] a] ->]; [done|]; eexists.
  - by edestruct GrantUriPermission_vec_defined as [[[r s1] a] ->]; [done|]; eexists.
  - by edestruct GrantUriPermissionPrivileged_defined as [[[r s1] a] ->]; [done|]; eexists.
Qed.

Lemma run_uri_calls_defined s cs :
  Forall (λ x, env_ok x.1) cs → is_ret (run_uri_calls s cs).
Proof.
  intros H. revert s. induction H as [|[env c] cs He Hcs IH]; intros s; cbn [run_uri_calls]; [by eexists|].
  destruct (run_uri_call_defined env s c He) as [s1 ->]. apply IH.
Qed.

(** C13: Any calls, in any environments that are sound, from a service without records,
    return; afterwards every URI in the map has a record, at most one per grantor and
    receiver, each for reading, writing or both, and each record that goes with its
    abilities lists an ability; and a caller that may ask verifies an access to a URI
    with records exactly when one of them is for the token and, to write, for
    writing. *)
Theorem uri_records_ok (s0 : UriPermMgr) (cs : list (UriEnv * UriCall)) :
  uriMap_ s0 = ∅ → Forall (λ x, env_ok x.1) cs →
  ∃ s, run_uri_calls s0 cs = Ret s ∧ map_ok (uriMap_ s) ∧
  ∀ env uri fl tokenId, is_Some (uriMap_ s !! ToString uri) → IsSAOrSystemAppCall env = true →
    has fl FLAG_READ_WRITE_URI = true →
    (VerifyUriPermission env s uri fl tokenId = true ↔
     right (uriMap_ s) (ToString uri) tokenId (has fl FLAG_WRITE_URI)).
Proof.
  intros H0 He. destruct (run_uri_calls_defined s0 cs He) as [s Hr]. exists s. split; [done|].
  split; [eapply run_uri_calls_ok; [exact Hr|rewrite H0; apply map_Forall_empty]|].
  intros env uri fl tokenId [l Hl] Hc Hf. unfold VerifyUriPermission. rewrite Hc, Hf, Hl.
  cbn [negb]. rewrite verify_loop_allows. unfold right. rewrite Hl. naive_solver.
Qed.
End Whole.

(** ** A concrete device

    Three applications, of which the second may act as a proxy; the foundation calls. *)

Module Demo.

Definition before (c s : string) : string :=
  match String.index 0 c s with Some n => String.substring 0 n s | None => s end.
Definition after (pat s : string) : string :=
  match String.index 0 pat s with
  | Some n => String.substring (n + String.length pat) (String.length s) s
  | None => ""
  end.

#[local] Instance demo_uri : UriLib := {|
  Uri := string;
  Uri_of u := u;
  ToString u := u;
  GetScheme u := before ":" u;
  GetAuthority u := before "/" (after "://" u);
  GetPath u := "/" +:+ after "/" (after "://" u);
|}.

Definition demo_caller : CallEnv := {|
  CallingTokenID := 10;
  CallingFullTokenID := 10;
  CallingPid := 100;
  GetTokenTypeFlag t := if (t =? 10)%Z then TOKEN_NATIVE else TOKEN_HAP;
  GetNativeTokenInfo t := Some "foundation";
  GetHapTokenInfo t := Some "com.example";
  VerifyAccessToken t p := (t =? 2)%Z && String.eqb p PERMISSION_PROXY_AUTHORIZATION_URI;
  IsSystemAppByFullTokenID t := false;
  GetParameter _ d := d;
|}.

Definition demo_bundles : BundleMgr := {|
  GetBundleInfo b _ := if String.eqb b "com.a" then Some 1%Z else if String.eqb b "com.b" then Some 2%Z
                       else if String.eqb b "com.c" then Some 3%Z else None;
  GetCloneBundleInfo _ _ _ := None;
  GetSandboxBundleInfo _ _ _ := None;
  GetApplicationInfo _ _ := None;
|}.

Definition demo_env (persist : bool) (mode : outcome Z) : UriEnv := {|
  caller := demo_caller;
  bundleMgr := Some demo_bundles;
  QueryActiveOsAccountIds := Some [100%Z];
  appMgrService := Some 7%Z;
  storageService := Some 8%Z;
  JudgeSandboxByPid _ _ := (0%Z, false);
  CreateShareFile _ us _ _ := (λ _, 0%Z) <$> us;
  storage_DeleteShareFile _ _ _ := 0%Z;
  GRANT_PERSIST_URI_PERMISSION := persist;
  uninit_mode := mode;
|}.

Definition phone : UriEnv := demo_env false (Ret 0%Z).
Definition no_records : UriPermMgr := mkUriPermMgr ∅ None None (false, false).
Definition photo : Uri := "file://com.a/photo".

Lemma phone_ok : env_ok phone.
Proof. split; [by eexists|]. intros mgr us t f. cbn. by rewrite length_fmap. Qed.

(** The owner shares with [com.b] and [com.c], and [com.b] with [com.c], each for the
    ability 5 of [com.c]. *)
Definition shares : list (UriEnv * UriCall) :=
  [(phone, CallGrant photo 1 "com.b" 0 1 4);
   (phone, CallGrant photo 3 "com.c" 0 1 5);
   (phone, CallGrantVec [photo; "http://x"; "file://com.a/text"] 1 "com.c" 0 2 5)].

Lemma uri_records_ok_witness :
  ∃ s, run_uri_calls no_records (shares ++ [(phone, CallRevoke 2 4)]) = Ret s ∧ map_ok (uriMap_ s).
Proof.
  destruct (uri_records_ok no_records (shares ++ [(phone, CallRevoke 2 4)])) as (s & Hs & Hm & _).
  - reflexivity.
  - repeat constructor; apply phone_ok.
  - exists s. split; [exact Hs|exact Hm].
Defined.

Definition after_shares : UriPermMgr :=
  match run_uri_calls no_records shares with Ret s => s | Undef => no_records end.

Definition shared_once : UriPermMgr :=
  match run_uri_calls no_records (take 1 shares) with Ret s => s | Undef => no_records end.

(** [com.c] may write the photo: the owner shared it. *)
Lemma no_amplification_witness :
  ∃ d, covers d (ToString photo) ∧
  ∃ pre env c post s1, shares = pre ++ (env, c) :: post ∧ run_uri_calls no_records pre = Ret s1 ∧
    authorised env s1 c d 3 true.
Proof.
  refine (no_amplification no_records after_shares shares phone photo 2 3 _ _ _).
  - reflexivity.
  - vm_compute. reflexivity.
  - vm_compute. reflexivity.
Defined.

(** The ability 4 of [com.b] ends. *)
Lemma RevokeUriPermission_ends_witness :
  uriMap_ (RevokeUriPermission phone after_shares 2 4).1 !! (photo : string) =
    uriMap_ after_shares !! (photo : string) ≫= λ l, nonempty (end_ability 2 4 l).
Proof.
  pose proof (RevokeUriPermission_ends phone after_shares 2 4) as H.
  destruct (RevokeUriPermission phone after_shares 2 4) as [s' acts]. apply H.
  assert (map_Forall (λ _ l, (length (filter (λ g, holds 2 4 g = true) l) ≤ 1)%nat) (uriMap_ after_shares)) as Hm.
  { apply map_Forall_to_list. vm_compute. repeat constructor. }
  exact Hm.
Defined.

(** The ability 5 of [com.c] ends: its application had two records for the URI, from
    two grantors. The loop stops after the first, so that the second stays and the URI
    is verified for an ability that is gone. *)
Theorem second_grantor_survives :
  let s := (RevokeUriPermission phone after_shares 3 5).1 in
  VerifyUriPermission phone s photo 1 3 = true ∧
  fromTokenId <$> filter (λ g, holds 3 5 g = true) (default [] (uriMap_ s !! (photo : string))) = [2%Z].
Proof. split; vm_compute; reflexivity. Qed.

(** A directory of another device is granted to token 1 and a directory in it to token
    2: a file in the inner directory is verified for token 1 only. *)
Theorem inner_directory_ignored :
  let s := mkUriPermMgr (<["file://docs/a?networkid=x" := [mkGrantInfo 3 9 1 false ∅]]>
             (<["file://docs/a/b?networkid=x" := [mkGrantInfo 3 9 2 false ∅]]> ∅)) None None (true, false) in
  VerifyUriPermission phone s "file://docs/a/b/c?networkid=x" 1 1 = true ∧
  VerifyUriPermission phone s "file://docs/a/b/c?networkid=x" 1 2 = false.
Proof. split; vm_compute; reflexivity. Qed.

(** A directory of another device is granted to token 1, for good, and the directory around
    it to token 2, for an ability. A file in the inner directory is not verified for token
    1, until that ability ends. *)
Theorem revocation_uncovers :
  let file := "file://docs/a/b/c?networkid=x" in
  let s := mkUriPermMgr (<["file://docs/a?networkid=x" := [mkGrantInfo 3 9 2 true {[5%Z]}]]>
             (<["file://docs/a/b?networkid=x" := [mkGrantInfo 3 9 1 false ∅]]> ∅)) None None (true, false) in
  VerifyUriPermission phone s file 1 1 = false ∧
  VerifyUriPermission phone (RevokeUriPermission phone s 2 5).1 file 1 1 = true.
Proof. split; vm_compute; reflexivity. Qed.

(** On a device that persists permissions a grant of a document reports success, without
    any check of the grantor, records nothing and is not verified afterwards. *)
Theorem docs_grant_unrecorded :
  ∃ s acts,
    GrantUriPermission (demo_env true (Ret 0%Z)) no_records "file://docs/report" 1 "com.c" 0 2 5 =
      Ret (ERR_OK, s, acts) ∧
    uriMap_ s = ∅ ∧ may_share phone no_records "file://docs/report" 1 2 = false ∧
    VerifyUriPermission phone s "file://docs/report" 1 3 = false.
Proof. do 2 eexists. split; [vm_compute; reflexivity|]. split_and!; vm_compute; reflexivity. Qed.

(** On such a device a grant of any file reads the uninitialized mode of a policy. *)
Theorem uninitialized_mode_read :
  GrantUriPermission (demo_env true Undef) no_records photo 1 "com.c" 0 1 5 = Undef.
Proof. vm_compute. reflexivity. Qed.

End Demo.
