(* ===== verification/CallContainer.v ===== *)
(** * Abilities started by call

    [services/abilitymgr/src/call_record.cpp] and [call_container.cpp]: the clients
    that called an ability and wait for its stub or hold it, with the calls of
    [ability_record.cpp] that use them and those of [mission_list_manager.cpp] that end
    a call.

    Call records are shared objects in one heap; a record lives while a container or a
    posted task refers to it. Remote objects and connections are numbers; whether a
    remote object accepts a death recipient is a parameter. What is told to clients is
    posted to the task handler. *)

From stdpp Require Import prelude gmap strings list sorting.
From Stdlib Require Import ZArith Lia.
From S2P Require Import Prelude.

(** ** Data *)

Inductive CallState := INIT | REQUESTING | REQUESTED.
#[global] Instance CallState_eq_dec : EqDecision CallState.
Proof. solve_decision. Defined.

Inductive ResolveResultType := OK_NO_REMOTE_OBJ | OK_HAS_REMOTE_OBJ | NG_INNER_ERROR.
#[global] Instance ResolveResultType_eq_dec : EqDecision ResolveResultType.
Proof. solve_decision. Defined.

Definition CALL_REQUEST_TYPE : Z := 1.
Definition ERR_OK : Z := 0.
Definition ERR_INVALID_VALUE : Z := 22.
Definition RELEASE_CALL_ABILITY_INNER_ERR : Z := 2097190.

Abbreviation Rec := positive.
Abbreviation Abi := positive.

(** A [sptr<IAbilityConnection>]: the proxy, and the remote object behind it. *)
Record Connection := mkConnection { conn_proxy : Z; AsObject : option Z }.
#[global] Instance Connection_eq_dec : EqDecision Connection.
Proof. solve_decision. Defined.

Record CallRecord := mkCallRecord {
  recordId_ : Z;
  callerUid_ : Z;
  state_ : CallState;
  callRemoteObject_ : option Z;
  callDeathRecipient_ : bool;
  service_ : Abi;
  connCallback_ : option Connection;
  callerToken_ : option Z;
  startTime_ : Z;
}.
#[global] Instance reconstruct_CallRecord : Reconstruct CallRecord := λ r,
  mkCallRecord (recordId_ r) (callerUid_ r) (state_ r) (callRemoteObject_ r) (callDeathRecipient_ r)
    (service_ r) (connCallback_ r) (callerToken_ r) (startTime_ r).

(** The records of an ability by remote object; [AddCallRecord] refuses null ones. The
    death recipients of the connections are all the same. *)
Record CallContainer := mkCallContainer {
  callRecordMap_ : gmap Z Rec;
  deathRecipientMap_ : gset Z;
}.
#[global] Instance reconstruct_CallContainer : Reconstruct CallContainer := λ c,
  mkCallContainer (callRecordMap_ c) (deathRecipientMap_ c).

Record ElementName := mkElementName {
  deviceId : string;
  bundleName : string;
  abilityName : string;
  moduleName : string;
}.
#[global] Instance ElementName_eq_dec : EqDecision ElementName.
Proof. solve_decision. Defined.

(** What the calls use of an ability record; [scheduler_] is whether there is one. *)
Record AbilityRecord := mkAbilityRecord {
  element : ElementName;
  launchMode : Z;
  isReady_ : bool;
  scheduler_ : bool;
  callContainer_ : option CallContainer;
}.
#[global] Instance reconstruct_AbilityRecord : Reconstruct AbilityRecord := λ a,
  mkAbilityRecord (element a) (launchMode a) (isReady_ a) (scheduler_ a) (callContainer_ a).

(** The lists of the mission list manager, null or with the ability records of their
    missions. *)
Record MissionLists := mkMissionLists {
  currentMissionLists_ : list (option (list (option Abi)));
  launcherList_ : option (list (option Abi));
  defaultStandardList_ : option (list (option Abi));
  defaultSingleList_ : option (list (option Abi));
}.

(** Who hears of the death of a remote object. *)
Inductive Recipient :=
| ConnectRecipient (a : Abi)
| StubRecipient (r : Rec).
#[global] Instance Recipient_eq_dec : EqDecision Recipient.
Proof. solve_decision. Defined.

(** What is posted to the task handler of the ability manager. *)
Inductive CallJob :=
| OnAbilityConnectDone (c : Connection) (elem : ElementName) (remoteObject mode : Z)
| OnAbilityDisconnectDone (c : Connection) (elem : ElementName) (resultCode : Z)
| CallConnectDied (r : option Rec).
#[global] Instance CallJob_eq_dec : EqDecision CallJob.
Proof. solve_decision. Defined.

(** [requests] counts the [CallRequest]s sent to the schedulers of abilities. *)
Record CallWorld := mkCallWorld {
  callRecords : gmap Rec CallRecord;
  fresh_rec : Rec;
  callRecordId : Z;
  abilities : gmap Abi AbilityRecord;
  recipients : gmap Z (list Recipient);
  posted : list CallJob;
  requests : list Abi;
  missionLists : MissionLists;
  taskHandler : bool;
}.
#[global] Instance reconstruct_CallWorld : Reconstruct CallWorld := λ w,
  mkCallWorld (callRecords w) (fresh_rec w) (callRecordId w) (abilities w) (recipients w) (posted w)
    (requests w) (missionLists w) (taskHandler w).

Section Calls.
(** A remote object takes a death recipient unless it is dead. *)
Variable accepts : Z → bool.
Implicit Types (w : CallWorld) (r : Rec) (a : Abi) (c : Connection) (o : Z).

(** ** Remote objects and the heap *)

Definition AddDeathRecipient w o (x : Recipient) : CallWorld :=
  if accepts o then w <| recipients ::= λ m, <[o := default [] (m !! o) ++ [x]]> m |> else w.

Definition RemoveDeathRecipient w o (x : Recipient) : CallWorld :=
  w <| recipients ::= λ m, <[o := filter (λ y, y ≠ x) (default [] (m !! o))]> m |>.

Definition set_record w r (f : CallRecord → CallRecord) : CallWorld :=
  w <| callRecords ::= alter f r |>.
Definition set_container w a (k : CallContainer) : CallWorld :=
  w <| abilities ::= alter (λ x, x <| callContainer_ := Some k |>) a |>.

Definition SubmitTask w (j : CallJob) : CallWorld := w <| posted ::= λ l, l ++ [j] |>.

(** Some container or posted task holds the record. *)
Definition referenced w r : bool :=
  bool_decide (CallConnectDied (Some r) ∈ posted w) ||
  existsb (λ x : Abi * AbilityRecord,
    match callContainer_ x.2 with
    | Some k => bool_decide (r ∈ (map_to_list (callRecordMap_ k)).*2)
    | None => false
    end) (map_to_list (abilities w)).

(** The last reference to a record goes: its destructor. *)
Definition collect w r : CallWorld :=
  if referenced w r then w
  else match callRecords w !! r with
       | None => w
       | Some rec =>
           let w := match callRemoteObject_ rec with
                    | Some o => if callDeathRecipient_ rec then RemoveDeathRecipient w o (StubRecipient r) else w
                    | None => w
                    end in
           w <| callRecords ::= delete r |>
       end.

(** ** [CallRecord] *)

Definition CreateCallRecord w (callerUid : Z) a c (callToken : option Z) (now : Z) : CallWorld * Rec :=
  let r := fresh_rec w in
  let rec := mkCallRecord (i32 (callRecordId w)) callerUid INIT None false a (Some c) callToken now in
  (w <| callRecords ::= <[r := rec <| state_ := INIT |>]> |> <| fresh_rec := Pos.succ r |>
     <| callRecordId ::= Z.succ |>, r).

Definition SetCallStub w r o : CallWorld :=
  match callRecords w !! r with
  | None => w
  | Some rec =>
      match callRemoteObject_ rec with
      | Some _ => w
      | None =>
          let w := set_record w r (λ x, x <| callRemoteObject_ := Some o |> <| callDeathRecipient_ := true |>) in
          AddDeathRecipient w o (StubRecipient r)
      end
  end.

Definition GetCallStub w r : option Z := callRecords w !! r ≫= callRemoteObject_.
Definition SetConCallBack w r c : CallWorld := set_record w r (λ x, x <| connCallback_ := Some c |>).
Definition GetConCallBack w r : option Connection := callRecords w !! r ≫= connCallback_.
Definition IsCallState w r (st : CallState) : bool := bool_decide (state_ <$> callRecords w !! r = Some st).
Definition SetCallState w r (st : CallState) : CallWorld := set_record w r (λ x, x <| state_ := st |>).
Definition GetTargetServiceName w r : ElementName :=
  match callRecords w !! r ≫= λ rec, abilities w !! service_ rec with
  | Some x => element x
  | None => mkElementName "" "" "" ""
  end.

Definition SchedulerConnectDone w r : bool * CallWorld :=
  match callRecords w !! r with
  | None => (false, w)
  | Some rec =>
      match callRemoteObject_ rec, connCallback_ rec, abilities w !! service_ rec with
      | Some remoteObject, Some callback, Some tmpService =>
          if negb (taskHandler w) then (false, w)
          else
            let w := SubmitTask w (OnAbilityConnectDone callback (element tmpService) remoteObject
                                     (launchMode tmpService)) in
            (true, SetCallState w r REQUESTED)
      | _, _, _ => (false, w)
      end
  end.

Definition SchedulerDisconnectDone w r : bool * CallWorld :=
  match callRecords w !! r with
  | None => (false, w)
  | Some rec =>
      match connCallback_ rec, abilities w !! service_ rec with
      | Some callback, Some tmpService =>
          if negb (taskHandler w) then (false, w)
          else (true, SubmitTask w (OnAbilityDisconnectDone callback (element tmpService) ERR_OK))
      | _, _ => (false, w)
      end
  end.

(** The recipient holds a weak pointer, which is null after the destructor. *)
Definition OnCallStubDied w r : CallWorld :=
  match callRecords w !! r with
  | None => w
  | Some _ => if taskHandler w then SubmitTask w (CallConnectDied (Some r)) else w
  end.

(** ** [CallContainer], of the ability [a] *)

Definition container w a : option CallContainer := abilities w !! a ≫= callContainer_.

Definition AddConnectDeathRecipient w a (connect : option Connection) : CallWorld :=
  match connect ≫= AsObject, container w a with
  | Some o, Some k =>
      if bool_decide (o ∈ deathRecipientMap_ k) then w
      else
        let w := AddDeathRecipient w o (ConnectRecipient a) in
        set_container w a (k <| deathRecipientMap_ ::= λ S, {[o]} ∪ S |>)
  | _, _ => w
  end.

Definition RemoveConnectDeathRecipient w a (connect : option Connection) : CallWorld :=
  match connect ≫= AsObject, container w a with
  | Some o, Some k =>
      if bool_decide (o ∈ deathRecipientMap_ k) then
        let w := RemoveDeathRecipient w o (ConnectRecipient a) in
        set_container w a (k <| deathRecipientMap_ ::= λ S, S ∖ {[o]} |>)
      else w
  | _, _ => w
  end.

(** [callRecordMap_.erase], after which the record may be destroyed. *)
Definition erase_record w a o : CallWorld :=
  match container w a with
  | Some k => set_container w a (k <| callRecordMap_ ::= delete o |>)
  | None => w
  end.

Definition emplace_record w a o r : CallWorld :=
  match container w a with
  | Some k => set_container w a (k <| callRecordMap_ ::= <[o := r]> |>)
  | None => w
  end.

Definition AddCallRecord w a (connect : option Connection) r : CallWorld :=
  match connect with
  | None => w
  | Some c =>
      match AsObject c, container w a with
      | Some o, Some k =>
          let '(w, old) :=
            match callRecordMap_ k !! o with
            | Some r0 => (erase_record (RemoveConnectDeathRecipient w a connect) a o, Some r0)
            | None => (w, None)
            end in
          let w := AddConnectDeathRecipient w a connect in
          let w := SetConCallBack w r c in
          let w := emplace_record w a o r in
          match old with Some r0 => collect w r0 | None => w end
      | _, _ => w
      end
  end.

Definition GetCallRecord w a (connect : option Connection) : option Rec :=
  match connect ≫= AsObject, container w a with
  | Some o, Some k => callRecordMap_ k !! o
  | _, _ => None
  end.

Definition RemoveCallRecord w a (connect : option Connection) : bool * CallWorld :=
  match connect ≫= AsObject, container w a with
  | Some o, Some k =>
      match callRecordMap_ k !! o with
      | Some callrecord =>
          let '(_, w) := SchedulerDisconnectDone w callrecord in
          let w := RemoveConnectDeathRecipient w a connect in
          let w := erase_record w a o in
          (true, collect w callrecord)
      | None => (false, w)
      end
  | _, _ => (false, w)
  end.

Definition OnConnectionDied w a o : CallWorld :=
  match container w a with
  | None => w
  | Some k =>
      let callRecord := callRecordMap_ k !! o in
      if taskHandler w then SubmitTask w (CallConnectDied callRecord) else w
  end.

(** The loop of [CallRequestDone] over the records, in the order of the map. *)
Fixpoint request_done_loop w (l : list (Z * Rec)) (callStub : Z) : CallWorld :=
  match l with
  | [] => w
  | (_, r) :: l =>
      let w := if IsCallState w r REQUESTING
               then (SchedulerConnectDone (SetCallStub w r callStub) r).2 else w in
      request_done_loop w l callStub
  end.

Definition Container_CallRequestDone w a (callStub : option Z) : bool * CallWorld :=
  match callStub, container w a with
  | Some o, Some k => (true, request_done_loop w (map_iter (callRecordMap_ k)) o)
  | _, _ => (false, w)
  end.

Definition Container_IsNeedToCallRequest w (k : CallContainer) : bool :=
  existsb (λ x : Z * Rec, negb (IsCallState w x.2 REQUESTED)) (map_iter (callRecordMap_ k)).

(** [connect->AsObject()] of a null connection is undefined. *)
Definition Container_IsExistConnection (k : CallContainer) (connect : option Connection) : outcome bool :=
  let* c := deref connect in
  Ret (match AsObject c with Some o => bool_decide (is_Some (callRecordMap_ k !! o)) | None => false end).

(** ** [AbilityRecord] *)

Record CallRequestInfo := mkCallRequestInfo {
  callType : Z;
  connect : option Connection;
  callerUid : Z;
  callerToken : option Z;
}.

Definition Resolve w a (req : CallRequestInfo) (now : Z) : ResolveResultType * CallWorld :=
  match connect req with
  | None => (NG_INNER_ERROR, w)
  | Some callback =>
      if negb (callType req =? CALL_REQUEST_TYPE)%Z then (NG_INNER_ERROR, w)
      else
        let w := match container w a with
                 | Some _ => w
                 | None => set_container w a (mkCallContainer ∅ ∅)
                 end in
        let '(w, r) :=
          match GetCallRecord w a (Some callback) with
          | Some r => (w, r)
          | None => CreateCallRecord w (callerUid req) a callback (callerToken req) now
          end in
        let w := AddCallRecord w a (Some callback) r in
        if IsCallState w r REQUESTED && bool_decide (is_Some (GetCallStub w r)) then
          let '(ok, w) := SchedulerConnectDone w r in
          (if ok then OK_HAS_REMOTE_OBJ else NG_INNER_ERROR, collect w r)
        else (OK_NO_REMOTE_OBJ, collect (SetCallState w r REQUESTING) r)
  end.

Definition ReleaseCall w a (connect : option Connection) : bool * CallWorld :=
  match container w a with
  | None => (false, w)
  | Some _ => RemoveCallRecord w a connect
  end.

Definition IsExistConnection w a (connect : option Connection) : outcome bool :=
  match container w a with
  | None => Ret false
  | Some k => Container_IsExistConnection k connect
  end.

Definition IsNeedToCallRequest w a : bool :=
  match container w a with
  | None => false
  | Some k => Container_IsNeedToCallRequest w k
  end.

Definition IsReady w a : bool := default false (isReady_ <$> abilities w !! a).
Definition CallRequest w a : CallWorld :=
  if default false (scheduler_ <$> abilities w !! a) then w <| requests ::= λ l, l ++ [a] |> else w.

Definition CallRequestDone w a (callStub : option Z) : bool * CallWorld :=
  match container w a with
  | None => (false, w)
  | Some _ => Container_CallRequestDone w a callStub
  end.

(** ** [MissionListManager] *)

(** Element names are compared by the bundle framework. *)
Variable same_element : ElementName → ElementName → bool.

(** [MissionList::GetAbilityRecordsByName]: the records it appends. *)
Definition List_GetAbilityRecordsByName w (l : list (option Abi)) (elem : ElementName) : list Abi :=
  omap (λ p, a ← p; x ← abilities w !! a;
    let e := element x in
    if same_element e elem || same_element (mkElementName (deviceId e) (bundleName e) (abilityName e) "") elem
    then Some a else None) l.

Definition in_list w (l : option (list (option Abi))) (elem : ElementName) : list Abi :=
  match l with Some l => List_GetAbilityRecordsByName w l elem | None => [] end.

Definition GetAbilityRecordsByName w (elem : ElementName) : list Abi :=
  let ml := missionLists w in
  let records := (currentMissionLists_ ml ≫= λ l, in_list w l elem) ++
    in_list w (launcherList_ ml) elem ++ in_list w (defaultStandardList_ ml) elem in
  match records with
  | [] => in_list w (defaultSingleList_ ml) elem
  | _ => records
  end.

Fixpoint find_connection w (l : list Abi) (connect : option Connection) : outcome (option Abi) :=
  match l with
  | [] => Ret None
  | a :: l =>
      let* b := IsExistConnection w a connect in
      if b then Ret (Some a) else find_connection w l connect
  end.

Definition ResolveAbility w (targetAbility : option Abi) (req : CallRequestInfo) (now : Z)
    : ResolveResultType * CallWorld :=
  match targetAbility with
  | None => (NG_INNER_ERROR, w)
  | Some a =>
      match Resolve w a req now with
      | (NG_INNER_ERROR, w) => (NG_INNER_ERROR, w)
      | (OK_HAS_REMOTE_OBJ, w) => (OK_HAS_REMOTE_OBJ, w)
      | (OK_NO_REMOTE_OBJ, w) =>
          if IsReady w a then (OK_HAS_REMOTE_OBJ, CallRequest w a) else (OK_NO_REMOTE_OBJ, w)
      end
  end.

Definition ReleaseCallLocked w (connect : option Connection) (elem : ElementName) : outcome (Z * CallWorld) :=
  match connect ≫= AsObject with
  | None => Ret (ERR_INVALID_VALUE, w)
  | Some _ =>
      let* found := find_connection w (GetAbilityRecordsByName w elem) connect in
      match found with
      | None => Ret (RELEASE_CALL_ABILITY_INNER_ERR, w)
      | Some a =>
          let '(ok, w) := ReleaseCall w a connect in
          Ret (if ok then ERR_OK else RELEASE_CALL_ABILITY_INNER_ERR, w)
      end
  end.

Definition OnCallConnectDied w (callRecord : option Rec) : outcome CallWorld :=
  match callRecord with
  | None => Ret w
  | Some r =>
      let elem := GetTargetServiceName w r in
      let connect := GetConCallBack w r in
      let* found := find_connection w (GetAbilityRecordsByName w elem) connect in
      match found with
      | None => Ret w
      | Some a => Ret (ReleaseCall w a connect).2
      end
  end.

(** The task handler runs its first task; the closure then goes with what it holds. *)
Definition RunFirst w : outcome CallWorld :=
  match posted w with
  | [] => Ret w
  | CallConnectDied x :: l =>
      let* w := OnCallConnectDied w x in
      let w := w <| posted ::= tail |> in
      Ret (match x with Some r => collect w r | None => w end)
  | _ :: l => Ret (w <| posted := l |>)
  end.

(** The ability record is destroyed, and its container with it. *)
Definition DestroyAbility w a : CallWorld :=
  match abilities w !! a with
  | None => w
  | Some x =>
      match callContainer_ x with
      | None => w <| abilities ::= delete a |>
      | Some k =>
          let w := foldl (λ w o, RemoveDeathRecipient w o (ConnectRecipient a)) w (elements (deathRecipientMap_ k)) in
          let w := w <| abilities ::= delete a |> in
          foldl collect w (map_iter (callRecordMap_ k)).*2
      end
  end.

(** A remote object dies: its recipients are told. *)
Fixpoint tell w (l : list Recipient) o : CallWorld :=
  match l with
  | [] => w
  | ConnectRecipient a :: l => tell (OnConnectionDied w a o) l o
  | StubRecipient r :: l => tell (OnCallStubDied w r) l o
  end.

Definition RemoteDied w o : CallWorld :=
  tell (w <| recipients ::= delete o |>) (default [] (recipients w !! o)) o.

End Calls.
