(* ===== verification/CallTheorems.v ===== *)
(** * Theorems on abilities started by call

    An abstract specification of the clients of an ability, the invariant of the
    containers and records, and that the code implements the specification. *)

From stdpp Require Import prelude gmap strings list sorting.
From Stdlib Require Import ZArith Lia.
From S2P Require Import Prelude CallContainer.

Implicit Types (w : CallWorld) (r : Rec) (a : Abi) (c : Connection) (o : Z) (k : CallContainer)
  (recs : gmap Rec CallRecord).

(** ** The specification: a client waits for the stub of the ability or holds it *)

Inductive Phase :=
| Waiting (c : Connection)
| Connected (c : Connection) (stub : Z).

Definition phase_conn (p : Phase) : Connection := match p with Waiting c | Connected c _ => c end.

Definition spec_resolve (m : gmap Z Phase) o c (elem : ElementName) (mode : Z)
  : ResolveResultType * gmap Z Phase * list CallJob :=
  match m !! o with
  | Some (Connected _ s) =>
      (OK_HAS_REMOTE_OBJ, <[o := Connected c s]> m, [OnAbilityConnectDone c elem s mode])
  | _ => (OK_NO_REMOTE_OBJ, <[o := Waiting c]> m, [])
  end.

Definition receive (s : Z) (p : Phase) : Phase :=
  match p with Waiting c => Connected c s | Connected c s' => Connected c s' end.

Definition spec_done (m : gmap Z Phase) (s : Z) (elem : ElementName) (mode : Z)
  : gmap Z Phase * list CallJob :=
  (receive s <$> m,
   omap (λ x : Z * Phase, match x.2 with Waiting c => Some (OnAbilityConnectDone c elem s mode)
                          | Connected _ _ => None end) (map_iter m)).

Definition spec_release (m : gmap Z Phase) o (elem : ElementName) : bool * gmap Z Phase * list CallJob :=
  match m !! o with
  | Some p => (true, delete o m, [OnAbilityDisconnectDone (phase_conn p) elem ERR_OK])
  | None => (false, m, [])
  end.

(** ** What the records say *)

Definition phase_of (rec : CallRecord) : option Phase :=
  match connCallback_ rec, state_ rec, callRemoteObject_ rec with
  | Some c, REQUESTED, Some s => Some (Connected c s)
  | Some c, REQUESTING, None => Some (Waiting c)
  | _, _, _ => None
  end.

Definition calls_in recs k : gmap Z Phase := omap (λ r, recs !! r ≫= phase_of) (callRecordMap_ k).

(** The clients of an ability. *)
Definition calls w a : gmap Z Phase :=
  match container w a with Some k => calls_in (callRecords w) k | None => ∅ end.

(** A record of the container of [a] under [o]. *)
Definition record_ok recs a o r : Prop :=
  ∃ rec p, recs !! r = Some rec ∧ service_ rec = a ∧ phase_of rec = Some p ∧
    AsObject (phase_conn p) = Some o.

Record container_ok recs a k : Prop := {
  ok_recipients : deathRecipientMap_ k = dom (callRecordMap_ k);
  ok_records : ∀ o r, callRecordMap_ k !! o = Some r → record_ok recs a o r;
}.

(** Records are numbered below the next one and have a connection, and a posted death
    holds a record. *)
Record recs_ok recs (fresh : Rec) (jobs : list CallJob) : Prop := {
  ok_fresh : ∀ r, is_Some (recs !! r) → (r < fresh)%positive;
  ok_conn : ∀ r rec, recs !! r = Some rec → is_Some (connCallback_ rec);
  ok_jobs : ∀ r, CallConnectDied (Some r) ∈ jobs → is_Some (recs !! r);
}.

Record CInv w : Prop := {
  inv_handler : taskHandler w = true;
  inv_recs : recs_ok (callRecords w) (fresh_rec w) (posted w);
  inv_containers : ∀ a k, container w a = Some k → container_ok (callRecords w) a k;
}.

(** A record lies in one container and under one object. *)
Lemma record_ok_inj recs a o r a' o' : record_ok recs a o r → record_ok recs a' o' r → a = a' ∧ o = o'.
Proof. intros (rec & p & H1 & H2 & H3 & H4) (rec' & p' & H1' & H2' & H3' & H4'). naive_solver. Qed.

(** ** Changes of one container *)

Definition statics w a : option (ElementName * Z) := (λ x, (element x, launchMode x)) <$> abilities w !! a.

(** [w'] is [w] with [k] as the container of [a], with [recs] as records and with [jobs]
    posted. *)
Record upd w w' a k recs (jobs : list CallJob) : Prop := {
  upd_container : container w' a = Some k;
  upd_others : ∀ a', a' ≠ a → container w' a' = container w a';
  upd_statics : ∀ a', statics w' a' = statics w a';
  upd_recs : callRecords w' = recs;
  upd_posted : posted w' = posted w ++ jobs;
  upd_fresh : fresh_rec w' = fresh_rec w;
  upd_handler : taskHandler w' = taskHandler w;
}.

Lemma upd_trans w w1 w2 a k1 k2 recs1 recs2 j1 j2 :
  upd w w1 a k1 recs1 j1 → upd w1 w2 a k2 recs2 j2 → upd w w2 a k2 recs2 (j1 ++ j2).
Proof.
  intros [] []. split; [done| | |done| |congruence|congruence].
  - intros a' Ha. by rewrite upd_others1, upd_others0.
  - intros a'. by rewrite upd_statics1.
  - rewrite upd_posted1, upd_posted0. by rewrite app_assoc.
Qed.

Lemma upd_refl w a k : container w a = Some k → upd w w a k (callRecords w) [].
Proof. intros H. split; try done. by rewrite app_nil_r. Qed.

(** A world that differs in the death recipients only. *)
Lemma upd_recipients w a k f : container w a = Some k → upd w (w <| recipients ::= f |>) a k (callRecords w) [].
Proof. intros H. split; try done. cbn. by rewrite app_nil_r. Qed.

Lemma upd_set_container w a k0 k :
  container w a = Some k0 → upd w (set_container w a k) a k (callRecords w) [].
Proof.
  intros H. apply bind_Some in H as (x & Hx & Hk).
  assert (∀ a', abilities (set_container w a k) !! a' =
    if decide (a' = a) then Some (x <| callContainer_ := Some k |>) else abilities w !! a') as HA.
  { intros a'. unfold set_container. case_decide as Ha.
    - subst. change (alter (λ x, x <| callContainer_ := Some k |>) a (abilities w) !! a =
        Some (x <| callContainer_ := Some k |>)). by rewrite lookup_alter_eq, Hx.
    - change (alter (λ x, x <| callContainer_ := Some k |>) a (abilities w) !! a' = abilities w !! a').
      by rewrite lookup_alter_ne. }
  split; try done.
  - unfold container. by rewrite HA, decide_True.
  - intros a' Ha. unfold container. by rewrite HA, decide_False.
  - intros a'. unfold statics. rewrite HA. case_decide; [subst; by rewrite Hx|done].
  - cbn. by rewrite app_nil_r.
Qed.

Lemma upd_set_record w a k r f :
  container w a = Some k → upd w (set_record w r f) a k (alter f r (callRecords w)) [].
Proof. intros H. split; try done. cbn. by rewrite app_nil_r. Qed.

Lemma upd_submit w a k j : container w a = Some k → upd w (SubmitTask w j) a k (callRecords w) [j].
Proof. intros H. by split. Qed.

Lemma upd_collect w a k r :
  container w a = Some k →
  upd w (collect w r) a k (if referenced w r then callRecords w else delete r (callRecords w)) [].
Proof.
  intros H. unfold collect. destruct (referenced w r); [by apply upd_refl|].
  destruct (callRecords w !! r) as [rec|] eqn:Hr.
  - destruct (callRemoteObject_ rec), (callDeathRecipient_ rec); split; try done; cbn; by rewrite app_nil_r.
  - rewrite delete_id by done. by apply upd_refl.
Qed.

Lemma referenced_in w a k o r :
  container w a = Some k → callRecordMap_ k !! o = Some r → referenced w r = true.
Proof.
  intros (x & Hx & Hk)%bind_Some Hr. unfold referenced. apply orb_true_iff. right.
  apply existsb_exists. exists (a, x). split; [by apply list_elem_of_In, elem_of_map_to_list|].
  cbn. rewrite Hk. apply bool_decide_eq_true_2, list_elem_of_fmap. exists (o, r).
  split; [done|]. by apply elem_of_map_to_list.
Qed.

(** A record that no container holds is referenced by posted tasks only. *)
Lemma referenced_posted w r :
  (∀ a k o, container w a = Some k → callRecordMap_ k !! o ≠ Some r) → referenced w r = true →
  CallConnectDied (Some r) ∈ posted w.
Proof.
  intros Hno. unfold referenced. intros [H%bool_decide_eq_true_1|H]%orb_true_iff; [done|].
  apply existsb_exists in H as ([a x] & Hin & Hx). apply list_elem_of_In, elem_of_map_to_list in Hin. cbn in Hx.
  destruct (callContainer_ x) as [k|] eqn:Hk; [|done]. apply bool_decide_eq_true_1 in Hx.
  apply list_elem_of_fmap in Hx as ([o r'] & -> & Hin'%elem_of_map_to_list).
  destruct (Hno a k o); [|done]. unfold container. by rewrite Hin.
Qed.

Lemma AddConnectDeathRecipient_upd (accepts : Z → bool) w a k c o :
  container w a = Some k → AsObject c = Some o →
  upd w (AddConnectDeathRecipient accepts w a (Some c)) a
    (k <| deathRecipientMap_ ::= λ S, {[o]} ∪ S |>) (callRecords w) [].
Proof.
  intros Hk Ho. unfold AddConnectDeathRecipient. cbn [mbind option_bind]. rewrite Ho, Hk.
  case_bool_decide as Hin.
  - assert (k <| deathRecipientMap_ ::= λ S, {[o]} ∪ S |> = k) as ->; [|by apply upd_refl].
    destruct k as [m S]. cbn in Hin. unfold assign. cbn. f_equal. set_solver.
  - assert (upd w (AddDeathRecipient accepts w o (ConnectRecipient a)) a k (callRecords w) []) as H1.
    { unfold AddDeathRecipient. destruct (accepts o); [by apply upd_recipients|by apply upd_refl]. }
    pose proof (upd_set_container _ a k (k <| deathRecipientMap_ ::= λ S, {[o]} ∪ S |>) (upd_container _ _ _ _ _ _ H1)) as H2.
    rewrite (upd_recs _ _ _ _ _ _ H1) in H2. exact (upd_trans _ _ _ _ _ _ _ _ _ _ H1 H2).
Qed.

Lemma RemoveConnectDeathRecipient_upd w a k c o :
  container w a = Some k → AsObject c = Some o →
  upd w (RemoveConnectDeathRecipient w a (Some c)) a
    (k <| deathRecipientMap_ ::= λ S, S ∖ {[o]} |>) (callRecords w) [].
Proof.
  intros Hk Ho. unfold RemoveConnectDeathRecipient. cbn [mbind option_bind]. rewrite Ho, Hk.
  case_bool_decide as Hin.
  - assert (upd w (RemoveDeathRecipient w o (ConnectRecipient a)) a k (callRecords w) []) as H1
      by by apply upd_recipients.
    pose proof (upd_set_container _ a k (k <| deathRecipientMap_ ::= λ S, S ∖ {[o]} |>) (upd_container _ _ _ _ _ _ H1)) as H2.
    rewrite (upd_recs _ _ _ _ _ _ H1) in H2. exact (upd_trans _ _ _ _ _ _ _ _ _ _ H1 H2).
  - assert (k <| deathRecipientMap_ ::= λ S, S ∖ {[o]} |> = k) as ->; [|by apply upd_refl].
    destruct k as [m S]. cbn in Hin. unfold assign. cbn. f_equal. set_solver.
Qed.

Lemma erase_record_upd w a k o :
  container w a = Some k →
  upd w (erase_record w a o) a (k <| callRecordMap_ ::= delete o |>) (callRecords w) [].
Proof. intros Hk. unfold erase_record. rewrite Hk. by eapply upd_set_container. Qed.

Lemma emplace_record_upd w a k o r :
  container w a = Some k →
  upd w (emplace_record w a o r) a (k <| callRecordMap_ ::= <[o := r]> |>) (callRecords w) [].
Proof. intros Hk. unfold emplace_record. rewrite Hk. by eapply upd_set_container. Qed.

(** Steps that post nothing, one after the other. *)
Lemma upd_step w w1 w2 a k1 k2 recs1 recs2 :
  upd w w1 a k1 recs1 [] → (container w1 a = Some k1 → callRecords w1 = recs1 → upd w1 w2 a k2 recs2 []) →
  upd w w2 a k2 recs2 [].
Proof. intros H1 H2. exact (upd_trans _ _ _ _ _ _ _ _ [] [] H1 (H2 (upd_container _ _ _ _ _ _ H1) (upd_recs _ _ _ _ _ _ H1))). Qed.

Definition with_call k o r : CallContainer :=
  mkCallContainer (<[o := r]> (callRecordMap_ k)) ({[o]} ∪ deathRecipientMap_ k).
Definition without_call k o : CallContainer :=
  mkCallContainer (delete o (callRecordMap_ k)) (deathRecipientMap_ k ∖ {[o]}).

Lemma AddCallRecord_upd (accepts : Z → bool) w a k c o r :
  container w a = Some k → AsObject c = Some o →
  callRecordMap_ k !! o = None ∨ callRecordMap_ k !! o = Some r →
  upd w (AddCallRecord accepts w a (Some c) r) a (with_call k o r)
    (alter (λ x, x <| connCallback_ := Some c |>) r (callRecords w)) [].
Proof.
  intros Hk Ho Hr. unfold AddCallRecord. rewrite Ho, Hk.
  assert (∀ w1 k1, upd w w1 a k1 (callRecords w) [] →
    <[o := r]> (callRecordMap_ k1) = <[o := r]> (callRecordMap_ k) →
    {[o]} ∪ deathRecipientMap_ k1 = {[o]} ∪ deathRecipientMap_ k →
    upd w (emplace_record (SetConCallBack (AddConnectDeathRecipient accepts w1 a (Some c)) r c) a o r) a
      (with_call k o r) (alter (λ x, x <| connCallback_ := Some c |>) r (callRecords w)) []) as Hadd.
  { intros w1 k1 H1 Hm Hd. eapply upd_step; [exact H1|]. intros Hk1 <-.
    eapply upd_step; [by apply AddConnectDeathRecipient_upd|]. intros Hk2 Hr2.
    eapply upd_step; [apply upd_set_record; exact Hk2|]. intros Hk3 Hr3.
    pose proof (emplace_record_upd _ _ _ o r Hk3) as H4. rewrite Hr3, Hr2 in H4.
    assert (k1 <| deathRecipientMap_ ::= λ S, {[o]} ∪ S |> <| callRecordMap_ ::= <[o := r]> |> = with_call k o r)
      as Heq; [|by rewrite Heq in H4].
    unfold with_call. rewrite <-Hm, <-Hd. by destruct k1. }
  destruct Hr as [Hr|Hr]; rewrite Hr.
  - by apply (Hadd w k); [apply upd_refl| |].
  - set (w2 := erase_record _ _ _).
    assert (upd w w2 a (without_call k o) (callRecords w) []) as H1.
    { eapply upd_step; [by apply RemoveConnectDeathRecipient_upd|]. intros Hk1 <-.
      pose proof (erase_record_upd _ _ _ o Hk1) as H2. by destruct k. }
    pose proof (Hadd w2 (without_call k o) H1) as H2. cbn in H2.
    rewrite insert_delete_eq in H2. specialize (H2 eq_refl).
    assert ({[o]} ∪ deathRecipientMap_ k ∖ {[o]} = {[o]} ∪ deathRecipientMap_ k) as He.
    { apply set_eq. intros z. destruct (decide (z = o)); set_solver. }
    specialize (H2 He). unfold collect.
    rewrite (referenced_in _ a (with_call k o r) o r (upd_container _ _ _ _ _ _ H2)); [done|].
    unfold with_call. cbn. by rewrite lookup_insert_eq.
Qed.

(** ** The invariant and the clients after a change *)

Lemma lookup_calls_in recs k o : calls_in recs k !! o = callRecordMap_ k !! o ≫= λ r, recs !! r ≫= phase_of.
Proof. unfold calls_in. by rewrite lookup_omap. Qed.

Lemma phase_of_conn rec p : phase_of rec = Some p → connCallback_ rec = Some (phase_conn p).
Proof. unfold phase_of. repeat case_match; intros [= <-]; done. Qed.

(** The records of the other abilities are as before. *)
Definition spares recs recs' a : Prop :=
  ∀ r rec, recs !! r = Some rec → service_ rec ≠ a → recs' !! r = Some rec.

Lemma record_ok_spares recs recs' a a' o r :
  spares recs recs' a → a' ≠ a → record_ok recs a' o r → record_ok recs' a' o r.
Proof.
  intros Hs Ha (rec & p & Hr & Hsv & ?). exists rec, p. split_and!; try tauto. apply Hs; congruence.
Qed.

Lemma CInv_upd w w' a k recs jobs :
  CInv w → upd w w' a k recs jobs → container_ok recs a k → spares (callRecords w) recs a →
  recs_ok recs (fresh_rec w) (posted w ++ jobs) → CInv w'.
Proof.
  intros [Hh Hr Hc] [U1 U2 U3 U4 U5 U6 U7] Hk Hs Hrec. split; [congruence|congruence|].
  intros a' k' Hk'. rewrite U4. destruct (decide (a' = a)) as [->|Ha].
  - rewrite U1 in Hk'. by simplify_eq.
  - rewrite U2 in Hk' by done. destruct (Hc a' k' Hk') as [H1 H2]. split; [done|].
    intros o r Hor. eapply record_ok_spares; eauto.
Qed.

Lemma calls_upd w w' a k recs jobs : upd w w' a k recs jobs → calls w' a = calls_in recs k.
Proof. intros [U1 _ _ U4 _ _ _]. unfold calls. by rewrite U1, U4. Qed.

Lemma calls_upd_other w w' a k recs jobs a' :
  CInv w → upd w w' a k recs jobs → spares (callRecords w) recs a → a' ≠ a → calls w' a' = calls w a'.
Proof.
  intros Hi [U1 U2 _ U4 _ _ _] Hs Ha. unfold calls. rewrite U2, U4 by done.
  destruct (container w a') as [k'|] eqn:Hk'; [|done]. apply map_eq. intros o. rewrite !lookup_calls_in.
  destruct (callRecordMap_ k' !! o) as [r|] eqn:Hr; [|done]. cbn.
  destruct (ok_records _ _ _ (inv_containers _ Hi a' k' Hk') o r Hr) as (rec & p & Hrec & Hsv & _).
  rewrite Hrec. by rewrite (Hs r rec Hrec) by congruence.
Qed.

(** What a step of ability [a] does, seen from the clients. *)
Record step_ok w w' a (m : gmap Z Phase) (out : list CallJob) : Prop := {
  step_inv : CInv w';
  step_calls : calls w' a = m;
  step_others : ∀ a', a' ≠ a → calls w' a' = calls w a';
  step_posted : posted w' = posted w ++ out;
  step_statics : ∀ a', statics w' a' = statics w a';
}.

Lemma recs_ok_insert recs fresh jobs out r rec rec' c :
  recs_ok recs fresh jobs → recs !! r = Some rec → connCallback_ rec' = Some c →
  (∀ x, CallConnectDied x ∉ out) → recs_ok (<[r := rec']> recs) fresh (jobs ++ out).
Proof.
  intros [Hf Hcn Hj] Hr Hc Hout. split.
  - intros r' Hr'. apply Hf. destruct (decide (r = r')) as [<-|Hne]; [by eexists|].
    by rewrite lookup_insert_ne in Hr'.
  - intros r' rec0 [[<- <-]|[_ H]]%lookup_insert_Some; [by eexists|by eapply Hcn].
  - intros r' [Hin|Hin]%elem_of_app; [|by destruct (Hout (Some r'))].
    destruct (decide (r = r')) as [<-|Hne]; [rewrite lookup_insert_eq; eauto|].
    rewrite lookup_insert_ne by done. by apply Hj.
Qed.

Lemma call_stored w w' a k o r rec rec' p out :
  CInv w → container w a = Some k → callRecords w !! r = Some rec → service_ rec = a →
  (∀ o', callRecordMap_ k !! o' = Some r → o' = o) →
  service_ rec' = a → phase_of rec' = Some p → AsObject (phase_conn p) = Some o →
  (∀ x, CallConnectDied x ∉ out) →
  upd w w' a (with_call k o r) (<[r := rec']> (callRecords w)) out →
  step_ok w w' a (<[o := p]> (calls w a)) out.
Proof.
  intros Hi Hk Hr Hsv Hone Hsv' Hp Ho Hout Hu.
  assert (spares (callRecords w) (<[r := rec']> (callRecords w)) a) as Hs.
  { intros r' rec0 H1 H2. rewrite lookup_insert_ne; [done|]. congruence. }
  assert (∀ o' r', callRecordMap_ k !! o' = Some r' → o' ≠ o → r ≠ r') as Hne by (intros; naive_solver).
  split.
  - eapply CInv_upd; [done|exact Hu| |done|].
    + destruct (inv_containers _ Hi a k Hk) as [Hd Hrs]. split; cbn.
      { rewrite dom_insert_L. by rewrite Hd. }
      intros o' r' Hr'. destruct (decide (o' = o)) as [->|Hoo].
      * rewrite lookup_insert_eq in Hr'. simplify_eq. exists rec', p. by rewrite lookup_insert_eq.
      * rewrite lookup_insert_ne in Hr' by done. destruct (Hrs o' r' Hr') as (rec0 & p0 & H0).
        exists rec0, p0. rewrite lookup_insert_ne by (by eapply Hne). done.
    + eapply recs_ok_insert; [apply (inv_recs _ Hi)|done|by apply phase_of_conn|done].
  - rewrite (calls_upd _ _ _ _ _ _ Hu). unfold calls. rewrite Hk. apply map_eq. intros o'.
    rewrite lookup_calls_in. cbn. destruct (decide (o' = o)) as [->|Hoo].
    + rewrite !lookup_insert_eq. cbn. by rewrite lookup_insert_eq.
    + rewrite !lookup_insert_ne, lookup_calls_in by done.
      destruct (callRecordMap_ k !! o') as [r'|] eqn:Hr'; [|done]. cbn.
      by rewrite lookup_insert_ne by (by eapply Hne).
  - intros a' Ha. by eapply calls_upd_other.
  - apply (upd_posted _ _ _ _ _ _ Hu).
  - apply (upd_statics _ _ _ _ _ _ Hu).
Qed.

(** ** [Resolve] *)

(** [w1] is [w] to the clients. *)
Record same_calls w w1 : Prop := {
  same_inv : CInv w1;
  same_view : ∀ a, calls w1 a = calls w a;
  same_posted : posted w1 = posted w;
  same_statics : ∀ a, statics w1 a = statics w a;
}.

Lemma step_same w w1 w' a m out : same_calls w w1 → step_ok w1 w' a m out → step_ok w w' a m out.
Proof.
  intros [_ H2 H3 H4] [S1 S2 S3 S4 S5]. split; [done|done| | |].
  - intros a' Ha. by rewrite S3, H2.
  - by rewrite S4, H3.
  - intros a'. by rewrite S5, H4.
Qed.

Lemma statics_ability w a elem mode :
  statics w a = Some (elem, mode) → ∃ x, abilities w !! a = Some x ∧ element x = elem ∧ launchMode x = mode.
Proof. unfold statics. intros (x & Hx & [= -> ->])%fmap_Some. by exists x. Qed.

(** The container exists after the first lines of [Resolve]. *)
Lemma ensure_container w a elem mode :
  CInv w → statics w a = Some (elem, mode) →
  let w1 := match container w a with
            | Some _ => w | None => set_container w a (mkCallContainer ∅ ∅) end in
  same_calls w w1 ∧ callRecords w1 = callRecords w ∧ fresh_rec w1 = fresh_rec w ∧
  ∃ k, container w1 a = Some k.
Proof.
  intros Hi (x & Hx & _)%statics_ability. destruct (container w a) as [k|] eqn:Hk.
  { split_and!; [by split|done|done|by eexists]. }
  cbv zeta. set (w1 := set_container _ _ _).
  assert (∀ a', abilities w1 !! a' =
    if decide (a' = a) then Some (x <| callContainer_ := Some (mkCallContainer ∅ ∅) |>) else abilities w !! a') as HA.
  { intros a'. change (alter (λ x, x <| callContainer_ := Some (mkCallContainer ∅ ∅) |>) a (abilities w) !! a' =
      if decide (a' = a) then Some (x <| callContainer_ := Some (mkCallContainer ∅ ∅) |>) else abilities w !! a').
    case_decide; [subst; by rewrite lookup_alter_eq, Hx|by rewrite lookup_alter_ne]. }
  assert (∀ a', container w1 a' = if decide (a' = a) then Some (mkCallContainer ∅ ∅) else container w a') as HC.
  { intros a'. unfold container. rewrite HA. by case_decide. }
  split_and!; [|done|done|by rewrite HC, decide_True; eauto]. split; [| |done|].
  - destruct Hi as [H1 H2 H3]. split; [done|done|]. intros a' k'. rewrite HC. case_decide; [|by apply H3].
    intros [= <-]. by split.
  - intros a'. unfold calls. rewrite HC. case_decide; [|done]. subst. by rewrite Hk.
  - intros a'. unfold statics. rewrite HA. case_decide; [subst; by rewrite Hx|done].
Qed.

(** A new record is in no container. *)
Lemma CreateCallRecord_same w uid a c tok now :
  CInv w →
  same_calls w (CreateCallRecord w uid a c tok now).1 ∧
  (∀ a', container (CreateCallRecord w uid a c tok now).1 a' = container w a') ∧
  ∀ a' k' o', container w a' = Some k' → callRecordMap_ k' !! o' ≠ Some (fresh_rec w).
Proof.
  intros Hi. destruct Hi as [H1 [Hf Hcn Hj] H3] eqn:Heq. clear Heq.
  assert (callRecords w !! fresh_rec w = None) as Hn.
  { apply eq_None_not_Some. intros H%Hf. lia. }
  assert (∀ r, is_Some (callRecords w !! r) → r ≠ fresh_rec w) as Hne by (intros r H ->; rewrite Hn in H; by destruct H).
  assert (∀ a' k' o', container w a' = Some k' → callRecordMap_ k' !! o' ≠ Some (fresh_rec w)) as Hin.
  { intros a' k' o' Hk Hr. destruct (ok_records _ _ _ (H3 a' k' Hk) o' _ Hr) as (rec & p & H & _). congruence. }
  split_and!; [|done|done]. cbn. split; [split; [done| |]| |done|done].
  - split.
    + intros r. destruct (decide (r = fresh_rec w)) as [->|Hr]; [intros _; cbn; lia|].
      cbn. rewrite lookup_insert_ne by done. intros H%Hf. lia.
    + cbn. intros r rec [[<- <-]|[_ H]]%lookup_insert_Some; [by eexists|by eapply Hcn].
    + intros r Hr. cbn in Hr |- *. apply Hj in Hr. rewrite lookup_insert_ne; [done|]. intros <-. by apply Hne in Hr.
  - intros a' k' Hk'. destruct (H3 a' k' Hk') as [Hd Hrs]. split; [done|]. intros o' r Hr.
    destruct (Hrs o' r Hr) as (rec & p & Hrec & Hrest). exists rec, p. cbn.
    rewrite lookup_insert_ne; [done|]. intros <-. congruence.
  - intros a'. unfold calls. cbn. change (container _ a') with (container w a').
    destruct (container w a') as [k'|] eqn:Hk'; [|done]. apply map_eq. intros o'. rewrite !lookup_calls_in.
    destruct (callRecordMap_ k' !! o') as [r|] eqn:Hr; [|done]. cbn.
    rewrite lookup_insert_ne; [done|]. intros <-. by eapply Hin.
Qed.

Section Resolve.
Variable accepts : Z → bool.

(** [Resolve] from [AddCallRecord] on. *)
Definition resolve_rest w a c r : ResolveResultType * CallWorld :=
  let w2 := AddCallRecord accepts w a (Some c) r in
  if IsCallState w2 r REQUESTED && bool_decide (is_Some (GetCallStub w2 r)) then
    let '(ok, w3) := SchedulerConnectDone w2 r in
    (if ok then OK_HAS_REMOTE_OBJ else NG_INNER_ERROR, collect w3 r)
  else (OK_NO_REMOTE_OBJ, collect (SetCallState w2 r REQUESTING) r).

(** The record is stored and the client told or left waiting. *)
Lemma resolve_tail w a k o r rec c elem mode :
  CInv w → container w a = Some k → callRecords w !! r = Some rec → service_ rec = a →
  statics w a = Some (elem, mode) → AsObject c = Some o →
  callRecordMap_ k !! o = None ∨ callRecordMap_ k !! o = Some r →
  (∀ o', callRecordMap_ k !! o' = Some r → o' = o) →
  (state_ rec = REQUESTED ↔ is_Some (callRemoteObject_ rec)) →
  let '(ret, w') := resolve_rest w a c r in
  match callRemoteObject_ rec with
  | Some s => ret = OK_HAS_REMOTE_OBJ ∧
      step_ok w w' a (<[o := Connected c s]> (calls w a)) [OnAbilityConnectDone c elem s mode]
  | None => ret = OK_NO_REMOTE_OBJ ∧ step_ok w w' a (<[o := Waiting c]> (calls w a)) []
  end.
Proof.
  intros Hi Hk Hr Hsv Hst Ho Hmap Hone Hshape. unfold resolve_rest. set (w2 := AddCallRecord _ _ _ _ _).
  pose proof (AddCallRecord_upd accepts w a k c o r Hk Ho Hmap) as H2. fold w2 in H2.
  set (rec2 := rec <| connCallback_ := Some c |>).
  assert (callRecords w2 !! r = Some rec2) as Hr2.
  { rewrite (upd_recs _ _ _ _ _ _ H2), lookup_alter_eq, Hr. done. }
  assert (∀ w3 st out, upd w2 w3 a (with_call k o r) (alter (λ x, x <| state_ := st |>) r (callRecords w2)) out →
    upd w (collect w3 r) a (with_call k o r) (<[r := rec2 <| state_ := st |>]> (callRecords w)) out) as Htail.
  { intros w3 st out H3. pose proof (upd_trans _ _ _ _ _ _ _ _ _ _ H2 H3) as H4. cbn [app] in H4.
    unfold collect. rewrite (referenced_in _ a (with_call k o r) o r (upd_container _ _ _ _ _ _ H4));
      [|unfold with_call; cbn; by rewrite lookup_insert_eq].
    rewrite (upd_recs _ _ _ _ _ _ H2) in H4. unshelve erewrite (_ : <[r := _]> _ = _); [..|exact H4].
    apply map_eq. intros r'. destruct (decide (r' = r)) as [->|Hne];
      [by rewrite !lookup_alter_eq, lookup_insert_eq, Hr|by rewrite !lookup_alter_ne, lookup_insert_ne]. }
  unfold IsCallState, GetCallStub. rewrite Hr2. cbn [fmap option_fmap option_map mbind option_bind].
  assert (callRemoteObject_ rec2 = callRemoteObject_ rec) as Hst2 by done.
  assert (state_ rec2 = state_ rec) as Hs2 by done. rewrite Hst2, Hs2.
  destruct (callRemoteObject_ rec) as [s|] eqn:Hs.
  - assert (state_ rec = REQUESTED) as Hq by (apply Hshape; by eexists). rewrite Hq.
    rewrite !bool_decide_eq_true_2 by (done || by eexists). cbn [andb].
    unfold SchedulerConnectDone. rewrite Hr2, Hst2. change (connCallback_ rec2) with (Some c).
    change (service_ rec2) with (service_ rec). rewrite Hsv.
    destruct (statics_ability w2 a elem mode) as (x & -> & -> & ->).
    { by rewrite (upd_statics _ _ _ _ _ _ H2). }
    rewrite (upd_handler _ _ _ _ _ _ H2), (inv_handler _ Hi). cbn [negb]. split; [done|].
    eapply (call_stored w _ a k o r rec (rec2 <| state_ := REQUESTED |>) (Connected c s)); try done.
    + unfold phase_of. cbn. by rewrite Hs.
    + intros y Hy. apply list_elem_of_singleton in Hy. done.
    + apply Htail. pose proof (upd_container _ _ _ _ _ _ H2) as Hk2.
      pose proof (upd_submit w2 a _ (OnAbilityConnectDone c elem s mode) Hk2) as H3.
      pose proof (upd_set_record _ a _ r (λ x, x <| state_ := REQUESTED |>) (upd_container _ _ _ _ _ _ H3)) as H4.
      pose proof (upd_trans _ _ _ _ _ _ _ _ _ _ H3 H4) as H5. by rewrite app_nil_r in H5.
  - rewrite (bool_decide_eq_false_2 (is_Some None)) by (by intros [? [=]]). rewrite andb_false_r.
    split; [done|].
    eapply (call_stored w _ a k o r rec (rec2 <| state_ := REQUESTING |>) (Waiting c)); try done.
    + unfold phase_of. cbn. by rewrite Hs.
    + by intros y ?%not_elem_of_nil.
    + apply Htail. apply upd_set_record. apply (upd_container _ _ _ _ _ _ H2).
Qed.

Lemma same_calls_trans w w1 w2 : same_calls w w1 → same_calls w1 w2 → same_calls w w2.
Proof.
  intros [_ A2 A3 A4] [B1 B2 B3 B4]. split; [done| |congruence|]; intros a; [by rewrite B2|by rewrite B4].
Qed.

Definition matches_spec w a o c elem mode (x : ResolveResultType * CallWorld) : Prop :=
  let '(ret, m, out) := spec_resolve (calls w a) o c elem mode in x.1 = ret ∧ step_ok w x.2 a m out.

(** A client that has called before. *)
Lemma resolve_known w a k o r c elem mode :
  CInv w → statics w a = Some (elem, mode) → AsObject c = Some o → container w a = Some k →
  callRecordMap_ k !! o = Some r → matches_spec w a o c elem mode (resolve_rest w a c r).
Proof.
  intros Hi Hst Ho Hk Hr. destruct (inv_containers _ Hi a k Hk) as [_ Hrs].
  destruct (Hrs o r Hr) as (rec & p & Hrec & Hsv & Hp & Hpo).
  assert (calls w a !! o = Some p) as Hv.
  { unfold calls. rewrite Hk, lookup_calls_in, Hr. cbn. by rewrite Hrec. }
  assert (state_ rec = REQUESTED ↔ is_Some (callRemoteObject_ rec)) as Hshape.
  { unfold phase_of in Hp. destruct (connCallback_ rec), (state_ rec), (callRemoteObject_ rec); simplify_eq/=;
      split; try done; by intros [? ?]. }
  assert (∀ o', callRecordMap_ k !! o' = Some r → o' = o) as Hone.
  { intros o' Ho'. by destruct (record_ok_inj _ _ _ _ _ _ (Hrs o' r Ho') (Hrs o r Hr)). }
  pose proof (resolve_tail w a k o r rec c elem mode Hi Hk Hrec Hsv Hst Ho (or_intror Hr) Hone Hshape) as Ht.
  unfold matches_spec, spec_resolve. rewrite Hv. destruct (resolve_rest w a c r) as [ret w'].
  unfold phase_of in Hp. by destruct (connCallback_ rec), (state_ rec), (callRemoteObject_ rec); simplify_eq/=.
Qed.

(** A client that calls for the first time. *)
Lemma resolve_new w a k o c elem mode uid tok now :
  CInv w → statics w a = Some (elem, mode) → AsObject c = Some o → container w a = Some k →
  callRecordMap_ k !! o = None →
  let '(w', r) := CreateCallRecord w uid a c tok now in
  matches_spec w a o c elem mode (resolve_rest w' a c r).
Proof.
  intros Hi Hst Ho Hk Hr.
  destruct (CreateCallRecord_same w uid a c tok now Hi) as (Hs & Hc & Hno).
  destruct (CreateCallRecord w uid a c tok now) as [w' r] eqn:Hcr. cbn [fst] in Hs, Hc.
  assert (r = fresh_rec w ∧ ∃ rec, callRecords w' !! r = Some rec ∧ service_ rec = a ∧ state_ rec = INIT ∧
    callRemoteObject_ rec = None) as [-> (rec & Hrec & Hsv & Hin & Hnone)].
  { unfold CreateCallRecord in Hcr. simplify_eq/=. split; [done|]. rewrite lookup_insert_eq. by eexists. }
  pose proof (resolve_tail w' a k o (fresh_rec w) rec c elem mode (same_inv _ _ Hs)) as Ht.
  rewrite Hc, (same_statics _ _ Hs), (same_view _ _ Hs), Hin, Hnone in Ht.
  specialize (Ht Hk Hrec Hsv Hst Ho (or_introl Hr) (λ o' Ho', False_ind _ (Hno a k o' Hk Ho'))).
  assert (calls w a !! o = None) as Hv by (unfold calls; by rewrite Hk, lookup_calls_in, Hr).
  unfold matches_spec, spec_resolve. rewrite Hv. destruct (resolve_rest w' a c (fresh_rec w)) as [ret w''].
  destruct Ht as [-> Hs']; [split; [done|by intros [? ?]]|]. split; [done|]. by eapply step_same.
Qed.

Lemma Resolve_spec w a req c o now elem mode :
  CInv w → statics w a = Some (elem, mode) →
  connect req = Some c → callType req = CALL_REQUEST_TYPE → AsObject c = Some o →
  matches_spec w a o c elem mode (Resolve accepts w a req now).
Proof.
  intros Hi Hst Hc Ht Ho. unfold Resolve. rewrite Hc, Ht. cbn [negb Z.eqb CALL_REQUEST_TYPE Pos.eqb].
  destruct (ensure_container w a elem mode Hi Hst) as (Hsame & _ & _ & k & Hk).
  set (w1 := match container w a with Some _ => w | None => _ end) in *.
  assert (∀ x, matches_spec w1 a o c elem mode x → matches_spec w a o c elem mode x) as Hx.
  { intros [ret w']. unfold matches_spec. rewrite (same_view _ _ Hsame).
    destruct (spec_resolve _ _ _ _ _) as [[ret' m] out]. intros [? ?]. split; [done|]. by eapply step_same. }
  rewrite <-(same_statics _ _ Hsame) in Hst. apply same_inv in Hsame as Hi1. clearbody w1.
  unfold GetCallRecord. cbn [mbind option_bind]. rewrite Ho, Hk.
  destruct (callRecordMap_ k !! o) as [r|] eqn:Hr; apply Hx.
  - by eapply resolve_known.
  - pose proof (resolve_new w1 a k o c elem mode (callerUid req) (callerToken req) now Hi1 Hst Ho Hk Hr) as H.
    by destruct (CreateCallRecord _ _ _ _ _ _).
Qed.
End Resolve.

(** ** [ReleaseCall] *)

Lemma step_none w a out : CInv w → out = [] → step_ok w w a (calls w a) out.
Proof. intros Hi ->. split; try done. by rewrite app_nil_r. Qed.

(** A record leaves its container, and the heap when nothing holds it. *)
Lemma call_removed w w' a k o r out (gone : bool) :
  CInv w → container w a = Some k → callRecordMap_ k !! o = Some r →
  (∀ x, CallConnectDied x ∉ out) → (gone = true → CallConnectDied (Some r) ∉ posted w) →
  upd w w' a (without_call k o) (if gone then delete r (callRecords w) else callRecords w) out →
  step_ok w w' a (delete o (calls w a)) out.
Proof.
  intros Hi Hk Hr Hout Hgone Hu. set (recs := if gone then _ else _) in Hu.
  destruct (inv_containers _ Hi a k Hk) as [Hd Hrs].
  destruct (Hrs o r Hr) as (rec & p & Hrec & Hsv & _).
  assert (∀ r', r' ≠ r → recs !! r' = callRecords w !! r') as Hrecs.
  { intros r' Hne. unfold recs. destruct gone; [by rewrite lookup_delete_ne|done]. }
  assert (spares (callRecords w) recs a) as Hs.
  { intros r' rec' H1 H2. rewrite Hrecs; [done|]. congruence. }
  assert (∀ o' r', callRecordMap_ k !! o' = Some r' → o' ≠ o → r' ≠ r) as Hne.
  { intros o' r' Hr' Ho' ->. by destruct (record_ok_inj _ _ _ _ _ _ (Hrs o' r Hr') (Hrs o r Hr)). }
  split.
  - eapply CInv_upd; [done|exact Hu| |done|].
    + split; cbn; [by rewrite dom_delete_L, Hd|]. intros o' r' [Ho' Hr']%lookup_delete_Some.
      destruct (Hrs o' r' Hr') as (rec' & p' & Hrec' & Hrest). exists rec', p'.
      rewrite Hrecs; [done|]. eauto.
    + destruct (inv_recs _ Hi) as [Hf Hcn Hj]. split.
      * intros r' Hr'. apply Hf. unfold recs in Hr'. destruct gone; [|done].
        destruct Hr' as [? [_ ?]%lookup_delete_Some]. by eexists.
      * intros r' rec' H. unfold recs in H. destruct gone; [apply lookup_delete_Some in H as [_ H]|]; by eapply Hcn.
      * intros r' [Hin|Hin]%elem_of_app; [|by destruct (Hout (Some r'))].
        destruct (decide (r' = r)) as [->|Hn]; [|rewrite Hrecs by done; by apply Hj].
        unfold recs. destruct gone; [by destruct Hgone|by apply Hj].
  - rewrite (calls_upd _ _ _ _ _ _ Hu). unfold calls. rewrite Hk. apply map_eq. intros o'.
    rewrite lookup_calls_in. cbn. destruct (decide (o' = o)) as [->|Ho'].
    + by rewrite !lookup_delete_eq.
    + rewrite !lookup_delete_ne, lookup_calls_in by done.
      destruct (callRecordMap_ k !! o') as [r'|] eqn:Hr'; [|done]. cbn. rewrite Hrecs; eauto.
  - intros a' Ha. by eapply calls_upd_other.
  - apply (upd_posted _ _ _ _ _ _ Hu).
  - apply (upd_statics _ _ _ _ _ _ Hu).
Qed.

Lemma ReleaseCall_spec w a c o elem mode :
  CInv w → statics w a = Some (elem, mode) → AsObject c = Some o →
  let '(ok, w') := ReleaseCall w a (Some c) in
  let '(ok', m, out) := spec_release (calls w a) o elem in
  ok = ok' ∧ step_ok w w' a m out.
Proof.
  intros Hi Hst Ho. unfold ReleaseCall, RemoveCallRecord. cbn [mbind option_bind]. rewrite Ho.
  assert (calls w a !! o = None → let '(ok', m, out) := spec_release (calls w a) o elem in
    false = ok' ∧ step_ok w w a m out) as Hno.
  { unfold spec_release. intros ->. split; [done|]. by apply step_none. }
  destruct (container w a) as [k|] eqn:Hk; [|apply Hno; unfold calls; by rewrite Hk].
  destruct (callRecordMap_ k !! o) as [r|] eqn:Hr;
    [|apply Hno; unfold calls; by rewrite Hk, lookup_calls_in, Hr].
  destruct (ok_records _ _ _ (inv_containers _ Hi a k Hk) o r Hr) as (rec & p & Hrec & Hsv & Hp & Hpo).
  assert (calls w a !! o = Some p) as Hv.
  { unfold calls. rewrite Hk, lookup_calls_in, Hr. cbn. by rewrite Hrec. }
  unfold spec_release. rewrite Hv. unfold SchedulerDisconnectDone. rewrite Hrec, (phase_of_conn _ _ Hp), Hsv.
  destruct (statics_ability w a elem mode Hst) as (x & -> & -> & _). rewrite (inv_handler _ Hi). cbn [negb].
  split; [done|]. set (out := [OnAbilityDisconnectDone (phase_conn p) elem ERR_OK]).
  pose proof (upd_submit w a k (OnAbilityDisconnectDone (phase_conn p) elem ERR_OK) Hk) as H1.
  pose proof (RemoveConnectDeathRecipient_upd _ a k c o (upd_container _ _ _ _ _ _ H1) Ho) as H2.
  pose proof (erase_record_upd _ a _ o (upd_container _ _ _ _ _ _ H2)) as H3.
  rewrite (upd_recs _ _ _ _ _ _ H2) in H3.
  pose proof (upd_trans _ _ _ _ _ _ _ _ _ _ H1 (upd_trans _ _ _ _ _ _ _ _ _ _ H2 H3)) as H4. clear H1 H2 H3.
  set (w3 := erase_record _ _ _) in *.
  pose proof (upd_collect w3 a _ r (upd_container _ _ _ _ _ _ H4)) as H5.
  pose proof (upd_trans _ _ _ _ _ _ _ _ _ _ H4 H5) as H6. rewrite (upd_recs _ _ _ _ _ _ H4) in H6.
  eapply (call_removed w _ a k o r _ (negb (referenced w3 r))); [done|done|done| | |].
  - intros y Hy%list_elem_of_singleton. done.
  - intros Href Hin. apply negb_true_iff in Href. unfold referenced in Href.
    apply orb_false_iff in Href as [Href _]. apply bool_decide_eq_false_1 in Href. apply Href.
    rewrite (upd_posted _ _ _ _ _ _ H4). apply elem_of_app. by left.
  - destruct (referenced w3 r); exact H6.
Qed.

(** ** [CallRequestDone] *)

(** A map is iterated in the order of its keys, whatever its values. *)
Lemma map_iter_keys {A B : Type} (m1 : gmap Z A) (m2 : gmap Z B) :
  dom m1 = dom m2 → (map_iter m1).*1 = (map_iter m2).*1.
Proof.
  assert (∀ (C : Type) (m : gmap Z C), Sorted Z.le (map_iter m).*1) as Hs.
  { intros C m. induction (map_iter_sorted m) as [|x l _ IH Hd]; [constructor|]. cbn. constructor; [done|].
    destruct Hd as [|y l Hxy]; cbn; constructor. unfold entry_le, key_leb, Z_key_order in Hxy. lia. }
  intros Hd. apply (Sorted_unique Z.le); [apply Hs..|].
  apply NoDup_Permutation; [apply NoDup_map_iter_fst..|]. intros o.
  assert (∀ (C : Type) (m : gmap Z C), o ∈ (map_iter m).*1 ↔ o ∈ dom m) as He; [|by rewrite !He, Hd].
  intros C m. rewrite list_elem_of_fmap, elem_of_dom. split.
  - intros ([o' x] & -> & Hx%elem_of_map_iter). by eexists.
  - intros [x Hx]. exists (o, x). by rewrite elem_of_map_iter.
Qed.

Lemma calls_dom w a k : CInv w → container w a = Some k → dom (calls w a) = dom (callRecordMap_ k).
Proof.
  intros Hi Hk. apply set_eq. intros o. rewrite !elem_of_dom. unfold calls. rewrite Hk, lookup_calls_in.
  destruct (callRecordMap_ k !! o) as [r|] eqn:Hr; [|by split; intros [? ?]].
  destruct (ok_records _ _ _ (inv_containers _ Hi a k Hk) o r Hr) as (rec & p & Hrec & _ & Hp & _).
  cbn. rewrite Hrec. cbn. rewrite Hp. split; by eexists.
Qed.

Lemma with_call_same w a k o r :
  CInv w → container w a = Some k → callRecordMap_ k !! o = Some r → with_call k o r = k.
Proof.
  intros Hi Hk Hr. pose proof (ok_recipients _ _ _ (inv_containers _ Hi a k Hk)) as Hd.
  unfold with_call. rewrite insert_id by done. destruct k as [m S]. cbn in *. f_equal. subst S.
  assert (o ∈ dom m) by (apply elem_of_dom; by eexists). set_solver.
Qed.

Section Done.
Variables (accepts : Z → bool) (s : Z) (a : Abi) (elem : ElementName) (mode : Z).

(** A client that waits is told. *)
Lemma done_one w k o r c :
  CInv w → statics w a = Some (elem, mode) → container w a = Some k → callRecordMap_ k !! o = Some r →
  calls w a !! o = Some (Waiting c) →
  let w' := (SchedulerConnectDone (SetCallStub accepts w r s) r).2 in
  step_ok w w' a (<[o := Connected c s]> (calls w a)) [OnAbilityConnectDone c elem s mode] ∧
  container w' a = Some k.
Proof.
  intros Hi Hst Hk Hr Hv. pose proof (with_call_same w a k o r Hi Hk Hr) as Hsame.
  pose proof (ok_records _ _ _ (inv_containers _ Hi a k Hk)) as Hrs.
  destruct (Hrs o r Hr) as (rec & p & Hrec & Hsv & Hp & Hpo).
  assert (p = Waiting c) as ->.
  { unfold calls in Hv. rewrite Hk, lookup_calls_in, Hr in Hv. cbn in Hv. rewrite Hrec in Hv. cbn in Hv. congruence. }
  assert (state_ rec = REQUESTING ∧ callRemoteObject_ rec = None ∧ connCallback_ rec = Some c) as (Hq & Hn & Hc).
  { unfold phase_of in Hp. by destruct (connCallback_ rec), (state_ rec), (callRemoteObject_ rec); simplify_eq. }
  unfold SetCallStub. rewrite Hrec, Hn.
  set (f := λ x : CallRecord, x <| callRemoteObject_ := Some s |> <| callDeathRecipient_ := true |>).
  set (w1 := AddDeathRecipient _ _ _ _).
  assert (upd w w1 a k (alter f r (callRecords w)) []) as H1.
  { pose proof (upd_set_record w a k r f Hk) as H0. unfold w1, AddDeathRecipient. destruct (accepts s); [|done].
    eapply upd_step; [exact H0|]. intros Hk0 <-. by apply upd_recipients. }
  assert (callRecords w1 !! r = Some (f rec)) as Hr1 by (by rewrite (upd_recs _ _ _ _ _ _ H1), lookup_alter_eq, Hrec).
  unfold SchedulerConnectDone. rewrite Hr1. change (callRemoteObject_ (f rec)) with (Some s).
  change (connCallback_ (f rec)) with (connCallback_ rec). change (service_ (f rec)) with (service_ rec).
  rewrite Hc, Hsv. destruct (statics_ability w1 a elem mode) as (x & -> & -> & ->).
  { by rewrite (upd_statics _ _ _ _ _ _ H1). }
  rewrite (upd_handler _ _ _ _ _ _ H1), (inv_handler _ Hi). cbn [negb snd].
  pose proof (upd_submit w1 a k (OnAbilityConnectDone c elem s mode) (upd_container _ _ _ _ _ _ H1)) as H2.
  pose proof (upd_set_record _ a k r (λ x, x <| state_ := REQUESTED |>) (upd_container _ _ _ _ _ _ H2)) as H3.
  pose proof (upd_trans _ _ _ _ _ _ _ _ _ _ H1 (upd_trans _ _ _ _ _ _ _ _ _ _ H2 H3)) as H4.
  split; [|exact (upd_container _ _ _ _ _ _ H4)].
  eapply (call_stored w _ a k o r rec (f rec <| state_ := REQUESTED |>) (Connected c s)); try done.
  - intros o' Ho'. by destruct (record_ok_inj _ _ _ _ _ _ (Hrs o' r Ho') (Hrs o r Hr)).
  - unfold phase_of. cbn. by rewrite Hc.
  - intros y Hy%list_elem_of_singleton. done.
  - rewrite Hsame. rewrite (upd_recs _ _ _ _ _ _ H2), (upd_recs _ _ _ _ _ _ H1) in H4.
    unshelve erewrite (_ : <[r := _]> _ = _); [..|exact H4]. apply map_eq. intros r'.
    destruct (decide (r' = r)) as [->|Hne]; [by rewrite !lookup_alter_eq, lookup_insert_eq, Hrec|].
    by rewrite !lookup_alter_ne, lookup_insert_ne.
Qed.

(** What the specification posts for the keys [ks]. *)
Definition done_out (m : gmap Z Phase) (ks : list Z) : list CallJob :=
  omap (λ o, match m !! o with
             | Some (Waiting c) => Some (OnAbilityConnectDone c elem s mode)
             | _ => None
             end) ks.

Lemma done_out_insert m ks o p : o ∉ ks → done_out (<[o := p]> m) ks = done_out m ks.
Proof.
  intros Ho. induction ks as [|x ks IH]; [done|]. apply not_elem_of_cons in Ho as [Hx Ho].
  unfold done_out in *. cbn. rewrite lookup_insert_ne, IH by done. done.
Qed.

Lemma request_done_loop_spec l w k :
  CInv w → statics w a = Some (elem, mode) → container w a = Some k → NoDup l.*1 →
  (∀ o r, (o, r) ∈ l → callRecordMap_ k !! o = Some r) →
  ∃ m, step_ok w (request_done_loop accepts w l s) a m (done_out (calls w a) l.*1) ∧
    ∀ o, m !! o = if decide (o ∈ l.*1) then receive s <$> calls w a !! o else calls w a !! o.
Proof.
  revert w. induction l as [|[o r] l IH]; intros w Hi Hst Hk Hnd Hl.
  { exists (calls w a). split; [by apply step_none|]. intros o. by rewrite decide_False by apply not_elem_of_nil. }
  cbn in Hnd. apply NoDup_cons in Hnd as [Ho Hnd]. cbn [request_done_loop].
  assert (callRecordMap_ k !! o = Some r) as Hr by (apply Hl; left).
  destruct (ok_records _ _ _ (inv_containers _ Hi a k Hk) o r Hr) as (rec & p & Hrec & Hsv & Hp & Hpo).
  assert (calls w a !! o = Some p) as Hv.
  { unfold calls. rewrite Hk, lookup_calls_in, Hr. cbn. by rewrite Hrec. }
  assert (∀ o' r', (o', r') ∈ l → callRecordMap_ k !! o' = Some r') as Hl' by (intros o' r' ?; apply Hl; by right).
  unfold IsCallState. rewrite Hrec. cbn [fmap option_fmap option_map list_fmap fst].
  destruct p as [c|c s0].
  - rewrite bool_decide_eq_true_2 by (f_equal; unfold phase_of in Hp; repeat case_match; by simplify_eq).
    destruct (done_one w k o r c Hi Hst Hk Hr Hv) as [Hs1 Hk1].
    set (w1 := (SchedulerConnectDone _ _).2) in *.
    destruct (IH w1 (step_inv _ _ _ _ _ Hs1)) as (m & Hs2 & Hm); try done.
    { by rewrite (step_statics _ _ _ _ _ Hs1). }
    rewrite (step_calls _ _ _ _ _ Hs1) in Hs2, Hm. rewrite done_out_insert in Hs2 by done.
    exists m. split.
    + destruct Hs1, Hs2. split; try done.
      * intros a' Ha. rewrite step_others1, step_others0 by done. done.
      * rewrite step_posted1, step_posted0, <-app_assoc. unfold done_out. cbn. by rewrite Hv.
      * intros a'. by rewrite step_statics1.
    + intros o'. rewrite Hm. destruct (decide (o' = o)) as [->|Hne].
      * rewrite decide_False by done. rewrite decide_True by left. by rewrite lookup_insert_eq, Hv.
      * rewrite lookup_insert_ne by done. by destruct (decide (o' ∈ l.*1)) as [Hin|Hin];
          [rewrite decide_True by (by right)|rewrite decide_False by (rewrite elem_of_cons; naive_solver)].
  - rewrite bool_decide_eq_false_2 by (intros [= Hq]; unfold phase_of in Hp; repeat case_match; by simplify_eq).
    destruct (IH w Hi Hst Hk Hnd Hl') as (m & Hs & Hm). exists m. split.
    + unfold done_out. cbn. by rewrite Hv.
    + intros o'. rewrite Hm. destruct (decide (o' = o)) as [->|Hne].
      * rewrite decide_False by done. rewrite decide_True by left. by rewrite Hv.
      * by destruct (decide (o' ∈ l.*1)) as [Hin|Hin];
          [rewrite decide_True by (by right)|rewrite decide_False by (rewrite elem_of_cons; naive_solver)].
Qed.

Lemma done_out_iter m : done_out m (map_iter m).*1 = (spec_done m s elem mode).2.
Proof.
  cbn. assert (∀ x, x ∈ map_iter m → m !! x.1 = Some x.2) as Hm by (intros [o p]; apply elem_of_map_iter).
  induction (map_iter m) as [|[o p] l IH]; [done|]. unfold done_out in *. cbn.
  pose proof (Hm (o, p) ltac:(left)) as E. cbn in E. rewrite E.
  rewrite IH by (intros x Hx; apply Hm; by right). by destruct p.
Qed.

Lemma CallRequestDone_spec w :
  CInv w → statics w a = Some (elem, mode) → is_Some (container w a) →
  let '(ok, w') := CallRequestDone accepts w a (Some s) in
  let '(m, out) := spec_done (calls w a) s elem mode in
  ok = true ∧ step_ok w w' a m out.
Proof.
  intros Hi Hst [k Hk]. unfold CallRequestDone, Container_CallRequestDone. rewrite Hk.
  destruct (request_done_loop_spec (map_iter (callRecordMap_ k)) w k) as (m & Hs & Hm); try done.
  { apply NoDup_map_iter_fst. }
  { intros o r. apply elem_of_map_iter. }
  rewrite <-(map_iter_keys (calls w a)), done_out_iter in Hs by (by apply calls_dom).
  cbn [spec_done snd] in Hs |- *. split; [done|].
  replace (receive s <$> calls w a) with m; [done|]. apply map_eq. intros o.
  rewrite Hm, lookup_fmap. case_decide as Ho; [done|].
  destruct (calls w a !! o) as [p|] eqn:Hp; [|done]. destruct Ho.
  rewrite <-(map_iter_keys (calls w a)) by (by apply calls_dom). apply list_elem_of_fmap. exists (o, p).
  split; [done|]. by apply elem_of_map_iter.
Qed.
End Done.
