(* ===== verification/CallProtocol.v ===== *)
(** * The calls of an ability as a protocol

    Deaths of remote objects, the tasks they post, the end of ability records, and the
    refinement of [CallTheorems]'s specification by every run of the call containers. *)

From stdpp Require Import prelude gmap strings list sorting.
From Stdlib Require Import ZArith Lia.
From S2P Require Import Prelude CallContainer CallTheorems.

Implicit Types (w : CallWorld) (r : Rec) (a : Abi) (c : Connection) (o : Z) (k : CallContainer)
  (recs : gmap Rec CallRecord).

(** ** Changes that clients do not see *)

Record unseen w w1 : Prop := {
  unseen_inv : CInv w1;
  unseen_view : ∀ a, calls w1 a = calls w a;
  unseen_statics : ∀ a, statics w1 a = statics w a;
}.

Lemma unseen_trans w w1 w2 : unseen w w1 → unseen w1 w2 → unseen w w2.
Proof. intros [_ A B] [C D E]. split; [done| |]; intros a; [by rewrite D|by rewrite E]. Qed.

Lemma unseen_refl w : CInv w → unseen w w.
Proof. by split. Qed.

(** Containers, elements and the records of containers stay. *)
Lemma unseen_frame w w1 :
  CInv w → taskHandler w1 = true → recs_ok (callRecords w1) (fresh_rec w1) (posted w1) →
  (∀ a, container w1 a = container w a) → (∀ a, statics w1 a = statics w a) →
  (∀ a k o r, container w a = Some k → callRecordMap_ k !! o = Some r → callRecords w1 !! r = callRecords w !! r) →
  unseen w w1.
Proof.
  intros Hi Hh Hr Hc Hs Ha. split; [split; [done|done|]| |done].
  - intros a k Hk. rewrite Hc in Hk. destruct (inv_containers _ Hi a k Hk) as [Hd Hrs]. split; [done|].
    intros o r Hor. destruct (Hrs o r Hor) as (rec & p & ?). exists rec, p. by rewrite (Ha a k o r).
  - intros a. unfold calls. rewrite Hc. destruct (container w a) as [k|] eqn:Hk; [|done]. apply map_eq. intros o.
    rewrite !lookup_calls_in. destruct (callRecordMap_ k !! o) as [r|] eqn:Hor; [|done]. cbn.
    by rewrite (Ha a k o r).
Qed.

Lemma unseen_recipients w f : CInv w → unseen w (w <| recipients ::= f |>).
Proof. intros Hi. apply unseen_frame; try done; apply Hi. Qed.

(** The destructor of a record that nothing holds. *)
Lemma collect_frame w r :
  ∀ w', w' = collect w r → posted w' = posted w ∧ abilities w' = abilities w ∧ taskHandler w' = taskHandler w ∧
    fresh_rec w' = fresh_rec w ∧ missionLists w' = missionLists w ∧
    callRecords w' = if referenced w r then callRecords w else delete r (callRecords w).
Proof.
  intros w' ->. unfold collect. destruct (referenced w r); [done|].
  destruct (callRecords w !! r) as [rec|] eqn:Hr; [|by rewrite delete_id].
  by destruct (callRemoteObject_ rec), (callDeathRecipient_ rec).
Qed.

Lemma collect_unseen w r : CInv w → unseen w (collect w r).
Proof.
  intros Hi. destruct (collect_frame w r _ eq_refl) as (Hp & Ha & Hh & Hf & _ & Hr).
  destruct (referenced w r) eqn:Href.
  { apply unseen_frame; [done|by rewrite Hh; apply Hi|rewrite Hr, Hp, Hf; apply Hi|..].
    - intros a. unfold container. by rewrite Ha.
    - intros a. unfold statics. by rewrite Ha.
    - intros. by rewrite Hr. }
  apply unseen_frame; [done|by rewrite Hh; apply Hi| |..].
  - rewrite Hr, Hp, Hf. destruct (inv_recs _ Hi) as [Hfr Hcn Hj]. split.
    + intros r' [x [_ Hx]%lookup_delete_Some]. apply Hfr. by eexists.
    + intros r' x [_ Hx]%lookup_delete_Some. by eapply Hcn.
    + intros r' Hin. rewrite lookup_delete_ne; [by apply Hj|]. intros ->.
      unfold referenced in Href. apply orb_false_iff in Href as [Href _]. by apply bool_decide_eq_false_1 in Href.
  - intros a. unfold container. by rewrite Ha.
  - intros a. unfold statics. by rewrite Ha.
  - intros a k o r' Hk Hor. rewrite Hr, lookup_delete_ne; [done|]. intros ->.
    by rewrite (referenced_in w a k o r' Hk Hor) in Href.
Qed.

Lemma foldl_collect_unseen rs w : CInv w → unseen w (foldl collect w rs).
Proof.
  revert w. induction rs as [|r rs IH]; intros w Hi; [by apply unseen_refl|]. cbn.
  pose proof (collect_unseen w r Hi) as H1. eapply unseen_trans; [exact H1|]. apply IH, H1.
Qed.

Lemma foldl_collect_posted rs w : posted (foldl collect w rs) = posted w.
Proof.
  revert w. induction rs as [|r rs IH]; intros w; [done|]. cbn. rewrite IH.
  by destruct (collect_frame w r _ eq_refl) as (-> & _).
Qed.

(** A task posted for a record that is there. *)
Lemma submit_death_unseen w x :
  CInv w → (∀ r, x = Some r → is_Some (callRecords w !! r)) → unseen w (SubmitTask w (CallConnectDied x)).
Proof.
  intros Hi Hx. apply unseen_frame; try done; [apply Hi|]. destruct (inv_recs _ Hi) as [Hf Hcn Hj].
  split; [done|done|]. cbn. intros r [Hin|Hin%list_elem_of_singleton]%elem_of_app; [by apply Hj|].
  apply Hx. congruence.
Qed.

(** A posted task is done with. *)
Lemma drop_job_unseen w : CInv w → unseen w (w <| posted ::= tail |>).
Proof.
  intros Hi. apply unseen_frame; try done; [apply Hi|]. destruct (inv_recs _ Hi) as [Hf Hcn Hj].
  split; [done|done|]. cbn. intros r Hin. apply Hj.
  destruct (posted w) as [|j l]; [by inversion Hin|by right].
Qed.

(** ** Deaths *)

Definition only_deaths (out : list CallJob) : Prop := ∀ j, j ∈ out → ∃ x, j = CallConnectDied x.

Lemma only_deaths_nil : only_deaths [].
Proof. intros j Hj. inversion Hj. Qed.

Lemma tell_unseen l w o :
  CInv w → unseen w (tell w l o) ∧ ∃ out, posted (tell w l o) = posted w ++ out ∧ only_deaths out.
Proof.
  revert w. induction l as [|x l IH]; intros w Hi.
  { split; [by apply unseen_refl|]. exists []. rewrite app_nil_r. split; [done|apply only_deaths_nil]. }
  assert (∀ w1 y, unseen w w1 → posted w1 = posted w ++ y → only_deaths y →
    unseen w (tell w1 l o) ∧ ∃ out, posted (tell w1 l o) = posted w ++ out ∧ only_deaths out) as Hstep.
  { intros w1 y Hu Hp Hy. destruct (IH w1 (unseen_inv _ _ Hu)) as (Hu1 & out & Hp1 & Hout).
    split; [by eapply unseen_trans|]. exists (y ++ out). rewrite Hp1, Hp, app_assoc. split; [done|].
    intros j [?|?]%elem_of_app; eauto. }
  assert (∀ d, only_deaths [CallConnectDied d]) as Hone by (intros d j ->%list_elem_of_singleton; by eexists).
  destruct x as [a|r]; cbn [tell].
  - unfold OnConnectionDied. destruct (container w a) as [k|] eqn:Hk;
      [|by apply (Hstep w []); [apply unseen_refl|rewrite app_nil_r|apply only_deaths_nil]].
    rewrite (inv_handler _ Hi). eapply Hstep; [|done|apply Hone]. apply submit_death_unseen; [done|].
    intros r Hr. destruct (ok_records _ _ _ (inv_containers _ Hi a k Hk) o r Hr) as (rec & p & -> & _). by eexists.
  - unfold OnCallStubDied. destruct (callRecords w !! r) as [rec|] eqn:Hr;
      [|by apply (Hstep w []); [apply unseen_refl|rewrite app_nil_r|apply only_deaths_nil]].
    rewrite (inv_handler _ Hi). eapply Hstep; [|done|apply Hone]. apply submit_death_unseen; [done|].
    intros r' [= <-]. by eexists.
Qed.

Lemma RemoteDied_unseen w o :
  CInv w → unseen w (RemoteDied w o) ∧ ∃ out, posted (RemoteDied w o) = posted w ++ out ∧ only_deaths out.
Proof.
  intros Hi. pose proof (unseen_recipients w (delete o) Hi) as Hu. unfold RemoteDied.
  destruct (tell_unseen (default [] (recipients w !! o)) (w <| recipients ::= delete o |>) o (unseen_inv _ _ Hu))
    as (Hu1 & out & Hp & Hout). split; [by eapply unseen_trans|]. by exists out.
Qed.

(** ** A posted death *)

(** The client [o] of [a] is dropped, and told after [jobs]. *)
Record dropped_client w w1 a o (jobs : list CallJob) : Prop := {
  drop_inv : CInv w1;
  drop_statics : ∀ a', statics w1 a' = statics w a';
  drop_others : ∀ a', a' ≠ a → calls w1 a' = calls w a';
  drop_one : ∃ p elem mode, calls w a !! o = Some p ∧ statics w a = Some (elem, mode) ∧
    calls w1 a = delete o (calls w a) ∧
    posted w1 = jobs ++ [OnAbilityDisconnectDone (phase_conn p) elem ERR_OK];
}.

Lemma container_statics w a k : container w a = Some k → is_Some (statics w a).
Proof. unfold container, statics. intros (x & -> & _)%bind_Some. by eexists. Qed.

(** A container has a record for the connection exactly if the client is known. *)
Lemma IsExistConnection_spec w a c :
  CInv w → IsExistConnection w a (Some c) =
    Ret (match AsObject c with Some o => bool_decide (is_Some (calls w a !! o)) | None => false end).
Proof.
  intros Hi. unfold IsExistConnection, Container_IsExistConnection, calls. cbn.
  destruct (container w a) as [k|] eqn:Hk; [|by destruct (AsObject c)]. destruct (AsObject c) as [o|]; [|done].
  do 2 f_equal. apply bool_decide_ext. rewrite lookup_calls_in.
  destruct (callRecordMap_ k !! o) as [r|] eqn:Hr; [|by split; intros [? ?]]. cbn.
  destruct (ok_records _ _ _ (inv_containers _ Hi a k Hk) o r Hr) as (rec & p & -> & _ & Hp & _).
  cbn. rewrite Hp. split; by eexists.
Qed.

Lemma find_connection_spec w l c :
  CInv w → ∃ x, find_connection w l (Some c) = Ret x ∧
    match x with
    | Some a => a ∈ l ∧ ∃ o, AsObject c = Some o ∧ is_Some (calls w a !! o)
    | None => ∀ a o, a ∈ l → AsObject c = Some o → calls w a !! o = None
    end.
Proof.
  intros Hi. induction l as [|a l (x & Hx & IH)]; [exists None; split; [done|]; intros ? ? H; inversion H|].
  cbn [find_connection]. rewrite IsExistConnection_spec by done. cbn [obind].
  destruct (AsObject c) as [o|] eqn:Ho; [|exists x; split; [done|]].
  - cbn. case_bool_decide as Hex.
    + exists (Some a). split; [done|]. split; [by left|]. by exists o.
    + exists x. split; [done|]. destruct x as [a'|]; [by destruct IH as [? ?]; split; [right|]|].
      intros a' o' [->|Ha]%elem_of_cons [= <-]; [by apply eq_None_not_Some|by apply IH].
  - destruct x as [a'|]; [by destruct IH as [_ (? & ? & _)]|done].
Qed.

Lemma ReleaseCall_drops w a c o :
  CInv w → AsObject c = Some o → is_Some (calls w a !! o) →
  (ReleaseCall w a (Some c)).1 = true ∧ dropped_client w (ReleaseCall w a (Some c)).2 a o (posted w).
Proof.
  intros Hi Ho [p Hp]. assert (∃ k, container w a = Some k) as [k Hk].
  { unfold calls in Hp. destruct (container w a) as [k|]; [by exists k|done]. }
  destruct (container_statics w a k Hk) as [[elem mode] Hst].
  pose proof (ReleaseCall_spec w a c o elem mode Hi Hst Ho) as H. unfold spec_release in H. rewrite Hp in H.
  destruct (ReleaseCall w a (Some c)) as [ok w']. destruct H as [-> [S1 S2 S3 S4 S5]].
  split; [done|]. split; [done..|]. exists p, elem, mode. cbn. by rewrite S2.
Qed.

Section Runs.
Variables (accepts : Z → bool) (same_element : ElementName → ElementName → bool).

Lemma OnCallConnectDied_spec w r :
  CInv w → is_Some (callRecords w !! r) →
  ∃ w1, OnCallConnectDied same_element w (Some r) = Ret w1 ∧
    (w1 = w ∨ ∃ a c o, GetConCallBack w r = Some c ∧ AsObject c = Some o ∧
       a ∈ GetAbilityRecordsByName same_element w (GetTargetServiceName w r) ∧ dropped_client w w1 a o (posted w)).
Proof.
  intros Hi [rec Hr]. destruct (ok_conn _ _ _ (inv_recs _ Hi) r rec Hr) as [c Hc].
  assert (GetConCallBack w r = Some c) as Hcb by (unfold GetConCallBack; by rewrite Hr).
  unfold OnCallConnectDied. rewrite Hcb.
  destruct (find_connection_spec w (GetAbilityRecordsByName same_element w (GetTargetServiceName w r)) c Hi)
    as (x & -> & Hx). cbn [obind]. destruct x as [a|]; [|by exists w; split; [|left]].
  destruct Hx as (Hin & o & Ho & Hcall). destruct (ReleaseCall_drops w a c o Hi Ho Hcall) as [_ Hd].
  eexists. split; [done|]. right. by exists a, c, o.
Qed.

Lemma dropped_unseen w w1 w2 a o j jobs :
  dropped_client w w1 a o (j :: jobs) → unseen w1 w2 → posted w2 = tail (posted w1) → dropped_client w w2 a o jobs.
Proof.
  intros [D1 D2 D3 (p & elem & mode & E1 & E2 & E3 & E4)] [U1 U2 U3] Hp. split; [done| | |].
  - intros a'. by rewrite U3, D2.
  - intros a' Ha. by rewrite U2, D3.
  - exists p, elem, mode. by rewrite U2, E3, Hp, E4.
Qed.

(** What is left of a posted death after it has run. *)
Lemma job_done_unseen w (x : option Rec) :
  CInv w →
  let w1 := w <| posted ::= tail |> in
  let w2 := match x with Some r => collect w1 r | None => w1 end in
  unseen w w2 ∧ posted w2 = tail (posted w).
Proof.
  intros Hi w1. pose proof (drop_job_unseen w Hi) as H1. fold w1 in H1. destruct x as [r|]; [|done].
  split; [by eapply unseen_trans, collect_unseen, H1|]. by destruct (collect_frame w1 r _ eq_refl) as (-> & _).
Qed.

Lemma RunFirst_spec w :
  CInv w → ∃ w1, RunFirst same_element w = Ret w1 ∧
    ((unseen w w1 ∧ posted w1 = tail (posted w)) ∨
     ∃ r a c o, head (posted w) = Some (CallConnectDied (Some r)) ∧ GetConCallBack w r = Some c ∧
       AsObject c = Some o ∧ dropped_client w w1 a o (tail (posted w))).
Proof.
  intros Hi. unfold RunFirst. destruct (posted w) as [|j l] eqn:Hp.
  { exists w. split; [done|]. left. split; [by apply unseen_refl|]. by rewrite Hp. }
  assert (w <| posted := l |> = w <| posted ::= tail |>) as Htl by (unfold assign; cbn; by rewrite Hp).
  assert (unseen w (w <| posted := l |>) ∧ posted (w <| posted := l |>) = l) as Hquiet
    by (split; [rewrite Htl; by apply drop_job_unseen|done]).
  destruct j as [c e s m|c e s|x]; [by eexists; split; [|left]..|].
  assert (∃ w1, OnCallConnectDied same_element w x = Ret w1 ∧ (w1 = w ∨ ∃ r a c o, x = Some r ∧
    GetConCallBack w r = Some c ∧ AsObject c = Some o ∧ dropped_client w w1 a o (posted w))) as (w1 & -> & Hw1).
  { destruct x as [r|]; [|by exists w; split; [|left]].
    destruct (OnCallConnectDied_spec w r Hi) as (w1 & -> & [->|(a & c & o & ? & ? & _ & ?)]).
    { apply (ok_jobs _ _ _ (inv_recs _ Hi)). rewrite Hp. by left. }
    - exists w. by split; [|left].
    - exists w1. split; [done|]. right. by exists r, a, c, o. }
  cbn [obind]. assert (CInv w1) as Hi1 by (destruct Hw1 as [->|(r & a & c & o & _ & _ & _ & [])]; done).
  destruct (job_done_unseen w1 x Hi1) as [Hu Hpo]. eexists. split; [done|].
  destruct Hw1 as [->|(r & a & c & o & -> & Hc & Ho & Hd)].
  - left. split; [exact Hu|]. etransitivity; [exact Hpo|]. by rewrite Hp.
  - right. exists r, a, c, o. split_and!; [done..|]. rewrite Hp in Hd. by eapply dropped_unseen.
Qed.

(** ** The end of an ability record *)

Lemma foldl_recipients_unseen a os w :
  CInv w → let w1 := foldl (λ w o, RemoveDeathRecipient w o (ConnectRecipient a)) w os in
  unseen w w1 ∧ posted w1 = posted w ∧ abilities w1 = abilities w.
Proof.
  revert w. induction os as [|o os IH]; intros w Hi; [by split; [apply unseen_refl|]|]. cbn.
  set (w1 := RemoveDeathRecipient w o (ConnectRecipient a)).
  assert (unseen w w1) as H1 by (by apply unseen_recipients).
  destruct (IH w1 (unseen_inv _ _ H1)) as (H2 & H3 & H4). split_and!; [by eapply unseen_trans|exact H3|exact H4].
Qed.

Record ended w w1 a : Prop := {
  ended_inv : CInv w1;
  ended_calls : calls w1 a = ∅;
  ended_others : ∀ a', a' ≠ a → calls w1 a' = calls w a' ∧ statics w1 a' = statics w a';
  ended_statics : statics w1 a = None;
}.

Lemma delete_ability_ended w a : CInv w → ended w (w <| abilities ::= delete a |>) a.
Proof.
  intros [H1 H2 H3]. set (w1 := w <| abilities ::= delete a |>).
  assert (∀ a', a' ≠ a → abilities w1 !! a' = abilities w !! a') as Hne by (intros; by apply lookup_delete_ne).
  assert (abilities w1 !! a = None) as Ha by apply lookup_delete_eq.
  assert (container w1 a = None) as Hc by (unfold container; by rewrite Ha).
  assert (∀ a', a' ≠ a → container w1 a' = container w a') as Hco by (intros; unfold container; by rewrite Hne).
  split; [split; [done|done|]| | |].
  - intros a' k Hk. destruct (decide (a' = a)) as [->|Hn]; [congruence|]. apply H3. by rewrite <-Hco.
  - unfold calls. by rewrite Hc.
  - intros a' Hn. unfold calls, statics. by rewrite Hco, Hne.
  - unfold statics. by rewrite Ha.
Qed.

Lemma ended_unseen w w1 w2 w3 a : unseen w w1 → ended w1 w2 a → unseen w2 w3 → ended w w3 a.
Proof.
  intros [_ A B] [C D E F] [G H I]. split; [done|by rewrite H| |by rewrite I].
  intros a' Ha. destruct (E a' Ha). by rewrite H, I, <-A, <-B.
Qed.

Lemma DestroyAbility_spec w a : CInv w → ended w (DestroyAbility w a) a ∧ posted (DestroyAbility w a) = posted w.
Proof.
  intros Hi. unfold DestroyAbility. destruct (abilities w !! a) as [x|] eqn:Hx.
  2:{ split; [|done]. split; [done| |done|]; [unfold calls, container|unfold statics]; by rewrite Hx. }
  destruct (callContainer_ x) as [k|]; [|by split; [apply delete_ability_ended|]].
  destruct (foldl_recipients_unseen a (elements (deathRecipientMap_ k)) w Hi) as (H1 & H2 & _).
  set (w1 := foldl _ w _) in *. pose proof (delete_ability_ended w1 a (unseen_inv _ _ H1)) as H3.
  set (rs := (map_iter (callRecordMap_ k)).*2). split; [|by rewrite foldl_collect_posted].
  eapply ended_unseen; [exact H1|exact H3|]. apply foldl_collect_unseen, H3.
Qed.

(** ** A call without a remote object *)

(** Only a record in no container changes, and its connection stays. *)
Lemma set_record_unseen w r f :
  CInv w → (∀ a k o, container w a = Some k → callRecordMap_ k !! o ≠ Some r) →
  (∀ rec, connCallback_ (f rec) = connCallback_ rec) → unseen w (set_record w r f).
Proof.
  intros Hi Hno Hf. apply unseen_frame; try done; [apply Hi| |].
  - destruct (inv_recs _ Hi) as [Hfr Hcn Hj]. split; cbn.
    + intros r' H. apply Hfr. by rewrite lookup_alter_is_Some in H.
    + intros r' rec H. apply lookup_alter_Some in H as [(<- & rec0 & H & ->)|[_ H]];
        [rewrite Hf|]; by eapply Hcn.
    + intros r' H. apply lookup_alter_is_Some. by apply Hj.
  - intros a k o r' Hk Hr. cbn. apply lookup_alter_ne. intros <-. by eapply Hno.
Qed.

Lemma same_unseen w w1 : same_calls w w1 → unseen w w1.
Proof. by intros [? ? _ ?]. Qed.

(** The record is not kept: the client never hears of the ability. *)
Lemma Resolve_no_object w a req c now :
  CInv w → is_Some (statics w a) → connect req = Some c → callType req = CALL_REQUEST_TYPE → AsObject c = None →
  let x := Resolve accepts w a req now in
  x.1 = OK_NO_REMOTE_OBJ ∧ unseen w x.2 ∧ posted x.2 = posted w.
Proof.
  intros Hi [[elem mode] Hst] Hc Ht Ho. unfold Resolve. rewrite Hc, Ht. cbn [negb Z.eqb CALL_REQUEST_TYPE Pos.eqb].
  destruct (ensure_container w a elem mode Hi Hst) as (Hsame & _ & _ & k & Hk).
  set (w1 := match container w a with Some _ => w | None => _ end) in *.
  unfold GetCallRecord. cbn [mbind option_bind]. rewrite Ho.
  destruct (CreateCallRecord_same w1 (callerUid req) a c (callerToken req) now (same_inv _ _ Hsame)) as (Hs & Hcn & Hno).
  destruct (CreateCallRecord w1 (callerUid req) a c (callerToken req) now) as [w2 r] eqn:Hcr. cbn [fst] in Hs, Hcn.
  assert (r = fresh_rec w1 ∧ IsCallState w2 r REQUESTED = false) as [-> Hst2].
  { unfold CreateCallRecord in Hcr. simplify_eq/=. split; [done|]. unfold IsCallState. cbn.
    rewrite lookup_insert_eq. done. }
  unfold AddCallRecord. rewrite Ho, Hst2. cbn [andb fst snd].
  assert (unseen w2 (SetCallState w2 (fresh_rec w1) REQUESTING)) as H3.
  { apply set_record_unseen; [apply Hs| |done]. intros a' k' o' Hk'. rewrite Hcn in Hk'. by eapply Hno. }
  split_and!; [done| |].
  - eapply unseen_trans; [|apply collect_unseen, H3]. eapply unseen_trans; [|exact H3].
    eapply unseen_trans; by apply same_unseen.
  - destruct (collect_frame (SetCallState w2 (fresh_rec w1) REQUESTING) (fresh_rec w1) _ eq_refl) as (-> & _).
    cbn. by rewrite (same_posted _ _ Hs), (same_posted _ _ Hsame).
Qed.

(** ** Runs *)

(** What happens to the containers: abilities come, become ready, move between mission
    lists and go; clients resolve and release; stubs arrive; remote objects die; the
    handler runs its first task. *)
Inductive COp :=
| OpAbility (a : Abi) (elem : ElementName) (mode : Z)
| OpReady (a : Abi) (ready scheduler : bool)
| OpLists (ml : MissionLists)
| OpResolve (a : Abi) (req : CallRequestInfo) (now : Z)
| OpDone (a : Abi) (callStub : option Z)
| OpRelease (connect : option Connection) (elem : ElementName)
| OpDied (o : Z)
| OpRun
| OpDestroy (a : Abi).

Definition cstep w (op : COp) : outcome CallWorld :=
  match op with
  | OpAbility a elem mode =>
      Ret (match abilities w !! a with
           | Some _ => w
           | None => w <| abilities ::= <[a := mkAbilityRecord elem mode false false None]> |>
           end)
  | OpReady a ready scheduler =>
      Ret (w <| abilities ::= alter (λ x, x <| isReady_ := ready |> <| scheduler_ := scheduler |>) a |>)
  | OpLists ml => Ret (w <| missionLists := ml |>)
  | OpResolve a req now => Ret (ResolveAbility accepts w (a ← Some a; _ ← abilities w !! a; Some a) req now).2
  | OpDone a callStub => Ret (CallRequestDone accepts w a callStub).2
  | OpRelease connect elem => let* x := ReleaseCallLocked same_element w connect elem in Ret x.2
  | OpDied o => Ret (RemoteDied w o)
  | OpRun => RunFirst same_element w
  | OpDestroy a => Ret (DestroyAbility w a)
  end.

Fixpoint crun w (ops : list COp) : outcome CallWorld :=
  match ops with [] => Ret w | op :: ops => let* w := cstep w op in crun w ops end.

(** The service has started: nothing is called, and nothing posted. *)
Definition no_calls (ml : MissionLists) : CallWorld := mkCallWorld ∅ 1 0 ∅ ∅ [] [] ml true.

Lemma no_calls_inv ml : CInv (no_calls ml).
Proof.
  split; [done| |done]. split; [by intros r [? ?]|done|]. cbn. intros r H. inversion H.
Qed.

(** Containers and records stay, elements may come. *)
Lemma CInv_abilities w f :
  CInv w → (∀ a, container (w <| abilities ::= f |>) a = container w a) → CInv (w <| abilities ::= f |>).
Proof. intros [H1 H2 H3] Hc. split; [done|done|]. intros a k Hk. rewrite Hc in Hk. by apply H3. Qed.

Lemma ReleaseCallLocked_spec w c o elem :
  CInv w → AsObject c = Some o →
  ∃ w1, (ReleaseCallLocked same_element w (Some c) elem = Ret (ERR_OK, w1) ∧
         ∃ a, a ∈ GetAbilityRecordsByName same_element w elem ∧ dropped_client w w1 a o (posted w)) ∨
        (ReleaseCallLocked same_element w (Some c) elem = Ret (RELEASE_CALL_ABILITY_INNER_ERR, w1) ∧ w1 = w ∧
         ∀ a, a ∈ GetAbilityRecordsByName same_element w elem → calls w a !! o = None).
Proof.
  intros Hi Ho. unfold ReleaseCallLocked. cbn [mbind option_bind]. rewrite Ho.
  destruct (find_connection_spec w (GetAbilityRecordsByName same_element w elem) c Hi) as (x & -> & Hx).
  cbn [obind]. destruct x as [a|].
  - destruct Hx as (Hin & o' & Ho' & Hcall). simplify_eq.
    destruct (ReleaseCall_drops w a c o Hi Ho Hcall) as [Hok Hd].
    destruct (ReleaseCall w a (Some c)) as [ok w1]. cbn in Hok, Hd. subst ok. exists w1. left. eauto.
  - exists w. right. split_and!; [done..|]. intros a Ha. by apply Hx.
Qed.

Lemma CallRequest_unseen w a : CInv w → unseen w (CallRequest w a).
Proof.
  intros Hi. unfold CallRequest. destruct (default _ _); [|by apply unseen_refl].
  apply unseen_frame; try done; apply Hi.
Qed.

Lemma Resolve_inv w a req now : CInv w → is_Some (statics w a) → CInv (Resolve accepts w a req now).2.
Proof.
  intros Hi [[elem mode] Hst]. destruct (connect req) as [c|] eqn:Hc; [|unfold Resolve; by rewrite Hc].
  destruct (decide (callType req = CALL_REQUEST_TYPE)) as [Ht|Ht].
  2:{ unfold Resolve. rewrite Hc. by apply Z.eqb_neq in Ht as ->. }
  destruct (AsObject c) as [o|] eqn:Ho.
  - pose proof (Resolve_spec accepts w a req c o now elem mode Hi Hst Hc Ht Ho) as H. unfold matches_spec in H.
    destruct (spec_resolve _ _ _ _ _) as [[ret m] out]. by destruct H as [_ []].
  - assert (is_Some (statics w a)) as Hs by (by eexists).
    by destruct (Resolve_no_object w a req c now Hi Hs Hc Ht Ho) as (_ & [] & _).
Qed.

Lemma ResolveAbility_inv w a req now :
  CInv w → is_Some (statics w a) → CInv (ResolveAbility accepts w (Some a) req now).2.
Proof.
  intros Hi Hst. pose proof (Resolve_inv w a req now Hi Hst) as H. unfold ResolveAbility.
  destruct (Resolve accepts w a req now) as [[| |] w1]; [|done..].
  destruct (IsReady w1 a); [|done]. apply CallRequest_unseen, H.
Qed.

Lemma CallRequestDone_inv w a s : CInv w → CInv (CallRequestDone accepts w a s).2.
Proof.
  intros Hi. destruct (container w a) as [k|] eqn:Hk; [|unfold CallRequestDone; by rewrite Hk].
  destruct s as [s|]; [|unfold CallRequestDone; by rewrite Hk].
  destruct (container_statics w a k Hk) as [[elem mode] Hst].
  pose proof (CallRequestDone_spec accepts s a elem mode w Hi Hst (ex_intro _ k Hk)) as H.
  destruct (CallRequestDone _ _ _ _) as [ok w1]. destruct (spec_done _ _ _ _) as [m out]. by destruct H as [_ []].
Qed.

Lemma cstep_ok w op : CInv w → ∃ w1, cstep w op = Ret w1 ∧ CInv w1.
Proof.
  intros Hi. destruct op as [a elem mode|a rd sc|ml|a req now|a s|[c|] elem|o| |a]; cbn [cstep].
  - eexists. split; [done|]. destruct (abilities w !! a) eqn:Ha; [done|]. apply CInv_abilities; [done|].
    intros a'. unfold container. cbn. destruct (decide (a = a')) as [<-|Hn];
      [by rewrite lookup_insert_eq, Ha|by rewrite lookup_insert_ne].
  - eexists. split; [done|]. apply CInv_abilities; [done|].
    intros a'. unfold container. cbn. destruct (decide (a = a')) as [<-|Hn];
      [rewrite lookup_alter_eq; by destruct (abilities w !! a)|by rewrite lookup_alter_ne].
  - eexists. split; [done|]. by destruct Hi.
  - eexists. split; [done|]. cbn. destruct (abilities w !! a) as [x|] eqn:Ha; [|done].
    apply ResolveAbility_inv; [done|]. unfold statics. rewrite Ha. by eexists.
  - eexists. split; [done|]. by apply CallRequestDone_inv.
  - destruct (AsObject c) as [o|] eqn:Ho; [|exists w; unfold ReleaseCallLocked; cbn; by rewrite Ho].
    destruct (ReleaseCallLocked_spec w c o elem Hi Ho) as (w1 & [(-> & a & _ & Hd)|(-> & -> & _)]);
      eexists; (split; [done|]); [apply Hd|done].
  - by exists w.
  - eexists. split; [done|]. by destruct (RemoteDied_unseen w o Hi) as [[] _].
  - destruct (RunFirst_spec w Hi) as (w1 & Hr & [[[] _]|(r & a & c & o & _ & _ & _ & [])]); by exists w1.
  - eexists. split; [done|]. by destruct (DestroyAbility_spec w a Hi) as [[] _].
Qed.

Lemma crun_ok ops w : CInv w → ∃ w1, crun w ops = Ret w1 ∧ CInv w1.
Proof.
  revert w. induction ops as [|op ops IH]; intros w Hi; [by exists w|].
  cbn. destruct (cstep_ok w op Hi) as (w1 & -> & Hi1). cbn. by apply IH.
Qed.

(** A stub is to be asked for exactly while a client waits. *)
Lemma IsNeedToCallRequest_spec w a :
  CInv w → IsNeedToCallRequest w a = true ↔ ∃ o c, calls w a !! o = Some (Waiting c).
Proof.
  intros Hi. unfold IsNeedToCallRequest, Container_IsNeedToCallRequest, calls.
  destruct (container w a) as [k|] eqn:Hk; [|split; [done|by intros (? & ? & ?)]].
  pose proof (ok_records _ _ _ (inv_containers _ Hi a k Hk)) as Hrs.
  rewrite existsb_exists. setoid_rewrite lookup_calls_in. split.
  - intros ([o r] & Hin & Hst). apply list_elem_of_In, elem_of_map_iter in Hin.
    destruct (Hrs o r Hin) as (rec & p & Hrec & _ & Hp & _). unfold IsCallState in Hst. cbn in Hst.
    rewrite Hrec in Hst. apply negb_true_iff, bool_decide_eq_false_1 in Hst. cbn in Hst. destruct p as [c|c s].
    + exists o, c. rewrite Hin. cbn. by rewrite Hrec.
    + unfold phase_of in Hp. by destruct (connCallback_ rec), (state_ rec), (callRemoteObject_ rec); simplify_eq.
  - intros (o & c & H). apply bind_Some in H as (r & Hr & (rec & Hrec & Hp)%bind_Some). exists (o, r).
    split; [by apply list_elem_of_In, elem_of_map_iter|]. unfold IsCallState. cbn. rewrite Hrec.
    apply negb_true_iff, bool_decide_eq_false_2. intros [= Hq]. unfold phase_of in Hp. rewrite Hq in Hp.
    by destruct (connCallback_ rec), (callRemoteObject_ rec).
Qed.

(** [w] answers the calls of clients as the specification does. *)
Definition answers w : Prop :=
  (∀ a req c o now elem mode, statics w a = Some (elem, mode) → connect req = Some c →
     callType req = CALL_REQUEST_TYPE → AsObject c = Some o →
     let '(ret, m, out) := spec_resolve (calls w a) o c elem mode in
     let '(ret', w') := Resolve accepts w a req now in ret' = ret ∧ step_ok w w' a m out) ∧
  (∀ a s elem mode, statics w a = Some (elem, mode) → is_Some (container w a) →
     let '(m, out) := spec_done (calls w a) s elem mode in
     let '(ok, w') := CallRequestDone accepts w a (Some s) in ok = true ∧ step_ok w w' a m out) ∧
  (∀ a c o elem mode, statics w a = Some (elem, mode) → AsObject c = Some o →
     let '(ok, m, out) := spec_release (calls w a) o elem in
     let '(ok', w') := ReleaseCall w a (Some c) in ok' = ok ∧ step_ok w w' a m out) ∧
  (∀ a, IsNeedToCallRequest w a = true ↔ ∃ o c, calls w a !! o = Some (Waiting c)).

Lemma CInv_answers w : CInv w → answers w.
Proof.
  intros Hi. split_and!.
  - intros a req c o now elem mode Hst Hc Ht Ho.
    pose proof (Resolve_spec accepts w a req c o now elem mode Hi Hst Hc Ht Ho) as H. unfold matches_spec in H.
    destruct (spec_resolve _ _ _ _ _) as [[ret m] out]. by destruct (Resolve accepts w a req now).
  - intros a s elem mode Hst Hk. pose proof (CallRequestDone_spec accepts s a elem mode w Hi Hst Hk) as H.
    destruct (spec_done _ _ _ _). by destruct (CallRequestDone accepts w a (Some s)).
  - intros a c o elem mode Hst Ho. pose proof (ReleaseCall_spec w a c o elem mode Hi Hst Ho) as H.
    destruct (spec_release _ _ _) as [[ok m] out]. by destruct (ReleaseCall w a (Some c)).
  - intros a. by apply IsNeedToCallRequest_spec.
Qed.

(** C4: from the start of the service, whatever abilities come and go and whatever is
    called, released, answered, dies and runs, no call is undefined, and the containers
    implement the clients of each ability as a map: a resolve makes the client wait, or,
    when it holds the stub, tells it the stub again; a stub that arrives is told to exactly
    the clients that wait, in the order of the map; a release drops the client, tells it,
    and reports whether it was known; the ability is asked for its stub exactly while a
    client waits. A death posts tasks and changes no client; a task that runs drops at
    most the client of the connection it is about, and tells it; the end of an ability
    drops its clients only. *)
Theorem call_protocol (ml : MissionLists) (ops : list COp) :
  ∃ w, crun (no_calls ml) ops = Ret w ∧ answers w ∧
    (∀ o, ∃ out, posted (RemoteDied w o) = posted w ++ out ∧ only_deaths out ∧
       ∀ a, calls (RemoteDied w o) a = calls w a) ∧
    (∃ w', RunFirst same_element w = Ret w' ∧
       (((∀ a, calls w' a = calls w a) ∧ posted w' = tail (posted w)) ∨
        ∃ r a c o, head (posted w) = Some (CallConnectDied (Some r)) ∧ GetConCallBack w r = Some c ∧
          AsObject c = Some o ∧ dropped_client w w' a o (tail (posted w)))) ∧
    (∀ a, calls (DestroyAbility w a) a = ∅ ∧ ∀ a', a' ≠ a → calls (DestroyAbility w a) a' = calls w a').
Proof.
  destruct (crun_ok ops (no_calls ml) (no_calls_inv ml)) as (w & Hr & Hi). exists w.
  split_and!; [done|by apply CInv_answers| | |].
  - intros o. destruct (RemoteDied_unseen w o Hi) as [[_ Hv _] (out & Hp & Hd)]. by exists out.
  - destruct (RunFirst_spec w Hi) as (w' & Hr' & [[[_ Hv _] Hp]|H]); exists w'; (split; [done|]); [by left|by right].
  - intros a. destruct (DestroyAbility_spec w a Hi) as [[_ Hc Ho _] _]. split; [done|]. intros a' Ha.
    by destruct (Ho a' Ha).
Qed.
End Runs.

(** ** A run *)

Definition demo_element : ElementName := mkElementName "" "app" "Main" "entry".
Definition demo_client : Connection := mkConnection 5 (Some 10%Z).
Definition demo_request : CallRequestInfo := mkCallRequestInfo CALL_REQUEST_TYPE (Some demo_client) 100 None.

(** A client calls, is told the stub, its process dies, and the posted task drops it. *)
Example call_run :
  (let* w := crun (λ _, true) (λ e e', bool_decide (e = e'))
       (no_calls (mkMissionLists [Some [Some 1%positive]] None None None))
       [OpAbility 1 demo_element 0; OpResolve 1 demo_request 7; OpDone 1 (Some 99%Z); OpDied 10; OpRun; OpRun] in
   Ret (posted w, calls w 1, map_to_list (callRecords w))) =
  Ret ([OnAbilityDisconnectDone demo_client demo_element ERR_OK], ∅, []).
Proof. vm_compute. reflexivity. Qed.
