(* ===== verification/ConnectionState.v ===== *)
(** * Connections reported to observers

    [services/abilitymgr/src/connection_state_manager.cpp],
    [connection_state_item.cpp], [connection_observer_controller.cpp] and
    [dlp_state_item.cpp]: which extensions and data abilities each process is connected
    to, what observers are told of it, and the abilities a manager of protected
    documents has opened.

    The maps [connectionStates_] and [dlpItems_] are hash maps: the order in which they
    are visited is a parameter [visit]. Remote objects and tokens are numbers. *)

From stdpp Require Import prelude gmap strings list sorting.
From Stdlib Require Import ZArith Lia.
From S2P Require Import Prelude.

(** ** Data *)

Definition ERR_INVALID_OBSERVER : Z := 2228225.
Definition ERR_SERVICE_NOT_INIT : Z := 2228230.
Definition MAX_RETRY : Z := 10.
Definition MAX_APP_CLONE_INDEX : Z := 1000.
Definition DLP_BUNDLE_NAME : string := "com.ohos.dlpmanager".

(** The types of the bundle framework, as far as they are named here. *)
Inductive ExtensionAbilityType :=
| EXT_SERVICE | EXT_DATASHARE | EXT_WINDOW | EXT_UI_SERVICE | EXT_WORK_SCHEDULER | EXT_BACKUP | EXT_SHARE
| EXT_OTHER (n : Z).
#[global] Instance ExtensionAbilityType_eq_dec : EqDecision ExtensionAbilityType.
Proof. solve_decision. Defined.
Inductive AbilityType := TYPE_SERVICE | TYPE_DATA | TYPE_EXTENSION | TYPE_OTHER (n : Z).
#[global] Instance AbilityType_eq_dec : EqDecision AbilityType.
Proof. solve_decision. Defined.

(** What is read of an ability record. *)
Record Target := mkTarget {
  GetToken : option Z;
  GetPid : Z;
  GetUid : Z;
  bundleName : string;
  moduleName : string;
  name : string;
  extensionAbilityType : ExtensionAbilityType;
  abilityType : AbilityType;
  GetAppIndex : Z;
  GetOwnerMissionUserId : Z;
}.

(** What is read of a [ConnectionRecord]; [GetConnection] is the remote object of its
    callback. *)
Record ConnectionRecord := mkConnectionRecord {
  GetCallerUid : Z;
  GetCallerPid : Z;
  GetCallerName : string;
  GetAbilityRecord : option Target;
  GetConnection : option Z;
}.

Record DataAbilityCaller := mkDataAbilityCaller {
  isNotHap : bool;
  callerPid : Z;
  callerUid : Z;
  callerName : string;
  callerToken : option Z;
}.

Record ConnectionData := mkConnectionData {
  data_extensionPid : Z;
  data_extensionUid : Z;
  data_extensionBundleName : string;
  data_extensionModuleName : string;
  data_extensionName : string;
  data_extensionType : ExtensionAbilityType;
  data_callerUid : Z;
  data_callerPid : Z;
  data_callerName : string;
}.
#[global] Instance ConnectionData_eq_dec : EqDecision ConnectionData.
Proof. solve_decision. Defined.

Record DlpStateData := mkDlpStateData {
  dlp_targetPid : Z;
  dlp_targetUid : Z;
  dlp_targetBundleName : string;
  dlp_targetModuleName : string;
  dlp_targetAbilityName : string;
  dlp_callerUid : Z;
  dlp_callerPid : Z;
  dlp_callerName : string;
}.
#[global] Instance DlpStateData_eq_dec : EqDecision DlpStateData.
Proof. solve_decision. Defined.

(** ** [ConnectedExtension] and [ConnectedDataAbility] *)

Record ConnectedExtension := mkConnectedExtension {
  extensionPid_ : Z;
  extensionUid_ : Z;
  extensionBundleName_ : string;
  extensionModuleName_ : string;
  extensionName_ : string;
  extensionType_ : ExtensionAbilityType;
  connections_ : gset Z;
}.
#[global] Instance reconstruct_ConnectedExtension : Reconstruct ConnectedExtension := λ e,
  mkConnectedExtension (extensionPid_ e) (extensionUid_ e) (extensionBundleName_ e) (extensionModuleName_ e)
    (extensionName_ e) (extensionType_ e) (connections_ e).

Definition CreateConnectedExtension (record : ConnectionRecord) : option ConnectedExtension :=
  target ← GetAbilityRecord record;
  Some (mkConnectedExtension (GetPid target) (GetUid target) (bundleName target) (moduleName target) (name target)
    (match abilityType target with
     | TYPE_SERVICE => EXT_SERVICE
     | TYPE_DATA => EXT_DATASHARE
     | TYPE_EXTENSION | TYPE_OTHER _ => extensionAbilityType target
     end) ∅).

Definition Extension_AddConnection (e : ConnectedExtension) (connection : Z) : bool * ConnectedExtension :=
  let needNotify := bool_decide (connections_ e = ∅) in
  (needNotify, e <| connections_ ::= λ S, {[connection]} ∪ S |>).

Definition Extension_RemoveConnection (e : ConnectedExtension) (connection : Z) : bool * ConnectedExtension :=
  let e := e <| connections_ ::= λ S, S ∖ {[connection]} |> in
  (bool_decide (connections_ e = ∅), e).

Record CallerInfo := mkCallerInfo { isNotHap_ : bool; callerPid_of : Z; callerToken_ : option Z }.

Record ConnectedDataAbility := mkConnectedDataAbility {
  dataAbilityPid_ : Z;
  dataAbilityUid_ : Z;
  bundleName_ : string;
  moduleName_ : string;
  abilityName_ : string;
  callers_ : list CallerInfo;
}.
#[global] Instance reconstruct_ConnectedDataAbility : Reconstruct ConnectedDataAbility := λ e,
  mkConnectedDataAbility (dataAbilityPid_ e) (dataAbilityUid_ e) (bundleName_ e) (moduleName_ e)
    (abilityName_ e) (callers_ e).

(** A [DataAbilityRecord] is its ability record, which may be null. *)
Definition CreateConnectedDataAbility (record : option Target) : option ConnectedDataAbility :=
  target ← record;
  Some (mkConnectedDataAbility (GetPid target) (GetUid target) (bundleName target) (moduleName target)
    (name target) []).

Definition same_caller (caller : DataAbilityCaller) (info : CallerInfo) : bool :=
  if isNotHap caller then isNotHap_ info && (callerPid_of info =? callerPid caller)%Z
  else bool_decide (callerToken_ info = callerToken caller).

Definition no_caller (caller : DataAbilityCaller) : bool :=
  negb (isNotHap caller) && bool_decide (callerToken caller = None).

Definition AddCaller (e : ConnectedDataAbility) (caller : DataAbilityCaller) : bool * ConnectedDataAbility :=
  if no_caller caller then (false, e)
  else
    let needNotify := bool_decide (callers_ e = []) in
    match find_if (same_caller caller) (callers_ e) with
    | Some _ => (needNotify, e)
    | None =>
        (needNotify,
         e <| callers_ ::= λ l, l ++ [mkCallerInfo (isNotHap caller) (callerPid caller) (callerToken caller)] |>)
    end.

Definition RemoveCaller (e : ConnectedDataAbility) (caller : DataAbilityCaller) : bool * ConnectedDataAbility :=
  if no_caller caller then (false, e)
  else
    let e := e <| callers_ ::= erase_first (same_caller caller) |> in
    (bool_decide (callers_ e = []), e).

(** ** [ConnectionStateItem]: the connections of one process *)

Record ConnectionStateItem := mkConnectionStateItem {
  callerUid_ : Z;
  callerPid_ : Z;
  callerName_ : string;
  connectionMap_ : gmap Z ConnectedExtension;
  dataAbilityMap_ : gmap Z ConnectedDataAbility;
}.
#[global] Instance reconstruct_ConnectionStateItem : Reconstruct ConnectionStateItem := λ i,
  mkConnectionStateItem (callerUid_ i) (callerPid_ i) (callerName_ i) (connectionMap_ i) (dataAbilityMap_ i).

Implicit Types (i : ConnectionStateItem) (record : ConnectionRecord) (caller : DataAbilityCaller).

Definition CreateConnectionStateItem record : ConnectionStateItem :=
  mkConnectionStateItem (GetCallerUid record) (GetCallerPid record) (GetCallerName record) ∅ ∅.
Definition CreateConnectionStateItem_data caller : ConnectionStateItem :=
  mkConnectionStateItem (callerUid caller) (callerPid caller) (callerName caller) ∅ ∅.

Definition GenerateConnectionData i (e : ConnectedExtension) : ConnectionData :=
  mkConnectionData (extensionPid_ e) (extensionUid_ e) (extensionBundleName_ e) (extensionModuleName_ e)
    (extensionName_ e) (extensionType_ e) (callerUid_ i) (callerPid_ i) (callerName_ i).
Definition GenerateConnectionData_data i (e : ConnectedDataAbility) : ConnectionData :=
  mkConnectionData (dataAbilityPid_ e) (dataAbilityUid_ e) (bundleName_ e) (moduleName_ e)
    (abilityName_ e) EXT_DATASHARE (callerUid_ i) (callerPid_ i) (callerName_ i).

Definition GetTargetToken record : option Z := GetAbilityRecord record ≫= GetToken.

(** The data is there exactly if observers are to be told. *)
Definition Item_AddConnection i record : option ConnectionData * ConnectionStateItem :=
  match GetTargetToken record, GetConnection record with
  | Some token, Some connectionObj =>
      let connectedExtension :=
        match connectionMap_ i !! token with
        | Some e => Some e
        | None => CreateConnectedExtension record
        end in
      match connectedExtension with
      | None => (None, i)
      | Some e =>
          let '(needNotify, e) := Extension_AddConnection e connectionObj in
          let i := i <| connectionMap_ ::= <[token := e]> |> in
          (if needNotify then Some (GenerateConnectionData i e) else None, i)
      end
  | _, _ => (None, i)
  end.

Definition Item_RemoveConnection i record : option ConnectionData * ConnectionStateItem :=
  match GetTargetToken record, GetConnection record with
  | Some token, Some connectionObj =>
      match connectionMap_ i !! token with
      | None => (None, i)
      | Some e =>
          let '(needNotify, e) := Extension_RemoveConnection e connectionObj in
          if needNotify
          then (Some (GenerateConnectionData i e), i <| connectionMap_ ::= delete token |>)
          else (None, i <| connectionMap_ ::= <[token := e]> |>)
      end
  | _, _ => (None, i)
  end.

Definition Item_AddDataAbilityConnection i caller (dataAbility : option Target)
    : option ConnectionData * ConnectionStateItem :=
  match dataAbility ≫= GetToken with
  | None => (None, i)
  | Some token =>
      let connectedAbility :=
        match dataAbilityMap_ i !! token with
        | Some e => Some e
        | None => CreateConnectedDataAbility dataAbility
        end in
      match connectedAbility with
      | None => (None, i)
      | Some e =>
          let '(needNotify, e) := AddCaller e caller in
          let i := i <| dataAbilityMap_ ::= <[token := e]> |> in
          (if needNotify then Some (GenerateConnectionData_data i e) else None, i)
      end
  end.

Definition Item_RemoveDataAbilityConnection i caller (dataAbility : option Target)
    : option ConnectionData * ConnectionStateItem :=
  match dataAbility ≫= GetToken with
  | None => (None, i)
  | Some token =>
      match dataAbilityMap_ i !! token with
      | None => (None, i)
      | Some e =>
          let '(needNotify, e) := RemoveCaller e caller in
          if needNotify
          then (Some (GenerateConnectionData_data i e), i <| dataAbilityMap_ ::= delete token |>)
          else (None, i <| dataAbilityMap_ ::= <[token := e]> |>)
      end
  end.

Definition Item_HandleDataAbilityDied i (token : Z) : option ConnectionData * ConnectionStateItem :=
  match dataAbilityMap_ i !! token with
  | None => (None, i)
  | Some e => (Some (GenerateConnectionData_data i e), i <| dataAbilityMap_ ::= delete token |>)
  end.

Definition IsEmpty i : bool :=
  bool_decide (connectionMap_ i = ∅) && bool_decide (dataAbilityMap_ i = ∅).

Definition GenerateAllConnectionData i : list ConnectionData :=
  ((λ x, GenerateConnectionData i x.2) <$> map_iter (connectionMap_ i)) ++
  ((λ x, GenerateConnectionData_data i x.2) <$> map_iter (dataAbilityMap_ i)).

(** ** [DlpStateItem]: the abilities a manager of protected documents has opened *)

Record DlpStateItem := mkDlpStateItem {
  dlpUid_ : Z;
  dlpPid_ : Z;
  dlpAbilities_ : list Z;
}.
#[global] Instance reconstruct_DlpStateItem : Reconstruct DlpStateItem := λ d,
  mkDlpStateItem (dlpUid_ d) (dlpPid_ d) (dlpAbilities_ d).

Definition GenerateDlpStateData (d : DlpStateItem) (dlpAbility : Target) : DlpStateData :=
  mkDlpStateData (GetPid dlpAbility) (GetUid dlpAbility) (bundleName dlpAbility) (moduleName dlpAbility)
    (name dlpAbility) (dlpUid_ d) (dlpPid_ d) DLP_BUNDLE_NAME.

Definition HandleDlpConnectionState (d : DlpStateItem) (record : option Target) (isAdd : bool)
    : option DlpStateData * DlpStateItem :=
  match record with
  | None => (None, d)
  | Some x =>
      if (GetAppIndex x <=? MAX_APP_CLONE_INDEX)%Z then (None, d)
      else if (dlpUid_ d =? 0)%Z || (dlpPid_ d =? 0)%Z then (None, d)
      else
        match GetToken x with
        | None => (None, d)
        | Some tokenObj =>
            let it := find_if (λ item, Z.eqb tokenObj item) (dlpAbilities_ d) in
            if isAdd then
              match it with
              | Some _ => (None, d)
              | None => (Some (GenerateDlpStateData d x), d <| dlpAbilities_ ::= λ l, l ++ [tokenObj] |>)
              end
            else
              match it with
              | None => (None, d)
              | Some _ =>
                  (Some (GenerateDlpStateData d x),
                   d <| dlpAbilities_ ::= erase_first (λ item, Z.eqb tokenObj item) |>)
              end
        end
  end.

Definition AddDlpConnectionState (d : DlpStateItem) (record : option Target) := HandleDlpConnectionState d record true.
Definition RemoveDlpConnectionState (d : DlpStateItem) (record : option Target) :=
  HandleDlpConnectionState d record false.
Definition GetOpenedAbilitySize (d : DlpStateItem) : Z := i32 (Z.of_nat (length (dlpAbilities_ d))).

(** ** [ConnectionObserverController] *)

(** An observer: the proxy and the remote object behind it. *)
Record Observer := mkObserver { obs_proxy : Z; obs_object : option Z }.
#[global] Instance Observer_eq_dec : EqDecision Observer.
Proof. solve_decision. Defined.

Inductive Event :=
| OnExtensionConnected (d : ConnectionData)
| OnExtensionDisconnected (d : ConnectionData)
| OnDlpAbilityOpened (d : DlpStateData)
| OnDlpAbilityClosed (d : DlpStateData).
#[global] Instance Event_eq_dec : EqDecision Event.
Proof. solve_decision. Defined.

(** [told] is the calls of observers, in order; [recipients] the remote objects with the
    death recipient of the controller; [initTasks] the posted retries. *)
Record ConnState := mkConnState {
  observerController_ : option (list Observer);
  recipients : list Z;
  connectionStates_ : gmap Z ConnectionStateItem;
  dlpItems_ : gmap Z DlpStateItem;
  handler_ : bool;
  retry_ : Z;
  appStateObserver_ : bool;
  initTasks : nat;
  told : list (Observer * Event);
}.
#[global] Instance reconstruct_ConnState : Reconstruct ConnState := λ s,
  mkConnState (observerController_ s) (recipients s) (connectionStates_ s) (dlpItems_ s) (handler_ s) (retry_ s)
    (appStateObserver_ s) (initTasks s) (told s).

Implicit Types (s : ConnState) (o : Observer).

Definition same_object (x : option Z) o : bool := bool_decide (obs_object o = x).

(** A remote object takes a death recipient unless it is dead. *)
Definition AddObserver (accepts : Z → bool) s (observers : list Observer) (observer : option Observer) : Z * ConnState :=
  match observer with
  | None => (ERR_INVALID_OBSERVER, s)
  | Some o =>
      match find_if (same_object (obs_object o)) observers with
      | Some _ => (0%Z, s)
      | None =>
          let s := match obs_object o with
                   | Some x => if accepts x then s <| recipients ::= λ l, l ++ [x] |> else s
                   | None => s
                   end in
          (0%Z, s <| observerController_ := Some (observers ++ [o]) |>)
      end
  end.

Definition RemoveObserver s (observers : list Observer) (observer : option Observer) : ConnState :=
  match observer with
  | None => s
  | Some o => s <| observerController_ := Some (erase_first (same_object (obs_object o)) observers) |>
  end.

Definition CallObservers s (observers : list Observer) (e : Event) : ConnState :=
  s <| told ::= λ l, l ++ ((λ o, (o, e)) <$> observers) |>.

(** The remote object of an observer dies. *)
Definition HandleRemoteDied s (remoteObj : Z) : ConnState :=
  match observerController_ s with
  | None => s
  | Some observers =>
      s <| recipients ::= filter (λ x, x ≠ remoteObj) |>
        <| observerController_ := Some (erase_first (same_object (Some remoteObj)) observers) |>
  end.

(** ** [ConnectionStateManager] *)

Section Manager.
Variable accepts : Z → bool.
(** The order in which a hash map is visited. *)
Variable visit : ∀ A : Type, gmap Z A → list (Z * A).

Definition RegisterObserver s (observer : option Observer) : Z * ConnState :=
  match observerController_ s with
  | None => (ERR_SERVICE_NOT_INIT, s)
  | Some observers => AddObserver accepts s observers observer
  end.

Definition UnregisterObserver s (observer : option Observer) : Z * ConnState :=
  match observerController_ s with
  | None => (ERR_SERVICE_NOT_INIT, s)
  | Some observers => (0%Z, RemoveObserver s observers observer)
  end.

Definition set_item s (pid : Z) i : ConnState := s <| connectionStates_ ::= <[pid := i]> |>.

Definition AddConnectionInner s record : option ConnectionData * ConnState :=
  let pid := GetCallerPid record in
  let targetItem := default (CreateConnectionStateItem record) (connectionStates_ s !! pid) in
  let '(data, i) := Item_AddConnection targetItem record in
  (data, set_item s pid i).

(** [if (result && targetItem->IsEmpty()) erase], else the item as it is. *)
Definition keep_item s (pid : Z) i (data : option ConnectionData) : ConnState :=
  if bool_decide (is_Some data) && IsEmpty i then s <| connectionStates_ ::= delete pid |> else set_item s pid i.

Definition RemoveConnectionInner s record : option ConnectionData * ConnState :=
  let pid := GetCallerPid record in
  match connectionStates_ s !! pid with
  | None => (None, s)
  | Some targetItem =>
      let '(data, i) := Item_RemoveConnection targetItem record in
      (data, keep_item s pid i data)
  end.

Definition AddDataAbilityConnectionInner s caller (record : option Target) : option ConnectionData * ConnState :=
  let pid := callerPid caller in
  let targetItem := default (CreateConnectionStateItem_data caller) (connectionStates_ s !! pid) in
  let '(data, i) := Item_AddDataAbilityConnection targetItem caller record in
  (data, set_item s pid i).

Definition RemoveDataAbilityConnectionInner s caller (record : option Target) : option ConnectionData * ConnState :=
  let pid := callerPid caller in
  match connectionStates_ s !! pid with
  | None => (None, s)
  | Some targetItem =>
      let '(data, i) := Item_RemoveDataAbilityConnection targetItem caller record in
      (data, keep_item s pid i data)
  end.

(** The end of the calls that may have something to tell. *)
Definition tell s (observers : list Observer) (e : ConnectionData → Event) (data : option ConnectionData) : ConnState :=
  match data with None => s | Some d => CallObservers s observers (e d) end.

Definition AddConnection s (connectionRecord : option ConnectionRecord) : ConnState :=
  match observerController_ s, connectionRecord with
  | Some controller, Some record =>
      let '(data, s) := AddConnectionInner s record in tell s controller OnExtensionConnected data
  | _, _ => s
  end.

Definition RemoveDiedCaller s (pid : Z) : option ConnectionStateItem * ConnState :=
  match connectionStates_ s !! pid with
  | None => (None, s)
  | Some stateItem => (Some stateItem, s <| connectionStates_ ::= delete pid |>)
  end.

Definition tell_all s (allData : list ConnectionData) : ConnState :=
  match observerController_ s with
  | None => s
  | Some controller => foldl (λ s d, CallObservers s controller (OnExtensionDisconnected d)) s allData
  end.

Definition HandleCallerDied s (pid : Z) : ConnState :=
  match RemoveDiedCaller s pid with
  | (None, s) => s
  | (Some i, s) => tell_all s (GenerateAllConnectionData i)
  end.

Definition RemoveConnection s (connectionRecord : option ConnectionRecord) (isCallerDied : bool) : ConnState :=
  match observerController_ s, connectionRecord with
  | Some controller, Some record =>
      if isCallerDied then HandleCallerDied s (GetCallerPid record)
      else let '(data, s) := RemoveConnectionInner s record in tell s controller OnExtensionDisconnected data
  | _, _ => s
  end.

(** A [DataAbilityRecord] may be null, and so may its ability record. *)
Definition CheckDataAbilityConnectionParams s caller (record : option (option Target)) : bool :=
  bool_decide (is_Some (observerController_ s)) && bool_decide (is_Some record) && negb (callerPid caller =? 0)%Z.

Definition AddDataAbilityConnection s caller (record : option (option Target)) : ConnState :=
  if CheckDataAbilityConnectionParams s caller record then
    let '(data, s) := AddDataAbilityConnectionInner s caller (mjoin record) in
    tell s (default [] (observerController_ s)) OnExtensionConnected data
  else s.

Definition RemoveDataAbilityConnection s caller (record : option (option Target)) : ConnState :=
  if CheckDataAbilityConnectionParams s caller record then
    let '(data, s) := RemoveDataAbilityConnectionInner s caller (mjoin record) in
    tell s (default [] (observerController_ s)) OnExtensionDisconnected data
  else s.

(** The loop over the items, with what it collects. *)
Fixpoint data_died_loop s (l : list (Z * ConnectionStateItem)) (token : Z) (allData : list ConnectionData)
    : list ConnectionData * ConnState :=
  match l with
  | [] => (allData, s)
  | (pid, i) :: l =>
      let '(data, i) := Item_HandleDataAbilityDied i token in
      let allData := allData ++ match data with Some d => [d] | None => [] end in
      let s := if IsEmpty i then s <| connectionStates_ ::= delete pid |> else set_item s pid i in
      data_died_loop s l token allData
  end.

Definition HandleDataAbilityDiedInner s (token : Z) : list ConnectionData * ConnState :=
  data_died_loop s (visit _ (connectionStates_ s)) token [].

Definition HandleDataAbilityDied s (record : option (option Target)) : ConnState :=
  match mjoin record ≫= GetToken with
  | None => s
  | Some token => let '(allData, s) := HandleDataAbilityDiedInner s token in tell_all s allData
  end.

Definition HandleDataAbilityCallerDied s (pid : Z) : ConnState :=
  if (pid <=? 0)%Z then s else HandleCallerDied s pid.

Definition HandleAppDied s (pid : Z) : ConnState := HandleCallerDied s pid.

Definition GetConnectionData s : list ConnectionData :=
  visit _ (connectionStates_ s) ≫= λ x, GenerateAllConnectionData x.2.

(** *** Protected documents *)

Definition AddDlpManager s (dlpManger : option Target) : ConnState :=
  match dlpManger with
  | None => s
  | Some x =>
      match dlpItems_ s !! GetOwnerMissionUserId x with
      | Some _ => s
      | None => s <| dlpItems_ ::= <[GetOwnerMissionUserId x := mkDlpStateItem (GetUid x) (GetPid x) []]> |>
      end
  end.

Definition RemoveDlpManager s (dlpManger : option Target) : ConnState :=
  match dlpManger with
  | None => s
  | Some x => s <| dlpItems_ ::= delete (GetOwnerMissionUserId x) |>
  end.

Definition HandleDlpAbilityInner s (dlpAbility : option Target) (isAdd : bool) : option DlpStateData * ConnState :=
  match dlpAbility with
  | None => (None, s)
  | Some x =>
      if (GetAppIndex x <=? MAX_APP_CLONE_INDEX)%Z then (None, s)
      else
        match dlpItems_ s !! GetOwnerMissionUserId x with
        | None => (None, s)
        | Some dlpItem =>
            let '(data, dlpItem) :=
              if isAdd then AddDlpConnectionState dlpItem dlpAbility
              else RemoveDlpConnectionState dlpItem dlpAbility in
            (data, s <| dlpItems_ ::= <[GetOwnerMissionUserId x := dlpItem]> |>)
        end
  end.

Definition AddDlpAbility s (dlpAbility : option Target) : ConnState :=
  match observerController_ s with
  | None => s
  | Some controller =>
      match HandleDlpAbilityInner s dlpAbility true with
      | (None, s) => s
      | (Some d, s) => CallObservers s controller (OnDlpAbilityOpened d)
      end
  end.

Definition RemoveDlpAbility s (dlpAbility : option Target) : ConnState :=
  match observerController_ s with
  | None => s
  | Some controller =>
      match HandleDlpAbilityInner s dlpAbility false with
      | (None, s) => s
      | (Some d, s) => CallObservers s controller (OnDlpAbilityClosed d)
      end
  end.

(** The number of opened abilities by the user of the manager. *)
Definition GetDlpConnectionInfos s : list (Z * Z) :=
  (λ x, (dlpUid_ x.2, GetOpenedAbilitySize x.2)) <$> visit _ (dlpItems_ s).

(** *** Initialization *)

(** [appManager] is the answer of the application manager to the registration, if there
    is one. *)
Definition InitAppStateObserver s (appManager : option Z) : ConnState :=
  if appStateObserver_ s then s
  else
    match appManager with
    | None =>
        if (retry_ s <? MAX_RETRY)%Z && handler_ s
        then s <| initTasks ::= S |> <| retry_ := i32 (retry_ s + 1) |>
        else s
    | Some err => if negb (err =? 0)%Z then s <| appStateObserver_ := false |> else s <| appStateObserver_ := true |>
    end.

Definition Init s (handler : bool) (appManager : option Z) : ConnState :=
  let s := match observerController_ s with
           | None => s <| observerController_ := Some [] |>
           | Some _ => s
           end in
  let s := s <| handler_ := handler |> in
  if negb handler then InitAppStateObserver s appManager
  else s <| initTasks ::= S |>.

(** A posted initialization runs. *)
Definition RunInit s (appManager : option Z) : ConnState :=
  match initTasks s with
  | O => s
  | S n => InitAppStateObserver (s <| initTasks := n |>) appManager
  end.
End Manager.
