(* ===== verification/ConnectionTheorems.v ===== *)
(** * Theorems on the connections reported to observers

    An observer that adds what it is told to be connected and takes off what it is told
    to be disconnected holds, at any time, what the manager answers when it is asked. *)

From stdpp Require Import prelude gmap strings list sorting.
From Stdlib Require Import ZArith Lia.
From S2P Require Import Prelude ConnectionState.

Implicit Types (s : ConnState) (o : Observer) (i : ConnectionStateItem) (record : ConnectionRecord)
  (caller : DataAbilityCaller) (d : ConnectionData).

(** ** The values of a map, as a bag *)

Section Bag.
Context {A B : Type} (f : A → list B).
Implicit Types (m : gmap Z A) (x y : A).

Definition bag m : list B := map_to_list m ≫= λ e, f e.2.

Lemma bag_empty : bag ∅ = [].
Proof. unfold bag. by rewrite map_to_list_empty. Qed.

Lemma bag_visited m (l : list (Z * A)) : l ≡ₚ map_to_list m → (l ≫= λ e, f e.2) ≡ₚ bag m.
Proof. intros H. unfold bag. by rewrite H. Qed.

Lemma bag_delete m (k : Z) x : m !! k = Some x → bag m ≡ₚ f x ++ bag (delete k m).
Proof.
  intros Hk. unfold bag. rewrite <-(map_to_list_delete m k x) by done. done.
Qed.

Lemma bag_insert m (k : Z) x : bag (<[k := x]> m) ≡ₚ f x ++ bag (delete k m).
Proof. rewrite (bag_delete _ k x) by apply lookup_insert_eq. by rewrite delete_insert_eq. Qed.

Lemma bag_lookup m (k : Z) : bag m ≡ₚ default [] (f <$> m !! k) ++ bag (delete k m).
Proof.
  destruct (m !! k) as [x|] eqn:Hk; [by apply bag_delete|]. by rewrite delete_id.
Qed.

Lemma delete_set m (k : Z) (y : option A) : delete k (partial_alter (λ _, y) k m) = delete k m.
Proof.
  apply map_eq. intros j. destruct (decide (k = j)) as [<-|Hne]; [by rewrite !lookup_delete_eq|].
  by rewrite !lookup_delete_ne, lookup_partial_alter_ne.
Qed.
End Bag.

(** ** The data of an item *)

Definition ext_data i : gmap Z ConnectedExtension → list ConnectionData :=
  bag (λ e, [GenerateConnectionData i e]).
Definition dab_data i : gmap Z ConnectedDataAbility → list ConnectionData :=
  bag (λ e, [GenerateConnectionData_data i e]).

Lemma iter_bag {A : Type} (f : A → ConnectionData) (m : gmap Z A) :
  (λ x, f x.2) <$> map_iter m ≡ₚ bag (λ e, [f e]) m.
Proof.
  rewrite <-(bag_visited (λ e, [f e]) m (map_iter m)) by apply map_iter_Permutation.
  induction (map_iter m) as [|[k x] l IH]; [done|]. cbn. by rewrite IH.
Qed.

Lemma item_data i :
  GenerateAllConnectionData i ≡ₚ ext_data i (connectionMap_ i) ++ dab_data i (dataAbilityMap_ i).
Proof. unfold GenerateAllConnectionData. by rewrite !iter_bag. Qed.

(** No extension without connections and no data ability without callers. *)
Record item_ok i : Prop := {
  ok_extensions : ∀ t e, connectionMap_ i !! t = Some e → connections_ e ≠ ∅;
  ok_abilities : ∀ t e, dataAbilityMap_ i !! t = Some e → callers_ e ≠ [];
}.

(** What is told agrees with what changes. *)
Definition connects i i' (data : option ConnectionData) : Prop :=
  GenerateAllConnectionData i' ≡ₚ option_list data ++ GenerateAllConnectionData i.
Definition disconnects i i' (data : option ConnectionData) : Prop :=
  GenerateAllConnectionData i ≡ₚ option_list data ++ GenerateAllConnectionData i'.

(** The two maps of an item are changed at one token. *)
Lemma ext_change i t (e' : option ConnectedExtension) :
  let i' := i <| connectionMap_ ::= partial_alter (λ _, e') t |> in
  ∃ rest, GenerateAllConnectionData i ≡ₚ
            default [] ((λ e, [GenerateConnectionData i e]) <$> connectionMap_ i !! t) ++ rest ∧
          GenerateAllConnectionData i' ≡ₚ default [] ((λ e, [GenerateConnectionData i e]) <$> e') ++ rest.
Proof.
  intros i'. exists (ext_data i (delete t (connectionMap_ i)) ++ dab_data i (dataAbilityMap_ i)).
  rewrite !item_data. change (ext_data i') with (ext_data i). change (dab_data i') with (dab_data i).
  change (dataAbilityMap_ i') with (dataAbilityMap_ i).
  change (connectionMap_ i') with (partial_alter (λ _, e') t (connectionMap_ i)).
  unfold ext_data. rewrite (bag_lookup _ (connectionMap_ i) t), (bag_lookup _ (partial_alter _ _ _) t).
  by rewrite lookup_partial_alter_eq, delete_set, <-!app_assoc.
Qed.

Lemma dab_change i t (e' : option ConnectedDataAbility) :
  let i' := i <| dataAbilityMap_ ::= partial_alter (λ _, e') t |> in
  ∃ rest, GenerateAllConnectionData i ≡ₚ
            default [] ((λ e, [GenerateConnectionData_data i e]) <$> dataAbilityMap_ i !! t) ++ rest ∧
          GenerateAllConnectionData i' ≡ₚ default [] ((λ e, [GenerateConnectionData_data i e]) <$> e') ++ rest.
Proof.
  intros i'. exists (ext_data i (connectionMap_ i) ++ dab_data i (delete t (dataAbilityMap_ i))).
  rewrite !item_data. change (ext_data i') with (ext_data i). change (dab_data i') with (dab_data i).
  change (connectionMap_ i') with (connectionMap_ i).
  change (dataAbilityMap_ i') with (partial_alter (λ _, e') t (dataAbilityMap_ i)).
  unfold dab_data. rewrite (bag_lookup _ (dataAbilityMap_ i) t), (bag_lookup _ (partial_alter _ _ _) t).
  rewrite lookup_partial_alter_eq, delete_set. split; by rewrite Permutation_app_swap_app.
Qed.

Lemma item_ok_ext i t e' :
  item_ok i → (∀ e, e' = Some e → connections_ e ≠ ∅) →
  item_ok (i <| connectionMap_ ::= partial_alter (λ _, e') t |>).
Proof.
  intros [H1 H2] He. split; cbn; [|done]. intros t' e. destruct (decide (t = t')) as [<-|Hne].
  - rewrite lookup_partial_alter_eq. apply He.
  - rewrite lookup_partial_alter_ne by done. apply H1.
Qed.

Lemma item_ok_dab i t e' :
  item_ok i → (∀ e, e' = Some e → callers_ e ≠ []) →
  item_ok (i <| dataAbilityMap_ ::= partial_alter (λ _, e') t |>).
Proof.
  intros [H1 H2] He. split; cbn; [done|]. intros t' e. destruct (decide (t = t')) as [<-|Hne].
  - rewrite lookup_partial_alter_eq. apply He.
  - rewrite lookup_partial_alter_ne by done. apply H2.
Qed.

(** ** The calls of an item *)

Lemma connects_none i : item_ok i → item_ok i ∧ connects i i None.
Proof. intros H. split; [done|]. unfold connects. reflexivity. Qed.
Lemma disconnects_none i : item_ok i → item_ok i ∧ disconnects i i None.
Proof. intros H. split; [done|]. unfold disconnects. reflexivity. Qed.

Lemma Item_AddConnection_ok i record :
  item_ok i → item_ok (Item_AddConnection i record).2 ∧
    connects i (Item_AddConnection i record).2 (Item_AddConnection i record).1.
Proof.
  intros Hi. unfold Item_AddConnection.
  destruct (GetTargetToken record) as [t|]; [|by apply connects_none]. destruct (GetConnection record) as [c|]; [|by apply connects_none].
  assert (∀ e : ConnectedExtension, connections_ (e <| connections_ ::= λ S, {[c]} ∪ S |>) ≠ ∅) as Hne
    by (intros e; cbn; set_solver).
  destruct (connectionMap_ i !! t) as [e|] eqn:He; [|destruct (CreateConnectedExtension record) as [e|] eqn:Hc; [|by apply connects_none]].
  - cbn [Extension_AddConnection]. pose proof (ok_extensions _ Hi t e He) as Hnz.
    rewrite bool_decide_eq_false_2 by done. set (e1 := e <| connections_ ::= _ |>).
    split; [by apply (item_ok_ext i t (Some e1)); [|intros ? [= <-]; apply Hne]|].
    destruct (ext_change i t (Some e1)) as (rest & H1 & H2). rewrite He in H1.
    unfold connects. cbn [option_list app fst snd]. rewrite H1. exact H2.
  - assert (connections_ e = ∅) as Hz.
    { unfold CreateConnectedExtension in Hc. apply bind_Some in Hc as (x & _ & [= <-]). done. }
    unfold Extension_AddConnection. rewrite bool_decide_eq_true_2 by done. set (e1 := e <| connections_ ::= _ |>).
    split; [by apply (item_ok_ext i t (Some e1)); [|intros ? [= <-]; apply Hne]|].
    destruct (ext_change i t (Some e1)) as (rest & H1 & H2). rewrite He in H1. cbn in H1.
    unfold connects. cbn [option_list app fst snd]. rewrite H1. exact H2.
Qed.

Lemma Item_RemoveConnection_ok i record :
  item_ok i → item_ok (Item_RemoveConnection i record).2 ∧
    disconnects i (Item_RemoveConnection i record).2 (Item_RemoveConnection i record).1.
Proof.
  intros Hi. unfold Item_RemoveConnection.
  destruct (GetTargetToken record) as [t|]; [|by apply disconnects_none]. destruct (GetConnection record) as [c|]; [|by apply disconnects_none].
  destruct (connectionMap_ i !! t) as [e|] eqn:He; [|by apply disconnects_none].
  unfold Extension_RemoveConnection. set (e1 := e <| connections_ ::= _ |>). case_bool_decide as Hz.
  - split; [by apply (item_ok_ext i t None)|].
    destruct (ext_change i t None) as (rest & H1 & H2). rewrite He in H1. cbn in H2.
    unfold disconnects. cbn [option_list fst snd]. rewrite H1. by rewrite <-H2.
  - split; [by apply (item_ok_ext i t (Some e1)); [|intros ? [= <-]]|].
    destruct (ext_change i t (Some e1)) as (rest & H1 & H2). rewrite He in H1.
    unfold disconnects. cbn [option_list app fst snd]. rewrite H1. symmetry. exact H2.
Qed.

Lemma AddCaller_notify (e : ConnectedDataAbility) caller :
  no_caller caller = false →
  (AddCaller e caller).1 = bool_decide (callers_ e = []) ∧ callers_ (AddCaller e caller).2 ≠ [] ∧
  ∀ i, GenerateConnectionData_data i (AddCaller e caller).2 = GenerateConnectionData_data i e.
Proof.
  intros Hc. unfold AddCaller. rewrite Hc. destruct (find_if _ _) as [x|] eqn:Hf; cbn.
  - split_and!; [done| |done]. apply find_if_elem in Hf as [Hx _]. intros Hn. rewrite Hn in Hx. by inversion Hx.
  - split_and!; [done| |done]. by destruct (callers_ e).
Qed.

Lemma Item_AddDataAbilityConnection_ok i caller (x : option Target) :
  item_ok i → no_caller caller = false →
  item_ok (Item_AddDataAbilityConnection i caller x).2 ∧
    connects i (Item_AddDataAbilityConnection i caller x).2 (Item_AddDataAbilityConnection i caller x).1.
Proof.
  intros Hi Hc. unfold Item_AddDataAbilityConnection. destruct (x ≫= GetToken) as [t|]; [|by apply connects_none].
  assert (∀ e, (∀ e0, dataAbilityMap_ i !! t = Some e0 → e0 = e) →
    (dataAbilityMap_ i !! t = None → callers_ e = []) →
    let '(needNotify, e') := AddCaller e caller in
    let i' := i <| dataAbilityMap_ ::= <[t := e']> |> in
    item_ok i' ∧ connects i i' (if needNotify then Some (GenerateConnectionData_data i' e') else None)) as Hadd.
  { intros e Hsome Hnone. destruct (AddCaller_notify e caller Hc) as (H1 & H2 & H3).
    destruct (AddCaller e caller) as [b e'] eqn:He'. cbn in H1, H2, H3. intros i'.
    split; [apply (item_ok_dab i t (Some e')); [done|by intros ? [= <-]]|].
    destruct (dab_change i t (Some e')) as (rest & P1 & P2). unfold connects. rewrite P1.
    change (GenerateConnectionData_data i' e') with (GenerateConnectionData_data i e'). rewrite H1.
    cbn [fmap option_fmap option_map default app] in P2.
    destruct (dataAbilityMap_ i !! t) as [e0|] eqn:Hl.
    - specialize (Hsome e0 eq_refl) as ->. rewrite bool_decide_eq_false_2 by (by eapply ok_abilities).
      cbn. rewrite <-(H3 i). exact P2.
    - rewrite bool_decide_eq_true_2 by auto. cbn. exact P2. }
  destruct (dataAbilityMap_ i !! t) as [e|] eqn:Hl.
  - specialize (Hadd e). destruct (AddCaller e caller). apply Hadd; [by intros ? [= ->]|done].
  - destruct (CreateConnectedDataAbility x) as [e|] eqn:Hx; [|by apply connects_none].
    specialize (Hadd e). destruct (AddCaller e caller). apply Hadd; [done|]. intros _.
    unfold CreateConnectedDataAbility in Hx. by apply bind_Some in Hx as (y & _ & [= <-]).
Qed.

Lemma Item_RemoveDataAbilityConnection_ok i caller (x : option Target) :
  item_ok i →
  item_ok (Item_RemoveDataAbilityConnection i caller x).2 ∧
    disconnects i (Item_RemoveDataAbilityConnection i caller x).2 (Item_RemoveDataAbilityConnection i caller x).1.
Proof.
  intros Hi. unfold Item_RemoveDataAbilityConnection. destruct (x ≫= GetToken) as [t|]; [|by apply disconnects_none].
  destruct (dataAbilityMap_ i !! t) as [e|] eqn:He; [|by apply disconnects_none].
  assert ((RemoveCaller e caller).1 = false → callers_ (RemoveCaller e caller).2 ≠ []) as Hne.
  { unfold RemoveCaller. destruct (no_caller caller); [intros _; by eapply ok_abilities|].
    cbn. by case_bool_decide. }
  assert (∀ i, GenerateConnectionData_data i (RemoveCaller e caller).2 = GenerateConnectionData_data i e) as Hg
    by (intros i0; unfold RemoveCaller; by destruct (no_caller caller)).
  destruct (RemoveCaller e caller) as [b e1]. cbn in Hne, Hg. destruct b.
  - split; [by apply (item_ok_dab i t None)|].
    destruct (dab_change i t None) as (rest & H1 & H2). rewrite He in H1. cbn in H2.
    unfold disconnects. cbn [option_list fst snd]. rewrite H1, Hg. by rewrite <-H2.
  - split; [apply (item_ok_dab i t (Some e1)); [done|intros ? [= <-]; by apply Hne]|].
    destruct (dab_change i t (Some e1)) as (rest & H1 & H2). rewrite He in H1.
    unfold disconnects. cbn [option_list app fst snd]. rewrite H1. symmetry.
    cbn [fmap option_fmap option_map default] in H2 |- *. rewrite <-(Hg i). exact H2.
Qed.

Lemma Item_HandleDataAbilityDied_ok i (t : Z) :
  item_ok i → item_ok (Item_HandleDataAbilityDied i t).2 ∧
    disconnects i (Item_HandleDataAbilityDied i t).2 (Item_HandleDataAbilityDied i t).1.
Proof.
  intros Hi. unfold Item_HandleDataAbilityDied. destruct (dataAbilityMap_ i !! t) as [e|] eqn:He; [|by apply disconnects_none].
  split; [by apply (item_ok_dab i t None)|].
  destruct (dab_change i t None) as (rest & H1 & H2). rewrite He in H1. cbn in H2.
  unfold disconnects. cbn [option_list fst snd]. rewrite H1. by rewrite <-H2.
Qed.

(** ** What an observer holds *)

Definition hear1 (held : list ConnectionData) (e : Event) : option (list ConnectionData) :=
  match e with
  | OnExtensionConnected d => Some (d :: held)
  | OnExtensionDisconnected d =>
      if decide (d ∈ held) then Some (erase_first (λ x, bool_decide (x = d)) held) else None
  | OnDlpAbilityOpened _ | OnDlpAbilityClosed _ => Some held
  end.

(** [None]: a disconnection of something that is not connected. *)
Fixpoint hear (held : list ConnectionData) (evs : list Event) : option (list ConnectionData) :=
  match evs with
  | [] => Some held
  | e :: evs => held ← hear1 held e; hear held evs
  end.

Definition hears o (log : list (Observer * Event)) : list Event :=
  omap (λ x, if decide (x.1 = o) then Some x.2 else None) log.

(** Hearing [evs] the observer gets from [l] to [l'], up to the order. *)
Definition tracks (l : list ConnectionData) (evs : list Event) (l' : list ConnectionData) : Prop :=
  ∃ h, hear l evs = Some h ∧ h ≡ₚ l'.

Lemma erase_eq_perm d (l1 l2 : list ConnectionData) :
  l1 ≡ₚ d :: l2 → d ∈ l1 ∧ erase_first (λ x, bool_decide (x = d)) l1 ≡ₚ l2.
Proof.
  intros H. assert (d ∈ l1) as Hin by (rewrite H; by left). split; [done|].
  destruct (find_if_is_Some (λ x, bool_decide (x = d)) l1) as [x Hx].
  { exists d. split; [done|]. by apply bool_decide_eq_true_2. }
  pose proof (erase_first_Permutation _ _ _ Hx) as Hp.
  apply find_if_elem in Hx as [_ ->%bool_decide_eq_true_1]. symmetry.
  apply (Permutation_cons_inv (a := d)). by rewrite <-H.
Qed.

Lemma hear1_perm l1 l2 e h1 :
  l1 ≡ₚ l2 → hear1 l1 e = Some h1 → ∃ h2, hear1 l2 e = Some h2 ∧ h1 ≡ₚ h2.
Proof.
  intros Hp. destruct e as [d|d|d|d]; cbn; [| |by intros [= <-]; eauto..].
  - intros [= <-]. eexists. split; [done|]. by rewrite Hp.
  - destruct (decide (d ∈ l1)) as [Hin|]; [|done]. intros [= <-]. rewrite decide_True by (by rewrite <-Hp).
    eexists. split; [done|]. apply list_elem_of_split_l in Hin as (u & v & -> & _).
    assert (u ++ d :: v ≡ₚ d :: u ++ v) as H1 by (by rewrite Permutation_middle).
    destruct (erase_eq_perm d _ _ H1) as [_ ->]. rewrite Hp in H1. by destruct (erase_eq_perm d _ _ H1) as [_ ->].
Qed.

Lemma hear_perm evs l1 l2 h1 :
  l1 ≡ₚ l2 → hear l1 evs = Some h1 → ∃ h2, hear l2 evs = Some h2 ∧ h1 ≡ₚ h2.
Proof.
  revert l1 l2. induction evs as [|e evs IH]; intros l1 l2 Hp H; cbn in *; [simplify_eq; eauto|].
  apply bind_Some in H as (m1 & H1 & H). destruct (hear1_perm l1 l2 e m1 Hp H1) as (m2 & -> & Hm). cbn. by eapply IH.
Qed.

Lemma tracks_none l l' : l ≡ₚ l' → tracks l [] l'.
Proof. intros H. by exists l. Qed.

Lemma tracks_app l e1 l1 e2 l2 : tracks l e1 l1 → tracks l1 e2 l2 → tracks l (e1 ++ e2) l2.
Proof.
  intros (h1 & H1 & P1) (h2 & H2 & P2).
  assert (hear l (e1 ++ e2) = hear h1 e2) as Happ.
  { revert l H1. induction e1 as [|e e1 IH]; intros l H1; cbn in *; [by simplify_eq|].
    apply bind_Some in H1 as (m & Hm & H1). rewrite Hm. cbn. by apply IH. }
  destruct (hear_perm e2 l1 h1 h2) as (h & Hh & P); [done..|].
  exists h. split; [by rewrite Happ|]. by rewrite <-P, <-P2.
Qed.

Lemma tracks_perm l1 l evs l' l2 : l1 ≡ₚ l → tracks l evs l' → l' ≡ₚ l2 → tracks l1 evs l2.
Proof.
  intros H1 (h & Hh & Hp) H2. symmetry in H1. destruct (hear_perm evs l l1 h H1 Hh) as (h1 & Hh1 & P1).
  exists h1. split; [done|]. by rewrite <-P1, Hp.
Qed.

Lemma tracks_connect l d l' : l' ≡ₚ d :: l → tracks l [OnExtensionConnected d] l'.
Proof. intros H. exists (d :: l). by rewrite H. Qed.

Lemma tracks_disconnect l d l' : l ≡ₚ d :: l' → tracks l [OnExtensionDisconnected d] l'.
Proof.
  intros H. destruct (erase_eq_perm d l l' H) as [Hin Hp]. eexists. cbn. by rewrite decide_True.
Qed.

Lemma tracks_disconnect_all ds l l' : l ≡ₚ ds ++ l' → tracks l (OnExtensionDisconnected <$> ds) l'.
Proof.
  revert l. induction ds as [|d ds IH]; intros l H; [by apply tracks_none|].
  apply (tracks_app _ [OnExtensionDisconnected d] (ds ++ l')); [by apply tracks_disconnect|by apply IH].
Qed.

Lemma hears_app o l1 l2 : hears o (l1 ++ l2) = hears o l1 ++ hears o l2.
Proof. apply omap_app. Qed.

Lemma hears_cons o x l : hears o (x :: l) = (if decide (x.1 = o) then [x.2] else []) ++ hears o l.
Proof. unfold hears. cbn. by destruct (decide (x.1 = o)). Qed.

Lemma hears_call o (obs : list Observer) (e : Event) :
  NoDup (obs_object <$> obs) → o ∈ obs → hears o ((λ o', (o', e)) <$> obs) = [e].
Proof.
  intros Hnd Hin. apply NoDup_fmap_1 in Hnd. induction Hnd as [|x obs Hx Hnd IH]; [by inversion Hin|].
  assert (∀ l : list Observer, o ∉ l → hears o ((λ o', (o', e)) <$> l) = []) as Hout.
  { induction l as [|y l IHl]; [done|]. intros [Hy Hl]%not_elem_of_cons. rewrite fmap_cons, hears_cons.
    rewrite decide_False by (intros H; by symmetry in H). by apply IHl. }
  rewrite fmap_cons, hears_cons. apply elem_of_cons in Hin as [<-|Hin].
  - rewrite decide_True by done. by rewrite Hout.
  - rewrite decide_False by (cbn; congruence). by apply IH.
Qed.

(** ** The manager *)

Record SInv s : Prop := {
  inv_items : ∀ pid i, connectionStates_ s !! pid = Some i → item_ok i;
  inv_observers : ∀ obs, observerController_ s = Some obs → NoDup (obs_object <$> obs);
}.

Definition registered o s : Prop := ∃ obs, observerController_ s = Some obs ∧ o ∈ obs.

Definition all_data s : list ConnectionData := bag GenerateAllConnectionData (connectionStates_ s).

(** A step that keeps the invariant and the observer, and tells it what changes. *)
Record informs o s s' : Prop := {
  inf_inv : SInv s';
  inf_registered : registered o s';
  inf_told : ∃ out, told s' = told s ++ out ∧ tracks (all_data s) (hears o out) (all_data s');
}.

Lemma informs_same o s s' :
  SInv s → registered o s → connectionStates_ s' = connectionStates_ s →
  (∀ obs, observerController_ s' = Some obs → NoDup (obs_object <$> obs)) → registered o s' → told s' = told s →
  informs o s s'.
Proof.
  intros Hi Hr Hc Ho Hr' Ht. split; [|done|].
  - split; [|done]. rewrite Hc. apply Hi.
  - exists []. rewrite Ht, app_nil_r. split; [done|]. apply tracks_none. unfold all_data. by rewrite Hc.
Qed.

(** The maps of items change at one process. *)
Lemma items_ok_set s pid (x : option ConnectionStateItem) :
  SInv s → (∀ i, x = Some i → item_ok i) →
  SInv (s <| connectionStates_ ::= partial_alter (λ _, x) pid |>).
Proof.
  intros [H1 H2] Hx. split; cbn; [|done]. intros pid' i. destruct (decide (pid = pid')) as [<-|Hne].
  - rewrite lookup_partial_alter_eq. apply Hx.
  - rewrite lookup_partial_alter_ne by done. apply H1.
Qed.

Definition data_of (x : option ConnectionStateItem) : list ConnectionData := default [] (GenerateAllConnectionData <$> x).

Lemma all_data_set s pid (x : option ConnectionStateItem) :
  ∃ rest, all_data s ≡ₚ data_of (connectionStates_ s !! pid) ++ rest ∧
    all_data (s <| connectionStates_ ::= partial_alter (λ _, x) pid |>) ≡ₚ data_of x ++ rest.
Proof.
  exists (bag GenerateAllConnectionData (delete pid (connectionStates_ s))). unfold all_data.
  split; [apply bag_lookup|]. cbn. rewrite (bag_lookup _ _ pid), lookup_partial_alter_eq. by rewrite delete_set.
Qed.

(** Observers are told of the change of one item, or nothing when nothing changes. *)
Lemma told_change o s (obs : list Observer) pid x (data : option ConnectionData) (ev : ConnectionData → Event) :
  SInv s → observerController_ s = Some obs → o ∈ obs → (∀ i, x = Some i → item_ok i) →
  (∀ rest, tracks (data_of (connectionStates_ s !! pid) ++ rest) (ev <$> option_list data) (data_of x ++ rest)) →
  informs o s (tell (s <| connectionStates_ ::= partial_alter (λ _, x) pid |>) obs ev data).
Proof.
  intros Hi Ho Hin Hx Ht. pose proof (items_ok_set s pid x Hi Hx) as Hi'.
  destruct (all_data_set s pid x) as (rest & P1 & P2). set (s1 := s <| connectionStates_ ::= _ |>) in *.
  assert (tracks (all_data s) (ev <$> option_list data) (all_data s1)) as Htr.
  { eapply tracks_perm; [exact P1|apply Ht|by symmetry]. }
  destruct data as [d|]; cbn [tell option_list] in *.
  - split; [by destruct Hi'|by exists obs|]. eexists. split; [done|].
    rewrite hears_call by (done || by eapply inv_observers). exact Htr.
  - split; [done|by exists obs|]. exists []. by rewrite app_nil_r.
Qed.

(** The events of an item whose data grows, and of one whose data shrinks. *)
Lemma connects_tracks i i' data rest :
  connects i i' data →
  tracks (GenerateAllConnectionData i ++ rest) (OnExtensionConnected <$> option_list data)
    (GenerateAllConnectionData i' ++ rest).
Proof.
  unfold connects. intros H. destruct data as [d|]; cbn in *.
  - apply tracks_connect. by rewrite H.
  - apply tracks_none. by rewrite H.
Qed.

Lemma disconnects_tracks i i' data rest :
  disconnects i i' data →
  tracks (GenerateAllConnectionData i ++ rest) (OnExtensionDisconnected <$> option_list data)
    (GenerateAllConnectionData i' ++ rest).
Proof.
  unfold disconnects. intros H. destruct data as [d|]; cbn in *.
  - apply tracks_disconnect. by rewrite H.
  - apply tracks_none. by rewrite H.
Qed.

Lemma IsEmpty_data i : IsEmpty i = true → GenerateAllConnectionData i = [].
Proof.
  unfold IsEmpty. intros [H1%bool_decide_eq_true_1 H2%bool_decide_eq_true_1]%andb_true_iff.
  apply Permutation_nil_r. rewrite item_data, H1, H2. unfold ext_data, dab_data. by rewrite !bag_empty.
Qed.

(** A new item has no data. *)
Lemma connects_default s pid i0 i' data rest :
  GenerateAllConnectionData i0 = [] →
  connects (default i0 (connectionStates_ s !! pid)) i' data →
  tracks (data_of (connectionStates_ s !! pid) ++ rest) (OnExtensionConnected <$> option_list data)
    (data_of (Some i') ++ rest).
Proof.
  intros H0 Hc. destruct (connectionStates_ s !! pid) as [i|]; cbn in *.
  - by apply connects_tracks.
  - rewrite <-(app_nil_l rest) at 1. rewrite <-H0. by apply connects_tracks.
Qed.

Lemma item_ok_default s pid i0 : SInv s → item_ok i0 → item_ok (default i0 (connectionStates_ s !! pid)).
Proof. intros Hi H0. destruct (connectionStates_ s !! pid) as [i|] eqn:Hp; [by eapply inv_items|done]. Qed.

Lemma AddConnection_informs o s (r : option ConnectionRecord) :
  SInv s → registered o s → informs o s (AddConnection s r).
Proof.
  intros Hi (obs & Ho & Hin). unfold AddConnection. rewrite Ho. destruct r as [record|];
    [|apply informs_same; [done|by exists obs|done|apply Hi|by exists obs|done]].
  unfold AddConnectionInner. set (i0 := CreateConnectionStateItem record).
  assert (item_ok i0) as H0 by (by split). pose proof (item_ok_default s (GetCallerPid record) i0 Hi H0) as Hd.
  destruct (Item_AddConnection_ok _ record Hd) as [Hok Hc].
  destruct (Item_AddConnection _ record) as [data i'] eqn:Hit. cbn in Hok, Hc.
  apply (told_change o s obs (GetCallerPid record) (Some i')); [done..|by intros ? [= <-]|].
  intros rest. eapply (connects_default s _ i0); [by apply IsEmpty_data|exact Hc].
Qed.

Lemma AddDataAbilityConnection_informs o s caller (r : option (option Target)) :
  SInv s → registered o s → no_caller caller = false → informs o s (AddDataAbilityConnection s caller r).
Proof.
  intros Hi (obs & Ho & Hin) Hnc. unfold AddDataAbilityConnection.
  destruct (CheckDataAbilityConnectionParams s caller r);
    [|apply informs_same; [done|by exists obs|done|apply Hi|by exists obs|done]].
  unfold AddDataAbilityConnectionInner. set (i0 := CreateConnectionStateItem_data caller).
  assert (item_ok i0) as H0 by (by split). pose proof (item_ok_default s (callerPid caller) i0 Hi H0) as Hd.
  destruct (Item_AddDataAbilityConnection_ok _ caller (mjoin r) Hd Hnc) as [Hok Hc].
  destruct (Item_AddDataAbilityConnection _ caller (mjoin r)) as [data i'] eqn:Hit. cbn in Hok, Hc.
  change (observerController_ (set_item s (callerPid caller) i')) with (observerController_ s). rewrite Ho.
  apply (told_change o s obs (callerPid caller) (Some i')); [done..|by intros ? [= <-]|].
  intros rest. eapply (connects_default s _ i0); [by apply IsEmpty_data|exact Hc].
Qed.

(** An item that gave something up, and is erased when it is empty. *)
Lemma keep_item_informs o s (obs : list Observer) pid i i' data :
  SInv s → observerController_ s = Some obs → o ∈ obs → connectionStates_ s !! pid = Some i →
  item_ok i' → disconnects i i' data →
  informs o s (tell (keep_item s pid i' data) obs OnExtensionDisconnected data).
Proof.
  intros Hi Ho Hin Hp Hok Hd. unfold keep_item. destruct (_ && IsEmpty i') eqn:He.
  - apply andb_true_iff in He as [_ He]. apply (told_change o s obs pid None); [done..|].
    intros rest. rewrite Hp. cbn. rewrite <-(app_nil_l rest) at 2. rewrite <-(IsEmpty_data i' He).
    by apply disconnects_tracks.
  - apply (told_change o s obs pid (Some i')); [done..|by intros ? [= <-]|].
    intros rest. rewrite Hp. by apply disconnects_tracks.
Qed.

Lemma RemoveConnection_live_informs o s record :
  SInv s → registered o s → informs o s (RemoveConnection s (Some record) false).
Proof.
  intros Hi (obs & Ho & Hin). unfold RemoveConnection, RemoveConnectionInner. rewrite Ho.
  destruct (connectionStates_ s !! GetCallerPid record) as [i|] eqn:Hp;
    [|apply informs_same; [done|by exists obs|done|apply Hi|by exists obs|done]].
  destruct (Item_RemoveConnection_ok i record (inv_items _ Hi _ _ Hp)) as [Hok Hd].
  destruct (Item_RemoveConnection i record) as [data i']. by eapply keep_item_informs.
Qed.

Lemma RemoveDataAbilityConnection_informs o s caller (r : option (option Target)) :
  SInv s → registered o s → informs o s (RemoveDataAbilityConnection s caller r).
Proof.
  intros Hi (obs & Ho & Hin). assert (informs o s s) as Hsame
    by (apply informs_same; [done|by exists obs|done|apply Hi|by exists obs|done]).
  unfold RemoveDataAbilityConnection. destruct (CheckDataAbilityConnectionParams s caller r); [|done].
  unfold RemoveDataAbilityConnectionInner.
  destruct (connectionStates_ s !! callerPid caller) as [i|] eqn:Hp; [|done].
  destruct (Item_RemoveDataAbilityConnection_ok i caller (mjoin r) (inv_items _ Hi _ _ Hp)) as [Hok Hd].
  destruct (Item_RemoveDataAbilityConnection i caller (mjoin r)) as [data i'].
  assert (observerController_ (keep_item s (callerPid caller) i' data) = Some obs) as Hk
    by (unfold keep_item; by destruct (_ && _)).
  rewrite Hk. by eapply keep_item_informs.
Qed.

(** Everything in [ds] is told to be disconnected. *)
Lemma tell_all_informs o s s1 (ds : list ConnectionData) :
  SInv s1 → registered o s1 → told s1 = told s → all_data s ≡ₚ ds ++ all_data s1 → informs o s (tell_all s1 ds).
Proof.
  intros Hi (obs & Ho & Hin) Ht Hd. unfold tell_all. rewrite Ho.
  assert (∀ s2, SInv s2 → observerController_ s2 = Some obs →
    let s3 := foldl (λ s d, CallObservers s obs (OnExtensionDisconnected d)) s2 ds in
    SInv s3 ∧ observerController_ s3 = Some obs ∧ connectionStates_ s3 = connectionStates_ s2 ∧
    ∃ out, told s3 = told s2 ++ out ∧ hears o out = OnExtensionDisconnected <$> ds) as Hfold.
  { clear Hd. induction ds as [|d ds IH]; intros s2 H2 Ho2; cbn.
    - split_and!; [done..|]. exists []. by rewrite app_nil_r.
    - set (s3 := CallObservers s2 obs (OnExtensionDisconnected d)).
      destruct (IH s3) as (K1 & K2 & K3 & out & K4 & K5); [by destruct H2|done|].
      split_and!; [done|done|done|]. exists (((λ o', (o', OnExtensionDisconnected d)) <$> obs) ++ out).
      rewrite K4, hears_app, K5, hears_call by (done || by eapply inv_observers). split; [|done].
      cbn. by rewrite app_assoc. }
  destruct (Hfold s1 Hi Ho) as (K1 & K2 & K3 & out & K4 & K5).
  split; [done|by exists obs|]. exists out. rewrite K4, Ht, K5. split; [done|]. apply tracks_disconnect_all.
  rewrite Hd. unfold all_data. by rewrite K3.
Qed.

Lemma HandleCallerDied_informs o s pid : SInv s → registered o s → informs o s (HandleCallerDied s pid).
Proof.
  intros Hi Hr. unfold HandleCallerDied, RemoveDiedCaller.
  destruct (connectionStates_ s !! pid) as [i|] eqn:Hp; [|by apply informs_same; [..|apply Hi| |]].
  destruct (all_data_set s pid None) as (rest & P1 & P2). rewrite Hp in P1. cbn in P1, P2.
  apply tell_all_informs; [by apply (items_ok_set s pid None)|done|done|]. by rewrite P1, <-P2.
Qed.

Lemma RemoveConnection_informs o s (r : option ConnectionRecord) died :
  SInv s → registered o s → informs o s (RemoveConnection s r died).
Proof.
  intros Hi Hr. destruct r as [record|].
  2:{ unfold RemoveConnection. destruct (observerController_ s); by apply informs_same; [..|apply Hi| |]. }
  destruct died; [|by apply RemoveConnection_live_informs].
  unfold RemoveConnection. pose proof Hr as (obs & -> & _). by apply HandleCallerDied_informs.
Qed.

(** The loop over the items when a data ability dies. *)
Lemma data_died_loop_ok l t s (ds : list ConnectionData) :
  SInv s → NoDup l.*1 → (∀ pid i, (pid, i) ∈ l → connectionStates_ s !! pid = Some i) →
  let '(ds', s') := data_died_loop s l t ds in
  SInv s' ∧ observerController_ s' = observerController_ s ∧ told s' = told s ∧
  ∃ new, ds' = ds ++ new ∧ all_data s ≡ₚ new ++ all_data s'.
Proof.
  revert s ds. induction l as [|[pid i] l IH]; intros s ds Hi Hnd Hl; cbn.
  { split_and!; [done..|]. exists []. by rewrite app_nil_r. }
  apply NoDup_cons in Hnd as [Hpid Hnd]. assert (connectionStates_ s !! pid = Some i) as Hp by (apply Hl; left).
  destruct (Item_HandleDataAbilityDied_ok i t (inv_items _ Hi _ _ Hp)) as [Hok Hd].
  destruct (Item_HandleDataAbilityDied i t) as [data i']. cbn in Hok, Hd.
  set (s1 := if IsEmpty i' then _ else _). set (ds1 := ds ++ _).
  assert (∃ x, s1 = s <| connectionStates_ ::= partial_alter (λ _, x) pid |> ∧ (∀ j, x = Some j → item_ok j) ∧
    data_of x = GenerateAllConnectionData i') as (x & Hs1 & Hx & Hdx).
  { unfold s1. destruct (IsEmpty i') eqn:He.
    - exists None. split_and!; [done|done|]. by rewrite (IsEmpty_data i' He).
    - exists (Some i'). split_and!; [done|by intros ? [= <-]|done]. }
  destruct (all_data_set s pid x) as (rest & P1 & P2). rewrite <-Hs1, Hdx in P2. rewrite Hp in P1. cbn in P1.
  specialize (IH s1 ds1). destruct (data_died_loop s1 l t ds1) as [ds' s'].
  destruct IH as (K1 & K2 & K3 & new & -> & K5).
  { rewrite Hs1. by apply items_ok_set. }
  { done. }
  { intros pid' i0 Hin. rewrite Hs1. cbn. rewrite lookup_partial_alter_ne; [apply Hl; by right|].
    intros <-. apply Hpid, list_elem_of_fmap. by exists (pid, i0). }
  split_and!; [done|rewrite K2; by rewrite Hs1|rewrite K3; by rewrite Hs1|].
  exists (option_list data ++ new). unfold ds1. rewrite <-app_assoc. split; [by destruct data|].
  rewrite P1. unfold disconnects in Hd. rewrite Hd, <-!app_assoc, <-K5, P2. done.
Qed.

(** ** Changes that leave the connections as they are *)

Lemma informs_refl o s : SInv s → registered o s → informs o s s.
Proof. intros Hi Hr. by apply informs_same; [..|apply Hi| |]. Qed.

(** Observers are told of a protected document. *)
Lemma informs_dlp o s s1 (obs : list Observer) (e : Event) :
  SInv s → observerController_ s = Some obs → o ∈ obs →
  connectionStates_ s1 = connectionStates_ s → observerController_ s1 = observerController_ s → told s1 = told s →
  (∀ held, hear1 held e = Some held) → informs o s (CallObservers s1 obs e).
Proof.
  intros Hi Ho Hin Hc Ho1 Ht He. pose proof (inv_observers _ Hi obs Ho) as Hnd. split.
  - split; cbn; [rewrite Hc; apply Hi|rewrite Ho1; apply Hi].
  - exists obs. cbn. by rewrite Ho1.
  - eexists. cbn. rewrite Ht. split; [done|]. rewrite hears_call by done. exists (all_data s). cbn. rewrite He.
    split; [done|]. unfold all_data. cbn. by rewrite Hc.
Qed.

Lemma HandleDlpAbilityInner_frame s x isAdd :
  let s1 := (HandleDlpAbilityInner s x isAdd).2 in
  connectionStates_ s1 = connectionStates_ s ∧ observerController_ s1 = observerController_ s ∧ told s1 = told s.
Proof.
  unfold HandleDlpAbilityInner. destruct x as [x|]; [|done]. destruct (_ <=? _)%Z; [done|].
  destruct (dlpItems_ s !! _) as [d|]; [|done]. by destruct (if isAdd then _ else _).
Qed.

Lemma dlp_informs o s x isAdd (obs : list Observer) (ev : DlpStateData → Event) :
  SInv s → observerController_ s = Some obs → o ∈ obs → (∀ y held, hear1 held (ev y) = Some held) →
  informs o s (match HandleDlpAbilityInner s x isAdd with
               | (None, s) => s | (Some d, s) => CallObservers s obs (ev d) end).
Proof.
  intros Hi Ho Hin Hev. pose proof (HandleDlpAbilityInner_frame s x isAdd) as (H1 & H2 & H3).
  destruct (HandleDlpAbilityInner s x isAdd) as [[d|] s1]; cbn in H1, H2, H3.
  - by apply informs_dlp.
  - apply informs_same; [done|by exists obs|done|rewrite H2; apply Hi| |done]. exists obs. by rewrite H2.
Qed.

(** ** Runs *)

Inductive SOp :=
| OpRegister (x : option Observer)
| OpUnregister (x : option Observer)
| OpObserverDied (obj : Z)
| OpAdd (r : option ConnectionRecord)
| OpRemove (r : option ConnectionRecord) (isCallerDied : bool)
| OpAddData (c : DataAbilityCaller) (r : option (option Target))
| OpRemoveData (c : DataAbilityCaller) (r : option (option Target))
| OpDataDied (r : option (option Target))
| OpDataCallerDied (pid : Z)
| OpAppDied (pid : Z)
| OpAddDlpManager (x : option Target)
| OpRemoveDlpManager (x : option Target)
| OpAddDlp (x : option Target)
| OpRemoveDlp (x : option Target)
| OpInit (handler : bool) (appManager : option Z)
| OpRunInit (appManager : option Z).

Section Runs.
Variables (accepts : Z → bool) (visit : ∀ A : Type, gmap Z A → list (Z * A)).

Definition sstep s (op : SOp) : ConnState :=
  match op with
  | OpRegister x => (RegisterObserver accepts s x).2
  | OpUnregister x => (UnregisterObserver s x).2
  | OpObserverDied obj => HandleRemoteDied s obj
  | OpAdd r => AddConnection s r
  | OpRemove r died => RemoveConnection s r died
  | OpAddData c r => AddDataAbilityConnection s c r
  | OpRemoveData c r => RemoveDataAbilityConnection s c r
  | OpDataDied r => HandleDataAbilityDied visit s r
  | OpDataCallerDied pid => HandleDataAbilityCallerDied s pid
  | OpAppDied pid => HandleAppDied s pid
  | OpAddDlpManager x => AddDlpManager s x
  | OpRemoveDlpManager x => RemoveDlpManager s x
  | OpAddDlp x => AddDlpAbility s x
  | OpRemoveDlp x => RemoveDlpAbility s x
  | OpInit handler appManager => Init s handler appManager
  | OpRunInit appManager => RunInit s appManager
  end.

Definition srun s (ops : list SOp) : ConnState := foldl sstep s ops.

(** A caller of a data ability that is an application has a token. *)
Definition named (op : SOp) : bool :=
  match op with OpAddData c _ => negb (no_caller c) | _ => true end.

(** The call does not end the registration of [o]. *)
Definition keeps o (op : SOp) : bool :=
  match op with
  | OpUnregister (Some x) => negb (same_object (obs_object x) o)
  | OpObserverDied obj => negb (same_object (Some obj) o)
  | _ => true
  end.

Hypothesis visit_all : ∀ A (m : gmap Z A), visit A m ≡ₚ map_to_list m.

Lemma HandleDataAbilityDied_informs o s r :
  SInv s → registered o s → informs o s (HandleDataAbilityDied visit s r).
Proof.
  intros Hi (obs & Ho & Hin). unfold HandleDataAbilityDied.
  destruct (mjoin r ≫= GetToken) as [t|]; [|apply informs_refl; [done|by exists obs]].
  unfold HandleDataAbilityDiedInner.
  pose proof (data_died_loop_ok (visit _ (connectionStates_ s)) t s [] Hi) as H.
  destruct (data_died_loop s _ t []) as [ds s1]. destruct H as (K1 & K2 & K3 & new & -> & K5).
  { rewrite visit_all. apply NoDup_fst_map_to_list. }
  { intros pid i. rewrite visit_all. by apply elem_of_map_to_list. }
  apply tell_all_informs; [done|exists obs; by rewrite K2|done|done].
Qed.

(** *** Registrations *)

Lemma erase_keeps o x (obs : list Observer) : o ∈ obs → same_object x o = false → o ∈ erase_first (same_object x) obs.
Proof. intros. by apply erase_first_keep. Qed.

Lemma erase_NoDup x (obs : list Observer) :
  NoDup (obs_object <$> obs) → NoDup (obs_object <$> erase_first (same_object x) obs).
Proof. intros H. eapply sublist_NoDup; [exact H|]. apply fmap_sublist, erase_first_sublist. Qed.

Lemma RegisterObserver_informs o s x : SInv s → registered o s → informs o s (RegisterObserver accepts s x).2.
Proof.
  intros Hi Hr. pose proof Hr as (obs & Ho & Hin). unfold RegisterObserver. rewrite Ho. unfold AddObserver.
  destruct x as [x|]; [|by apply informs_refl]. destruct (find_if _ obs) as [y|] eqn:Hf; [by apply informs_refl|].
  cbn. set (s1 := match obs_object x with Some _ => _ | None => _ end).
  assert (connectionStates_ s1 = connectionStates_ s ∧ told s1 = told s) as [H1 H2]
    by (unfold s1; destruct (obs_object x); [destruct (accepts z)|]; done).
  apply informs_same; [done|done|done| | |done].
  - cbn. intros l [= <-]. rewrite fmap_app. apply NoDup_app. split_and!; [by apply Hi| |apply NoDup_singleton].
    intros ob Hob ->%list_elem_of_singleton. apply list_elem_of_fmap in Hob as (y & Hy1 & Hy2).
    apply find_if_None with (x := y) in Hf; [|done]. unfold same_object in Hf.
    by apply bool_decide_eq_false_1 in Hf.
  - exists (obs ++ [x]). split; [done|]. apply elem_of_app. by left.
Qed.

Lemma InitAppStateObserver_frame s m :
  let s1 := InitAppStateObserver s m in
  connectionStates_ s1 = connectionStates_ s ∧ observerController_ s1 = observerController_ s ∧ told s1 = told s.
Proof.
  unfold InitAppStateObserver. destruct (appStateObserver_ s); [done|].
  destruct m as [e|]; [by destruct (negb (e =? 0))%Z|by destruct ((retry_ s <? MAX_RETRY)%Z && handler_ s)].
Qed.

Lemma sstep_informs o s op :
  SInv s → registered o s → named op → keeps o op → informs o s (sstep s op).
Proof.
  intros Hi Hr Hn Hk. pose proof Hr as (obs & Ho & Hin). pose proof (inv_observers _ Hi obs Ho) as Hnd.
  pose proof (informs_refl o s Hi Hr) as Hrefl.
  destruct op as [x|[x|]|obj|r|r died|c r|c r|r|pid|pid|[x|]|[x|]|x|x|h m|m]; cbn [sstep].
  - by apply RegisterObserver_informs.
  - unfold UnregisterObserver. rewrite Ho. cbn in Hk |- *. apply negb_True in Hk. apply Is_true_false in Hk.
    apply informs_same; [done|done|done| | |done]; cbn.
    + intros l [= <-]. by apply erase_NoDup.
    + eexists. split; [done|]. by apply erase_keeps.
  - unfold UnregisterObserver. by rewrite Ho.
  - unfold HandleRemoteDied. rewrite Ho. cbn in Hk |- *. apply negb_True in Hk. apply Is_true_false in Hk.
    apply informs_same; [done|done|done| | |done]; cbn.
    + intros l [= <-]. by apply erase_NoDup.
    + eexists. split; [done|]. by apply erase_keeps.
  - by apply AddConnection_informs.
  - by apply RemoveConnection_informs.
  - apply AddDataAbilityConnection_informs; [done..|]. cbn in Hn. by destruct (no_caller c).
  - by apply RemoveDataAbilityConnection_informs.
  - by apply HandleDataAbilityDied_informs.
  - unfold HandleDataAbilityCallerDied. destruct (pid <=? 0)%Z; [done|]. by apply HandleCallerDied_informs.
  - by apply HandleCallerDied_informs.
  - unfold AddDlpManager. destruct (dlpItems_ s !! _); [done|]. by apply informs_same; [..|apply Hi| |].
  - done.
  - by apply informs_same; [..|apply Hi| |].
  - done.
  - unfold AddDlpAbility. rewrite Ho. by apply dlp_informs.
  - unfold RemoveDlpAbility. rewrite Ho. by apply dlp_informs.
  - unfold Init. rewrite Ho. destruct h; cbn.
    + by apply informs_same; [..|apply Hi| |].
    + destruct (InitAppStateObserver_frame (s <| handler_ := false |>) m) as (H1 & H2 & H3).
      apply informs_same; [done|done|done|rewrite H2; apply Hi| |done]. exists obs. by rewrite H2.
  - unfold RunInit. destruct (initTasks s) as [|n]; [done|].
    destruct (InitAppStateObserver_frame (s <| initTasks := n |>) m) as (H1 & H2 & H3).
    apply informs_same; [done|done|done|rewrite H2; apply Hi| |done]. exists obs. by rewrite H2.
Qed.

(** *** The invariant without observers *)

Lemma SInv_frame s s' :
  SInv s → connectionStates_ s' = connectionStates_ s → observerController_ s' = observerController_ s → SInv s'.
Proof. intros [H1 H2] Hc Ho. split; [by rewrite Hc|by rewrite Ho]. Qed.

Lemma tell_inv s (obs : list Observer) ev data : SInv s → SInv (tell s obs ev data).
Proof. intros Hi. destruct data; [by apply (SInv_frame s)|done]. Qed.

Lemma tell_all_inv s (ds : list ConnectionData) : SInv s → SInv (tell_all s ds).
Proof.
  intros Hi. unfold tell_all. destruct (observerController_ s) as [obs|]; [|done]. revert s Hi.
  induction ds as [|d ds IH]; intros s Hi; [done|]. cbn. apply IH. by apply (SInv_frame s).
Qed.

Lemma set_item_inv s pid i : SInv s → item_ok i → SInv (set_item s pid i).
Proof. intros Hi Hok. apply (items_ok_set s pid (Some i)); [done|]. by intros ? [= <-]. Qed.

Lemma keep_item_inv s pid i data : SInv s → item_ok i → SInv (keep_item s pid i data).
Proof.
  intros Hi Hok. unfold keep_item. destruct (_ && _); [by apply (items_ok_set s pid None)|by apply set_item_inv].
Qed.

Lemma HandleCallerDied_inv s pid : SInv s → SInv (HandleCallerDied s pid).
Proof.
  intros Hi. unfold HandleCallerDied, RemoveDiedCaller. destruct (connectionStates_ s !! pid); [|done].
  apply tell_all_inv. by apply (items_ok_set s pid None).
Qed.

Lemma connection_inv s r died : SInv s → SInv (AddConnection s r) ∧ SInv (RemoveConnection s r died).
Proof.
  intros Hi. unfold AddConnection, RemoveConnection. destruct (observerController_ s), r as [record|]; try done. split.
  - unfold AddConnectionInner. set (i0 := CreateConnectionStateItem record).
    assert (item_ok i0) as H0 by (by split). pose proof (item_ok_default s (GetCallerPid record) i0 Hi H0) as Hd.
    destruct (Item_AddConnection_ok _ record Hd) as [Hok _]. destruct (Item_AddConnection _ record).
    by apply tell_inv, set_item_inv.
  - destruct died; [by apply HandleCallerDied_inv|]. unfold RemoveConnectionInner.
    destruct (connectionStates_ s !! GetCallerPid record) as [i|] eqn:Hp; [|done].
    destruct (Item_RemoveConnection_ok i record (inv_items _ Hi _ _ Hp)) as [Hok _].
    destruct (Item_RemoveConnection i record). by apply tell_inv, keep_item_inv.
Qed.

Lemma AddDataAbilityConnection_inv s c r :
  SInv s → no_caller c = false → SInv (AddDataAbilityConnection s c r).
Proof.
  intros Hi Hn. unfold AddDataAbilityConnection. destruct (CheckDataAbilityConnectionParams _ _ _); [|done].
  unfold AddDataAbilityConnectionInner. set (i0 := CreateConnectionStateItem_data c).
  assert (item_ok i0) as H0 by (by split). pose proof (item_ok_default s (callerPid c) i0 Hi H0) as Hd.
  destruct (Item_AddDataAbilityConnection_ok _ c (mjoin r) Hd Hn) as [Hok _].
  destruct (Item_AddDataAbilityConnection _ _ _). by apply tell_inv, set_item_inv.
Qed.

Lemma RemoveDataAbilityConnection_inv s c r : SInv s → SInv (RemoveDataAbilityConnection s c r).
Proof.
  intros Hi. unfold RemoveDataAbilityConnection. destruct (CheckDataAbilityConnectionParams _ _ _); [|done].
  unfold RemoveDataAbilityConnectionInner. destruct (connectionStates_ s !! callerPid c) as [i|] eqn:Hp; [|done].
  destruct (Item_RemoveDataAbilityConnection_ok i c (mjoin r) (inv_items _ Hi _ _ Hp)) as [Hok _].
  destruct (Item_RemoveDataAbilityConnection _ _ _). by apply tell_inv, keep_item_inv.
Qed.

Lemma HandleDataAbilityDied_inv s r : SInv s → SInv (HandleDataAbilityDied visit s r).
Proof.
  intros Hi. unfold HandleDataAbilityDied. destruct (mjoin r ≫= GetToken) as [t|]; [|done].
  unfold HandleDataAbilityDiedInner.
  pose proof (data_died_loop_ok (visit _ (connectionStates_ s)) t s [] Hi) as H.
  destruct (data_died_loop s _ t []) as [ds s1]. apply tell_all_inv, H.
  - rewrite visit_all. apply NoDup_fst_map_to_list.
  - intros pid i. rewrite visit_all. by apply elem_of_map_to_list.
Qed.

(** Changes of the observers. *)
Lemma SInv_observers s s' (obs : list Observer) :
  SInv s → connectionStates_ s' = connectionStates_ s → observerController_ s' = Some obs →
  NoDup (obs_object <$> obs) → SInv s'.
Proof. intros [H1 H2] Hc Ho Hnd. split; [by rewrite Hc|]. rewrite Ho. by intros ? [= <-]. Qed.

Lemma observers_inv s x obj :
  SInv s → SInv (RegisterObserver accepts s x).2 ∧ SInv (UnregisterObserver s x).2 ∧ SInv (HandleRemoteDied s obj).
Proof.
  intros Hi. unfold RegisterObserver, UnregisterObserver, HandleRemoteDied, AddObserver, RemoveObserver.
  destruct (observerController_ s) as [obs|] eqn:Ho; [|done]. pose proof (inv_observers _ Hi obs Ho) as Hnd.
  split_and!; [| |by eapply SInv_observers; [..|by apply erase_NoDup]].
  - destruct x as [x|]; [|done]. destruct (find_if _ obs) as [y|] eqn:Hf; [done|].
    assert (NoDup (obs_object <$> obs ++ [x])) as Hnd'.
    { rewrite fmap_app. apply NoDup_app. split_and!; [done| |apply NoDup_singleton].
      intros ob Hob ->%list_elem_of_singleton. apply list_elem_of_fmap in Hob as (y & Hy1 & Hy2).
      apply find_if_None with (x := y) in Hf; [|done]. by apply bool_decide_eq_false_1 in Hf. }
    eapply SInv_observers; [exact Hi| |done|exact Hnd']. by destruct (obs_object x); [destruct (accepts z)|].
  - destruct x as [x|]; [|done]. by eapply SInv_observers; [..|by apply erase_NoDup].
Qed.

Lemma init_inv s h m : SInv s → SInv (Init s h m) ∧ SInv (RunInit s m).
Proof.
  intros Hi. split.
  - unfold Init. set (s1 := match observerController_ s with None => _ | Some _ => s end).
    assert (SInv s1) as H1.
    { unfold s1. destruct (observerController_ s); [done|]. eapply SInv_observers; [exact Hi|done|done|apply NoDup_nil_2]. }
    destruct h; cbn; [by apply (SInv_frame s1)|].
    destruct (InitAppStateObserver_frame (s1 <| handler_ := false |>) m) as (K1 & K2 & _).
    by apply (SInv_frame s1).
  - unfold RunInit. destruct (initTasks s) as [|n]; [done|].
    destruct (InitAppStateObserver_frame (s <| initTasks := n |>) m) as (K1 & K2 & _). by apply (SInv_frame s).
Qed.

Lemma dlp_inv s x :
  SInv s → SInv (AddDlpManager s x) ∧ SInv (RemoveDlpManager s x) ∧ SInv (AddDlpAbility s x) ∧ SInv (RemoveDlpAbility s x).
Proof.
  intros Hi. assert (∀ b, SInv (HandleDlpAbilityInner s x b).2) as Hd.
  { intros b. destruct (HandleDlpAbilityInner_frame s x b) as (K1 & K2 & _). by apply (SInv_frame s). }
  unfold AddDlpManager, RemoveDlpManager, AddDlpAbility, RemoveDlpAbility. split_and!.
  - destruct x as [x|]; [|done]. destruct (dlpItems_ s !! _); [done|by apply (SInv_frame s)].
  - destruct x as [x|]; [by apply (SInv_frame s)|done].
  - destruct (observerController_ s); [|done]. specialize (Hd true).
    destruct (HandleDlpAbilityInner s x true) as [[d|] s1]; [by apply (SInv_frame s1)|done].
  - destruct (observerController_ s); [|done]. specialize (Hd false).
    destruct (HandleDlpAbilityInner s x false) as [[d|] s1]; [by apply (SInv_frame s1)|done].
Qed.

Lemma sstep_inv s op : SInv s → named op → SInv (sstep s op).
Proof.
  intros Hi Hn. destruct op; cbn [sstep].
  all: try (by apply connection_inv || by apply (observers_inv s _ 0%Z) || by apply (init_inv s true)).
  all: try (by apply dlp_inv || by apply RemoveDataAbilityConnection_inv || by apply HandleDataAbilityDied_inv).
  all: try (by apply HandleCallerDied_inv).
  - by apply (observers_inv s None).
  - apply connection_inv with (died := false), Hi.
  - apply AddDataAbilityConnection_inv; [done|]. cbn in Hn. by destruct (no_caller c).
  - unfold HandleDataAbilityCallerDied. destruct (pid <=? 0)%Z; [done|by apply HandleCallerDied_inv].
  - by apply init_inv.
Qed.

(** Nothing has happened. *)
Definition unstarted : ConnState := mkConnState None [] ∅ ∅ false 0 false 0 [].

Lemma unstarted_inv : SInv unstarted.
Proof. by split. Qed.

Lemma srun_inv ops s : SInv s → Forall named ops → SInv (srun s ops).
Proof.
  intros Hi Hn. revert s Hi. induction Hn as [|op ops Hop _ IH]; intros s Hi; [done|]. cbn. apply IH. by apply sstep_inv.
Qed.

Lemma srun_informs o ops s :
  SInv s → registered o s → Forall named ops → Forall (keeps o) ops → informs o s (srun s ops).
Proof.
  intros Hi Hr Hn. revert s Hi Hr. induction Hn as [|op ops Hop _ IH]; intros s Hi Hr Hk; [by apply informs_refl|].
  apply Forall_cons in Hk as [Hk Hks]. destruct (sstep_informs o s op Hi Hr Hop Hk) as [H1 H2 (out1 & T1 & P1)].
  change (informs o s (srun (sstep s op) ops)). destruct (IH _ H1 H2 Hks) as [H3 H4 (out2 & T2 & P2)]. split; [done|done|]. exists (out1 ++ out2).
  rewrite T2, T1, <-app_assoc, hears_app. split; [done|]. by eapply tracks_app.
Qed.
End Runs.

(** ** The theorems *)

Lemma GetConnectionData_all visit s :
  (∀ A (m : gmap Z A), visit A m ≡ₚ map_to_list m) → GetConnectionData visit s ≡ₚ all_data s.
Proof. intros Hv. apply bag_visited, Hv. Qed.

(** C18: an observer that asks for the connections and then follows what it is told,
    while callers of data abilities are named, is never told the end of a connection it
    does not hold, and holds at any time what the manager would answer; the order in
    which hash maps are visited does not matter. *)
Theorem observer_view (accepts : Z → bool) (visit : ∀ A : Type, gmap Z A → list (Z * A))
    (Hvisit : ∀ A (m : gmap Z A), visit A m ≡ₚ map_to_list m) o (before after : list SOp)
    (Hnamed : Forall named (before ++ after)) (Hkeeps : Forall (keeps o) after)
    (Hreg : registered o (srun accepts visit unstarted before)) :
  let s := srun accepts visit unstarted before in
  let s' := srun accepts visit s after in
  registered o s' ∧
  ∃ out held, told s' = told s ++ out ∧ hear (GetConnectionData visit s) (hears o out) = Some held ∧
    held ≡ₚ GetConnectionData visit s'.
Proof.
  intros s s'. apply Forall_app in Hnamed as [Hb Ha].
  pose proof (srun_inv accepts visit Hvisit before unstarted unstarted_inv Hb) as Hi.
  destruct (srun_informs accepts visit Hvisit o after s Hi Hreg Ha Hkeeps) as [_ Hr (out & Ht & Htr)].
  split; [done|]. destruct (tracks_perm (GetConnectionData visit s) _ _ _ (GetConnectionData visit s')
    (GetConnectionData_all visit s Hvisit) Htr) as (held & Hh & Hp).
  { symmetry. by apply GetConnectionData_all. }
  by exists out, held.
Qed.

Definition demo_target : Target :=
  mkTarget (Some 7%Z) 70 700 "shop" "entry" "Pay" (EXT_OTHER 2) TYPE_SERVICE 0 100.
Definition demo_connection (obj : Z) : ConnectionRecord :=
  mkConnectionRecord 500 50 "50" (Some demo_target) (Some obj).
Definition demo_observer : Observer := mkObserver 1 (Some 2%Z).

(** Two connections of one process to one extension are one connection to an observer. *)
Lemma observer_view_witness :
  let visit := λ A : Type, @map_to_list Z A (gmap Z A) _ in
  let s := srun (λ _, true) visit unstarted [OpInit true None; OpRegister (Some demo_observer)] in
  ∃ out held, hear (GetConnectionData visit s) (hears demo_observer out) = Some held ∧ length out = 2.
Proof.
  destruct (observer_view (λ _, true) (λ A : Type, @map_to_list Z A (gmap Z A) _) (λ A m, Permutation_refl _)
    demo_observer [OpInit true None; OpRegister (Some demo_observer)]
    [OpAdd (Some (demo_connection 1)); OpAdd (Some (demo_connection 2));
     OpRemove (Some (demo_connection 1)) false; OpRemove (Some (demo_connection 2)) false])
    as (_ & out & held & Ht & Hh & _).
  - repeat constructor.
  - repeat constructor.
  - exists [demo_observer]. split; [reflexivity|left].
  - exists out, held. split; [exact Hh|]. vm_compute in Ht. by rewrite <-Ht.
Defined.

(** A caller that is an application without a token is not recorded, but the data ability
    is: its end is told, and its connection never was. *)
Example unnamed_caller_disconnects :
  let caller := mkDataAbilityCaller false 50 500 "app" None in
  let s := srun (λ _, true) (λ A : Type, @map_to_list Z A (gmap Z A) _) unstarted
    [OpInit true None; OpRegister (Some demo_observer); OpAddData caller (Some (Some demo_target)); OpAppDied 50] in
  hear [] (hears demo_observer (told s)) = None.
Proof. vm_compute. reflexivity. Qed.

(** *** Initialization ends *)

Lemma InitAppStateObserver_measure s m :
  (0 ≤ retry_ s ≤ MAX_RETRY)%Z →
  let s1 := InitAppStateObserver s m in
  (0 ≤ retry_ s1 ≤ MAX_RETRY)%Z ∧
  (Z.of_nat (initTasks s1) + (MAX_RETRY - retry_ s1) ≤ Z.of_nat (initTasks s) + (MAX_RETRY - retry_ s))%Z.
Proof.
  intros Hr. unfold InitAppStateObserver. destruct (appStateObserver_ s); [cbn; lia|].
  destruct m as [e|]; [destruct (negb (e =? 0)%Z); cbn; lia|].
  destruct ((retry_ s <? MAX_RETRY)%Z && handler_ s) eqn:He; [|cbn; lia].
  apply andb_true_iff in He as [He%Z.ltb_lt _]. unfold MAX_RETRY in *. cbn.
  rewrite i32_small by (unfold INT_MAX; lia). lia.
Qed.

Lemma no_init_left s (answers : list (option Z)) : initTasks s = 0 → foldl RunInit s answers = s.
Proof. intros H. induction answers as [|m answers IH]; [done|]. cbn. unfold RunInit at 2. by rewrite H. Qed.

(** C38: the initialization of the connection states gives up: whatever the application
    manager answers, once as many posted attempts have run as there are pending ones and
    retries left, none is pending. *)
Theorem init_quiesces s (answers : list (option Z)) (Hretry : (0 ≤ retry_ s ≤ MAX_RETRY)%Z)
    (Hlen : (Z.of_nat (initTasks s) + (MAX_RETRY - retry_ s) ≤ Z.of_nat (length answers))%Z) :
  initTasks (foldl RunInit s answers) = 0.
Proof.
  revert s Hretry Hlen. induction answers as [|m answers IH]; intros s Hr Hl; cbn in *; [lia|].
  unfold RunInit at 2. destruct (initTasks s) as [|n] eqn:Hn; [by rewrite no_init_left|].
  set (s1 := s <| initTasks := n |>). destruct (InitAppStateObserver_measure s1 m) as [H1 H2]; [exact Hr|].
  apply (IH _ H1). etransitivity; [exact H2|]. cbn. lia.
Qed.

(** The application manager never answers: the first attempt and ten retries. *)
Lemma init_quiesces_witness : initTasks (foldl RunInit (Init unstarted true None) (replicate 11 None)) = 0.
Proof. apply init_quiesces; vm_compute; [split|]; discriminate. Defined.
