(* ===== verification/ServiceConnect.v ===== *)
(** * Connections to services and extensions

    [services/abilitymgr/src/connection_record.cpp], the connections of
    [ability_record.cpp], and [ability_connect_manager.cpp] for services and for
    extensions that are not UI extensions: who is connected to which service, what the
    clients, the services and the observers of connections are told, and when a service
    is terminated or cached.

    Connection records and ability records are shared objects in two heaps; the token of
    an ability record is its identifier. Wants, callers, session information and reports
    to other services are left out: nothing here reads them. The task handlers exist. The
    cache is that of [AbilityCache] and the observers of connections are those of
    [ConnectionState]. *)

From stdpp Require Import prelude gmap strings list sorting pretty.
From Stdlib Require Import ZArith Lia.
From S2P Require Import Prelude AbilityCache ConnectionState.

(** ** Data *)

Definition ERR_OK : Z := 0.
Definition ERR_INVALID_VALUE : Z := 22.
Definition CONNECTION_NOT_EXIST : Z := 2097161.
Definition INVALID_CONNECTION_STATE : Z := 2097162.
Definition AUTO_DISCONNECT_INFINITY : Z := -1.

Inductive ConnectionPhase := INIT | CONNECTING | CONNECTED | DISCONNECTING | DISCONNECTED.
#[global] Instance ConnectionPhase_eq_dec : EqDecision ConnectionPhase.
Proof. solve_decision. Defined.

(** The states of the life cycle that services go through. *)
Inductive ServiceState := INITIAL | INACTIVATING | INACTIVE | ACTIVE | TERMINATING.
#[global] Instance ServiceState_eq_dec : EqDecision ServiceState.
Proof. solve_decision. Defined.

Abbreviation Conn := positive.
Abbreviation Abi := Z.

(** A [sptr<IAbilityConnection>]: the proxy and the remote object behind it. *)
Record Callback := mkCallback { cb_proxy : Z; cb_object : Z }.
#[global] Instance Callback_eq_dec : EqDecision Callback.
Proof. solve_decision. Defined.

(** Who calls: the identity of the process, and the ability behind the caller token. *)
Record Caller := mkCaller {
  callingTokenId : Z;
  callingUid : Z;
  callingPid : Z;
  callerAbility : option (Z * Z * string);
}.

Record ConnRecord := mkConnRecord {
  recordId_ : Z;
  phase_ : ConnectionPhase;
  targetService_ : Abi;
  connCallback_ : option Callback;
  conn_callerUid : Z;
  conn_callerPid : Z;
  conn_callerTokenId : Z;
  conn_callerName : string;
}.
#[global] Instance reconstruct_ConnRecord : Reconstruct ConnRecord := λ r,
  mkConnRecord (recordId_ r) (phase_ r) (targetService_ r) (connCallback_ r) (conn_callerUid r) (conn_callerPid r)
    (conn_callerTokenId r) (conn_callerName r).

(** What the connection manager reads of a want; [want_debug] is any of the parameters
    that make a record debugged. *)
Record RequestWant := mkWant {
  want_deviceId : string;
  want_bundleName : string;
  want_abilityName : string;
  want_moduleName : string;
  want_dlpIndex : Z;
  want_appCloneIndex : Z;
  want_frsIndex : Z;
  want_debugApp : bool;
  want_debug : bool;
}.

(** What is read of the ability and application information. *)
Record ServiceInfo := mkServiceInfo {
  svc_deviceId : string;
  svc_bundleName : string;
  svc_moduleName : string;
  svc_name : string;
  svc_type : AbilityType;
  svc_extensionType : ExtensionAbilityType;
  svc_extensionTypeName : string;
  svc_accessTokenId : Z;
  svc_isLauncherApp : bool;
}.

Record ServiceRecord := mkServiceRecord {
  info : ServiceInfo;
  want_ : RequestWant;
  uid_ : Z;
  appIndex_ : Z;
  ownerMissionUserId_ : Z;
  currentState_ : ServiceState;
  connRecordList_ : list Conn;
  connRemoteObject_ : option Z;
  isConnected : bool;
  isCreateByConnect_ : bool;
  startId_ : Z;
  isLauncherRoot_ : bool;
  isRestarting_ : bool;
  restartCount_ : Z;
  restartMax_ : Z;
  restartTime_ : Z;
  scheduler_ : bool;
  pid_ : Z;
}.
#[global] Instance reconstruct_ServiceRecord : Reconstruct ServiceRecord := λ r,
  mkServiceRecord (info r) (want_ r) (uid_ r) (appIndex_ r) (ownerMissionUserId_ r) (currentState_ r)
    (connRecordList_ r) (connRemoteObject_ r) (isConnected r) (isCreateByConnect_ r) (startId_ r) (isLauncherRoot_ r)
    (isRestarting_ r) (restartCount_ r) (restartMax_ r) (restartTime_ r) (scheduler_ r) (pid_ r).

(** What clients are told; the tasks that tell are run in the order of their posting. *)
Inductive ClientEvent :=
| ConnectDone (r : Conn) (cb : Callback) (remoteObject resultCode : Z)
| DisconnectDone (r : Conn) (cb : Callback) (resultCode : Z).
#[global] Instance ClientEvent_eq_dec : EqDecision ClientEvent.
Proof. solve_decision. Defined.

(** What is sent to services and to the application manager. *)
Inductive ServiceCall :=
| LoadAbilityCall (a : Abi)
| ScheduleInactive (a : Abi)
| ScheduleConnect (a : Abi)
| ScheduleDisconnect (a : Abi)
| ScheduleCommand (a : Abi) (startId : Z)
| ScheduleTerminate (a : Abi)
| AppTerminateAbility (a : Abi)
| AppAttachTimeOut (a : Abi)
| AppClearProcess (a : Abi)
| AppKillProcesses.
#[global] Instance ServiceCall_eq_dec : EqDecision ServiceCall.
Proof. solve_decision. Defined.

(** A request to start or connect. *)
Record ServiceRequest := mkServiceRequest {
  req_info : ServiceInfo;
  req_want : RequestWant;
  req_uid : Z;
  req_restartCount : Z;
  req_restartTime : Z;
  req_session : option Z;
}.

(** The other posted tasks, with what makes up their names. *)
Inductive Task :=
| TCompleteConnect (r : Conn)
| TDisconnectDone (a : Abi)
| TDisconnectTimeout (id : Z) (r : Conn)
| TConnectTimeout (id : Z) (a : Abi)
| TLoadTimeout (a : Abi)
| TInactiveTimeout (a : Abi)
| TCommandTimeout (a : Abi) (startId : Z)
| TTerminateTimeout (a : Abi)
| TDelayDisconnect (id : Z) (r : Conn)
| TCallBackDied (o : Z)
| TOnAbilityDied (a : Abi)
| TAbilityDied (a : Abi)
| TTerminateRecord (a : Abi)
| TStartServiceTimeout (uri : string)
| TRestartResident (name : string) (req : ServiceRequest).

Record SvcWorld := mkSvcWorld {
  conns : gmap Conn ConnRecord;
  fresh_conn : Conn;
  connectRecordId : Z;
  services : gmap Abi ServiceRecord;
  fresh_service : Abi;
  serviceMap_ : gmap string Abi;
  connectMap_ : gmap Z (list Conn);
  recipientMap_ : gset Z;
  windowExtensionMap_ : gmap Z (Z * Z);
  terminatingExtensionList_ : list Abi;
  startServiceReqList_ : gmap string (list ServiceRequest);
  restartResidentTaskList_ : list ServiceRequest;
  cache : AbilityCacheManager;
  states : ConnState;
  tasks : list Task;
  told : list ClientEvent;
  sent : list ServiceCall;
}.
#[global] Instance reconstruct_SvcWorld : Reconstruct SvcWorld := λ w,
  mkSvcWorld (conns w) (fresh_conn w) (connectRecordId w) (services w) (fresh_service w) (serviceMap_ w)
    (connectMap_ w) (recipientMap_ w) (windowExtensionMap_ w) (terminatingExtensionList_ w) (startServiceReqList_ w)
    (restartResidentTaskList_ w) (cache w) (states w) (tasks w) (told w) (sent w).

Implicit Types (w : SvcWorld) (r : Conn) (a : Abi) (o : Z).

(** ** The heaps, tasks and calls *)

Definition set_conn w r (f : ConnRecord → ConnRecord) : SvcWorld := w <| conns ::= alter f r |>.
Definition set_service w a (f : ServiceRecord → ServiceRecord) : SvcWorld := w <| services ::= alter f a |>.
Definition send w (c : ServiceCall) : SvcWorld := w <| sent ::= λ l, l ++ [c] |>.
Definition tell w (e : ClientEvent) : SvcWorld := w <| told ::= λ l, l ++ [e] |>.
Definition SubmitTask w (t : Task) : SvcWorld := w <| tasks ::= λ l, l ++ [t] |>.

(** A handler keeps, by name, the task posted last: that one is cancelled. *)
Definition CancelTask w (named : Task → bool) : SvcWorld :=
  w <| tasks ::= λ l, reverse (erase_first named (reverse l)) |>.

(** A call through the scheduler of an ability, which may be null. *)
Definition schedule w a (c : ServiceCall) : SvcWorld :=
  if default false (scheduler_ <$> services w !! a) then send w c else w.

Definition conn_list w a : list Conn := default [] (connRecordList_ <$> services w !! a).
Definition phase_of w r : option ConnectionPhase := phase_ <$> conns w !! r.
Definition is_phase w (p : ConnectionPhase) r : bool := bool_decide (phase_of w r = Some p).
Definition is_state w a (st : ServiceState) : bool := bool_decide (currentState_ <$> services w !! a = Some st).

(** What the observers of connections read of a record. *)
Definition target_of w a : option Target :=
  (λ s, let i := info s in
     mkTarget (Some a) (pid_ s) (uid_ s) (svc_bundleName i) (svc_moduleName i) (svc_name i)
       (svc_extensionType i) (svc_type i) (appIndex_ s) (ownerMissionUserId_ s)) <$> services w !! a.

Definition record_of w r : option ConnectionRecord :=
  (λ c, mkConnectionRecord (conn_callerUid c) (conn_callerPid c) (conn_callerName c) (target_of w (targetService_ c))
     (cb_object <$> connCallback_ c)) <$> conns w !! r.

(** ** What is asked of other services

    Answers of the configuration, of the bundle manager, of the database of resident
    processes and of the remote objects, and the string form of an [ElementName]. *)
Record SvcEnv := mkSvcEnv {
  ElementName_GetURI : string → string → string → string → string;
  IsCacheExtensionType : ExtensionAbilityType → bool;
  GetExtensionAutoDisconnectTime : string → Z;
  startup_hook_mode : bool;
  IsInKeepAliveList : string → string → bool;
  GetResidentProcessEnable : string → bool;
  GetMaxRestartNum : bool → Z;
  GetRestartIntervalTime : Z;
  isSceneBoard_ : bool;
  AddDeathRecipient : Z → bool;
  GetProcessRunningInfos : SvcWorld → Z;
  userId_ : Z;
}.

(** What is asked when a service that is kept alive ends. *)
Record KeepAnswers := mkKeepAnswers {
  currentUserId : Z;
  now : Z;
  IsKilledForUpgradeWeb : bool;
  IsMemorySizeSufficent : bool;
  IsAllowResidentInExtremeMemory : bool;
}.

Definition SCENEBOARD_BUNDLE_NAME : string := "com.ohos.sceneboard".
Definition SCENEBOARD_ABILITY_NAME : string := "com.ohos.sceneboard.MainAbility".
Definition SYSTEM_UI_BUNDLE_NAME : string := "com.ohos.systemui".
Definition SYSTEM_UI_ABILITY_NAME : string := "com.ohos.systemui.ServiceExtAbility".
Definition CALLUI_ABILITY_NAME : string := "com.ohos.callui.ServiceAbility".
Definition XIAOYI_BUNDLE_NAME : string := "com.huawei.hmos.vassistant".

(** ** Names and keys *)

Definition IsSupportAppClone (t : ExtensionAbilityType) : bool :=
  bool_decide (t = EXT_WORK_SCHEDULER) || bool_decide (t = EXT_BACKUP) || bool_decide (t = EXT_SHARE).

Definition StartupUtil_GetAppIndex (want : RequestWant) : bool * Z :=
  let appIndex := want_dlpIndex want in
  if (MAX_APP_CLONE_INDEX <? appIndex)%Z then (true, appIndex)
  else if (appIndex =? 0)%Z then
    let appIndex := want_appCloneIndex want in
    (negb ((appIndex <? 0)%Z || (MAX_APP_CLONE_INDEX <? appIndex)%Z), appIndex)
  else (false, appIndex).

Definition is_named (i : ServiceInfo) (bundle ability : string) : bool :=
  String.eqb bundle (svc_bundleName i) && String.eqb ability (svc_name i).

Definition IsSpecialAbility (i : ServiceInfo) : bool :=
  is_named i SCENEBOARD_BUNDLE_NAME SCENEBOARD_ABILITY_NAME
  || is_named i SYSTEM_UI_BUNDLE_NAME SYSTEM_UI_ABILITY_NAME
  || is_named i LAUNCHER_BUNDLE_NAME LAUNCHER_ABILITY_NAME.

Definition IsSceneBoard (s : ServiceRecord) : bool := is_named (info s) SCENEBOARD_BUNDLE_NAME SCENEBOARD_ABILITY_NAME.
Definition IsLauncher (s : ServiceRecord) : bool := is_named (info s) LAUNCHER_BUNDLE_NAME LAUNCHER_ABILITY_NAME.

Section Manager.
Context (E : SvcEnv).

Definition IsLauncherAbility (name : string) : bool :=
  if isSceneBoard_ E then String.eqb name SCENEBOARD_ABILITY_NAME else String.eqb name LAUNCHER_ABILITY_NAME.

Definition element_uri (i : ServiceInfo) (bundle : string) : string :=
  ElementName_GetURI E (svc_deviceId i) bundle (svc_name i) (svc_moduleName i).

Definition GetURI (s : ServiceRecord) : string :=
  let i := info s in
  let bundle := if IsSupportAppClone (svc_extensionType i) && (0 <? appIndex_ s)%Z
                then pretty (appIndex_ s) +:+ svc_bundleName i else svc_bundleName i in
  element_uri i bundle.

Definition GetServiceKey (s : ServiceRecord) : string :=
  if String.eqb FRS_BUNDLE_NAME (svc_bundleName (info s)) then GetURI s +:+ pretty (want_frsIndex (want_ s))
  else GetURI s.

(** The key under which a record is taken out of the service map. *)
Definition moved_key (s : ServiceRecord) : string :=
  if String.eqb FRS_BUNDLE_NAME (svc_bundleName (info s))
  then element_uri (info s) (svc_bundleName (info s)) +:+ pretty (want_frsIndex (want_ s))
  else GetURI s.

Definition GenerateBundleName (req : ServiceRequest) : string :=
  let i := req_info req in
  if IsSupportAppClone (svc_extensionType i) && (0 <? want_appCloneIndex (req_want req))%Z
  then pretty (want_appCloneIndex (req_want req)) +:+ svc_bundleName i else svc_bundleName i.

Definition request_key (req : ServiceRequest) : string :=
  let uri := element_uri (req_info req) (GenerateBundleName req) in
  if String.eqb FRS_BUNDLE_NAME (svc_bundleName (req_info req)) then uri +:+ pretty (want_frsIndex (req_want req))
  else uri.

Definition want_uri (want : RequestWant) : string :=
  ElementName_GetURI E (want_deviceId want) (want_bundleName want) (want_abilityName want) (want_moduleName want).

(** What the cache reads of a record. *)
Definition cache_attrs w a : RecordAttrs :=
  match services w !! a with
  | None => mkAttrs 0 "" "" "" "" "" "" None "" 0 false false
  | Some s =>
      let i := info s in
      mkAttrs (svc_accessTokenId i) (svc_bundleName i) (svc_bundleName i) (svc_moduleName i) (svc_name i)
        (want_abilityName (want_ s)) (GetURI s) (Some a) "" (want_frsIndex (want_ s))
        (bool_decide (svc_type i = TYPE_EXTENSION)) (IsSceneBoard s)
  end.

Definition cache_request (req : ServiceRequest) : CacheRequest :=
  mkCacheRequest (svc_accessTokenId (req_info req)) (svc_moduleName (req_info req)) (svc_name (req_info req)).

(** ** [AbilityRecord] *)

Definition AddConnectRecordToList w a r : SvcWorld :=
  set_service w a (λ s, if decide (r ∈ connRecordList_ s) then s else s <| connRecordList_ ::= λ l, l ++ [r] |>).

Definition RemoveConnectRecordFromList w a r : SvcWorld :=
  set_service w a (λ s,
    let s := s <| connRecordList_ ::= filter (λ x, x ≠ r) |> in
    match connRecordList_ s with [] => s <| isConnected := false |> | _ => s end).

Definition GetConnectingRecord w a : option Conn := find_if (is_phase w CONNECTING) (conn_list w a).
Definition GetDisconnectingRecord w a : option Conn := find_if (is_phase w DISCONNECTING) (conn_list w a).
Definition GetConnectingRecordList w a : list Conn := filter (λ r, is_phase w CONNECTING r) (conn_list w a).
Definition GetInProgressRecordCount w a : nat :=
  length (filter (λ r, is_phase w CONNECTING r || is_phase w CONNECTED r) (conn_list w a)).
Definition IsConnectListEmpty w a : bool := bool_decide (conn_list w a = []).
Definition NeedConnectAfterCommand w a : bool :=
  negb (IsConnectListEmpty w a) && negb (default false (isConnected <$> services w !! a)).

Definition GetKeepAlive (s : ServiceRecord) : bool :=
  IsSpecialAbility (info s) || GetResidentProcessEnable E (svc_bundleName (info s)).

Definition SetRestarting (isRestart : bool) (s : ServiceRecord) : ServiceRecord :=
  let s := s <| isRestarting_ := isRestart |> in
  if (isLauncherRoot_ s && svc_isLauncherApp (info s)) || GetKeepAlive s
  then s <| restartCount_ ::= λ n, if isRestart then (n - 1)%Z else restartMax_ s |> else s.

Definition SetAbilityState w a (st : ServiceState) : SvcWorld :=
  let w := set_service w a (λ s, s <| currentState_ := st |>) in
  if decide (st = ACTIVE) then set_service w a (SetRestarting false) else w.

Definition CanRestartResident (now : Z) (s : ServiceRecord) : bool :=
  negb (GetKeepAlive s && isRestarting_ s && (restartCount_ s <? 0)%Z
        && (now - restartTime_ s <? GetRestartIntervalTime E)%Z).

(** The want of the connection does not matter here. *)
Definition ConnectAbilityWithWant w a : SvcWorld :=
  let w := schedule w a (ScheduleConnect a) in
  set_service w a (λ s, s <| isConnected := true |>).

Definition is_ui_service w a : bool :=
  bool_decide (svc_extensionType ∘ info <$> services w !! a = Some EXT_UI_SERVICE).

Definition DisconnectAbilityWithWant w a : SvcWorld :=
  let w := schedule w a (ScheduleDisconnect a) in
  if decide (GetInProgressRecordCount w a = 0) then set_service w a (λ s, s <| isConnected := false |>) else w.

Definition Service_DisconnectAbility w a : SvcWorld :=
  let w := schedule w a (ScheduleDisconnect a) in
  if is_ui_service w a then
    if decide (GetInProgressRecordCount w a = 0) then set_service w a (λ s, s <| isConnected := false |>) else w
  else set_service w a (λ s, s <| isConnected := false |>).

Definition Terminate w a : SvcWorld :=
  let w := if default false (want_debug ∘ want_ <$> services w !! a) then w else SubmitTask w (TTerminateTimeout a) in
  let w := set_service w a (λ s, s <| currentState_ := TERMINATING |>) in
  schedule w a (ScheduleTerminate a).

Definition is_inactive_event a (t : Task) : bool :=
  match t with TInactiveTimeout b => bool_decide (a = b) | _ => false end.

(** An event that is pending is not sent again. *)
Definition Inactivate w a : SvcWorld :=
  let w := if default false (want_debug ∘ want_ <$> services w !! a) || existsb (is_inactive_event a) (tasks w)
           then w else SubmitTask w (TInactiveTimeout a) in
  let w := set_service w a (λ s, s <| currentState_ := INACTIVATING |>) in
  schedule w a (ScheduleInactive a).

Definition CanRestartRootLauncher w a : bool :=
  match services w !! a with
  | Some s => negb (isLauncherRoot_ s && isRestarting_ s && svc_isLauncherApp (info s) && (restartCount_ s <? 0)%Z)
  | None => true
  end.

(** ** [ConnectionRecord] *)

Definition CreateConnectionRecord w a (cb : Callback) : SvcWorld * Conn :=
  let r := fresh_conn w in
  let c := mkConnRecord (i32 (connectRecordId w)) INIT a (Some cb) 0 0 0 "" in
  (w <| conns ::= <[r := c]> |> <| fresh_conn := Pos.succ r |> <| connectRecordId ::= Z.succ |>, r).

Definition SetConnectState w r (p : ConnectionPhase) : SvcWorld := set_conn w r (λ c, c <| phase_ := p |>).

Definition AttachCallerInfo w r (caller : Caller) : SvcWorld :=
  let '(uid, pid, name) :=
    match callerAbility caller with
    | Some x => x
    | None => (i32 (callingUid caller), i32 (callingPid caller), pretty (i32 (callingPid caller)))
    end in
  set_conn w r (λ c, c <| conn_callerTokenId := callingTokenId caller |> <| conn_callerUid := uid |>
    <| conn_callerPid := pid |> <| conn_callerName := name |>).

Definition ClearConnCallBack w r : SvcWorld := set_conn w r (λ c, c <| connCallback_ := None |>).

Definition Conn_DisconnectAbility w r : Z * SvcWorld :=
  match conns w !! r with
  | None => (ERR_INVALID_VALUE, w)
  | Some c =>
      if negb (is_phase w CONNECTED r) then (INVALID_CONNECTION_STATE, w)
      else
        let a := targetService_ c in
        let w := SetConnectState w r DISCONNECTING in
        let ui := is_ui_service w a in
        if bool_decide (length (conn_list w a) = 1) || ui then
          let w := SubmitTask w (TDisconnectTimeout (recordId_ c) r) in
          (ERR_OK, if ui then DisconnectAbilityWithWant w a else Service_DisconnectAbility w a)
        else
          let w := RemoveConnectRecordFromList w a r in
          (ERR_OK, SetConnectState w r DISCONNECTED)
  end.

Definition CompleteConnect w r (resultCode : Z) : SvcWorld :=
  match conns w !! r with
  | None => w
  | Some c =>
      let a := targetService_ c in
      let w := if (resultCode =? ERR_OK)%Z
               then SetAbilityState (SetConnectState w r CONNECTED) a ACTIVE else w in
      match services w !! a ≫= connRemoteObject_ with
      | None => SubmitTask (SetConnectState w r DISCONNECTING) (TDisconnectDone a)
      | Some remoteObject =>
          let w := match connCallback_ c with
                   | Some cb => tell w (ConnectDone r cb remoteObject resultCode)
                   | None => w
                   end in
          w <| states := AddConnection (states w) (record_of w r) |>
      end
  end.

Definition CompleteDisconnect w r (resultCode : Z) (isCallerDied isTargetDied : bool) : SvcWorld :=
  let w := if (resultCode =? ERR_OK)%Z then SetConnectState w r DISCONNECTED else w in
  match conns w !! r with
  | None => w
  | Some c =>
      let code := if isTargetDied then i32 (resultCode - 1) else resultCode in
      let w := match connCallback_ c with
               | Some cb => tell w (DisconnectDone r cb code)
               | None => w
               end in
      w <| states := RemoveConnection (states w) (record_of w r) isCallerDied |>
  end.

Definition conn_id w r : Z := default 0%Z (recordId_ <$> conns w !! r).

Definition Conn_ScheduleDisconnectAbilityDone w r : SvcWorld :=
  if negb (is_phase w DISCONNECTING r) then w
  else
    let w := CancelTask w (λ t, match t with TDisconnectTimeout id _ => (id =? conn_id w r)%Z | _ => false end) in
    CompleteDisconnect w r ERR_OK (bool_decide (conns w !! r ≫= connCallback_ = None)) false.

Definition CancelConnectTimeoutTask w r : SvcWorld :=
  CancelTask w (λ t, match t with TConnectTimeout id _ => (id =? conn_id w r)%Z | _ => false end).

Definition Conn_ScheduleConnectAbilityDone w r : SvcWorld :=
  if negb (is_phase w CONNECTING r) then w else CompleteConnect (CancelConnectTimeoutTask w r) r ERR_OK.

(** ** [AbilityConnectManager]: the maps *)

(** [emplace]: an entry that exists stays. *)
Definition AddToServiceMap w (key : string) a : SvcWorld :=
  match serviceMap_ w !! key with Some _ => w | None => w <| serviceMap_ ::= <[key := a]> |> end.

Definition in_service_map w a : bool := existsb (λ kv, bool_decide (kv.2 = a)) (map_to_list (serviceMap_ w)).
Definition GetExtensionByTokenFromServiceMap w a : option Abi := if in_service_map w a then Some a else None.
Definition GetExtensionByTokenFromTerminatingMap w a : option Abi :=
  if decide (a ∈ terminatingExtensionList_ w) then Some a else None.
Definition GetServiceRecordByElementName w (key : string) : option Abi := serviceMap_ w !! key.

Definition MoveToTerminatingMap w a : SvcWorld :=
  match services w !! a with
  | None => w
  | Some s =>
      let w := w <| terminatingExtensionList_ ::= λ l, l ++ [a] |> <| serviceMap_ ::= delete (moved_key s) |> in
      w <| cache := CacheRemove (cache_attrs w) (cache w) (Some a) |>
  end.

Definition RemoveServiceAbility w a : SvcWorld :=
  w <| terminatingExtensionList_ ::= filter (λ x, x ≠ a) |>.

Definition GetConnectRecordListFromMap w o : list Conn := default [] (connectMap_ w !! o).

Definition target_is w a r : bool := bool_decide (targetService_ <$> conns w !! r = Some a).
Definition IsAbilityConnected w a (l : list Conn) : bool := existsb (target_is w a) l.

Definition AddConnectDeathRecipient w o : SvcWorld :=
  if decide (o ∈ recipientMap_ w) then w
  else if negb (AddDeathRecipient E o) then w else w <| recipientMap_ ::= λ m, {[o]} ∪ m |>.

Definition RemoveConnectDeathRecipient w o : SvcWorld := w <| recipientMap_ ::= λ m, m ∖ {[o]} |>.

Definition AddConnectObjectToMap w o (l : list Conn) (updateOnly : bool) : SvcWorld :=
  let w := if updateOnly then w else AddConnectDeathRecipient w o in
  w <| connectMap_ ::= <[o := l]> |>.

Definition RemoveConnectionRecordFromMap w r : SvcWorld :=
  match find_if (λ kv, bool_decide (r ∈ kv.2)) (map_iter (connectMap_ w)) with
  | None => w
  | Some (o, l) =>
      match filter (λ x, x ≠ r) l with
      | [] => RemoveConnectDeathRecipient w o <| connectMap_ ::= delete o |>
      | l' => w <| connectMap_ ::= <[o := l']> |>
      end
  end.

(** ** Finding, creating and loading a service *)

Definition IsAbilityNeedKeepAlive (s : ServiceRecord) : bool :=
  IsSpecialAbility (info s) || IsInKeepAliveList E (svc_bundleName (info s)) (svc_name (info s)).

Definition CreateAbilityRecord w (req : ServiceRequest) : Abi * SvcWorld :=
  let a := fresh_service w in
  let i := req_info req in
  let restartMax := GetMaxRestartNum E (String.eqb (svc_bundleName i) LAUNCHER_BUNDLE_NAME) in
  let s := mkServiceRecord i (req_want req) (req_uid req) (StartupUtil_GetAppIndex (req_want req)).2 (-1) INITIAL []
             None false false 0 false false restartMax restartMax 0 false 0 in
  (a, w <| services ::= <[a := s]> |> <| fresh_service ::= Z.succ |>).

(** The record of a new service, as the request sets it up. *)
Definition create_service w (req : ServiceRequest) (isCreatedByConnect : bool) : Abi * SvcWorld :=
  let '(a, w) := CreateAbilityRecord w req in
  let restarts := λ s : ServiceRecord,
    s <| restartTime_ := req_restartTime req |> <| restartCount_ := req_restartCount req |> in
  let w := set_service w a (λ s,
    let s := s <| ownerMissionUserId_ := userId_ E |> <| isCreateByConnect_ := isCreatedByConnect |> in
    if String.eqb (svc_name (req_info req)) LAUNCHER_ABILITY_NAME then restarts (s <| isLauncherRoot_ := true |>)
    else if IsAbilityNeedKeepAlive s then restarts s else s) in
  (a, AddToServiceMap w (request_key req) a).

(** The record found, if any, and the maps after the search. *)
Definition find_service w (req : ServiceRequest) : option Abi * SvcWorld :=
  let serviceKey := request_key req in
  match serviceMap_ w !! serviceKey with
  | Some a => (Some a, w)
  | None =>
      if IsCacheExtensionType E (svc_extensionType (req_info req)) then
        let '(got, c) := CacheGet (cache_attrs w) (cache w) (cache_request req) in
        let w := w <| cache := c |> in
        (got, match got with Some a => AddToServiceMap w serviceKey a | None => w end)
      else (None, w)
  end.

Definition GetOrCreateServiceRecord w (req : ServiceRequest) (isCreatedByConnect : bool) : Abi * bool * SvcWorld :=
  let noReuse := bool_decide (svc_extensionType (req_info req) = EXT_WINDOW) in
  match find_service w req with
  | (Some a, w) =>
      if noReuse then
        let w := w <| serviceMap_ ::= delete (request_key req) |> in
        let '(a, w) := create_service w req isCreatedByConnect in (a, false, w)
      else (a, true, w)
  | (None, w) => let '(a, w) := create_service w req isCreatedByConnect in (a, false, w)
  end.

Definition PostTimeOutTask w (t : Task) : SvcWorld := if startup_hook_mode E then w else SubmitTask w t.

Definition PostConnectTimeOut w a : SvcWorld :=
  match GetConnectingRecord w a with
  | None => w
  | Some r => PostTimeOutTask w (TConnectTimeout (conn_id w r) a)
  end.

(** The connecting record of a service created by a connection is dereferenced. *)
Definition LoadAbility w a : outcome SvcWorld :=
  if negb (CanRestartRootLauncher w a) then Ret (RemoveServiceAbility w a)
  else
    let w := if default false (want_debugApp ∘ want_ <$> services w !! a) then w
             else PostTimeOutTask w (TLoadTimeout a) in
    if default false (isCreateByConnect_ <$> services w !! a) then
      let* _ := deref (GetConnectingRecord w a) in
      Ret (send w (LoadAbilityCall a))
    else Ret (send w (LoadAbilityCall a)).

Definition ConnectUIServiceExtAbility w a (connectRecordId : Z) : SvcWorld :=
  ConnectAbilityWithWant (PostTimeOutTask w (TConnectTimeout connectRecordId a)) a.

Definition ResumeConnectAbility w a : SvcWorld :=
  foldl (λ w r, ConnectUIServiceExtAbility w a (conn_id w r)) w (GetConnectingRecordList w a).

Definition ConnectAbility w a : SvcWorld :=
  if is_ui_service w a then ResumeConnectAbility w a
  else ConnectAbilityWithWant (PostConnectTimeOut w a) a.

Definition start_id w a : Z := default 0%Z (startId_ <$> services w !! a).

Definition CommandAbility w a : SvcWorld :=
  let w := set_service w a (λ s, s <| startId_ ::= Z.succ |>) in
  let w := SubmitTask w (TCommandTimeout a (start_id w a)) in
  schedule w a (ScheduleCommand a (start_id w a)).

Definition ReportXiaoYiToRSSIfNeeded w (i : ServiceInfo) : Z :=
  if negb (bool_decide (svc_type i = TYPE_EXTENSION)) || negb (String.eqb (svc_bundleName i) XIAOYI_BUNDLE_NAME)
  then ERR_OK else GetProcessRunningInfos E w.

(** ** Starting *)

Definition EnqueueStartServiceReq w (req : ServiceRequest) : SvcWorld :=
  let uri := want_uri (req_want req) in
  match startServiceReqList_ w !! uri with
  | Some l => w <| startServiceReqList_ ::= <[uri := l ++ [req]]> |>
  | None => SubmitTask (w <| startServiceReqList_ ::= <[uri := [req]]> |>) (TStartServiceTimeout uri)
  end.

Definition StartServiceTimeout w (uri : string) : SvcWorld := w <| startServiceReqList_ ::= delete uri |>.

Definition StartAbilityLocked w (req : ServiceRequest) : outcome (Z * SvcWorld) :=
  let '(a, isLoadedAbility, w) := GetOrCreateServiceRecord w req false in
  let ret := ReportXiaoYiToRSSIfNeeded w (req_info req) in
  if negb (ret =? ERR_OK)%Z then Ret (ret, w)
  else if negb isLoadedAbility then let* w := LoadAbility w a in Ret (ERR_OK, w)
  else if is_state w a ACTIVE then
    let w := set_service w a (λ s, s <| want_ := req_want req |>) in
    Ret (ERR_OK, CommandAbility w a)
  else Ret (ERR_OK, EnqueueStartServiceReq w req).

Fixpoint start_all w (reqs : list ServiceRequest) : outcome SvcWorld :=
  match reqs with
  | [] => Ret w
  | req :: rest => let* (_, w) := StartAbilityLocked w req in start_all w rest
  end.

Definition CompleteStartServiceReq w (uri : string) : outcome SvcWorld :=
  match startServiceReqList_ w !! uri with
  | None => Ret w
  | Some reqs =>
      let w := w <| startServiceReqList_ ::= delete uri |> in
      let w := CancelTask w (λ t, match t with TStartServiceTimeout u => String.eqb u uri | _ => false end) in
      start_all w reqs
  end.

(** ** Connecting *)

Definition HandleActiveAbility w a r : SvcWorld :=
  if is_ui_service w a then ConnectUIServiceExtAbility w a (conn_id w r)
  else if 1 <? length (conn_list w a) then
    if bool_decide (is_Some (services w !! a ≫= connRemoteObject_)) then SubmitTask w (TCompleteConnect r) else w
  else ConnectAbility w a.

Definition emplace (o : Z) (v : Z * Z) (m : gmap Z (Z * Z)) : gmap Z (Z * Z) :=
  match m !! o with Some _ => m | None => <[o := v]> m end.

(** The record of a new connection, in the list of its service and under its callback. *)
Definition open_connection w a (req : ServiceRequest) (connect : Callback) (caller : Caller) : Conn * SvcWorld :=
  let connectRecordList := GetConnectRecordListFromMap w (cb_object connect) in
  let isCallbackConnected := negb (bool_decide (connectRecordList = [])) in
  let '(w, r) := CreateConnectionRecord w a connect in
  let w := AttachCallerInfo w r caller in
  let w := SetConnectState w r CONNECTING in
  let w := AddConnectRecordToList w a r in
  let w := AddConnectObjectToMap w (cb_object connect) (connectRecordList ++ [r]) isCallbackConnected in
  match bool_decide (svc_extensionType ∘ info <$> services w !! a = Some EXT_WINDOW), req_session req with
  | true, Some session =>
      let token := default 0%Z (svc_accessTokenId ∘ info <$> services w !! a) in
      (r, w <| windowExtensionMap_ ::= emplace (cb_object connect) (token, session) |>)
  | _, _ => (r, w)
  end.

Definition ConnectAbilityLocked w (req : ServiceRequest) (connect : Callback) (caller : Caller)
    : outcome (Z * SvcWorld) :=
  let '(a, isLoadedAbility, w) := GetOrCreateServiceRecord w req true in
  let connectRecordList := GetConnectRecordListFromMap w (cb_object connect) in
  if isLoadedAbility && negb (bool_decide (connectRecordList = [])) && IsAbilityConnected w a connectRecordList
  then Ret (ERR_OK, w)
  else
    let '(r, w) := open_connection w a req connect caller in
    let ret := ReportXiaoYiToRSSIfNeeded w (req_info req) in
    if negb (ret =? ERR_OK)%Z then Ret (ret, w)
    else if negb isLoadedAbility then let* w := LoadAbility w a in Ret (ERR_OK, w)
    else if is_state w a ACTIVE then
      let w := set_service w a (λ s, s <| want_ := req_want req |>) in
      Ret (ERR_OK, HandleActiveAbility w a r)
    else Ret (ERR_OK, w).

(** ** Terminating *)

Definition TerminateRecord w a : SvcWorld :=
  if negb (in_service_map w a)
     && negb (bool_decide (is_Some (FindRecordByToken (cache_attrs w) (cache w) (Some a)))) then w
  else Terminate (MoveToTerminatingMap w a) a.

Definition ProcessEliminateAbilityRecord w a : SvcWorld :=
  let key := default "" (GetServiceKey <$> services w !! a) in
  TerminateRecord (AddToServiceMap w key a) a.

Definition TerminateOrCacheAbility w a : outcome SvcWorld :=
  match services w !! a with
  | None => Ret w
  | Some s =>
      if IsSceneBoard s then Ret w
      else if IsCacheExtensionType E (svc_extensionType (info s)) then
        let w := w <| serviceMap_ ::= delete (moved_key s) |> in
        let* (eliminateRecord, c) := Put (cache_attrs w) (cache w) (Some a) in
        let w := w <| cache := c |> in
        Ret (match eliminateRecord with Some e => ProcessEliminateAbilityRecord w e | None => w end)
      else Ret (TerminateRecord w a)
  end.

(** The end of connections whose service is gone, or goes. *)
Definition end_connection w a r : SvcWorld :=
  let w := CompleteDisconnect w r ERR_OK false true in
  let w := RemoveConnectRecordFromList w a r in
  RemoveConnectionRecordFromMap w r.

Definition HandleTerminateDisconnectTask w (l : list Conn) : SvcWorld :=
  foldl (λ w r, match conns w !! r with Some c => end_connection w (targetService_ c) r | None => w end) w l.

Definition TerminateAbilityLocked w a : Z * SvcWorld :=
  match GetExtensionByTokenFromTerminatingMap w a with
  | None => (ERR_INVALID_VALUE, w)
  | Some a =>
      let w := HandleTerminateDisconnectTask w (conn_list w a) in
      (ERR_OK, Terminate w a)
  end.

Definition TerminateAbilityInner w a : Z * SvcWorld :=
  if negb (in_service_map w a)
     && negb (bool_decide (is_Some (FindRecordByToken (cache_attrs w) (cache w) (Some a))))
  then (ERR_INVALID_VALUE, w)
  else TerminateAbilityLocked (MoveToTerminatingMap w a) a.

Definition StopServiceAbilityLocked w (req : ServiceRequest) : Z * SvcWorld :=
  let serviceKey := request_key req in
  let '(found, w) :=
    match GetServiceRecordByElementName w serviceKey with
    | Some a => (Some a, w)
    | None =>
        let '(got, c) := CacheGet (cache_attrs w) (cache w) (cache_request req) in
        let w := w <| cache := c |> in
        (got, match got with Some a => AddToServiceMap w serviceKey a | None => w end)
    end in
  match found with
  | None => (ERR_INVALID_VALUE, w)
  | Some a =>
      let w := HandleTerminateDisconnectTask w (conn_list w a) in
      (ERR_OK, TerminateRecord w a)
  end.

Definition TerminateDone w a : SvcWorld :=
  if negb (is_state w a TERMINATING) then w
  else
    let w := if default false (IsSceneBoard <$> services w !! a) then send w AppKillProcesses else w in
    let w := send w (AppTerminateAbility a) in
    RemoveServiceAbility w a.

(** ** Disconnecting *)

Definition DisconnectRecordNormal w r (callerDied : bool) : Z * option Conn * SvcWorld :=
  let '(result, w) := Conn_DisconnectAbility w r in
  if negb (result =? ERR_OK)%Z then (result, None, w)
  else if is_phase w DISCONNECTED r then (ERR_OK, Some r, CompleteDisconnect w r ERR_OK callerDied false)
  else (ERR_OK, None, w).

Definition DisconnectRecordForce w r : option Conn * SvcWorld :=
  match conns w !! r with
  | None => (None, w)
  | Some c =>
      let a := targetService_ c in
      let w := RemoveConnectRecordFromList w a r in
      let w := CompleteDisconnect w r ERR_OK true false in
      (Some r, if IsConnectListEmpty w a && (start_id w a =? 0)%Z then TerminateRecord w a else w)
  end.

Definition RemoveExtensionDelayDisconnectTask w r : SvcWorld :=
  CancelTask w (λ t, match t with TDelayDisconnect id _ => (id =? conn_id w r)%Z | _ => false end).

(** One record of the list; the caller is who calls now, not who connected. *)
Definition disconnect_record w r (callerDied : bool) : Z * option Conn * SvcWorld :=
  let '(result, done, w) := DisconnectRecordNormal w r callerDied in
  if negb (result =? ERR_OK)%Z && callerDied
  then let '(done, w) := DisconnectRecordForce w r in (ERR_OK, done, w)
  else (result, done, w).

Fixpoint disconnect_loop (callingTokenID selfTokenID : Z) (callerDied : bool) w (l done : list Conn) (result : Z)
    : Z * list Conn * SvcWorld :=
  match l with
  | [] => (result, done, w)
  | r :: l =>
      match conns w !! r with
      | None => disconnect_loop callingTokenID selfTokenID callerDied w l done result
      | Some c =>
          let w := if bool_decide (svc_type ∘ info <$> services w !! targetService_ c = Some TYPE_EXTENSION)
                   then RemoveExtensionDelayDisconnectTask w r else w in
          if negb (conn_callerTokenId c =? callingTokenID)%Z && negb (selfTokenID =? callingTokenID)%Z
          then disconnect_loop callingTokenID selfTokenID callerDied w l done result
          else
            let '(result, d, w) := disconnect_record w r callerDied in
            let done := done ++ option_list d in
            if negb (result =? ERR_OK)%Z then (result, done, w)
            else disconnect_loop callingTokenID selfTokenID callerDied w l done result
      end
  end.

Definition DisconnectAbilityLocked w o (callingTokenID selfTokenID : Z) (callerDied : bool) : Z * SvcWorld :=
  match GetConnectRecordListFromMap w o with
  | [] => (CONNECTION_NOT_EXIST, w)
  | l =>
      let '(result, done, w) := disconnect_loop callingTokenID selfTokenID callerDied w l [] ERR_OK in
      (result, foldl RemoveConnectionRecordFromMap w done)
  end.

(** ** What services report *)

Definition PostExtensionDelayDisconnectTask w r : SvcWorld :=
  let typeName := default "" (conns w !! r ≫= λ c, svc_extensionTypeName ∘ info <$> services w !! targetService_ c) in
  if (GetExtensionAutoDisconnectTime E typeName =? AUTO_DISCONNECT_INFINITY)%Z then w
  else SubmitTask w (TDelayDisconnect (conn_id w r) r).

Definition auto_disconnected w a : bool :=
  match services w !! a with
  | Some s => bool_decide (svc_type (info s) = TYPE_EXTENSION) && negb (bool_decide (svc_extensionType (info s) = EXT_SERVICE))
  | None => false
  end.

Definition connect_done_loop w a (l : list Conn) : SvcWorld :=
  foldl (λ w r,
    let w := Conn_ScheduleConnectAbilityDone w r in
    if auto_disconnected w a then PostExtensionDelayDisconnectTask w r else w) w l.

Definition ScheduleConnectAbilityDoneLocked w a (remoteObject : option Z) : outcome (Z * SvcWorld) :=
  match services w !! a with
  | None => Ret (ERR_INVALID_VALUE, w)
  | Some s =>
      if negb (is_state w a INACTIVE) && negb (is_state w a ACTIVE) then Ret (INVALID_CONNECTION_STATE, w)
      else
        let w := set_service w a (λ s, s <| connRemoteObject_ := remoteObject |>) in
        let w := connect_done_loop w a (conn_list w a) in
        let* w := CompleteStartServiceReq w (GetURI s) in
        Ret (ERR_OK, w)
  end.

Definition ScheduleDisconnectAbilityDoneLocked w a : outcome (Z * SvcWorld) :=
  match GetExtensionByTokenFromServiceMap w a ≫= λ a, GetDisconnectingRecord w a with
  | None => Ret (CONNECTION_NOT_EXIST, w)
  | Some r =>
      if negb (is_state w a ACTIVE) then Ret (INVALID_CONNECTION_STATE, w)
      else
        let w := Conn_ScheduleDisconnectAbilityDone w r in
        let w := RemoveConnectRecordFromList w a r in
        let* w := (if IsConnectListEmpty w a && (start_id w a =? 0)%Z then TerminateOrCacheAbility w a else Ret w) in
        Ret (ERR_OK, RemoveConnectionRecordFromMap w r)
  end.

Definition CompleteCommandAbility w a : outcome SvcWorld :=
  let n := start_id w a in
  let w := CancelTask w (λ t, match t with TCommandTimeout b m => bool_decide (a = b) && (m =? n)%Z | _ => false end) in
  let w := SetAbilityState w a ACTIVE in
  let* w := CompleteStartServiceReq w (default "" (GetURI <$> services w !! a)) in
  Ret (if NeedConnectAfterCommand w a then ConnectAbility w a else w).

Definition ScheduleCommandAbilityDoneLocked w a : outcome (Z * SvcWorld) :=
  match services w !! a with
  | None => Ret (ERR_INVALID_VALUE, w)
  | Some _ =>
      if negb (is_state w a INACTIVE) && negb (is_state w a ACTIVE) then Ret (INVALID_CONNECTION_STATE, w)
      else let* w := CompleteCommandAbility w a in Ret (ERR_OK, w)
  end.

Definition AttachAbilityThreadLocked w a (callingPid : Z) : Z * SvcWorld :=
  match GetExtensionByTokenFromServiceMap w a with
  | None => (ERR_INVALID_VALUE, w)
  | Some a =>
      let w := CancelTask w (λ t, match t with TLoadTimeout b => bool_decide (a = b) | _ => false end) in
      let w := set_service w a (λ s, s <| scheduler_ := true |> <| pid_ := i32 callingPid |>) in
      (ERR_OK, Inactivate w a)
  end.

Definition DispatchInactive w a : Z * SvcWorld :=
  if negb (is_state w a INACTIVATING) then (ERR_INVALID_VALUE, w)
  else
    let w := CancelTask w (is_inactive_event a) in
    let w := SetAbilityState w a INACTIVE in
    if default false (isCreateByConnect_ <$> services w !! a) then (ERR_OK, ConnectAbility w a)
    else
      let w := CommandAbility w a in
      (ERR_OK, if 0 <? length (conn_list w a) then ConnectAbility w a else w).

Definition DispatchTerminate w a : Z * SvcWorld :=
  let w := CancelTask w (λ t, match t with TTerminateTimeout b => bool_decide (a = b) | _ => false end) in
  (ERR_OK, TerminateDone w a).

(** Services report that they are inactive or that they have ended. *)
Definition AbilityTransitionDone w a (targetState : ServiceState) : Z * SvcWorld :=
  match targetState with
  | INACTIVE =>
      match GetExtensionByTokenFromServiceMap w a with
      | Some a => DispatchInactive w a
      | None => (ERR_INVALID_VALUE, w)
      end
  | INITIAL =>
      match GetExtensionByTokenFromTerminatingMap w a with
      | Some a => DispatchTerminate w a
      | None => (ERR_INVALID_VALUE, w)
      end
  | _ => (ERR_INVALID_VALUE, w)
  end.

(** ** Restarting *)

Definition StartRootLauncher w a : outcome SvcWorld :=
  match services w !! a with
  | None => Ret w
  | Some s =>
      let req := mkServiceRequest (info s) (want_ s) 0 (restartCount_ s - 1) (restartTime_ s) None in
      let* (_, w) := StartAbilityLocked w req in Ret w
  end.

Definition same_element (r1 r2 : ServiceRequest) : bool :=
  String.eqb (want_bundleName (req_want r1)) (want_bundleName (req_want r2))
  && String.eqb (want_moduleName (req_want r1)) (want_moduleName (req_want r2))
  && String.eqb (want_abilityName (req_want r1)) (want_abilityName (req_want r2)).

Definition RestartAbility w a (user time : Z) : outcome SvcWorld :=
  let w := set_service w a (SetRestarting true) in
  match services w !! a with
  | None => Ret w
  | Some s =>
      let req := mkServiceRequest (info s) (want_ s) (uid_ s) (restartCount_ s) (restartTime_ s) None in
      if IsLauncherAbility (svc_name (info s)) then
        if negb (user =? userId_ E)%Z then Ret w
        else let* (_, w) := StartAbilityLocked w req in Ret w
      else if CanRestartResident time s then
        let req := mkServiceRequest (info s) (want_ s) (uid_ s) (restartCount_ s) time None in
        let* (_, w) := StartAbilityLocked w req in Ret w
      else
        let req := mkServiceRequest (info s) (want_ s) (uid_ s) (-1) (restartTime_ s) None in
        if existsb (same_element req) (restartResidentTaskList_ w) then Ret w
        else
          let w := w <| restartResidentTaskList_ ::= λ l, l ++ [req] |> in
          Ret (SubmitTask w (TRestartResident (svc_name (info s)) req))
  end.

Definition HandleRestartResidentTask w (req : ServiceRequest) : outcome SvcWorld :=
  let w := w <| restartResidentTaskList_ ::= erase_first (same_element req) |> in
  let* (_, w) := StartAbilityLocked w req in Ret w.

(** The reboot of the device after repeated ends of the scene board is left out. *)
Definition KeepAbilityAlive w a (k : KeepAnswers) : outcome SvcWorld :=
  match services w !! a with
  | None => Ret w
  | Some s =>
      let w := if IsLauncher s || IsSceneBoard s then send w (AppClearProcess a) else w in
      if IsSceneBoard s && negb (currentUserId k =? userId_ E)%Z then Ret (send w AppKillProcesses)
      else if IsKilledForUpgradeWeb k then Ret w
      else if IsMemorySizeSufficent k || IsLauncher s || IsSceneBoard s || IsAllowResidentInExtremeMemory k
      then RestartAbility w a (currentUserId k) (now k) else Ret w
  end.

(** ** Deaths and timeouts *)

Definition OnCallBackDied w o : SvcWorld := SubmitTask w (TCallBackDied o).

(** The callbacks are cleared before the lock is taken under which the connections end;
    [None]: the object is not known. *)
Definition ClearCallBacks w o : option SvcWorld :=
  let w := w <| windowExtensionMap_ ::= delete o |> in
  match connectMap_ w !! o with
  | None => None
  | Some l => Some (foldl ClearConnCallBack w l)
  end.

(** A task is not called by another process: the calling token is the own one. *)
Definition HandleCallBackDiedTask w o (selfTokenID : Z) : SvcWorld :=
  match ClearCallBacks w o with
  | None => w <| windowExtensionMap_ ::= delete o |>
  | Some w => (DisconnectAbilityLocked w o selfTokenID selfTokenID true).2
  end.

Definition HandleExtensionDisconnectTask w r : SvcWorld :=
  let '(_, w) := Conn_DisconnectAbility w r in
  if is_phase w DISCONNECTED r then RemoveConnectionRecordFromMap (CompleteDisconnect w r ERR_OK false false) r
  else w.

Definition timeout_connection w a r : SvcWorld :=
  let w := RemoveExtensionDelayDisconnectTask w r in
  let w := CancelConnectTimeoutTask w r in
  end_connection w a r.

(** The list is read before the lock is taken. *)
Definition HandleConnectTimeoutTask w a (connectList : list Conn) : SvcWorld :=
  let w := foldl (λ w r, timeout_connection w a r) w connectList in
  if default false (IsSpecialAbility ∘ info <$> services w !! a) || negb (start_id w a =? 0)%Z then w
  else TerminateRecord w a.

Definition HandleStartTimeoutTask w a (time : Z) : outcome SvcWorld :=
  let w := foldl (λ w r, end_connection w a r) w (GetConnectingRecordList w a) in
  match services w !! a with
  | None => Ret w
  | Some s =>
      if negb (in_service_map w a) then Ret w
      else
        let w := RemoveServiceAbility (MoveToTerminatingMap w a) a in
        let w := send w (AppAttachTimeOut a) in
        if negb (String.eqb (svc_name (info s)) LAUNCHER_ABILITY_NAME) then
          if IsAbilityNeedKeepAlive s then RestartAbility w a (userId_ E) time else Ret w
        else StartRootLauncher w a
  end.

Definition HandleStopTimeoutTask w a : SvcWorld := TerminateDone w a.

Definition HandleCommandTimeoutTask w a : SvcWorld :=
  if default false ((λ s, String.eqb (svc_name (info s)) LAUNCHER_ABILITY_NAME) <$> services w !! a)
  then send w (AppAttachTimeOut a) else w.

(** [OnTimeOut] of an inactive event. *)
Definition HandleInactiveTimeout w a (connectList : list Conn) : SvcWorld :=
  match services w !! a with
  | None => w
  | Some s =>
      if negb (in_service_map w a) then w
      else
        let w := HandleCommandTimeoutTask w a in
        if String.eqb (svc_name (info s)) CALLUI_ABILITY_NAME && (startId_ s =? 0)%Z
        then HandleConnectTimeoutTask w a connectList else w
  end.

(** What is posted calls [OnAbilityDied] through the ability manager service. *)
Definition OnSchedulerDied w a : SvcWorld :=
  SubmitTask (set_service w a (λ s, s <| scheduler_ := false |>)) (TOnAbilityDied a).

Definition OnAbilityDied w a : SvcWorld :=
  match svc_type ∘ info <$> services w !! a with
  | Some TYPE_SERVICE | Some TYPE_EXTENSION => SubmitTask w (TAbilityDied a)
  | _ => w
  end.

Definition died_connection w a r : SvcWorld := end_connection (RemoveExtensionDelayDisconnectTask w r) a r.

Definition HandleAbilityDiedTask w a (k : KeepAnswers) : outcome SvcWorld :=
  let w := set_service w a (λ s, s <| connRemoteObject_ := None |>) in
  let w := foldl (λ w r, died_connection w a r) w (conn_list w a) in
  match services w !! a with
  | None => Ret w
  | Some s =>
      let cached := IsCacheExtensionType E (svc_extensionType (info s))
                    && bool_decide (is_Some (FindRecordByToken (cache_attrs w) (cache w) (Some a))) in
      let w :=
        if cached then
          let w := w <| cache := CacheRemove (cache_attrs w) (cache w) (Some a) |> in
          RemoveServiceAbility (MoveToTerminatingMap w a) a
        else if in_service_map w a then RemoveServiceAbility (MoveToTerminatingMap w a) a
        else w in
      if IsAbilityNeedKeepAlive s then KeepAbilityAlive w a k else Ret w
  end.

(** ** The device *)

Definition FROZEN_WHITE_LIST : list string := ["com.huawei.hmos.huaweicast"].

Definition frozen (pidList : list Z) (uid : Z) (s : ServiceRecord) : bool :=
  (uid_ s =? uid)%Z && bool_decide (svc_extensionType (info s) = EXT_SERVICE)
  && bool_decide (pid_ s ∈ pidList) && negb (bool_decide (svc_bundleName (info s) ∈ FROZEN_WHITE_LIST))
  && bool_decide (connRecordList_ s = []) && negb (GetKeepAlive s) && negb (startId_ s =? 0)%Z.

Definition HandleProcessFrozen w (pidList : list Z) (uid : Z) : SvcWorld :=
  foldl (λ w kv, if default false (frozen pidList uid <$> services w !! kv.2)
                 then SubmitTask w (TTerminateRecord kv.2) else w) w (map_iter (serviceMap_ w)).

Definition paused (s : ServiceRecord) : bool :=
  bool_decide (svc_type (info s) = TYPE_EXTENSION) && (IsLauncher s || IsSceneBoard s).

Definition PauseExtensions w : SvcWorld :=
  let out := filter (λ kv : string * Abi, default false (paused <$> services w !! kv.2)) (map_iter (serviceMap_ w)) in
  let w := w <| terminatingExtensionList_ ::= λ l, l ++ out.*2 |>
             <| serviceMap_ ::= filter (λ kv : string * Abi, negb (default false (paused <$> services w !! kv.2))) |> in
  foldl (λ w a, (TerminateAbilityLocked w a).2) w out.*2.
End Manager.

(** ** Runs

    Every call takes the lock of the manager, so calls follow each other; the clearing of
    the callbacks of a dead client and the reading of the list of a timeout are done
    before the lock is taken and are steps, or arguments, of their own. A posted task may
    run at any time, or never. *)

Inductive SvcOp :=
| OStart (req : ServiceRequest)
| OConnect (req : ServiceRequest) (connect : Callback) (caller : Caller)
| ODisconnect (o callingTokenID selfTokenID : Z)
| OTerminate (a : Abi)
| OStop (req : ServiceRequest)
| OAttach (a : Abi) (callingPid : Z)
| OTransition (a : Abi) (state : ServiceState)
| OConnectDone (a : Abi) (remoteObject : option Z)
| ODisconnectDone (a : Abi)
| OCommandDone (a : Abi)
| OCallBackDied (o : Z)
| OClearCallBacks (o : Z)
| OCallBackGone (o selfTokenID : Z)
| OCompleteConnect (r : Conn)
| ODelayDisconnect (r : Conn)
| OConnectTimeout (a : Abi) (connectList : list Conn)
| OInactiveTimeout (a : Abi) (connectList : list Conn)
| OStartTimeout (a : Abi) (time : Z)
| OStopTimeout (a : Abi)
| OCommandTimeout (a : Abi)
| OSchedulerDied (a : Abi)
| OAbilityDied (a : Abi)
| OAbilityDiedTask (a : Abi) (k : KeepAnswers)
| OStartServiceTimeout (uri : string)
| ORestartResident (req : ServiceRequest)
| OFrozen (pidList : list Z) (uid : Z)
| OTerminateRecord (a : Abi)
| OPause.

Section Run.
Context (E : SvcEnv).

Definition svc_step w (op : SvcOp) : outcome SvcWorld :=
  match op with
  | OStart req => let* (_, w) := StartAbilityLocked E w req in Ret w
  | OConnect req connect caller => let* (_, w) := ConnectAbilityLocked E w req connect caller in Ret w
  | ODisconnect o calling self => Ret (DisconnectAbilityLocked E w o calling self false).2
  | OTerminate a => Ret (TerminateAbilityInner E w a).2
  | OStop req => Ret (StopServiceAbilityLocked E w req).2
  | OAttach a pid => Ret (AttachAbilityThreadLocked w a pid).2
  | OTransition a st => Ret (AbilityTransitionDone E w a st).2
  | OConnectDone a ro => let* (_, w) := ScheduleConnectAbilityDoneLocked E w a ro in Ret w
  | ODisconnectDone a => let* (_, w) := ScheduleDisconnectAbilityDoneLocked E w a in Ret w
  | OCommandDone a => let* (_, w) := ScheduleCommandAbilityDoneLocked E w a in Ret w
  | OCallBackDied o => Ret (OnCallBackDied w o)
  | OClearCallBacks o => Ret (default (w <| windowExtensionMap_ ::= delete o |>) (ClearCallBacks w o))
  | OCallBackGone o self => Ret (DisconnectAbilityLocked E w o self self true).2
  | OCompleteConnect r => Ret (CompleteConnect E w r ERR_OK)
  | ODelayDisconnect r => Ret (HandleExtensionDisconnectTask w r)
  | OConnectTimeout a l => Ret (HandleConnectTimeoutTask E w a l)
  | OInactiveTimeout a l => Ret (HandleInactiveTimeout E w a l)
  | OStartTimeout a time => HandleStartTimeoutTask E w a time
  | OStopTimeout a => Ret (HandleStopTimeoutTask w a)
  | OCommandTimeout a => Ret (HandleCommandTimeoutTask w a)
  | OSchedulerDied a => Ret (OnSchedulerDied w a)
  | OAbilityDied a => Ret (OnAbilityDied w a)
  | OAbilityDiedTask a k => HandleAbilityDiedTask E w a k
  | OStartServiceTimeout uri => Ret (StartServiceTimeout w uri)
  | ORestartResident req => HandleRestartResidentTask E w req
  | OFrozen pids uid => Ret (HandleProcessFrozen E w pids uid)
  | OTerminateRecord a => Ret (TerminateRecord E w a)
  | OPause => Ret (PauseExtensions w)
  end.

(** A list that was read of a service holds connections of that service. *)
Definition op_ok w (op : SvcOp) : Prop :=
  match op with
  | OConnectTimeout a l | OInactiveTimeout a l => Forall (λ r, target_is w a r = true) l
  | _ => True
  end.

Definition svc_init (devCapacity procCapacity : Z) (st : ConnState) : SvcWorld :=
  mkSvcWorld ∅ 1%positive 0 ∅ 0 ∅ ∅ ∅ ∅ [] ∅ [] (CacheInit AbilityCacheManager_new devCapacity procCapacity) st [] [] [].

Inductive reach : SvcWorld → Prop :=
| reach_init devCapacity procCapacity st : reach (svc_init devCapacity procCapacity st)
| reach_step w op w' : reach w → op_ok w op → svc_step w op = Ret w' → reach w'.
End Run.
