(* ===== verification/ServiceTheorems.v ===== *)
(** * Connections to services: what every run keeps

    The invariant of the connections and of the maps over every run of [ServiceConnect],
    and what the calls of a client, of a service and of a death do. *)

From stdpp Require Import prelude gmap strings list sorting pretty.
From Stdlib Require Import ZArith Lia.
From S2P Require Import Prelude AbilityCache ConnectionState ServiceConnect.

Implicit Types (w : SvcWorld) (r : Conn) (a : Abi) (o : Z) (D : list Conn).

(** ** Records that the cache holds *)

Definition cache_all (P : Z → Prop) (c : AbilityCacheManager) : Prop :=
  (∀ t i x, procLruMap_ c !! t = Some i → x ∈ recList i → P x) ∧ (∀ x, x ∈ devRecLru_ c → P x).

Lemma cache_all_mono (P Q : Z → Prop) c : (∀ x, P x → Q x) → cache_all P c → cache_all Q c.
Proof. intros H [H1 H2]. split; eauto. Qed.

Section CacheAll.
Context (attrs : Z → RecordAttrs) (P : Z → Prop).

Lemma cache_all_dev c (r : Abi) : cache_all P c → cache_all P (RemoveAbilityRecInDevList c r).
Proof.
  intros [H1 H2]. unfold RemoveAbilityRecInDevList. destruct (find_if _ _); [|done].
  split; [done|]. cbn. intros x Hx%elem_of_erase_first. by apply H2.
Qed.

Lemma cache_all_insert c t i :
  (∀ x, x ∈ recList i → P x) → cache_all P c → cache_all P (c <| procLruMap_ ::= <[t := i]> |>).
Proof.
  intros Hi [H1 H2]. split; [|done]. intros t' i' x. cbn.
  intros [[-> ->]|[_ ?]]%lookup_insert_Some; eauto.
Qed.

Lemma cache_all_proc c (r : Abi) : cache_all P c → cache_all P (RemoveAbilityRecInProcList attrs c r).
Proof.
  intros Hc. pose proof Hc as [H1 H2]. unfold RemoveAbilityRecInProcList.
  destruct (procLruMap_ c !! _) as [i|] eqn:Hi; [|done]. destruct (find_if _ _); [|done].
  cbn. case_decide.
  - split; [|done]. intros t j x. cbn. intros [_ ?]%lookup_delete_Some. eauto.
  - apply cache_all_insert; [|done]. cbn. intros x Hx%elem_of_erase_first. eauto.
Qed.

Lemma cache_all_remove c a : cache_all P c → cache_all P (CacheRemove attrs c (Some a)).
Proof. intros H. by apply cache_all_dev, cache_all_proc. Qed.

Lemma cache_all_get c req x c' :
  cache_all P c → CacheGet attrs c req = (x, c') → cache_all P c' ∧ (∀ a, x = Some a → P a).
Proof.
  intros Hc. pose proof Hc as [H1 H2]. unfold CacheGet, GetAbilityRecInProcList.
  destruct (procLruMap_ c !! _) as [i|] eqn:Hi; [|by intros [= <- <-]].
  destruct (find_if _ _) as [y|] eqn:Hy; [|by intros [= <- <-]].
  apply find_if_elem in Hy as [Hy _].
  intros [= <- <-]. split; [|by intros a [= <-]; eauto].
  apply cache_all_dev, cache_all_insert; [|done]. cbn. intros z Hz%elem_of_erase_first. eauto.
Qed.

Lemma cache_all_push c a : P a → cache_all P c → cache_all P (push_dev c a).
Proof. intros Ha [H1 H2]. split; [done|]. cbn. intros x [?| ->%list_elem_of_singleton]%elem_of_app; eauto. Qed.

Lemma cache_all_addproc c a x c' :
  P a → cache_all P c → AddToProcLru attrs c a = Ret (x, c') → cache_all P c' ∧ (∀ b, x = Some b → P b).
Proof.
  intros Ha Hc. pose proof Hc as [H1 H2]. unfold AddToProcLru.
  destruct (procLruMap_ c !! _) as [i|] eqn:Hi.
  - case_decide; [destruct (recList i) as [|old rest] eqn:El|]; intros [= <- <-].
    + assert (∀ y, y ∈ old :: rest → P y) as Hl by (rewrite <-El; eauto).
      split; [|intros b [= <-]; apply Hl; left].
      apply cache_all_insert; [|by apply cache_all_dev]. cbn.
      intros y [?| ->%list_elem_of_singleton]%elem_of_app; [apply Hl; by right|done].
    + split; [|done]. apply cache_all_insert; [|done]. cbn.
      intros y [?| ->%list_elem_of_singleton]%elem_of_app; eauto.
  - intros [= <- <-]. split; [|done]. apply cache_all_insert; [|done]. cbn.
    by intros y ->%list_elem_of_singleton.
Qed.

Lemma cache_all_put c a x c' :
  P a → cache_all P c → Put attrs c (Some a) = Ret (x, c') → cache_all P c' ∧ (∀ b, x = Some b → P b).
Proof.
  intros Ha Hc. unfold Put. destruct (AddToProcLru attrs c a) as [[y c1]|] eqn:E1; [|done]. cbn.
  destruct (cache_all_addproc _ _ _ _ Ha Hc E1) as [H1 Hy]. unfold AddToDevLru.
  destruct y as [b|]; [intros [= <- <-]; split; [by apply cache_all_push|done]|].
  case_decide; [destruct (devRecLru_ c1) as [|old rest] eqn:El|]; intros [= <- <-].
  - split; [|intros b [= <-]; apply H1; rewrite El; left].
    apply cache_all_push; [done|]. pose proof (cache_all_proc c1 old H1) as [P1 P2].
    split; [done|]. cbn. intros z Hz. apply P2. destruct (devRecLru_ (RemoveAbilityRecInProcList attrs c1 old)); [done|by right].
  - split; [by apply cache_all_push|done].
Qed.
End CacheAll.

(** ** The invariant *)

Definition live (p : ConnectionPhase) : Prop := p = CONNECTING ∨ p = CONNECTED ∨ p = DISCONNECTING.

(** A connection under a callback. *)
Definition opened w o r : Prop := ∃ l, connectMap_ w !! o = Some l ∧ r ∈ l.

(** The client was told, with its own callback, that its connection has ended, unless the
    callback was cleared, which [HandleCallBackDiedTask] does when the client has died. *)
Definition ended w r : Prop :=
  ∃ c, conns w !! r = Some c ∧ ∀ cb, connCallback_ c = Some cb → ∃ code, DisconnectDone r cb code ∈ told w.

(** [D] holds the connections that are being closed. *)
Record CInv (E : SvcEnv) D w : Prop := {
  ci_lists o l : connectMap_ w !! o = Some l → l ≠ [] ∧ NoDup l;
  ci_open o r : opened w o r → ∃ c, conns w !! r = Some c ∧
    (∀ cb, connCallback_ c = Some cb → cb_object cb = o) ∧
    (r ∈ D ∨ live (phase_ c) ∧ r ∈ conn_list w (targetService_ c));
  ci_uniq o1 o2 r : opened w o1 r → opened w o2 r → o1 = o2;
  ci_one o r1 r2 a : opened w o r1 → opened w o r2 →
    targetService_ <$> conns w !! r1 = Some a → targetService_ <$> conns w !! r2 = Some a → r1 = r2;
  ci_service a r : r ∈ conn_list w a → targetService_ <$> conns w !! r = Some a ∧ ∃ o, opened w o r;
  ci_nodup a : NoDup (conn_list w a);
  ci_recip o : o ∈ recipientMap_ w ↔ is_Some (connectMap_ w !! o) ∧ AddDeathRecipient E o = true;
  ci_fresh r : is_Some (conns w !! r) → (r < fresh_conn w)%positive;
  ci_target r c : conns w !! r = Some c → is_Some (services w !! targetService_ c);
  ci_told r : is_Some (conns w !! r) → (∃ o, opened w o r) ∨ ended w r;
}.

(** The service map and the cache hold records that exist. *)
Record MInv w : Prop := {
  mi_map k a : serviceMap_ w !! k = Some a → is_Some (services w !! a);
  mi_cache : cache_all (λ a, is_Some (services w !! a)) (cache w);
  mi_fresh a : is_Some (services w !! a) → (a < fresh_service w)%Z;
}.

Definition Good (E : SvcEnv) D w : Prop := CInv E D w ∧ MInv w.

(** ** Steps that leave the connections alone *)

Record frame w w' : Prop := {
  fr_conns : conns w' = conns w;
  fr_map : connectMap_ w' = connectMap_ w;
  fr_recip : recipientMap_ w' = recipientMap_ w;
  fr_fresh : fresh_conn w' = fresh_conn w;
  fr_list a : conn_list w' a = conn_list w a;
  fr_services a : is_Some (services w !! a) → is_Some (services w' !! a);
  fr_told e : e ∈ told w → e ∈ told w';
}.

(** ... and the maps. *)
Record quiet w w' : Prop := {
  qu_frame : frame w w';
  qu_services a : is_Some (services w' !! a) → is_Some (services w !! a);
  qu_fresh : fresh_service w' = fresh_service w;
  qu_map : serviceMap_ w' = serviceMap_ w;
  qu_cache : cache w' = cache w;
}.

#[global] Instance frame_refl : Reflexive frame.
Proof. by split. Qed.
#[global] Instance frame_trans : Transitive frame.
Proof. intros w1 w2 w3 [] []. split; intros; eauto; congruence. Qed.
#[global] Instance quiet_refl : Reflexive quiet.
Proof. by split. Qed.
#[global] Instance quiet_trans : Transitive quiet.
Proof. intros w1 w2 w3 [] []. split; intros; eauto; try congruence. by etrans. Qed.

Section Frames.
Context (E : SvcEnv).

Lemma CInv_frame D w w' : frame w w' → CInv E D w → CInv E D w'.
Proof.
  intros F I. destruct F as [F1 F2 F3 F4 F5 F6 F7].
  assert (∀ o r, opened w' o r ↔ opened w o r) as Ho by (intros; unfold opened; by rewrite F2).
  destruct I as [I1 I2 I3 I4 I5 I6 I7 I8 I9 I10]. split.
  - intros o l. rewrite F2. apply I1.
  - intros o r. rewrite Ho, F1. intros (c & ? & ? & H)%I2. exists c. split_and!; [done..|]. by rewrite F5.
  - intros o1 o2 r. rewrite !Ho. apply I3.
  - intros o r1 r2 a. rewrite !Ho, F1. apply I4.
  - intros a r. rewrite F5, F1. intros [? [o ?]]%I5. split; [done|]. exists o. by apply Ho.
  - intros a. rewrite F5. apply I6.
  - intros o. rewrite F3, F2. apply I7.
  - intros r. rewrite F1, F4. apply I8.
  - intros r c. rewrite F1. intros Hc. eapply F6, I9, Hc.
  - intros r. rewrite F1. intros [[o Ho']|(c & Hc & Ht)]%I10; [left; exists o; by apply Ho|].
    right. exists c. rewrite F1. split; [done|]. intros cb [code ?]%Ht. exists code. by apply F7.
Qed.

Lemma Good_quiet D w w' : quiet w w' → Good E D w → Good E D w'.
Proof.
  intros [F Q1 Q2 Q3 Q4] [I [M1 M2 M3]]. split; [by eapply CInv_frame|].
  split.
  - intros k a. rewrite Q3. intros Hk. eapply fr_services; [done|]. eauto.
  - rewrite Q4. eapply cache_all_mono; [|done]. intros x. by apply fr_services.
  - intros a Ha%Q1. rewrite Q2. eauto.
Qed.

Lemma Good_weaken D D' w : (∀ r, r ∈ D → r ∈ D') → Good E D w → Good E D' w.
Proof.
  intros H [I M]. split; [|done]. destruct I. split; try done.
  intros o r (c & ? & ? & Hc)%ci_open0. exists c. split_and!; [done..|]. destruct Hc; [left; eauto|by right].
Qed.
End Frames.

(** *** The quiet steps *)

Lemma quiet_set_service w a f :
  (∀ s, connRecordList_ (f s) = connRecordList_ s) → quiet w (set_service w a f).
Proof.
  intros Hf. assert (∀ b, is_Some (alter f a (services w) !! b) ↔ is_Some (services w !! b)) as Hd.
  { intros b. rewrite <-!elem_of_dom. by rewrite dom_alter. }
  split; [|by intros; apply Hd|done..]. split; try done; [|intros b; apply Hd].
  intros b. unfold conn_list, set_service. cbn. destruct (decide (a = b)) as [->|].
  - rewrite lookup_alter_eq. destruct (services w !! b); cbn; [apply Hf|done].
  - by rewrite lookup_alter_ne.
Qed.

Lemma quiet_send w c : quiet w (send w c).
Proof. by split. Qed.
Lemma quiet_task w t : quiet w (SubmitTask w t).
Proof. by split. Qed.
Lemma quiet_cancel w p : quiet w (CancelTask w p).
Proof. by split. Qed.
Lemma quiet_tell w e : quiet w (tell w e).
Proof. split; try done. split; try done. cbn. intros e' ?. apply elem_of_app. by left. Qed.
Lemma quiet_states w st : quiet w (w <| states := st |>).
Proof. by split. Qed.
Lemma quiet_if (b : bool) w w1 w2 : quiet w w1 → quiet w w2 → quiet w (if b then w1 else w2).
Proof. by destruct b. Qed.

Create HintDb quiet.
#[export] Hint Resolve quiet_send quiet_task quiet_cancel quiet_tell quiet_states : quiet.
#[export] Hint Extern 1 (quiet _ (set_service _ _ _)) =>
  (apply quiet_set_service; intros; cbn; repeat case_match; reflexivity) : quiet.

Ltac quiet :=
  cbn zeta;
  repeat first
    [ reflexivity
    | match goal with
      | |- quiet _ (if _ then _ else _) => apply quiet_if
      | |- quiet _ (match ?x with _ => _ end) => destruct x eqn:?
      | |- quiet _ (let '(_, _) := ?x in _) => destruct x eqn:?
      end
    | eapply quiet_trans; [|solve [auto 1 with quiet nocore]] ].

Lemma quiet_foldl {A} (f : SvcWorld → A → SvcWorld) (l : list A) w :
  (∀ w x, quiet w (f w x)) → quiet w (foldl f w l).
Proof. intros H. revert w. induction l as [|x l IH]; intros w; cbn; [done|]. etrans; [apply H|apply IH]. Qed.

Section Quiet.
Context (E : SvcEnv).

Lemma quiet_schedule w a c : quiet w (schedule w a c).
Proof. unfold schedule. quiet. Qed.
#[local] Hint Resolve quiet_schedule : quiet.

Lemma quiet_SetRestarting w a b : quiet w (set_service w a (SetRestarting E b)).
Proof. apply quiet_set_service. intros s. unfold SetRestarting. cbn. by case_match. Qed.
#[local] Hint Resolve quiet_SetRestarting : quiet.

Lemma quiet_SetAbilityState w a st : quiet w (SetAbilityState E w a st).
Proof. unfold SetAbilityState. quiet. Qed.

Lemma quiet_ConnectAbilityWithWant w a : quiet w (ConnectAbilityWithWant w a).
Proof. unfold ConnectAbilityWithWant. quiet. Qed.

Lemma quiet_DisconnectAbilityWithWant w a : quiet w (DisconnectAbilityWithWant w a).
Proof. unfold DisconnectAbilityWithWant. quiet. Qed.

Lemma quiet_Service_DisconnectAbility w a : quiet w (Service_DisconnectAbility w a).
Proof. unfold Service_DisconnectAbility. quiet. Qed.

Lemma quiet_Terminate w a : quiet w (Terminate w a).
Proof. unfold Terminate. quiet. Qed.

Lemma quiet_Inactivate w a : quiet w (Inactivate w a).
Proof. unfold Inactivate. quiet. Qed.

Lemma quiet_PostTimeOutTask w t : quiet w (PostTimeOutTask E w t).
Proof. unfold PostTimeOutTask. quiet. Qed.
#[local] Hint Resolve quiet_PostTimeOutTask quiet_ConnectAbilityWithWant : quiet.

Lemma quiet_PostConnectTimeOut w a : quiet w (PostConnectTimeOut E w a).
Proof. unfold PostConnectTimeOut. quiet. Qed.
#[local] Hint Resolve quiet_PostConnectTimeOut : quiet.

Lemma quiet_ConnectUIServiceExtAbility w a n : quiet w (ConnectUIServiceExtAbility E w a n).
Proof. unfold ConnectUIServiceExtAbility. quiet. Qed.
#[local] Hint Resolve quiet_ConnectUIServiceExtAbility : quiet.

Lemma quiet_ConnectAbility w a : quiet w (ConnectAbility E w a).
Proof.
  unfold ConnectAbility, ResumeConnectAbility. apply quiet_if; [|quiet].
  apply quiet_foldl. intros. quiet.
Qed.
#[local] Hint Resolve quiet_ConnectAbility : quiet.

Lemma quiet_CommandAbility w a : quiet w (CommandAbility w a).
Proof. unfold CommandAbility. quiet. Qed.

Lemma quiet_HandleActiveAbility w a r : quiet w (HandleActiveAbility E w a r).
Proof.
  unfold HandleActiveAbility. quiet.
Qed.

Lemma quiet_RemoveServiceAbility w a : quiet w (RemoveServiceAbility w a).
Proof. by split. Qed.

Lemma quiet_EnqueueStartServiceReq w req : quiet w (EnqueueStartServiceReq E w req).
Proof. unfold EnqueueStartServiceReq. destruct (_ !! _); by split. Qed.

Lemma quiet_window w f : quiet w (w <| windowExtensionMap_ ::= f |>).
Proof. by split. Qed.
Lemma quiet_requests w f : quiet w (w <| startServiceReqList_ ::= f |>).
Proof. by split. Qed.
Lemma quiet_restarts w f : quiet w (w <| restartResidentTaskList_ ::= f |>).
Proof. by split. Qed.
#[local] Hint Resolve quiet_RemoveServiceAbility : quiet.

Lemma quiet_TerminateDone w a : quiet w (TerminateDone w a).
Proof. unfold TerminateDone. quiet. Qed.

Lemma quiet_PostExtensionDelayDisconnectTask w r : quiet w (PostExtensionDelayDisconnectTask E w r).
Proof. unfold PostExtensionDelayDisconnectTask. quiet. Qed.

Lemma quiet_HandleCommandTimeoutTask w a : quiet w (HandleCommandTimeoutTask w a).
Proof. unfold HandleCommandTimeoutTask. quiet. Qed.

Lemma quiet_HandleProcessFrozen w l u : quiet w (HandleProcessFrozen E w l u).
Proof. unfold HandleProcessFrozen. apply quiet_foldl. intros. quiet. Qed.
End Quiet.

#[export] Hint Resolve quiet_schedule quiet_SetRestarting quiet_SetAbilityState quiet_ConnectAbilityWithWant
  quiet_DisconnectAbilityWithWant quiet_Service_DisconnectAbility quiet_Terminate quiet_Inactivate
  quiet_PostTimeOutTask quiet_PostConnectTimeOut quiet_ConnectUIServiceExtAbility quiet_ConnectAbility
  quiet_CommandAbility quiet_HandleActiveAbility quiet_RemoveServiceAbility quiet_EnqueueStartServiceReq
  quiet_window quiet_requests quiet_restarts quiet_TerminateDone quiet_PostExtensionDelayDisconnectTask
  quiet_HandleCommandTimeoutTask quiet_HandleProcessFrozen : quiet.

Lemma quiet_AttachAbilityThreadLocked w a pid : quiet w (AttachAbilityThreadLocked w a pid).2.
Proof. unfold AttachAbilityThreadLocked. destruct (GetExtensionByTokenFromServiceMap w a); cbn [snd]; quiet. Qed.

Lemma quiet_DispatchInactive E w a : quiet w (DispatchInactive E w a).2.
Proof.
  unfold DispatchInactive. destruct (negb _); [done|]. cbn zeta.
  destruct (default _ _); cbn [snd]; quiet.
Qed.

Lemma quiet_AbilityTransitionDone E w a st : quiet w (AbilityTransitionDone E w a st).2.
Proof.
  unfold AbilityTransitionDone. destruct st; try done.
  - destruct (GetExtensionByTokenFromTerminatingMap w a); [|done]. unfold DispatchTerminate. cbn [snd]. quiet.
  - destruct (GetExtensionByTokenFromServiceMap w a); [|done]. apply quiet_DispatchInactive.
Qed.

(** ** Steps on connections *)

Section Connections.
Context (E : SvcEnv).

Lemma lookup_set_conn w r f r' :
  conns (set_conn w r f) !! r' = if decide (r = r') then f <$> conns w !! r' else conns w !! r'.
Proof. unfold set_conn. cbn. case_decide as Hr; [subst; apply lookup_alter_eq|by apply lookup_alter_ne]. Qed.

Lemma ended_set_conn w r f r' :
  (∀ c cb, connCallback_ (f c) = Some cb → connCallback_ c = Some cb) → ended w r' → ended (set_conn w r f) r'.
Proof.
  intros Hcb (c & Hc & Ht). unfold ended. rewrite lookup_set_conn, Hc.
  case_decide; [|by exists c]. exists (f c). split; [done|]. intros cb ?%Hcb. by apply Ht.
Qed.

Lemma CInv_set_conn D w r f :
  (∀ c, targetService_ (f c) = targetService_ c) →
  (∀ c cb, connCallback_ (f c) = Some cb → connCallback_ c = Some cb) →
  (∀ c, live (phase_ c) → live (phase_ (f c))) ∨ r ∈ D ∨ (∀ o, ¬ opened w o r) →
  CInv E D w → CInv E D (set_conn w r f).
Proof.
  intros Ht Hcb Hp I. destruct I as [I1 I2 I3 I4 I5 I6 I7 I8 I9 I10].
  assert (∀ r', targetService_ <$> conns (set_conn w r f) !! r' = targetService_ <$> conns w !! r') as Htg.
  { intros r'. rewrite lookup_set_conn. case_decide; [|done]. destruct (conns w !! r'); cbn; [by rewrite Ht|done]. }
  assert (∀ r', is_Some (conns (set_conn w r f) !! r') ↔ is_Some (conns w !! r')) as Hs.
  { intros r'. rewrite lookup_set_conn. case_decide; [apply fmap_is_Some|done]. }
  split; try done.
  - intros o r' Ho. destruct (I2 o r' Ho) as (c & Hc & H1 & H2). rewrite lookup_set_conn, Hc.
    case_decide as Hr; [|by exists c]. subst r'. exists (f c). cbn. split_and!; [done|eauto|].
    destruct Hp as [Hp|[?|Hn]]; [|by left|by destruct (Hn o)].
    destruct H2 as [?|[? ?]]; [by left|]. right. rewrite Ht. split; [by apply Hp|done].
  - intros o r1 r2 a ? ?. rewrite !Htg. eauto.
  - intros a r'. rewrite Htg. apply I5.
  - intros r' Hr'%Hs. by apply I8.
  - intros r' c' Hc'. pose proof (Htg r') as Ht'. rewrite Hc' in Ht'. cbn in Ht'.
    destruct (conns w !! r') as [c|] eqn:Hc; [|done]. injection Ht' as ->. eauto.
  - intros r' Hr'%Hs. destruct (I10 r' Hr') as [?|He]; [by left|right]. by apply ended_set_conn.
Qed.

Lemma Good_set_conn D w r f :
  (∀ c, targetService_ (f c) = targetService_ c) →
  (∀ c cb, connCallback_ (f c) = Some cb → connCallback_ c = Some cb) →
  (∀ c, live (phase_ c) → live (phase_ (f c))) ∨ r ∈ D ∨ (∀ o, ¬ opened w o r) →
  Good E D w → Good E D (set_conn w r f).
Proof. intros ? ? ? [I M]. split; [by apply CInv_set_conn|by destruct M]. Qed.

Lemma Good_phase D w r p :
  live p ∨ r ∈ D ∨ (∀ o, ¬ opened w o r) → Good E D w → Good E D (SetConnectState w r p).
Proof. intros H. apply Good_set_conn; [done..|]. destruct H as [?|?]; [by left|by right]. Qed.

Lemma Good_ClearConnCallBack D w r : Good E D w → Good E D (ClearConnCallBack w r).
Proof. apply Good_set_conn; [done..|by left]. Qed.

Lemma conn_list_remove w a r b :
  conn_list (RemoveConnectRecordFromList w a r) b =
    if decide (a = b) then filter (λ x, x ≠ r) (conn_list w b) else conn_list w b.
Proof.
  unfold conn_list, RemoveConnectRecordFromList, set_service. cbn. case_decide as Hb.
  - subst b. rewrite lookup_alter_eq. destruct (services w !! a) as [s|]; [|done]. cbn. by case_match.
  - by rewrite lookup_alter_ne.
Qed.

Lemma services_remove w a r b :
  is_Some (services (RemoveConnectRecordFromList w a r) !! b) ↔ is_Some (services w !! b).
Proof. rewrite <-!elem_of_dom. unfold RemoveConnectRecordFromList, set_service. cbn. by rewrite dom_alter. Qed.

Lemma Good_RemoveConnectRecordFromList D w a r :
  r ∈ D → Good E D w → Good E D (RemoveConnectRecordFromList w a r).
Proof.
  intros Hr [I M]. destruct I as [I1 I2 I3 I4 I5 I6 I7 I8 I9 I10], M as [M1 M2 M3]. split.
  - split; try done.
    + intros o r' (c & ? & ? & Hd)%I2. exists c. split_and!; [done..|].
      destruct (decide (r' = r)) as [->|Hne]; [by left|]. destruct Hd as [?|[? ?]]; [by left|]. right. split; [done|].
      rewrite conn_list_remove. case_decide; [|done]. by apply list_elem_of_filter.
    + intros b r'. rewrite conn_list_remove. case_decide; [|apply I5].
      intros [_ ?]%list_elem_of_filter. by apply I5.
    + intros b. rewrite conn_list_remove. case_decide; [|done]. by apply NoDup_filter.
    + intros r' c Hc. apply services_remove. eauto.
  - split.
    + intros k b Hk. apply services_remove. eauto.
    + eapply cache_all_mono; [|exact M2]. intros b. apply services_remove.
    + intros b Hb%services_remove. by apply M3.
Qed.

(** *** Out of the connection map *)

Lemma opened_remove D w r o x :
  CInv E D w → opened (RemoveConnectionRecordFromMap w r) o x ↔ opened w o x ∧ x ≠ r.
Proof.
  intros I. unfold RemoveConnectionRecordFromMap. destruct (find_if _ _) as [[o1 l]|] eqn:Hf.
  - apply find_if_elem in Hf as [Hin Hr]. rewrite elem_of_map_iter in Hin. apply bool_decide_eq_true in Hr. cbn in Hr.
    assert (∀ o2 r2, opened w o2 r2 → r2 = r → o2 = o1) as Hu.
    { intros o2 r2 ? ->. eapply ci_uniq; [done..|]. by exists l. }
    destruct (filter (λ x, x ≠ r) l) as [|y ys] eqn:Hl; unfold opened; cbn.
    + setoid_rewrite lookup_delete_Some. split.
      * intros (l' & [Hne Hl'] & Hx). split; [by exists l'|]. intros ->. apply Hne. symmetry.
        apply (Hu _ r); [by exists l'|done].
      * intros [(l' & Hl' & Hx) Hne]. exists l'. split_and!; [|done..]. intros <-.
        assert (x ∈ filter (λ x, x ≠ r) l) by (apply list_elem_of_filter; naive_solver). by rewrite Hl in *; set_solver.
    + setoid_rewrite lookup_insert_Some. split.
      * intros (l' & [[<- <-]|[Hne Hl']] & Hx).
        -- rewrite <-Hl in Hx. apply list_elem_of_filter in Hx as [? ?]. split; [by exists l|done].
        -- split; [by exists l'|]. intros ->. apply Hne. symmetry. apply (Hu _ r); [by exists l'|done].
      * intros [(l' & Hl' & Hx) Hne]. destruct (decide (o1 = o)) as [<-|].
        -- exists (y :: ys). split; [by left|]. rewrite <-Hl. apply list_elem_of_filter. naive_solver.
        -- exists l'. split; [by right|done].
  - split; [|naive_solver]. intros Ho. split; [done|]. intros ->. destruct Ho as (l & Hl & Hr).
    rewrite find_if_None in Hf. specialize (Hf (o, l)). rewrite elem_of_map_iter in Hf. specialize (Hf Hl).
    apply bool_decide_eq_false in Hf. done.
Qed.

Lemma remove_map_lookup D w r o :
  CInv E D w → is_Some (connectMap_ (RemoveConnectionRecordFromMap w r) !! o) ↔
    (∃ x, opened (RemoveConnectionRecordFromMap w r) o x).
Proof.
  intros I. split.
  - intros [l Hl]. unfold opened. rewrite Hl. destruct l as [|x l]; [|exists x, (x :: l); split; [done|left]].
    exfalso. unfold RemoveConnectionRecordFromMap in Hl. destruct (find_if _ _) as [[o1 l1]|].
    + destruct (filter _ l1); cbn in Hl.
      * apply lookup_delete_Some in Hl as [_ Hl]. by destruct (ci_lists _ _ _ I _ _ Hl).
      * apply lookup_insert_Some in Hl as [[_ ?]|[_ Hl]]; [done|]. by destruct (ci_lists _ _ _ I _ _ Hl).
    + by destruct (ci_lists _ _ _ I _ _ Hl).
  - intros (x & l & Hl & _). by exists l.
Qed.

(** Nothing else changes when a connection leaves the map. *)
Lemma remove_map_rest w r :
  let w' := RemoveConnectionRecordFromMap w r in
  conns w' = conns w ∧ services w' = services w ∧ fresh_conn w' = fresh_conn w ∧ told w' = told w
  ∧ fresh_service w' = fresh_service w ∧ serviceMap_ w' = serviceMap_ w ∧ cache w' = cache w.
Proof. cbn. unfold RemoveConnectionRecordFromMap. destruct (find_if _ _) as [[o l]|]; [destruct (filter _ l)|]; done. Qed.

Lemma remove_map_lists D w r o l :
  CInv E D w → connectMap_ (RemoveConnectionRecordFromMap w r) !! o = Some l → l ≠ [] ∧ NoDup l.
Proof.
  intros I. unfold RemoveConnectionRecordFromMap. destruct (find_if _ _) as [[o1 l1]|] eqn:Hf; [|apply I].
  apply find_if_elem in Hf as [Hin _]. rewrite elem_of_map_iter in Hin.
  destruct (filter _ l1) as [|y ys] eqn:Hl; cbn.
  - intros [_ ?]%lookup_delete_Some. by eapply ci_lists.
  - intros [[_ <-]|[_ ?]]%lookup_insert_Some; [|by eapply ci_lists]. split; [done|]. rewrite <-Hl.
    apply NoDup_filter. by eapply ci_lists.
Qed.

Lemma remove_map_recip D w r o :
  CInv E D w → o ∈ recipientMap_ (RemoveConnectionRecordFromMap w r) ↔
    is_Some (connectMap_ (RemoveConnectionRecordFromMap w r) !! o) ∧ AddDeathRecipient E o = true.
Proof.
  intros I. pose proof (ci_recip _ _ _ I o) as Ho. unfold RemoveConnectionRecordFromMap.
  destruct (find_if _ _) as [[o1 l1]|] eqn:Hf; [|done].
  apply find_if_elem in Hf as [Hin _]. rewrite elem_of_map_iter in Hin.
  destruct (filter _ l1) as [|y ys] eqn:Hl; unfold RemoveConnectDeathRecipient; cbn.
  - rewrite elem_of_difference, not_elem_of_singleton, Ho. destruct (decide (o1 = o)) as [<-|].
    + rewrite lookup_delete_eq. split; [naive_solver|]. intros [[? [=]] _].
    + rewrite lookup_delete_ne by done. naive_solver.
  - rewrite Ho. destruct (decide (o1 = o)) as [<-|].
    + rewrite lookup_insert_eq, Hin. split; intros [_ ?]; split; done.
    + by rewrite lookup_insert_ne.
Qed.

Lemma Good_RemoveConnectionRecordFromMap D w r :
  (∀ a, r ∉ conn_list w a) → ended w r → Good E (r :: D) w → Good E D (RemoveConnectionRecordFromMap w r).
Proof.
  intros Hn He [I M]. destruct (remove_map_rest w r) as (R1 & R2 & R3 & R4 & R5 & R6 & R7).
  pose proof (λ o x, opened_remove _ w r o x I) as Ho.
  assert (∀ a, conn_list (RemoveConnectionRecordFromMap w r) a = conn_list w a) as Hc.
  { intros a. unfold conn_list. by rewrite R2. }
  split.
  - split.
    + intros o l. by eapply remove_map_lists.
    + intros o x [Hx Hne]%Ho. rewrite R1. destruct (ci_open _ _ _ I _ _ Hx) as (c & ? & ? & Hd). exists c.
      split_and!; [done..|]. rewrite Hc. destruct Hd as [Hd|?]; [left; set_solver|by right].
    + intros o1 o2 x [? _]%Ho [? _]%Ho. by eapply ci_uniq.
    + intros o r1 r2 a [? _]%Ho [? _]%Ho. rewrite R1. by eapply ci_one.
    + intros a x. rewrite Hc, R1. intros Hx. destruct (ci_service _ _ _ I _ _ Hx) as [? [o ?]]. split; [done|].
      exists o. apply Ho. split; [done|]. intros ->. by apply (Hn a).
    + intros a. rewrite Hc. by eapply ci_nodup.
    + intros o. by eapply remove_map_recip.
    + intros x. rewrite R1, R3. by eapply ci_fresh.
    + intros x c. rewrite R1, R2. by eapply ci_target.
    + intros x. rewrite R1. intros Hx. unfold ended. rewrite R1, R4. destruct (decide (x = r)) as [->|]; [by right|].
      destruct (ci_told _ _ _ I _ Hx) as [[o ?]|?]; [|by right]. left. exists o. by apply Ho.
  - destruct M as [M1 M2 M3]. split; [intros k a; rewrite R6, R2; apply M1|rewrite R7, R2; apply M2|].
    intros a. rewrite R2, R5. apply M3.
Qed.

(** *** Completing *)

Lemma Good_CompleteConnect D w r code : Good E D w → Good E D (CompleteConnect E w r code).
Proof.
  intros G. unfold CompleteConnect. destruct (conns w !! r) as [c|] eqn:Hc; [|done]. cbn zeta.
  set (w1 := if (code =? ERR_OK)%Z then _ else w).
  assert (Good E D w1) as G1.
  { unfold w1. destruct (code =? ERR_OK)%Z; [|done]. eapply Good_quiet; [apply quiet_SetAbilityState|].
    apply Good_phase; [left; unfold live; tauto|done]. }
  destruct (services w1 !! _ ≫= _) as [ro|].
  - eapply Good_quiet; [|exact G1]. quiet.
  - eapply Good_quiet; [apply quiet_task|]. apply Good_phase; [left; unfold live; tauto|done].
Qed.

Lemma CompleteDisconnect_told w r code d1 d2 :
  is_Some (conns w !! r) → ended (CompleteDisconnect w r code d1 d2) r.
Proof.
  intros [c Hc]. unfold CompleteDisconnect.
  set (w1 := if (code =? ERR_OK)%Z then _ else w).
  assert (is_Some (conns w1 !! r)) as [c1 Hc1].
  { unfold w1. destruct (code =? ERR_OK)%Z; [|by exists c]. unfold SetConnectState. rewrite lookup_set_conn, Hc.
    by rewrite decide_True. }
  rewrite Hc1. exists c1. destruct (connCallback_ c1) as [cb|]; [|done]. split; [exact Hc1|].
  intros cb' [= <-]. eexists. cbn. apply elem_of_app. right. left.
Qed.

Lemma Good_CompleteDisconnect D w r code d1 d2 :
  r ∈ D ∨ (∀ o, ¬ opened w o r) → Good E D w → Good E D (CompleteDisconnect w r code d1 d2).
Proof.
  intros Hr G. unfold CompleteDisconnect. cbn zeta.
  set (w1 := if (code =? ERR_OK)%Z then _ else w).
  assert (Good E D w1) as G1.
  { unfold w1. destruct (code =? ERR_OK)%Z; [|done]. apply Good_phase; [by right|done]. }
  destruct (conns w1 !! r); [|done]. eapply Good_quiet; [|exact G1]. quiet.
Qed.
End Connections.

(** ** Ending connections *)

Definition tgt w r : option Abi := targetService_ <$> conns w !! r.

(** Connections stay what they are connections to. *)
Definition same_targets w w' : Prop := ∀ r, tgt w' r = tgt w r.

#[global] Instance same_targets_refl : Reflexive same_targets.
Proof. by intros w r. Qed.
#[global] Instance same_targets_trans : Transitive same_targets.
Proof. intros w1 w2 w3 H1 H2 r. by rewrite H2. Qed.

Lemma same_targets_quiet w w' : quiet w w' → same_targets w w'.
Proof. intros [[F _ _ _ _ _ _] _ _ _ _] r. unfold tgt. by rewrite F. Qed.

Lemma same_targets_set_conn w r f : (∀ c, targetService_ (f c) = targetService_ c) → same_targets w (set_conn w r f).
Proof.
  intros H r'. unfold tgt. rewrite lookup_set_conn. case_decide; [|done].
  destruct (conns w !! r'); cbn; [by rewrite H|done].
Qed.

Lemma same_targets_CompleteDisconnect w r code d1 d2 : same_targets w (CompleteDisconnect w r code d1 d2).
Proof.
  unfold CompleteDisconnect. cbn zeta. set (w1 := if (code =? ERR_OK)%Z then _ else w).
  assert (same_targets w w1) as H1.
  { unfold w1. destruct (code =? ERR_OK)%Z; [|done]. by apply same_targets_set_conn. }
  destruct (conns w1 !! r) as [c|]; [|done]. by destruct (connCallback_ c).
Qed.

Lemma same_targets_remove_map w r : same_targets w (RemoveConnectionRecordFromMap w r).
Proof. destruct (remove_map_rest w r) as (R1 & _). intros r'. unfold tgt. by rewrite R1. Qed.

Lemma same_targets_end w a r : same_targets w (end_connection w a r).
Proof.
  unfold end_connection. etrans; [|apply same_targets_remove_map].
  etrans; [apply same_targets_CompleteDisconnect|done].
Qed.

Lemma tgt_is_Some w r a : tgt w r = Some a → is_Some (conns w !! r).
Proof. unfold tgt. destruct (conns w !! r); [by eexists|done]. Qed.

Lemma target_is_spec w a r : target_is w a r = true ↔ tgt w r = Some a.
Proof. apply bool_decide_eq_true. Qed.

Lemma ended_frame w w' r : frame w w' → ended w r → ended w' r.
Proof.
  intros F (c & Hc & Ht). exists c. rewrite (fr_conns _ _ F). split; [done|]. intros cb [code ?]%Ht.
  exists code. by apply (fr_told _ _ F).
Qed.

Lemma ended_quiet w w' r : quiet w w' → ended w r → ended w' r.
Proof. intros [F _ _ _ _]. by apply ended_frame. Qed.

Section Ending.
Context (E : SvcEnv).

Lemma not_listed D w a r :
  Good E D w → tgt w r = Some a → ∀ b, r ∉ conn_list (RemoveConnectRecordFromList w a r) b.
Proof.
  intros [I _] Hr b. rewrite conn_list_remove. case_decide as Hb; [intros [? _]%list_elem_of_filter; done|].
  intros [Ht _]%(ci_service _ _ _ I). unfold tgt in Hr. congruence.
Qed.

Lemma Good_end D w a r : tgt w r = Some a → Good E D w → Good E D (end_connection w a r).
Proof.
  intros Hr G. unfold end_connection. set (w1 := CompleteDisconnect _ _ _ _ _).
  assert (Good E (r :: D) w1) as G1.
  { apply Good_CompleteDisconnect; [left; left|]. eapply Good_weaken; [|exact G]. set_solver. }
  apply Good_RemoveConnectionRecordFromMap.
  - eapply not_listed; [exact G1|]. unfold w1. by rewrite same_targets_CompleteDisconnect.
  - apply (CompleteDisconnect_told w). by eapply tgt_is_Some.
  - apply Good_RemoveConnectRecordFromList; [left|done].
Qed.

(** Loops over connections of one service. *)
Lemma Good_loop (f : SvcWorld → Conn → SvcWorld) a l :
  (∀ w r D, tgt w r = Some a → Good E D w → Good E D (f w r)) → (∀ w r, same_targets w (f w r)) →
  ∀ D w, Forall (λ r, tgt w r = Some a) l → Good E D w → Good E D (foldl f w l).
Proof.
  intros Hf Ht D. induction l as [|r l IH]; intros w Hl G; [done|]. cbn.
  apply Forall_cons in Hl as [Hr Hl]. apply IH; [|by apply Hf].
  eapply Forall_impl; [exact Hl|]. intros x. cbn. by rewrite Ht.
Qed.

Lemma Good_ends D w a l :
  Forall (λ r, tgt w r = Some a) l → Good E D w → Good E D (foldl (λ w r, end_connection w a r) w l).
Proof. apply Good_loop; [intros; by apply Good_end|intros; apply same_targets_end]. Qed.

Lemma quiet_RemoveDelay w r : quiet w (RemoveExtensionDelayDisconnectTask w r).
Proof. apply quiet_cancel. Qed.
Lemma quiet_CancelConnectTimeoutTask w r : quiet w (CancelConnectTimeoutTask w r).
Proof. apply quiet_cancel. Qed.

Lemma Good_died D w a r : tgt w r = Some a → Good E D w → Good E D (died_connection w a r).
Proof.
  intros Hr G. unfold died_connection. pose proof (quiet_RemoveDelay w r) as Q.
  apply Good_end; [by rewrite (same_targets_quiet _ _ Q)|by eapply Good_quiet].
Qed.

Lemma same_targets_died w a r : same_targets w (died_connection w a r).
Proof. unfold died_connection. etrans; [|apply same_targets_end]. apply same_targets_quiet, quiet_RemoveDelay. Qed.

Lemma Good_timeout D w a r : tgt w r = Some a → Good E D w → Good E D (timeout_connection w a r).
Proof.
  intros Hr G. unfold timeout_connection.
  assert (quiet w (CancelConnectTimeoutTask (RemoveExtensionDelayDisconnectTask w r) r)) as Q.
  { etrans; [apply quiet_RemoveDelay|apply quiet_CancelConnectTimeoutTask]. }
  apply Good_end; [by rewrite (same_targets_quiet _ _ Q)|by eapply Good_quiet].
Qed.

Lemma same_targets_timeout w a r : same_targets w (timeout_connection w a r).
Proof.
  unfold timeout_connection. etrans; [|apply same_targets_end]. apply same_targets_quiet.
  etrans; [apply quiet_RemoveDelay|apply quiet_CancelConnectTimeoutTask].
Qed.

Lemma Good_HandleTerminateDisconnectTask D l w :
  Good E D w → Good E D (HandleTerminateDisconnectTask w l).
Proof.
  unfold HandleTerminateDisconnectTask. revert w. induction l as [|r l IH]; intros w G; [done|]. cbn. apply IH.
  destruct (conns w !! r) as [c|] eqn:Hc; [|done]. apply Good_end; [|done]. unfold tgt. by rewrite Hc.
Qed.

(** The list of a service holds connections of it. *)
Lemma listed_targets D w a : Good E D w → Forall (λ r, tgt w r = Some a) (conn_list w a).
Proof. intros [I _]. apply Forall_forall. intros r Hr. by destruct (ci_service _ _ _ I _ _ Hr). Qed.
End Ending.

(** ** The service map and the cache *)

Lemma lookup_AddToServiceMap w key a k b :
  serviceMap_ (AddToServiceMap w key a) !! k = Some b → serviceMap_ w !! k = Some b ∨ b = a.
Proof.
  unfold AddToServiceMap. destruct (serviceMap_ w !! key); [by left|]. cbn.
  intros [[_ <-]|[_ ?]]%lookup_insert_Some; [by right|by left].
Qed.

Section Maps.
Context (E : SvcEnv).

Lemma Good_frame D w w' : frame w w' → MInv w' → Good E D w → Good E D w'.
Proof. intros F M [I _]. split; [by eapply CInv_frame|done]. Qed.

Lemma Good_AddToServiceMap D w key a :
  is_Some (services w !! a) → Good E D w → Good E D (AddToServiceMap w key a).
Proof.
  intros Ha G. pose proof G as [_ [M1 M2 M3]]. assert (services (AddToServiceMap w key a) = services w) as Hs.
  { unfold AddToServiceMap. by destruct (serviceMap_ w !! key). }
  eapply (Good_frame D w); [unfold AddToServiceMap; destruct (serviceMap_ w !! key); by split| |exact G]. split.
  - intros k b [?| ->]%lookup_AddToServiceMap; rewrite Hs; eauto.
  - rewrite Hs. unfold AddToServiceMap. by destruct (serviceMap_ w !! key).
  - rewrite Hs. unfold AddToServiceMap. by destruct (serviceMap_ w !! key).
Qed.

(** Taking out of the maps, and any change of the cache within the records. *)
Lemma Good_take D w (f : gmap string Abi → gmap string Abi) :
  (∀ m k a, f m !! k = Some a → m !! k = Some a) → Good E D w → Good E D (w <| serviceMap_ ::= f |>).
Proof.
  intros Hf G. pose proof G as [_ [M1 M2 M3]]. eapply (Good_frame D w); [by split| |exact G].
  split; [|done..]. cbn. intros k b ?%Hf. eauto.
Qed.

Lemma Good_delete D w k : Good E D w → Good E D (w <| serviceMap_ ::= delete k |>).
Proof. apply Good_take. intros m k' a. by intros [_ ?]%lookup_delete_Some. Qed.

Lemma Good_cache D w c :
  cache_all (λ a, is_Some (services w !! a)) c → Good E D w → Good E D (w <| cache := c |>).
Proof.
  intros Hc G. pose proof G as [_ [M1 M2 M3]]. eapply (Good_frame D w); [by split|by split|exact G].
Qed.

Lemma Good_terminating D w f : Good E D w → Good E D (w <| terminatingExtensionList_ ::= f |>).
Proof. apply Good_quiet. by split. Qed.

Lemma Good_MoveToTerminatingMap D w a : Good E D w → Good E D (MoveToTerminatingMap E w a).
Proof.
  intros G. unfold MoveToTerminatingMap. destruct (services w !! a) as [s|]; [|done]. cbn zeta.
  set (w1 := w <| terminatingExtensionList_ ::= _ |> <| serviceMap_ ::= _ |>).
  assert (Good E D w1) as G1 by (by apply Good_delete, Good_terminating).
  apply Good_cache; [|done]. apply cache_all_remove. apply G1.
Qed.

Lemma Good_TerminateRecord D w a : Good E D w → Good E D (TerminateRecord E w a).
Proof.
  intros G. unfold TerminateRecord. case_match; [done|].
  eapply Good_quiet; [apply quiet_Terminate|]. by apply Good_MoveToTerminatingMap.
Qed.

Lemma Good_ProcessEliminate D w a :
  is_Some (services w !! a) → Good E D w → Good E D (ProcessEliminateAbilityRecord E w a).
Proof. intros Ha G. by apply Good_TerminateRecord, Good_AddToServiceMap. Qed.

Lemma Good_TerminateOrCacheAbility D w a w' :
  Good E D w → TerminateOrCacheAbility E w a = Ret w' → Good E D w'.
Proof.
  intros G. unfold TerminateOrCacheAbility. destruct (services w !! a) as [s|] eqn:Ha; [|by intros [= <-]].
  destruct (IsSceneBoard s); [by intros [= <-]|].
  destruct (IsCacheExtensionType E _); [|intros [= <-]; by apply Good_TerminateRecord]. cbn zeta.
  set (w1 := w <| serviceMap_ ::= _ |>). assert (Good E D w1) as G1 by by apply Good_delete.
  destruct (Put _ _ _) as [[e c]|] eqn:Hp; [|done]. cbn.
  eapply (cache_all_put _ (λ x, is_Some (services w1 !! x))) in Hp as [Hc He]; [|by eexists|apply G1].
  assert (Good E D (w1 <| cache := c |>)) as G2 by (by apply Good_cache).
  intros [= <-]. destruct e as [e|]; [|done]. apply Good_ProcessEliminate; [|done]. by apply He.
Qed.

(** *** New services *)

Lemma MInv_fresh D w : Good E D w → services w !! fresh_service w = None.
Proof.
  intros [_ M]. destruct (services w !! fresh_service w) as [s|] eqn:Hs; [|done].
  assert (fresh_service w < fresh_service w)%Z; [|lia]. apply M. by rewrite Hs.
Qed.

Lemma Good_CreateAbilityRecord D w req a w' :
  Good E D w → CreateAbilityRecord E w req = (a, w') →
  Good E D w' ∧ is_Some (services w' !! a) ∧ a = fresh_service w ∧ conns w' = conns w ∧ connectMap_ w' = connectMap_ w.
Proof.
  intros G. unfold CreateAbilityRecord. cbn zeta. intros [= <- <-]. pose proof (MInv_fresh _ _ G) as Hf.
  split_and!; [|cbn; rewrite lookup_insert_eq; by eexists|done..].
  pose proof G as [_ [M1 M2 M3]].
  assert (∀ b s, is_Some (services w !! b) → is_Some (<[fresh_service w := s]> (services w) !! b)) as Hk.
  { intros b s Hb. destruct (decide (fresh_service w = b)) as [->|]; [by rewrite lookup_insert_eq; eexists|].
    by rewrite lookup_insert_ne. }
  eapply (Good_frame D w); [| |exact G]; split; try done.
  - intros b. unfold conn_list. cbn. destruct (decide (fresh_service w = b)) as [<-|].
    + by rewrite lookup_insert_eq, Hf.
    + by rewrite lookup_insert_ne.
  - intros b. apply Hk.
  - intros k b Hk'. apply Hk. eauto.
  - eapply cache_all_mono; [|exact M2]. intros b. apply Hk.
  - intros b. cbn. intros Hb. destruct (decide (fresh_service w = b)) as [<-|]; [lia|].
    rewrite lookup_insert_ne in Hb by done. specialize (M3 b Hb). lia.
Qed.

Lemma Good_create_service D w req b a w' :
  Good E D w → create_service E w req b = (a, w') →
  Good E D w' ∧ is_Some (services w' !! a) ∧ a = fresh_service w ∧ conns w' = conns w ∧ connectMap_ w' = connectMap_ w.
Proof.
  intros G. unfold create_service. destruct (CreateAbilityRecord E w req) as [a1 w1] eqn:Hc.
  eapply Good_CreateAbilityRecord in Hc as (G1 & Ha & ? & Hcs & Hcm); [|done]. cbn zeta. intros [= <- <-].
  match goal with |- context [set_service w1 a1 ?f] => set (w2 := set_service w1 a1 f);
    assert (quiet w1 w2) as Q by (apply quiet_set_service; intros s; cbn; by repeat case_match) end.
  assert (Good E D w2) as G2 by by eapply Good_quiet.
  assert (is_Some (services w2 !! a1)) as Ha2 by by apply Q.
  split_and!; [by apply Good_AddToServiceMap| |done| |];
    unfold AddToServiceMap; destruct (serviceMap_ w2 !! _); try done.
Qed.

Lemma Good_find_service D w req x w' :
  Good E D w → find_service E w req = (x, w') →
  Good E D w' ∧ (∀ a, x = Some a → is_Some (services w' !! a)) ∧ conns w' = conns w
  ∧ connectMap_ w' = connectMap_ w ∧ fresh_service w' = fresh_service w ∧ services w' = services w.
Proof.
  intros G. unfold find_service. cbn zeta. destruct (serviceMap_ w !! _) as [a|] eqn:Hm.
  { intros [= <- <-]. split_and!; try done. intros b [= <-]. by eapply mi_map; [apply G|]. }
  destruct (IsCacheExtensionType E _); [|by intros [= <- <-]].
  destruct (CacheGet _ _ _) as [got c] eqn:Hg. eapply cache_all_get in Hg as [Hc Hgot]; [|apply G].
  assert (Good E D (w <| cache := c |>)) as G1 by by apply Good_cache.
  destruct got as [a|]; intros [= <- <-]; [|done].
  split_and!; [by apply Good_AddToServiceMap; [apply Hgot|]|..];
    unfold AddToServiceMap; destruct (serviceMap_ _ !! _); try done; intros b [= <-]; by apply Hgot.
Qed.

(** A service that is new has no connections. *)
Lemma Good_GetOrCreate D w req b a loaded w' :
  Good E D w → GetOrCreateServiceRecord E w req b = (a, loaded, w') →
  Good E D w' ∧ is_Some (services w' !! a) ∧ conns w' = conns w ∧ connectMap_ w' = connectMap_ w
  ∧ (loaded = false → services w !! a = None).
Proof.
  intros G. unfold GetOrCreateServiceRecord. cbn zeta. destruct (find_service E w req) as [x w1] eqn:Hf.
  pose proof (MInv_fresh _ _ G) as Hfr.
  eapply Good_find_service in Hf as (G1 & Hx & Hc & Hm & Hs & _); [|done]. rewrite <-Hs in Hfr.
  destruct x as [a1|]; [case_bool_decide|].
  - destruct (create_service E _ req b) as [a2 w2] eqn:Hcr. intros [= <- <- <-].
    eapply Good_create_service in Hcr as (G2 & ? & -> & Hc2 & Hm2); [|by apply Good_delete]. cbn in *.
    split_and!; try done; congruence.
  - intros [= <- <- <-]. split_and!; [done|by apply Hx|done..].
  - destruct (create_service E _ req b) as [a2 w2] eqn:Hcr. intros [= <- <- <-].
    eapply Good_create_service in Hcr as (G2 & ? & -> & Hc2 & Hm2); [|done].
    split_and!; try done; congruence.
Qed.
End Maps.
