(* ===== verification/ServiceRuns.v ===== *)
(** * Runs of the connection manager

    Every operation of [ServiceConnect] keeps the invariant of [ServiceTheorems], and so
    does every run; what connecting, disconnecting and the death of a client do follows. *)

From stdpp Require Import prelude gmap strings list sorting pretty.
From Stdlib Require Import ZArith Lia.
From S2P Require Import Prelude AbilityCache ConnectionState ServiceConnect ServiceTheorems.

Implicit Types (w : SvcWorld) (r : Conn) (a : Abi) (o : Z) (D : list Conn).

(** ** Opening a connection *)

Record opens (E : SvcEnv) w w' a (cb : Callback) r : Prop := {
  op_r : r = fresh_conn w;
  op_conns : ∃ c, conns w' = <[r := c]> (conns w) ∧ phase_ c = CONNECTING ∧ targetService_ c = a ∧ connCallback_ c = Some cb;
  op_map : connectMap_ w' = <[cb_object cb := GetConnectRecordListFromMap w (cb_object cb) ++ [r]]> (connectMap_ w);
  op_fresh : fresh_conn w' = Pos.succ r;
  op_told e : e ∈ told w → e ∈ told w';
  op_recip : recipientMap_ w' =
    if decide (GetConnectRecordListFromMap w (cb_object cb) = [])
    then recipientMap_ (AddConnectDeathRecipient E w (cb_object cb)) else recipientMap_ w;
  op_list b : conn_list w' b = if decide (a = b) then conn_list w b ++ [r] else conn_list w b;
  op_services b : is_Some (services w' !! b) ↔ is_Some (services w !! b);
  op_maps : fresh_service w' = fresh_service w ∧ serviceMap_ w' = serviceMap_ w ∧ cache w' = cache w;
}.

Section Opening.
Context (E : SvcEnv).

Lemma conn_list_add w a r b :
  is_Some (services w !! a) → r ∉ conn_list w a →
  conn_list (AddConnectRecordToList w a r) b = if decide (a = b) then conn_list w b ++ [r] else conn_list w b.
Proof.
  intros [s Hs] Hr. unfold conn_list, AddConnectRecordToList, set_service in *. cbn. case_decide as Hb.
  - subst b. rewrite lookup_alter_eq, Hs in *. cbn in *. by rewrite decide_False.
  - by rewrite lookup_alter_ne.
Qed.

Lemma AddConnectObjectToMap_rest w o l (updateOnly : bool) :
  let w' := AddConnectObjectToMap E w o l updateOnly in
  connectMap_ w' = <[o := l]> (connectMap_ w)
  ∧ recipientMap_ w' = (if updateOnly then recipientMap_ w else recipientMap_ (AddConnectDeathRecipient E w o))
  ∧ conns w' = conns w ∧ services w' = services w ∧ fresh_conn w' = fresh_conn w ∧ told w' = told w
  ∧ fresh_service w' = fresh_service w ∧ serviceMap_ w' = serviceMap_ w ∧ cache w' = cache w.
Proof.
  unfold AddConnectObjectToMap, AddConnectDeathRecipient. cbn zeta.
  destruct updateOnly; [done|]. by repeat case_match.
Qed.

(** The record before it is listed. *)
Lemma connecting_record w a cb caller w1 r :
  CreateConnectionRecord w a cb = (w1, r) →
  let w2 := SetConnectState (AttachCallerInfo w1 r caller) r CONNECTING in
  r = fresh_conn w
  ∧ (∃ c, conns w2 = <[r := c]> (conns w) ∧ phase_ c = CONNECTING ∧ targetService_ c = a ∧ connCallback_ c = Some cb)
  ∧ connectMap_ w2 = connectMap_ w ∧ recipientMap_ w2 = recipientMap_ w ∧ services w2 = services w
  ∧ fresh_conn w2 = Pos.succ r ∧ told w2 = told w
  ∧ fresh_service w2 = fresh_service w ∧ serviceMap_ w2 = serviceMap_ w ∧ cache w2 = cache w.
Proof.
  unfold CreateConnectionRecord. intros [= <- <-]. cbn zeta.
  unfold SetConnectState, AttachCallerInfo, set_conn. destruct (callerAbility caller) as [[[u p] n]|]; cbn;
    rewrite !alter_insert_eq; split_and!; try done; by eexists.
Qed.

Lemma open_connection_opens w a req cb caller r w' :
  is_Some (services w !! a) → fresh_conn w ∉ conn_list w a →
  open_connection E w a req cb caller = (r, w') → opens E w w' a cb r.
Proof.
  intros Ha Hr. unfold open_connection. cbn zeta.
  destruct (CreateConnectionRecord w a cb) as [w1 r1] eqn:Hc.
  destruct (connecting_record w a cb caller w1 r1 Hc) as (-> & Hcs & S1 & S2 & S3 & S4 & S5 & S6 & S7 & S8).
  set (w2 := SetConnectState _ _ _) in *. set (w3 := AddConnectRecordToList w2 a _).
  set (l := GetConnectRecordListFromMap w (cb_object cb)).
  destruct (AddConnectObjectToMap_rest w3 (cb_object cb) (l ++ [fresh_conn w]) (negb (bool_decide (l = []))))
    as (A1 & A2 & A3 & A4 & A5 & A6 & A7 & A8 & A9).
  set (w4 := AddConnectObjectToMap E w3 _ _ _) in *. intros Heq.
  assert (r = fresh_conn w ∧ conns w' = conns w4 ∧ connectMap_ w' = connectMap_ w4 ∧ fresh_conn w' = fresh_conn w4
    ∧ told w' = told w4 ∧ recipientMap_ w' = recipientMap_ w4 ∧ services w' = services w4
    ∧ fresh_service w' = fresh_service w4 ∧ serviceMap_ w' = serviceMap_ w4 ∧ cache w' = cache w4)
    as (-> & B1 & B2 & B3 & B4 & B5 & B6 & B7 & B8 & B9).
  { destruct (bool_decide (_ <$> _ = _)), (req_session req); by injection Heq as <- <-. }
  assert (∀ b, conn_list w' b = conn_list w3 b) as Hl by (intros b; unfold conn_list; by rewrite B6, A4).
  split; [done|..].
  - destruct Hcs as (c & Hcs & ?). exists c. by rewrite B1, A3.
  - by rewrite B2, A1, <-S1.
  - by rewrite B3, A5.
  - intros e. by rewrite B4, A6, <-S5.
  - assert (recipientMap_ w3 = recipientMap_ w) as Hw3 by done. rewrite B5, A2. unfold AddConnectDeathRecipient.
    rewrite Hw3. fold l. destruct (decide (l = [])) as [Hn|Hn]; [|by rewrite bool_decide_false].
    rewrite bool_decide_true by done. cbn.
    destruct (decide (cb_object cb ∈ recipientMap_ w)); [done|]. destruct (AddDeathRecipient E _); cbn.
    all: change (recipientMap_ (AttachCallerInfo w1 (fresh_conn w) caller)) with (recipientMap_ w2); congruence.
  - intros b. rewrite Hl. unfold w3. rewrite conn_list_add; unfold conn_list; by rewrite S3.
  - intros b. rewrite B6, A4, <-!elem_of_dom.
    assert (dom (services w3) = dom (services w2)) as -> by (apply dom_alter_L). by rewrite S3.
  - split_and!; [rewrite B7, A7; exact S6|rewrite B8, A8; exact S7|rewrite B9, A9; exact S8].
Qed.

Lemma opened_opens w w' a cb r o x :
  opens E w w' a cb r → opened w' o x ↔ opened w o x ∨ o = cb_object cb ∧ x = r.
Proof.
  intros O. unfold opened. rewrite (op_map _ _ _ _ _ _ O). unfold GetConnectRecordListFromMap.
  destruct (decide (o = cb_object cb)) as [->|Hne].
  - rewrite lookup_insert_eq. split.
    + intros (l & [= <-] & [Hx| ->%list_elem_of_singleton]%elem_of_app); [left|by right].
      destruct (connectMap_ w !! _) as [l|]; [by exists l|by apply not_elem_of_nil in Hx].
    + intros [(l & Hl & Hx)|[_ ->]]; (eexists; split; [done|]); apply elem_of_app; [left; by rewrite Hl|right; left].
  - rewrite lookup_insert_ne by done. naive_solver.
Qed.

Lemma opens_recip D w w' a cb r o :
  Good E D w → opens E w w' a cb r →
  o ∈ recipientMap_ w' ↔ is_Some (connectMap_ w' !! o) ∧ AddDeathRecipient E o = true.
Proof.
  intros [I _] O. pose proof (ci_recip _ _ _ I) as HI.
  rewrite (op_recip _ _ _ _ _ _ O), (op_map _ _ _ _ _ _ O).
  set (o1 := cb_object cb). assert (is_Some (connectMap_ w !! o1) ↔ GetConnectRecordListFromMap w o1 ≠ []) as Hn.
  { unfold GetConnectRecordListFromMap. destruct (connectMap_ w !! o1) as [l|] eqn:Hl; cbn.
    - split; [intros _; by eapply ci_lists|by eexists].
    - split; [by intros [? [=]]|done]. }
  assert (o ≠ o1 → is_Some (<[o1 := GetConnectRecordListFromMap w o1 ++ [r]]> (connectMap_ w) !! o)
    ↔ is_Some (connectMap_ w !! o)) as Hne by (intros ?; by rewrite lookup_insert_ne).
  destruct (decide (o = o1)) as [->|].
  - rewrite lookup_insert_eq. case_decide as Hl.
    + unfold AddConnectDeathRecipient. case_decide as Hr; [apply HI in Hr as [? _]; naive_solver|].
      destruct (AddDeathRecipient E o1); cbn; [set_solver|]. rewrite HI. naive_solver.
    + rewrite HI. naive_solver.
  - rewrite Hne, <-HI by done. case_decide; [|done]. unfold AddConnectDeathRecipient.
    case_decide; [done|]. destruct (AddDeathRecipient E o1); cbn; [set_solver|done].
Qed.

Lemma opens_basics D w w' a cb r :
  Good E D w → opens E w w' a cb r →
  ∃ c, phase_ c = CONNECTING ∧ targetService_ c = a ∧ connCallback_ c = Some cb ∧ conns w' !! r = Some c
    ∧ (∀ x, x ≠ r → conns w' !! x = conns w !! x) ∧ (∀ o x, opened w o x → x ≠ r) ∧ (∀ b, r ∉ conn_list w b)
    ∧ (∀ b x, x ∈ conn_list w' b ↔ x ∈ conn_list w b ∨ a = b ∧ x = r).
Proof.
  intros [I _] O. destruct (op_conns _ _ _ _ _ _ O) as (c & Hc & Hp & Ht & Hcb).
  assert (conns w !! r = None) as Hfr.
  { rewrite (op_r _ _ _ _ _ _ O). destruct (conns w !! fresh_conn w) eqn:Hs; [|done].
    assert (fresh_conn w < fresh_conn w)%positive; [|lia]. eapply ci_fresh; [done|]. by rewrite Hs. }
  exists c. split_and!; [done..|rewrite Hc; apply lookup_insert_eq| | | |].
  - intros. rewrite Hc. by apply lookup_insert_ne.
  - intros o x Hx ->. destruct (ci_open _ _ _ I _ _ Hx) as (? & ? & _). congruence.
  - intros b [Hx _]%(ci_service _ _ _ I). by rewrite Hfr in Hx.
  - intros b x. rewrite (op_list _ _ _ _ _ _ O). case_decide; set_solver.
Qed.

Lemma opens_lists D w w' a cb r o l :
  Good E D w → opens E w w' a cb r → connectMap_ w' !! o = Some l → l ≠ [] ∧ NoDup l.
Proof.
  intros G O. destruct (opens_basics _ _ _ _ _ _ G O) as (c & _ & _ & _ & _ & _ & Hold & _).
  pose proof G as [I _]. rewrite (op_map _ _ _ _ _ _ O).
  intros [[<- <-]|[_ Hl]]%lookup_insert_Some; [|by eapply ci_lists].
  split; [by intros [_ ?]%app_eq_nil|]. unfold GetConnectRecordListFromMap. destruct (connectMap_ w !! _) as [l|] eqn:Hl.
  - apply NoDup_app. split_and!; [by eapply ci_lists|intros x Hx ?%list_elem_of_singleton; subst x|apply NoDup_singleton].
    eapply Hold; [by exists l|done].
  - apply NoDup_singleton.
Qed.

Lemma MInv_opens w w' a cb r : MInv w → opens E w w' a cb r → MInv w'.
Proof.
  intros [M1 M2 M3] O. destruct (op_maps _ _ _ _ _ _ O) as (P1 & P2 & P3). split.
  - intros k b. rewrite P2. intros ?%M1. by apply (op_services _ _ _ _ _ _ O).
  - rewrite P3. eapply cache_all_mono; [|exact M2]. intros b. apply (op_services _ _ _ _ _ _ O).
  - intros b Hb%(op_services _ _ _ _ _ _ O). rewrite P1. eauto.
Qed.

Lemma Good_opens D w w' a cb r :
  Good E D w → opens E w w' a cb r → is_Some (services w !! a) →
  (∀ x, opened w (cb_object cb) x → tgt w x ≠ Some a) → Good E D w'.
Proof.
  intros G O Ha Hnew. pose proof G as [I M]. pose proof (λ o x, opened_opens _ _ _ _ _ o x O) as Ho.
  destruct (opens_basics _ _ _ _ _ _ G O) as (c & Hp & Ht & Hcb & Hcr & Hcx & Hold & Hrl & Hli).
  pose proof (op_r _ _ _ _ _ _ O) as Hr. split; [|by eapply MInv_opens]. split.
  - intros o l. by eapply opens_lists.
  - intros o x [Hx|[-> ->]]%Ho.
    + rewrite Hcx by by eapply Hold. destruct (ci_open _ _ _ I _ _ Hx) as (c' & ? & ? & Hd). exists c'.
      split_and!; [done..|]. destruct Hd as [?|[? ?]]; [by left|right]. split; [done|]. apply Hli. by left.
    + exists c. split_and!; [done|congruence|]. right. rewrite Hp, Ht. split; [by left|]. apply Hli. by right.
  - intros o1 o2 x [H1|[-> ->]]%Ho [H2|[-> H2]]%Ho; [by eapply ci_uniq|by destruct (Hold _ _ H1)|by destruct (Hold _ _ H2)|done].
  - intros o x1 x2 b [H1|[-> ->]]%Ho [H2|[He ->]]%Ho; try done.
    + rewrite !Hcx by by eapply Hold. by eapply ci_one.
    + subst o. rewrite Hcx, Hcr by by eapply Hold. intros Hx [= <-]. rewrite Ht in Hx. by destruct (Hnew _ H1).
    + rewrite Hcr, Hcx by by eapply Hold. intros [= <-] Hx. rewrite Ht in Hx. by destruct (Hnew _ H2).
  - intros b x [Hx|[<- ->]]%Hli.
    + destruct (ci_service _ _ _ I _ _ Hx) as [? [o ?]]. rewrite Hcx by by eapply Hold. split; [done|].
      exists o. apply Ho. by left.
    + rewrite Hcr. cbn. rewrite Ht. split; [done|]. eexists. apply Ho. by right.
  - intros b. rewrite (op_list _ _ _ _ _ _ O). case_decide; [|by eapply ci_nodup]. apply NoDup_app.
    split_and!; [by eapply ci_nodup| |apply NoDup_singleton]. intros x Hx ?%list_elem_of_singleton. subst x. by apply (Hrl b).
  - intros o. by eapply opens_recip.
  - intros x Hx. rewrite (op_fresh _ _ _ _ _ _ O), Hr. destruct (decide (x = r)) as [->|]; [rewrite Hr; lia|].
    rewrite Hcx in Hx by done. pose proof (ci_fresh _ _ _ I _ Hx). lia.
  - intros x c' Hx. apply (op_services _ _ _ _ _ _ O). destruct (decide (x = r)) as [->|]; [by simplify_eq|].
    rewrite Hcx in Hx by done. by eapply ci_target.
  - intros x Hx. destruct (decide (x = r)) as [->|]; [left; eexists; apply Ho; by right|].
    rewrite Hcx in Hx by done. destruct (ci_told _ _ _ I _ Hx) as [[o ?]|(c' & Hc' & Htl)]; [left; exists o; apply Ho; by left|].
    right. exists c'. rewrite Hcx by done. split; [done|]. intros cb' [code ?]%Htl. exists code. by apply (op_told _ _ _ _ _ _ O).
Qed.
End Opening.

(** ** Starting and connecting *)

Section Start.
Context (E : SvcEnv).

Lemma quiet_LoadAbility w a w' : LoadAbility E w a = Ret w' → quiet w w'.
Proof.
  unfold LoadAbility. destruct (negb _); [intros [= <-]; quiet|]. cbn zeta.
  set (w1 := if _ : bool then w else _). assert (quiet w w1) as Q by (unfold w1; quiet). clearbody w1.
  destruct (default _ _); [destruct (GetConnectingRecord w1 a); [|done]|]; intros [= <-]; quiet; done.
Qed.

Lemma Good_StartAbilityLocked D w req code w' :
  Good E D w → StartAbilityLocked E w req = Ret (code, w') → Good E D w'.
Proof.
  intros G. unfold StartAbilityLocked.
  destruct (GetOrCreateServiceRecord E w req false) as [[a loaded] w1] eqn:Hg.
  eapply Good_GetOrCreate in Hg as (G1 & _); [|done]. cbn zeta.
  destruct (negb _); [by intros [= <- <-]|]. destruct (negb loaded).
  - destruct (LoadAbility E w1 a) as [w2|] eqn:Hl; [|done]. intros [= <- <-].
    eapply Good_quiet; [by eapply quiet_LoadAbility|done].
  - destruct (is_state w1 a ACTIVE); intros [= <- <-]; (eapply Good_quiet; [|exact G1]); quiet.
Qed.

Lemma Good_start D w req w' :
  Good E D w → (let* (_, w1) := StartAbilityLocked E w req in Ret w1) = Ret w' → Good E D w'.
Proof.
  intros G. destruct (StartAbilityLocked E w req) as [[code w1]|] eqn:Hs; [|done]. intros [= <-].
  by eapply Good_StartAbilityLocked.
Qed.

Lemma Good_CompleteStartServiceReq D w uri w' :
  Good E D w → CompleteStartServiceReq E w uri = Ret w' → Good E D w'.
Proof.
  intros G. unfold CompleteStartServiceReq. destruct (startServiceReqList_ w !! uri) as [reqs|]; [|by intros [= <-]].
  cbn zeta. set (w1 := CancelTask _ _). assert (Good E D w1) as G1 by (eapply Good_quiet; [|exact G]; unfold w1; quiet).
  clearbody w1. revert w1 G1. induction reqs as [|req reqs IH]; intros w1 G1; cbn; [by intros [= <-]|].
  destruct (StartAbilityLocked E w1 req) as [[code w2]|] eqn:Hs; [|done]. cbn. apply IH.
  by eapply Good_StartAbilityLocked.
Qed.

(** The service of a request that found no connection of the callback to it. *)
Lemma no_connection w req a (loaded : bool) w1 cb :
  Good E [] w → GetOrCreateServiceRecord E w req true = (a, loaded, w1) →
  loaded && negb (bool_decide (GetConnectRecordListFromMap w1 (cb_object cb) = []))
    && IsAbilityConnected w1 a (GetConnectRecordListFromMap w1 (cb_object cb)) = false →
  ∀ x, opened w1 (cb_object cb) x → tgt w1 x ≠ Some a.
Proof.
  intros G Hg Hf x Hx Ht. eapply Good_GetOrCreate in Hg as (G1 & Ha & Hc & Hm & Hnew); [|done].
  destruct loaded.
  - destruct Hx as (l & Hl & Hx). unfold GetConnectRecordListFromMap in Hf. rewrite Hl in Hf. cbn in Hf.
    rewrite bool_decide_false in Hf by (by eapply ci_lists; [apply G1|]). cbn in Hf.
    assert (existsb (target_is w1 a) l = true); [|congruence].
    apply existsb_exists. exists x. split; [by apply list_elem_of_In|by apply target_is_spec].
  - unfold tgt in Ht. rewrite Hc in Ht. destruct (conns w !! x) as [c|] eqn:Hcx; [|done].
    injection Ht as Ht. destruct (ci_target _ _ _ (proj1 G) _ _ Hcx) as [s Hs]. rewrite Ht, (Hnew eq_refl) in Hs. done.
Qed.

Lemma fresh_unlisted D w a : Good E D w → fresh_conn w ∉ conn_list w a.
Proof.
  intros [I _] [Ht _]%(ci_service _ _ _ I).
  assert (fresh_conn w < fresh_conn w)%positive; [|lia]. eapply ci_fresh; [done|]. by eapply tgt_is_Some.
Qed.

(** A new connection: what the manager does after it is recorded is quiet. *)
Lemma Connect_spec w req cb caller code w' :
  Good E [] w → ConnectAbilityLocked E w req cb caller = Ret (code, w') →
  ∃ a loaded w1, GetOrCreateServiceRecord E w req true = (a, loaded, w1) ∧ Good E [] w1 ∧ is_Some (services w1 !! a) ∧
    ((code = ERR_OK ∧ w' = w1 ∧ ∃ x, opened w1 (cb_object cb) x ∧ tgt w1 x = Some a)
     ∨ ∃ r w2, opens E w1 w2 a cb r ∧ Good E [] w2 ∧ quiet w2 w').
Proof.
  intros G. unfold ConnectAbilityLocked.
  destruct (GetOrCreateServiceRecord E w req true) as [[a loaded] w1] eqn:Hg. cbn zeta.
  pose proof (no_connection w req a loaded w1 cb G Hg) as Hno.
  destruct (Good_GetOrCreate E _ _ _ _ _ _ _ G Hg) as (G1 & Ha & _).
  intros Heq. exists a, loaded, w1. split_and!; [done..|]. revert Heq.
  destruct (loaded && _ && _) eqn:Hf.
  - intros [= <- <-]. left. split_and!; [done..|]. apply andb_prop in Hf as [_ Hf]. apply existsb_exists in Hf as (x & Hx & Ht).
    rewrite <-list_elem_of_In in Hx. apply target_is_spec in Ht. exists x. split; [|done].
    unfold GetConnectRecordListFromMap in Hx. destruct (connectMap_ w1 !! _) as [l|] eqn:Hl; [by exists l|].
    by apply not_elem_of_nil in Hx.
  - destruct (open_connection E w1 a req cb caller) as [r w2] eqn:Ho. intros Heq. right. exists r, w2.
    apply open_connection_opens in Ho; [|done|by eapply fresh_unlisted].
    split_and!; [done|by eapply Good_opens; eauto|]. revert Heq. cbn zeta.
    destruct (negb (_ =? _)%Z); [intros Heq; by injection Heq as _ <-|]. destruct (negb loaded).
    + destruct (LoadAbility E w2 a) as [w3|] eqn:Hl; [|done]. intros Heq. injection Heq as _ <-.
      by eapply quiet_LoadAbility.
    + destruct (is_state w2 a ACTIVE); intros Heq; injection Heq as _ <-; quiet.
Qed.

Lemma Good_ConnectAbilityLocked w req cb caller code w' :
  Good E [] w → ConnectAbilityLocked E w req cb caller = Ret (code, w') → Good E [] w'.
Proof.
  intros G Hc. destruct (Connect_spec _ _ _ _ _ _ G Hc) as (a & l & w1 & _ & G1 & _ & [(_ & -> & _)|(r & w2 & _ & G2 & Q)]).
  - done.
  - by eapply Good_quiet.
Qed.
End Start.

(** ** Disconnecting *)

(** Lists shrink, and who knows of the end of a connection goes on knowing. *)
Record closes w w' : Prop := {
  cl_list a r : r ∈ conn_list w' a → r ∈ conn_list w a;
  cl_ended r : ended w r → ended w' r;
}.
#[global] Instance closes_refl : Reflexive closes.
Proof. by split. Qed.
#[global] Instance closes_trans : Transitive closes.
Proof. intros w1 w2 w3 [] []. split; eauto. Qed.

Lemma closes_frame w w' : frame w w' → closes w w'.
Proof. intros F. split; [intros a r; by rewrite (fr_list _ _ F)|intros r; by apply ended_frame]. Qed.

Lemma closes_quiet w w' : quiet w w' → closes w w'.
Proof. intros Q. apply closes_frame, Q. Qed.

Lemma frame_MoveToTerminatingMap E w a : frame w (MoveToTerminatingMap E w a).
Proof. unfold MoveToTerminatingMap. destruct (services w !! a); [by split|done]. Qed.

Lemma frame_TerminateRecord E w a : frame w (TerminateRecord E w a).
Proof.
  unfold TerminateRecord. case_match; [done|]. etrans; [apply frame_MoveToTerminatingMap|]. apply quiet_Terminate.
Qed.

Lemma closes_set_conn w r f :
  (∀ c cb, connCallback_ (f c) = Some cb → connCallback_ c = Some cb) → closes w (set_conn w r f).
Proof. intros Hf. split; [done|]. intros x. by apply ended_set_conn. Qed.

Lemma closes_remove w a r : closes w (RemoveConnectRecordFromList w a r).
Proof. split; [|done]. intros b x. rewrite conn_list_remove. case_decide; [|done]. by intros [_ ?]%list_elem_of_filter. Qed.

Lemma closes_CompleteDisconnect w r code d1 d2 : closes w (CompleteDisconnect w r code d1 d2).
Proof.
  unfold CompleteDisconnect. cbn zeta. set (w1 := if (code =? ERR_OK)%Z then _ else w).
  assert (closes w w1) as C by (unfold w1; destruct (code =? ERR_OK)%Z; [by apply closes_set_conn|done]).
  destruct (conns w1 !! r); [|done]. etrans; [exact C|]. apply closes_quiet. quiet.
Qed.

(** Connections that wait to leave the map: their clients know, their services have
    dropped them. *)
Definition Closing (E : SvcEnv) D w : Prop :=
  Good E D w ∧ ∀ r, r ∈ D → ended w r ∧ ∀ a, r ∉ conn_list w a.

Section Disconnect.
Context (E : SvcEnv).

Lemma Closing_closes D w w' : closes w w' → Good E D w' → Closing E D w → Closing E D w'.
Proof.
  intros [C1 C2] G [_ H]. split; [done|]. intros r [He Hl]%H. split; [by apply C2|].
  intros a Hr%C1. by apply (Hl a).
Qed.

Lemma Closing_add D w r w' :
  closes w w' → Good E (r :: D) w' → ended w' r → (∀ a, r ∉ conn_list w' a) → Closing E D w → Closing E (D ++ [r]) w'.
Proof.
  intros [C1 C2] G He Hn [_ H]. split; [eapply Good_weaken; [|exact G]; set_solver|].
  intros x [Hx| ->%list_elem_of_singleton]%elem_of_app; [|done].
  destruct (H x Hx) as [Hx' Hl]. split; [by apply C2|].
  intros a Ha%C1. by apply (Hl a).
Qed.

Lemma Good_RemoveAll D w : Closing E D w → Good E [] (foldl RemoveConnectionRecordFromMap w D).
Proof.
  revert w. induction D as [|r D IH]; intros w [G H]; [done|]. cbn. apply IH.
  destruct (H r) as [He Hn]; [left|].
  destruct (remove_map_rest w r) as (R1 & R2 & _ & R4 & _). split; [by apply Good_RemoveConnectionRecordFromMap|].
  intros x Hx. unfold ended, conn_list. rewrite R1, R4, R2. apply H. by right.
Qed.

Lemma phase_SetConnectState w r p c : conns w !! r = Some c → is_phase (SetConnectState w r p) p r = true.
Proof.
  intros Hc. apply bool_decide_eq_true. unfold phase_of, SetConnectState. rewrite lookup_set_conn, Hc.
  by rewrite decide_True.
Qed.

(** A connected record is told to its service when it is the last one, and dropped at once
    when it is not. *)
Lemma Conn_Disconnect_spec D w r code w' :
  Good E D w → Conn_DisconnectAbility w r = (code, w') →
  closes w w' ∧ same_targets w w' ∧
  ((code ≠ ERR_OK ∧ w' = w ∧ is_phase w CONNECTED r = false)
   ∨ code = ERR_OK ∧ is_phase w' DISCONNECTING r = true ∧ Good E D w'
   ∨ code = ERR_OK ∧ is_phase w' DISCONNECTED r = true ∧ Good E (r :: D) w' ∧ ∀ a, r ∉ conn_list w' a).
Proof.
  intros G. unfold Conn_DisconnectAbility. destruct (conns w !! r) as [c|] eqn:Hc.
  2:{ intros [= <- <-]. split_and!; [done..|]. left. split_and!; [done..|]. apply bool_decide_eq_false.
      unfold phase_of. by rewrite Hc. }
  destruct (is_phase w CONNECTED r); [|intros [= <- <-]; split_and!; [done..|]; by left].
  cbn zeta. cbn [negb]. set (w1 := SetConnectState w r DISCONNECTING).
  assert (Good E D w1) as G1 by (apply Good_phase; [left; unfold live; tauto|done]).
  assert (same_targets w w1) as T1 by by apply same_targets_set_conn.
  assert (closes w w1) as C1 by by apply closes_set_conn.
  pose proof (phase_SetConnectState w r DISCONNECTING c Hc) as P1. fold w1 in P1.
  assert (conns w1 !! r = Some (c <| phase_ := DISCONNECTING |>)) as Hc1.
  { unfold w1, SetConnectState. rewrite lookup_set_conn, Hc. by rewrite decide_True. }
  destruct (_ || _).
  - intros [= <- <-]. match goal with |- closes _ ?x ∧ _ => set (w2 := x) end.
    assert (quiet w1 w2) as Q by (unfold w2; quiet).
    split_and!; [etrans; [exact C1|by apply closes_quiet]|etrans; [exact T1|by apply same_targets_quiet]|].
    right. left. split_and!; [done| |by eapply Good_quiet]. unfold is_phase, phase_of in *. by rewrite (fr_conns _ _ (qu_frame _ _ Q)).
  - intros [= <- <-]. set (w2 := RemoveConnectRecordFromList w1 (targetService_ c) r).
    split_and!; [etrans; [exact C1|]; etrans; [apply closes_remove|by apply closes_set_conn]| |].
    { etrans; [exact T1|]. by apply (same_targets_set_conn w2). }
    right. right. split_and!; [done|by eapply (phase_SetConnectState w2)| |].
    + apply Good_phase; [right; left; left|]. apply Good_RemoveConnectRecordFromList; [left|].
      eapply Good_weaken; [|exact G1]. set_solver.
    + intros a. apply (not_listed E D w1); [done|]. rewrite T1. unfold tgt. by rewrite Hc.
Qed.

(** *** One record of a client *)

Definition others w r w' : Prop := ∀ x, x ≠ r → phase_of w' x = phase_of w x.

Lemma others_set_conn w r f : others w r (set_conn w r f).
Proof. intros x Hx. unfold phase_of. by rewrite lookup_set_conn, decide_False. Qed.

Lemma others_frame w w1 w' r : frame w1 w' → others w r w1 → others w r w'.
Proof. intros F H x Hx. unfold phase_of. rewrite (fr_conns _ _ F). by apply H. Qed.

Lemma others_Conn_Disconnect w r : others w r (Conn_DisconnectAbility w r).2.
Proof.
  unfold Conn_DisconnectAbility. destruct (conns w !! r) as [c|]; [|done].
  destruct (negb _); [done|]. cbn zeta. destruct (_ || _); cbn [snd].
  - eapply (others_frame w (SetConnectState w r DISCONNECTING)); [apply qu_frame; quiet|apply others_set_conn].
  - intros x Hx. unfold phase_of, SetConnectState. rewrite lookup_set_conn, decide_False by done.
    by apply others_set_conn.
Qed.

Lemma others_CompleteDisconnect w r code d1 d2 : others w r (CompleteDisconnect w r code d1 d2).
Proof.
  unfold CompleteDisconnect. cbn zeta. set (w1 := if (code =? ERR_OK)%Z then _ else w).
  assert (others w r w1) as H by (unfold w1; destruct (code =? ERR_OK)%Z; [apply others_set_conn|done]).
  destruct (conns w1 !! r) as [c|]; [|done]. by destruct (connCallback_ c).
Qed.

Lemma others_trans w1 w2 w3 r : others w1 r w2 → others w2 r w3 → others w1 r w3.
Proof. intros H1 H2 x Hx. by rewrite H2, H1. Qed.

Lemma is_phase_neq w p q r : is_phase w p r = true → p ≠ q → is_phase w q r = false.
Proof. intros Hp%bool_decide_eq_true Hne. apply bool_decide_eq_false. congruence. Qed.

Lemma Normal_spec D w r died code d w' c :
  Closing E D w → conns w !! r = Some c → DisconnectRecordNormal w r died = (code, d, w') →
  others w r w' ∧ same_targets w w' ∧
  ((code ≠ ERR_OK ∧ d = None ∧ w' = w)
   ∨ code = ERR_OK ∧ d = None ∧ is_phase w' DISCONNECTING r = true ∧ Closing E D w'
   ∨ code = ERR_OK ∧ d = Some r ∧ Closing E (D ++ [r]) w').
Proof.
  intros C Hc. unfold DisconnectRecordNormal. pose proof (others_Conn_Disconnect w r) as Ho.
  destruct (Conn_DisconnectAbility w r) as [res w1] eqn:Hd. cbn in Ho. pose proof C as [G _].
  eapply Conn_Disconnect_spec in Hd as (Hcl & Ht & Hcases); [|done].
  destruct Hcases as [(Hne & -> & _)|[(-> & Hp & G1)|(-> & Hp & G1 & Hn)]].
  - rewrite (proj2 (Z.eqb_neq _ _) Hne). intros [= <- <- <-]. split_and!; [done..|]. by left.
  - cbn. rewrite (is_phase_neq _ _ DISCONNECTED _ Hp) by done. intros [= <- <- <-]. split_and!; [done..|].
    right. left. split_and!; [done..|]. by eapply Closing_closes.
  - cbn. rewrite Hp. intros [= <- <- <-].
    assert (is_Some (conns w1 !! r)) as Hs by (eapply tgt_is_Some; rewrite Ht; unfold tgt; by rewrite Hc).
    split_and!; [by eapply others_trans, others_CompleteDisconnect|etrans; [exact Ht|apply same_targets_CompleteDisconnect]|].
    right. right. split_and!; [done..|]. eapply (Closing_add _ w); [|apply Good_CompleteDisconnect; [left; left|done]
      |by apply CompleteDisconnect_told|by intros a ?%(cl_list _ _ (closes_CompleteDisconnect w1 r _ _ _))%Hn|done].
    etrans; [exact Hcl|apply closes_CompleteDisconnect].
Qed.

Lemma Force_spec D w r c d w' :
  Closing E D w → conns w !! r = Some c → DisconnectRecordForce E w r = (d, w') →
  others w r w' ∧ same_targets w w' ∧ d = Some r ∧ Closing E (D ++ [r]) w'.
Proof.
  intros C Hc. unfold DisconnectRecordForce. rewrite Hc. cbn zeta.
  set (w1 := RemoveConnectRecordFromList w (targetService_ c) r). set (w2 := CompleteDisconnect w1 r _ _ _).
  intros [= <- <-]. match goal with |- others _ _ ?x ∧ _ => set (w3 := x) end.
  assert (frame w2 w3) as F by (unfold w3; case_match; [apply frame_TerminateRecord|done]).
  pose proof C as [G _].
  assert (Good E (r :: D) w2) as G2.
  { apply Good_CompleteDisconnect; [left; left|]. apply Good_RemoveConnectRecordFromList; [left|].
    eapply Good_weaken; [|exact G]. set_solver. }
  assert (Good E (r :: D) w3) as G3 by (unfold w3; case_match; [by apply Good_TerminateRecord|done]).
  split_and!; [eapply others_frame; [exact F|]; apply (others_CompleteDisconnect w1)| |done|].
  - intros x. unfold tgt. rewrite (fr_conns _ _ F). apply (same_targets_CompleteDisconnect w1).
  - assert (closes w w2) as C2 by (etrans; [apply closes_remove|apply closes_CompleteDisconnect]).
    eapply (Closing_add _ w); [etrans; [exact C2|by apply closes_frame]|done| | |done].
    + apply (ended_frame w2); [done|]. apply (CompleteDisconnect_told w1). by eexists.
    + intros a Ha. rewrite (fr_list _ _ F) in Ha. apply (cl_list _ _ (closes_CompleteDisconnect w1 r _ _ _)) in Ha.
      revert Ha. eapply not_listed; [exact G|]. unfold tgt. by rewrite Hc.
Qed.

Lemma disconnect_record_spec D w r died code d w' c :
  Closing E D w → conns w !! r = Some c → disconnect_record E w r died = (code, d, w') →
  others w r w' ∧ same_targets w w' ∧ Closing E (D ++ option_list d) w' ∧
  (d = None ∨ d = Some r) ∧ (died = true → code = ERR_OK ∧ (d = Some r ∨ is_phase w' DISCONNECTING r = true)).
Proof.
  intros C Hc. unfold disconnect_record. destruct (DisconnectRecordNormal w r died) as [[res d1] w1] eqn:Hn.
  eapply Normal_spec in Hn as (Ho & Ht & Hcases); [|done..].
  destruct Hcases as [(Hne & -> & ->)|[(-> & -> & Hp & C1)|(-> & -> & C1)]].
  - rewrite (proj2 (Z.eqb_neq _ _) Hne). destruct died; cbn [negb andb].
    + destruct (DisconnectRecordForce E w r) as [d2 w2] eqn:Hf. intros [= <- <- <-].
      eapply Force_spec in Hf as (? & ? & -> & ?); [|done..]. split_and!; try done; [by right|by intros _; split; [|left]].
    + intros [= <- <- <-]. cbn [option_list]. rewrite app_nil_r. split_and!; try done. by left.
  - cbn. intros [= <- <- <-]. cbn [option_list]. rewrite app_nil_r. split_and!; try done; [by left|]. intros _. by split; [|right].
  - cbn. intros [= <- <- <-]. split_and!; try done; [by right|]. intros _. by split; [|left].
Qed.
End Disconnect.

(** *** All records of a client *)

Section DisconnectAll.
Context (E : SvcEnv).

Lemma map_CompleteDisconnect w r code d1 d2 : connectMap_ (CompleteDisconnect w r code d1 d2) = connectMap_ w.
Proof.
  unfold CompleteDisconnect. cbn zeta. set (w1 := if (code =? ERR_OK)%Z then _ else w).
  assert (connectMap_ w1 = connectMap_ w) as H by (unfold w1; by destruct (code =? ERR_OK)%Z).
  destruct (conns w1 !! r) as [c|]; [|done]. by destruct (connCallback_ c).
Qed.

Lemma map_Conn_Disconnect w r : connectMap_ (Conn_DisconnectAbility w r).2 = connectMap_ w.
Proof.
  unfold Conn_DisconnectAbility. destruct (conns w !! r) as [c|]; [|done]. destruct (negb _); [done|]. cbn zeta.
  destruct (_ || _); cbn [snd]; [|done].
  apply (fr_map (SetConnectState w r DISCONNECTING)), qu_frame. quiet.
Qed.

Lemma map_disconnect_record w r died : connectMap_ (disconnect_record E w r died).2 = connectMap_ w.
Proof.
  assert (connectMap_ (DisconnectRecordNormal w r died).2 = connectMap_ w) as Hn.
  { unfold DisconnectRecordNormal. pose proof (map_Conn_Disconnect w r) as H.
    destruct (Conn_DisconnectAbility w r) as [res w1]. cbn in H. destruct (negb _); [done|].
    destruct (is_phase w1 DISCONNECTED r); [|done]. cbn. by rewrite map_CompleteDisconnect. }
  unfold disconnect_record. destruct (DisconnectRecordNormal w r died) as [[res d] w1]. cbn in Hn.
  destruct (negb _ && _); [|done]. unfold DisconnectRecordForce. destruct (conns w1 !! r) as [c|]; [|done]. cbn.
  case_match; [rewrite (fr_map _ _ (frame_TerminateRecord E _ _))|]; by rewrite map_CompleteDisconnect.
Qed.

Lemma Closing_quiet D w w' : quiet w w' → Closing E D w → Closing E D w'.
Proof. intros Q C. eapply Closing_closes; [by apply closes_quiet|eapply Good_quiet; [done|apply C]|done]. Qed.

Lemma disconnect_loop_Closing calling self died l D w code code' D' w' :
  Closing E D w → disconnect_loop E calling self died w l D code = (code', D', w') → Closing E D' w'.
Proof.
  revert D w code. induction l as [|r l IH]; intros D w code C; cbn; [by intros [= <- <- <-]|].
  destruct (conns w !! r) as [c|] eqn:Hc; [|by apply IH].
  set (w1 := if bool_decide _ then _ else w). assert (quiet w w1) as Q by (unfold w1; quiet; apply quiet_RemoveDelay).
  assert (conns w1 !! r = Some c) as Hc1 by by rewrite (fr_conns _ _ (qu_frame _ _ Q)).
  clearbody w1. assert (Closing E D w1) as C1 by by eapply Closing_quiet.
  destruct (negb _ && negb _); [by apply IH|].
  destruct (disconnect_record E w1 r died) as [[res d] w2] eqn:Hd.
  eapply disconnect_record_spec in Hd as (_ & _ & C2 & _); [|done..].
  destruct (negb _); [by intros [= <- <- <-]|]. by apply IH.
Qed.

Lemma Good_DisconnectAbilityLocked w o calling self died :
  Good E [] w → Good E [] (DisconnectAbilityLocked E w o calling self died).2.
Proof.
  intros G. unfold DisconnectAbilityLocked. destruct (GetConnectRecordListFromMap w o) as [|r l]; [done|].
  destruct (disconnect_loop _ _ _ _ _ _ _ _) as [[res D] w1] eqn:Hl. cbn [snd]. apply Good_RemoveAll.
  eapply disconnect_loop_Closing; [|exact Hl]. split; [done|]. by intros x ?%not_elem_of_nil.
Qed.

(** The loop over the connections of a dead client, which is not called by another process. *)
Lemma disconnect_loop_died self l D w code code' D' w' :
  NoDup l → Forall (λ r, is_Some (conns w !! r)) l → Closing E D w → code = ERR_OK →
  disconnect_loop E self self true w l D code = (code', D', w') →
  code' = ERR_OK ∧ connectMap_ w' = connectMap_ w ∧ (∀ x, x ∈ D → x ∈ D')
  ∧ (∀ x, x ∉ l → phase_of w' x = phase_of w x)
  ∧ (∀ r, r ∈ l → r ∈ D' ∨ is_phase w' DISCONNECTING r = true).
Proof.
  intros Hnd. revert D w code. induction Hnd as [|r l Hr Hnd IH]; intros D w code Hall C ->; cbn.
  { intros [= <- <- <-]. split_and!; try done. by intros r ?%not_elem_of_nil. }
  apply Forall_cons in Hall as [[c Hc] Hall]. rewrite Hc.
  set (w1 := if bool_decide _ then _ else w). assert (quiet w w1) as Q by (unfold w1; quiet; apply quiet_RemoveDelay).
  pose proof (fr_conns _ _ (qu_frame _ _ Q)) as Hq. pose proof (fr_map _ _ (qu_frame _ _ Q)) as Hm.
  clearbody w1. assert (Closing E D w1) as C1 by by eapply Closing_quiet.
  rewrite Z.eqb_refl, andb_false_r. pose proof (map_disconnect_record w1 r true) as Hm2.
  destruct (disconnect_record E w1 r true) as [[res d] w2] eqn:Hd. cbn in Hm2.
  eapply disconnect_record_spec in Hd as (Ho & Ht & C2 & _ & Hdied); [|done|by rewrite Hq].
  destruct (Hdied eq_refl) as [-> Hr2]. cbn. intros Hl.
  eapply IH in Hl as (-> & Hm3 & Hsub & Hph & Hdone); [| |done|done].
  - split_and!; [done|congruence|intros x ?; apply Hsub; set_solver| |].
    + intros x [Hx Hxl]%not_elem_of_cons. rewrite Hph, Ho by done. unfold phase_of. by rewrite Hq.
    + intros x [->|Hx]%elem_of_cons; [|by apply Hdone]. destruct Hr2 as [->|Hp]; [left; apply Hsub; set_solver|].
      right. unfold is_phase in *. by rewrite Hph.
  - eapply Forall_impl; [exact Hall|]. intros x [cx Hx]. eapply tgt_is_Some. rewrite Ht. unfold tgt. by rewrite Hq, Hx.
Qed.

Lemma opened_RemoveAll D w o x :
  Closing E D w → opened (foldl RemoveConnectionRecordFromMap w D) o x ↔ opened w o x ∧ x ∉ D.
Proof.
  revert w. induction D as [|r D IH]; intros w C; cbn; [set_solver|]. pose proof C as [G H].
  destruct (H r) as [He Hn]; [left|].
  assert (Closing E D (RemoveConnectionRecordFromMap w r)) as C1.
  { destruct (remove_map_rest w r) as (R1 & R2 & _ & R4 & _). split; [by apply Good_RemoveConnectionRecordFromMap|].
    intros y Hy. unfold ended, conn_list. rewrite R1, R4, R2. apply H. by right. }
  rewrite IH by done. rewrite (opened_remove E (r :: D)) by apply G. set_solver.
Qed.

Lemma RemoveAll_conns D w : conns (foldl RemoveConnectionRecordFromMap w D) = conns w.
Proof.
  revert w. induction D as [|r D IH]; intros w; cbn; [done|]. rewrite IH. by destruct (remove_map_rest w r) as (-> & _).
Qed.

Lemma Good_ClearCallBacks D w o w' : Good E D w → ClearCallBacks w o = Some w' → Good E D w'.
Proof.
  intros G. unfold ClearCallBacks. set (w1 := w <| windowExtensionMap_ ::= _ |>).
  assert (Good E D w1) as G1 by (eapply Good_quiet; [apply quiet_window|done]). clearbody w1.
  destruct (connectMap_ w1 !! o) as [l|]; [|done]. intros [= <-]. clear -G1. revert w1 G1.
  induction l as [|r l IH]; intros w1 G1; cbn; [done|]. by apply IH, Good_ClearConnCallBack.
Qed.
End DisconnectAll.

(** ** Every operation keeps the invariant *)

Section Step.
Context (E : SvcEnv).

Lemma Good_TerminateAbilityLocked w a : Good E [] w → Good E [] (TerminateAbilityLocked w a).2.
Proof.
  intros G. unfold TerminateAbilityLocked. destruct (GetExtensionByTokenFromTerminatingMap w a) as [b|]; [|done]. cbn.
  eapply Good_quiet; [apply quiet_Terminate|]. by apply Good_HandleTerminateDisconnectTask.
Qed.

Lemma Good_TerminateAbilityInner w a : Good E [] w → Good E [] (TerminateAbilityInner E w a).2.
Proof.
  intros G. unfold TerminateAbilityInner. destruct (_ && _); [done|].
  by apply Good_TerminateAbilityLocked, Good_MoveToTerminatingMap.
Qed.

Lemma Good_StopServiceAbilityLocked w req : Good E [] w → Good E [] (StopServiceAbilityLocked E w req).2.
Proof.
  intros G. unfold StopServiceAbilityLocked. cbn zeta.
  destruct (GetServiceRecordByElementName w _) as [a|].
  { cbn. apply Good_TerminateRecord. by apply Good_HandleTerminateDisconnectTask. }
  destruct (CacheGet _ _ _) as [got c] eqn:Hg. eapply cache_all_get in Hg as [Hc Hgot]; [|apply G].
  assert (Good E [] (w <| cache := c |>)) as G1 by by apply Good_cache.
  destruct got as [a|]; cbn; [|done]. apply Good_TerminateRecord, Good_HandleTerminateDisconnectTask.
  apply Good_AddToServiceMap; [by apply Hgot|done].
Qed.

Lemma Good_connect_done_loop l a w : Good E [] w → Good E [] (connect_done_loop E w a l).
Proof.
  unfold connect_done_loop. revert w. induction l as [|r l IH]; intros w G; cbn; [done|]. apply IH.
  assert (Good E [] (Conn_ScheduleConnectAbilityDone E w r)) as G1.
  { unfold Conn_ScheduleConnectAbilityDone. destruct (negb _); [done|]. apply Good_CompleteConnect.
    eapply Good_quiet; [apply quiet_CancelConnectTimeoutTask|done]. }
  destruct (auto_disconnected _ _); [|done].
  eapply Good_quiet; [apply quiet_PostExtensionDelayDisconnectTask|done].
Qed.

Lemma Good_ConnectDone w a ro code w' :
  Good E [] w → ScheduleConnectAbilityDoneLocked E w a ro = Ret (code, w') → Good E [] w'.
Proof.
  intros G. unfold ScheduleConnectAbilityDoneLocked. destruct (services w !! a) as [s|]; [|by intros [= <- <-]].
  destruct (_ && _); [by intros [= <- <-]|]. cbn zeta.
  destruct (CompleteStartServiceReq E _ _) as [w2|] eqn:Hc; [|done]. intros [= <- <-].
  eapply Good_CompleteStartServiceReq; [|exact Hc]. apply Good_connect_done_loop.
  eapply Good_quiet; [|exact G]. quiet.
Qed.

Lemma GetDisconnecting_spec D w a r :
  Good E D w → GetDisconnectingRecord w a = Some r → tgt w r = Some a ∧ is_phase w DISCONNECTING r = true.
Proof. intros G [Hr Hp]%find_if_elem. split; [|done]. by destruct (ci_service _ _ _ (proj1 G) _ _ Hr). Qed.

(** The record whose service reported the end: told, listed no more. *)
Lemma disconnect_done_ended w a r :
  Good E [] w → tgt w r = Some a → is_phase w DISCONNECTING r = true →
  Closing E [r] (RemoveConnectRecordFromList (Conn_ScheduleDisconnectAbilityDone w r) a r).
Proof.
  intros G Ht Hp. unfold Conn_ScheduleDisconnectAbilityDone. rewrite Hp. cbn [negb]. cbn zeta.
  set (w1 := CancelTask w _). assert (quiet w w1) as Q by apply quiet_cancel. clearbody w1.
  assert (tgt w1 r = Some a) as Ht1 by by rewrite (same_targets_quiet _ _ Q).
  set (w2 := CompleteDisconnect w1 r _ _ _).
  assert (Good E [r] w2) as G2.
  { apply Good_CompleteDisconnect; [left; left|]. eapply Good_quiet; [exact Q|].
    eapply Good_weaken; [|exact G]. set_solver. }
  split; [apply Good_RemoveConnectRecordFromList; [left|done]|]. intros x ->%list_elem_of_singleton. split.
  - apply (CompleteDisconnect_told w1). by eapply tgt_is_Some.
  - eapply not_listed; [exact G2|]. unfold w2. by rewrite same_targets_CompleteDisconnect.
Qed.

Lemma closes_TerminateOrCache w a w' : TerminateOrCacheAbility E w a = Ret w' → closes w w'.
Proof.
  unfold TerminateOrCacheAbility. destruct (services w !! a) as [s|]; [|by intros [= <-]].
  destruct (IsSceneBoard s); [by intros [= <-]|].
  destruct (IsCacheExtensionType E _); [|intros [= <-]; apply closes_frame, frame_TerminateRecord]. cbn zeta.
  destruct (Put _ _ _) as [[e c]|]; [|done]. intros [= <-]. destruct e as [e|]; [|by split].
  unfold ProcessEliminateAbilityRecord. cbn zeta. etrans; [|apply closes_frame, frame_TerminateRecord].
  unfold AddToServiceMap. destruct (serviceMap_ _ !! _); by split.
Qed.

Lemma Good_DisconnectDone w a code w' :
  Good E [] w → ScheduleDisconnectAbilityDoneLocked E w a = Ret (code, w') → Good E [] w'.
Proof.
  intros G. unfold ScheduleDisconnectAbilityDoneLocked.
  destruct (_ ≫= _) as [r|] eqn:Hr; [|by intros [= <- <-]].
  destruct (negb _); [by intros [= <- <-]|]. cbn zeta.
  apply bind_Some in Hr as (b & Hb & Hr). assert (b = a) as ->.
  { unfold GetExtensionByTokenFromServiceMap in Hb. by destruct (in_service_map w a); simplify_eq. }
  eapply GetDisconnecting_spec in Hr as [Ht Hp]; [|done].
  pose proof (disconnect_done_ended w a r G Ht Hp) as C. set (w1 := RemoveConnectRecordFromList _ a r) in *.
  destruct (if _ && _ then _ else Ret w1) as [w2|] eqn:Ht2; [|done]. intros [= <- <-].
  assert (Closing E [r] w2) as C2.
  { destruct (_ && _); [|by injection Ht2 as <-]. eapply Closing_closes; [by eapply closes_TerminateOrCache| |done].
    by eapply Good_TerminateOrCacheAbility; [apply C|]. }
  by apply (Good_RemoveAll E [r]).
Qed.

Lemma Good_CommandDone w a code w' :
  Good E [] w → ScheduleCommandAbilityDoneLocked E w a = Ret (code, w') → Good E [] w'.
Proof.
  intros G. unfold ScheduleCommandAbilityDoneLocked, CompleteCommandAbility.
  destruct (services w !! a); [|by intros [= <- <-]]. destruct (_ && _); [by intros [= <- <-]|]. cbn zeta.
  destruct (CompleteStartServiceReq E _ _) as [w2|] eqn:Hc; [|done]. intros [= <- <-].
  eapply Good_CompleteStartServiceReq in Hc; [|eapply Good_quiet; [|exact G]; quiet].
  eapply Good_quiet; [|exact Hc]. quiet.
Qed.

Lemma Good_HandleExtensionDisconnectTask w r : Good E [] w → Good E [] (HandleExtensionDisconnectTask w r).
Proof.
  intros G. unfold HandleExtensionDisconnectTask. destruct (Conn_DisconnectAbility w r) as [code w1] eqn:Hd.
  destruct (Conn_Disconnect_spec _ _ _ _ _ _ G Hd) as (_ & _ & Hcases).
  destruct (is_phase w1 DISCONNECTED r) eqn:Hp.
  - assert (is_Some (conns w1 !! r)) as Hs.
    { apply bool_decide_eq_true in Hp. unfold phase_of in Hp. destruct (conns w1 !! r); [by eexists|done]. }
    assert (Good E [r] w1 ∧ ∀ a, r ∉ conn_list w1 a) as [G1 Hn].
    { destruct Hcases as [(_ & -> & _)|[(_ & Hp' & _)|(_ & _ & ? & ?)]]; [|by rewrite (is_phase_neq _ _ _ _ Hp) in Hp'|done].
      split; [eapply Good_weaken; [|exact G]; set_solver|]. intros a Ha. destruct (ci_service _ _ _ (proj1 G) _ _ Ha) as [_ [o Ho]].
      destruct (ci_open _ _ _ (proj1 G) _ _ Ho) as (c & Hc & _ & [Hin|[Hl _]]); [by apply not_elem_of_nil in Hin|].
      apply bool_decide_eq_true in Hp. unfold phase_of in Hp. rewrite Hc in Hp. injection Hp as Hp. rewrite Hp in Hl. by destruct Hl as [?|[?|?]]. }
    apply Good_RemoveConnectionRecordFromMap.
    + intros a Ha%(cl_list _ _ (closes_CompleteDisconnect w1 r _ _ _)). by apply (Hn a).
    + by apply CompleteDisconnect_told.
    + apply Good_CompleteDisconnect; [left; left|done].
  - destruct Hcases as [(_ & -> & _)|[(_ & _ & ?)|(_ & Hp' & _)]]; [done..|congruence].
Qed.

Lemma Good_HandleConnectTimeoutTask w a l :
  Forall (λ r, tgt w r = Some a) l → Good E [] w → Good E [] (HandleConnectTimeoutTask E w a l).
Proof.
  intros Hl G. unfold HandleConnectTimeoutTask. cbn zeta. set (w1 := foldl _ w l).
  assert (Good E [] w1) as G1.
  { apply (Good_loop E _ a); [intros; by apply Good_timeout|intros; apply same_targets_timeout|done..]. }
  destruct (_ || _); [done|by apply Good_TerminateRecord].
Qed.

Lemma Good_HandleInactiveTimeout w a l :
  Forall (λ r, tgt w r = Some a) l → Good E [] w → Good E [] (HandleInactiveTimeout E w a l).
Proof.
  intros Hl G. unfold HandleInactiveTimeout. destruct (services w !! a) as [s|]; [|done].
  destruct (negb _); [done|]. cbn zeta. pose proof (quiet_HandleCommandTimeoutTask w a) as Q.
  set (w1 := HandleCommandTimeoutTask w a) in *. assert (Good E [] w1) as G1 by by eapply Good_quiet.
  destruct (_ && _); [|done]. apply Good_HandleConnectTimeoutTask; [|done].
  eapply Forall_impl; [exact Hl|]. intros r. cbn. by rewrite (same_targets_quiet _ _ Q).
Qed.

Lemma Good_RestartAbility w a user time w' :
  Good E [] w → RestartAbility E w a user time = Ret w' → Good E [] w'.
Proof.
  intros G. unfold RestartAbility. cbn zeta. pose proof (quiet_SetRestarting E w a true) as Q.
  set (w1 := set_service w a _) in *. assert (Good E [] w1) as G1 by by eapply Good_quiet.
  destruct (services w1 !! a) as [s|]; [|by intros [= <-]].
  destruct (IsLauncherAbility E _); [destruct (negb _); [by intros [= <-]|by apply Good_start]|].
  destruct (CanRestartResident E time s); [by apply Good_start|].
  destruct (existsb _ _); intros [= <-]; [done|]. eapply Good_quiet; [|exact G1]. quiet.
Qed.

Lemma Good_HandleStartTimeoutTask w a time w' :
  Good E [] w → HandleStartTimeoutTask E w a time = Ret w' → Good E [] w'.
Proof.
  intros G. unfold HandleStartTimeoutTask. cbn zeta. set (w1 := foldl _ w _).
  assert (Good E [] w1) as G1.
  { apply Good_ends; [|done]. apply Forall_forall. intros r [_ Hr]%list_elem_of_filter.
    pose proof (listed_targets E _ _ a G) as Hl. rewrite Forall_forall in Hl. by apply Hl. }
  destruct (services w1 !! a) as [s|]; [|by intros [= <-]]. destruct (negb _); [by intros [= <-]|].
  set (w2 := send _ _). assert (Good E [] w2) as G2.
  { eapply Good_quiet; [apply quiet_send|]. eapply Good_quiet; [apply quiet_RemoveServiceAbility|].
    by apply Good_MoveToTerminatingMap. }
  destruct (negb _).
  - destruct (IsAbilityNeedKeepAlive E s); [intros Hr; exact (Good_RestartAbility _ _ _ _ _ G2 Hr)|by intros [= <-]].
  - unfold StartRootLauncher. destruct (services w2 !! a); [by apply Good_start|by intros [= <-]].
Qed.

Lemma Good_KeepAbilityAlive w a k w' : Good E [] w → KeepAbilityAlive E w a k = Ret w' → Good E [] w'.
Proof.
  intros G. unfold KeepAbilityAlive. destruct (services w !! a) as [s|]; [|by intros [= <-]]. cbn zeta.
  set (w1 := if IsLauncher s || _ then _ else w).
  assert (Good E [] w1) as G1 by (eapply Good_quiet; [|exact G]; unfold w1; quiet).
  destruct (_ && _); [intros [= <-]; by eapply Good_quiet; [apply quiet_send|]|].
  destruct (IsKilledForUpgradeWeb k); [by intros [= <-]|]. destruct (IsMemorySizeSufficent k || IsLauncher s || IsSceneBoard s || IsAllowResidentInExtremeMemory k); [|by intros [= <-]].
  intros Hr. exact (Good_RestartAbility _ _ _ _ _ G1 Hr).
Qed.

Lemma Good_HandleAbilityDiedTask w a k w' :
  Good E [] w → HandleAbilityDiedTask E w a k = Ret w' → Good E [] w'.
Proof.
  intros G. unfold HandleAbilityDiedTask. cbn zeta. set (w1 := set_service w a _).
  assert (quiet w w1) as Q by (unfold w1; quiet). assert (Good E [] w1) as G1 by by eapply Good_quiet.
  set (w2 := foldl _ w1 _). assert (Good E [] w2) as G2.
  { apply (Good_loop E _ a); [intros; by apply Good_died|intros; apply same_targets_died|by eapply listed_targets|done]. }
  destruct (services w2 !! a) as [s|]; [|by intros [= <-]].
  set (w3 := if IsCacheExtensionType E _ && _ then _ else _ : SvcWorld). assert (Good E [] w3) as G3.
  { unfold w3. destruct (_ && _); [|destruct (in_service_map w2 a); [|done]].
    - eapply Good_quiet; [apply quiet_RemoveServiceAbility|]. apply Good_MoveToTerminatingMap.
      apply Good_cache; [|done]. apply cache_all_remove. apply G2.
    - eapply Good_quiet; [apply quiet_RemoveServiceAbility|]. by apply Good_MoveToTerminatingMap. }
  destruct (IsAbilityNeedKeepAlive E s); [intros Hk; exact (Good_KeepAbilityAlive _ _ _ _ G3 Hk)|by intros [= <-]].
Qed.

Lemma Good_PauseExtensions w : Good E [] w → Good E [] (PauseExtensions w).
Proof.
  intros G. unfold PauseExtensions. cbn zeta. set (out := filter _ _). set (w1 := w <| terminatingExtensionList_ ::= _ |> <| serviceMap_ ::= _ |>).
  assert (Good E [] w1) as G1.
  { unfold w1. apply Good_take; [|by apply Good_terminating]. intros m k a. by intros [? _]%map_lookup_filter_Some. }
  clearbody w1. revert w1 G1. induction (out.*2) as [|a l IH]; intros w1 G1; cbn; [done|].
  by apply IH, Good_TerminateAbilityLocked.
Qed.
End Step.
