(* ===== verification/ServiceProperties.v ===== *)
(** * What the connection manager promises

    The properties of every run of [ServiceConnect], each with an execution, and the
    executions in which the code does not do what it means to. *)

From stdpp Require Import prelude gmap strings list sorting pretty.
From Stdlib Require Import ZArith Lia.
From S2P Require Import Prelude AbilityCache ConnectionState ServiceConnect ServiceTheorems ServiceRuns.

Implicit Types (w : SvcWorld) (r : Conn) (a : Abi) (o : Z) (D : list Conn).

Section Runs.
Context (E : SvcEnv).

Lemma targets_ok w a l : Forall (λ r, target_is w a r = true) l → Forall (λ r, tgt w r = Some a) l.
Proof. intros H. eapply Forall_impl; [exact H|]. intros r. apply target_is_spec. Qed.

Lemma Good_step w op w' : Good E [] w → op_ok w op → svc_step E w op = Ret w' → Good E [] w'.
Proof.
  intros G Hok. destruct op; cbn [svc_step]; try (intros [= <-]).
  - by apply Good_start.
  - destruct (ConnectAbilityLocked E w req connect caller) as [[code w1]|] eqn:Hc; [|done]. intros [= <-].
    by eapply Good_ConnectAbilityLocked.
  - by apply Good_DisconnectAbilityLocked.
  - by apply Good_TerminateAbilityInner.
  - by apply Good_StopServiceAbilityLocked.
  - eapply Good_quiet; [apply quiet_AttachAbilityThreadLocked|done].
  - eapply Good_quiet; [apply quiet_AbilityTransitionDone|done].
  - destruct (ScheduleConnectAbilityDoneLocked E w a remoteObject) as [[code w1]|] eqn:Hc; [|done]. intros [= <-].
    by eapply Good_ConnectDone.
  - destruct (ScheduleDisconnectAbilityDoneLocked E w a) as [[code w1]|] eqn:Hc; [|done]. intros [= <-].
    by eapply Good_DisconnectDone.
  - destruct (ScheduleCommandAbilityDoneLocked E w a) as [[code w1]|] eqn:Hc; [|done]. intros [= <-].
    by eapply Good_CommandDone.
  - by apply (Good_quiet E _ w), G; apply quiet_task.
  - destruct (ClearCallBacks w o) as [w1|] eqn:Hc; [by eapply Good_ClearCallBacks|].
    eapply Good_quiet; [apply quiet_window|done].
  - by apply Good_DisconnectAbilityLocked.
  - by apply Good_CompleteConnect.
  - by apply Good_HandleExtensionDisconnectTask.
  - apply Good_HandleConnectTimeoutTask; [by apply targets_ok|done].
  - apply Good_HandleInactiveTimeout; [by apply targets_ok|done].
  - intros H. exact (Good_HandleStartTimeoutTask E _ _ _ _ G H).
  - eapply Good_quiet; [apply quiet_TerminateDone|done].
  - eapply Good_quiet; [apply quiet_HandleCommandTimeoutTask|done].
  - eapply Good_quiet; [|exact G]. unfold OnSchedulerDied. quiet.
  - eapply Good_quiet; [|exact G]. unfold OnAbilityDied. quiet.
  - intros H. exact (Good_HandleAbilityDiedTask E _ _ _ _ G H).
  - eapply Good_quiet; [apply quiet_requests|done].
  - unfold HandleRestartResidentTask. cbn zeta. apply Good_start. eapply Good_quiet; [apply quiet_restarts|done].
  - eapply Good_quiet; [apply quiet_HandleProcessFrozen|done].
  - by apply Good_TerminateRecord.
  - by apply Good_PauseExtensions.
Qed.

Lemma Good_init dev proc st : Good E [] (svc_init dev proc st).
Proof.
  assert (∀ o r, ¬ opened (svc_init dev proc st) o r) as Hno.
  { intros o r (l & Hl & _). cbn in Hl. by rewrite lookup_empty in Hl. }
  assert (∀ a, conn_list (svc_init dev proc st) a = []) as Hl.
  { intros a. unfold conn_list. cbn. by rewrite lookup_empty. }
  split; split; cbn.
  - intros o l. by rewrite lookup_empty.
  - by intros o r ?%Hno.
  - by intros o1 o2 r ?%Hno.
  - by intros o r1 r2 a ?%Hno.
  - intros a r. rewrite Hl. by intros ?%not_elem_of_nil.
  - intros a. rewrite Hl. constructor.
  - intros o. rewrite elem_of_empty, lookup_empty. split; [done|]. by intros [[? [=]] _].
  - intros r. rewrite lookup_empty. by intros [? [=]].
  - intros r c. by rewrite lookup_empty.
  - intros r. rewrite lookup_empty. by intros [? [=]].
  - intros k a. by rewrite lookup_empty.
  - split; cbn; [|by intros x ?%not_elem_of_nil]. intros t i x. by rewrite lookup_empty.
  - intros a. rewrite lookup_empty. by intros [? [=]].
Qed.

Lemma reach_Good w : reach E w → Good E [] w.
Proof. induction 1; [apply Good_init|by eapply Good_step]. Qed.
End Runs.

(** ** Executions *)

Definition demo_env : SvcEnv :=
  mkSvcEnv (λ d b n m, d +:+ "/" +:+ b +:+ "/" +:+ m +:+ "/" +:+ n) (λ _, false) (λ _, (-1)%Z) false (λ _ _, false)
    (λ _, false) (λ _, 3%Z) 60000 false (λ _, true)
    (λ w, if decide (fresh_conn w = 2%positive) then 5%Z else 0%Z) 100.

Definition demo_info (bundle name : string) (t : ExtensionAbilityType) : ServiceInfo :=
  mkServiceInfo "" bundle "entry" name TYPE_EXTENSION t "service" 55 true.
Definition demo_req (bundle name : string) (t : ExtensionAbilityType) : ServiceRequest :=
  mkServiceRequest (demo_info bundle name t) (mkWant "" bundle name "entry" 0 0 0 false false) 20010 3 0 None.

Definition music : ServiceRequest := demo_req "com.music" "Player" EXT_SERVICE.
Definition cb1 : Callback := mkCallback 1 101.
Definition cb2 : Callback := mkCallback 2 102.
Definition client1 : Caller := mkCaller 11 1000 501 None.
Definition client2 : Caller := mkCaller 12 1001 502 None.
Definition answers : KeepAnswers := mkKeepAnswers 100 0 false true false.
Definition demo_start : SvcWorld := svc_init 5 3 (mkConnState (Some []) [] ∅ ∅ true 0 true 0 []).

Fixpoint svc_run (E : SvcEnv) w (ops : list SvcOp) : outcome SvcWorld :=
  match ops with
  | [] => Ret w
  | op :: ops => let* w := svc_step E w op in svc_run E w ops
  end.

Definition no_stale_list (op : SvcOp) : bool :=
  match op with OConnectTimeout _ _ | OInactiveTimeout _ _ => false | _ => true end.

Lemma reach_run E ops w w' :
  reach E w → forallb no_stale_list ops = true → svc_run E w ops = Ret w' → reach E w'.
Proof.
  revert w. induction ops as [|op ops IH]; intros w Hw Hs; cbn; [by intros [= <-]|].
  cbn in Hs. apply andb_prop in Hs as [Hop Hs].
  destruct (svc_step E w op) as [w1|] eqn:Hstep; [|done]. cbn. apply IH; [|done].
  eapply reach_step; [done| |exact Hstep]. by destruct op.
Qed.

Definition ran (ops : list SvcOp) : SvcWorld :=
  match svc_run demo_env demo_start ops with Ret w => w | Undef => demo_start end.

Lemma reach_ran ops :
  forallb no_stale_list ops = true → is_ret (svc_run demo_env demo_start ops) → reach demo_env (ran ops).
Proof.
  intros Hs [w Hw]. unfold ran. rewrite Hw. eapply reach_run; [apply reach_init|exact Hs|exact Hw].
Qed.

(** A service is loaded for a first client and shared with a second one. *)
Definition two_clients : list SvcOp :=
  [OConnect music cb1 client1; OAttach 0 700; OTransition 0 INACTIVE; OConnectDone 0 (Some 77%Z);
   OConnect music cb2 client2; OCompleteConnect 2%positive].

Lemma reach_two_clients : reach demo_env (ran two_clients).
Proof. apply reach_ran; [reflexivity|eexists; vm_compute; reflexivity]. Qed.

(** ** Properties *)

(** C10: in every run, the manager's three books agree: a connection is in the map of
    callbacks exactly when it is in the list of its service, it is connecting, connected or
    disconnecting, it belongs to one callback, its callback has no other connection to the
    same service, and the manager watches for the death of exactly the clients that have
    connections and accept to be watched. *)
Theorem connection_books E w :
  reach E w →
  (∀ o r, opened w o r → ∃ c, conns w !! r = Some c ∧ live (phase_ c) ∧ r ∈ conn_list w (targetService_ c)
                          ∧ ∀ cb, connCallback_ c = Some cb → cb_object cb = o)
  ∧ (∀ a r, r ∈ conn_list w a → tgt w r = Some a ∧ ∃ o, opened w o r)
  ∧ (∀ o1 o2 r, opened w o1 r → opened w o2 r → o1 = o2)
  ∧ (∀ o r1 r2 a, opened w o r1 → opened w o r2 → tgt w r1 = Some a → tgt w r2 = Some a → r1 = r2)
  ∧ (∀ o, o ∈ recipientMap_ w ↔ (∃ r, opened w o r) ∧ AddDeathRecipient E o = true).
Proof.
  intros [I _]%reach_Good. split_and!.
  - intros o r Ho. destruct (ci_open _ _ _ I _ _ Ho) as (c & ? & ? & [?%not_elem_of_nil|[? ?]]); [done|by exists c].
  - apply (ci_service _ _ _ I).
  - apply (ci_uniq _ _ _ I).
  - apply (ci_one _ _ _ I).
  - intros o. rewrite (ci_recip _ _ _ I). split; intros [H ?]; (split; [|done]).
    + destruct H as [l Hl]. destruct (ci_lists _ _ _ I _ _ Hl) as [Hn _]. destruct l as [|r l]; [done|].
      exists r, (r :: l). split; [done|left].
    + destruct H as (r & l & Hl & _). by exists l.
Qed.

Lemma connection_books_witness :
  opened (ran two_clients) 102 2%positive
  ∧ ∃ c, conns (ran two_clients) !! 2%positive = Some c ∧ live (phase_ c)
      ∧ 2%positive ∈ conn_list (ran two_clients) (targetService_ c)
      ∧ ∀ cb, connCallback_ c = Some cb → cb_object cb = 102%Z.
Proof.
  assert (opened (ran two_clients) 102 2%positive) as H.
  { exists [2%positive]. split; [vm_compute; reflexivity|left]. }
  split; [exact H|]. exact (proj1 (connection_books demo_env _ reach_two_clients) _ _ H).
Defined.

(** C25: no connection ends silently: in every run, every connection that was ever made is
    open, under a callback, or its client has been told with its own callback that it has
    ended, unless the callback was cleared because the client had died. *)
Theorem no_silent_end E w r c :
  reach E w → conns w !! r = Some c →
  (∃ o, opened w o r)
  ∨ ∀ cb, connCallback_ c = Some cb → ∃ code, DisconnectDone r cb code ∈ told w.
Proof.
  intros [I _]%reach_Good Hr. destruct (ci_told _ _ _ I r) as [?|(c' & Hc' & H)]; [by rewrite Hr|by left|right].
  by simplify_eq.
Qed.

Definition one_leaves : list SvcOp := two_clients ++ [ODisconnect 101 11 1].

Lemma no_silent_end_witness :
  (∃ o, opened (ran one_leaves) o 1%positive)
  ∨ ∀ cb, Some cb1 = Some cb → ∃ code, DisconnectDone 1%positive cb code ∈ told (ran one_leaves).
Proof.
  destruct (conns (ran one_leaves) !! 1%positive) as [c|] eqn:Hc; [|vm_compute in Hc; discriminate].
  assert (connCallback_ c = Some cb1) as <- by (vm_compute in Hc; by injection Hc as <-).
  eapply (no_silent_end demo_env).
  - apply reach_ran; [reflexivity|eexists; vm_compute; reflexivity].
  - exact Hc.
Defined.

(** *** Connecting *)

Section Connecting.
Context (E : SvcEnv).

Lemma GetConnectingRecord_listed w a r :
  r ∈ conn_list w a → is_phase w CONNECTING r = true → is_Some (GetConnectingRecord w a).
Proof. intros Hr Hp. destruct (find_if_is_Some (is_phase w CONNECTING) (conn_list w a)); [by exists r|by eexists]. Qed.

Lemma LoadAbility_ret w a r :
  r ∈ conn_list w a → is_phase w CONNECTING r = true → is_ret (LoadAbility E w a).
Proof.
  intros Hr Hp. unfold LoadAbility. destruct (negb _); [by eexists|]. cbn zeta.
  set (w1 := if _ : bool then w else _). assert (quiet w w1) as Q by (unfold w1; quiet). clearbody w1.
  assert (is_Some (GetConnectingRecord w1 a)) as [x ->].
  { eapply (GetConnectingRecord_listed w1 a r); [by rewrite (fr_list _ _ (qu_frame _ _ Q))|].
    unfold is_phase, phase_of in *. by rewrite (fr_conns _ _ (qu_frame _ _ Q)). }
  destruct (default _ _); cbn; by eexists.
Qed.

Lemma Connect_ret w req cb caller : Good E [] w → is_ret (ConnectAbilityLocked E w req cb caller).
Proof.
  intros G. unfold ConnectAbilityLocked.
  destruct (GetOrCreateServiceRecord E w req true) as [[a loaded] w1] eqn:Hg. cbn zeta.
  destruct (Good_GetOrCreate E _ _ _ _ _ _ _ G Hg) as (G1 & Ha & _).
  destruct (loaded && _ && _); [by eexists|].
  destruct (open_connection E w1 a req cb caller) as [r w2] eqn:Ho.
  apply open_connection_opens in Ho; [|done|by eapply fresh_unlisted].
  destruct (negb (_ =? _)%Z); [by eexists|]. destruct (negb loaded).
  - destruct (opens_basics _ _ _ _ _ _ _ G1 Ho) as (c & Hp & Ht & _ & Hc & _ & _ & _ & Hl).
    destruct (LoadAbility_ret w2 a r) as [w3 ->]; [apply Hl; by right| |by eexists].
    unfold is_phase, phase_of. rewrite Hc. cbn. by rewrite Hp.
  - destruct (is_state w2 a ACTIVE); by eexists.
Qed.

Lemma opened_frame w w' o r : frame w w' → opened w' o r ↔ opened w o r.
Proof. intros F. unfold opened. by rewrite (fr_map _ _ F). Qed.
End Connecting.

(** C30: connecting always returns, and afterwards the callback has exactly one connection to
    the service of the request, whether it had one before or not; the connections of all
    clients stay. *)
Theorem connect_once E w req cb caller :
  reach E w →
  let a := (GetOrCreateServiceRecord E w req true).1.1 in
  ∃ code w', ConnectAbilityLocked E w req cb caller = Ret (code, w') ∧
    (∃ r, opened w' (cb_object cb) r ∧ tgt w' r = Some a ∧
       ∀ r', opened w' (cb_object cb) r' → tgt w' r' = Some a → r' = r) ∧
    (∀ o r, opened w o r → opened w' o r ∧ tgt w' r = tgt w r).
Proof.
  intros G%reach_Good a. destruct (Connect_ret E w req cb caller G) as [[code w'] Hc]. exists code, w'. split; [done|].
  pose proof (Good_ConnectAbilityLocked _ _ _ _ _ _ _ G Hc) as G'.
  destruct (Connect_spec _ _ _ _ _ _ _ G Hc) as (b & loaded & w1 & Hg & G1 & _ & Hcase).
  unfold a. rewrite Hg. cbn. destruct (Good_GetOrCreate E _ _ _ _ _ _ _ G Hg) as (_ & _ & Hcs & Hcm & _).
  assert (∀ o r, opened w o r → opened w1 o r ∧ tgt w1 r = tgt w r) as H1.
  { intros o r. unfold opened, tgt. by rewrite Hcm, Hcs. }
  assert (∃ r, opened w' (cb_object cb) r ∧ tgt w' r = Some b) as (r & Hr & Ht).
  { destruct Hcase as [(_ & -> & x & ? & ?)|(r & w2 & O & G2 & Q)]; [by exists x|]. exists r. split.
    - apply (opened_frame _ _ _ _ (qu_frame _ _ Q)), (opened_opens _ _ _ _ _ _ _ _ O). by right.
    - rewrite (same_targets_quiet _ _ Q). destruct (op_conns _ _ _ _ _ _ O) as (c & Hcc & _ & Htt & _).
      unfold tgt. rewrite Hcc, lookup_insert_eq. cbn. by rewrite Htt. }
  split.
  - exists r. split_and!; [done..|]. intros r' ? ?. eapply (ci_one _ _ _ (proj1 G')); done.
  - intros o x Hx. destruct (H1 o x Hx) as [Hx1 Ht1]. destruct Hcase as [(_ & -> & _)|(r2 & w2 & O & G2 & Q)]; [done|].
    destruct (opens_basics _ _ _ _ _ _ _ G1 O) as (c & _ & _ & _ & _ & Hcx & Hold & _). split.
    + apply (opened_frame _ _ _ _ (qu_frame _ _ Q)), (opened_opens _ _ _ _ _ _ _ _ O). by left.
    + rewrite (same_targets_quiet _ _ Q), <-Ht1. unfold tgt. by rewrite Hcx by by eapply Hold.
Qed.

Lemma connect_once_witness :
  ∃ code w', ConnectAbilityLocked demo_env (ran two_clients) music cb1 client1 = Ret (code, w') ∧
    (∃ r, opened w' 101 r ∧ tgt w' r = Some 0%Z ∧ ∀ r', opened w' 101 r' → tgt w' r' = Some 0%Z → r' = r) ∧
    (∀ o r, opened (ran two_clients) o r → opened w' o r ∧ tgt w' r = tgt (ran two_clients) r).
Proof. exact (connect_once demo_env (ran two_clients) music cb1 client1 reach_two_clients). Defined.

(** *** The death of a client *)

Section Death.
Context (E : SvcEnv).

Lemma ClearCallBacks_map w o w' : ClearCallBacks w o = Some w' → connectMap_ w' = connectMap_ w.
Proof.
  unfold ClearCallBacks. cbn. destruct (connectMap_ w !! o) as [l|]; [|done]. intros [= <-].
  set (w1 := w <| windowExtensionMap_ ::= _ |>). transitivity (connectMap_ w1); [|done]. clearbody w1.
  revert w1. induction l as [|r l IH]; intros w1; cbn; [done|]. by rewrite IH.
Qed.
End Death.

(** C33: the death of a client ends every connection of its callback that its service does
    not have to hear of: what stays under the callback is disconnecting, waiting for its
    service, and the other connections have left the books. *)
Theorem client_death E w o self :
  reach E w → ∀ r, opened (HandleCallBackDiedTask E w o self) o r →
    is_phase (HandleCallBackDiedTask E w o self) DISCONNECTING r = true ∧ opened w o r.
Proof.
  intros G%reach_Good r. unfold HandleCallBackDiedTask.
  destruct (ClearCallBacks w o) as [w1|] eqn:Hc.
  2:{ intros (l & Hl & _). unfold ClearCallBacks in Hc. cbn in *. by rewrite Hl in Hc. }
  pose proof (ClearCallBacks_map _ _ _ Hc) as Hm. eapply Good_ClearCallBacks in Hc as G1; [|done].
  unfold DisconnectAbilityLocked. destruct (GetConnectRecordListFromMap w1 o) as [|x l] eqn:Hl.
  { intros (l & Hl' & Hr). unfold GetConnectRecordListFromMap in Hl. cbn in Hl'. rewrite Hl' in Hl. cbn in Hl. subst l.
    by apply not_elem_of_nil in Hr. }
  assert (connectMap_ w1 !! o = Some (x :: l)) as Hxl.
  { unfold GetConnectRecordListFromMap in Hl. destruct (connectMap_ w1 !! o); cbn in Hl; by subst. }
  destruct (disconnect_loop _ _ _ _ _ _ _ _) as [[res D] w2] eqn:Hd. cbn [snd].
  assert (Closing E [] w1) as C1 by (split; [done|]; by intros y ?%not_elem_of_nil).
  pose proof (disconnect_loop_Closing _ _ _ _ _ _ _ _ _ _ _ C1 Hd) as C2.
  eapply disconnect_loop_died in Hd as (_ & Hm2 & _ & _ & Hall); [|by eapply ci_lists; [apply G1|]| |done|done].
  - intros [Ho Hn]%(opened_RemoveAll E _ _ _ _ C2). destruct Ho as (l' & Hl' & Hr). rewrite Hm2, Hxl in Hl'.
    injection Hl' as <-. split.
    + destruct (Hall _ Hr) as [?|Hp]; [done|]. unfold is_phase, phase_of in *. by rewrite RemoveAll_conns.
    + exists (x :: l). by rewrite <-Hm.
  - apply Forall_forall. intros y Hy. destruct (ci_open _ _ _ (proj1 G1) o y) as (c & ? & _); [by exists (x :: l)|by eexists].
Qed.

(** The only client of a service dies: its connection waits for the service. *)
Definition one_client : list SvcOp :=
  [OConnect music cb1 client1; OAttach 0 700; OTransition 0 INACTIVE; OConnectDone 0 (Some 77%Z)].

Lemma reach_one_client : reach demo_env (ran one_client).
Proof. apply reach_ran; [reflexivity|eexists; vm_compute; reflexivity]. Qed.

Lemma client_death_witness :
  is_phase (HandleCallBackDiedTask demo_env (ran one_client) 101 1) DISCONNECTING 1%positive = true
  ∧ opened (ran one_client) 101 1%positive.
Proof.
  apply (client_death demo_env (ran one_client) 101 1 reach_one_client).
  exists [1%positive]. split; [vm_compute; reflexivity|left].
Defined.

(** *** The last connection of a service *)

Section Last.
Context (E : SvcEnv).

Lemma CompleteDisconnect_rest w r code d1 d2 :
  let w' := CompleteDisconnect w r code d1 d2 in
  services w' = services w ∧ serviceMap_ w' = serviceMap_ w.
Proof.
  cbn zeta. unfold CompleteDisconnect. cbn zeta. set (w1 := if (code =? ERR_OK)%Z then _ else w).
  assert (services w1 = services w ∧ serviceMap_ w1 = serviceMap_ w) as H by (unfold w1; by destruct (code =? ERR_OK)%Z).
  destruct (conns w1 !! r) as [c|]; [|done]. by destruct (connCallback_ c).
Qed.

Lemma ScheduleDone_told w r c cb :
  is_phase w DISCONNECTING r = true → conns w !! r = Some c → connCallback_ c = Some cb →
  DisconnectDone r cb ERR_OK ∈ told (Conn_ScheduleDisconnectAbilityDone w r).
Proof.
  intros Hp Hc Hcb. unfold Conn_ScheduleDisconnectAbilityDone. rewrite Hp. unfold CompleteDisconnect. cbn.
  unfold SetConnectState, set_conn. cbn. rewrite lookup_alter_eq, Hc. cbn. rewrite Hcb. cbn.
  apply elem_of_app. right. left.
Qed.

Lemma ScheduleDone_rest w r :
  let w' := Conn_ScheduleDisconnectAbilityDone w r in
  services w' = services w ∧ serviceMap_ w' = serviceMap_ w.
Proof.
  cbn zeta. unfold Conn_ScheduleDisconnectAbilityDone. destruct (negb _); [done|]. cbn zeta.
  match goal with |- context [CompleteDisconnect ?x r ?c ?d ?e] => exact (CompleteDisconnect_rest x r c d e) end.
Qed.

(** The record the report is for. *)
Lemma last_record w a s r :
  services w !! a = Some s → connRecordList_ s = [r] → in_service_map w a = true →
  is_phase w DISCONNECTING r = true →
  GetExtensionByTokenFromServiceMap w a ≫= (λ a, GetDisconnectingRecord w a) = Some r.
Proof.
  intros Hs Hl Hin Hp. unfold GetExtensionByTokenFromServiceMap, GetDisconnectingRecord. rewrite Hin. cbn.
  unfold conn_list. rewrite Hs. cbn. rewrite Hl. cbn. by rewrite Hp.
Qed.

(** The service when its last connection is taken out of its list. *)
Lemma removed_last w a r s :
  services w !! a = Some s → connRecordList_ s = [r] → in_service_map w a = true →
  let w1 := RemoveConnectRecordFromList (Conn_ScheduleDisconnectAbilityDone w r) a r in
  services w1 !! a = Some (s <| connRecordList_ := [] |> <| isConnected := false |>)
  ∧ in_service_map w1 a = true ∧ conn_list w1 a = [].
Proof.
  intros Hs Hl Hin w1. destruct (ScheduleDone_rest w r) as [Hsv Hsm].
  assert (services w1 !! a = Some (s <| connRecordList_ := [] |> <| isConnected := false |>)) as Hs1.
  { assert (filter (λ x, x ≠ r) [r] = []) as Hf by (by rewrite filter_cons_False; [|intros []]).
    unfold w1, RemoveConnectRecordFromList, set_service. cbn -[filter]. rewrite Hsv, lookup_alter_eq, Hs.
    cbn -[filter]. rewrite Hl, Hf. unfold assign. cbn -[filter]. by rewrite Hl, Hf. }
  split_and!; [done| |unfold conn_list; by rewrite Hs1].
  unfold in_service_map, w1 in *. cbn. by rewrite Hsm.
Qed.

Lemma remove_map_out w r :
  let w' := RemoveConnectionRecordFromMap w r in
  sent w' = sent w ∧ terminatingExtensionList_ w' = terminatingExtensionList_ w.
Proof. cbn. unfold RemoveConnectionRecordFromMap. destruct (find_if _ _) as [[o l]|]; [destruct (filter _ l)|]; done. Qed.

(** A service in the map that is told to terminate. *)
Lemma TerminateRecord_spec w a s :
  services w !! a = Some s → in_service_map w a = true →
  let w' := TerminateRecord E w a in
  is_state w' a TERMINATING = true ∧ a ∈ terminatingExtensionList_ w' ∧ serviceMap_ w' !! moved_key E s = None
  ∧ (scheduler_ s = true → ScheduleTerminate a ∈ sent w').
Proof.
  intros Hs Hin. unfold TerminateRecord. rewrite Hin. cbn [negb andb]. unfold Terminate, MoveToTerminatingMap. rewrite Hs.
  cbn zeta. match goal with |- context [CacheRemove ?x ?y ?z] => generalize (CacheRemove x y z) as c; intros c end.
  cbn. rewrite Hs. cbn. set (b := want_debug (want_ s)). unfold schedule, is_state, send.
  destruct b, (scheduler_ s) eqn:Hsc; cbn; rewrite ?lookup_alter_eq, ?Hs; cbn; rewrite ?Hsc; cbn; rewrite ?lookup_alter_eq, ?Hs; cbn;
    split_and!; try apply elem_of_app; try (right; left); try apply lookup_delete_eq; try done;
    intros _; apply elem_of_app; right; left.
Qed.
End Last.

(** C32: when an active service of the service map, which was never started, is not the
    scene board and is not of a cached type, reports the end of its last connection, and that
    connection waits for it, the report is accepted: the client, unless its callback was
    cleared because it had died, is told with its own callback, the connection
    leaves the books, and the service leaves the service map and is told to terminate.
    (A service that another one has displaced from the map is refused:
    [window_never_disconnected].) *)
Theorem last_disconnect E w a s r c :
  reach E w → services w !! a = Some s → connRecordList_ s = [r] → startId_ s = 0%Z → IsSceneBoard s = false →
  IsCacheExtensionType E (svc_extensionType (info s)) = false →
  in_service_map w a = true → is_state w a ACTIVE = true →
  conns w !! r = Some c → phase_ c = DISCONNECTING →
  ∃ w', ScheduleDisconnectAbilityDoneLocked E w a = Ret (ERR_OK, w')
  ∧ (∀ cb, connCallback_ c = Some cb → DisconnectDone r cb ERR_OK ∈ told w')
  ∧ conn_list w' a = [] ∧ (∀ o, ¬ opened w' o r)
  ∧ is_state w' a TERMINATING = true ∧ a ∈ terminatingExtensionList_ w' ∧ serviceMap_ w' !! moved_key E s = None
  ∧ (scheduler_ s = true → ScheduleTerminate a ∈ sent w').
Proof.
  intros G%reach_Good Hs Hl Hst Hsb Hct Hin Hact Hc Hph. unfold ScheduleDisconnectAbilityDoneLocked.
  assert (is_phase w DISCONNECTING r = true) as Hp.
  { apply bool_decide_eq_true. unfold phase_of. rewrite Hc. cbn. by rewrite Hph. }
  assert (tgt w r = Some a) as Ht.
  { apply (ci_service _ _ _ (proj1 G)). unfold conn_list. rewrite Hs. cbn. rewrite Hl. left. }
  rewrite (last_record w a s r) by done. rewrite Hact. cbn [negb]. cbn zeta.
  pose proof (disconnect_done_ended E w a r G Ht Hp) as C.
  pose proof (λ cb, ScheduleDone_told w r c cb Hp Hc) as Htold.
  destruct (removed_last w a r s Hs Hl Hin) as (Hs1 & Hin1 & Hl1).
  set (w1 := RemoveConnectRecordFromList _ a r) in *.
  unfold IsConnectListEmpty, start_id, TerminateOrCacheAbility. rewrite Hl1, Hs1. cbn. rewrite Hst. cbn.
  assert (∀ x y, IsSceneBoard (s <| connRecordList_ := x |> <| isConnected := y |>) = false) as -> by done.
  rewrite Hct. eexists. split; [done|].
  destruct (TerminateRecord_spec E w1 a _ Hs1 Hin1) as (T1 & T2 & T3 & T4).
  pose proof (frame_TerminateRecord E w1 a) as F. pose proof (Good_TerminateRecord E [r] w1 a (proj1 C)) as G2.
  destruct (remove_map_rest (TerminateRecord E w1 a) r) as (R1 & R2 & _ & R4 & _ & R6 & _).
  destruct (remove_map_out (TerminateRecord E w1 a) r) as [O1 O2].
  split_and!.
  - intros cb Hcb. rewrite R4. by apply (fr_told _ _ F), Htold.
  - unfold conn_list. rewrite R2. change (conn_list (TerminateRecord E w1 a) a = []). by rewrite (fr_list _ _ F).
  - intros o. rewrite (opened_remove E [r]) by apply G2. by intros [_ ?].
  - unfold is_state. by rewrite R2.
  - by rewrite O2.
  - by rewrite R6.
  - rewrite O1. exact T4.
Qed.

Lemma last_disconnect_witness :
  let w := ran (one_client ++ [ODisconnect 101 11 1]) in
  ∃ w', ScheduleDisconnectAbilityDoneLocked demo_env w 0 = Ret (ERR_OK, w')
    ∧ DisconnectDone 1%positive cb1 ERR_OK ∈ told w' ∧ is_state w' 0 TERMINATING = true.
Proof.
  intros w.
  assert (reach demo_env w) as Hw by (apply reach_ran; [reflexivity|eexists; vm_compute; reflexivity]).
  destruct (services w !! 0%Z) as [s|] eqn:Hs; [|vm_compute in Hs; discriminate].
  destruct (conns w !! 1%positive) as [c|] eqn:Hc; [|vm_compute in Hc; discriminate].
  destruct (last_disconnect demo_env w 0 s 1%positive c Hw Hs) as (w' & Hd & Ht & _ & _ & H & _);
    [..|exists w'; split; [exact Hd|split; [|exact H]]].
  all: try (vm_compute in Hs; injection Hs as <-; reflexivity).
  all: try (vm_compute in Hc; injection Hc as <-; reflexivity).
  all: try (vm_compute; reflexivity).
  apply Ht. vm_compute in Hc. injection Hc as <-. reflexivity.
Defined.

(** ** Where the code does not do what it means to *)

(** A completion that waits in the queue runs after the service was stopped: the client is
    told that it is disconnected and then that it is connected, the service is active again
    and its own report that it has ended is refused. *)
Example late_completion :
  let w := ran (one_client ++ [OConnect music cb2 client2; OStop music; OCompleteConnect 2%positive; OTransition 0 INITIAL]) in
  told w = [ConnectDone 1%positive cb1 77 0; DisconnectDone 1%positive cb1 (-1);
            DisconnectDone 2%positive cb2 (-1); ConnectDone 2%positive cb2 77 0]
  ∧ map_to_list (connectMap_ w) = [] ∧ is_state w 0 ACTIVE = true ∧ AppTerminateAbility 0 ∉ sent w.
Proof. vm_compute. split_and!; try reflexivity. intros H. repeat (apply elem_of_cons in H as [H|H]; [discriminate|]). by apply not_elem_of_nil in H. Qed.

(** A window extension is not reused: its second connection takes the place of the first
    one in the service map, and the first service's report that it is disconnected is
    refused. Its client is never told. *)
Definition overlay : ServiceRequest := demo_req "com.overlay" "Overlay" EXT_WINDOW.

Example window_never_disconnected :
  let w := ran [OConnect overlay cb1 client1; OAttach 0 700; OTransition 0 INACTIVE; OConnectDone 0 (Some 77%Z);
                OConnect overlay cb2 client2; ODisconnect 101 11 1] in
  ScheduleDisconnectAbilityDoneLocked demo_env w 0 = Ret (CONNECTION_NOT_EXIST, w)
  ∧ is_phase w DISCONNECTING 1%positive = true ∧ connectMap_ w !! 101%Z = Some [1%positive].
Proof. vm_compute. done. Qed.

(** A report that fails leaves a service that was never loaded: later clients wait for it. *)
Definition voice : ServiceRequest := demo_req XIAOYI_BUNDLE_NAME "Voice" EXT_SERVICE.

Example never_loaded :
  let w := ran [OConnect voice cb1 client1; OConnect voice cb2 client2] in
  (∃ w1, ConnectAbilityLocked demo_env demo_start voice cb1 client1 = Ret (5%Z, w1)
     ∧ ∃ w2, ConnectAbilityLocked demo_env w1 voice cb2 client2 = Ret (ERR_OK, w2))
  ∧ map_to_list (connectMap_ w) = [(101%Z, [1%positive]); (102%Z, [2%positive])] ∧ sent w = [] ∧ tasks w = [].
Proof. split_and!; [eexists; split; [vm_compute; reflexivity|eexists; vm_compute; reflexivity]|vm_compute; reflexivity..]. Qed.

(** The root launcher is restarted without bound: the guard on the number of restarts reads
    a flag that a new record never has. *)
Definition launcher : ServiceRequest := demo_req LAUNCHER_BUNDLE_NAME LAUNCHER_ABILITY_NAME EXT_SERVICE.

Definition is_load (c : ServiceCall) : bool := match c with LoadAbilityCall _ => true | _ => false end.

Example launcher_restarts :
  let w := ran (OStart launcher :: ((λ n, OAbilityDiedTask (Z.of_nat n) answers) <$> seq 0 6)) in
  length (filter (λ c, is_load c = true) (sent w)) = 7
  ∧ restartCount_ <$> services w !! 6%Z = Some (-3)%Z.
Proof. vm_compute. done. Qed.
