(* ===== verification/MissionManager.v ===== *)
(** * The mission list manager: state, records and queries

    [services/abilitymgr/src/mission_list_manager.cpp] and the part of
    [ability_record.cpp] it drives. The manager keeps the missions of a user in lists:
    the launcher list, the lists in use ([currentMissionLists_], the one on top first)
    and the two default lists, for abilities of which no list is in use. Abilities that
    end wait in [terminateAbilityList_], requests that cannot start yet in
    [waitingAbilityQueue_].

    Lists, missions and records are shared objects with an address each. A mission holds
    a weak pointer to its list and a record weak pointers to other records; a list that
    nothing holds any more is dropped at the end of the operation, so that the weak
    pointers to it are null from then on. Operations are computations in a monad of state
    and undefined behaviour. What the manager asks of the application manager, of the
    window manager and of the ability manager service is in [Env].

    Not modelled: starting windows and animations other than the answer that decides
    whether a minimised ability goes to the background at once, snapshots other than
    their notification, launch reasons, system events and statistics, collaborators, exit reasons, and
    requests that the distributed scheduler makes for a result. *)

From stdpp Require Import prelude gmap strings list sorting pretty.
From Stdlib Require Import ZArith Lia.
From S2P Require Import Prelude MissionInfo MissionInfoMgr MissionList.

Local Open Scope Z_scope.

(** ** Constants *)

Definition ERR_OK : Z := 0.
Definition ERR_INVALID_VALUE : Z := 22.
Definition START_ABILITY_WAITING : Z := 2097159.
Definition REMOVE_MISSION_FAILED : Z := 2097166.
Definition INNER_ERR : Z := 2097167.
Definition MOVE_MISSION_FAILED : Z := 2097173.
Definition RESOLVE_CALL_ABILITY_INNER_ERR : Z := 2097188.
Definition ERR_REACH_UPPER_LIMIT : Z := 2097200.
Definition ERR_INVALID_CALLER : Z := 2097205.
Definition GET_TARGET_MISSION_OVER : Z := 200.
Definition SINGLE_MAX_INSTANCE_COUNT : Z := 128.
Definition MAX_INSTANCE_COUNT : Z := 512.
Definition SCENE_FLAG_KEYGUARD : Z := 1.
Definition MAX_APP_CLONE_INDEX : Z := 1000.
Definition SEND_RESULT_CANCELED : Z := -1.
Definition DEFAULT_INVAL_VALUE : Z := -1.
Definition LAUNCHER_BUNDLE_NAME : string := "com.ohos.launcher".
Definition LAUNCHER_RECENT_ABILITY_NAME : string := "com.ohos.launcher.recents.MainAbility".

(** [AbilityCallType] *)
Definition INVALID_TYPE : Z := 0.
Definition CALL_REQUEST_TYPE : Z := 1.

(** [StateUtils::ConvertStateMap] works on numbers; these are the values of the
    enumeration. *)
Definition state_code (s : AbilityState) : Z :=
  match s with
  | INITIAL => 0 | INACTIVE => 1 | ACTIVE => 2 | INACTIVATING => 5 | ACTIVATING => 6
  | TERMINATING => 8 | FOREGROUND => 9 | BACKGROUND => 10 | FOREGROUNDING => 11
  | BACKGROUNDING => 12 | FOREGROUND_FAILED => 13 | BACKGROUND_FAILED => 14
  | FOREGROUND_INVALID_MODE => 15 | FOREGROUND_WINDOW_FREEZED => 16
  | FOREGROUND_DO_NOTHING => 17
  end.

Definition launch_code (m : LaunchMode) : Z :=
  match m with SINGLETON => 0 | STANDARD => 1 | SPECIFIED => 2 end.

(** What runs later: the tasks posted to the handlers, with the record they hold. *)
Inductive Task :=
| TStartWaiting
| TForegroundDone (r : Z)
| TForegroundFailed (r : Z) (state : AbilityState)
| TBackgroundDone (r : Z)
| TBackgroundTimeout (r : Z)
| TTerminateDone (r : Z)
| TTerminateTimeout (r : Z)
| TDelayKill (r : Z)
| TBackToLauncher
| TBackToCaller (r : Z)
| TUninstall (bundleName : string) (uid : Z)
| TFirstFrame (r : Z)
| TLabelUpdated (missionId : Z)
| TAbilityDied (r : Z)
| TResults (r : Z).

#[global] Instance Task_eq_dec : EqDecision Task.
Proof. solve_decision. Defined.

Definition task_records (t : Task) : list Z :=
  match t with
  | TForegroundDone r | TForegroundFailed r _ | TBackgroundDone r | TBackgroundTimeout r
  | TTerminateDone r | TTerminateTimeout r | TDelayKill r | TBackToCaller r | TFirstFrame r
  | TAbilityDied r | TResults r => [r]
  | TStartWaiting | TBackToLauncher | TUninstall _ _ | TLabelUpdated _ => []
  end.

(** What the manager tells others: the application manager, the application of an
    ability, a caller, the listeners of missions. The request to terminate is an event
    also when no application is attached; then it is not [sent]. *)
Inductive Event :=
| AppLoadAbility (r : Z)
| AppMoveToForeground (r : Z)
| AppMoveToBackground (r : Z)
| AppPrepareTerminate (r : Z)
| AppTerminateAbility (r : Z)
| AppAttachTimeOut (r : Z)
| AppStartSpecified (bundleName name : string)
| ScheduleForeground (r : Z)
| ScheduleBackground (r : Z)
| ScheduleTerminate (r : Z) (sent : bool)
| ScheduleSaveAbilityState (r : Z)
| ScheduleCallRequest (r : Z)
| SendResult (caller requestCode resultCode : Z)
| RevokeUri (r : Z)
| RecordExitReason (r : Z)
| MissionCreated (missionId : Z)
| MissionDestroyed (missionId : Z)
| MissionClosed (missionId : Z)
| MissionMovedToFront (missionId : Z)
| MissionSnapshotChanged (missionId : Z)
| MissionLabelUpdated (missionId : Z).

#[global] Instance Event_eq_dec : EqDecision Event.
Proof. solve_decision. Defined.

Inductive ResolveResultType := OK_NO_REMOTE_OBJ | OK_HAS_REMOTE_OBJ | NG_INNER_ERROR.

Section State.
Context {WL : WantLib} {MS : MissionStore}.

(** What the manager reads of a request: its want, the want as a mission keeps it (with
    the element of the ability when it names none), the ability information, and what is
    read of the want otherwise. *)
Record AbilityRequest := mkAbilityRequest {
  req_want : Want;
  req_missionWant : Want;
  req_traits : AbilityTraits;
  req_name : string;
  req_bundleName : string;
  req_moduleName : string;
  req_launchMode : LaunchMode;
  req_applicationBundleName : string;
  req_applicationUid : Z;
  req_continuable : bool;
  req_unclearable : bool;
  req_iconPath : string;
  req_label : string;
  req_uid : Z;
  req_requestCode : Z;
  req_startRecent : bool;
  req_callType : Z;
  req_callerToken : option Z;
  req_specifiedFlag : string;
  req_appIndex : Z;
  req_dlpIndex : Z;
  req_element : string * string;
  req_backToOther : bool;
  req_recovery : bool;
  req_debug : bool;
}.

#[global] Instance AbilityRequest_reconstruct : Reconstruct AbilityRequest :=
  λ r, mkAbilityRequest (req_want r) (req_missionWant r) (req_traits r) (req_name r) (req_bundleName r)
         (req_moduleName r) (req_launchMode r) (req_applicationBundleName r)
         (req_applicationUid r) (req_continuable r) (req_unclearable r) (req_iconPath r)
         (req_label r) (req_uid r) (req_requestCode r) (req_startRecent r) (req_callType r)
         (req_callerToken r) (req_specifiedFlag r) (req_appIndex r) (req_dlpIndex r)
         (req_element r) (req_backToOther r) (req_recovery r) (req_debug r).

Definition req_callToForeground (q : AbilityRequest) : bool :=
  want_GetBoolParam (req_want q) PARAM_RESV_CALL_TO_FOREGROUND false.

(** The answers of the rest of the system during an operation. *)
Record Env := mkEnv {
  env_time : string;
  env_animaEnabled : bool;
  env_animationFlag : bool;
  env_IsBackgroundTaskUid : Z → bool;
  env_GenerateAbilityRequest : Want → option AbilityRequest;
  env_VerifyPrepareTerminate : Z → bool;
  env_PrepareTerminate : Z → bool;
  env_LoadAbility : Z;
  env_maxRestart : Z;
  env_focusAbility : option Z;
  env_Resolve : ResolveResultType;
  env_IsNeedToCallRequest : bool;
  env_currentUserId : Z;
}.

(** [MissionListManager]. [frame_] holds the records that the running operation was
    given, [next_] is the next address. *)
Record Manager := mkManager {
  store_ : MissionList.Store;
  lists_ : gmap Z MissionList;
  launcherList_ : Z;
  defaultStandardList_ : Z;
  defaultSingleList_ : Z;
  currentMissionLists_ : list Z;
  terminateAbilityList_ : list Z;
  waitingAbilityQueue_ : list AbilityRequest;
  infos_ : MissionInfoMgr;
  userId_ : Z;
  isPrepareTerminateEnable_ : bool;
  nextRecordId_ : Z;
  next_ : Z;
  frame_ : list Z;
  tasks_ : list Task;
  events_ : list Event;
}.

#[global] Instance Manager_reconstruct : Reconstruct Manager :=
  λ r, mkManager (store_ r) (lists_ r) (launcherList_ r) (defaultStandardList_ r)
         (defaultSingleList_ r) (currentMissionLists_ r) (terminateAbilityList_ r)
         (waitingAbilityQueue_ r) (infos_ r) (userId_ r) (isPrepareTerminateEnable_ r)
         (nextRecordId_ r) (next_ r) (frame_ r) (tasks_ r) (events_ r).

(** ** Computations *)

Definition M (A : Type) : Type := Manager → outcome (A * Manager).

#[global] Instance M_ret : MRet M := λ A a w, Ret (a, w).
#[global] Instance M_bind : MBind M := λ A B f m w, let* x := m w in f x.1 x.2.
#[global] Instance M_fmap : FMap M := λ A B f m, m ≫= λ a, mret (f a).

Definition gets {A : Type} (f : Manager → A) : M A := λ w, Ret (f w, w).
Definition modify (f : Manager → Manager) : M unit := λ w, Ret (tt, f w).
(** The dereference of a pointer read from the state. *)
Definition load {A : Type} (f : Manager → option A) : M A :=
  λ w, let* a := deref (f w) in Ret (a, w).
Definition lift {A : Type} (f : Manager → outcome A) : M A :=
  λ w, let* a := f w in Ret (a, w).
Definition when (b : bool) (m : M unit) : M unit := if b then m else mret tt.

Fixpoint each {A : Type} (l : list A) (f : A → M unit) : M unit :=
  match l with
  | [] => mret tt
  | x :: l' => f x ;; each l' f
  end.

Definition emit (e : Event) : M unit := modify (λ w, w <| events_ ::= (λ l, l ++ [e]) |>).
Definition SubmitTask (t : Task) : M unit := modify (λ w, w <| tasks_ ::= (λ l, l ++ [t]) |>).
(** [SubmitTask] with [forceSubmit] false: not while a task of the name is pending. *)
Definition SubmitTaskOnce (t : Task) : M unit :=
  pending ← gets (λ w, bool_decide (t ∈ tasks_ w));
  when (negb pending) (SubmitTask t).
Definition CancelTask (t : Task) : M unit :=
  modify (λ w, w <| tasks_ ::= erase_first (λ u, bool_decide (u = t)) |>).

Definition alloc : M Z := λ w, Ret (next_ w, w <| next_ ::= Z.succ |>).

(** *** Records, missions and lists behind pointers *)

Definition the_record (r : Z) : M AbilityRecord := load (λ w, recordHeap (store_ w) !! r).
Definition the_mission (a : Z) : M Mission := load (λ w, missionHeap (store_ w) !! a).
Definition the_list (l : Z) : M MissionList := load (λ w, lists_ w !! l).

Definition upd_record (r : Z) (f : AbilityRecord → AbilityRecord) : M unit :=
  x ← the_record r; modify (λ w, w <| store_ ::= (λ s, set_record s r (f x)) |>).
Definition upd_life (r : Z) (f : AbilityLife → AbilityLife) : M unit :=
  upd_record r (λ x, x <| life_ ::= f |>).
Definition upd_mission (a : Z) (f : Mission → Mission) : M unit :=
  m ← the_mission a; modify (λ w, w <| store_ ::= (λ s, set_mission s a (f m)) |>).
Definition upd_list (l : Z) (f : MissionList → MissionList) : M unit :=
  ml ← the_list l; modify (λ w, w <| lists_ ::= <[l := f ml]> |>).

Definition in_state (s : AbilityState) (x : AbilityRecord) : bool :=
  bool_decide (currentState_ x = s).
Definition IsForeground (x : AbilityRecord) : bool :=
  in_state FOREGROUND x || in_state FOREGROUNDING x.
Definition IsActiveState (x : AbilityRecord) : bool :=
  in_state ACTIVE x || in_state ACTIVATING x || in_state INITIAL x ||
  in_state FOREGROUND x || in_state FOREGROUNDING x.
Definition IsLauncherAbility (x : AbilityRecord) : bool := isLauncherApp (traits_ x).

(** The records that a shared pointer holds; a weak pointer to another one is null. *)
Definition listed_missions (w : Manager) (l : Z) : list (option Z) :=
  match lists_ w !! l with Some ml => missions_ ml | None => [] end.
Definition held_records (w : Manager) : list Z :=
  ((map_to_list (lists_ w)).*2 ≫= λ ml, missions_ ml ≫= λ p,
     option_list (mission_at (store_ w) p ≫= GetAbilityRecord)) ++
  terminateAbilityList_ w ++ (tasks_ w ≫= task_records) ++ frame_ w.
Definition lock (w : Manager) (p : option Z) : option Z :=
  p ≫= λ r, if decide (r ∈ held_records w) then Some r else None.

(** [Mission::GetMissionList]: the locked owner. *)
Definition owner_of (w : Manager) (m : Mission) : option Z :=
  GetMissionList m ≫= λ l, if decide (is_Some (lists_ w !! l)) then Some l else None.

(** ** Queries over the lists *)

(** A loop over lists that returns the first result. *)
Fixpoint first_of {A : Type} (w : Manager) (ls : list Z) (f : MissionList → option A) : option A :=
  match ls with
  | [] => None
  | l :: ls' =>
    match lists_ w !! l ≫= f with
    | Some x => Some x
    | None => first_of w ls' f
    end
  end.

Definition live_lists (w : Manager) : list Z :=
  currentMissionLists_ w ++ [defaultSingleList_ w; defaultStandardList_ w].

Definition GetMissionById (w : Manager) (missionId : Z) : option Z :=
  first_of w (currentMissionLists_ w ++
      [defaultSingleList_ w; launcherList_ w; defaultStandardList_ w])
    (λ ml, MissionList.GetMissionById (store_ w) ml missionId).

Definition GetAliveAbilityRecordByToken (w : Manager) (token : option Z) : option Z :=
  token ≫= λ t, first_of w (live_lists w) (λ ml, MissionList.GetAbilityRecordByToken (store_ w) ml t).

Definition has_token (w : Manager) (token r : Z) : bool :=
  match recordHeap (store_ w) !! r with Some x => token_ x =? token | None => false end.

Definition GetAbilityFromTerminateListInner (w : Manager) (token : option Z) : option Z :=
  token ≫= λ t, find_if (has_token w t) (terminateAbilityList_ w).

Definition GetAbilityRecordByTokenInner (w : Manager) (token : option Z) : option Z :=
  match GetAbilityFromTerminateListInner w token with
  | Some r => Some r
  | None => GetAliveAbilityRecordByToken w token
  end.

(** [Token::GetAbilityRecordByToken]: the record whose token it is, if it still exists. *)
Definition Token_GetAbilityRecord (w : Manager) (token : option Z) : option Z :=
  token ≫= λ t, find_if (has_token w t) (held_records w).

Fixpoint record_by_id_in (w : Manager) (ls : list Z) (abilityRecordId : Z) : outcome (option Z) :=
  match ls with
  | [] => Ret None
  | l :: ls' =>
    match lists_ w !! l with
    | None => Undef
    | Some ml =>
      let* r := MissionList.GetAbilityRecordById (store_ w) ml abilityRecordId in
      match r with Some _ => Ret r | None => record_by_id_in w ls' abilityRecordId end
    end
  end.

Definition GetAbilityRecordById (w : Manager) (abilityRecordId : Z) : outcome (option Z) :=
  record_by_id_in w (live_lists w) abilityRecordId.

Definition GetMissionIdByAbilityTokenInner (w : Manager) (token : option Z) : Z :=
  match GetAbilityRecordByTokenInner w token ≫= λ r, recordHeap (store_ w) !! r with
  | None => -1
  | Some x =>
    match GetMissionById w (recordMissionId_ (life_ x)) ≫= λ a, missionHeap (store_ w) !! a with
    | None => -1
    | Some m => MissionList.GetMissionId m
    end
  end.

Definition GetAbilityTokenByMissionId (w : Manager) (missionId : Z) : option Z :=
  first_of w (live_lists w)
    (λ ml, MissionList.GetAbilityTokenByMissionId (store_ w) ml missionId).

Definition GetCurrentTopAbilityLocked (w : Manager) : option Z :=
  match currentMissionLists_ w with
  | [] => None
  | l :: _ => lists_ w !! l ≫= GetTopAbility (store_ w)
  end.

(** The lists in use, then the standard and the single default list. *)
Definition counted_lists (w : Manager) : list MissionList :=
  omap (λ l, lists_ w !! l)
    (currentMissionLists_ w ++ [defaultStandardList_ w; defaultSingleList_ w]).

Definition FindEarliestMission (w : Manager) : option Z :=
  fold_left (λ t ml, MissionList.FindEarliestMission (store_ w) ml t) (counted_lists w) None.

Definition GetMissionCount (w : Manager) : Z :=
  fold_left (λ n ml, i32 (n + MissionList.GetMissionCount ml)) (counted_lists w) 0.

Definition IsReachToLimitLocked (w : Manager) : bool := MAX_INSTANCE_COUNT <=? GetMissionCount w.

(** The loop leaves at the first list that reaches the limit. *)
Fixpoint single_limit (w : Manager) (uid : Z) (mls : list MissionList) (count : Z) : bool :=
  match mls with
  | [] => false
  | ml :: mls' =>
    let count := i32 (count + GetMissionCountByUid (store_ w) ml uid) in
    if SINGLE_MAX_INSTANCE_COUNT <=? count then true else single_limit w uid mls' count
  end.

Definition IsReachToSingleLimitLocked (w : Manager) (uid : Z) : bool :=
  single_limit w uid (counted_lists w) 0.

Definition IsAppLastAbility (w : Manager) (r : Z) : bool :=
  match recordHeap (store_ w) !! r with
  | None => false
  | Some x =>
    let abilityList := fold_left
      (λ acc ml, GetActiveAbilityList (store_ w) ml (applicationUid x) acc NO_PID)
      (omap (λ l, lists_ w !! l) (currentMissionLists_ w)) [] in
    bool_decide (length abilityList = 1%nat)
  end.

Definition GetMissionBySpecifiedFlag (w : Manager) (abilityName bundleName flag : string)
    : option Z :=
  first_of w (currentMissionLists_ w ++
      [defaultSingleList_ w; launcherList_ w; defaultStandardList_ w])
    (λ ml, MissionList.GetMissionBySpecifiedFlag (store_ w) ml abilityName bundleName flag).

(** [AbilityUtil::ConvertBundleNameSingleton] *)
Definition GetMissionName (q : AbilityRequest) : string :=
  if req_appIndex q =? 0
  then "#" +:+ req_bundleName q +:+ ":" +:+ req_moduleName q +:+ ":" +:+ req_name q
  else "#" +:+ req_bundleName q +:+ ":" +:+ pretty (req_appIndex q) +:+ ":" +:+
       req_moduleName q +:+ ":" +:+ req_name q.

Definition in_launcher {A : Type} (w : Manager) (q : AbilityRequest) (f : MissionList → option A)
    : option A :=
  if isLauncherApp (req_traits q) then lists_ w !! launcherList_ w ≫= f else None.

Definition GetReusedSpecifiedMission (w : Manager) (q : AbilityRequest) : option Z :=
  let f ml := GetSpecifiedMission (store_ w) ml (GetMissionName q) (req_specifiedFlag q) in
  match in_launcher w q f with
  | Some a => Some a
  | None => first_of w (currentMissionLists_ w ++ [defaultStandardList_ w]) f
  end.

(** The most recent over the lists, by the comparison of strings. *)
Fixpoint recent_of (w : Manager) (mls : list MissionList) (missionName missionTime : string)
    (reused : option Z) : option Z :=
  match mls with
  | [] => reused
  | ml :: mls' =>
    let mission := GetRecentStandardMission (store_ w) ml missionName in
    match mission_at (store_ w) mission with
    | Some m =>
      if String.leb missionTime (GetMissionTime m)
      then recent_of w mls' missionName (GetMissionTime m) mission
      else recent_of w mls' missionName missionTime reused
    | None => recent_of w mls' missionName missionTime reused
    end
  end.

Definition GetReusedStandardMission (w : Manager) (q : AbilityRequest) : option Z :=
  if negb (req_startRecent q) then None
  else
    match in_launcher w q (λ ml, GetRecentStandardMission (store_ w) ml (GetMissionName q)) with
    | Some a => Some a
    | None =>
      recent_of w (omap (λ l, lists_ w !! l) (currentMissionLists_ w ++ [defaultStandardList_ w]))
        (GetMissionName q) "0" None
    end.

Definition GetReusedMission (w : Manager) (q : AbilityRequest) : option Z :=
  match req_launchMode q with
  | SPECIFIED => GetReusedSpecifiedMission w q
  | STANDARD => GetReusedStandardMission w q
  | SINGLETON =>
    let f ml := GetSingletonMissionByName (store_ w) ml (GetMissionName q) in
    match in_launcher w q f with
    | Some a => Some a
    | None => first_of w (currentMissionLists_ w ++ [defaultSingleList_ w]) f
    end
  end.

Definition CheckSingleLimit (w : Manager) (q : AbilityRequest) : bool :=
  match GetReusedMission w q with
  | Some _ => false
  | None => IsReachToSingleLimitLocked w (req_uid q)
  end.
End State.
