(* ===== verification/MissionLifecycle.v ===== *)
(** * The life of an ability under the mission list manager

    The operations of [ability_record.cpp] that the mission list manager calls on a
    record: what the application is sent ([lifecycle_deal.cpp]), loading, going to the
    foreground and to the background, terminating, the callers and their results,
    attaching and death. The manager and the record are those of [MissionManager]; what is
    asked of the application manager and of the application is an [Event]. *)

From stdpp Require Import prelude gmap strings list sorting pretty.
From Stdlib Require Import ZArith Lia.
From S2P Require Import Prelude MissionInfo MissionInfoMgr MissionList MissionManager.

Local Open Scope Z_scope.

Section Lifecycle.
Context {WL : WantLib} {MS : MissionStore} (E : Env).

(** ** The state of a record *)

(** [SetAbilityStateInner] without a collaborator: the state is told to the mission
    information. *)
Definition SetAbilityStateInner (r : Z) (state : AbilityState) : M unit :=
  upd_record r (λ x, x <| currentState_ := state |>) ;;
  when (bool_decide (state = BACKGROUND))
    (upd_life r (λ f, f <| isAbilityForegrounding_ := false |>)) ;;
  x ← the_record r;
  modify (λ w, w <| infos_ ::= (λ i,
    SetMissionAbilityState i (recordMissionId_ (life_ x)) (state_code state)) |>).

Definition SetRestarting (r : Z) (isRestart : bool) : M unit :=
  x ← the_record r;
  upd_life r (λ f, f <| isRestarting_ := isRestart |>) ;;
  when ((isLauncherRoot_ x && IsLauncherAbility x) || isKeepAlive (traits_ x))
    (upd_life r (λ f, f <| restartCount_ := if isRestart then restartCount_ f - 1
                                           else restartMax_ f |>)).

Definition SetAbilityState (r : Z) (state : AbilityState) : M unit :=
  SetAbilityStateInner r state ;;
  when (bool_decide (state = FOREGROUND) || bool_decide (state = ACTIVE) ||
        bool_decide (state = BACKGROUND)) (SetRestarting r false).

Definition SetPendingState (r : Z) (state : AbilityState) : M unit :=
  upd_life r (λ f, f <| pendingState_ := state |>).

Definition SetAbilityForegroundingFlag (r : Z) : M unit :=
  upd_life r (λ f, f <| isAbilityForegrounding_ := true |>).

(** ** What the application is sent *)

(** The calls of [LifecycleDeal] do nothing without a scheduler. *)
Definition deal (r : Z) (e : Event) : M unit :=
  x ← the_record r; when (dealScheduler_ (life_ x)) (emit e).

Definition ForegroundNew (r : Z) : M unit := deal r (ScheduleForeground r).
Definition BackgroundNew (r : Z) : M unit := deal r (ScheduleBackground r).
Definition SaveAbilityState (r : Z) : M unit := deal r (ScheduleSaveAbilityState r).
Definition LifecycleDeal_Terminate (r : Z) : M unit :=
  x ← the_record r; emit (ScheduleTerminate r (dealScheduler_ (life_ x))).
Definition PrepareTerminateAbility (r : Z) : M bool :=
  x ← the_record r; mret (dealScheduler_ (life_ x) && env_PrepareTerminate E r).

(** ** Loading and the foreground *)

Definition CanRestartRootLauncher (x : AbilityRecord) : bool :=
  negb (isLauncherRoot_ x && isRestarting_ (life_ x) && IsLauncherAbility x &&
        (restartCount_ (life_ x) <? 0)).

(** [LoadAbility]; [LoadUIAbility] marks the record as loading and starts the timer. *)
Definition LoadAbility (r : Z) : M Z :=
  x ← the_record r;
  when (negb (isDebug_ (life_ x)) && negb (bool_decide (abilityType (traits_ x) = DATA)))
    (upd_life r (λ f, f <| isLoading_ := true |>)) ;;
  if bool_decide (applicationName (traits_ x) = "") then mret ERR_INVALID_VALUE
  else if negb (CanRestartRootLauncher x) then mret ERR_INVALID_VALUE
  else emit (AppLoadAbility r) ;; mret (env_LoadAbility E).

Definition ForegroundAbility (r : Z) : M unit :=
  SetAbilityStateInner r FOREGROUNDING ;; ForegroundNew r.

(** [ProcessForegroundAbility(tokenId, sceneFlag)] *)
Definition ProcessForegroundAbility (r : Z) : M unit :=
  x ← the_record r;
  if isReady_ (life_ x) then
    if in_state FOREGROUND x then ForegroundAbility r
    else SetAbilityStateInner r FOREGROUNDING ;; emit (AppMoveToForeground r)
  else LoadAbility r ;; mret tt.

(** [ProcessForegroundAbility(callerAbility, needExit, sceneFlag)] *)
Definition ProcessForegroundAbility_from (r : Z) : M unit :=
  x ← the_record r;
  if in_state FOREGROUND x then ForegroundAbility r else emit (AppMoveToForeground r).

(** [ProcessForegroundAbility(isRecent, abilityRequest, startOptions, callerAbility, sceneFlag)] *)
Definition ProcessForegroundAbility_request (r : Z) : M unit :=
  x ← the_record r;
  if isReady_ (life_ x) && negb (isRestartApp_ x) then
    if in_state FOREGROUND x then ForegroundAbility r else emit (AppMoveToForeground r)
  else LoadAbility r ;; mret tt.

(** ** The background and the end *)

Definition BackgroundAbility (r : Z) : M unit :=
  x ← the_record r;
  when (negb (isDebug_ (life_ x))) (SubmitTaskOnce (TBackgroundTimeout r)) ;;
  when (negb (isTerminating_ (life_ x)) || isRestarting_ (life_ x)) (SaveAbilityState r) ;;
  SetAbilityStateInner r BACKGROUNDING ;;
  BackgroundNew r.

(** [Terminate(task)], the task being the one that gives up waiting. *)
Definition Terminate (r : Z) : M unit :=
  x ← the_record r;
  when (negb (isDebug_ (life_ x))) (SubmitTask (TTerminateTimeout r)) ;;
  SetAbilityStateInner r TERMINATING ;;
  LifecycleDeal_Terminate r.

(** ** Callers and results *)

(** [AddCallerRecord] for a caller that is an ability. *)
Definition AddCallerRecord (r : Z) (callerToken : option Z) (requestCode : Z) : M unit :=
  caller ← gets (λ w, Token_GetAbilityRecord w callerToken);
  match caller with
  | None => mret tt
  | Some c =>
    w ← gets Datatypes.id;
    upd_record r (λ x, x <| callerList_ ::= (λ l,
      erase_first (λ p, bool_decide (lock w p.1 = Some c)) l ++ [(Some c, requestCode)]) |>)
  end.

Definition GetCallerRecord (w : Manager) (x : AbilityRecord) : option Z :=
  last (callerList_ x) ≫= λ p, lock w p.1.

(** [SaveResult] for a caller that is an ability. *)
Definition SaveResult (resultCode : Z) (caller : option Z * Z) : M unit :=
  c ← gets (λ w, lock w caller.1);
  match c with
  | None => mret tt
  | Some c => upd_life c (λ f, f <| result_ := Some (caller.2, resultCode) |>)
  end.

(** The last caller gets the code, the others that they were cancelled. *)
Definition SaveResultToCallers (r : Z) (resultCode : Z) : M unit :=
  x ← the_record r;
  each (removelast (callerList_ x)) (SaveResult SEND_RESULT_CANCELED) ;;
  each (option_list (last (callerList_ x))) (SaveResult resultCode).

(** [AbilityRecord::SendResult] *)
Definition Record_SendResult (c : Z) : M unit :=
  x ← the_record c;
  if hasScheduler_ (life_ x) then
    match result_ (life_ x) with
    | None => mret tt
    | Some (requestCode, resultCode) =>
      emit (SendResult c requestCode resultCode) ;;
      upd_life c (λ f, f <| result_ := None |>)
    end
  else mret tt.

Definition SendResultToCaller (caller : option Z * Z) : M unit :=
  c ← gets (λ w, lock w caller.1);
  match c with
  | None => mret tt
  | Some c => Record_SendResult c
  end.

Definition SendResultToCallers (r : Z) : M unit :=
  x ← the_record r; each (callerList_ x) SendResultToCaller.

(** ** Attaching and dying *)

Definition SetScheduler (r : Z) (scheduler : bool) (callingPid : Z) : M unit :=
  if scheduler then
    upd_record r (λ x, x <| pid_ := callingPid |>
      <| life_ ::= (λ f, f <| isReady_ := true |> <| hasScheduler_ := true |>
                           <| dealScheduler_ := true |>) |>)
  else
    upd_record r (λ x, x <| pid_ := 0 |>
      <| life_ ::= (λ f, f <| isReady_ := false |> <| isNewWant_ := false |>
                           <| hasScheduler_ := false |>) |>).

(** [OnSchedulerDied] for the scheduler of the record. The record keeps the scheduler and
    stays ready; nothing is sent to the application any more. *)
Definition OnSchedulerDied (r : Z) : M unit :=
  x ← the_record r;
  if hasScheduler_ (life_ x) then
    emit (RevokeUri r) ;;
    upd_life r (λ f, f <| dealScheduler_ := false |>) ;;
    SubmitTask (TAbilityDied r) ;;
    SubmitTask (TResults r)
  else mret tt.

(** The second task of [OnSchedulerDied]. *)
Definition RunResults (r : Z) : M unit :=
  SaveResultToCallers r (-1) ;; SendResultToCallers r.

Definition SetWant (r : Z) (q : AbilityRequest) : M unit :=
  upd_life r (λ f, f <| wantElement_ := req_element q |>
    <| wantCallToForeground_ := req_callToForeground q |>
    <| wantRecovery_ := req_recovery q |>
    <| isDebug_ := isDebug_ f || req_debug q |>).

Definition CallRequest (r : Z) : M unit :=
  x ← the_record r; when (hasScheduler_ (life_ x)) (emit (ScheduleCallRequest r)).

(** [CreateAbilityRecord] and its [Init]. The address of a record is also that of its
    token. *)
Definition CreateAbilityRecord (q : AbilityRequest) : M Z :=
  r ← alloc;
  i ← gets nextRecordId_;
  modify (λ w, w <| nextRecordId_ ::= Z.succ |> <| store_ ::= (λ s, set_record s r
    (mkAbilityRecord r i (req_name q) (req_bundleName q) (req_moduleName q) ""
       (req_launchMode q) (req_applicationBundleName q) (req_applicationUid q) (req_uid q) 0
       INITIAL "" false [] false false (req_traits q)
       (new_life (env_maxRestart E)
          <| appIndex_ := req_appIndex q |>
          <| isStartedByCall_ := (req_callType q =? CALL_REQUEST_TYPE) |>
          <| wantElement_ := req_element q |>
          <| wantCallToForeground_ := req_callToForeground q |>
          <| wantRecovery_ := req_recovery q |>
          <| isDebug_ := req_debug q |>))) |>) ;;
  mret r.

(** ** Mission information *)

Definition UpdateMissionInfo (info : InnerMissionInfo) : M unit :=
  s ← lift (λ w, MissionInfoMgr.UpdateMissionInfo (infos_ w) info);
  modify (λ w, w <| infos_ := s.2 |>).
Definition AddMissionInfo (info : InnerMissionInfo) : M unit :=
  s ← lift (λ w, MissionInfoMgr.AddMissionInfo (infos_ w) info);
  modify (λ w, w <| infos_ := s.2 |>).
Definition DeleteMissionInfo (missionId : Z) : M unit :=
  modify (λ w, w <| infos_ ::= (λ i, (MissionInfoMgr.DeleteMissionInfo i missionId).2) |>).
Definition GenerateMissionId : M (option Z) :=
  λ w, let g := MissionInfoMgr.GenerateMissionId (infos_ w) in
       Ret (g.1, w <| infos_ := g.2 |>).
Definition GetInnerMissionInfoById (missionId : Z) : M (option InnerMissionInfo) :=
  gets (λ w, (MissionInfoMgr.GetInnerMissionInfoById (infos_ w) missionId).2).

Definition RemoveMissionLocked (missionId : Z) (excludeFromMissions : bool) : M unit :=
  if missionId <=? 0 then mret tt
  else
    DeleteMissionInfo missionId ;;
    when (negb excludeFromMissions) (emit (MissionDestroyed missionId)).

(** The mission goes with its ability: sandboxes, temporary missions and missions that
    are not shown. *)
Definition mission_is_dropped (x : AbilityRecord) : bool :=
  (MAX_APP_CLONE_INDEX <? appIndex_ (life_ x)) || removeMissionAfterTerminate (traits_ x) ||
  excludeFromMissions (traits_ x).

Definition UpdateMissionSnapshot (r : Z) : M unit :=
  x ← the_record r;
  if excludeFromMissions (traits_ x) then mret tt
  else emit (MissionSnapshotChanged (recordMissionId_ (life_ x))).

(** ** Tasks that bring the manager on *)

Definition PostStartWaitingAbility : M unit := SubmitTask TStartWaiting.
Definition DelayedStartLauncher : M unit := SubmitTask TBackToLauncher.
Definition DelayedResumeTimeout (callerAbility : Z) : M unit := SubmitTask (TBackToCaller callerAbility).
Definition DelayCompleteTerminate (r : Z) : M unit := SubmitTask (TDelayKill r).

Definition MoveToBackgroundTask (r : Z) (isClose : bool) : M unit :=
  upd_life r (λ f, f <| isNewWant_ := false |>) ;;
  x ← the_record r;
  when (negb (sceneFlag_ (life_ x) =? SCENE_FLAG_KEYGUARD) &&
        negb (clearMissionFlag_ (life_ x)) && negb (isClose && env_animationFlag E))
    (UpdateMissionSnapshot r) ;;
  BackgroundAbility r.

Definition TerminatePreviousAbility (r : Z) : M unit :=
  x ← the_record r;
  pre ← gets (λ w, lock w (preAbilityRecord_ (life_ x)));
  match pre with
  | None => mret tt
  | Some p =>
    y ← the_record p;
    if negb (isTerminating_ (life_ y)) then mret tt
    else
      upd_life r (λ f, f <| preAbilityRecord_ := None |>) ;;
      y ← the_record p;
      when (in_state FOREGROUND y) (MoveToBackgroundTask p true) ;;
      y ← the_record p;
      when (in_state BACKGROUND y) (Terminate p)
  end.
End Lifecycle.
