(* ===== verification/MissionOps.v ===== *)
(** * The mission list manager: operations

    [mission_list_manager.cpp]: choosing and moving lists, starting, minimising and
    terminating abilities. The completion of the transitions, timeouts and deaths and the
    steps of the whole manager are in [MissionSteps]. *)

From stdpp Require Import prelude gmap strings list sorting pretty.
From Stdlib Require Import ZArith Lia.
From S2P Require Import Prelude MissionInfo MissionInfoMgr MissionList MissionManager MissionLifecycle.

Local Open Scope Z_scope.

Section Ops.
Context {WL : WantLib} {MS : MissionStore} (E : Env).

(** ** Lists *)

(** [std::make_shared<MissionList>()] *)
Definition NewMissionList : M Z :=
  l ← alloc;
  modify (λ w, w <| lists_ ::= <[l := mkMissionList CURRENT []]> |>) ;;
  mret l.

(** [missionList->AddMissionToTop(mission)] *)
Definition AddToTop (l a : Z) : M unit :=
  ml ← the_list l;
  s ← lift (λ w, AddMissionToTop (store_ w) l ml (Some a));
  modify (λ w, w <| store_ := s.1 |> <| lists_ ::= <[l := s.2]> |>).

Definition RemoveFrom (l a : Z) : M unit := upd_list l (λ ml, RemoveMission ml (Some a)).

Definition RemoveByRecord (l r : Z) : M unit :=
  ml ← the_list l;
  ml' ← lift (λ w, RemoveMissionByAbilityRecord (store_ w) ml (Some r));
  modify (λ w, w <| lists_ ::= <[l := ml']> |>).

Definition is_empty (l : Z) : M bool := ml ← the_list l; mret (IsEmpty ml).

(** [RemoveMissionList]: the first occurrence; [currentMissionLists_.remove] takes all. *)
Definition RemoveMissionList (l : Z) : M unit :=
  modify (λ w, w <| currentMissionLists_ ::= erase_first (λ x, bool_decide (x = l)) |>).
Definition RemoveAllOf (l : Z) : M unit :=
  modify (λ w, w <| currentMissionLists_ ::= filter (λ x, x ≠ l) |>).

Definition MoveMissionListToTop (l : Z) : M unit :=
  modify (λ w, if bool_decide (head (currentMissionLists_ w) = Some l) then w
               else w <| currentMissionLists_ ::= (λ ls, l :: filter (λ x, x ≠ l) ls) |>).

(** The default list of a mission. *)
Definition AddToDefault (a : Z) : M unit :=
  m ← the_mission a;
  single ← gets (λ w, IsSingletonAbility (store_ w) m);
  l ← gets (if single : bool then defaultSingleList_ else defaultStandardList_);
  AddToTop l a.

(** The loop [while (!missionList->IsEmpty())]; every turn takes one mission away, so
    that the length of the list is fuel enough. *)
Fixpoint pop_above (fuel : nat) (l mission : Z) : M unit :=
  match fuel with
  | O => mret tt
  | S fuel =>
    ml ← the_list l;
    match GetTopMission ml with
    | None => mret tt
    | Some item =>
      if bool_decide (item = mission) then mret tt
      else RemoveFrom l item ;; AddToDefault item ;; pop_above fuel l mission
    end
  end.

Definition MoveNoneTopMissionToDefaultList (mission : Z) : M unit :=
  m ← the_mission mission;
  l ← gets (λ w, owner_of w m);
  match l with
  | None => mret tt
  | Some l => ml ← the_list l; pop_above (length (missions_ ml)) l mission
  end.

Definition MoveMissionToTargetList (isCallFromLauncher : bool) (target mission : Z) : M unit :=
  m ← the_mission mission;
  missionList ← gets (λ w, owner_of w m);
  launcher ← gets launcherList_;
  single ← gets defaultSingleList_;
  standard ← gets defaultStandardList_;
  match missionList with
  | None => AddToTop target mission
  | Some l =>
    if isCallFromLauncher && bool_decide (target = launcher) then AddToTop target mission
    else if bool_decide (l = single) || bool_decide (l = standard) then
      RemoveFrom l mission ;; AddToTop target mission
    else
      (if bool_decide (target ≠ l) then
         MoveNoneTopMissionToDefaultList mission ;; RemoveFrom l mission
       else when isCallFromLauncher (MoveNoneTopMissionToDefaultList mission)) ;;
      AddToTop target mission ;;
      empty ← is_empty l;
      when empty (RemoveAllOf l)
  end.

(** ** Ending abilities *)

(** The next ability to show after a record has left a list, and whether it can be
    shown: common to [RemoveBackgroundingAbility] and [RemoveTerminatingAbility]. *)
Definition ChooseNextAbility (r l : Z) (setFlag : bool) : M unit :=
  ml ← the_list l;
  top ← gets (λ w, GetTopAbility (store_ w) ml);
  x ← the_record r;
  other ← gets (λ w, lock w (otherMissionStackAbilityRecord_ (life_ x)));
  let needTop := match top with
                 | Some t => Some (t, false)
                 | None => if isNeedBackToOtherMissionStack_ (life_ x)
                           then (λ t, (t, true)) <$> other else None
                 end in
  match needTop with
  | None => mret tt
  | Some (t, fromOther) =>
    when fromOther (upd_life r (λ f, f <| isNeedBackToOtherMissionStack_ := false |>)) ;;
    y ← the_record t;
    root ← gets (λ w, lists_ w !! launcherList_ w ≫= GetLauncherRoot (store_ w));
    let needTop :=
      if bool_decide (wantElement_ (life_ y) = (LAUNCHER_BUNDLE_NAME, LAUNCHER_RECENT_ABILITY_NAME))
      then root else Some t in
    match needTop with
    | None => mret tt
    | Some t =>
      y ← the_record t;
      if negb (IsForeground y) && negb (minimizeReason_ (life_ y)) && isReady_ (life_ y) then
        upd_life r (λ f, f <| nextAbilityRecord_ := Some t |>) ;;
        when setFlag (SetAbilityForegroundingFlag t)
      else mret tt
    end
  end.

Definition RemoveBackgroundingAbility (r : Z) : M unit :=
  x ← the_record r;
  mission ← gets (λ w, GetMissionById w (recordMissionId_ (life_ x)));
  match mission with
  | None => mret tt
  | Some a =>
    m ← the_mission a;
    missionList ← gets (λ w, owner_of w m);
    match missionList with
    | None => mret tt
    | Some l =>
      ml ← the_list l;
      RemoveByRecord l r ;;
      top ← load (λ _, GetTopMission ml);
      AddToDefault top ;;
      empty ← is_empty l;
      when empty (RemoveMissionList l) ;;
      upd_life r (λ f, f <| nextAbilityRecord_ := None |>) ;;
      x ← the_record r;
      when (IsForeground x) (ChooseNextAbility r l false)
    end
  end.

Definition RemoveTerminatingAbility (r : Z) (flag : bool) : M unit :=
  x ← the_record r;
  inTerminate ← gets (λ w, GetAbilityFromTerminateListInner w (Some (token_ x)));
  match inTerminate with
  | Some _ => upd_life r (λ f, f <| nextAbilityRecord_ := None |>)
  | None =>
    mission ← gets (λ w, GetMissionById w (recordMissionId_ (life_ x)));
    match mission with
    | None => mret tt
    | Some a =>
      m ← the_mission a;
      missionList ← gets (λ w, owner_of w m);
      match missionList with
      | None => mret tt
      | Some l =>
        RemoveByRecord l r ;;
        emit (AppPrepareTerminate r) ;;
        modify (λ w, w <| terminateAbilityList_ ::= (λ t, t ++ [r]) |>) ;;
        empty ← is_empty l;
        when empty (RemoveMissionList l) ;;
        upd_life r (λ f, f <| nextAbilityRecord_ := None |>) ;;
        x ← the_record r;
        when (IsForeground x && flag) (ChooseNextAbility r l true)
      end
    end
  end.

Definition TerminateAbilityLocked (r : Z) (flag : bool) : M Z :=
  RemoveTerminatingAbility r flag ;;
  SendResultToCallers r ;;
  x ← the_record r;
  if IsForeground x then
    SetPendingState r BACKGROUND ;;
    x ← the_record r;
    next ← gets (λ w, lock w (nextAbilityRecord_ (life_ x)));
    match next with
    | Some n =>
      upd_life n (λ f, f <| preAbilityRecord_ := Some r |>) ;;
      SetPendingState n FOREGROUND ;;
      ProcessForegroundAbility_from n
    | None => MoveToBackgroundTask E r true
    end ;;
    mret ERR_OK
  else
    when (in_state BACKGROUND x) (Terminate r) ;;
    mret ERR_OK.

Definition TerminateAbilityInner (r : Z) (resultCode : Z) (flag : bool) : M Z :=
  x ← the_record r;
  if isTerminating_ (life_ x) && negb (IsForeground x) then mret ERR_OK
  else
    let flag := if isTerminating_ (life_ x) && IsForeground x then false else flag in
    known ← gets (λ w, GetAbilityRecordByTokenInner w (Some (token_ x)));
    match known with
    | None => mret ERR_OK
    | Some _ =>
      upd_life r (λ f, f <| isTerminating_ := true |>) ;;
      SaveResultToCallers r resultCode ;;
      TerminateAbilityLocked r flag
    end.

(** [CheckLimit]: at the limit the background ability used least recently is ended. *)
Definition CheckLimit : M bool :=
  full ← gets IsReachToLimitLocked;
  earliest ← gets FindEarliestMission;
  match full : bool, earliest with
  | true, Some a =>
    m ← the_mission a;
    r ← load (λ _, GetAbilityRecord m);
    ret ← TerminateAbilityInner r DEFAULT_INVAL_VALUE true;
    if negb (ret =? ERR_OK) then mret true
    else
      lastAbility ← gets (λ w, IsAppLastAbility w r);
      when lastAbility (emit (RecordExitReason r)) ;;
      mret false
  | _, _ => mret false
  end.

(** [MoveAbilityToBackgroundLocked] *)
Definition MoveAbilityToBackground (r : Z) : M Z :=
  RemoveBackgroundingAbility r ;;
  x ← the_record r;
  if IsForeground x then
    SetPendingState r BACKGROUND ;;
    x ← the_record r;
    next ← gets (λ w, lock w (nextAbilityRecord_ (life_ x)));
    match next with
    | Some n =>
      upd_life n (λ f, f <| preAbilityRecord_ := Some r |>) ;;
      SetPendingState n FOREGROUND ;;
      ProcessForegroundAbility_from n ;;
      mret ERR_OK
    | None =>
      if negb (clearMissionFlag_ (life_ x)) && env_animaEnabled E then mret ERR_OK
      else MoveToBackgroundTask E r true ;; mret ERR_OK
    end
  else mret ERR_OK.

Definition MinimizeAbilityLocked (abilityRecord : option Z) (fromUser : bool) : M Z :=
  match abilityRecord with
  | None => mret ERR_INVALID_VALUE
  | Some r =>
    SetPendingState r BACKGROUND ;;
    x ← the_record r;
    if negb (in_state FOREGROUND x) then mret ERR_OK
    else
      upd_life r (λ f, f <| minimizeReason_ := fromUser |>) ;;
      MoveToBackgroundTask E r false ;;
      mret ERR_OK
  end.

Definition MinimizeAbility (token : option Z) (fromUser : bool) : M Z :=
  known ← gets (λ w, GetAbilityRecordByTokenInner w token);
  match known with
  | None => mret INNER_ERR
  | Some _ =>
    abilityRecord ← gets (λ w, Token_GetAbilityRecord w token);
    MinimizeAbilityLocked abilityRecord fromUser
  end.

(** ** Starting abilities *)

Definition EnqueueWaitingAbility (q : AbilityRequest) : M unit :=
  modify (λ w, w <| waitingAbilityQueue_ ::= (λ l, l ++ [q]) |>).

(** The queue is swapped with one that holds the request, and emptied into it. *)
Definition EnqueueWaitingAbilityToFront (q : AbilityRequest) : M unit :=
  modify (λ w, w <| waitingAbilityQueue_ ::= (λ l, fold_left (λ acc x, acc ++ [x]) l [q]) |>).

Definition CallType2StartMethod (callType : Z) : Z :=
  if callType =? INVALID_TYPE then 0
  else if callType =? CALL_REQUEST_TYPE then MissionList.START_CALL else -1.

Definition CallTypeFilter (callType : Z) : bool := callType =? CALL_REQUEST_TYPE.

(** [GetTargetMissionListByLauncher] *)
Definition GetTargetMissionListByLauncher (q : AbilityRequest) : M Z :=
  reused ← gets (λ w, GetReusedMission w q);
  owner ← gets (λ w, mission_at (store_ w) reused ≫= owner_of w);
  single ← gets defaultSingleList_;
  standard ← gets defaultStandardList_;
  match owner with
  | Some l => if bool_decide (l ≠ single) && bool_decide (l ≠ standard) then mret l
              else NewMissionList
  | None => NewMissionList
  end.

(** [GetTargetMissionListByDefault]: a caller in a default list gets a list of its own. *)
Definition GetTargetMissionListByDefault (caller : Z) : M (option Z) :=
  x ← the_record caller;
  mission ← gets (λ w, GetMissionById w (recordMissionId_ (life_ x)));
  match mission with
  | None => mret None
  | Some a =>
    m ← the_mission a;
    callerList ← gets (λ w, owner_of w m);
    single ← gets defaultSingleList_;
    standard ← gets defaultStandardList_;
    match callerList with
    | None => mret None
    | Some l =>
      if bool_decide (l ≠ standard) && bool_decide (l ≠ single) then mret (Some l)
      else
        target ← NewMissionList;
        RemoveFrom l a ;;
        AddToTop target a ;;
        mret (Some target)
    end
  end.

(** [GetTargetMissionList(callerAbility, abilityRequest)] *)
Definition GetTargetMissionList (caller : option Z) (q : AbilityRequest) : M (option Z) :=
  if isLauncherApp (req_traits q) then Some <$> gets launcherList_
  else
    match caller with
    | None => Some <$> NewMissionList
    | Some c =>
      x ← the_record c;
      if IsLauncherAbility x then Some <$> GetTargetMissionListByLauncher q
      else GetTargetMissionListByDefault c
    end.

(** [HandleReusedMissionAndAbility]: whether there is a mission to reuse, and it. *)
Definition HandleReusedMissionAndAbility (q : AbilityRequest) : M (option Z) :=
  let startMethod' := CallType2StartMethod (req_callType q) in
  reused ← gets (λ w, GetReusedMission w q);
  match reused with
  | None => mret None
  | Some a =>
    m ← the_mission a;
    match GetAbilityRecord m with
    | Some r => SetWant r q ;; upd_life r (λ f, f <| isNewWant_ := true |>)
    | None => mret tt
    end ;;
    if negb (IsStartByCall m && (negb (CallTypeFilter startMethod') || req_callToForeground q))
    then mret (Some a)
    else
      info ← GetInnerMissionInfoById (MissionList.GetMissionId m);
      match info with
      | None => mret (Some a)
      | Some i =>
        let i := i <| missionInfo ::= (λ y, y <| time := env_time E |> <| runningState := 0 |>) |>
                   <| startMethod := startMethod' |> in
        UpdateMissionInfo i ;;
        upd_mission a (λ m, UpdateMissionTime (UpdateMissionId m (MissionList.GetMissionId m) startMethod').2
                              (env_time E)) ;;
        mret (Some a)
      end
  end.

Definition BuildInnerMissionInfo (info : InnerMissionInfo) (q : AbilityRequest) : InnerMissionInfo :=
  info <| missionName := GetMissionName q |>
    <| launchMode := launch_code (req_launchMode q) |>
    <| startMethod := CallType2StartMethod (req_callType q) |>
    <| bundleName := req_bundleName q |>
    <| uid := req_uid q |>
    <| missionInfo ::= (λ y, y <| runningState := 0 |> <| continuable := req_continuable q |>
         <| time := env_time E |> <| iconPath := req_iconPath q |> <| want := req_missionWant q |>
         <| unclearable := req_unclearable q |>) |>
    <| isTemporary := removeMissionAfterTerminate (req_traits q) || (MAX_APP_CLONE_INDEX <? req_dlpIndex q) |>
    <| specifiedFlag := req_specifiedFlag q |>.

(** The members of a new [InnerMissionInfo] that are not assigned below. *)
Definition new_info (q : AbilityRequest) : InnerMissionInfo :=
  mkInnerMissionInfo (mkMissionInfo (-1) (-1) false false "" "" "" (req_missionWant q) 0 false 0)
    "" "" 0 0 "" 0 false "" false 0.

(** [CreateOrReusedMissionInfo]: the information, and whether it was reused. *)
Definition CreateOrReusedMissionInfo (w : Manager) (q : AbilityRequest) : InnerMissionInfo * bool :=
  let isFindRecentStandard := bool_decide (req_launchMode q = STANDARD) && req_startRecent q in
  let needFind := negb (bool_decide (req_launchMode q = STANDARD)) || isFindRecentStandard in
  match (if needFind then FindReusedMissionInfo (infos_ w) (GetMissionName q)
                            (req_specifiedFlag q) isFindRecentStandard else None) with
  | Some i => (BuildInnerMissionInfo i q, 0 <? mission_id i)
  | None => (BuildInnerMissionInfo (new_info q) q, false)
  end.

(** What [GetTargetMissionAndAbility] assigns: the mission with its record, or the
    limit, or neither. *)
Inductive Target := TargetMission (a : Z) (r : option Z) | TargetLimit | TargetNone.

(** A new record and mission for the information. *)
Definition CreateMissionAndAbility (q : AbilityRequest) (info : InnerMissionInfo) : M (Z * Z) :=
  r ← CreateAbilityRecord E q;
  a ← alloc;
  userId ← gets userId_;
  modify (λ w, w <| store_ ::= (λ s, set_mission s a
    (UpdateMissionTime
       (SetLockedState (Mission_new (mission_id info) (Some r) (missionName info) (startMethod info))
          (lockedState (missionInfo info))) (time (missionInfo info))
     <| unclearable_ := unclearable (missionInfo info) |>
     <| specifiedFlag_ := if bool_decide (req_launchMode q = SPECIFIED)
                          then req_specifiedFlag q else "" |>)) |>) ;;
  upd_record r (λ x, x
    <| recordSpecifiedFlag_ := if bool_decide (req_launchMode q = SPECIFIED)
                               then req_specifiedFlag q else recordSpecifiedFlag_ x |>
    <| life_ ::= (λ f, f <| recordMissionId_ := mission_id info |>
         <| wantRecovery_ := wantRecovery_ f || hasRecoverInfo info |>) |>) ;;
  mret (a, r).

Definition GetTargetMissionAndAbility (q : AbilityRequest) : M Target :=
  reused ← HandleReusedMissionAndAbility q;
  match reused with
  | Some a => m ← the_mission a; mret (TargetMission a (GetAbilityRecord m))
  | None =>
    created ← gets (λ w, CreateOrReusedMissionInfo w q);
    let info := (created : InnerMissionInfo * bool).1 in
    let found := (created : InnerMissionInfo * bool).2 in
    newId ← (if found then mret (Some (mission_id info)) else GenerateMissionId);
    match newId with
    | None => mret TargetNone
    | Some missionId =>
      let info := info <| missionInfo ::= (λ y, y <| id := missionId |>) |> in
      reach ← CheckLimit;
      if reach : bool then mret TargetLimit
      else
        ar ← CreateMissionAndAbility q info;
        let info := info <| hasRecoverInfo := false |> in
        let info := if found then info
                    else info <| missionInfo ::= (λ y, y <| label := req_label q |>) |> in
        (if excludeFromMissions (req_traits q) then mret tt
         else if found then UpdateMissionInfo info else AddMissionInfo info) ;;
        mret (TargetMission ar.1 (Some ar.2))
    end
  end.

(** [GetTargetMission]: a code, or the target to schedule. *)
Definition GetTargetMission (q : AbilityRequest) : M (Z + Z * Z) :=
  target ← GetTargetMissionAndAbility q;
  match target with
  | TargetLimit => mret (inl ERR_REACH_UPPER_LIMIT)
  | TargetNone | TargetMission _ None => mret (inl ERR_INVALID_VALUE)
  | TargetMission a (Some r) =>
    x ← the_record r;
    if isTerminating_ (life_ x) then mret (inl ERR_INVALID_VALUE)
    else
      SetPendingState r FOREGROUND ;;
      if bool_decide (pendingState_ (life_ x) = FOREGROUND) || isLoading_ (life_ x)
      then mret (inl ERR_OK)
      else AddCallerRecord r (req_callerToken q) (req_requestCode q) ;; mret (inr (a, r))
  end.

Definition StartAbilityLocked (currentTop caller : option Z) (q : AbilityRequest) : M Z :=
  targetList ← GetTargetMissionList caller q;
  match targetList with
  | None => mret ERR_INVALID_CALLER
  | Some l =>
    target ← GetTargetMission q;
    match target with
    | inl code => mret code
    | inr (a, r) =>
      callerRecord ← gets (λ w, caller ≫= λ c, recordHeap (store_ w) !! c);
      let fromLauncher := match callerRecord with Some x => IsLauncherAbility x | None => false end in
      MoveMissionToTargetList fromLauncher l a ;;
      MoveMissionListToTop l ;;
      x ← the_record r;
      match currentTop with
      | None => when (isLauncherApp (traits_ x)) (upd_record r (λ x, x <| isLauncherRoot_ := true |>))
      | Some top =>
        let supportBack := match callerRecord with
                           | Some y => bool_decide (abilityType (traits_ y) ≠ PAGE)
                           | None => true
                           end in
        if supportBack && req_backToOther q then
          focusId ← gets (λ w, match env_focusAbility E with
                               | Some f => GetMissionIdByAbilityTokenInner w (token_ <$> recordHeap (store_ w) !! f)
                               | None => -1
                               end);
          upd_life r (λ f, f <| isNeedBackToOtherMissionStack_ := true |>
            <| otherMissionStackAbilityRecord_ :=
                 if bool_decide (focusId ≠ -1) then env_focusAbility E else Some top |>)
        else mret tt
      end ;;
      SetAbilityForegroundingFlag r ;;
      ProcessForegroundAbility_request E r ;;
      mret ERR_OK
    end
  end.

(** [StartAbility(currentTopAbility, callerAbility, abilityRequest)] *)
Definition StartAbility_at (currentTop caller : option Z) (q : AbilityRequest) : M Z :=
  if bool_decide (req_launchMode q = SPECIFIED) then
    EnqueueWaitingAbilityToFront q ;;
    emit (AppStartSpecified (req_bundleName q) (req_name q)) ;;
    mret 0
  else StartAbilityLocked currentTop caller q.

Definition top_is_foregrounding (w : Manager) (top : option Z) : bool :=
  match top ≫= λ r, recordHeap (store_ w) !! r with
  | Some x => in_state FOREGROUNDING x
  | None => false
  end.

Definition StartAbility (q : AbilityRequest) : M Z :=
  limit ← gets (λ w, CheckSingleLimit w q);
  if limit : bool then mret ERR_REACH_UPPER_LIMIT
  else
    top ← gets GetCurrentTopAbilityLocked;
    waiting ← gets (λ w, match top ≫= λ r, recordHeap (store_ w) !! r with
                         | Some x => negb (isRestartApp_ x) && in_state FOREGROUNDING x
                         | None => false
                         end);
    if waiting : bool then EnqueueWaitingAbility q ;; mret START_ABILITY_WAITING
    else
      caller ← gets (λ w, GetAbilityRecordByTokenInner w (req_callerToken q));
      StartAbility_at top caller q.

Definition StartWaitingAbility : M unit :=
  top ← gets GetCurrentTopAbilityLocked;
  busy ← gets (λ w, top_is_foregrounding w top);
  queue ← gets waitingAbilityQueue_;
  match busy : bool, queue with
  | false, q :: queue' =>
    modify (λ w, w <| waitingAbilityQueue_ := queue' |>) ;;
    caller ← gets (λ w, GetAbilityRecordByTokenInner w (req_callerToken q));
    StartAbility_at top caller q ;;
    mret tt
  | _, _ => mret tt
  end.
End Ops.
