(* ===== verification/MissionSteps.v ===== *)
(** * The mission list manager: completions, deaths and steps

    The rest of [mission_list_manager.cpp]: moving a mission to the front, the completion
    of the transitions that the applications report, timeouts, deaths, clearing missions,
    calls and uninstallation; and the steps of the manager, each an operation or a posted
    task that runs. *)

From stdpp Require Import prelude gmap strings list sorting pretty.
From Stdlib Require Import ZArith Lia.
From S2P Require Import Prelude MissionInfo MissionInfoMgr MissionList MissionManager MissionLifecycle MissionOps.

Local Open Scope Z_scope.

Section Steps.
Context {WL : WantLib} {MS : MissionStore} (E : Env).

(** ** Moving a mission to the front *)

Inductive FrontTarget := FrontAt (l a : Z) | FrontLimit | FrontNone.

(** A mission that is known by its information only is created again. *)
Definition RestoreMission (info : InnerMissionInfo) : M FrontTarget :=
  match env_GenerateAbilityRequest E (want (missionInfo info)) with
  | None => mret FrontNone
  | Some q =>
    reach ← CheckLimit E;
    if reach : bool then mret FrontLimit
    else
      r ← CreateAbilityRecord E q;
      a ← alloc;
      modify (λ w, w <| store_ ::= (λ s, set_mission s a
        (SetLockedState (Mission_new (mission_id info) (Some r) (missionName info) 0)
           (lockedState (missionInfo info))
         <| unclearable_ := unclearable (missionInfo info) |>)) |>) ;;
      upd_life r (λ f, f <| recordMissionId_ := mission_id info |>
                         <| wantRecovery_ := wantRecovery_ f || hasRecoverInfo info |>) ;;
      l ← NewMissionList;
      mret (FrontAt l a)
  end.

(** [GetTargetMissionList(missionId, mission, isReachToLimit)] *)
Definition GetTargetMissionListById (missionId : Z) : M FrontTarget :=
  mission ← gets (λ w, GetMissionById w missionId);
  match mission with
  | Some a =>
    m ← the_mission a;
    missionList ← gets (λ w, owner_of w m);
    match missionList with
    | None => mret FrontNone
    | Some l =>
      ml ← the_list l;
      match type_ ml with
      | LAUNCHER => mret FrontNone
      | CURRENT => mret (FrontAt l a)
      | DEFAULT_STANDARD | DEFAULT_SINGLE => target ← NewMissionList; mret (FrontAt target a)
      end
    end
  | None =>
    info ← GetInnerMissionInfoById missionId;
    match info with
    | None => mret FrontNone
    | Some i => RestoreMission i
    end
  end.

Definition MoveMissionToFrontInner (missionId : Z) (isCallerFromLauncher : bool) : M Z :=
  target ← GetTargetMissionListById missionId;
  match target with
  | FrontLimit => mret ERR_REACH_UPPER_LIMIT
  | FrontNone => mret MOVE_MISSION_FAILED
  | FrontAt l a =>
    MoveMissionToTargetList isCallerFromLauncher l a ;;
    MoveMissionListToTop l ;;
    m ← the_mission a;
    match GetAbilityRecord m with
    | None => mret MOVE_MISSION_FAILED
    | Some r =>
      upd_life r (λ f, f <| isNewWant_ := false |>) ;;
      ProcessForegroundAbility_request E r ;;
      upd_mission a (λ m, SetMovingState m true) ;;
      mret ERR_OK
    end
  end.

Definition BackToCaller (callerAbility : Z) : M unit :=
  top ← gets GetCurrentTopAbilityLocked;
  x ← the_record callerAbility;
  if bool_decide (top = Some callerAbility) && in_state FOREGROUND x then mret tt
  else MoveMissionToFrontInner (recordMissionId_ (life_ x)) false ;; mret tt.

Definition BackToLauncher : M unit :=
  root ← gets (λ w, lists_ w !! launcherList_ w ≫= GetLauncherRoot (store_ w));
  match root with
  | None => mret tt
  | Some r =>
    x ← the_record r;
    if bool_decide (abilityBundleName x ≠ LAUNCHER_BUNDLE_NAME) then mret tt
    else
      mission ← gets (λ w, GetMissionById w (recordMissionId_ (life_ x)));
      match mission with
      | None => mret tt
      | Some a =>
        modify (λ w, w <| waitingAbilityQueue_ := [] |>) ;;
        l ← gets launcherList_;
        AddToTop l a ;;
        MoveMissionListToTop l ;;
        ProcessForegroundAbility E r
      end
  end.

(** ** Reports of the applications *)

Definition AttachAbilityThread (token : option Z) (scheduler : bool) (callingPid : Z) : M Z :=
  record ← gets (λ w, GetAbilityRecordByTokenInner w token);
  match record with
  | None => mret ERR_INVALID_VALUE
  | Some r =>
    upd_life r (λ f, f <| isLoading_ := false |>) ;;
    SetScheduler r scheduler callingPid ;;
    x ← the_record r;
    if isStartedByCall_ (life_ x) then
      (if wantCallToForeground_ (life_ x) then
         upd_life r (λ f, f <| isStartToForeground_ := true |>) ;;
         emit (AppMoveToForeground r)
       else
         upd_life r (λ f, f <| isStartToBackground_ := true |>) ;;
         MoveToBackgroundTask E r false) ;;
      mret ERR_OK
    else
      when (env_IsNeedToCallRequest E) (CallRequest r) ;;
      emit (AppMoveToForeground r) ;;
      mret ERR_OK
  end.

(** [OnAbilityRequestDone] for the state of an application in the foreground. *)
Definition OnAbilityRequestDone (token : option Z) : M unit :=
  record ← gets (λ w, GetAliveAbilityRecordByToken w token);
  match record with
  | None => mret tt
  | Some r => ForegroundAbility r
  end.

Definition DispatchForeground (r : Z) (success : bool) (state : AbilityState) : M Z :=
  x ← the_record r;
  if negb (in_state FOREGROUNDING x) then PostStartWaitingAbility ;; mret ERR_INVALID_VALUE
  else
    SubmitTask (if success then TForegroundDone r else TForegroundFailed r state) ;;
    mret ERR_OK.

Definition DispatchBackground (r : Z) : M Z :=
  x ← the_record r;
  if negb (in_state BACKGROUNDING x) then mret ERR_INVALID_VALUE
  else
    CancelTask (TBackgroundTimeout r) ;;
    SubmitTask (TBackgroundDone r) ;;
    mret ERR_OK.

Definition DispatchTerminate (r : Z) : M Z :=
  x ← the_record r;
  if negb (in_state TERMINATING x) then mret INNER_ERR
  else
    CancelTask (TTerminateTimeout r) ;;
    SubmitTask (TTerminateDone r) ;;
    mret ERR_OK.

Definition DispatchState (r : Z) (state : AbilityState) : M Z :=
  match state with
  | INITIAL => DispatchTerminate r
  | BACKGROUND | BACKGROUND_FAILED => DispatchBackground r
  | FOREGROUND => DispatchForeground r true INITIAL
  | FOREGROUND_FAILED | FOREGROUND_INVALID_MODE | FOREGROUND_WINDOW_FREEZED
  | FOREGROUND_DO_NOTHING => DispatchForeground r false state
  | INACTIVE | ACTIVE | INACTIVATING | ACTIVATING | TERMINATING | FOREGROUNDING
  | BACKGROUNDING => mret ERR_INVALID_VALUE
  end.

Definition AbilityTransactionDone (token : option Z) (state : AbilityState) : M Z :=
  terminating ← gets (λ w, GetAbilityFromTerminateListInner w token);
  record ← gets (λ w, match terminating with
                      | Some r => Some r
                      | None => GetAbilityRecordByTokenInner w token
                      end);
  match record with
  | None => mret ERR_INVALID_VALUE
  | Some r => DispatchState r state
  end.

(** ** The tasks that complete a transition *)

Definition CompleteForegroundSuccess (r : Z) : M unit :=
  SetAbilityState r FOREGROUND ;;
  x ← the_record r;
  mission ← gets (λ w, GetMissionById w (recordMissionId_ (life_ x)));
  match mission with
  | None => mret tt
  | Some a =>
    upd_mission a (λ m, UpdateMissionTime m (env_time E)) ;;
    m ← the_mission a;
    info ← GetInnerMissionInfoById (MissionList.GetMissionId m);
    match info with
    | None => mret tt
    | Some i => UpdateMissionInfo
        (i <| missionInfo ::= (λ y, y <| time := env_time E |> <| runningState := 0 |>) |>)
    end ;;
    m ← the_mission a;
    when (IsMovingState m)
      (upd_mission a (λ m, SetMovingState m false) ;;
       when (negb (excludeFromMissions (traits_ x)))
         (emit (MissionMovedToFront (MissionList.GetMissionId m))))
  end ;;
  PostStartWaitingAbility ;;
  TerminatePreviousAbility E r ;;
  x ← the_record r;
  when (isStartedByCall_ (life_ x) && isStartToForeground_ (life_ x) && isReady_ (life_ x))
    (CallRequest r ;; upd_life r (λ f, f <| isStartToForeground_ := false |>)) ;;
  x ← the_record r;
  match pendingState_ (life_ x) with
  | BACKGROUND =>
    upd_life r (λ f, f <| minimizeReason_ := true |>) ;;
    MoveToBackgroundTask E r false
  | FOREGROUND => SetPendingState r INITIAL
  | _ => mret tt
  end.

(** The loop over the abilities that wait for their end. *)
Definition TerminateIfBackground (r : Z) : M unit :=
  x ← the_record r; when (in_state BACKGROUND x) (Terminate r).

Definition CompleteBackground (r : Z) : M unit :=
  x ← the_record r;
  if negb (in_state BACKGROUNDING x) then mret tt
  else
    SetAbilityState r BACKGROUND ;;
    emit (AppMoveToBackground r) ;;
    x ← the_record r;
    match pendingState_ (life_ x) with
    | FOREGROUND => emit (AppMoveToForeground r)
    | BACKGROUND => SetPendingState r INITIAL
    | _ => mret tt
    end ;;
    if isSwitchingPause_ (life_ x) then upd_life r (λ f, f <| isSwitchingPause_ := false |>)
    else
      waiting ← gets terminateAbilityList_;
      each waiting TerminateIfBackground ;;
      x ← the_record r;
      when (isStartedByCall_ (life_ x) && isStartToBackground_ (life_ x) && isReady_ (life_ x))
        (CallRequest r ;; upd_life r (λ f, f <| isStartToBackground_ := false |>)).

Definition CompleteTerminateAndUpdateMission (r : Z) : M unit :=
  waiting ← gets (λ w, bool_decide (r ∈ terminateAbilityList_ w));
  if negb waiting then mret tt
  else
    emit (RevokeUri r) ;;
    modify (λ w, w <| terminateAbilityList_ ::= filter (λ t, t ≠ r) |>) ;;
    x ← the_record r;
    let missionId := recordMissionId_ (life_ x) in
    if mission_is_dropped x then RemoveMissionLocked missionId (excludeFromMissions (traits_ x))
    else
      info ← GetInnerMissionInfoById missionId;
      match info with
      | None => mret tt
      | Some i =>
        UpdateMissionInfo (i <| hasRecoverInfo := false |>
                             <| missionInfo ::= (λ y, y <| runningState := -1 |>) |>) ;;
        emit (MissionClosed missionId)
      end.

Definition CompleteTerminate (r : Z) : M unit :=
  x ← the_record r;
  if negb (in_state TERMINATING x) then mret tt
  else
    emit (AppTerminateAbility r) ;;
    pre ← gets (λ w, lock w (preAbilityRecord_ (life_ x)));
    match pre with
    | None => mret tt
    | Some p => TerminateAbilityLocked E p false ;; mret tt
    end ;;
    CompleteTerminateAndUpdateMission r.

(** ** Timeouts *)

Definition MoveToTerminateList (r : Z) : M unit :=
  x ← the_record r;
  mission ← gets (λ w, GetMissionById w (recordMissionId_ (life_ x)));
  match mission with
  | None => mret tt
  | Some a =>
    m ← the_mission a;
    missionList ← gets (λ w, owner_of w m);
    match missionList with
    | None => mret tt
    | Some l =>
      RemoveFrom l a ;;
      ml ← the_list l;
      when (bool_decide (type_ ml = CURRENT) && IsEmpty ml) (RemoveMissionList l) ;;
      if in_state INITIAL x then
        info ← GetInnerMissionInfoById (MissionList.GetMissionId m);
        match info with
        | None => mret tt
        | Some i =>
          emit (MissionClosed (MissionList.GetMissionId m)) ;;
          UpdateMissionInfo (i <| missionInfo ::= (λ y, y <| runningState := -1 |>) |>)
        end
      else
        upd_life r (λ f, f <| isTerminating_ := true |>) ;;
        modify (λ w, w <| terminateAbilityList_ ::= (λ t, t ++ [r]) |>)
    end
  end.

Definition HandleTimeoutAndResumeAbility (r : Z) (state : AbilityState) : M unit :=
  MoveToTerminateList r ;;
  emit (AppAttachTimeOut r) ;;
  x ← the_record r;
  caller ← gets (λ w, GetCallerRecord w x ≫= λ c, (c,.) <$> recordHeap (store_ w) !! c);
  match caller with
  | None => DelayedStartLauncher
  | Some (c, y) =>
    if bool_decide (abilityType (traits_ y) = SERVICE) ||
       bool_decide (abilityType (traits_ y) = EXTENSION) ||
       IsLauncherAbility x || IsLauncherAbility y
    then DelayedStartLauncher
    else when (bool_decide (state ≠ FOREGROUND_INVALID_MODE)) (DelayedResumeTimeout c)
  end.

Definition HandleLoadTimeout (r : Z) : M unit :=
  x ← the_record r;
  if IsLauncherAbility x && isLauncherRoot_ x then
    SetRestarting r true ;; emit (AppAttachTimeOut r) ;; DelayedStartLauncher
  else HandleTimeoutAndResumeAbility r INITIAL.

Definition HandleForegroundTimeout (r : Z) (state : AbilityState) : M unit :=
  x ← the_record r;
  mission ← gets (λ w, GetMissionById w (recordMissionId_ (life_ x)));
  match mission with
  | None => mret tt
  | Some a => upd_mission a (λ m, SetMovingState m false)
  end ;;
  if negb (in_state FOREGROUNDING x) then mret tt
  else if IsLauncherAbility x && isLauncherRoot_ x then
    emit (AppAttachTimeOut r) ;; DelayedStartLauncher
  else HandleTimeoutAndResumeAbility r state.

Definition CompleteForegroundFailed (r : Z) (state : AbilityState) : M unit :=
  match state with
  | FOREGROUND_WINDOW_FREEZED =>
    SetPendingState r INITIAL ;;
    SetAbilityState r BACKGROUND ;;
    emit (AppMoveToBackground r) ;;
    TerminatePreviousAbility E r
  | FOREGROUND_DO_NOTHING =>
    SetAbilityState r FOREGROUND ;;
    MoveToBackgroundTask E r false
  | _ =>
    HandleForegroundTimeout r state ;;
    TerminatePreviousAbility E r ;;
    PostStartWaitingAbility
  end.

Inductive TimeoutMsg := LOAD_TIMEOUT_MSG | FOREGROUND_TIMEOUT_MSG | INACTIVE_TIMEOUT_MSG | OTHER_MSG.

Definition OnTimeOut (msg : TimeoutMsg) (abilityRecordId : Z) (isHalf : bool) : M unit :=
  record ← lift (λ w, GetAbilityRecordById w abilityRecordId);
  match record with
  | None => mret tt
  | Some r =>
    emit (RevokeUri r) ;;
    if isHalf then mret tt
    else
      match msg with
      | LOAD_TIMEOUT_MSG => upd_life r (λ f, f <| isLoading_ := false |>) ;; HandleLoadTimeout r
      | FOREGROUND_TIMEOUT_MSG | INACTIVE_TIMEOUT_MSG => HandleForegroundTimeout r INITIAL
      | OTHER_MSG => mret tt
      end
  end.

(** ** Deaths *)

Definition HandleLauncherDied (r : Z) : M unit :=
  x ← the_record r;
  mission ← gets (λ w, GetMissionById w (recordMissionId_ (life_ x)));
  match mission with
  | None => mret tt
  | Some a =>
    m ← the_mission a;
    missionList ← gets (λ w, owner_of w m);
    launcher ← gets launcherList_;
    if bool_decide (missionList ≠ Some launcher) then mret tt
    else
      (if isLauncherRoot_ x then SetAbilityState r INITIAL ;; SetRestarting r true
       else RemoveFrom launcher a) ;;
      when (IsForeground x) DelayedStartLauncher
  end.

Definition HandleAbilityDiedByDefault (r : Z) : M unit :=
  x ← the_record r;
  if isTerminating_ (life_ x) then CompleteTerminateAndUpdateMission r
  else
    mission ← gets (λ w, GetMissionById w (recordMissionId_ (life_ x)));
    match mission with
    | None => mret tt
    | Some a =>
      m ← the_mission a;
      missionList ← gets (λ w, owner_of w m);
      match missionList with
      | None => mret tt
      | Some l =>
        root ← gets (λ w, lists_ w !! launcherList_ w ≫= GetLauncherRoot (store_ w));
        launcherActive ← gets (λ w, match root ≫= λ t, recordHeap (store_ w) !! t with
                                    | Some y => IsForeground y
                                    | None => false
                                    end);
        RemoveFrom l a ;;
        ml ← the_list l;
        when (bool_decide (type_ ml = CURRENT) && IsEmpty ml) (RemoveMissionList l) ;;
        let missionId := MissionList.GetMissionId m in
        (if isUninstall_ x then mret tt
         else if mission_is_dropped x then
           RemoveMissionLocked missionId (excludeFromMissions (traits_ x))
         else
           info ← GetInnerMissionInfoById missionId;
           match info with
           | None => mret tt
           | Some i => UpdateMissionInfo (i <| missionInfo ::= (λ y, y <| runningState := -1 |>) |>)
           end ;;
           emit (MissionClosed missionId)) ;;
        when (IsForeground x && negb launcherActive) DelayedStartLauncher
      end
    end.

Definition HandleAbilityDied (r : Z) : M unit :=
  x ← the_record r;
  if bool_decide (abilityType (traits_ x) ≠ PAGE) then mret tt
  else if IsLauncherAbility x then HandleLauncherDied r else HandleAbilityDiedByDefault r.

Definition OnAbilityDied (r : Z) : M unit :=
  x ← the_record r;
  userId ← gets userId_;
  if bool_decide (abilityType (traits_ x) ≠ PAGE) then mret tt
  else if isLauncherRoot_ x && bool_decide (env_currentUserId E ≠ userId) then
    SetAbilityState r INITIAL ;; SetRestarting r true
  else
    when (in_state INITIAL x) (upd_life r (λ f, f <| isLoading_ := false |>)) ;;
    when (in_state BACKGROUNDING x) (CancelTask (TBackgroundTimeout r)) ;;
    when (in_state TERMINATING x) (CancelTask (TTerminateTimeout r)) ;;
    HandleAbilityDied r.

(** ** Clearing missions *)

Definition ClearMissionLocked (missionId : Z) (mission : option Z) : M Z :=
  when (bool_decide (missionId ≠ -1))
    (DeleteMissionInfo missionId ;; emit (MissionDestroyed missionId)) ;;
  match mission with
  | None => mret ERR_OK
  | Some a =>
    m ← the_mission a;
    match GetAbilityRecord m with
    | None => mret ERR_OK
    | Some r =>
      x ← the_record r;
      if isTerminating_ (life_ x) then mret ERR_OK
      else
        upd_life r (λ f, f <| isTerminating_ := true |> <| clearMissionFlag_ := true |>) ;;
        SaveResultToCallers r (-1) ;;
        ret ← TerminateAbilityLocked E r false;
        mret (if ret =? ERR_OK then ERR_OK else REMOVE_MISSION_FAILED)
    end
  end.

(** [PrepareClearMissionLocked]: the ability is asked first, and may refuse. It answers
    before the timeout, whose task is cancelled then. *)
Definition PrepareClearMissionLocked (missionId : Z) (mission : Z) : M Z :=
  m ← the_mission mission;
  match GetAbilityRecord m with
  | None => mret ERR_OK
  | Some r =>
    x ← the_record r;
    if isTerminating_ (life_ x) then mret ERR_OK
    else
      res ← PrepareTerminateAbility E r;
      if res : bool then mret ERR_OK else ClearMissionLocked missionId (Some mission)
  end.

Definition CheckPrepareTerminateEnable (mission : option Z) : M bool :=
  enabled ← gets isPrepareTerminateEnable_;
  record ← gets (λ w, mission_at (store_ w) mission ≫= λ m, record_at (store_ w) (GetAbilityRecord m));
  mret (enabled && match record with
                   | None => false
                   | Some x => negb (isTerminating_ (life_ x)) && isStageBasedModel (traits_ x) &&
                       bool_decide (abilityType (traits_ x) = PAGE) &&
                       env_VerifyPrepareTerminate E (accessTokenId (traits_ x))
                   end).

Definition ClearMission (missionId : Z) : M Z :=
  if missionId <? 0 then mret ERR_INVALID_VALUE
  else
    mission ← gets (λ w, GetMissionById w missionId);
    refused ← gets (λ w, match mission_at (store_ w) mission with
                         | None => false
                         | Some m =>
                           match owner_of w m ≫= λ l, lists_ w !! l with
                           | Some ml => bool_decide (type_ ml = LAUNCHER)
                           | None => false
                           end ||
                           match record_at (store_ w) (GetAbilityRecord m) with
                           | Some x => excludeFromMissions (traits_ x)
                           | None => false
                           end || unclearable_ m
                         end);
    if refused : bool then mret ERR_INVALID_VALUE
    else
      prepare ← CheckPrepareTerminateEnable mission;
      match prepare : bool, mission with
      | true, Some a => PrepareClearMissionLocked missionId a
      | _, _ => ClearMissionLocked missionId mission
      end.

(** [ClearAllMissionsLocked] over the missions of a list; it returns the missions put off
    because they are active. A turn takes at most its own mission off the list. *)
Fixpoint ClearAllMissionsLocked (ps : list (option Z)) (foreground : list Z) (searchActive : bool)
    : M (list Z) :=
  match ps with
  | [] => mret foreground
  | None :: ps' => ClearAllMissionsLocked ps' foreground searchActive
  | Some a :: ps' =>
    m ← the_mission a;
    if IsLockedState m || unclearable_ m then ClearAllMissionsLocked ps' foreground searchActive
    else
      r ← load (λ _, GetAbilityRecord m);
      x ← the_record r;
      if env_IsBackgroundTaskUid E (uid_ x) then ClearAllMissionsLocked ps' foreground searchActive
      else if searchActive && IsActiveState x
      then ClearAllMissionsLocked ps' (a :: foreground) searchActive
      else
        prepare ← CheckPrepareTerminateEnable (Some a);
        (if prepare : bool then PrepareClearMissionLocked (-1) a else ClearMissionLocked (-1) (Some a)) ;;
        ClearAllMissionsLocked ps' foreground searchActive
  end.

Fixpoint clear_lists (ls : list Z) (foreground : list Z) : M (list Z) :=
  match ls with
  | [] => mret foreground
  | l :: ls' =>
    ml ← the_list l;
    fg ← (if bool_decide (type_ ml = LAUNCHER) then mret foreground
          else ClearAllMissionsLocked (missions_ ml) foreground true);
    clear_lists ls' fg
  end.

Definition ClearAllMissions : M Z :=
  cleared ← gets (λ w, DeleteAllMissionInfos (env_IsBackgroundTaskUid E) true (infos_ w));
  modify (λ w, w <| infos_ := cleared.1.2 |> <| events_ ::= (λ l, l ++ (MissionDestroyed <$> cleared.2)) |>) ;;
  standard ← gets (λ w, listed_missions w (defaultStandardList_ w));
  ClearAllMissionsLocked standard [] false ;;
  single ← gets (λ w, listed_missions w (defaultSingleList_ w));
  ClearAllMissionsLocked single [] false ;;
  current ← gets currentMissionLists_;
  foreground ← clear_lists current [];
  ClearAllMissionsLocked (Some <$> foreground) [] false ;;
  mret ERR_OK.

Definition SetMissionLockedState (missionId : Z) (locked : bool) : M Z :=
  if missionId <? 0 then mret MISSION_NOT_FOUND
  else
    mission ← gets (λ w, GetMissionById w missionId);
    excluded ← gets (λ w, match mission_at (store_ w) mission ≫= λ m, record_at (store_ w) (GetAbilityRecord m) with
                          | Some x => excludeFromMissions (traits_ x)
                          | None => false
                          end);
    if excluded : bool then mret MISSION_NOT_FOUND
    else
      match mission with
      | Some a => upd_mission a (λ m, SetLockedState m locked)
      | None => mret tt
      end ;;
      info ← GetInnerMissionInfoById missionId;
      match info with
      | None => mret MISSION_NOT_FOUND
      | Some i =>
        UpdateMissionInfo (i <| missionInfo ::= (λ y, y <| lockedState := locked |>) |>) ;;
        mret ERR_OK
      end.

(** ** Calls and specified abilities *)

(** [ResolveAbility], with the answer of the call container of the record. *)
Definition ResolveAbility (r : Z) : M ResolveResultType :=
  match env_Resolve E with
  | OK_NO_REMOTE_OBJ =>
    x ← the_record r;
    if isReady_ (life_ x) then CallRequest r ;; mret OK_HAS_REMOTE_OBJ else mret OK_NO_REMOTE_OBJ
  | res => mret res
  end.

Definition CallAbilityLocked (q : AbilityRequest) : M Z :=
  if negb (req_callType q =? CALL_REQUEST_TYPE) then mret ERR_INVALID_VALUE
  else
    target ← GetTargetMissionAndAbility E q;
    match target with
    | TargetLimit => mret ERR_REACH_UPPER_LIMIT
    | TargetNone | TargetMission _ None => mret ERR_INVALID_VALUE
    | TargetMission a (Some r) =>
      AddCallerRecord r (req_callerToken q) (req_requestCode q) ;;
      m ← the_mission a;
      owner ← gets (λ w, owner_of w m);
      single ← gets defaultSingleList_;
      standard ← gets defaultStandardList_;
      match owner with
      | Some _ => mret tt
      | None => AddToTop (if bool_decide (req_launchMode q = SINGLETON) then single else standard) a
      end ;;
      res ← ResolveAbility r;
      match res with
      | OK_HAS_REMOTE_OBJ =>
        x ← the_record r;
        if wantCallToForeground_ (life_ x) then
          if bool_decide (pendingState_ (life_ x) ≠ INITIAL) then
            SetPendingState r FOREGROUND ;; mret ERR_OK
          else ProcessForegroundAbility_request E r ;; mret ERR_OK
        else mret ERR_OK
      | NG_INNER_ERROR => mret RESOLVE_CALL_ABILITY_INNER_ERR
      | OK_NO_REMOTE_OBJ =>
        top ← gets GetCurrentTopAbilityLocked;
        x ← the_record r;
        when (bool_decide (top = None) && isLauncherApp (traits_ x))
          (upd_record r (λ x, x <| isLauncherRoot_ := true |>)) ;;
        LoadAbility E r
      end
    end.

(** The answer of the application to [StartSpecifiedAbility]: the element of the want and
    the flag. *)
Definition OnAcceptWantResponse (abilityName' bundleName' flag : string) : M unit :=
  queue ← gets waitingAbilityQueue_;
  match queue with
  | [] => mret tt
  | q :: queue' =>
    modify (λ w, w <| waitingAbilityQueue_ := queue' |>) ;;
    top ← gets GetCurrentTopAbilityLocked;
    caller ← gets (λ w, GetAbilityRecordByTokenInner w (req_callerToken q));
    mission ← gets (λ w, if bool_decide (flag = "") then None
                         else GetMissionBySpecifiedFlag w abilityName' bundleName' flag);
    match mission with
    | Some a =>
      m ← the_mission a;
      match GetAbilityRecord m with
      | None => mret tt
      | Some r =>
        SetWant r q ;;
        upd_life r (λ f, f <| isNewWant_ := true |>) ;;
        callerRecord ← gets (λ w, match caller with
                                  | Some c => Some c
                                  | None => Token_GetAbilityRecord w (req_callerToken q)
                                  end ≫= λ c, recordHeap (store_ w) !! c);
        MoveMissionToFrontInner (MissionList.GetMissionId m)
          (match callerRecord with Some x => IsLauncherAbility x | None => false end) ;;
        mret tt
      end
    | None =>
      StartAbilityLocked E top caller (q <| req_specifiedFlag := flag |>) ;; mret tt
    end
  end.

Definition OnStartSpecifiedAbilityTimeoutResponse : M unit :=
  queue ← gets waitingAbilityQueue_;
  match queue with
  | [] => mret tt
  | [_] => modify (λ w, w <| waitingAbilityQueue_ := [] |>)
  | _ :: q :: queue' =>
    modify (λ w, w <| waitingAbilityQueue_ := queue' |>) ;;
    top ← gets GetCurrentTopAbilityLocked;
    caller ← gets (λ w, GetAbilityRecordByTokenInner w (req_callerToken q));
    StartAbility_at E top caller q ;;
    mret tt
  end.

(** ** Applications that go *)

Definition uninstall_list (bundleName' : string) (uid' : Z) (l : Z) : M unit :=
  ml ← the_list l;
  s ← gets (λ w, MissionList.HandleUnInstallApp (store_ w) ml bundleName' uid');
  modify (λ w, w <| store_ := s.1 |> <| lists_ ::= <[l := s.2]> |>).

Definition EraseWaitingAbility (bundleName' : string) (uid' : Z) : M unit :=
  modify (λ w, w <| waitingAbilityQueue_ ::= (λ l, fold_left
    (λ acc q, if bool_decide (req_bundleName q = bundleName') && (req_uid q =? uid') then acc
              else acc ++ [q]) l []) |>).

Definition AddUninstallTags (bundleName' : string) (uid' : Z) : M unit :=
  current ← gets currentMissionLists_;
  each current (λ l,
    uninstall_list bundleName' uid' l ;;
    empty ← is_empty l;
    when empty (RemoveMissionList l)) ;;
  single ← gets defaultSingleList_;
  uninstall_list bundleName' uid' single ;;
  standard ← gets defaultStandardList_;
  uninstall_list bundleName' uid' standard ;;
  matched ← gets (λ w, MissionInfoMgr.HandleUnInstallApp (infos_ w) bundleName' uid' []);
  modify (λ w, w <| infos_ := matched.2 |> <| events_ ::= (λ l, l ++ (MissionDestroyed <$> matched.1)) |>) ;;
  EraseWaitingAbility bundleName' uid'.

Definition SignRestartAppFlag (bundleName' : string) : M unit :=
  modify (λ w, w <| store_ ::= (λ s,
    fold_left (λ s ml, MissionList.SignRestartAppFlag s ml bundleName') (counted_lists w) s) |>).

(** ** Users, labels and marks *)

Definition foreground_records (w : Manager) : list Z :=
  omap (λ l, lists_ w !! l) (live_lists w) ≫= λ ml, missions_ ml ≫= λ p,
    match mission_at (store_ w) p ≫= GetAbilityRecord with
    | Some r => match recordHeap (store_ w) !! r with
                | Some x => if IsActiveState x then [r] else []
                | None => []
                end
    | None => []
    end.

Definition PauseManager : M unit :=
  foreground ← gets foreground_records;
  each foreground (λ r,
    upd_life r (λ f, f <| isSwitchingPause_ := true |>) ;;
    MoveToBackgroundTask E r false).

Definition DoAbilityForeground (r : Z) : M Z :=
  x ← the_record r;
  SetPendingState r FOREGROUND ;;
  if bool_decide (pendingState_ (life_ x) = FOREGROUND) then mret ERR_OK
  else ProcessForegroundAbility E r ;; mret ERR_OK.

Definition PostMissionLabelUpdateTask (missionId : Z) : M unit := SubmitTask (TLabelUpdated missionId).

(** The task of [CompleteFirstFrameDrawing]. *)
Definition NotifyMissionCreated (r : Z) : M unit :=
  x ← the_record r;
  mission ← gets (λ w, GetMissionById w (recordMissionId_ (life_ x)));
  match mission with
  | None => mret tt
  | Some a =>
    m ← the_mission a;
    if needNotify_ m && negb (excludeFromMissions (traits_ x)) then
      emit (MissionCreated (recordMissionId_ (life_ x))) ;;
      upd_mission a (λ m, m <| needNotify_ := false |>) ;;
      when (needNotifyUpdateLabel_ m)
        (PostMissionLabelUpdateTask (recordMissionId_ (life_ x)) ;;
         upd_mission a (λ m, m <| needNotifyUpdateLabel_ := false |>))
    else mret tt
  end.

Definition SetMissionLabel (token : option Z) (label' : string) : M Z :=
  missionId ← gets (λ w, GetMissionIdByAbilityTokenInner w token);
  if missionId <=? 0 then mret (-1)
  else
    record ← gets (λ w, GetAbilityRecordByTokenInner w token ≫= λ r, recordHeap (store_ w) !! r);
    mission ← gets (λ w, record ≫= λ x, GetMissionById w (recordMissionId_ (life_ x)));
    match mission with
    | None => mret tt
    | Some a =>
      m ← the_mission a;
      when (needNotify_ m) (upd_mission a (λ m, m <| needNotifyUpdateLabel_ := true |>))
    end ;;
    ret ← gets (λ w, UpdateMissionLabel (infos_ w) missionId label');
    modify (λ w, w <| infos_ := ret.2 |>) ;;
    when (ret.1 =? 0) (emit (MissionLabelUpdated missionId)) ;;
    mret ret.1.

Definition SetMissionANRStateByToken (token : option Z) : M unit :=
  record ← gets (λ w, GetAbilityRecordByTokenInner w token ≫= λ r, recordHeap (store_ w) !! r);
  mission ← gets (λ w, record ≫= λ x, GetMissionById w (recordMissionId_ (life_ x)));
  match mission with
  | None => mret tt
  | Some a => upd_mission a (λ m, SetANRState m true)
  end.

Definition EnableRecoverAbility (missionId : Z) : M unit :=
  info ← GetInnerMissionInfoById missionId;
  match info with
  | None => mret tt
  | Some i => UpdateMissionInfo (i <| hasRecoverInfo := true |>)
  end.

(** ** Steps *)

(** The calls of the manager. Those that are given a record are given one that exists. *)
Inductive Op :=
| OpStartAbility (q : AbilityRequest)
| OpMinimizeAbility (token : option Z) (fromUser : bool)
| OpMoveMissionToFront (missionId : Z) (fromLauncher : bool)
| OpMoveAbilityToBackground (r : Z)
| OpTerminateAbility (r : Z) (resultCode : Z) (flag : bool)
| OpAttachAbilityThread (token : option Z) (scheduler : bool) (callingPid : Z)
| OpAbilityRequestDone (token : option Z)
| OpAbilityTransactionDone (token : option Z) (state : AbilityState)
| OpTimeOut (msg : TimeoutMsg) (abilityRecordId : Z) (isHalf : bool)
| OpSchedulerDied (r : Z)
| OpClearMission (missionId : Z)
| OpClearAllMissions
| OpSetMissionLockedState (missionId : Z) (locked : bool)
| OpCallAbility (q : AbilityRequest)
| OpAcceptWantResponse (abilityName' bundleName' flag : string)
| OpStartSpecifiedTimeout
| OpUninstallApp (bundleName' : string) (uid' : Z)
| OpSignRestartAppFlag (bundleName' : string)
| OpPauseManager
| OpResumeManager
| OpDoAbilityForeground (r : Z)
| OpFirstFrame (r : Z)
| OpSetMissionLabel (token : option Z) (label' : string)
| OpSetMissionANRState (token : option Z)
| OpEnableRecoverAbility (missionId : Z)
| OpRunTask (i : nat).

Definition run_task (t : Task) : M unit :=
  match t with
  | TStartWaiting => StartWaitingAbility E
  | TForegroundDone r => CompleteForegroundSuccess r
  | TForegroundFailed r state => CompleteForegroundFailed r state
  | TBackgroundDone r | TBackgroundTimeout r => CompleteBackground r
  | TTerminateDone r | TDelayKill r => CompleteTerminate r
  | TTerminateTimeout r => DelayCompleteTerminate r
  | TBackToLauncher => BackToLauncher
  | TBackToCaller r => BackToCaller r
  | TUninstall bundleName' uid' => AddUninstallTags bundleName' uid'
  | TFirstFrame r => NotifyMissionCreated r
  | TLabelUpdated missionId => emit (MissionLabelUpdated missionId)
  | TAbilityDied r => OnAbilityDied r
  | TResults r => RunResults r
  end.

Definition run_op (op : Op) : M unit :=
  match op with
  | OpStartAbility q => StartAbility E q ;; mret tt
  | OpMinimizeAbility token fromUser => MinimizeAbility E token fromUser ;; mret tt
  | OpMoveMissionToFront missionId fromLauncher => MoveMissionToFrontInner missionId fromLauncher ;; mret tt
  | OpMoveAbilityToBackground r => MoveAbilityToBackground E r ;; mret tt
  | OpTerminateAbility r code flag => TerminateAbilityInner E r code flag ;; mret tt
  | OpAttachAbilityThread token scheduler pid => AttachAbilityThread token scheduler pid ;; mret tt
  | OpAbilityRequestDone token => OnAbilityRequestDone token
  | OpAbilityTransactionDone token state => AbilityTransactionDone token state ;; mret tt
  | OpTimeOut msg i isHalf => OnTimeOut msg i isHalf
  | OpSchedulerDied r => OnSchedulerDied r
  | OpClearMission missionId => ClearMission missionId ;; mret tt
  | OpClearAllMissions => ClearAllMissions ;; mret tt
  | OpSetMissionLockedState missionId locked => SetMissionLockedState missionId locked ;; mret tt
  | OpCallAbility q => CallAbilityLocked q ;; mret tt
  | OpAcceptWantResponse name bundle flag => OnAcceptWantResponse name bundle flag
  | OpStartSpecifiedTimeout => OnStartSpecifiedAbilityTimeoutResponse
  | OpUninstallApp bundle uid' => SubmitTask (TUninstall bundle uid')
  | OpSignRestartAppFlag bundle => SignRestartAppFlag bundle
  | OpPauseManager => PauseManager
  | OpResumeManager => BackToLauncher
  | OpDoAbilityForeground r => DoAbilityForeground r ;; mret tt
  | OpFirstFrame r => SubmitTask (TFirstFrame r)
  | OpSetMissionLabel token label' => SetMissionLabel token label' ;; mret tt
  | OpSetMissionANRState token => SetMissionANRStateByToken token
  | OpEnableRecoverAbility missionId => EnableRecoverAbility missionId
  | OpRunTask i =>
    task ← gets (λ w, tasks_ w !! i);
    match task with
    | None => mret tt
    | Some t => modify (λ w, w <| tasks_ ::= delete i |>) ;; run_task t
    end
  end.

Definition op_records (w : Manager) (op : Op) : list Z :=
  match op with
  | OpMoveAbilityToBackground r | OpTerminateAbility r _ _ | OpSchedulerDied r
  | OpDoAbilityForeground r | OpFirstFrame r => [r]
  | OpRunTask i => option_list (tasks_ w !! i) ≫= task_records
  | _ => []
  end.
End Steps.

Section Runs.
Context {WL : WantLib} {MS : MissionStore}.

(** The lists that a pointer of the manager holds. *)
Definition kept_lists (w : Manager) : list Z :=
  [launcherList_ w; defaultStandardList_ w; defaultSingleList_ w] ++ currentMissionLists_ w.

Definition release (w : Manager) : Manager :=
  w <| lists_ ::= filter (λ p, p.1 ∈ kept_lists w) |> <| frame_ := [] |>.

(** An operation holds the records it is given until it ends. *)
Definition step (E : Env) (op : Op) (w : Manager) : outcome Manager :=
  let* r := run_op E op (w <| frame_ := op_records w op |>) in Ret (release r.2).

(** The records an operation is given exist. *)
Definition enabled (w : Manager) (op : Op) : Prop :=
  Forall (λ r, r ∈ held_records w) (op_records w op).

(** [Init]: the launcher list is the only list in use. *)
Definition Init (userId : Z) (prepareEnabled : bool) (infos : MissionInfoMgr) : Manager :=
  mkManager (mkStore ∅ ∅)
    {[ 1 := mkMissionList LAUNCHER []; 2 := mkMissionList DEFAULT_STANDARD [];
       3 := mkMissionList DEFAULT_SINGLE [] ]}
    1 2 3 [1] [] [] infos userId prepareEnabled 0 4 [] [] [].
End Runs.
