(* ===== verification/MissionInvariant.v ===== *)
(** * The mission list manager: invariant and calm computations

    Total correctness of computations of the manager ([post]), the invariant of its lists
    ([Inv]), and the computations that leave the lists alone ([calm]): whatever they do to
    records, tasks and mission information, every mission stays where it is. *)

From stdpp Require Import prelude gmap strings list sorting pretty.
From Stdlib Require Import ZArith Lia.
From S2P Require Import Prelude MissionInfo MissionInfoMgr MissionList MissionManager MissionLifecycle.

Local Open Scope Z_scope.

Section Invariant.
Context {WL : WantLib} {MS : MissionStore}.
Implicit Types (w : Manager) (r a l : Z).

(** ** Postconditions *)

(** The computation is defined, and its result satisfies [Q]. *)
Definition post {A : Type} (m : M A) w (Q : A → Manager → Prop) : Prop :=
  ∃ x w', m w = Ret (x, w') ∧ Q x w'.

Lemma post_mret {A} (x : A) w (Q : A → Manager → Prop) : Q x w → post (mret x) w Q.
Proof. intros H. by exists x, w. Qed.

Lemma post_bind {A B} (m : M A) (k : A → M B) w (Q : B → Manager → Prop) :
  post m w (λ x w', post (k x) w' Q) → post (m ≫= k) w Q.
Proof.
  intros (x & w' & E1 & y & w'' & E2 & H). exists y, w''. split; [|done].
  unfold mbind, M_bind. rewrite E1. exact E2.
Qed.

Lemma post_mono {A} (m : M A) w (P Q : A → Manager → Prop) :
  post m w P → (∀ x w', P x w' → Q x w') → post m w Q.
Proof. intros (x & w' & E1 & H) HPQ. exists x, w'. auto. Qed.

Lemma post_fmap {A B} (f : A → B) (m : M A) w (Q : B → Manager → Prop) :
  post m w (λ x w', Q (f x) w') → post (f <$> m) w Q.
Proof. intros H. apply post_bind. eapply post_mono; [exact H|]. intros x w' Hx. by apply post_mret. Qed.

Lemma post_gets {A} (f : Manager → A) w (Q : A → Manager → Prop) : Q (f w) w → post (gets f) w Q.
Proof. intros H. by exists (f w), w. Qed.

Lemma post_modify (f : Manager → Manager) w (Q : unit → Manager → Prop) :
  Q tt (f w) → post (modify f) w Q.
Proof. intros H. by exists tt, (f w). Qed.

Lemma post_load {A} (f : Manager → option A) x w (Q : A → Manager → Prop) :
  f w = Some x → Q x w → post (load f) w Q.
Proof. intros H HQ. exists x, w. unfold load. by rewrite H. Qed.

Lemma post_lift {A} (f : Manager → outcome A) x w (Q : A → Manager → Prop) :
  f w = Ret x → Q x w → post (lift f) w Q.
Proof. intros H HQ. exists x, w. unfold lift. by rewrite H. Qed.

Lemma post_alloc w (Q : Z → Manager → Prop) :
  Q (next_ w) (w <| next_ ::= Z.succ |>) → post alloc w Q.
Proof. intros H. by eexists _, _. Qed.

(** ** The objects *)

Definition known w r : Prop := is_Some (recordHeap (store_ w) !! r).

(** The mission is in a list. *)
Definition in_list w l a : Prop := ∃ ml, lists_ w !! l = Some ml ∧ Some a ∈ missions_ ml.
Definition listed w a : Prop := ∃ l, in_list w l a.

Definition same_record (x y : AbilityRecord) : Prop :=
  token_ y = token_ x ∧ recordMissionId_ (life_ y) = recordMissionId_ (life_ x) ∧
  traits_ y = traits_ x ∧ abilityLaunchMode y = abilityLaunchMode x.

Definition same_mission (m n : Mission) : Prop :=
  missionId_ n = missionId_ m ∧ abilityRecord_ n = abilityRecord_ m ∧
  missionName_ n = missionName_ m ∧ specifiedFlag_ n = specifiedFlag_ m.

#[global] Instance same_record_preorder : PreOrder same_record.
Proof. split; unfold same_record; [by intros x|intros x y z; intuition congruence]. Qed.
#[global] Instance same_mission_preorder : PreOrder same_mission.
Proof. split; unfold same_mission; [by intros x|intros x y z; intuition congruence]. Qed.

Lemma post_record r w (Q : AbilityRecord → Manager → Prop) :
  known w r → (∀ x, recordHeap (store_ w) !! r = Some x → Q x w) → post (the_record r) w Q.
Proof. intros [x Hx] HQ. eapply post_load; [exact Hx|]. by apply HQ. Qed.

(** ** The invariant *)

(** A mission as the lists have it: in one list, its owner, with an existing record that
    carries the number of the mission. *)
Definition placed w l (p : option Z) : Prop :=
  ∃ a m r x, p = Some a ∧ missionHeap (store_ w) !! a = Some m ∧ ownerMissionList_ m = Some l ∧
    abilityRecord_ m = Some r ∧ recordHeap (store_ w) !! r = Some x ∧
    recordMissionId_ (life_ x) = missionId_ m.

Record Inv w : Prop := {
  inv_launcher : ∃ ml, lists_ w !! launcherList_ w = Some ml ∧ type_ ml = LAUNCHER;
  inv_standard : ∃ ml, lists_ w !! defaultStandardList_ w = Some ml ∧ type_ ml = DEFAULT_STANDARD;
  inv_single : ∃ ml, lists_ w !! defaultSingleList_ w = Some ml ∧ type_ ml = DEFAULT_SINGLE;
  inv_other : ∀ l ml, lists_ w !! l = Some ml → l ≠ launcherList_ w → l ≠ defaultStandardList_ w →
    l ≠ defaultSingleList_ w → type_ ml = CURRENT;
  inv_nodup : NoDup (currentMissionLists_ w);
  inv_current : ∀ l, l ∈ currentMissionLists_ w →
    l ≠ defaultStandardList_ w ∧ l ≠ defaultSingleList_ w ∧ is_Some (lists_ w !! l);
  inv_listed : ∀ l ml, lists_ w !! l = Some ml →
    NoDup (missions_ ml) ∧ Forall (placed w l) (missions_ ml);
  inv_held : ∀ r, r ∈ terminateAbilityList_ w ++ (tasks_ w ≫= task_records) ++ frame_ w → known w r;
  inv_tokens : ∀ r x, recordHeap (store_ w) !! r = Some x → token_ x = r;
  inv_fresh : ∀ k, next_ w ≤ k → lists_ w !! k = None ∧ missionHeap (store_ w) !! k = None ∧
    recordHeap (store_ w) !! k = None;
  inv_persist : is_Some (taskDataPersistenceMgr_ (infos_ w));
}.

Lemma inv_placed w l ml a :
  Inv w → lists_ w !! l = Some ml → Some a ∈ missions_ ml → placed w l (Some a).
Proof. intros HI Hl Ha. destruct (inv_listed w HI l ml Hl) as [_ H]. by eapply Forall_forall in H. Qed.

(** A mission is in at most one list. *)
Lemma in_list_unique w l l' a : Inv w → in_list w l a → in_list w l' a → l = l'.
Proof.
  intros HI (ml & Hl & Ha) (ml' & Hl' & Ha').
  destruct (inv_placed w l ml a HI Hl Ha) as (b & m & r & x & [= <-] & Hm & Ho & _).
  destruct (inv_placed w l' ml' a HI Hl' Ha') as (b & m' & r' & x' & [= <-] & Hm' & Ho' & _).
  congruence.
Qed.

Lemma inv_distinct w : Inv w → launcherList_ w ≠ defaultStandardList_ w ∧
  launcherList_ w ≠ defaultSingleList_ w ∧ defaultStandardList_ w ≠ defaultSingleList_ w.
Proof.
  intros HI. destruct (inv_launcher w HI) as (m1 & E1 & T1), (inv_standard w HI) as (m2 & E2 & T2),
    (inv_single w HI) as (m3 & E3 & T3).
  split_and!; intros EQ; rewrite EQ in *; congruence.
Qed.

(** Whatever holds a record, the record exists. *)
Lemma held_known w r : Inv w → r ∈ held_records w → known w r.
Proof.
  intros HI. unfold held_records. rewrite elem_of_app. intros [H|H]; [|by apply (inv_held w HI)].
  apply list_elem_of_bind in H as (ml & Hr & Hml). apply list_elem_of_bind in Hr as (p & Hr & Hp).
  apply list_elem_of_fmap in Hml as ((l & ml') & -> & Hml). apply elem_of_map_to_list in Hml.
  cbn in *. destruct (inv_listed w HI l ml' Hml) as [_ HF]. eapply Forall_forall in HF; [|exact Hp].
  destruct HF as (a & m & r' & x & -> & Hm & _ & Hr' & Hx & _).
  cbn in Hr. rewrite Hm in Hr. cbn in Hr. unfold GetAbilityRecord in Hr. rewrite Hr' in Hr.
  apply list_elem_of_singleton in Hr as ->. by exists x.
Qed.

Lemma lock_known w p r : Inv w → lock w p = Some r → known w r.
Proof.
  intros HI. unfold lock. destruct p as [q|]; cbn; [|done].
  destruct (decide (q ∈ held_records w)); [|done]. intros [= <-]. by apply held_known.
Qed.

Lemma owner_of_list w m l : owner_of w m = Some l → is_Some (lists_ w !! l).
Proof.
  unfold owner_of. destruct (GetMissionList m) as [k|]; cbn; [|done].
  destruct (decide (is_Some (lists_ w !! k))); [|done]. by intros [= <-].
Qed.

Lemma owner_of_placed w l a m :
  Inv w → in_list w l a → missionHeap (store_ w) !! a = Some m → owner_of w m = Some l.
Proof.
  intros HI (ml & Hl & Ha) Hm.
  destruct (inv_placed w l ml a HI Hl Ha) as (b & m' & r & x & [= <-] & Hm' & Ho & _).
  assert (m' = m) as -> by congruence. unfold owner_of, GetMissionList. rewrite Ho. cbn.
  by rewrite decide_True by (by exists ml).
Qed.

(** ** What the queries find *)

Lemma token_in_known w t rs r :
  Inv w → find_if (has_token w t) rs = Some r → known w r ∧ r ∈ rs.
Proof.
  intros HI [Hr Ht]%find_if_elem. split; [|done]. unfold has_token in Ht.
  destruct (recordHeap (store_ w) !! r) eqn:Ex; [|done]. by eexists.
Qed.

Lemma Token_GetAbilityRecord_known w token r :
  Inv w → Token_GetAbilityRecord w token = Some r → known w r.
Proof.
  intros HI. destruct token as [t|]; [|done]. intros H. by eapply token_in_known.
Qed.

Lemma GetAbilityFromTerminateListInner_known w token r :
  Inv w → GetAbilityFromTerminateListInner w token = Some r → known w r.
Proof.
  intros HI. destruct token as [t|]; [|done]. intros H. by eapply token_in_known.
Qed.

Lemma first_of_Some {A} w ls (f : MissionList → option A) x :
  first_of w ls f = Some x → ∃ l ml, l ∈ ls ∧ lists_ w !! l = Some ml ∧ f ml = Some x.
Proof.
  induction ls as [|l ls IH]; cbn [first_of]; [done|].
  destruct (lists_ w !! l) as [ml|] eqn:El; cbn.
  - destruct (f ml) as [y|] eqn:Ef.
    + intros [= <-]. exists l, ml. split_and!; try done. left.
    + intros (k & mk & ? & ? & ?)%IH. exists k, mk. split_and!; try done. by right.
  - intros (k & mk & ? & ? & ?)%IH. exists k, mk. split_and!; try done. by right.
Qed.

Lemma first_mission_Some s test ml a :
  first_mission s test ml = Some a → ∃ m, Some a ∈ missions_ ml ∧ missionHeap s !! a = Some m ∧ test m = true.
Proof.
  unfold first_mission. destruct (find_if _ _) as [p|] eqn:Ep; [|done]. cbn. intros ->.
  apply find_if_elem in Ep as [Hp Ht]. cbn in Ht.
  destruct (missionHeap s !! a) as [m|] eqn:Em; [|done]. by exists m.
Qed.

Lemma first_record_Some s test ml r :
  first_record s test ml = Some r → ∃ a m x, Some a ∈ missions_ ml ∧ missionHeap s !! a = Some m ∧
    abilityRecord_ m = Some r ∧ recordHeap s !! r = Some x ∧ test x = true.
Proof.
  unfold first_record. destruct (first_mission _ _ _) as [a|] eqn:Ea; [|done]. cbn.
  apply first_mission_Some in Ea as (m & Ha & Hm & Ht). rewrite Hm. cbn. unfold GetAbilityRecord in *.
  intros Hr. rewrite Hr in Ht. cbn in Ht. destruct (recordHeap s !! r) as [x|] eqn:Ex; [|done].
  by exists a, m, x.
Qed.

Lemma GetAliveAbilityRecordByToken_known w token r :
  GetAliveAbilityRecordByToken w token = Some r → known w r.
Proof.
  destruct token as [t|]; [|done]. cbn. intros (l & ml & _ & _ & Hr)%first_of_Some.
  apply first_record_Some in Hr as (a & m & x & _ & _ & _ & Hx & _). by exists x.
Qed.

Lemma GetAbilityRecordByTokenInner_known w token r :
  Inv w → GetAbilityRecordByTokenInner w token = Some r → known w r.
Proof.
  intros HI. unfold GetAbilityRecordByTokenInner.
  destruct (GetAbilityFromTerminateListInner w token) eqn:Et.
  - intros [= <-]. by eapply GetAbilityFromTerminateListInner_known.
  - apply GetAliveAbilityRecordByToken_known.
Qed.

Lemma GetLauncherRoot_known w l r :
  lists_ w !! l ≫= GetLauncherRoot (store_ w) = Some r → known w r.
Proof.
  destruct (lists_ w !! l) as [ml|]; [|done]. cbn. intros (a & m & x & _ & _ & _ & Hx & _)%first_record_Some.
  by exists x.
Qed.

Lemma GetTopAbility_known w l ml r :
  Inv w → lists_ w !! l = Some ml → GetTopAbility (store_ w) ml = Some r → known w r.
Proof.
  intros HI Hl. unfold GetTopAbility, GetTopMission. destruct (missions_ ml) as [|p ps] eqn:Ep; [done|].
  destruct (inv_listed w HI l ml Hl) as [_ HF]. rewrite Ep in HF. apply Forall_inv in HF.
  destruct HF as (a & m & r' & x & -> & Hm & _ & Hr & Hx & _). cbn. rewrite Hm. cbn.
  unfold GetAbilityRecord. rewrite Hr. intros [= <-]. by exists x.
Qed.

Lemma GetCurrentTopAbilityLocked_known w r :
  Inv w → GetCurrentTopAbilityLocked w = Some r → known w r.
Proof.
  intros HI. unfold GetCurrentTopAbilityLocked. destruct (currentMissionLists_ w) as [|l ls]; [done|].
  destruct (lists_ w !! l) eqn:El; [|done]. cbn. by eapply GetTopAbility_known.
Qed.

Lemma GetMissionById_in_list w missionId a :
  GetMissionById w missionId = Some a →
  ∃ l m, in_list w l a ∧ missionHeap (store_ w) !! a = Some m ∧ missionId_ m = missionId.
Proof.
  intros (l & ml & _ & Hl & Ha)%first_of_Some. apply first_mission_Some in Ha as (m & Ha & Hm & Hi).
  exists l, m. split_and!; [by exists ml|done|]. unfold GetMissionId in Hi. lia.
Qed.

Lemma GetCallerRecord_known w x r : Inv w → GetCallerRecord w x = Some r → known w r.
Proof.
  intros HI. unfold GetCallerRecord. destruct (last (callerList_ x)); [|done]. by apply lock_known.
Qed.

(** ** Calm computations *)

(** What every computation keeps: the lists of the manager and the identity of missions
    and records. *)
Record grows w w' : Prop := {
  g_launcher : launcherList_ w' = launcherList_ w;
  g_standard : defaultStandardList_ w' = defaultStandardList_ w;
  g_single : defaultSingleList_ w' = defaultSingleList_ w;
  g_frame : frame_ w' = frame_ w;
  g_records : ∀ r x, recordHeap (store_ w) !! r = Some x →
    ∃ y, recordHeap (store_ w') !! r = Some y ∧ same_record x y;
  g_missions : ∀ a m, missionHeap (store_ w) !! a = Some m →
    ∃ n, missionHeap (store_ w') !! a = Some n ∧ same_mission m n;
  g_lists : ∀ l ml, lists_ w !! l = Some ml → ∃ ml', lists_ w' !! l = Some ml' ∧ type_ ml' = type_ ml;
}.

#[global] Instance grows_preorder : PreOrder grows.
Proof.
  split.
  - intros w. split; try done; intros ? ? ?; eexists; split; try done.
  - intros w1 w2 w3 [H1 H2 H3 H4 H5 H6 H7] [K1 K2 K3 K4 K5 K6 K7]. split; try congruence.
    + intros r x Hx. destruct (H5 r x Hx) as (y & Hy & Hs). destruct (K5 r y Hy) as (z & Hz & Hs').
      exists z. split; [done|]. by etrans.
    + intros a m Hm. destruct (H6 a m Hm) as (n & Hn & Hs). destruct (K6 a n Hn) as (o & Ho & Hs').
      exists o. split; [done|]. by etrans.
    + intros l ml Hl. destruct (H7 l ml Hl) as (ml' & Hl' & T). destruct (K7 l ml' Hl') as (mk & Hk & T').
      exists mk. split; [done|congruence].
Qed.

Lemma grows_known w w' r : grows w w' → known w r → known w' r.
Proof. intros H [x Hx]. destruct (g_records w w' H r x Hx) as (y & Hy & _). by exists y. Qed.

(** A calm computation leaves the lists as they are. *)
Record calm w w' : Prop := {
  c_grows : grows w w';
  c_lists : lists_ w' = lists_ w;
  c_current : currentMissionLists_ w' = currentMissionLists_ w;
  c_terminate : terminateAbilityList_ w' = terminateAbilityList_ w;
  c_owner : ∀ a n, missionHeap (store_ w') !! a = Some n →
    ∃ m, missionHeap (store_ w) !! a = Some m ∧ ownerMissionList_ n = ownerMissionList_ m;
  c_records : ∀ r, known w' r → known w r;
  c_next : next_ w' = next_ w;
  c_tasks : ∀ r, r ∈ tasks_ w' ≫= task_records → r ∈ tasks_ w ≫= task_records ∨ known w r;
  c_persist : is_Some (taskDataPersistenceMgr_ (infos_ w)) → is_Some (taskDataPersistenceMgr_ (infos_ w'));
}.

#[global] Instance calm_preorder : PreOrder calm.
Proof.
  split.
  - intros w. split; try done; [|by left]. intros a n Hn. by exists n.
  - intros w1 w2 w3 [H1 H2 H3 H4 H5 H6 H7 H8 H9] [K1 K2 K3 K4 K5 K6 K7 K8 K9]. split; try congruence; auto.
    + by etrans.
    + intros a o Ho. destruct (K5 a o Ho) as (n & Hn & ?). destruct (H5 a n Hn) as (m & Hm & ?).
      exists m. split; [done|congruence].
    + intros r Hr. destruct (K8 r Hr) as [Hr'|Hr']; auto.
Qed.

Lemma grows_placed w w' l p :
  grows w w' → (∀ a m n, missionHeap (store_ w) !! a = Some m → missionHeap (store_ w') !! a = Some n →
     p = Some a → ownerMissionList_ n = ownerMissionList_ m) →
  placed w l p → placed w' l p.
Proof.
  intros Hg Ho (a & m & r & x & -> & Hm & Hl & Hr & Hx & Hi).
  destruct (g_missions w w' Hg a m Hm) as (n & Hn & S1 & S2 & _).
  destruct (g_records w w' Hg r x Hx) as (y & Hy & _ & S3 & _).
  exists a, n, r, y. split_and!; try done; [|congruence|congruence].
  rewrite <-Hl. by eapply Ho.
Qed.

Lemma calm_placed w w' l p : calm w w' → placed w l p → placed w' l p.
Proof.
  intros [Hg _ _ _ Ho _ _ _ _]. apply grows_placed; [done|]. intros a m n Hm Hn _.
  destruct (Ho a n Hn) as (m' & Hm' & ->). congruence.
Qed.

Lemma calm_Inv w w' : Inv w → calm w w' → Inv w'.
Proof.
  intros HI Hc. pose proof Hc as [Hg HL HC HT Ho Hr Hn Ht Hp].
  destruct Hg as [G1 G2 G3 G4 G5 G6 _]. destruct HI as [I1 I2 I3 I4 I0 I5 I6 I7 I8 I9 I10].
  split; rewrite ?G1, ?G2, ?G3, ?HL, ?HC; try done.
  - intros l ml Hl. destruct (I6 l ml Hl) as [Hnd HF]. split; [done|].
    eapply Forall_impl; [exact HF|]. intros p. by apply calm_placed.
  - intros r. rewrite HT, G4, !elem_of_app. intros [H|[H|H]].
    + eapply grows_known; [by destruct Hc|]. apply I7. set_solver.
    + eapply grows_known; [by destruct Hc|]. destruct (Ht r H) as [H'|H']; [|done]. apply I7. set_solver.
    + eapply grows_known; [by destruct Hc|]. apply I7. set_solver.
  - intros r y Hy. destruct (Hr r) as [x Hx]; [by exists y|].
    destruct (G5 r x Hx) as (y' & Hy' & Ht' & _). rewrite Hy in Hy'. injection Hy' as <-.
    rewrite Ht'. by apply I8.
  - intros k Hk. rewrite Hn in Hk. destruct (I9 k Hk) as (K1 & K2 & K3). split_and!; try done.
    + destruct (missionHeap (store_ w') !! k) eqn:Ek; [|done].
      destruct (Ho k m Ek) as (m' & Hm' & _). congruence.
    + destruct (recordHeap (store_ w') !! k) eqn:Ek; [|done].
      destruct (Hr k) as [? ?]; [by eexists|congruence].
  - auto.
Qed.

Lemma calm_known w w' r : calm w w' → known w r → known w' r.
Proof. intros [Hg]. by apply grows_known. Qed.

Lemma calm_in_list w w' l a : calm w w' → in_list w l a ↔ in_list w' l a.
Proof. intros [_ HL]. unfold in_list. by rewrite HL. Qed.

Lemma calm_listed w w' a : calm w w' → listed w a ↔ listed w' a.
Proof. intros H. unfold listed. by setoid_rewrite (calm_in_list _ _ _ _ H). Qed.
End Invariant.

(** ** Automation *)

Create HintDb calm.

(** The queries whose results exist. *)
Create HintDb known.
#[export] Hint Resolve lock_known Token_GetAbilityRecord_known GetAbilityFromTerminateListInner_known
  GetAliveAbilityRecordByToken_known GetAbilityRecordByTokenInner_known GetLauncherRoot_known
  GetCurrentTopAbilityLocked_known GetCallerRecord_known : known.

(** A goal that speaks of a later state of a calm run. *)
Ltac calm_side :=
  solve [ assumption
        | eapply calm_Inv; eassumption
        | eapply calm_known; eassumption
        | eapply calm_known; [eassumption|eexists; eassumption]
        | eexists; eassumption ].

#[export] Hint Extern 1 (Inv _) => calm_side : known.

(** Records that the last query found, as known in the first state of the run. *)
Ltac note_known :=
  match goal with
  | H : _ = Some ?r |- _ =>
      lazymatch goal with K : known _ r |- _ => fail | _ => idtac end;
      lazymatch type of r with Z => idtac end;
      let K := fresh "Hk" in
      first [ match goal with
              | Hc : calm ?w0 ?w |- _ =>
                  assert (known w0 r) as K by (apply (c_records w0 w Hc); eauto 2 with known)
              end
            | match goal with
              | HI : Inv ?w |- _ => assert (known w r) as K by (eauto 2 with known)
              end ]
  end.

Ltac calm_join :=
  match goal with
  | H1 : calm ?a ?b, H2 : calm ?b ?c |- _ =>
      let H := fresh "Hc" in assert (calm a c) as H by (etrans; eassumption); clear H1 H2
  end.

(** One step of a computation that is to be calm from the state [w0] of the hypotheses
    [Inv w0] and [calm w0 w]. *)
Ltac calm_step :=
  lazymatch goal with
  | |- post (mret _) _ _ => apply post_mret; first [assumption|reflexivity|idtac]
  | |- post (_ ≫= _) _ _ => apply post_bind
  | |- post (gets _) _ _ => apply post_gets
  | |- post (the_record _) _ _ =>
      let y := fresh "x" in let Hy := fresh "Hx" in
      apply post_record; [calm_side|intros y Hy]
  | |- post (if ?b then _ else _) _ _ => destruct b eqn:?
  | |- post (when ?b _) _ _ => unfold when; destruct b eqn:?
  | |- post (match ?x with _ => _ end) _ _ => destruct x eqn:?; try note_known
  end; cbn [fst snd].
