(* ===== verification/MissionCalm.v ===== *)
(** * The mission list manager: the calm operations

    The operations on records, results, tasks and mission information, each shown to be
    defined and calm in a state with the invariant. *)

From stdpp Require Import prelude gmap strings list sorting pretty.
From Stdlib Require Import ZArith Lia.
From S2P Require Import Prelude MissionInfo MissionInfoMgr MissionList MissionManager MissionLifecycle MissionInvariant.

Local Open Scope Z_scope.

Section Primitives.
Context {WL : WantLib} {MS : MissionStore}.
Implicit Types (w : Manager) (r a l : Z).

Abbreviation calm_op m w := (post m w (λ _ w', calm w w')).

(** A change outside records, missions and lists. *)
Lemma calm_same w w' :
  store_ w' = store_ w → lists_ w' = lists_ w → launcherList_ w' = launcherList_ w →
  defaultStandardList_ w' = defaultStandardList_ w → defaultSingleList_ w' = defaultSingleList_ w →
  frame_ w' = frame_ w → currentMissionLists_ w' = currentMissionLists_ w →
  terminateAbilityList_ w' = terminateAbilityList_ w → next_ w' = next_ w →
  (∀ r, r ∈ tasks_ w' ≫= task_records → r ∈ tasks_ w ≫= task_records ∨ known w r) →
  (is_Some (taskDataPersistenceMgr_ (infos_ w)) → is_Some (taskDataPersistenceMgr_ (infos_ w'))) →
  calm w w'.
Proof.
  intros Hs HL. intros. split; try done; unfold known in *; rewrite ?Hs; eauto.
  split; try done; rewrite ?Hs, ?HL; intros ? x ?; by exists x.
Qed.

Lemma calm_emit e w : calm_op (emit e) w.
Proof. apply post_modify. apply calm_same; cbn; auto. Qed.

Lemma calm_SubmitTask t w : (∀ r, r ∈ task_records t → known w r) → calm_op (SubmitTask t) w.
Proof.
  intros Ht. apply post_modify. apply calm_same; cbn; auto.
  intros r. rewrite bind_app, elem_of_app. intros [H|H]; [by left|right].
  cbn in H. rewrite app_nil_r in H. by apply Ht.
Qed.

Lemma calm_CancelTask t w : calm_op (CancelTask t) w.
Proof.
  apply post_modify. apply calm_same; cbn; auto.
  intros r. rewrite !list_elem_of_bind. intros (u & Hr & Hu). left. exists u.
  split; [done|]. by eapply elem_of_erase_first.
Qed.

Lemma calm_SubmitTaskOnce t w : (∀ r, r ∈ task_records t → known w r) → calm_op (SubmitTaskOnce t) w.
Proof.
  intros Ht. unfold SubmitTaskOnce. apply post_bind, post_gets. unfold when.
  destruct (negb _); [by apply calm_SubmitTask|by apply post_mret].
Qed.

Lemma calm_store_record w r x y :
  recordHeap (store_ w) !! r = Some x → same_record x y →
  calm w (w <| store_ ::= (λ s, set_record s r y) |>).
Proof.
  intros Hx Hs. split; try done; cbn.
  - split; try done; cbn.
    + intros q z Hz. rewrite lookup_insert. case_decide as Hq; [|by exists z].
      subst q. exists y. split; [done|]. congruence.
    + intros b m Hm. by exists m.
    + intros l ml Hl. by exists ml.
  - eauto.
  - intros q. unfold known. cbn. rewrite lookup_insert. case_decide as Hq; [|done].
    subst q. rewrite Hx. eauto.
  - auto.
Qed.

Lemma calm_upd_record r f w :
  known w r → (∀ x, recordHeap (store_ w) !! r = Some x → same_record x (f x)) →
  calm_op (upd_record r f) w.
Proof.
  intros [x Hx] Hf. unfold upd_record. apply post_bind. eapply post_load; [exact Hx|].
  apply post_modify. eapply calm_store_record; eauto.
Qed.

Lemma calm_upd_life r f w :
  known w r → (∀ y, recordMissionId_ (f y) = recordMissionId_ y) → calm_op (upd_life r f) w.
Proof. intros Hr Hf. apply calm_upd_record; [done|]. intros x _. split_and!; try done. apply Hf. Qed.

Lemma calm_store_mission w a m n :
  missionHeap (store_ w) !! a = Some m → same_mission m n → ownerMissionList_ n = ownerMissionList_ m →
  calm w (w <| store_ ::= (λ s, set_mission s a n) |>).
Proof.
  intros Hm Hs Ho. split; try done; cbn.
  - split; try done; cbn.
    + intros q z Hz. by exists z.
    + intros b k Hk. rewrite lookup_insert. case_decide as Hb; [|by exists k].
      subst b. exists n. split; [done|]. congruence.
    + intros l ml Hl. by exists ml.
  - intros b k. rewrite lookup_insert. case_decide as Hb; [|by exists k].
    subst b. intros [= <-]. by exists m.
  - auto.
Qed.

Lemma calm_upd_mission a f w :
  is_Some (missionHeap (store_ w) !! a) →
  (∀ m, same_mission m (f m) ∧ ownerMissionList_ (f m) = ownerMissionList_ m) →
  calm_op (upd_mission a f) w.
Proof.
  intros [m Hm] Hf. unfold upd_mission. apply post_bind. eapply post_load; [exact Hm|].
  apply post_modify. destruct (Hf m). by eapply calm_store_mission.
Qed.

(** Changes of the rest of the state. *)
Lemma calm_infos w i :
  (is_Some (taskDataPersistenceMgr_ (infos_ w)) → is_Some (taskDataPersistenceMgr_ i)) →
  calm w (w <| infos_ := i |>).
Proof. intros H. apply calm_same; cbn; auto. Qed.

Lemma calm_queue w f : calm w (w <| waitingAbilityQueue_ ::= f |>).
Proof. apply calm_same; cbn; auto. Qed.
End Primitives.

#[export] Hint Resolve calm_emit calm_CancelTask : calm.
#[export] Hint Extern 2 (post (SubmitTask _) _ _) =>
  apply calm_SubmitTask; cbn [task_records]; intros ? ?;
  repeat match goal with H : _ ∈ _ |- _ => first [apply list_elem_of_singleton in H; subst | apply not_elem_of_nil in H; destruct H] end;
  calm_side : calm.
#[export] Hint Extern 2 (post (SubmitTaskOnce _) _ _) =>
  apply calm_SubmitTaskOnce; cbn [task_records]; intros ? ?;
  repeat match goal with H : _ ∈ _ |- _ => first [apply list_elem_of_singleton in H; subst | apply not_elem_of_nil in H; destruct H] end;
  calm_side : calm.
#[export] Hint Extern 2 (post (upd_life _ _) _ _) => apply calm_upd_life; [calm_side|done] : calm.
#[export] Hint Extern 2 (post (upd_record _ _) _ _) =>
  apply calm_upd_record; [calm_side|intros ? _; by repeat split] : calm.

#[export] Hint Extern 1 (known _ _) => calm_side : calm.
#[export] Hint Extern 1 (Inv _) => calm_side : calm.

(** Runs a computation whose parts are calm. *)
Ltac calm_call :=
  eapply post_mono; [solve [eauto 3 with calm]|];
  let H := fresh "Hc" in intros ? ? H; cbn beta in H; try calm_join.

Ltac calm_run := repeat first [calm_step | calm_call]; try calm_side; try reflexivity.

Section Lifecycle.
Context {WL : WantLib} {MS : MissionStore} (E : Env).
Implicit Types (w : Manager) (r a l : Z).

Abbreviation calm_op m w := (post m w (λ _ w', calm w w')).

Lemma SetMissionAbilityState_persist i missionId state :
  taskDataPersistenceMgr_ (SetMissionAbilityState i missionId state) = taskDataPersistenceMgr_ i.
Proof. unfold SetMissionAbilityState. by repeat case_match. Qed.

Lemma calm_SetAbilityStateInner r state w :
  known w r → calm_op (SetAbilityStateInner r state) w.
Proof.
  intros Hr. unfold SetAbilityStateInner. calm_run.
  all: apply post_modify; etrans; [eassumption|]; apply calm_infos;
    by rewrite SetMissionAbilityState_persist.
Qed.
#[local] Hint Resolve calm_SetAbilityStateInner : calm.

Lemma calm_SetRestarting r b w : known w r → calm_op (SetRestarting r b) w.
Proof. intros Hr. unfold SetRestarting. calm_run. Qed.
#[local] Hint Resolve calm_SetRestarting : calm.

Lemma calm_SetAbilityState r state w : known w r → calm_op (SetAbilityState r state) w.
Proof. intros Hr. unfold SetAbilityState. calm_run. Qed.
#[local] Hint Resolve calm_SetAbilityState : calm.

Lemma calm_SetPendingState r state w : known w r → calm_op (SetPendingState r state) w.
Proof. intros Hr. unfold SetPendingState. calm_run. Qed.
#[local] Hint Resolve calm_SetPendingState : calm.

Lemma calm_SetAbilityForegroundingFlag r w : known w r → calm_op (SetAbilityForegroundingFlag r) w.
Proof. intros Hr. unfold SetAbilityForegroundingFlag. calm_run. Qed.
#[local] Hint Resolve calm_SetAbilityForegroundingFlag : calm.

Lemma calm_deal r e w : known w r → calm_op (deal r e) w.
Proof. intros Hr. unfold deal. calm_run. Qed.
#[local] Hint Resolve calm_deal : calm.

Lemma calm_CallRequest r w : known w r → calm_op (CallRequest r) w.
Proof. intros Hr. unfold CallRequest. calm_run. Qed.

Lemma calm_PrepareTerminateAbility r w : known w r → calm_op (PrepareTerminateAbility E r) w.
Proof. intros Hr. unfold PrepareTerminateAbility. calm_run. Qed.

Lemma calm_LoadAbility r w : known w r → calm_op (LoadAbility E r) w.
Proof. intros Hr. unfold LoadAbility. calm_run. Qed.
#[local] Hint Resolve calm_LoadAbility : calm.

Lemma calm_ForegroundAbility r w : known w r → calm_op (ForegroundAbility r) w.
Proof. intros Hr. unfold ForegroundAbility, ForegroundNew. calm_run. Qed.
#[local] Hint Resolve calm_ForegroundAbility : calm.

Lemma calm_ProcessForegroundAbility r w : known w r → calm_op (ProcessForegroundAbility E r) w.
Proof. intros Hr. unfold ProcessForegroundAbility. calm_run. Qed.

Lemma calm_ProcessForegroundAbility_from r w : known w r → calm_op (ProcessForegroundAbility_from r) w.
Proof. intros Hr. unfold ProcessForegroundAbility_from. calm_run. Qed.

Lemma calm_ProcessForegroundAbility_request r w :
  known w r → calm_op (ProcessForegroundAbility_request E r) w.
Proof. intros Hr. unfold ProcessForegroundAbility_request. calm_run. Qed.

Lemma calm_BackgroundAbility r w : known w r → calm_op (BackgroundAbility r) w.
Proof. intros Hr. unfold BackgroundAbility, SaveAbilityState, BackgroundNew. calm_run. Qed.
#[local] Hint Resolve calm_BackgroundAbility : calm.

Lemma calm_Terminate r w : known w r → calm_op (Terminate r) w.
Proof. intros Hr. unfold Terminate, LifecycleDeal_Terminate. calm_run. Qed.
#[local] Hint Resolve calm_Terminate : calm.

(** *** Results *)

Lemma calm_each {A} (xs : list A) (f : A → M unit) w :
  Inv w → (∀ x w', x ∈ xs → Inv w' → calm w w' → calm_op (f x) w') → calm_op (each xs f) w.
Proof.
  revert w. induction xs as [|x xs IH]; intros w HI Hf; cbn [each]; [by apply post_mret|].
  apply post_bind. eapply post_mono; [apply Hf; [left|done|done]|cbn beta]. intros ? w' Hc.
  eapply post_mono; [apply IH; [by eapply calm_Inv|]|cbn beta].
  - intros y w'' Hy HI'' Hc''. apply Hf; [by right|done|by etrans].
  - intros ? w'' Hc''. by etrans.
Qed.

Lemma calm_SaveResult code c w : Inv w → calm_op (SaveResult code c) w.
Proof. intros HI. unfold SaveResult. calm_run. Qed.
#[local] Hint Resolve calm_SaveResult : calm.

Lemma calm_SaveResultToCallers r code w : Inv w → known w r → calm_op (SaveResultToCallers r code) w.
Proof.
  intros HI Hr. unfold SaveResultToCallers. apply post_bind, post_record; [done|]. intros x _.
  apply post_bind. eapply post_mono; [apply calm_each; [done|]; auto with calm|cbn beta]. intros ? w' Hc.
  eapply post_mono; [apply calm_each; [by eapply calm_Inv|]; auto with calm|cbn beta]. intros ? w'' Hc'.
  by etrans.
Qed.
#[local] Hint Resolve calm_SaveResultToCallers : calm.

Lemma calm_Record_SendResult c w : known w c → calm_op (Record_SendResult c) w.
Proof. intros Hr. unfold Record_SendResult. calm_run. Qed.
#[local] Hint Resolve calm_Record_SendResult : calm.

Lemma calm_SendResultToCallers r w : Inv w → known w r → calm_op (SendResultToCallers r) w.
Proof.
  intros HI Hr. unfold SendResultToCallers. apply post_bind, post_record; [done|]. intros x _.
  apply calm_each; [done|]. intros c w' _ HI' _. unfold SendResultToCaller. calm_run.
Qed.
#[local] Hint Resolve calm_SendResultToCallers : calm.

Lemma calm_RunResults r w : Inv w → known w r → calm_op (RunResults r) w.
Proof. intros HI Hr. unfold RunResults. calm_run. Qed.

Lemma calm_AddCallerRecord r t code w : Inv w → known w r → calm_op (AddCallerRecord r t code) w.
Proof. intros HI Hr. unfold AddCallerRecord. calm_run. Qed.

(** *** Mission information *)

Lemma AddMissionInfo_persist s info :
  is_Some (taskDataPersistenceMgr_ s) →
  ∃ b s', MissionInfoMgr.AddMissionInfo s info = Ret (b, s') ∧ is_Some (taskDataPersistenceMgr_ s').
Proof.
  intros [st Hst]. unfold MissionInfoMgr.AddMissionInfo, AddMissionInfoInner.
  destruct (is_saved s (mission_id info)); [by eexists _, _|]. rewrite Hst. cbn.
  destruct (store_SaveMissionInfo info st) as [[] st']; eexists _, _; (split; [done|]); by eexists.
Qed.

Lemma UpdateMissionInfo_persist s info :
  is_Some (taskDataPersistenceMgr_ s) →
  ∃ b s', MissionInfoMgr.UpdateMissionInfo s info = Ret (b, s') ∧ is_Some (taskDataPersistenceMgr_ s').
Proof.
  intros Hs. unfold MissionInfoMgr.UpdateMissionInfo.
  destruct (negb _); [by eexists _, _|]. destruct (find_if _ _) as [old|]; [|by eexists _, _].
  destruct (String.eqb _ _).
  - destruct Hs as [st Hst]. cbn. rewrite Hst. cbn.
    destruct (store_SaveMissionInfo info st) as [ok st']. eexists _, _. split; [done|]. by eexists.
  - by apply AddMissionInfo_persist.
Qed.

Lemma DeleteMissionInfo_persist s i :
  is_Some (taskDataPersistenceMgr_ s) →
  is_Some (taskDataPersistenceMgr_ (MissionInfoMgr.DeleteMissionInfo s i).2).
Proof.
  intros Hs. unfold MissionInfoMgr.DeleteMissionInfo.
  destruct Hs as [st Hst]. rewrite Hst. by repeat case_match; simplify_eq; cbn; eauto.
Qed.

Lemma GenerateMissionId_persist s :
  taskDataPersistenceMgr_ (MissionInfoMgr.GenerateMissionId s).2 = taskDataPersistenceMgr_ s.
Proof. unfold MissionInfoMgr.GenerateMissionId. by repeat case_match. Qed.

Lemma calm_UpdateMissionInfo info w : Inv w → calm_op (UpdateMissionInfo info) w.
Proof.
  intros HI. destruct (UpdateMissionInfo_persist (infos_ w) info (inv_persist w HI)) as (b & s & Es & Hs).
  unfold UpdateMissionInfo. apply post_bind. eapply post_lift; [exact Es|]. apply post_modify.
  by apply calm_infos.
Qed.
#[local] Hint Resolve calm_UpdateMissionInfo : calm.

Lemma calm_AddMissionInfo info w : Inv w → calm_op (AddMissionInfo info) w.
Proof.
  intros HI. destruct (AddMissionInfo_persist (infos_ w) info (inv_persist w HI)) as (b & s & Es & Hs).
  unfold AddMissionInfo. apply post_bind. eapply post_lift; [exact Es|]. apply post_modify.
  by apply calm_infos.
Qed.

Lemma calm_DeleteMissionInfo i w : calm_op (DeleteMissionInfo i) w.
Proof. apply post_modify, calm_infos, DeleteMissionInfo_persist. Qed.
#[local] Hint Resolve calm_DeleteMissionInfo : calm.

Lemma calm_GenerateMissionId w : calm_op GenerateMissionId w.
Proof. eexists _, _. split; [done|]. apply calm_infos. by rewrite GenerateMissionId_persist. Qed.

Lemma calm_RemoveMissionLocked i b w : calm_op (RemoveMissionLocked i b) w.
Proof. unfold RemoveMissionLocked. calm_run. Qed.

(** *** Transitions *)

Lemma calm_UpdateMissionSnapshot r w : known w r → calm_op (UpdateMissionSnapshot r) w.
Proof. intros Hr. unfold UpdateMissionSnapshot. calm_run. Qed.
#[local] Hint Resolve calm_UpdateMissionSnapshot : calm.

Lemma calm_MoveToBackgroundTask r b w : known w r → calm_op (MoveToBackgroundTask E r b) w.
Proof. intros Hr. unfold MoveToBackgroundTask. calm_run. Qed.
#[local] Hint Resolve calm_MoveToBackgroundTask : calm.

Lemma calm_TerminatePreviousAbility r w : Inv w → known w r → calm_op (TerminatePreviousAbility E r) w.
Proof. intros HI Hr. unfold TerminatePreviousAbility. calm_run. Qed.

Lemma calm_SetWant r q w : known w r → calm_op (SetWant r q) w.
Proof. intros Hr. unfold SetWant. calm_run. Qed.

Lemma calm_SetScheduler r b pid w : known w r → calm_op (SetScheduler r b pid) w.
Proof. intros Hr. unfold SetScheduler. calm_run. Qed.

Lemma calm_OnSchedulerDied r w : known w r → calm_op (OnSchedulerDied r) w.
Proof. intros Hr. unfold OnSchedulerDied. calm_run. Qed.
End Lifecycle.

#[export] Hint Resolve calm_SetAbilityStateInner calm_SetRestarting calm_SetAbilityState
  calm_SetPendingState calm_SetAbilityForegroundingFlag calm_LoadAbility calm_ForegroundAbility
  calm_ProcessForegroundAbility calm_ProcessForegroundAbility_from
  calm_ProcessForegroundAbility_request calm_BackgroundAbility calm_Terminate
  calm_SaveResultToCallers calm_SendResultToCallers calm_RunResults calm_AddCallerRecord
  calm_UpdateMissionInfo calm_AddMissionInfo calm_DeleteMissionInfo calm_GenerateMissionId
  calm_RemoveMissionLocked calm_UpdateMissionSnapshot calm_MoveToBackgroundTask
  calm_TerminatePreviousAbility calm_SetWant calm_SetScheduler calm_OnSchedulerDied
  calm_deal calm_CallRequest calm_PrepareTerminateAbility : calm.
