(* ===== verification/MissionPlaces.v ===== *)
(** * The mission list manager: moving missions between lists

    The operations that take missions and lists elsewhere, each with what it does to the
    place of every mission, and the invariant after it. [ok] relates the state before an
    operation to one after it that has the invariant again. *)

From stdpp Require Import prelude gmap strings list sorting pretty.
From Stdlib Require Import ZArith Lia.
From S2P Require Import Prelude MissionInfo MissionInfoMgr MissionList MissionManager MissionLifecycle.
From S2P Require Import MissionOps MissionInvariant MissionCalm.

Local Open Scope Z_scope.

(** Erasing the only occurrence of an element. *)
Lemma elem_of_erase_one {A : Type} `{EqDecision A} (xs : list A) (a y : A) :
  NoDup xs → y ∈ erase_first (λ p, bool_decide (p = a)) xs ↔ y ∈ xs ∧ y ≠ a.
Proof.
  induction 1 as [|x xs Hx Hnd IH]; cbn [erase_first]; [set_solver|].
  case_bool_decide as Ex; [subst x|]; rewrite ?elem_of_cons, ?IH; set_solver.
Qed.

Section Places.
Context {WL : WantLib} {MS : MissionStore}.
Implicit Types (w : Manager) (r a b l : Z).

(** ** What later steps of an operation rely on *)

Record ok w w' : Prop := { ok_grows : grows w w'; ok_inv : Inv w' }.

Definition has_list w l : Prop := is_Some (lists_ w !! l).

(** A list that may be in use. *)
Definition usable w l : Prop :=
  has_list w l ∧ l ≠ defaultStandardList_ w ∧ l ≠ defaultSingleList_ w.

(** A mission with its record, whether in a list or not. *)
Definition whole w a : Prop :=
  ∃ m r x, missionHeap (store_ w) !! a = Some m ∧ abilityRecord_ m = Some r ∧
    recordHeap (store_ w) !! r = Some x ∧ recordMissionId_ (life_ x) = missionId_ m.

(** A mission that can be put in the list: it is in no other one. *)
Definition placeable w l a : Prop := whole w a ∧ ∀ l', in_list w l' a → l' = l.

Lemma ok_refl w : Inv w → ok w w.
Proof. by split. Qed.

Lemma ok_trans w1 w2 w3 : ok w1 w2 → ok w2 w3 → ok w1 w3.
Proof. intros [H1 _] [H2 HI]. split; [by etrans|done]. Qed.

Lemma calm_ok w w' : Inv w → calm w w' → ok w w'.
Proof. intros HI Hc. split; [by destruct Hc|by eapply calm_Inv]. Qed.

Lemma grows_whole w w' a : grows w w' → whole w a → whole w' a.
Proof.
  intros Hg (m & r & x & Hm & Hr & Hx & Hi).
  destruct (g_missions w w' Hg a m Hm) as (n & Hn & S1 & S2 & _).
  destruct (g_records w w' Hg r x Hx) as (y & Hy & _ & S3 & _).
  exists n, r, y. split_and!; congruence.
Qed.

Lemma grows_has_list w w' l : grows w w' → has_list w l → has_list w' l.
Proof. intros Hg [ml Hl]. destruct (g_lists w w' Hg l ml Hl) as (ml' & Hl' & _). by exists ml'. Qed.

Lemma grows_usable w w' l : grows w w' → usable w l → usable w' l.
Proof.
  intros Hg (H1 & H2 & H3). split; [by eapply grows_has_list|].
  by rewrite (g_standard _ _ Hg), (g_single _ _ Hg).
Qed.

Lemma in_list_has_list w l a : in_list w l a → has_list w l.
Proof. intros (ml & Hl & _). by exists ml. Qed.

Lemma in_list_whole w l a : Inv w → in_list w l a → whole w a.
Proof.
  intros HI (ml & Hl & Ha). destruct (inv_placed w l ml a HI Hl Ha) as (b & m & r & x & [= <-] & ? & _ & ? & ? & ?).
  by exists m, r, x.
Qed.

Lemma in_list_placeable w l a : Inv w → in_list w l a → placeable w l a.
Proof. intros HI Ha. split; [by eapply in_list_whole|]. intros l' Ha'. by eapply in_list_unique. Qed.

Lemma unlisted_placeable w l a : whole w a → ¬ listed w a → placeable w l a.
Proof. intros Hw Hn. split; [done|]. intros l' Ha. destruct Hn. by exists l'. Qed.

Lemma inv_default w :
  Inv w → has_list w (launcherList_ w) ∧ has_list w (defaultStandardList_ w) ∧ has_list w (defaultSingleList_ w).
Proof.
  intros HI. destruct (inv_launcher w HI) as (m1 & ? & _), (inv_standard w HI) as (m2 & ? & _),
    (inv_single w HI) as (m3 & ? & _). split_and!; by eexists.
Qed.

Lemma inv_launcher_usable w : Inv w → usable w (launcherList_ w).
Proof.
  intros HI. destruct (inv_distinct w HI) as (? & ? & ?). split; [|done]. by apply inv_default.
Qed.

(** ** Rebuilding the invariant *)

Lemma Inv_rebuild w w' :
  Inv w → grows w w' →
  (∀ l ml, lists_ w' !! l = Some ml → lists_ w !! l = None → type_ ml = CURRENT) →
  NoDup (currentMissionLists_ w') → (∀ l, l ∈ currentMissionLists_ w' → usable w' l) →
  (∀ l ml, lists_ w' !! l = Some ml → NoDup (missions_ ml) ∧ Forall (placed w' l) (missions_ ml)) →
  (∀ r, r ∈ terminateAbilityList_ w' ++ (tasks_ w' ≫= task_records) → known w' r) →
  (∀ r x, recordHeap (store_ w') !! r = Some x → token_ x = r) →
  (∀ k, next_ w' ≤ k → lists_ w' !! k = None ∧ missionHeap (store_ w') !! k = None ∧
    recordHeap (store_ w') !! k = None) →
  is_Some (taskDataPersistenceMgr_ (infos_ w')) →
  Inv w'.
Proof.
  intros HI Hg Hnew Hnd Hcur Hlist Hheld Htok Hfresh Hp. pose proof Hg as [G1 G2 G3 G4 _ _ G7].
  split; try done.
  - destruct (inv_launcher w HI) as (ml & Hl & T). destruct (G7 _ _ Hl) as (ml' & Hl' & T').
    exists ml'. rewrite G1. split; [done|congruence].
  - destruct (inv_standard w HI) as (ml & Hl & T). destruct (G7 _ _ Hl) as (ml' & Hl' & T').
    exists ml'. rewrite G2. split; [done|congruence].
  - destruct (inv_single w HI) as (ml & Hl & T). destruct (G7 _ _ Hl) as (ml' & Hl' & T').
    exists ml'. rewrite G3. split; [done|congruence].
  - rewrite G1, G2, G3. intros l ml Hl N1 N2 N3. destruct (lists_ w !! l) as [m0|] eqn:E0; [|by eapply Hnew].
    destruct (G7 _ _ E0) as (m1 & E1 & T). rewrite Hl in E1. injection E1 as <-. rewrite T.
    by eapply inv_other.
  - intros l Hl. destruct (Hcur l Hl) as (? & ? & ?). done.
  - intros r. rewrite app_assoc, elem_of_app, G4. intros [H|H]; [by apply Hheld|].
    eapply grows_known; [done|]. apply (inv_held w HI). set_solver.
Qed.

(** The missions of a list are replaced. *)
Lemma ok_set_list w l ml ps :
  Inv w → lists_ w !! l = Some ml → NoDup ps → Forall (placed w l) ps →
  ok w (w <| lists_ ::= <[l := mkMissionList (type_ ml) ps]> |>).
Proof.
  intros HI Hl Hnd HF.
  assert (grows w (w <| lists_ ::= <[l := mkMissionList (type_ ml) ps]> |>)) as Hg.
  { split; try done; cbn.
    - intros r x Hx. by exists x.
    - intros b m Hm. by exists m.
    - intros k mk Hk. rewrite lookup_insert. case_decide as Hlk; [|by exists mk].
      subst k. eexists. split; [done|]. cbn. congruence. }
  split; [done|]. apply (Inv_rebuild w); [done|done|..]; cbn.
  - intros k mk. rewrite lookup_insert. case_decide; [|congruence]. subst k. congruence.
  - apply (inv_nodup w HI).
  - intros k Hk. destruct (inv_current w HI k Hk) as (? & ? & ?). by eapply grows_usable.
  - intros k mk. rewrite lookup_insert. case_decide.
    + subst k. intros [= <-]. by split.
    + apply (inv_listed w HI).
  - intros r Hr. apply (inv_held w HI). rewrite app_assoc, elem_of_app. by left.
  - apply (inv_tokens w HI).
  - intros k Hk. destruct (inv_fresh w HI k Hk) as (? & ? & ?). split_and!; try done.
    rewrite lookup_insert. case_decide; [congruence|done].
  - apply (inv_persist w HI).
Qed.

Lemma in_list_set_list w l t ps k b :
  in_list (w <| lists_ ::= <[l := mkMissionList t ps]> |>) k b ↔
  (k = l ∧ Some b ∈ ps) ∨ (k ≠ l ∧ in_list w k b).
Proof.
  unfold in_list. cbn. destruct (decide (k = l)) as [->|N].
  - rewrite lookup_insert_eq. split.
    + intros (ml & [= <-] & H). by left.
    + intros [[_ H]|[? _]]; [|done]. by eexists.
  - rewrite lookup_insert_ne by done. naive_solver.
Qed.

(** The owner of a mission is set. *)
Lemma ok_set_owner w l a m :
  Inv w → missionHeap (store_ w) !! a = Some m → placeable w l a →
  let w' := w <| store_ ::= (λ s, set_mission s a (SetMissionList m (Some l))) |> in
  ok w w' ∧ placed w' l (Some a) ∧ ∀ k p, placed w k p → p ≠ Some a → placed w' k p.
Proof.
  intros HI Hm [(m' & r & x & Hm' & Hr & Hx & Hi) Hp] w'. assert (m' = m) as -> by congruence.
  assert (grows w w') as Hg.
  { split; try done; cbn.
    - intros q y Hy. by exists y.
    - intros b n Hn. rewrite lookup_insert. case_decide; [|by exists n]. subst b.
      eexists. split; [done|]. rewrite Hm in Hn. injection Hn as <-. done.
    - intros k mk Hk. by exists mk. }
  assert (placed w' l (Some a)) as Ha.
  { exists a, (SetMissionList m (Some l)), r, x. split_and!; try done. cbn. apply lookup_insert_eq. }
  assert (∀ k p, placed w k p → p ≠ Some a → placed w' k p) as Ho.
  { intros k p (b & n & q & y & -> & Hn & H1 & H2 & H3 & H4) Nb. exists b, n, q, y.
    split_and!; try done. cbn. rewrite lookup_insert_ne by congruence. done. }
  split_and!; [|done|done]. split; [done|]. apply (Inv_rebuild w); [done|done|..]; cbn.
  - congruence.
  - apply (inv_nodup w HI).
  - intros k Hk. destruct (inv_current w HI k Hk) as (? & ? & ?). by eapply grows_usable.
  - intros k mk Hk. destruct (inv_listed w HI k mk Hk) as [H1 H2]. split; [done|].
    apply Forall_forall. intros p Hpk. destruct (decide (p = Some a)) as [->|Np].
    + assert (k = l) as -> by (apply Hp; by exists mk). done.
    + apply Ho; [|done]. by eapply Forall_forall in H2.
  - intros q Hq. apply (inv_held w HI). rewrite app_assoc, elem_of_app. by left.
  - apply (inv_tokens w HI).
  - intros k Hk. destruct (inv_fresh w HI k Hk) as (? & ? & ?). split_and!; try done.
    rewrite lookup_insert. case_decide; [congruence|done].
  - apply (inv_persist w HI).
Qed.

(** ** Adding and removing *)

Definition top_of w l : option Z := lists_ w !! l ≫= GetTopMission.

(** Only the mission [a] may have changed its place. *)
Record shifted w w' a : Prop := {
  sh_ok : ok w w';
  sh_others : ∀ k b, b ≠ a → in_list w' k b ↔ in_list w k b;
  sh_current : currentMissionLists_ w' = currentMissionLists_ w;
}.

Lemma post_list l w (Q : MissionList → Manager → Prop) :
  has_list w l → (∀ ml, lists_ w !! l = Some ml → Q ml w) → post (the_list l) w Q.
Proof. intros [ml Hl] HQ. eapply post_load; [exact Hl|]. by apply HQ. Qed.

Lemma post_mission a w (Q : Mission → Manager → Prop) :
  whole w a →
  (∀ m r, missionHeap (store_ w) !! a = Some m → abilityRecord_ m = Some r → known w r → Q m w) →
  post (the_mission a) w Q.
Proof.
  intros (m & r & x & Hm & Hr & Hx & _) HQ. eapply post_load; [exact Hm|].
  eapply HQ; [done|done|by exists x].
Qed.

Lemma AddToTop_spec l a w :
  Inv w → has_list w l → placeable w l a →
  post (AddToTop l a) w (λ _ w', shifted w w' a ∧ top_of w' l = Some a ∧ in_list w' l a ∧
    ∀ k, k ≠ l → lists_ w' !! k = lists_ w !! k).
Proof.
  intros HI Hl Hp. unfold AddToTop. apply post_bind, post_list; [done|]. intros ml Eml. apply post_bind.
  destruct Hp as [Hw Hp]. pose proof Hw as (m & r & x & Hm & _).
  destruct (bool_decide (head (missions_ ml) = Some (Some a))) eqn:Et.
  { apply bool_decide_eq_true in Et. destruct (missions_ ml) as [|p ps] eqn:Ep; [done|].
    injection Et as ->. assert (lists_ w = <[l := ml]> (lists_ w)) as Esame by (by rewrite insert_id).
    eapply post_lift; [unfold AddMissionToTop; rewrite Ep; cbn; by rewrite bool_decide_true by done|].
    apply post_modify. cbn [fst snd].
    assert ((w <| store_ := store_ w |> <| lists_ ::= <[l:=ml]> |>) = w) as ->.
    { assert (∀ L, L = lists_ w → (w <| store_ := store_ w |> <| lists_ := L |>) = w) as HL
        by (intros ? ->; by destruct w). apply HL. symmetry. exact Esame. }
    split_and!; [split; [by apply ok_refl|done|done]|..].
    - unfold top_of. rewrite Eml. cbn. unfold GetTopMission. by rewrite Ep.
    - exists ml. split; [done|]. rewrite Ep. left.
    - done. }
  eapply post_lift; [unfold AddMissionToTop; rewrite Et, Hm; reflexivity|].
  apply post_modify. cbn [fst snd].
  destruct (ok_set_owner w l a m HI Hm (conj Hw Hp)) as (Hok & Hpl & Hoth).
  set (w1 := w <| store_ ::= (λ s, set_mission s a (SetMissionList m (Some l))) |>) in *.
  set (ps := Some a :: filter (λ p, p ≠ Some a) (missions_ ml)).
  destruct (inv_listed w HI l ml Eml) as [Hnd HF].
  assert (ok w1 (w1 <| lists_ ::= <[l := mkMissionList (type_ ml) ps]> |>)) as Hok2.
  { apply ok_set_list; [apply Hok|done|..].
    - constructor; [|by apply NoDup_filter]. rewrite list_elem_of_filter. by intros [? _].
    - constructor; [done|]. apply Forall_forall. intros p [Np Hpp]%list_elem_of_filter.
      apply Hoth; [|done]. by eapply Forall_forall in HF. }
  change (w <| store_ := _ |> <| lists_ ::= _ |>) with (w1 <| lists_ ::= <[l := mkMissionList (type_ ml) ps]> |>).
  split_and!.
  - split; [by eapply ok_trans| |done]. intros k b Nb. rewrite in_list_set_list.
    assert (Some b ∈ ps ↔ Some b ∈ missions_ ml) as ->.
    { unfold ps. rewrite elem_of_cons, list_elem_of_filter. naive_solver. }
    change (in_list w1 k b) with (in_list w k b). split.
    + intros [[-> H]|[_ H]]; [by exists ml|done].
    + destruct (decide (k = l)) as [->|]; [|by right]. intros (ml' & Eml' & H). left. naive_solver.
  - unfold top_of. cbn. by rewrite lookup_insert_eq.
  - apply in_list_set_list. left. split; [done|]. left.
  - intros k N. cbn. by rewrite lookup_insert_ne.
Qed.

Lemma RemoveFrom_spec l a w :
  Inv w → has_list w l →
  post (RemoveFrom l a) w (λ _ w', shifted w w' a ∧ ¬ in_list w' l a ∧
    (∀ k, in_list w' k a → in_list w k a) ∧
    lists_ w' !! l = (λ ml, RemoveMission ml (Some a)) <$> lists_ w !! l).
Proof.
  intros HI Hl. unfold RemoveFrom, upd_list. apply post_bind, post_list; [done|]. intros ml Eml.
  apply post_modify. unfold RemoveMission. set (ps := erase_first _ _).
  destruct (inv_listed w HI l ml Eml) as [Hnd HF].
  assert (sublist ps (missions_ ml)) as Hs by apply erase_first_sublist.
  assert (∀ p, p ∈ ps ↔ p ∈ missions_ ml ∧ p ≠ Some a) as Hps by (intros p; by apply elem_of_erase_one).
  split_and!.
  - split; [|intros k b Nb|done].
    + apply ok_set_list; [done|done|by eapply sublist_NoDup|].
      apply Forall_forall. intros p [Hp _]%Hps. by eapply Forall_forall in HF.
    + rewrite in_list_set_list, Hps. destruct (decide (k = l)) as [->|]; [|naive_solver].
      unfold in_list. naive_solver.
  - rewrite in_list_set_list, Hps. naive_solver.
  - intros k. rewrite in_list_set_list, Hps. intros [[-> [H _]]|[_ H]]; [by exists ml|done].
  - cbn. by rewrite Eml, lookup_insert_eq.
Qed.

Lemma top_of_Some w l a : top_of w l = Some a → ∃ ml ps, lists_ w !! l = Some ml ∧ missions_ ml = Some a :: ps.
Proof.
  unfold top_of. destruct (lists_ w !! l) as [ml|]; [|done]. cbn. unfold GetTopMission.
  destruct (missions_ ml) as [|p ps] eqn:Ep; [done|]. intros ->. by exists ml, ps.
Qed.

Lemma top_of_in_list w l a : top_of w l = Some a → in_list w l a.
Proof. intros (ml & ps & Hl & Hp)%top_of_Some. exists ml. split; [done|]. rewrite Hp. left. Qed.

(** Taking the mission of a record away. *)
Record dropped_record w w' l r : Prop := {
  dr_ok : ok w w';
  dr_sub : ∀ k b, in_list w' k b → in_list w k b;
  dr_keep : ∀ k b m, in_list w k b → missionHeap (store_ w) !! b = Some m →
    abilityRecord_ m ≠ Some r → in_list w' k b;
  dr_top : ∀ a m, top_of w l = Some a → missionHeap (store_ w) !! a = Some m →
    abilityRecord_ m = Some r → ¬ in_list w' l a;
  dr_current : currentMissionLists_ w' = currentMissionLists_ w;
  dr_store : store_ w' = store_ w;
}.

Lemma RemoveByRecord_spec l r w :
  Inv w → has_list w l → post (RemoveByRecord l r) w (λ _ w', dropped_record w w' l r).
Proof.
  intros HI Hl. unfold RemoveByRecord. apply post_bind, post_list; [done|]. intros ml Eml.
  destruct (inv_listed w HI l ml Eml) as [Hnd HF].
  destruct (remove_by_record_wf (store_ w) (missions_ ml) (Some r)) as (ps & Eps & Hsub & Hkeep).
  { eapply Forall_impl; [exact HF|]. intros p (b & m & q & y & -> & Hm & _). by exists m. }
  apply post_bind. eapply post_lift; [unfold RemoveMissionByAbilityRecord; by rewrite Eps|].
  apply post_modify. split; [|intros k b|intros k b m (mk & Hk & Hb) Hm Hr|..|done|done].
  - apply ok_set_list; [done|done|by eapply sublist_NoDup|].
    apply Forall_forall. intros p Hp. eapply Forall_forall in HF; [done|]. by eapply elem_of_sublist.
  - rewrite in_list_set_list. intros [[-> H]|[_ H]]; [|done]. exists ml. split; [done|].
    by eapply elem_of_sublist.
  - apply in_list_set_list. destruct (decide (k = l)) as [->|N]; [left|right; split; [done|by exists mk]].
    split; [done|]. assert (mk = ml) as -> by congruence. by eapply Hkeep.
  - intros a m (ml' & qs & Eml' & Ep)%top_of_Some Hm Hr. assert (ml' = ml) as -> by congruence.
    rewrite in_list_set_list. intros [[_ H]|[? _]]; [|done]. rewrite Ep in Hnd, Eps.
    cbn [remove_by_record mission_at mbind option_bind] in Eps. rewrite Hm in Eps. cbn in Eps.
    unfold GetAbilityRecord in Eps. rewrite bool_decide_true in Eps by done. injection Eps as <-.
    by inversion Hnd.
Qed.

(** ** Lists *)

Lemma NewMissionList_spec w :
  Inv w → post NewMissionList w (λ l w', ok w w' ∧ usable w' l ∧ (∀ k b, in_list w' k b ↔ in_list w k b) ∧
    lists_ w !! l = None ∧ currentMissionLists_ w' = currentMissionLists_ w ∧ store_ w' = store_ w).
Proof.
  intros HI. unfold NewMissionList. apply post_bind, post_alloc, post_bind, post_modify, post_mret.
  destruct (inv_fresh w HI (next_ w)) as (Hn & _ & _); [lia|]. set (w' := _ <| lists_ ::= _ |>).
  assert (grows w w') as Hg.
  { split; try done; cbn; [intros q y Hy; by exists y|intros b m Hm; by exists m|].
    intros k mk Hk. rewrite lookup_insert_ne by congruence. by exists mk. }
  assert (∀ k b, in_list w' k b ↔ in_list w k b) as Hin.
  { intros k b. unfold in_list, w'. cbn. destruct (decide (k = next_ w)) as [->|N].
    - rewrite lookup_insert_eq, Hn. split; [|naive_solver]. intros (ml & [= <-] & H). set_solver.
    - by rewrite lookup_insert_ne. }
  split_and!; [split; [done|]|..|done|done|done|done].
  - apply (Inv_rebuild w); [done|done|..]; cbn.
    + intros k mk. rewrite lookup_insert. case_decide; [by intros [= <-]|congruence].
    + apply (inv_nodup w HI).
    + intros k Hk. destruct (inv_current w HI k Hk) as (? & ? & ?). by eapply grows_usable.
    + intros k mk. rewrite lookup_insert. case_decide; [|apply (inv_listed w HI)].
      intros [= <-]. split; constructor.
    + intros r Hr. apply (inv_held w HI). rewrite app_assoc, elem_of_app. by left.
    + apply (inv_tokens w HI).
    + intros k Hk. destruct (inv_fresh w HI k) as (? & ? & ?); [lia|]. split_and!; try done.
      rewrite lookup_insert_ne by lia. done.
    + apply (inv_persist w HI).
  - destruct (inv_default w HI) as (_ & [m1 H1] & [m2 H2]).
    split_and!; cbn; [exists (mkMissionList CURRENT []); cbn; apply lookup_insert_eq|congruence|congruence].
Qed.

Lemma ok_current w cs :
  Inv w → NoDup cs → (∀ l, l ∈ cs → usable w l) → ok w (w <| currentMissionLists_ := cs |>).
Proof.
  intros HI Hnd Hcs. assert (grows w (w <| currentMissionLists_ := cs |>)) as Hg
    by (split; try done; cbn; intros ? x ?; by exists x).
  split; [done|]. destruct HI. split; try done. intros l Hl. destruct (Hcs l Hl) as (? & ? & ?). done.
Qed.

Lemma ok_terminate w ts :
  Inv w → (∀ r, r ∈ ts → known w r) → ok w (w <| terminateAbilityList_ := ts |>).
Proof.
  intros HI Hts. assert (grows w (w <| terminateAbilityList_ := ts |>)) as Hg
    by (split; try done; cbn; intros ? x ?; by exists x).
  split; [done|]. destruct HI as [? ? ? ? ? ? ? Hh ? ? ?]. split; try done. intros r. cbn.
  rewrite elem_of_app. intros [H|H]; [by apply Hts|]. apply Hh. set_solver.
Qed.

Lemma inv_usable w l : Inv w → l ∈ currentMissionLists_ w → usable w l.
Proof. intros HI Hl. destruct (inv_current w HI l Hl) as (? & ? & ?). done. Qed.

(** Only the lists in use change. *)
Definition reordered w w' : Prop :=
  ok w w' ∧ lists_ w' = lists_ w ∧ store_ w' = store_ w.

Lemma RemoveMissionList_spec l w :
  Inv w → post (RemoveMissionList l) w (λ _ w', reordered w w' ∧ ∀ k, k ∈ currentMissionLists_ w' ↔
    k ∈ currentMissionLists_ w ∧ k ≠ l).
Proof.
  intros HI. apply post_modify. split; [split; [|done]|].
  2:{ intros k. cbn. apply elem_of_erase_one, (inv_nodup w HI). }
  apply ok_current; [done|..].
  - eapply sublist_NoDup; [apply (inv_nodup w HI)|apply erase_first_sublist].
  - intros k Hk%elem_of_erase_first. by apply inv_usable.
Qed.

Lemma RemoveAllOf_spec l w :
  Inv w → post (RemoveAllOf l) w (λ _ w', reordered w w' ∧
    currentMissionLists_ w' = filter (λ x, x ≠ l) (currentMissionLists_ w)).
Proof.
  intros HI. apply post_modify. split; [split; [|done]|done]. apply ok_current; [done|..].
  - apply NoDup_filter, (inv_nodup w HI).
  - intros k [_ Hk]%list_elem_of_filter. by apply inv_usable.
Qed.

Lemma MoveMissionListToTop_spec l w :
  Inv w → usable w l → post (MoveMissionListToTop l) w (λ _ w', reordered w w' ∧
    head (currentMissionLists_ w') = Some l ∧
    ∀ k, k ∈ currentMissionLists_ w → k ∈ currentMissionLists_ w').
Proof.
  intros HI Hl. apply post_modify. case_bool_decide; [split; [split; [by apply ok_refl|done]|done]|].
  split; [split; [|done]|split; [done|]].
  2:{ intros k Hk. cbn. destruct (decide (k = l)) as [->|]; [left|right; by apply list_elem_of_filter]. }
  apply ok_current; [done|..].
  - constructor; [|apply NoDup_filter, (inv_nodup w HI)]. rewrite list_elem_of_filter. by intros [? _].
  - intros k [->|[_ Hk]%list_elem_of_filter]%elem_of_cons; [done|by apply inv_usable].
Qed.

(** ** Moving missions *)

Definition default_list w k : Prop := k = defaultStandardList_ w ∨ k = defaultSingleList_ w.

(** Nothing is lost and nothing comes; missions move to the default lists only. *)
Record settled w w' : Prop := {
  se_ok : ok w w';
  se_listed : ∀ b, listed w' b ↔ listed w b;
  se_places : ∀ k b, in_list w' k b → in_list w k b ∨ default_list w k;
  se_current : currentMissionLists_ w' = currentMissionLists_ w;
}.

Lemma settled_refl w : Inv w → settled w w.
Proof. intros HI. split; [by apply ok_refl|done|by left|done]. Qed.

Lemma settled_trans w1 w2 w3 : settled w1 w2 → settled w2 w3 → settled w1 w3.
Proof.
  intros [H1 H2 H3 H4] [K1 K2 K3 K4]. split; [by eapply ok_trans| | |congruence].
  - intros b. by rewrite K2.
  - intros k b Hb. destruct (K3 k b Hb) as [H|H]; [by apply H3|right]. destruct H1 as [Hg _].
    unfold default_list in *. by rewrite <-(g_standard _ _ Hg), <-(g_single _ _ Hg).
Qed.

(** A mission that was taken out and put back. *)
Lemma shifted_settled w w1 w2 a :
  shifted w w1 a → shifted w1 w2 a → listed w a → (∃ d, default_list w d ∧ in_list w2 d a) → settled w w2.
Proof.
  intros [H1 H2 H3] [K1 K2 K3] Ha (d & Hd & Hin). split; [by eapply ok_trans| | |congruence].
  - intros b. destruct (decide (b = a)) as [->|Nb]; [split; [done|by exists d]|]. unfold listed.
    by setoid_rewrite (K2 _ b Nb); setoid_rewrite (H2 _ b Nb).
  - intros k b Hb. destruct (decide (b = a)) as [->|Nb]; [right|left; by apply H2, K2].
    assert (k = d) as -> by (eapply in_list_unique; [by destruct K1|done..]). done.
Qed.

Lemma RemoveFrom_unlisted w w' l a :
  Inv w → in_list w l a → ¬ in_list w' l a → (∀ k, in_list w' k a → in_list w k a) → ¬ listed w' a.
Proof.
  intros HI Ha Hn Hs (k & Hk). assert (k = l) as -> by (eapply in_list_unique; eauto). done.
Qed.

Lemma AddToDefault_spec a w :
  Inv w → whole w a → ¬ listed w a →
  post (AddToDefault a) w (λ _ w', shifted w w' a ∧ (∃ d, default_list w d ∧ in_list w' d a) ∧
    ∀ k, ¬ default_list w k → lists_ w' !! k = lists_ w !! k).
Proof.
  intros HI Ha Hn. unfold AddToDefault. apply post_bind, post_mission; [done|]. intros m r Hm Hr _.
  apply post_bind, post_gets, post_bind, post_gets.
  destruct (inv_default w HI) as (_ & H1 & H2).
  destruct (IsSingletonAbility (store_ w) m);
    (eapply post_mono; [apply AddToTop_spec; [done|done|by apply unlisted_placeable]|]);
    intros _ w' (Hs & _ & Hin & Hk); unfold default_list; (split_and!; [done|eauto|]); intros k Hd; apply Hk; tauto.
Qed.

Lemma pop_above_spec fuel l mission w ml :
  Inv w → usable w l → in_list w l mission → lists_ w !! l = Some ml → (length (missions_ ml) ≤ fuel)%nat →
  post (pop_above fuel l mission) w (λ _ w', settled w w' ∧ top_of w' l = Some mission).
Proof.
  revert w ml. induction fuel as [|fuel IH]; intros w ml HI Hu Hin Eml Hf; cbn [pop_above].
  { destruct Hin as (ml' & Eml' & Hin). assert (ml' = ml) as -> by congruence.
    destruct (missions_ ml); [set_solver|cbn in Hf; lia]. }
  apply post_bind. eapply post_load; [exact Eml|].
  assert (∃ item ps, missions_ ml = Some item :: ps) as (item & ps & Ep).
  { destruct Hin as (ml' & Eml' & Hin). assert (ml' = ml) as -> by congruence.
    destruct (missions_ ml) as [|p ps] eqn:Ep; [set_solver|].
    destruct (inv_listed w HI l ml Eml) as [_ HF]. rewrite Ep in HF. apply Forall_inv in HF.
    destruct HF as (a & ? & ? & ? & -> & _). by exists a, ps. }
  assert (in_list w l item) as Hitem by (exists ml; split; [done|]; rewrite Ep; left).
  unfold GetTopMission at 1. rewrite Ep. case_bool_decide as Hi.
  { apply post_mret. split; [by apply settled_refl|]. unfold top_of. rewrite Eml. cbn.
    unfold GetTopMission. by rewrite Ep, Hi. }
  apply post_bind. eapply post_mono; [apply RemoveFrom_spec; [done|apply Hu]|cbn beta].
  intros _ w1 (Hs & Hn & Hsub & Hl1). pose proof Hs as [[Hg HI1] Ho _].
  apply post_bind. eapply post_mono; [apply AddToDefault_spec; [done|..]|cbn beta].
  { eapply grows_whole, in_list_whole; done. }
  { eapply RemoveFrom_unlisted; [exact HI|done..]. }
  intros _ w2 (Hs' & Hlis & Hk). pose proof Hs' as [[Hg' HI2] Ho' _].
  pose proof (grows_usable _ _ l Hg Hu) as Hu1.
  eapply post_mono; [eapply (IH w2 (RemoveMission ml (Some item))); [done|by eapply grows_usable|..]|].
  - by apply Ho'; [|apply Ho].
  - rewrite Hk by (destruct Hu1 as (_ & ? & ?); by intros [|]). rewrite Hl1, Eml. done.
  - rewrite Ep in Hf. cbn. rewrite Ep. cbn. rewrite bool_decide_true by done. cbn in Hf. lia.
  - intros _ w3 [H3 H4]. split; [|done]. eapply settled_trans; [|exact H3].
    eapply shifted_settled; [done|done|by exists l|]. destruct Hlis as (d & Hd & Hdi). exists d.
    split; [|done]. unfold default_list in *. by rewrite <-(g_standard _ _ Hg), <-(g_single _ _ Hg).
Qed.

Lemma MoveNoneTopMissionToDefaultList_spec a l w :
  Inv w → usable w l → in_list w l a →
  post (MoveNoneTopMissionToDefaultList a) w (λ _ w', settled w w' ∧ top_of w' l = Some a).
Proof.
  intros HI Hu Ha. unfold MoveNoneTopMissionToDefaultList.
  apply post_bind, post_mission; [by eapply in_list_whole|]. intros m r Hm _ _.
  apply post_bind, post_gets. rewrite (owner_of_placed w l a m) by done.
  apply post_bind, post_list; [apply Hu|]. intros ml Eml. by eapply pop_above_spec.
Qed.

(** A mission is in a list, or has never been in one. *)
Definition ready w a : Prop :=
  whole w a ∧ (listed w a ∨ (¬ listed w a ∧ ∀ m, missionHeap (store_ w) !! a = Some m → ownerMissionList_ m = None)).

(** What moving a mission to the top of a list does to the places of the missions. *)
Record moved w w' target a : Prop := {
  mv_ok : ok w w';
  mv_top : top_of w' target = Some a;
  mv_listed : ∀ b, listed w' b ↔ listed w b ∨ b = a;
  mv_places : ∀ k b, in_list w' k b → k = target ∨ in_list w k b ∨ default_list w k;
  mv_current : ∀ k, k ∈ currentMissionLists_ w → k ∈ currentMissionLists_ w' ∨ ∀ b, ¬ in_list w' k b;
}.

Lemma AddToTop_moved l a w :
  Inv w → has_list w l → placeable w l a → post (AddToTop l a) w (λ _ w', moved w w' l a).
Proof.
  intros HI Hl Ha. eapply post_mono; [by apply AddToTop_spec|cbn beta].
  intros _ w' ([Hok Ho Hc] & Ht & Hin & _). split; try done.
  - intros b. destruct (decide (b = a)) as [->|N].
    + split; [by right|]. intros _. by exists l.
    + unfold listed. setoid_rewrite (Ho _ b N). tauto.
  - intros k b Hb. destruct (decide (b = a)) as [->|N].
    + left. eapply in_list_unique; [by destruct Hok|done|done].
    + right. left. by apply Ho.
  - rewrite Hc. auto.
Qed.

(** A computation that leaves every mission where it is or takes it to a default list, and
    then takes out [a], before [a] is put in its list. *)
Lemma moved_after w w1 w2 w3 l target a :
  Inv w → settled w w1 → in_list w1 l a →
  shifted w1 w2 a → ¬ in_list w2 l a → (∀ k, in_list w2 k a → in_list w1 k a) →
  moved w2 w3 target a → moved w w3 target a.
Proof.
  intros HI [H1 H2 H3 H4] Ha [K1 K2 K3] Hn Hs [M1 M2 M3 M4 M5].
  assert (grows w w2) as Hg by (destruct H1, K1; by etrans).
  split; [by eapply ok_trans; [eapply ok_trans|]|done|..].
  - intros b. rewrite M3. destruct (decide (b = a)) as [->|N]; [tauto|]. rewrite <-H2. unfold listed.
    by setoid_rewrite (K2 _ b N).
  - intros k b Hb. destruct (M4 k b Hb) as [?|[H|H]]; [by left| |].
    + assert (in_list w1 k b) as Hb1.
      { destruct (decide (b = a)) as [->|N]; [by apply Hs|by apply K2]. }
      destruct (H3 k b Hb1) as [?|?]; tauto.
    + right. right. unfold default_list in *. by rewrite <-(g_standard _ _ Hg), <-(g_single _ _ Hg).
  - intros k Hk. apply M5. by rewrite K3, H4.
Qed.

Lemma settled_moved w w1 w2 target a : settled w w1 → moved w1 w2 target a → moved w w2 target a.
Proof.
  intros [H1 H2 H3 H4] [M1 M2 M3 M4 M5]. split; [by eapply ok_trans|done|..].
  - intros b. by rewrite M3, H2.
  - intros k b Hb. destruct (M4 k b Hb) as [?|[H|H]]; [by left| |].
    + destruct (H3 k b H); tauto.
    + right. right. destruct H1 as [Hg _]. unfold default_list in *.
      by rewrite <-(g_standard _ _ Hg), <-(g_single _ _ Hg).
  - intros k Hk. apply M5. by rewrite H4.
Qed.

(** A list that has become empty is not in use any more. *)
Lemma drop_empty_spec w0 w l target a :
  Inv w → has_list w l → moved w0 w target a →
  post (empty ← is_empty l; when empty (RemoveAllOf l)) w (λ _ w', moved w0 w' target a).
Proof.
  intros HI Hl Hm. apply post_bind. unfold is_empty. apply post_bind, post_list; [done|].
  intros ml Eml. apply post_mret. unfold when, IsEmpty. case_bool_decide as He; [|by apply post_mret].
  eapply post_mono; [by apply RemoveAllOf_spec|cbn beta]. intros _ w' [(Hok & EL & ES) Ec].
  pose proof Hm as [M1 M2 M3 M4 M5].
  assert (∀ k b, in_list w' k b ↔ in_list w k b) as Hin by (intros; unfold in_list; by rewrite EL).
  split; [by eapply ok_trans| |intros b|intros k b|intros k].
  - unfold top_of. by rewrite EL.
  - unfold listed. setoid_rewrite Hin. apply M3.
  - rewrite Hin. apply M4.
  - intros Hk. setoid_rewrite Hin. rewrite Ec. destruct (M5 k Hk) as [H|H]; [|by right].
    destruct (decide (k = l)) as [->|N]; [right|left; by apply list_elem_of_filter].
    intros b (ml' & Eml' & Hb). assert (ml' = ml) as -> by congruence. rewrite He in Hb. set_solver.
Qed.

Lemma ready_owner w a m l :
  Inv w → ready w a → missionHeap (store_ w) !! a = Some m → owner_of w m = Some l → in_list w l a.
Proof.
  intros HI [_ [[k Hk]|[_ Hn]]] Hm Ho; [|unfold owner_of, GetMissionList in Ho; by rewrite (Hn m Hm) in Ho].
  rewrite (owner_of_placed w k a m) in Ho by done. by injection Ho as <-.
Qed.

Lemma ready_placeable w a m l :
  Inv w → ready w a → missionHeap (store_ w) !! a = Some m → owner_of w m = None → placeable w l a.
Proof.
  intros HI [Hw Hr] Hm Ho. apply unlisted_placeable; [done|]. intros [k Hk].
  by rewrite (owner_of_placed w k a m) in Ho.
Qed.

(** Out of one list and to the top of another. *)
Lemma take_over_spec w0 w l target a :
  Inv w0 → settled w0 w → in_list w l a → has_list w target →
  post (RemoveFrom l a ;; AddToTop target a) w (λ _ w', moved w0 w' target a).
Proof.
  intros HI0 Hs Ha Ht. pose proof Hs as [[_ HI] _ _ _]. apply post_bind.
  eapply post_mono; [apply RemoveFrom_spec; [done|by eapply in_list_has_list]|cbn beta].
  intros _ w1 (Hsh & Hn & Hsub & _). pose proof Hsh as [[Hg HI1] _ _].
  eapply post_mono; [apply AddToTop_moved; [done|by eapply grows_has_list|]|cbn beta].
  - apply unlisted_placeable; [|by eapply (RemoveFrom_unlisted w)].
    eapply grows_whole; [done|]. by eapply in_list_whole.
  - intros _ w2 Hm. by eapply moved_after.
Qed.

Lemma MoveMissionToTargetList_spec fromLauncher target a w :
  Inv w → has_list w target → ready w a →
  (fromLauncher = true → target = launcherList_ w → ∀ l, in_list w l a → l = launcherList_ w) →
  post (MoveMissionToTargetList fromLauncher target a) w (λ _ w', moved w w' target a).
Proof.
  intros HI Ht Hr Hc. unfold MoveMissionToTargetList. pose proof Hr as [Hw _].
  apply post_bind, post_mission; [done|]. intros m r Hm _ _.
  do 4 apply post_bind, post_gets. destruct (owner_of w m) as [l|] eqn:El;
    [|apply AddToTop_moved; [done|done|by eapply ready_placeable]].
  assert (in_list w l a) as Ha by (by eapply ready_owner).
  destruct (fromLauncher && bool_decide (target = launcherList_ w)) eqn:Ef.
  { apply andb_true_iff in Ef as [-> ->%bool_decide_eq_true]. apply AddToTop_moved; [done|done|].
    rewrite <-(Hc eq_refl eq_refl l Ha). by apply in_list_placeable. }
  destruct (bool_decide (l = defaultSingleList_ w) || bool_decide (l = defaultStandardList_ w)) eqn:Ed.
  { by apply take_over_spec; [|apply settled_refl|..]. }
  apply orb_false_iff in Ed as [N1%bool_decide_eq_false N2%bool_decide_eq_false].
  assert (usable w l) as Hu by (split; [by eapply in_list_has_list|done]).
  clear Ef. apply post_bind. case_bool_decide as Htl.
  - apply post_bind. eapply post_mono; [by apply MoveNoneTopMissionToDefaultList_spec|cbn beta].
    intros _ w1 [Hs Htop]. pose proof Hs as [[Hg HI1] _ _ _].
    pose proof (take_over_spec w w1 l target a HI Hs (top_of_in_list _ _ _ Htop)
      (grows_has_list _ _ _ Hg Ht)) as (x & w2 & Erun & Hmv).
    unfold mbind, M_bind in Erun. destruct (RemoveFrom l a w1) as [[u w']|] eqn:Erem; [|done].
    exists u, w'. split; [done|]. apply post_bind. exists x, w2. split; [exact Erun|].
    apply drop_empty_spec; [apply Hmv| |done].
    eapply grows_has_list; [|by eapply in_list_has_list]. apply Hmv.
  - subst target.
    assert (∀ w1, settled w w1 → in_list w1 l a →
      post (AddToTop l a ;; empty ← is_empty l; when empty (RemoveAllOf l)) w1 (λ _ w', moved w w' l a)) as Hend.
    { intros w1 Hs Ha1. pose proof Hs as [[Hg HI1] _ _ _]. apply post_bind.
      eapply post_mono; [apply AddToTop_moved; [done|by eapply grows_has_list|by apply in_list_placeable]|cbn beta].
      intros _ w2 Hmv. apply drop_empty_spec; [apply Hmv| |by eapply settled_moved].
      eapply grows_has_list; [apply Hmv|]. by eapply grows_has_list. }
    unfold when. destruct fromLauncher.
    + eapply post_mono; [by apply MoveNoneTopMissionToDefaultList_spec|cbn beta].
      intros _ w1 [Hs Htop]. apply Hend; [done|]. by apply top_of_in_list.
    + apply post_mret. apply Hend; [by apply settled_refl|done].
Qed.
End Places.
