(* ===== verification/MissionKeeps.v ===== *)
(** * The mission list manager: every operation keeps the invariant

    First the ends of abilities and the starts: each operation is defined in a state with
    the invariant, and leads to one, under the conditions the manager does not check
    itself ([request_ok], [top_ok], [back_ok]). *)

From stdpp Require Import prelude gmap strings list sorting pretty.
From Stdlib Require Import ZArith Lia.
From S2P Require Import Prelude MissionInfo MissionInfoMgr MissionList MissionManager MissionLifecycle.
From S2P Require Import MissionOps MissionInvariant MissionCalm MissionPlaces.

Local Open Scope Z_scope.

(** ** What the queries find *)

Section Queries.
Context {WL : WantLib} {MS : MissionStore}.
Implicit Types (w : Manager) (r a b l : Z).

Lemma listed_whole w a : Inv w → listed w a → whole w a.
Proof. intros HI [l Hl]. by eapply in_list_whole. Qed.

Lemma GetMissionById_listed w i a :
  Inv w → GetMissionById w i = Some a → listed w a ∧ whole w a.
Proof.
  intros HI (l & m & Hin & _)%GetMissionById_in_list. split; [by exists l|by eapply in_list_whole].
Qed.

Lemma counted_lists_lookup w ml : ml ∈ counted_lists w → ∃ l, lists_ w !! l = Some ml.
Proof. intros (l & _ & Hl)%list_elem_of_omap. by exists l. Qed.

Lemma FindEarliestMission_listed w a : FindEarliestMission w = Some a → listed w a.
Proof.
  intros Ha. pose proof (FindEarliestMission_spec (store_ w) (counted_lists w)) as H.
  unfold FindEarliestMission in Ha. cbv zeta in H. rewrite Ha in H.
  destruct H as (ml & m & Hml & Hin & _). apply counted_lists_lookup in Hml as [l Hl]. by exists l, ml.
Qed.

Lemma GetRecentStandardMission_in s ml name a :
  GetRecentStandardMission s ml name = Some a → Some a ∈ missions_ ml.
Proof.
  unfold GetRecentStandardMission. case_bool_decide; [done|].
  destruct (recent_loop_spec s (missions_ ml) name "0" None) as [[-> _]|(l1 & p & m & l2 & Ep & -> & _)]; [done|].
  intros ->. rewrite Ep. set_solver.
Qed.

Lemma recent_of_in w mls name time reused a :
  recent_of w mls name time reused = Some a → reused = Some a ∨ ∃ ml, ml ∈ mls ∧ Some a ∈ missions_ ml.
Proof.
  revert time reused. induction mls as [|ml mls IH]; intros time reused; cbn [recent_of]; [by left|].
  assert (∀ t u, recent_of w mls name t u = Some a →
    u = Some a ∨ ∃ mk, mk ∈ ml :: mls ∧ Some a ∈ missions_ mk) as IH'.
  { intros t u [H|(mk & ? & ?)]%IH; [by left|right]. exists mk. split; [by right|done]. }
  destruct (mission_at _ _) as [m|] eqn:Em; [|apply IH'].
  destruct (String.leb _ _); [|apply IH']. intros [Hr|Hr]%IH'; [|by right].
  right. exists ml. split; [left|]. by eapply GetRecentStandardMission_in.
Qed.

Lemma GetSpecifiedMission_in s ml name flag a :
  GetSpecifiedMission s ml name flag = Some a → Some a ∈ missions_ ml.
Proof. unfold GetSpecifiedMission. case_match; [done|]. by intros (m & ? & _)%first_mission_Some. Qed.

Lemma GetSingletonMissionByName_in s ml name a :
  GetSingletonMissionByName s ml name = Some a → Some a ∈ missions_ ml.
Proof. unfold GetSingletonMissionByName. case_match; [done|]. by intros (m & ? & _)%first_mission_Some. Qed.

Lemma in_launcher_Some w q (f : MissionList → option Z) a :
  in_launcher w q f = Some a → ∃ ml, lists_ w !! launcherList_ w = Some ml ∧ f ml = Some a.
Proof.
  unfold in_launcher. case_match; [|done]. destruct (lists_ w !! launcherList_ w) as [ml|]; [|done].
  intros H'. by exists ml.
Qed.

(** Looking in the launcher list first, then in others. *)
Lemma launcher_or_first w q ls (f : MissionList → option Z) a :
  (∀ ml, f ml = Some a → Some a ∈ missions_ ml) →
  match in_launcher w q f with Some b => Some b | None => first_of w ls f end = Some a → listed w a.
Proof.
  intros Hf. destruct (in_launcher w q f) as [b|] eqn:Eb.
  - intros [= ->]. apply in_launcher_Some in Eb as (ml & Hl & Hb). exists (launcherList_ w), ml. auto.
  - intros (l & ml & _ & Hl & Ha)%first_of_Some. exists l, ml. auto.
Qed.

Lemma GetReusedMission_listed w q a : GetReusedMission w q = Some a → listed w a.
Proof.
  unfold GetReusedMission. destruct (req_launchMode q).
  - apply launcher_or_first. intros ml. apply GetSingletonMissionByName_in.
  - unfold GetReusedStandardMission. case_match; [done|].
    destruct (in_launcher _ _ _) as [b|] eqn:Eb.
    + intros [= ->]. apply in_launcher_Some in Eb as (ml & Hl & Hb). exists (launcherList_ w), ml.
      split; [done|]. by eapply GetRecentStandardMission_in.
    + intros [?|(ml & Hml & Ha)]%recent_of_in; [done|].
      apply list_elem_of_omap in Hml as (l & _ & Hl). by exists l, ml.
  - apply launcher_or_first. intros ml. apply GetSpecifiedMission_in.
Qed.

Lemma GetMissionBySpecifiedFlag_listed w name bundle flag a :
  GetMissionBySpecifiedFlag w name bundle flag = Some a → listed w a.
Proof.
  intros (l & ml & _ & Hl & Ha)%first_of_Some. exists l, ml. split; [done|].
  unfold MissionList.GetMissionBySpecifiedFlag in Ha. induction (missions_ ml) as [|p ps IH]; cbn in Ha; [done|].
  repeat case_match; simplify_eq; first [by left | right; by apply IH].
Qed.

(** States that agree on missions, lists and records. *)
Record same_lists w w' : Prop := {
  sl_store : store_ w' = store_ w;
  sl_lists : lists_ w' = lists_ w;
  sl_current : currentMissionLists_ w' = currentMissionLists_ w;
  sl_launcher : launcherList_ w' = launcherList_ w;
  sl_standard : defaultStandardList_ w' = defaultStandardList_ w;
  sl_single : defaultSingleList_ w' = defaultSingleList_ w;
}.

Lemma first_of_same {A} w w' ls (f : MissionList → option A) :
  lists_ w' = lists_ w → first_of w' ls f = first_of w ls f.
Proof. intros HL. induction ls as [|l ls IH]; [done|]. cbn [first_of]. by rewrite HL, IH. Qed.

Lemma recent_of_same w w' mls name time reused :
  store_ w' = store_ w → recent_of w' mls name time reused = recent_of w mls name time reused.
Proof.
  intros Hs. revert time reused. induction mls as [|ml mls IH]; intros; [done|]. cbn [recent_of].
  rewrite Hs. by repeat case_match.
Qed.

Lemma GetMissionById_same w w' i : same_lists w w' → GetMissionById w' i = GetMissionById w i.
Proof.
  intros [H1 H2 H3 H4 H5 H6]. unfold GetMissionById. rewrite H1, H3, H4, H5, H6. by apply first_of_same.
Qed.

Lemma GetReusedMission_same w w' q : same_lists w w' → GetReusedMission w' q = GetReusedMission w q.
Proof.
  intros [H1 H2 H3 H4 H5 H6].
  unfold GetReusedMission, GetReusedSpecifiedMission, GetReusedStandardMission, in_launcher.
  rewrite H1, H2, H3, H4, H5, H6, (recent_of_same w w') by done.
  by rewrite !(first_of_same w w') by done.
Qed.
End Queries.

(** ** Automation *)

Create HintDb keeps.

#[export] Hint Resolve GetTopAbility_known : known.

(** A fact about the present state. *)
Ltac keep_side :=
  solve [ assumption
        | eexists; eassumption
        | eapply in_list_whole; eassumption
        | eapply in_list_has_list; eassumption
        | apply inv_launcher_usable; assumption
        | apply inv_default; assumption
        | eauto 2 with known ].

#[export] Hint Extern 1 (known _ _) => keep_side : keeps.
#[export] Hint Extern 1 (whole _ _) => keep_side : keeps.
#[export] Hint Extern 1 (has_list _ _) => keep_side : keeps.
#[export] Hint Extern 1 (Inv _) => keep_side : keeps.

(** What is known of the state [w] carried on to [w1]. *)
Ltac carry w w1 Hg :=
  repeat match goal with
  | H : known w _ |- _ => apply (grows_known w w1 _ Hg) in H
  | H : whole w _ |- _ => apply (grows_whole w w1 _ Hg) in H
  | H : has_list w _ |- _ => apply (grows_has_list w w1 _ Hg) in H
  | H : usable w _ |- _ => apply (grows_usable w w1 _ Hg) in H
  | H : grows ?w0 w |- _ => apply (transitivity (R := grows) (z := w1) H) in Hg; clear H
  end.

Ltac carry_calm :=
  match goal with
  | Hc : calm ?w ?w1, HI : Inv ?w |- _ =>
      repeat match goal with
      | H : in_list w ?l ?a |- _ => apply (calm_in_list w w1 l a Hc) in H
      | H : listed w ?a |- _ => apply (calm_listed w w1 a Hc) in H
      end;
      let Hg := fresh "Hg" in pose proof (c_grows w w1 Hc) as Hg;
      apply (calm_Inv w w1 HI) in Hc; carry w w1 Hg; clear HI
  end.

Ltac carry_ok :=
  match goal with
  | Hk : ok ?w ?w1, HI : Inv ?w |- _ =>
      let Hg := fresh "Hg" in let HI' := fresh "HI" in
      destruct Hk as [Hg HI'];
      repeat match goal with
      | H : in_list w ?l ?a |- _ =>
          pose proof (in_list_whole w l a HI H); apply in_list_has_list in H
      end;
      carry w w1 Hg; clear HI
  end.

(** What a query that has just been answered tells. *)
Ltac note :=
  match goal with
  | Hr : abilityRecord_ ?m = Some _, H : GetAbilityRecord ?m = _ |- _ =>
      unfold GetAbilityRecord in H; rewrite Hr in H; try discriminate H; injection H as <-
  | HI : Inv ?w, H : MissionManager.GetMissionById ?w _ = Some ?a |- _ =>
      lazymatch goal with K : whole w a |- _ => fail | _ => idtac end;
      let K1 := fresh "Hl" in let K2 := fresh "Hw" in
      destruct (GetMissionById_listed w _ a HI H) as [K1 K2]
  | HI : Inv ?w, H : FindEarliestMission ?w = Some ?a |- _ =>
      lazymatch goal with K : whole w a |- _ => fail | _ => idtac end;
      pose proof (listed_whole w a HI (FindEarliestMission_listed w a H))
  | HI : Inv ?w, H : GetReusedMission ?w _ = Some ?a |- _ =>
      lazymatch goal with K : whole w a |- _ => fail | _ => idtac end;
      pose proof (listed_whole w a HI (GetReusedMission_listed w _ a H))
  | H : owner_of ?w _ = Some ?l |- _ =>
      lazymatch goal with K : has_list w l |- _ => fail | _ => idtac end;
      let K := fresh "Hl" in pose proof (owner_of_list w _ l H) as K; fold (has_list w l) in K
  | HI : Inv ?w, H : _ = Some ?r |- _ =>
      lazymatch goal with K : known _ r |- _ => fail | _ => idtac end;
      lazymatch type of r with Z => idtac end;
      let K := fresh "Hk" in assert (known w r) as K by (eauto 2 with known)
  end.

(** Case analysis of a computation that looks at the outcome of another case analysis. *)
Ltac inner_case x :=
  lazymatch x with
  | match ?y with _ => _ end => inner_case y
  | _ <$> ?y => inner_case y; cbn [fmap option_fmap option_map]
  | _ => destruct x eqn:?
  end.

Ltac keep_step :=
  lazymatch goal with
  | |- post (mret _) _ _ => apply post_mret
  | |- post (_ ≫= _) _ _ => apply post_bind
  | |- post (gets _) _ _ => apply post_gets
  | |- post (the_record _) _ _ =>
      let y := fresh "x" in let Hy := fresh "Hx" in
      apply post_record; [keep_side|intros y Hy]
  | |- post (the_list _) _ _ =>
      let y := fresh "ml" in let Hy := fresh "Hml" in
      apply post_list; [keep_side|intros y Hy]
  | |- post (the_mission _) _ _ =>
      let y := fresh "m" in let r := fresh "r" in let Hm := fresh "Hm" in
      let Hr := fresh "Hr" in let Hk := fresh "Hk" in
      apply post_mission; [keep_side|intros y r Hm Hr Hk]
  | |- post (load (λ _, GetAbilityRecord _)) _ _ => eapply post_load; [eassumption|]
  | |- post (is_empty _) _ _ => unfold is_empty
  | |- post (if ?b then _ else _) _ _ => destruct b eqn:?
  | |- post (when ?b _) _ _ => unfold when; destruct b eqn:?
  | |- post (match ?x with _ => _ end) _ _ => inner_case x; repeat note
  end; cbn [fst snd].

Ltac keep_call :=
  first [ eapply post_mono; [solve [eauto 3 with calm]|];
          let H := fresh "Hc" in intros ? ? H; cbn beta in H; carry_calm
        | eapply post_mono; [solve [eauto 3 with keeps]|];
          let H := fresh "Hc" in intros ? ? H; cbn beta in H; carry_ok ].

Ltac keep_end := try solve [split; assumption | apply ok_refl; assumption].
Ltac keep_run := repeat first [keep_step | keep_call]; keep_end.

Section Keeps.
Context {WL : WantLib} {MS : MissionStore} (E : Env).
Implicit Types (w : Manager) (r a b l : Z).

Abbreviation keeps_op m w := (post m w (λ _ w', ok w w')).

Lemma keep_RemoveMissionList l w : Inv w → keeps_op (RemoveMissionList l) w.
Proof. intros HI. eapply post_mono; [by apply RemoveMissionList_spec|]. by intros ? ? [[? _] _]. Qed.

Lemma keep_RemoveByRecord l r w : Inv w → has_list w l → keeps_op (RemoveByRecord l r) w.
Proof. intros HI Hl. eapply post_mono; [by apply RemoveByRecord_spec|]. by intros ? ? [? _ _ _ _ _]. Qed.

Lemma keep_RemoveFrom l a w : Inv w → has_list w l → keeps_op (RemoveFrom l a) w.
Proof. intros HI Hl. eapply post_mono; [by apply RemoveFrom_spec|]. by intros ? ? [[? _ _] _]. Qed.
Hint Resolve keep_RemoveMissionList keep_RemoveByRecord keep_RemoveFrom : keeps.


Lemma keep_push_terminate r w :
  Inv w → known w r → keeps_op (modify (λ w, w <| terminateAbilityList_ ::= (λ t, t ++ [r]) |>)) w.
Proof.
  intros HI Hr. apply post_modify. apply ok_terminate; [done|]. intros q [Hq| ->%list_elem_of_singleton]%elem_of_app; [|done].
  apply (inv_held w HI). set_solver.
Qed.

Lemma keep_filter_terminate r w :
  Inv w → keeps_op (modify (λ w, w <| terminateAbilityList_ ::= filter (λ t, t ≠ r) |>)) w.
Proof.
  intros HI. apply post_modify. apply ok_terminate; [done|]. intros q [_ Hq]%list_elem_of_filter.
  apply (inv_held w HI). set_solver.
Qed.

Lemma keep_each {A} (xs : list A) (f : A → M unit) w :
  Inv w → (∀ x w', x ∈ xs → Inv w' → grows w w' → keeps_op (f x) w') → keeps_op (each xs f) w.
Proof.
  revert w. induction xs as [|x xs IH]; intros w HI Hf; cbn [each]; [by apply post_mret, ok_refl|].
  apply post_bind. eapply post_mono; [apply Hf; [left|done|done]|cbn beta]. intros ? w' [Hg HI'].
  eapply post_mono; [apply IH; [done|]|cbn beta].
  - intros y w'' Hy HI'' Hg''. apply Hf; [by right|done|by etrans].
  - intros ? w'' [Hg'' HI'']. split; [by etrans|done].
Qed.
Hint Resolve keep_push_terminate keep_filter_terminate : keeps.

(** ** Ending abilities *)

Ltac keep_start := match goal with HI : Inv ?w |- _ => assert (grows w w) by reflexivity end.

Lemma keep_ChooseNextAbility r l (f : bool) w :
  Inv w → known w r → has_list w l → keeps_op (ChooseNextAbility r l f) w.
Proof. intros HI Hr Hl. keep_start. unfold ChooseNextAbility. keep_run. Qed.
Hint Resolve keep_ChooseNextAbility : keeps.

Lemma keep_RemoveTerminatingAbility r (f : bool) w :
  Inv w → known w r → keeps_op (RemoveTerminatingAbility r f) w.
Proof. intros HI Hr. keep_start. unfold RemoveTerminatingAbility. keep_run. Qed.
Hint Resolve keep_RemoveTerminatingAbility : keeps.

Lemma keep_TerminateAbilityLocked r (f : bool) w :
  Inv w → known w r → keeps_op (TerminateAbilityLocked E r f) w.
Proof. intros HI Hr. keep_start. unfold TerminateAbilityLocked. keep_run. Qed.
Hint Resolve keep_TerminateAbilityLocked : keeps.

Lemma keep_TerminateAbilityInner r code (f : bool) w :
  Inv w → known w r → keeps_op (TerminateAbilityInner E r code f) w.
Proof. intros HI Hr. keep_start. unfold TerminateAbilityInner. keep_run. Qed.
Hint Resolve keep_TerminateAbilityInner : keeps.

Lemma keep_CheckLimit w : Inv w → keeps_op (CheckLimit E) w.
Proof. intros HI. keep_start. unfold CheckLimit. keep_run. Qed.
Hint Resolve keep_CheckLimit : keeps.

(** What [MoveAbilityToBackground] takes for granted: the ability is the top one of the
    list of its mission. *)
Definition top_ok w r : Prop :=
  ∀ x a m l, recordHeap (store_ w) !! r = Some x → GetMissionById w (recordMissionId_ (life_ x)) = Some a →
    missionHeap (store_ w) !! a = Some m → owner_of w m = Some l →
    ∃ t n, top_of w l = Some t ∧ missionHeap (store_ w) !! t = Some n ∧ abilityRecord_ n = Some r.

Lemma keep_RemoveBackgroundingAbility r w :
  Inv w → known w r → top_ok w r → keeps_op (RemoveBackgroundingAbility r) w.
Proof.
  intros HI Hr Ht. keep_start. unfold RemoveBackgroundingAbility. repeat keep_step; keep_end.
  destruct (Ht x z m z0 Hx Heqo Hm Heqo0) as (t & n & Htop & Hn & Hnr).
  eapply post_mono; [by apply RemoveByRecord_spec|cbn beta].
  intros _ w1 [Hok Hsub _ Hdr _ Hst]. pose proof Hok as [Hg1 HI1].
  assert (GetTopMission ml = Some t) as Eml by (unfold top_of in Htop; by rewrite Hml in Htop).
  assert (whole w1 t) as Hwt.
  { eapply grows_whole; [done|]. eapply in_list_whole; [done|]. by apply top_of_in_list. }
  assert (¬ listed w1 t) as Hnt.
  { intros [k Hin]. assert (k = z0) as ->; [|by eapply Hdr].
    eapply (in_list_unique w); [done|by apply Hsub|by apply top_of_in_list]. }
  clear Hg1 HI1. carry_ok. apply post_bind. eapply post_load; [exact Eml|]. apply post_bind.
  eapply post_mono; [by apply AddToDefault_spec|cbn beta]. intros _ w2 ([Hok2 _ _] & _ & _).
  carry_ok. keep_run.
Qed.
Hint Resolve keep_RemoveBackgroundingAbility : keeps.

Lemma keep_MoveAbilityToBackground r w :
  Inv w → known w r → top_ok w r → keeps_op (MoveAbilityToBackground E r) w.
Proof. intros HI Hr Ht. keep_start. unfold MoveAbilityToBackground. keep_run. Qed.

Lemma keep_MinimizeAbility token fromUser w : Inv w → keeps_op (MinimizeAbility E token fromUser) w.
Proof. intros HI. keep_start. unfold MinimizeAbility, MinimizeAbilityLocked. keep_run. Qed.

(** ** New missions *)

Lemma calm_ready w w' a : calm w w' → ready w a → ready w' a.
Proof.
  intros Hc [Hw Hr]. split; [eapply grows_whole; [apply Hc|done]|].
  rewrite <-(calm_listed w w' a Hc). destruct Hr as [?|[Hn Ho]]; [by left|right]. split; [done|].
  intros n Hn'. destruct (c_owner w w' Hc a n Hn') as (m & Hm & Eo). rewrite Eo. by apply Ho.
Qed.

Lemma listed_ready w a : Inv w → listed w a → ready w a.
Proof. intros HI Ha. split; [by apply listed_whole|by left]. Qed.

(** A new record with a new mission, at the next two addresses. *)
Lemma ok_create w w' x m :
  let r := next_ w in let a := Z.succ (next_ w) in
  Inv w →
  (∀ q, recordHeap (store_ w') !! q = if decide (r = q) then Some x else recordHeap (store_ w) !! q) →
  (∀ b, missionHeap (store_ w') !! b = if decide (a = b) then Some m else missionHeap (store_ w) !! b) →
  token_ x = r → abilityRecord_ m = Some r → recordMissionId_ (life_ x) = missionId_ m →
  ownerMissionList_ m = None →
  next_ w' = Z.succ a → lists_ w' = lists_ w → currentMissionLists_ w' = currentMissionLists_ w →
  launcherList_ w' = launcherList_ w → defaultStandardList_ w' = defaultStandardList_ w →
  defaultSingleList_ w' = defaultSingleList_ w → frame_ w' = frame_ w →
  terminateAbilityList_ w' = terminateAbilityList_ w → tasks_ w' = tasks_ w → infos_ w' = infos_ w →
  ok w w' ∧ ready w' a ∧ ¬ listed w' a ∧ known w' r.
Proof.
  intros r a HI Hrec Hmis Ht Hmr Hid Ho Hn HL HC H1 H2 H3 H4 H5 H6 H7.
  destruct (inv_fresh w HI r) as (_ & _ & Fr); [subst r; lia|].
  destruct (inv_fresh w HI a) as (_ & Fa & _); [subst a; lia|].
  assert (grows w w') as Hg.
  { split; try done.
    - intros q y Hq. exists y. rewrite Hrec. case_decide; [congruence|done].
    - intros b n Hb. exists n. rewrite Hmis. case_decide; [congruence|done].
    - intros l ml Hl. exists ml. by rewrite HL. }
  assert (known w' r) as Hk by (exists x; rewrite Hrec; by rewrite decide_True).
  assert (missionHeap (store_ w') !! a = Some m) as Ea by (rewrite Hmis; by rewrite decide_True).
  assert (¬ listed w' a) as Hnl.
  { intros (l & ml & Hl & Hin). rewrite HL in Hl.
    destruct (inv_placed w l ml a HI Hl Hin) as (b & n & _ & _ & [= <-] & Hb & _). congruence. }
  split_and!; [split; [done|]|split; [|right]|done|done].
  - apply (Inv_rebuild w); [done|done|..]; rewrite ?HL, ?HC, ?H5, ?H6, ?H7.
    + congruence.
    + apply (inv_nodup w HI).
    + intros l Hl. eapply grows_usable; [done|]. by apply inv_usable.
    + intros l ml Hl. destruct (inv_listed w HI l ml Hl) as [Hnd HF]. split; [done|].
      eapply Forall_impl; [exact HF|]. intros p. apply grows_placed; [done|].
      intros b n n' Hb Hb' _. rewrite Hmis in Hb'. case_decide; congruence.
    + intros q Hq. eapply grows_known; [done|]. apply (inv_held w HI). rewrite app_assoc, elem_of_app. by left.
    + intros q y. rewrite Hrec. case_decide; [intros [= <-]; congruence|apply (inv_tokens w HI)].
    + intros k Hk'. destruct (inv_fresh w HI k) as (K1 & K2 & K3); [subst a r; lia|].
      rewrite Hmis, Hrec. rewrite !decide_False by (subst a r; lia). done.
    + apply (inv_persist w HI).
  - exists m, r, x. split_and!; try done. rewrite Hrec. by rewrite decide_True.
  - split; [done|]. intros n Hn'. by assert (n = m) as -> by congruence.
Qed.

Lemma CreateMissionAndAbility_spec q info w :
  Inv w → post (CreateMissionAndAbility E q info) w (λ ar w',
    ok w w' ∧ ready w' ar.1 ∧ ¬ listed w' ar.1 ∧ known w' ar.2).
Proof.
  intros HI. unfold CreateMissionAndAbility, CreateAbilityRecord, upd_record, the_record.
  apply post_bind, post_bind, post_alloc, post_bind, post_gets, post_bind, post_modify, post_mret.
  apply post_bind, post_alloc, post_bind, post_gets, post_bind, post_modify.
  apply post_bind, post_bind. eapply post_load; [cbn; by rewrite lookup_insert_eq|].
  apply post_modify, post_mret. cbn [fst snd].
  eapply ok_create; [exact HI|cbn; intros k; rewrite insert_insert_eq; apply lookup_insert
    |cbn; intros k; apply lookup_insert|done..].
Qed.

(** ** Starting abilities *)

(** What a start takes for granted: a mission that a request for an ability of the
    launcher reuses is in the launcher list. *)
Definition request_ready w (q : AbilityRequest) : Prop :=
  ∀ a, GetReusedMission w q = Some a → in_list w (launcherList_ w) a.
Definition request_ok w (q : AbilityRequest) : Prop :=
  isLauncherApp (req_traits q) = true → request_ready w q.

Lemma request_ok_same w w' q : same_lists w w' → request_ok w q → request_ok w' q.
Proof.
  intros Hs Hq Hl a. rewrite (GetReusedMission_same w w' q Hs), (sl_launcher _ _ Hs). intros Ha.
  destruct (Hq Hl a Ha) as (ml & ? & ?). exists ml. by rewrite (sl_lists _ _ Hs).
Qed.

Definition caller_launcher w (caller : option Z) : bool :=
  match caller ≫= λ c, recordHeap (store_ w) !! c with Some x => IsLauncherAbility x | None => false end.

Lemma grows_caller_launcher w w' caller :
  grows w w' → (∀ c, caller = Some c → known w c) → caller_launcher w' caller = caller_launcher w caller.
Proof.
  intros Hg Hc. destruct caller as [c|]; [|done]. destruct (Hc c eq_refl) as [x Hx].
  destruct (g_records w w' Hg c x Hx) as (y & Hy & _ & _ & Et & _). unfold caller_launcher, IsLauncherAbility. cbn.
  by rewrite Hx, Hy, Et.
Qed.

Lemma calm_EnqueueWaitingAbility q w : post (EnqueueWaitingAbility q) w (λ _ w', calm w w').
Proof. apply post_modify, calm_queue. Qed.
Lemma calm_EnqueueWaitingAbilityToFront q w : post (EnqueueWaitingAbilityToFront q) w (λ _ w', calm w w').
Proof. apply post_modify, calm_queue. Qed.

Lemma GetTargetMissionListByLauncher_spec q w :
  Inv w → post (GetTargetMissionListByLauncher q) w (λ l w', ok w w' ∧ usable w' l ∧
    (l = launcherList_ w → request_ready w' q)).
Proof.
  intros HI. unfold GetTargetMissionListByLauncher. do 4 apply post_bind, post_gets.
  assert (post NewMissionList w (λ l w', ok w w' ∧ usable w' l ∧
    (l = launcherList_ w → request_ready w' q))) as Hnew.
  { eapply post_mono; [by apply NewMissionList_spec|cbn beta]. intros l w' (Hok & Hu & _ & Hn & _).
    split_and!; [done..|]. intros ->. destruct (inv_launcher w HI) as (ml & Hml & _). congruence. }
  destruct (GetReusedMission w q) as [a|] eqn:Ea; [|done]. cbn [mission_at mbind option_bind].
  pose proof (GetReusedMission_listed w q a Ea) as [k Hk].
  destruct (missionHeap (store_ w) !! a) as [m|] eqn:Em; [|done]. cbn.
  rewrite (owner_of_placed w k a m) by done.
  destruct (bool_decide (k ≠ defaultSingleList_ w) && bool_decide (k ≠ defaultStandardList_ w)) eqn:Ek; [|done].
  apply andb_true_iff in Ek as [N1%bool_decide_eq_true N2%bool_decide_eq_true]. apply post_mret.
  split_and!; [by apply ok_refl|split_and!; [by eapply in_list_has_list|done..]|].
  intros -> b Hb. by simplify_eq.
Qed.

Lemma GetTargetMissionListByDefault_spec c w :
  Inv w → known w c → post (GetTargetMissionListByDefault c) w (λ res w', ok w w' ∧
    ∀ l, res = Some l → usable w' l).
Proof.
  intros HI Hc. keep_start. unfold GetTargetMissionListByDefault.
  repeat keep_step; try (split; [keep_end|done]).
  - apply andb_true_iff in Heqb as [N1%bool_decide_eq_true N2%bool_decide_eq_true].
    split; [keep_end|]. by intros ? [= <-].
  - eapply post_mono; [by apply NewMissionList_spec|cbn beta]. intros l w1 (Hok & Hu & Hin & Hn & _ & Hst).
    destruct Hl as [k Hk'].
    assert (z0 = k) as -> by (rewrite (owner_of_placed w k z m) in Heqo0 by done; by injection Heqo0).
    destruct Hok as [Hg1 HI1].
    pose proof (take_over_spec w1 w1 k l z HI1 (settled_refl w1 HI1)) as Hto.
    assert (post (RemoveFrom k z ;; AddToTop l z ;; mret (Some l)) w1 (λ res w', moved w1 w' l z ∧ res = Some l)) as Hrun.
    { destruct Hto as (u & w2 & Eu & Hm2); [by apply Hin|apply Hu|]. exists (Some l), w2. split; [|done].
      unfold mbind, M_bind in *. destruct (RemoveFrom k z w1) as [[v w']|] eqn:Er; [|done]. cbn in *.
      rewrite Eu. done. }
    eapply post_mono; [exact Hrun|cbn beta]. intros res w2 [[[Hg2 HI2] _ _ _ _] ->].
    split; [split; [by etrans|done]|]. intros ? [= <-]. by eapply grows_usable.
Qed.

Lemma GetTargetMissionList_spec caller q w :
  Inv w → request_ok w q → (∀ c, caller = Some c → known w c) →
  post (GetTargetMissionList caller q) w (λ res w', ok w w' ∧ ∀ l, res = Some l → usable w' l ∧
    (caller_launcher w caller = true → l = launcherList_ w → request_ready w' q)).
Proof.
  intros HI Hq Hc. unfold GetTargetMissionList. destruct (isLauncherApp (req_traits q)) eqn:Ea.
  { apply post_fmap, post_gets. split; [by apply ok_refl|]. intros l [= <-].
    split; [by apply inv_launcher_usable|]. intros _ _. by apply Hq. }
  destruct caller as [c|].
  - apply post_bind, post_record; [auto|]. intros x Hx. destruct (IsLauncherAbility x) eqn:El.
    + apply post_fmap. eapply post_mono; [by apply GetTargetMissionListByLauncher_spec|cbn beta].
      intros l w' (Hok & Hu & Hr). split; [done|]. intros ? [= <-]. auto.
    + eapply post_mono; [apply GetTargetMissionListByDefault_spec; auto|cbn beta].
      intros res w' [Hok Hu]. split; [done|]. intros l Hl. split; [auto|]. unfold caller_launcher. cbn.
      rewrite Hx, El. done.
  - apply post_fmap. eapply post_mono; [by apply NewMissionList_spec|cbn beta].
    intros l w' (Hok & Hu & _). split; [done|]. intros ? [= <-]. done.
Qed.
Hint Resolve calm_EnqueueWaitingAbility calm_EnqueueWaitingAbilityToFront : calm.

Lemma calm_reused_mission a method t w :
  whole w a →
  post (upd_mission a (λ m, UpdateMissionTime (UpdateMissionId m (MissionList.GetMissionId m) method).2 t)) w
    (λ _ w', calm w w').
Proof.
  intros (m & _ & _ & Hm & _). apply calm_upd_mission; [by exists m|]. intros n.
  unfold UpdateMissionId. by case_match.
Qed.
Hint Resolve calm_reused_mission : calm.
Hint Extern 1 (whole _ _) =>
  first [assumption|eapply grows_whole; [eapply c_grows; eassumption|assumption]] : calm.

Lemma HandleReusedMissionAndAbility_spec q w :
  Inv w → post (HandleReusedMissionAndAbility E q) w (λ res w', calm w w' ∧ res = GetReusedMission w q).
Proof.
  intros HI. unfold HandleReusedMissionAndAbility. apply post_bind, post_gets.
  destruct (GetReusedMission w q) as [a|] eqn:Ea; [|by apply post_mret].
  pose proof (listed_whole w a HI (GetReusedMission_listed w q a Ea)) as Hw.
  keep_step. keep_step. unfold GetAbilityRecord. rewrite Hr.
  unfold GetInnerMissionInfoById. calm_run; split; first [calm_side|done].
Qed.

(** What holds of a target: it can be moved, and when it is in a list although the
    request is for the launcher, that list is the launcher's. *)
Definition target_ok w w' q (t : Target) : Prop :=
  match t with
  | TargetMission a ro => ready w' a ∧ (∀ r, ro = Some r → known w' r) ∧
      (request_ready w q → ∀ l, in_list w' l a → l = launcherList_ w)
  | _ => True
  end.

Lemma created_target_ok w w0 q info (save : M unit) :
  Inv w0 → grows w w0 → (∀ w', Inv w' → post save w' (λ _ w'', calm w' w'')) →
  post (CreateMissionAndAbility E q info) w0 (λ ar w1,
    post (save ;; mret (TargetMission ar.1 (Some ar.2))) w1 (λ t w', ok w w' ∧ target_ok w w' q t)).
Proof.
  intros HI Hg Hs. eapply post_mono; [by apply CreateMissionAndAbility_spec|cbn beta].
  intros [a r] w1 ([Hg1 HI1] & Hr & Hn & Hk). cbn [fst snd] in *. apply post_bind.
  eapply post_mono; [by apply Hs|cbn beta]. intros _ w2 Hc. apply post_mret.
  pose proof (calm_ok w1 w2 HI1 Hc) as [Hg2 HI2].
  split; [split; [|done]; by do 2 (etrans; [eassumption|])|]. split_and!; [by eapply calm_ready| |].
  - intros ? [= <-]. by eapply grows_known.
  - intros _ l Hl. destruct Hn. apply (calm_listed w1 w2 a Hc). by exists l.
Qed.

Lemma GetTargetMissionAndAbility_spec q w :
  Inv w → post (GetTargetMissionAndAbility E q) w (λ t w', ok w w' ∧ target_ok w w' q t).
Proof.
  intros HI. unfold GetTargetMissionAndAbility. apply post_bind.
  eapply post_mono; [by apply HandleReusedMissionAndAbility_spec|cbn beta]. intros res w1 [Hc ->].
  pose proof (calm_ok w w1 HI Hc) as [Hg1 HI1].
  destruct (GetReusedMission w q) as [a|] eqn:Ea.
  { assert (listed w1 a) as Ha by (apply (calm_listed w w1 a Hc); by eapply GetReusedMission_listed).
    apply post_bind, post_mission; [by apply listed_whole|]. intros m r Hm Hr Hk. apply post_mret.
    split; [done|]. split_and!; [by apply listed_ready| |].
    - unfold GetAbilityRecord. intros r' Hr'. by simplify_eq.
    - intros Hq l Hl. eapply in_list_unique; [exact HI1|done|]. apply (calm_in_list w w1 _ a Hc). by apply Hq. }
  clear Hc. repeat first [keep_step|keep_call]; keep_end; try (split; [keep_end|done]).
  all: apply created_target_ok; [done|done|]; intros w2 HI2; calm_run.
Qed.

Lemma GetTargetMission_spec q w :
  Inv w → post (GetTargetMission E q) w (λ t w', ok w w' ∧ ∀ a r, t = inr (a, r) →
    ready w' a ∧ known w' r ∧ (request_ready w q → ∀ l, in_list w' l a → l = launcherList_ w)).
Proof.
  intros HI. unfold GetTargetMission. apply post_bind.
  eapply post_mono; [by apply GetTargetMissionAndAbility_spec|cbn beta]. intros t w1 [Hok Ht].
  destruct t as [a [r|]| |]; try (apply post_mret; by split). destruct Ht as (Hr & Hk & Hq).
  pose proof (Hk r eq_refl) as Hkr. pose proof Hok as [Hg1 HI1].
  eapply post_mono with (P := λ t w2, calm w1 w2 ∧ ∀ b r', t = inr (b, r') → b = a ∧ r' = r).
  - calm_run; (split; [first [reflexivity|calm_side]|by intros ? ? [=]]).
  - intros t w2 [Hc Ht]. split; [eapply ok_trans; [done|by apply calm_ok]|].
    intros b r' Hb. apply Ht in Hb as [-> ->]. split_and!; [by eapply calm_ready|by eapply calm_known|].
    intros Hq' l Hl. apply Hq; [done|]. by apply (calm_in_list w1 w2 l a Hc).
Qed.

Lemma keep_StartAbilityLocked top caller q w :
  Inv w → request_ok w q → (∀ c, caller = Some c → known w c) →
  keeps_op (StartAbilityLocked E top caller q) w.
Proof.
  intros HI Hq Hc. keep_start. unfold StartAbilityLocked. apply post_bind.
  eapply post_mono; [by apply GetTargetMissionList_spec|cbn beta]. intros tl w1 [Hok Hl].
  destruct tl as [l|]; [|by apply post_mret]. destruct (Hl l eq_refl) as [Hu Hcl].
  pose proof Hok as [Hg1 HI1]. apply post_bind.
  eapply post_mono; [by apply GetTargetMission_spec|cbn beta]. intros t w2 [Hok2 Ht].
  pose proof Hok2 as [Hg2 HI2].
  destruct t as [code|[a r]]; [apply post_mret; by eapply ok_trans|].
  destruct (Ht a r eq_refl) as (Hr & Hk & Hlau).
  assert (grows w w2) as Hg02 by (by etrans). clear Hok Hok2.
  apply post_bind, post_gets, post_bind. fold (caller_launcher w2 caller).
  eapply post_mono; [apply MoveMissionToTargetList_spec; [done| |done|]|cbn beta].
  { eapply (grows_has_list w1); [done|apply Hu]. }
  { rewrite (grows_caller_launcher w w2) by done. intros E1 E2 k Hk2.
    rewrite (g_launcher _ _ Hg2), (g_launcher _ _ Hg1) in E2.
    rewrite (g_launcher _ _ Hg2). apply Hlau; [|done]. by apply Hcl. }
  intros _ w3 [[Hg3 HI3] _ _ _ _]. assert (usable w3 l) as Hu3 by (eapply grows_usable; [|exact Hu]; by etrans).
  apply post_bind. eapply post_mono; [by apply MoveMissionListToTop_spec|cbn beta].
  intros _ w4 [([Hg4 HI4] & _ & _) _].
  assert (known w4 r) by (eapply grows_known; [|exact Hk]; by etrans).
  assert (grows w w4) by (etrans; [exact Hg02|]; by etrans).
  clear -HI4 H0 H1. keep_run.
Qed.

Lemma keep_StartAbility_at top caller q w :
  Inv w → request_ok w q → (∀ c, caller = Some c → known w c) →
  keeps_op (StartAbility_at E top caller q) w.
Proof.
  intros HI Hq Hc. unfold StartAbility_at. case_match; [|by apply keep_StartAbilityLocked].
  keep_start. keep_run.
Qed.

Lemma caller_known w t c : Inv w → GetAbilityRecordByTokenInner w t = Some c → known w c.
Proof. apply GetAbilityRecordByTokenInner_known. Qed.

Lemma keep_StartAbility q w : Inv w → request_ok w q → keeps_op (StartAbility E q) w.
Proof.
  intros HI Hq. keep_start. unfold StartAbility. repeat first [keep_step|keep_call]; keep_end.
  apply keep_StartAbility_at; [done|done|]. intros c. by apply caller_known.
Qed.

(** The request that is started next. *)
Definition head_ok w : Prop :=
  match waitingAbilityQueue_ w with q :: _ => request_ok w q | [] => True end.

Lemma keep_StartWaitingAbility w : Inv w → head_ok w → keeps_op (StartWaitingAbility E) w.
Proof.
  intros HI Hq. unfold head_ok in Hq. unfold StartWaitingAbility.
  do 3 apply post_bind, post_gets. destruct (top_is_foregrounding _ _); [by apply post_mret, ok_refl|].
  destruct (waitingAbilityQueue_ w) as [|q qs] eqn:Eq; [by apply post_mret, ok_refl|].
  apply post_bind, post_modify, post_bind, post_gets, post_bind.
  set (w1 := w <| waitingAbilityQueue_ := qs |>).
  assert (ok w w1) as Hok by (apply calm_ok; [done|]; apply (calm_queue w (λ _, qs))).
  eapply post_mono; [apply (keep_StartAbility_at _ _ q w1); [apply Hok|by eapply request_ok_same; [|exact Hq]|]|cbn beta].
  - intros c. apply caller_known, Hok.
  - intros _ w2 Hok2. apply post_mret. by eapply ok_trans.
Qed.
End Keeps.

#[export] Hint Extern 1 (whole _ _) =>
  first [assumption|eapply grows_whole; [eapply c_grows; eassumption|assumption]] : calm.
#[export] Hint Resolve calm_EnqueueWaitingAbility calm_EnqueueWaitingAbilityToFront : calm.
#[export] Hint Resolve keep_RemoveMissionList keep_RemoveByRecord keep_RemoveFrom keep_push_terminate
  keep_filter_terminate keep_RemoveTerminatingAbility keep_TerminateAbilityLocked
  keep_TerminateAbilityInner keep_CheckLimit keep_MoveAbilityToBackground keep_MinimizeAbility
  keep_StartAbility keep_StartWaitingAbility : keeps.

Ltac keep_start := match goal with HI : Inv ?w |- _ => assert (grows w w) by reflexivity end.
