(* ===== verification/MissionRuns.v ===== *)
(** * The mission list manager: the invariant of its runs

    The completions, timeouts, deaths and the rest of the operations keep the invariant,
    and so does every step of the manager that its conditions allow ([steady]). *)

From stdpp Require Import prelude gmap strings list sorting pretty.
From Stdlib Require Import ZArith Lia.
From S2P Require Import Prelude MissionInfo MissionInfoMgr MissionList MissionManager MissionLifecycle.
From S2P Require Import MissionOps MissionSteps MissionInvariant MissionCalm MissionPlaces MissionKeeps.

Local Open Scope Z_scope.

Ltac post_if := match goal with |- post (if ?c then _ else _) _ _ => destruct c end.

Section Runs.
Context {WL : WantLib} {MS : MissionStore} (E : Env).
Implicit Types (w : Manager) (r a b l : Z).

Abbreviation keeps_op m w := (post m w (λ _ w', ok w w')).

Lemma calm_mission_mark a f w :
  whole w a → (∀ m, same_mission m (f m) ∧ ownerMissionList_ (f m) = ownerMissionList_ m) →
  post (upd_mission a f) w (λ _ w', calm w w').
Proof. intros (m & _ & _ & Hm & _). apply calm_upd_mission. by exists m. Qed.
Hint Extern 2 (post (upd_mission _ _) _ _) =>
  apply calm_mission_mark; [first [assumption|eapply grows_whole; [eapply c_grows; eassumption|assumption]]
                           |intros ?; by repeat split] : calm.

(** ** Reports and completions *)

Lemma keep_AttachAbilityThread token scheduler pid w :
  Inv w → keeps_op (AttachAbilityThread E token scheduler pid) w.
Proof. intros HI. keep_start. unfold AttachAbilityThread. keep_run. Qed.

Lemma keep_OnAbilityRequestDone token w : Inv w → keeps_op (OnAbilityRequestDone token) w.
Proof. intros HI. keep_start. unfold OnAbilityRequestDone. keep_run. Qed.

Lemma keep_DispatchForeground r success state w :
  Inv w → known w r → keeps_op (DispatchForeground r success state) w.
Proof. intros HI Hr. keep_start. destruct success; unfold DispatchForeground, PostStartWaitingAbility; keep_run. Qed.
Hint Resolve keep_DispatchForeground : keeps.

Lemma keep_DispatchBackground r w : Inv w → known w r → keeps_op (DispatchBackground r) w.
Proof. intros HI Hr. keep_start. unfold DispatchBackground. keep_run. Qed.
Hint Resolve keep_DispatchBackground : keeps.

Lemma keep_DispatchTerminate r w : Inv w → known w r → keeps_op (DispatchTerminate r) w.
Proof. intros HI Hr. keep_start. unfold DispatchTerminate. keep_run. Qed.
Hint Resolve keep_DispatchTerminate : keeps.

Lemma keep_AbilityTransactionDone token state w :
  Inv w → keeps_op (AbilityTransactionDone token state) w.
Proof. intros HI. keep_start. unfold AbilityTransactionDone, DispatchState. keep_run. Qed.

Lemma keep_CompleteForegroundSuccess r w :
  Inv w → known w r → keeps_op (CompleteForegroundSuccess E r) w.
Proof.
  intros HI Hr. keep_start. unfold CompleteForegroundSuccess, PostStartWaitingAbility, GetInnerMissionInfoById.
  keep_run.
Qed.
Hint Resolve keep_CompleteForegroundSuccess : keeps.

Lemma keep_TerminateIfBackground r w : Inv w → known w r → keeps_op (TerminateIfBackground r) w.
Proof. intros HI Hr. keep_start. unfold TerminateIfBackground. keep_run. Qed.

Lemma keep_terminate_waiting w :
  Inv w → keeps_op (each (terminateAbilityList_ w) TerminateIfBackground) w.
Proof.
  intros HI. apply keep_each; [done|]. intros r w' Hr HI' Hg. apply keep_TerminateIfBackground; [done|].
  eapply grows_known; [done|]. apply (inv_held w HI). set_solver.
Qed.
Hint Resolve keep_terminate_waiting : keeps.

Lemma keep_CompleteBackground r w : Inv w → known w r → keeps_op (CompleteBackground r) w.
Proof. intros HI Hr. keep_start. unfold CompleteBackground. keep_run. Qed.
Hint Resolve keep_CompleteBackground : keeps.

Lemma keep_CompleteTerminateAndUpdateMission r w :
  Inv w → known w r → keeps_op (CompleteTerminateAndUpdateMission r) w.
Proof. intros HI Hr. keep_start. unfold CompleteTerminateAndUpdateMission, GetInnerMissionInfoById. keep_run. Qed.
Hint Resolve keep_CompleteTerminateAndUpdateMission : keeps.

Lemma keep_CompleteTerminate r w : Inv w → known w r → keeps_op (CompleteTerminate E r) w.
Proof. intros HI Hr. keep_start. unfold CompleteTerminate. keep_run. Qed.
Hint Resolve keep_CompleteTerminate : keeps.

(** ** Moving a mission to the front *)

Definition front_ok w w' (t : FrontTarget) : Prop :=
  match t with FrontAt l a => usable w' l ∧ l ≠ launcherList_ w ∧ ready w' a | _ => True end.

Lemma fresh_not_launcher w l : Inv w → lists_ w !! l = None → l ≠ launcherList_ w.
Proof. intros HI Hl ->. destruct (inv_launcher w HI) as (ml & Hml & _). congruence. Qed.

Lemma same_store_ready w w' a :
  (∀ k b, in_list w' k b ↔ in_list w k b) → store_ w' = store_ w → grows w w' → ready w a → ready w' a.
Proof.
  intros Hin Hs Hg [Hw Hr]. split; [by eapply grows_whole|]. unfold listed. setoid_rewrite Hin. by rewrite Hs.
Qed.

Lemma RestoreMission_spec info w :
  Inv w → post (RestoreMission E info) w (λ t w', ok w w' ∧ front_ok w w' t).
Proof.
  intros HI. unfold RestoreMission. destruct (env_GenerateAbilityRequest E _) as [q|]; [|by apply post_mret].
  apply post_bind. eapply post_mono; [by apply keep_CheckLimit|cbn beta]. intros [] w1 Hok.
  { by apply post_mret. }
  pose proof Hok as [Hg1 HI1]. unfold CreateAbilityRecord, upd_life, upd_record, the_record.
  apply post_bind, post_bind, post_alloc, post_bind, post_gets, post_bind, post_modify, post_mret.
  apply post_bind, post_alloc, post_bind, post_modify.
  apply post_bind, post_bind. eapply post_load; [cbn; by rewrite lookup_insert_eq|].
  apply post_modify. apply post_bind. set (w2 := _ <| store_ ::= _ |>).
  assert (ok w1 w2 ∧ ready w2 (Z.succ (next_ w1)) ∧ ¬ listed w2 (Z.succ (next_ w1)) ∧ known w2 (next_ w1))
    as ([Hg2 HI2] & Hr & Hn & Hk).
  { unfold w2. eapply ok_create; [exact HI1|cbn; intros k; rewrite insert_insert_eq; apply lookup_insert
    |cbn; intros k; apply lookup_insert|done..]. }
  eapply post_mono; [by apply NewMissionList_spec|cbn beta]. intros l w3 ([Hg3 HI3] & Hu & Hin & Hfr & _ & Hst).
  apply post_mret. assert (grows w w2) as Hg02 by (by etrans). clearbody w2.
  split; [split; [by etrans|done]|]. split_and!; [done| |by eapply (same_store_ready w2)].
  rewrite <-(g_launcher _ _ Hg02). by apply fresh_not_launcher.
Qed.

(** The type of a list tells which it is. *)
Lemma list_types w l ml :
  Inv w → lists_ w !! l = Some ml →
  (type_ ml = LAUNCHER ↔ l = launcherList_ w) ∧
  (type_ ml = CURRENT → l ≠ launcherList_ w ∧ l ≠ defaultStandardList_ w ∧ l ≠ defaultSingleList_ w).
Proof.
  intros HI Hl. destruct (inv_launcher w HI) as (m1 & E1 & T1), (inv_standard w HI) as (m2 & E2 & T2),
    (inv_single w HI) as (m3 & E3 & T3). split; [split|].
  - intros Ht. destruct (decide (l = launcherList_ w)) as [|N1]; [done|].
    destruct (decide (l = defaultStandardList_ w)) as [->|N2]; [congruence|].
    destruct (decide (l = defaultSingleList_ w)) as [->|N3]; [congruence|].
    rewrite (inv_other w HI l ml) in Ht; done.
  - intros ->. congruence.
  - intros Ht. split_and!; intros ->; congruence.
Qed.

(** The target for a mission that is in the list [l]. *)
Record front_found w w' t l a : Prop := {
  ff_current : currentMissionLists_ w' = currentMissionLists_ w;
  ff_places : ∀ k c, in_list w' k c ↔ in_list w k c;
  ff_target : if decide (l = launcherList_ w) then t = FrontNone else ∃ k, t = FrontAt k a;
}.

Lemma GetTargetMissionListById_spec i w :
  Inv w → post (GetTargetMissionListById E i) w (λ t w', ok w w' ∧ front_ok w w' t ∧
    ∀ a l, GetMissionById w i = Some a → in_list w l a → front_found w w' t l a).
Proof.
  intros HI. unfold GetTargetMissionListById, GetInnerMissionInfoById. apply post_bind, post_gets.
  destruct (GetMissionById w i) as [a|] eqn:Ea.
  - destruct (GetMissionById_listed w i a HI Ea) as [[l Hl] Hw].
    apply post_bind, post_mission; [done|]. intros m r Hm _ _. apply post_bind, post_gets.
    rewrite (owner_of_placed w l a m) by done. apply post_bind, post_list; [by eapply in_list_has_list|].
    intros ml Hml. destruct (list_types w l ml HI Hml) as [HT HC].
    assert (∀ t w', ok w w' ∧ front_ok w w' t ∧ front_found w w' t l a →
      ok w w' ∧ front_ok w w' t ∧ ∀ a' l', Some a = Some a' → in_list w l' a' → front_found w w' t l' a') as Hfix.
    { intros t w' (? & ? & ?). split_and!; [done..|]. intros ? l' [= <-] Hl'.
      by rewrite (in_list_unique w l' l a HI Hl' Hl). }
    assert (l ≠ launcherList_ w → post NewMissionList w (λ t w', post (mret (FrontAt t a)) w'
      (λ t w', ok w w' ∧ front_ok w w' t ∧ front_found w w' t l a))) as Hnew.
    { intros Nl. eapply post_mono; [by apply NewMissionList_spec|cbn beta].
      intros t w' (Hok & Hu & Hin & Hfr & Hc & Hst). apply post_mret. split_and!; [done|..].
      - split_and!; [done|by apply fresh_not_launcher|]. eapply (same_store_ready w); [done|done|apply Hok|].
        apply listed_ready; [done|by exists l].
      - split; [done|done|]. rewrite decide_False by done. by exists t. }
    eapply post_mono; [|apply Hfix].
    destruct (type_ ml) eqn:Et; [|apply post_bind, Hnew; intros EQ%HT; done..|].
    + apply post_mret. destruct (HC eq_refl) as (N1 & N2 & N3). split_and!; [by apply ok_refl|..].
      * split; [split; [by exists ml|done]|split; [done|]]. apply listed_ready; [done|by exists l].
      * split; [done|done|]. rewrite decide_False by done. by exists l.
    + apply post_mret. split_and!; [by apply ok_refl|done|]. split; [done|done|]. by rewrite decide_True by (by apply HT).
  - apply post_bind, post_gets. destruct (MissionInfoMgr.GetInnerMissionInfoById _ _).2 as [info|];
      [|apply post_mret; split; [by apply ok_refl|done]].
    eapply post_mono; [by apply RestoreMission_spec|cbn beta]. intros t w' [? ?]. done.
Qed.

Lemma keep_MoveMissionToFrontInner i fromLauncher w :
  Inv w → keeps_op (MoveMissionToFrontInner E i fromLauncher) w.
Proof.
  intros HI. unfold MoveMissionToFrontInner. apply post_bind.
  eapply post_mono; [by apply GetTargetMissionListById_spec|cbn beta]. intros t w1 ([Hg1 HI1] & Hf & _).
  destruct t as [l a| |]; [|by apply post_mret..]. destruct Hf as (Hu & Hn & Hr). apply post_bind.
  eapply post_mono; [apply MoveMissionToTargetList_spec; [done|apply Hu|done|]|cbn beta].
  { intros _ EQ. rewrite (g_launcher _ _ Hg1) in EQ. done. }
  intros _ w2 [[Hg2 HI2] _ _ _ _]. apply post_bind.
  eapply post_mono; [apply MoveMissionListToTop_spec; [done|by eapply grows_usable]|cbn beta].
  intros _ w3 [([Hg3 HI3] & _ & _) _].
  assert (whole w3 a) by (eapply grows_whole; [|apply Hr]; by etrans).
  assert (grows w w3) by (by do 2 (etrans; [eassumption|])). clear -HI3 H H0. keep_run.
Qed.
Hint Resolve keep_MoveMissionToFrontInner : keeps.

Lemma keep_BackToCaller r w : Inv w → known w r → keeps_op (BackToCaller E r) w.
Proof. intros HI Hr. keep_start. unfold BackToCaller. keep_run. Qed.
Hint Resolve keep_BackToCaller : keeps.

(** What [BackToLauncher] takes for granted: the mission found for the root launcher is in
    the launcher list. *)
Definition back_ok w : Prop :=
  ∀ r x a, lists_ w !! launcherList_ w ≫= GetLauncherRoot (store_ w) = Some r →
    recordHeap (store_ w) !! r = Some x → GetMissionById w (recordMissionId_ (life_ x)) = Some a →
    in_list w (launcherList_ w) a.

Lemma back_ok_same w w' : same_lists w w' → back_ok w → back_ok w'.
Proof.
  intros Hs Hb r x a. rewrite (GetMissionById_same w w') by done. destruct Hs as [H1 H2 H3 H4 H5 H6].
  unfold in_list. rewrite H1, H2, H4. apply Hb.
Qed.

Lemma keep_BackToLauncher w : Inv w → back_ok w → keeps_op (BackToLauncher E) w.
Proof.
  intros HI Hb. unfold BackToLauncher. apply post_bind, post_gets.
  destruct (lists_ w !! launcherList_ w ≫= GetLauncherRoot (store_ w)) as [r|] eqn:Er;
    [|by apply post_mret, ok_refl].
  assert (known w r) as Hk by (by eapply GetLauncherRoot_known).
  apply post_bind, post_record; [done|]. intros x Hx. case_match; [by apply post_mret, ok_refl|].
  apply post_bind, post_gets. destruct (GetMissionById w _) as [a|] eqn:Ea; [|by apply post_mret, ok_refl].
  pose proof (Hb r x a Er Hx Ea) as Hin. apply post_bind, post_modify, post_bind, post_gets, post_bind.
  set (w1 := w <| waitingAbilityQueue_ := [] |>).
  assert (ok w w1) as [Hg1 HI1] by (apply calm_ok; [done|]; apply (calm_queue w (λ _, []))).
  eapply post_mono; [apply (AddToTop_moved (launcherList_ w1) a w1); [done|by apply inv_launcher_usable|
    by apply in_list_placeable]|cbn beta].
  intros _ w2 [[Hg2 HI2] _ _ _ _]. apply post_bind. rewrite <-(g_launcher _ _ Hg2).
  eapply post_mono; [apply MoveMissionListToTop_spec; [done|by apply inv_launcher_usable]|cbn beta].
  intros _ w3 [([Hg3 HI3] & _ & _) _]. clearbody w1.
  assert (grows w w3) by (by do 2 (etrans; [eassumption|])). assert (known w3 r) by (by eapply grows_known).
  clear -HI3 H0 H1. keep_run.
Qed.

(** ** Timeouts *)

Lemma keep_MoveToTerminateList r w : Inv w → known w r → keeps_op (MoveToTerminateList r) w.
Proof. intros HI Hr. keep_start. unfold MoveToTerminateList, GetInnerMissionInfoById. keep_run. Qed.
Hint Resolve keep_MoveToTerminateList : keeps.

Lemma keep_HandleTimeoutAndResumeAbility r state w :
  Inv w → known w r → keeps_op (HandleTimeoutAndResumeAbility r state) w.
Proof.
  intros HI Hr. keep_start. unfold HandleTimeoutAndResumeAbility, DelayedStartLauncher, DelayedResumeTimeout.
  keep_run.
  all: match goal with H : GetCallerRecord ?w ?x ≫= _ = Some _, HI : Inv ?w |- _ =>
    let Ec := fresh "Ec" in let z := fresh "z" in
    destruct (GetCallerRecord w x) as [z|] eqn:Ec; [|done]; cbn in H;
    apply (GetCallerRecord_known w x z HI) in Ec as [y Hy]; rewrite Hy in H; cbn in H; simplify_eq
  end.
  all: keep_run.
Qed.
Hint Resolve keep_HandleTimeoutAndResumeAbility : keeps.

Lemma keep_HandleLoadTimeout r w : Inv w → known w r → keeps_op (HandleLoadTimeout r) w.
Proof. intros HI Hr. keep_start. unfold HandleLoadTimeout, DelayedStartLauncher. keep_run. Qed.
Hint Resolve keep_HandleLoadTimeout : keeps.

Lemma keep_HandleForegroundTimeout r state w :
  Inv w → known w r → keeps_op (HandleForegroundTimeout r state) w.
Proof. intros HI Hr. keep_start. unfold HandleForegroundTimeout, DelayedStartLauncher. keep_run. Qed.
Hint Resolve keep_HandleForegroundTimeout : keeps.

Lemma keep_CompleteForegroundFailed r state w :
  Inv w → known w r → keeps_op (CompleteForegroundFailed E r state) w.
Proof. intros HI Hr. keep_start. unfold CompleteForegroundFailed, PostStartWaitingAbility. keep_run. Qed.
Hint Resolve keep_CompleteForegroundFailed : keeps.

Lemma record_by_id_known w l ml ps i :
  Inv w → lists_ w !! l = Some ml → ps ⊆ missions_ ml →
  ∃ res, record_by_id (store_ w) ps i = Ret res ∧ ∀ r, res = Some r → known w r.
Proof.
  intros HI Hl. induction ps as [|p ps IH]; intros Hps; cbn [record_by_id]; [by exists None|].
  destruct (inv_listed w HI l ml Hl) as [_ HF]. eapply Forall_forall in HF; [|apply Hps; left].
  destruct HF as (a & m & r & x & -> & Hm & _ & Hr & Hx & _). cbn [mission_at mbind option_bind].
  rewrite Hm. unfold GetAbilityRecord. rewrite Hr. cbn. rewrite Hx. cbn.
  case_match; [|apply IH; set_solver]. eexists. split; [done|]. intros ? [= <-]. by exists x.
Qed.

Lemma GetAbilityRecordById_known w i :
  Inv w → ∃ res, GetAbilityRecordById w i = Ret res ∧ ∀ r, res = Some r → known w r.
Proof.
  intros HI. unfold GetAbilityRecordById, live_lists.
  assert (∀ ls, (∀ l, l ∈ ls → has_list w l) → ∃ res, record_by_id_in w ls i = Ret res ∧
    ∀ r, res = Some r → known w r) as H.
  { induction ls as [|l ls IH]; intros Hls; cbn [record_by_id_in]; [by exists None|].
    destruct (Hls l) as [ml Hl]; [left|]. rewrite Hl. unfold MissionList.GetAbilityRecordById.
    destruct (record_by_id_known w l ml (missions_ ml) i HI Hl) as (res & -> & Hres); [done|].
    cbn. destruct res as [r|]; [by exists (Some r)|]. apply IH. set_solver. }
  apply H. intros l [Hl|Hl]%elem_of_app; [by apply inv_usable|].
  destruct (inv_default w HI) as (_ & ? & ?). apply elem_of_cons in Hl as [->|Hl]; [done|].
  by apply list_elem_of_singleton in Hl as ->.
Qed.

Lemma keep_OnTimeOut msg i isHalf w : Inv w → keeps_op (OnTimeOut msg i isHalf) w.
Proof.
  intros HI. keep_start. unfold OnTimeOut. apply post_bind.
  destruct (GetAbilityRecordById_known w i HI) as (res & Eres & Hres). eapply post_lift; [exact Eres|].
  destruct res as [r|]; [|keep_run]. specialize (Hres r eq_refl). keep_run.
Qed.

(** ** Deaths *)

Lemma keep_HandleLauncherDied r w : Inv w → known w r → keeps_op (HandleLauncherDied r) w.
Proof. intros HI Hr. keep_start. unfold HandleLauncherDied, DelayedStartLauncher. keep_run. Qed.
Hint Resolve keep_HandleLauncherDied : keeps.

Lemma keep_HandleAbilityDiedByDefault r w :
  Inv w → known w r → keeps_op (HandleAbilityDiedByDefault r) w.
Proof.
  intros HI Hr. keep_start. unfold HandleAbilityDiedByDefault, DelayedStartLauncher, GetInnerMissionInfoById.
  keep_run.
Qed.
Hint Resolve keep_HandleAbilityDiedByDefault : keeps.

Lemma keep_HandleAbilityDied r w : Inv w → known w r → keeps_op (HandleAbilityDied r) w.
Proof. intros HI Hr. keep_start. unfold HandleAbilityDied. keep_run. Qed.
Hint Resolve keep_HandleAbilityDied : keeps.

Lemma keep_OnAbilityDied r w : Inv w → known w r → keeps_op (OnAbilityDied E r) w.
Proof. intros HI Hr. keep_start. unfold OnAbilityDied. keep_run. Qed.
Hint Resolve keep_OnAbilityDied : keeps.

(** ** Clearing missions *)

Lemma keep_ClearMissionLocked i mission w :
  Inv w → (∀ a, mission = Some a → whole w a) → keeps_op (ClearMissionLocked E i mission) w.
Proof.
  intros HI Hm. keep_start. unfold ClearMissionLocked. destruct mission as [a|]; [|keep_run].
  specialize (Hm a eq_refl). keep_run.
Qed.

Lemma keep_clear_some i a w : Inv w → whole w a → keeps_op (ClearMissionLocked E i (Some a)) w.
Proof. intros HI Ha. apply keep_ClearMissionLocked; [done|]. by intros ? [= <-]. Qed.
Hint Resolve keep_clear_some : keeps.

Lemma keep_PrepareClearMissionLocked i a w :
  Inv w → whole w a → keeps_op (PrepareClearMissionLocked E i a) w.
Proof. intros HI Ha. keep_start. unfold PrepareClearMissionLocked. keep_run. Qed.
Hint Resolve keep_PrepareClearMissionLocked : keeps.

Lemma keep_ClearMission i w : Inv w → keeps_op (ClearMission E i) w.
Proof.
  intros HI. keep_start. unfold ClearMission, CheckPrepareTerminateEnable.
  post_if; [keep_run|]. apply post_bind, post_gets, post_bind, post_gets. post_if; [keep_run|].
  do 2 apply post_bind. apply post_gets, post_bind, post_gets, post_mret.
  destruct (GetMissionById w i) as [a|] eqn:Ea.
  - destruct (GetMissionById_listed w i a HI Ea) as [_ Ha]. post_if; [by apply keep_PrepareClearMissionLocked|].
    by apply keep_clear_some.
  - post_if; (apply keep_ClearMissionLocked; [done|by intros]).
Qed.

Lemma keep_ClearAllMissionsLocked ps fg active w :
  Inv w → (∀ a, Some a ∈ ps → whole w a) → (∀ a, a ∈ fg → whole w a) →
  post (ClearAllMissionsLocked E ps fg active) w (λ fg' w', ok w w' ∧ ∀ a, a ∈ fg' → whole w' a).
Proof.
  revert fg w. induction ps as [|[a|] ps IH]; intros fg w HI Hps Hfg; cbn [ClearAllMissionsLocked].
  { apply post_mret. split; [by apply ok_refl|done]. }
  2:{ apply IH; [done| |done]. intros b Hb. apply Hps. by right. }
  assert (whole w a) as Ha by (apply Hps; left).
  assert (∀ b, Some b ∈ ps → whole w b) as Hps' by (intros b Hb; apply Hps; by right).
  apply post_bind, post_mission; [done|]. intros m r Hm Hr Hk. case_match; [by apply IH|].
  apply post_bind. eapply post_load; [exact Hr|]. apply post_bind, post_record; [done|]. intros x Hx.
  case_match; [by apply IH|]. case_match; [apply IH; [done|done|]; intros b [->|Hb]%elem_of_cons; auto|].
  unfold CheckPrepareTerminateEnable. do 2 apply post_bind. apply post_gets, post_bind, post_gets, post_mret.
  apply post_bind.
  match goal with |- post (if ?c then _ else _) _ ?Q =>
    assert (post (if c then PrepareClearMissionLocked E (-1) a else ClearMissionLocked E (-1) (Some a)) w
      (λ _ w', ok w w')) as Hclear by (destruct c; [by apply keep_PrepareClearMissionLocked|by apply keep_clear_some])
  end.
  eapply post_mono; [exact Hclear|cbn beta]. intros _ w' [Hg HI'].
  eapply post_mono; [apply IH; [done|..]|cbn beta].
  - intros b Hb. eapply grows_whole; eauto.
  - intros b Hb. eapply grows_whole; eauto.
  - intros fg' w'' [[Hg'' HI''] Hfg']. split; [split; [by etrans|done]|done].
Qed.

Lemma list_whole w l ml a : Inv w → lists_ w !! l = Some ml → Some a ∈ missions_ ml → whole w a.
Proof. intros HI Hl Ha. eapply in_list_whole; [done|]. by exists ml. Qed.

Lemma keep_clear_lists ls fg w :
  Inv w → (∀ l, l ∈ ls → has_list w l) → (∀ a, a ∈ fg → whole w a) →
  post (clear_lists E ls fg) w (λ fg' w', ok w w' ∧ ∀ a, a ∈ fg' → whole w' a).
Proof.
  revert fg w. induction ls as [|l ls IH]; intros fg w HI Hls Hfg; cbn [clear_lists].
  { apply post_mret. split; [by apply ok_refl|done]. }
  apply post_bind, post_list; [apply Hls; left|]. intros ml Hml. apply post_bind.
  assert (post (if bool_decide (type_ ml = LAUNCHER) then mret fg
                else ClearAllMissionsLocked E (missions_ ml) fg true) w
    (λ fg' w', ok w w' ∧ ∀ a, a ∈ fg' → whole w' a)) as Hone.
  { case_match; [apply post_mret; split; [by apply ok_refl|done]|].
    apply keep_ClearAllMissionsLocked; [done| |done]. intros a. by eapply list_whole. }
  eapply post_mono; [exact Hone|cbn beta]. intros fg' w' [[Hg HI'] Hfg'].
  eapply post_mono; [apply IH; [done| |done]|cbn beta].
  - intros k Hk. eapply grows_has_list; [done|]. apply Hls. by right.
  - intros fg'' w'' [[Hg'' HI''] Hfg'']. split; [split; [by etrans|done]|done].
Qed.

Lemma DeleteAllMissionInfos_persist bg s :
  is_Some (taskDataPersistenceMgr_ s) →
  is_Some (taskDataPersistenceMgr_ (DeleteAllMissionInfos bg true s).1.2).
Proof.
  intros [st Hst]. unfold DeleteAllMissionInfos. rewrite Hst. destruct (clear_loop _ _ _ _). by eexists.
Qed.

Lemma calm_infos_events w i es :
  (is_Some (taskDataPersistenceMgr_ (infos_ w)) → is_Some (taskDataPersistenceMgr_ i)) →
  calm w (w <| infos_ := i |> <| events_ ::= es |>).
Proof. intros H. apply calm_same; cbn; auto. Qed.

Lemma keep_clear_listed l w :
  Inv w → keeps_op (ClearAllMissionsLocked E (listed_missions w l) [] false) w.
Proof.
  intros HI. eapply post_mono; [apply keep_ClearAllMissionsLocked; [done| |]|cbn beta].
  - unfold listed_missions. destruct (lists_ w !! l) as [ml|] eqn:El; [|set_solver].
    intros a. by eapply list_whole.
  - set_solver.
  - by intros ? ? [? _].
Qed.

Lemma keep_ClearAllMissions w : Inv w → keeps_op (ClearAllMissions E) w.
Proof.
  intros HI. unfold ClearAllMissions. apply post_bind, post_gets, post_bind, post_modify.
  set (w1 := w <| infos_ := _ |> <| events_ ::= _ |>).
  assert (ok w w1) as [Hg1 HI1]
    by (apply calm_ok; [done|]; apply calm_infos_events, DeleteAllMissionInfos_persist). clearbody w1.
  apply post_bind, post_gets, post_bind. eapply post_mono; [by apply keep_clear_listed|cbn beta].
  intros _ w2 [Hg2 HI2]. apply post_bind, post_gets, post_bind.
  eapply post_mono; [by apply keep_clear_listed|cbn beta]. intros _ w3 [Hg3 HI3].
  apply post_bind, post_gets, post_bind.
  eapply post_mono; [apply keep_clear_lists; [done| |set_solver]|cbn beta].
  { intros l Hl. by apply inv_usable. }
  intros fg w4 [[Hg4 HI4] Hfg]. apply post_bind.
  eapply post_mono; [apply keep_ClearAllMissionsLocked; [done| |set_solver]|cbn beta].
  { intros a (b & [= <-] & Hb)%list_elem_of_fmap. auto. }
  intros _ w5 [[Hg5 HI5] _]. apply post_mret. split; [|done]. by do 4 (etrans; [eassumption|]).
Qed.

Lemma keep_SetMissionLockedState i locked w : Inv w → keeps_op (SetMissionLockedState i locked) w.
Proof.
  intros HI. keep_start. unfold SetMissionLockedState, GetInnerMissionInfoById. post_if; [keep_run|].
  apply post_bind, post_gets, post_bind, post_gets. post_if; [keep_run|]. apply post_bind. keep_run.
Qed.

(** ** Calls and specified abilities *)

Lemma keep_ResolveAbility r w : Inv w → known w r → keeps_op (ResolveAbility E r) w.
Proof. intros HI Hr. keep_start. unfold ResolveAbility. keep_run. Qed.
Hint Resolve keep_ResolveAbility : keeps.

Lemma keep_CallAbilityLocked q w : Inv w → keeps_op (CallAbilityLocked E q) w.
Proof.
  intros HI. unfold CallAbilityLocked. post_if; [by apply post_mret, ok_refl|]. apply post_bind.
  eapply post_mono; [by apply GetTargetMissionAndAbility_spec|cbn beta]. intros t w1 [Hok Ht].
  destruct t as [a [r|]| |]; try (by apply post_mret). destruct Ht as (Hr & Hk & _). specialize (Hk r eq_refl).
  destruct Hok as [Hg1 HI1]. apply post_bind.
  eapply post_mono; [by apply calm_AddCallerRecord|cbn beta]. intros _ w2 Hc.
  pose proof (calm_ok w1 w2 HI1 Hc) as [Hg2 HI2]. apply (calm_ready _ _ _ Hc) in Hr.
  apply (calm_known _ _ _ Hc) in Hk. apply post_bind, post_mission; [apply Hr|]. intros m rm Hm _ _.
  do 3 apply post_bind, post_gets. apply post_bind.
  set (d := if bool_decide (req_launchMode q = SINGLETON) then defaultSingleList_ w2 else defaultStandardList_ w2).
  assert (keeps_op (match owner_of w2 m with Some _ => mret tt | None => AddToTop d a end) w2) as Hadd.
  { destruct (owner_of w2 m) as [l|] eqn:El; [by apply post_mret, ok_refl|].
    eapply post_mono; [apply AddToTop_moved; [done| |by eapply ready_placeable]|cbn beta].
    - destruct (inv_default w2 HI2) as (_ & ? & ?). unfold d. by case_match.
    - by intros _ w3 [? _ _ _ _]. }
  eapply post_mono; [exact Hadd|cbn beta]. intros _ w3 [Hg3 HI3].
  assert (grows w w3) by (by do 2 (etrans; [eassumption|])). apply (grows_known _ _ _ Hg3) in Hk.
  clear -HI3 Hk H. keep_run.
Qed.

Lemma keep_OnAcceptWantResponse name bundle flag w :
  Inv w →
  match waitingAbilityQueue_ w with q :: _ => request_ok w (q <| req_specifiedFlag := flag |>) | [] => True end →
  keeps_op (OnAcceptWantResponse E name bundle flag) w.
Proof.
  intros HI Hq. unfold OnAcceptWantResponse. apply post_bind, post_gets.
  destruct (waitingAbilityQueue_ w) as [|q qs] eqn:Eq; [by apply post_mret, ok_refl|].
  apply post_bind, post_modify. set (w1 := w <| waitingAbilityQueue_ := qs |>).
  assert (ok w w1) as [Hg1 HI1] by (apply calm_ok; [done|]; apply (calm_queue w (λ _, qs))).
  assert (request_ok w1 (q <| req_specifiedFlag := flag |>)) as Hq1 by (by eapply request_ok_same; [|exact Hq]).
  clearbody w1. do 3 apply post_bind, post_gets.
  destruct (if bool_decide (flag = "") then None else GetMissionBySpecifiedFlag w1 name bundle flag) as [a|] eqn:Ea.
  - assert (whole w1 a) as Ha.
    { case_bool_decide; [done|]. apply listed_whole; [done|]. by eapply GetMissionBySpecifiedFlag_listed. }
    clear -HI1 Hg1 Ha. repeat first [keep_step|keep_call]; keep_end.
  - apply post_bind. eapply post_mono; [apply (keep_StartAbilityLocked E); [done|done|]|cbn beta].
    + intros c. by apply caller_known.
    + intros _ w2 [Hg2 HI2]. apply post_mret. split; [by etrans|done].
Qed.

Lemma keep_OnStartSpecifiedAbilityTimeoutResponse w :
  Inv w → match waitingAbilityQueue_ w with _ :: q :: _ => request_ok w q | _ => True end →
  keeps_op (OnStartSpecifiedAbilityTimeoutResponse E) w.
Proof.
  intros HI Hq. unfold OnStartSpecifiedAbilityTimeoutResponse. apply post_bind, post_gets.
  destruct (waitingAbilityQueue_ w) as [|q0 [|q qs]] eqn:Eq; [by apply post_mret, ok_refl|..].
  { apply post_modify, calm_ok; [done|]. apply (calm_queue w (λ _, [])). }
  apply post_bind, post_modify. set (w1 := w <| waitingAbilityQueue_ := qs |>).
  assert (ok w w1) as [Hg1 HI1] by (apply calm_ok; [done|]; apply (calm_queue w (λ _, qs))).
  do 2 apply post_bind, post_gets. apply post_bind.
  eapply post_mono; [apply (keep_StartAbility_at E); [done|by eapply request_ok_same; [|exact Hq]|]|cbn beta].
  - intros c. by apply caller_known.
  - intros _ w2 [Hg2 HI2]. apply post_mret. split; [by etrans|done].
Qed.

(** ** Applications that go *)

(** Records get marks. *)
Record marks (s s' : MissionList.Store) : Prop := {
  mk_missions : missionHeap s' = missionHeap s;
  mk_records : ∀ r x, recordHeap s !! r = Some x → ∃ y, recordHeap s' !! r = Some y ∧ same_record x y;
  mk_old : ∀ r, is_Some (recordHeap s' !! r) → is_Some (recordHeap s !! r);
}.

#[local] Instance marks_preorder : PreOrder marks.
Proof.
  split; [intros s; split; eauto; intros r x Hx; by exists x|].
  intros s1 s2 s3 [H1 H2 H3] [K1 K2 K3]. split; [congruence| |auto].
  intros r x Hx. destruct (H2 r x Hx) as (y & Hy & Hs). destruct (K2 r y Hy) as (z & Hz & Hs').
  exists z. split; [done|]. by etrans.
Qed.

Lemma marks_set s r x y :
  recordHeap s !! r = Some x → same_record x y → marks s (set_record s r y).
Proof.
  intros Hx Hs. split; [done|..]; cbn; intros q; rewrite lookup_insert; case_decide; subst; eauto.
  - intros z Hz. exists y. split; [done|congruence].
  - intros z Hz. by exists z.
Qed.

Lemma calm_marks w s' : marks (store_ w) s' → calm w (w <| store_ := s' |>).
Proof.
  intros [H1 H2 H3]. split; try done; cbn.
  - split; try done; cbn; [rewrite H1; intros b m Hm; by exists m|intros l ml Hl; by exists ml].
  - rewrite H1. eauto.
  - auto.
Qed.

Lemma MatchedInitialMission_marks s p name id : marks s (MatchedInitialMission s p name id).2.
Proof.
  unfold MatchedInitialMission. destruct (mission_at s p) as [m|]; [|done].
  destruct (GetAbilityRecord m) as [a|]; [|done]. cbn. destruct (recordHeap s !! a) as [x|] eqn:Ex; [|done].
  cbn. case_match; [|done]. by eapply marks_set.
Qed.

Lemma uninstall_loop_marks s ps name id :
  marks s (uninstall_loop s ps name id).1 ∧ sublist (uninstall_loop s ps name id).2 ps.
Proof.
  revert s. induction ps as [|p ps IH]; intros s; cbn [uninstall_loop]; [done|].
  pose proof (MatchedInitialMission_marks s p name id) as Hm.
  destruct (MatchedInitialMission s p name id) as [matched s1]. cbn in Hm. specialize (IH s1).
  destruct (uninstall_loop s1 ps name id) as [s2 rest]. cbn in *. destruct IH as [Hs Hsub].
  split; [by etrans|]. destruct matched; by constructor.
Qed.

Lemma keep_uninstall_list name id l w : Inv w → has_list w l → keeps_op (uninstall_list name id l) w.
Proof.
  intros HI Hl. unfold uninstall_list. apply post_bind, post_list; [done|]. intros ml Hml.
  apply post_bind, post_gets, post_modify. unfold HandleUnInstallApp.
  pose proof (uninstall_loop_marks (store_ w) (missions_ ml) name id) as [Hm Hsub].
  destruct (uninstall_loop _ _ _ _) as [s' ps]. cbn [fst snd] in *.
  pose proof (calm_marks w s' Hm) as Hc. pose proof (calm_ok w _ HI Hc) as [Hg HI1].
  eapply ok_trans; [split; [exact Hg|done]|].
  destruct (inv_listed _ HI1 l ml Hml) as [Hnd HF].
  apply (ok_set_list (w <| store_ := s' |>)); [done|done|by eapply sublist_NoDup|].
  apply Forall_forall. intros p Hp. eapply Forall_forall in HF; [exact HF|]. by eapply elem_of_sublist.
Qed.
Hint Resolve keep_uninstall_list : keeps.

Lemma HandleUnInstallApp_persist s name id acc :
  is_Some (taskDataPersistenceMgr_ s) →
  is_Some (taskDataPersistenceMgr_ (MissionInfoMgr.HandleUnInstallApp s name id acc).2).
Proof.
  unfold MissionInfoMgr.HandleUnInstallApp. cbn [snd]. generalize (GetMatchedMission s name id acc).
  intros xs. revert s. induction xs as [|i xs IH]; intros s Hs; [done|]. cbn. by apply IH, DeleteMissionInfo_persist.
Qed.

Lemma keep_AddUninstallTags name id w : Inv w → keeps_op (AddUninstallTags name id) w.
Proof.
  intros HI. keep_start. unfold AddUninstallTags. apply post_bind, post_gets, post_bind.
  eapply post_mono; [apply keep_each; [done|]|cbn beta].
  { intros l w' Hl HI' Hg. assert (has_list w' l) as Hl'
      by (eapply grows_has_list; [done|]; by apply inv_usable).
    clear -HI' Hl'. keep_start. keep_run. }
  intros _ w1 Hok. carry_ok. do 8 (first [keep_step|keep_call]).
  apply post_bind, post_gets, post_bind, post_modify, post_modify.
  match goal with HI : Inv ?w' |- _ => rename w' into w2 end.
  split; [etrans; [eassumption|]|]; [|eapply calm_Inv; [eassumption|]].
  1: apply c_grows.
  all: (etrans; [apply calm_infos_events, HandleUnInstallApp_persist|]); apply calm_queue.
Qed.

Lemma SignRestartAppFlag_marks s ml name : marks s (MissionList.SignRestartAppFlag s ml name).
Proof.
  unfold MissionList.SignRestartAppFlag. revert s. induction (missions_ ml) as [|p ps IH]; intros s; [done|].
  cbn [fold_left]. etrans; [|apply IH]. unfold sign_restart. destruct (mission_at s p) as [m|]; [|done].
  destruct (GetAbilityRecord m) as [a|]; [|done]. cbn. destruct (recordHeap s !! a) as [x|] eqn:Ex; [|done].
  cbn. case_match; [done|]. by eapply marks_set.
Qed.

Lemma keep_SignRestartAppFlag name w : Inv w → keeps_op (SignRestartAppFlag name) w.
Proof.
  intros HI. apply post_modify, calm_ok; [done|].
  apply (calm_marks w (fold_left (λ s ml, MissionList.SignRestartAppFlag s ml name) (counted_lists w) (store_ w))).
  generalize (store_ w). induction (counted_lists w) as [|ml mls IH]; intros s; [done|]. cbn [fold_left].
  etrans; [apply SignRestartAppFlag_marks|apply IH].
Qed.

(** ** Users, labels and marks *)

Lemma foreground_records_known w r : r ∈ foreground_records w → known w r.
Proof.
  unfold foreground_records. intros (ml & Hr & _)%list_elem_of_bind.
  apply list_elem_of_bind in Hr as (p & Hr & _). destruct (mission_at _ _ ≫= _) as [q|]; [|set_solver].
  destruct (recordHeap (store_ w) !! q) as [x|] eqn:Ex; [|set_solver]. case_match; [|set_solver].
  apply list_elem_of_singleton in Hr as ->. by exists x.
Qed.

Lemma keep_PauseManager w : Inv w → keeps_op (PauseManager E) w.
Proof.
  intros HI. unfold PauseManager. apply post_bind, post_gets, keep_each; [done|].
  intros r w' Hr%foreground_records_known HI' Hg. apply (grows_known _ _ _ Hg) in Hr.
  clear -HI' Hr. keep_start. keep_run.
Qed.

Lemma keep_DoAbilityForeground r w : Inv w → known w r → keeps_op (DoAbilityForeground E r) w.
Proof. intros HI Hr. keep_start. unfold DoAbilityForeground. keep_run. Qed.
Hint Resolve keep_DoAbilityForeground : keeps.

Lemma keep_NotifyMissionCreated r w : Inv w → known w r → keeps_op (NotifyMissionCreated r) w.
Proof. intros HI Hr. keep_start. unfold NotifyMissionCreated, PostMissionLabelUpdateTask. keep_run. Qed.
Hint Resolve keep_NotifyMissionCreated : keeps.

Lemma UpdateMissionLabel_persist s i (lb : string) :
  is_Some (taskDataPersistenceMgr_ s) → is_Some (taskDataPersistenceMgr_ (UpdateMissionLabel s i lb).2).
Proof.
  intros [st Hst]. unfold UpdateMissionLabel. rewrite Hst. destruct (find_if _ _); [|by eexists].
  destruct (store_SaveMissionInfo _ _). by eexists.
Qed.

Lemma keep_SetMissionLabel token label' w : Inv w → keeps_op (SetMissionLabel token label') w.
Proof.
  intros HI. keep_start. unfold SetMissionLabel. apply post_bind, post_gets. post_if; [keep_run|].
  generalize (GetMissionIdByAbilityTokenInner w token) as i. intros i.
  assert (∀ w1, Inv w1 → grows w w1 → post (modify (λ w0, w0 <| infos_ := (UpdateMissionLabel (infos_ w1) i label').2 |>)) w1
    (λ _ w', calm w1 w')) as Hupd.
  { intros w1 HI1 _. apply post_modify, calm_infos, UpdateMissionLabel_persist. }
  do 2 apply post_bind, post_gets.
  destruct (GetAbilityRecordByTokenInner w token ≫= _) as [x|]; cbn [mbind option_bind]; keep_run.
Qed.

Lemma keep_SetMissionANRStateByToken token w : Inv w → keeps_op (SetMissionANRStateByToken token) w.
Proof.
  intros HI. keep_start. unfold SetMissionANRStateByToken. do 2 apply post_bind, post_gets.
  destruct (GetAbilityRecordByTokenInner w token ≫= _) as [x|]; cbn [mbind option_bind]; keep_run.
Qed.

Lemma keep_EnableRecoverAbility i w : Inv w → keeps_op (EnableRecoverAbility i) w.
Proof. intros HI. keep_start. unfold EnableRecoverAbility, GetInnerMissionInfoById. keep_run. Qed.
End Runs.

#[export] Hint Extern 2 (post (upd_mission _ _) _ _) =>
  apply calm_mission_mark; [first [assumption|eapply grows_whole; [eapply c_grows; eassumption|assumption]]
                           |intros ?; by repeat split] : calm.
