(* ===== verification/MissionTheorems.v ===== *)
(** * The mission list manager: theorems

    From [Init] on, every operation that the conditions of the manager allow is defined
    and leaves each mission in one list; moving a mission to the front makes it the top
    one and loses none; the death of an ability takes its mission and no other. *)

From stdpp Require Import prelude gmap strings list sorting pretty.
From Stdlib Require Import ZArith Lia.
From S2P Require Import Prelude MissionInfo MissionInfoMgr MissionList MissionManager MissionLifecycle.
From S2P Require Import MissionOps MissionSteps MissionInvariant MissionCalm MissionPlaces MissionKeeps MissionRuns.

Local Open Scope Z_scope.

Section Theorems.
Context {WL : WantLib} {MS : MissionStore}.
Implicit Types (w : Manager) (r a b l : Z).

(** ** Steps *)

(** What an operation takes for granted of the state, and the manager does not check: a
    request for an ability of the launcher reuses a mission of the launcher list
    ([request_ok]); an ability that is moved to the background is the top one of the list of
    its mission ([top_ok]); the mission of the launcher that is brought back is in the
    launcher list ([back_ok]). All other operations take nothing for granted. *)
Definition steady w (op : Op) : Prop :=
  match op with
  | OpStartAbility q => request_ok w q
  | OpMoveAbilityToBackground r => top_ok w r
  | OpAcceptWantResponse _ _ flag =>
      match waitingAbilityQueue_ w with q :: _ => request_ok w (q <| req_specifiedFlag := flag |>) | [] => True end
  | OpStartSpecifiedTimeout =>
      match waitingAbilityQueue_ w with _ :: q :: _ => request_ok w q | _ => True end
  | OpResumeManager => back_ok w
  | OpRunTask i =>
      match tasks_ w !! i with
      | Some TStartWaiting => head_ok w
      | Some TBackToLauncher => back_ok w
      | _ => True
      end
  | _ => True
  end.

Lemma top_ok_same w w' r : same_lists w w' → top_ok w r → top_ok w' r.
Proof.
  intros Hs Ht x a m l. rewrite (GetMissionById_same w w') by done. destruct Hs as [H1 H2 H3 H4 H5 H6].
  unfold owner_of, top_of. rewrite H1, H2. apply Ht.
Qed.

Lemma steady_same w w' op :
  same_lists w w' → waitingAbilityQueue_ w' = waitingAbilityQueue_ w → tasks_ w' = tasks_ w →
  steady w op → steady w' op.
Proof.
  intros Hs Hq Ht. destruct op; cbn; unfold head_ok; rewrite ?Hq, ?Ht; try done.
  - by apply request_ok_same.
  - by apply top_ok_same.
  - destruct (waitingAbilityQueue_ w); [done|]. by apply request_ok_same.
  - destruct (waitingAbilityQueue_ w) as [|? []]; try done. by apply request_ok_same.
  - by apply back_ok_same.
  - destruct (tasks_ w !! i) as [[]|]; try done; [|by apply back_ok_same].
    destruct (waitingAbilityQueue_ w); [done|]. by apply request_ok_same.
Qed.

Lemma ok_tasks w ts :
  Inv w → (∀ t, t ∈ ts → t ∈ tasks_ w) → ok w (w <| tasks_ := ts |>).
Proof.
  intros HI Ht. apply calm_ok; [done|]. apply calm_same; cbn; auto.
  intros r (t & Hr & Htt)%list_elem_of_bind. left. apply list_elem_of_bind. eauto.
Qed.

Lemma Inv_frame w fs : Inv w → (∀ r, r ∈ fs → known w r) → Inv (w <| frame_ := fs |>).
Proof.
  intros HI Hfs. destruct HI as [? ? ? ? ? ? ? Hh ? ? ?]. split; try done. cbn. intros r.
  rewrite app_assoc, elem_of_app. intros [H|H]; [apply Hh; set_solver|by apply Hfs].
Qed.

Lemma Inv_release w : Inv w → Inv (release w).
Proof.
  intros HI. assert (∀ l ml, lists_ (release w) !! l = Some ml ↔ lists_ w !! l = Some ml ∧ l ∈ kept_lists w) as HL.
  { intros l ml. unfold release. cbn. rewrite map_lookup_filter_Some. done. }
  destruct HI as [(m1 & E1 & T1) (m2 & E2 & T2) (m3 & E3 & T3) I4 I0 I5 I6 I7 I8 I9 I10]. split; try done.
  - exists m1. split; [apply HL; split; [done|]|done]. unfold kept_lists. set_solver.
  - exists m2. split; [apply HL; split; [done|]|done]. unfold kept_lists. set_solver.
  - exists m3. split; [apply HL; split; [done|]|done]. unfold kept_lists. set_solver.
  - intros l ml [Hl _]%HL. by apply I4.
  - intros l Hl. destruct (I5 l Hl) as (N1 & N2 & [ml Hml]). split_and!; [done..|].
    exists ml. apply HL. split; [done|]. unfold kept_lists. set_solver.
  - intros l ml [Hl _]%HL. by apply I6.
  - intros r Hr. apply I7. cbn in Hr. set_solver.
  - intros k Hk. destruct (I9 k Hk) as (K1 & K2 & K3). split_and!; [|done|done].
    destruct (lists_ (release w) !! k) eqn:Ek; [|done]. apply HL in Ek as [? _]. congruence.
Qed.

(** The lists are those that the manager holds. *)
Definition all_kept w : Prop := ∀ l, has_list w l → l ∈ kept_lists w.

Lemma release_kept w : all_kept (release w).
Proof. intros l [ml Hl]. unfold release in Hl. cbn in Hl. apply map_lookup_filter_Some in Hl as [_ Hl]. done. Qed.

Lemma task_keeps E t w :
  Inv w → (∀ r, r ∈ task_records t → known w r) →
  match t with TStartWaiting => head_ok w | TBackToLauncher => back_ok w | _ => True end →
  post (run_task E t) w (λ _ w', ok w w').
Proof.
  intros HI Hk Hs. destruct t; cbn [run_task task_records] in *;
    try (assert (known w r) as Hr by (apply Hk; left)).
  - by apply keep_StartWaitingAbility.
  - by apply keep_CompleteForegroundSuccess.
  - by apply keep_CompleteForegroundFailed.
  - by apply keep_CompleteBackground.
  - by apply keep_CompleteBackground.
  - by apply keep_CompleteTerminate.
  - keep_start. unfold DelayCompleteTerminate. keep_run.
  - by apply keep_CompleteTerminate.
  - by apply keep_BackToLauncher.
  - by apply keep_BackToCaller.
  - by apply keep_AddUninstallTags.
  - by apply keep_NotifyMissionCreated.
  - keep_start. keep_run.
  - by apply keep_OnAbilityDied.
  - keep_start. keep_run.
Qed.

(** A result that is not used. *)
Lemma post_drop {A} (m : M A) w w0 :
  post m w (λ _ w', ok w0 w') → post (m ;; mret tt) w (λ _ w', ok w0 w').
Proof. intros H. apply post_bind. eapply post_mono; [exact H|]. intros ? w' Hw. by apply post_mret. Qed.

Lemma op_keeps E op w :
  Inv w → (∀ r, r ∈ op_records w op → known w r) → steady w op → post (run_op E op) w (λ _ w', ok w w').
Proof.
  intros HI Hk Hs. destruct op; cbn [run_op op_records steady] in *;
    try (assert (known w r) as Hr by (apply Hk; left)); try apply post_drop.
  - by apply keep_StartAbility.
  - by apply keep_MinimizeAbility.
  - by apply keep_MoveMissionToFrontInner.
  - by apply keep_MoveAbilityToBackground.
  - by apply keep_TerminateAbilityInner.
  - by apply keep_AttachAbilityThread.
  - by apply keep_OnAbilityRequestDone.
  - by apply keep_AbilityTransactionDone.
  - by apply keep_OnTimeOut.
  - keep_start. keep_run.
  - by apply keep_ClearMission.
  - by apply keep_ClearAllMissions.
  - by apply keep_SetMissionLockedState.
  - by apply keep_CallAbilityLocked.
  - by apply keep_OnAcceptWantResponse.
  - by apply keep_OnStartSpecifiedAbilityTimeoutResponse.
  - keep_start. keep_run.
  - by apply keep_SignRestartAppFlag.
  - by apply keep_PauseManager.
  - by apply keep_BackToLauncher.
  - by apply keep_DoAbilityForeground.
  - keep_start. keep_run.
  - by apply keep_SetMissionLabel.
  - by apply keep_SetMissionANRStateByToken.
  - by apply keep_EnableRecoverAbility.
  - apply post_bind, post_gets. destruct (tasks_ w !! i) as [t|] eqn:Et; [|by apply post_mret, ok_refl].
    apply post_bind, post_modify. set (w1 := w <| tasks_ ::= _ |>).
    assert (ok w w1) as Hok.
    { apply ok_tasks; [done|]. intros u Hu. eapply elem_of_sublist; [exact Hu|apply sublist_delete]. }
    assert (same_lists w w1) as Hsame by done.
    eapply post_mono; [apply task_keeps; [apply Hok|..]|cbn beta].
    + intros r Hr. eapply grows_known; [apply Hok|]. apply Hk. cbn. by rewrite app_nil_r.
    + destruct t; try done; [|by eapply back_ok_same].
      unfold head_ok in *. change (waitingAbilityQueue_ w1) with (waitingAbilityQueue_ w).
      destruct (waitingAbilityQueue_ w); [done|]. by eapply request_ok_same.
    + intros _ w2 Hok2. by eapply ok_trans.
Qed.

Lemma step_keeps E op w :
  Inv w → enabled w op → steady w op →
  ∃ w', step E op w = Ret w' ∧ Inv w' ∧ all_kept w' ∧ frame_ w' = [].
Proof.
  intros HI Hen Hs. set (w1 := w <| frame_ := op_records w op |>).
  assert (∀ r, r ∈ op_records w op → known w r) as Hk.
  { intros r Hr. apply held_known; [done|]. by eapply Forall_forall in Hen. }
  assert (Inv w1) as HI1 by (by apply Inv_frame).
  destruct (op_keeps E op w1) as (x & w2 & Er & Hok); [done|..].
  - intros r Hr. apply Hk. by destruct op.
  - by apply (steady_same w w1).
  - exists (release w2). unfold step. fold w1. rewrite Er. cbn.
    split_and!; [done|apply Inv_release, Hok|apply release_kept|done].
Qed.

(** ** Moving a mission to the front *)

Lemma calm_top_of w w' l : calm w w' → top_of w' l = top_of w l.
Proof. intros Hc. unfold top_of. by rewrite (c_lists _ _ Hc). Qed.

(** Where the missions are after [MoveMissionToFrontInner] of the mission [a]. *)
Record fronted w w' a : Prop := {
  fr_ok : ok w w';
  fr_top : ∃ t, head (currentMissionLists_ w') = Some t ∧ top_of w' t = Some a;
  fr_listed : ∀ b, listed w' b ↔ listed w b;
  fr_kept : all_kept w → ∀ k b, in_list w' k b → k ∈ kept_lists w';
}.

Lemma MoveMissionToFrontInner_found E i fl a l w :
  Inv w → GetMissionById w i = Some a → in_list w l a → l ≠ launcherList_ w →
  post (MoveMissionToFrontInner E i fl) w (λ code w', code = ERR_OK ∧ fronted w w' a).
Proof.
  intros HI Ea Hl Nl. unfold MoveMissionToFrontInner. apply post_bind.
  eapply post_mono; [by apply GetTargetMissionListById_spec|cbn beta]. intros t w1 ([Hg1 HI1] & Hf & Ht).
  destruct (Ht a l Ea Hl) as [Hc Hin Htt]. rewrite decide_False in Htt by done. destruct Htt as [k ->].
  destruct Hf as (Hu & Nk & Hr). apply post_bind.
  eapply post_mono; [apply MoveMissionToTargetList_spec; [done|apply Hu|done|]|cbn beta].
  { intros _ EQ. rewrite (g_launcher _ _ Hg1) in EQ. done. }
  intros _ w2 [[Hg2 HI2] M2 M3 M4 M5]. apply post_bind.
  eapply post_mono; [apply MoveMissionListToTop_spec; [done|by eapply grows_usable]|cbn beta].
  intros _ w3 [([Hg3 HI3] & EL & ES) [Hh Hkeep]].
  assert (whole w3 a) as Hw by (eapply grows_whole; [|apply Hr]; by etrans).
  assert (grows w w3) as Hg by (by do 2 (etrans; [eassumption|])).
  assert (listed w a) as Hla by (by exists l).
  assert (∀ b, listed w3 b ↔ listed w b) as Hlis.
  { intros b. unfold listed at 1, in_list. setoid_rewrite EL. change (listed w2 b ↔ listed w b). rewrite M3.
    unfold listed at 1. setoid_rewrite Hin. split; [by intros [?| ->]|by left]. }
  assert (all_kept w → ∀ j b, in_list w3 j b → j ∈ kept_lists w3) as Hk.
  { intros Hall j b Hj. assert (in_list w2 j b) as Hj2 by (unfold in_list in *; by rewrite EL in Hj).
    unfold kept_lists. rewrite (g_launcher _ _ Hg), (g_standard _ _ Hg), (g_single _ _ Hg).
    destruct (M4 j b Hj2) as [->|[H|H]].
    - apply elem_of_app. right. destruct (currentMissionLists_ w3); [done|]. injection Hh as ->. left.
    - apply Hin in H. specialize (Hall j (in_list_has_list _ _ _ H)). unfold kept_lists in Hall.
      apply elem_of_app in Hall as [?|Hcur]; [apply elem_of_app; by left|]. apply elem_of_app. right. apply Hkeep.
      rewrite <-Hc in Hcur. destruct (M5 j Hcur) as [?|He]; [done|by destruct (He b)].
    - unfold default_list in H. rewrite (g_standard _ _ Hg1), (g_single _ _ Hg1) in H. set_solver. }
  eapply post_mono with (P := λ code w', code = ERR_OK ∧ calm w3 w').
  { clear -HI3 Hw. repeat keep_step. calm_run; (split; [done|calm_side]). }
  intros code w4 [-> Hc4]. split; [done|]. pose proof (calm_ok _ _ HI3 Hc4) as [Hg4 HI4]. split.
  - split; [by etrans|done].
  - exists k. rewrite (c_current _ _ Hc4). split; [done|]. rewrite (calm_top_of _ _ _ Hc4). unfold top_of. by rewrite EL.
  - intros b. by rewrite <-(calm_listed _ _ _ Hc4).
  - intros Hall j b Hj%(calm_in_list _ _ _ _ Hc4). specialize (Hk Hall j b Hj). unfold kept_lists in *.
    by rewrite (g_launcher _ _ Hg4), (g_standard _ _ Hg4), (g_single _ _ Hg4), (c_current _ _ Hc4).
Qed.

(** ** Runs *)

(** The states that the manager reaches from [Init], with a mission information manager
    that has its store, when every operation is given records that exist and finds what it
    takes for granted ([steady]). *)
Inductive reaches_steadily : Manager → Prop :=
| reach_init userId prepareEnabled infos :
    is_Some (taskDataPersistenceMgr_ infos) → reaches_steadily (Init userId prepareEnabled infos)
| reach_step E op w w' :
    reaches_steadily w → enabled w op → steady w op → step E op w = Ret w' → reaches_steadily w'.

Lemma Init_lists userId prepareEnabled infos l ml :
  lists_ (Init userId prepareEnabled infos) !! l = Some ml →
  (l = 1 ∧ ml = mkMissionList LAUNCHER []) ∨ (l = 2 ∧ ml = mkMissionList DEFAULT_STANDARD []) ∨
  (l = 3 ∧ ml = mkMissionList DEFAULT_SINGLE []).
Proof.
  cbn. rewrite !lookup_insert_Some, lookup_singleton_Some. naive_solver.
Qed.

Lemma Init_Inv userId prepareEnabled infos :
  is_Some (taskDataPersistenceMgr_ infos) → Inv (Init userId prepareEnabled infos).
Proof.
  intros Hp. split; try done.
  - by eexists.
  - by eexists.
  - by eexists.
  - intros l ml [[-> _]|[[-> _]|[-> _]]]%Init_lists; done.
  - apply NoDup_singleton.
  - intros l ->%list_elem_of_singleton. by cbn.
  - intros l ml [[_ ->]|[[_ ->]|[_ ->]]]%Init_lists; (split; constructor).
  - intros r Hr. by apply not_elem_of_nil in Hr.
  - intros k Hk. cbn in Hk. split_and!; [|done|done].
    destruct (lists_ _ !! k) eqn:Ek; [|done]. apply Init_lists in Ek. lia.
Qed.

Lemma reaches_steadily_Inv w : reaches_steadily w → Inv w ∧ all_kept w ∧ frame_ w = [].
Proof.
  induction 1 as [userId prepareEnabled infos Hp|E op w w' _ (HI & _) Hen Hs Hstep].
  - split_and!; [by apply Init_Inv| |done]. intros l [ml Hl]. apply Init_lists in Hl.
    unfold kept_lists. cbn. set_solver.
  - destruct (step_keeps E op w HI Hen Hs) as (w1 & E1 & H). rewrite Hstep in E1. by injection E1 as ->.
Qed.

(** C5: the missions of the manager. In every state reached from [Init] by operations that
    are given records that exist and find the three conditions of [steady] true (requests
    for abilities of the launcher reuse missions of the launcher list, only the top ability
    of a list is moved to the background, the launcher that is brought back is in the
    launcher list), the lists are those that the manager holds, a list holds a mission once,
    a mission is in one list, which is the one it names as its owner, with an existing
    record that carries its number; the lists in use are distinct and none of them is a
    default list; and every such operation is defined. Runs that break a condition reach
    other states ([in_two_lists], [background_below_top]). *)
Theorem mission_places w :
  reaches_steadily w →
  (∀ l ml, lists_ w !! l = Some ml → l ∈ kept_lists w ∧ NoDup (missions_ ml)) ∧
  (∀ l l' a, in_list w l a → in_list w l' a → l = l') ∧
  (∀ l ml p, lists_ w !! l = Some ml → p ∈ missions_ ml → placed w l p) ∧
  NoDup (currentMissionLists_ w) ∧
  (∀ l, l ∈ currentMissionLists_ w → usable w l) ∧
  (∀ r, r ∈ terminateAbilityList_ w → known w r) ∧
  (∀ E op, enabled w op → steady w op → ∃ w', step E op w = Ret w').
Proof.
  intros (HI & Hk & _)%reaches_steadily_Inv. split_and!.
  - intros l ml Hl. split; [apply Hk; by exists ml|]. by destruct (inv_listed w HI l ml Hl).
  - intros l l' a. by apply in_list_unique.
  - intros l ml p Hl Hp. destruct (inv_listed w HI l ml Hl) as [_ HF]. by eapply Forall_forall in HF.
  - apply (inv_nodup w HI).
  - intros l. by apply inv_usable.
  - intros r Hr. apply (inv_held w HI). set_solver.
  - intros E op Hen Hs. destruct (step_keeps E op w HI Hen Hs) as (w' & ? & _). by exists w'.
Qed.

Lemma release_in_list w k b : in_list (release w) k b ↔ in_list w k b ∧ k ∈ kept_lists w.
Proof.
  unfold in_list, release. cbn. setoid_rewrite map_lookup_filter_Some. cbn. naive_solver.
Qed.

Lemma release_top_of w l : l ∈ currentMissionLists_ w → top_of (release w) l = top_of w l.
Proof.
  intros Hl. unfold top_of. destruct (lists_ w !! l) as [ml|] eqn:El.
  - assert (lists_ (release w) !! l = Some ml) as ->; [|done]. unfold release. cbn.
    apply map_lookup_filter_Some. split; [done|]. unfold kept_lists. set_solver.
  - assert (lists_ (release w) !! l = None) as ->; [|done]. unfold release. cbn.
    rewrite map_lookup_filter, El. done.
Qed.

(** C15: moving a mission to the front, in a state reached by operations whose conditions
    ([steady]) hold. A mission that is in a list other than the launcher's
    becomes the top mission of the first list in use, and no mission is lost or comes; a
    mission of the launcher list is refused, and every mission stays where it is. *)
Theorem move_to_front E i fromLauncher a l w :
  reaches_steadily w → GetMissionById w i = Some a → in_list w l a →
  ∃ w', step E (OpMoveMissionToFront i fromLauncher) w = Ret w' ∧
    (∀ b, listed w' b ↔ listed w b) ∧
    if decide (l = launcherList_ w)
    then currentMissionLists_ w' = currentMissionLists_ w ∧ ∀ k b, in_list w' k b ↔ in_list w k b
    else ∃ t, head (currentMissionLists_ w') = Some t ∧ top_of w' t = Some a.
Proof.
  intros (HI & Hk & Hf)%reaches_steadily_Inv Ea Hl. unfold step. cbn [op_records].
  assert (w <| frame_ := [] |> = w) as -> by (rewrite <-Hf; by destruct w). cbn [run_op].
  case_decide as Nl.
  - assert (post (MoveMissionToFrontInner E i fromLauncher ;; mret tt) w (λ _ w',
      currentMissionLists_ w' = currentMissionLists_ w ∧ (∀ k b, in_list w' k b ↔ in_list w k b) ∧
      ∀ k b, in_list w' k b → k ∈ kept_lists w')) as (x & w' & Er & Hc & Hin & Hkept).
    { apply post_bind. unfold MoveMissionToFrontInner. apply post_bind.
      eapply post_mono; [by apply GetTargetMissionListById_spec|cbn beta]. intros t w1 ([Hg HI1] & _ & Ht).
      destruct (Ht a l Ea Hl) as [Hc Hin Htt]. rewrite decide_True in Htt by done. subst t.
      do 2 apply post_mret. split_and!; [done|done|]. intros k b Hb%Hin.
      specialize (Hk k (in_list_has_list _ _ _ Hb)). unfold kept_lists in *.
      by rewrite (g_launcher _ _ Hg), (g_standard _ _ Hg), (g_single _ _ Hg), Hc. }
    exists (release w'). rewrite Er. cbn [mbind]. split; [done|].
    assert (∀ k b, in_list (release w') k b ↔ in_list w k b) as Hrel.
    { intros k b. rewrite release_in_list, Hin. split; [by intros [? _]|]. intros Hb. split; [done|].
      eapply Hkept. by apply Hin. }
    split_and!; [|done|done]. intros b. unfold listed. by setoid_rewrite Hrel.
  - destruct (MoveMissionToFrontInner_found E i fromLauncher a l w HI Ea Hl Nl)
      as (code & w' & Er & _ & [Hok (t & Ht & Htop) Hlis Hkept]).
    exists (release w'). unfold mbind, M_bind. rewrite Er. cbn. split; [done|]. split.
    + intros b. rewrite <-Hlis. unfold listed. setoid_rewrite release_in_list.
      split; [intros (k & ? & _); by exists k|]. intros (k & Hkb). exists k. split; [done|]. by eapply Hkept.
    + exists t. split; [done|]. rewrite release_top_of; [done|]. by destruct (currentMissionLists_ w'); simplify_eq/=; left.
Qed.

(** ** Deaths *)

(** The end of [HandleAbilityDiedByDefault]. *)
Lemma calm_death_info w i (dropped excluded uninstall delayed : bool) :
  Inv w →
  post ((if uninstall then mret tt
         else if dropped then RemoveMissionLocked i excluded
         else
           info ← GetInnerMissionInfoById i;
           match info with
           | None => mret tt
           | Some y => UpdateMissionInfo (y <| missionInfo ::= (λ z, z <| runningState := -1 |>) |>)
           end ;;
           emit (MissionClosed i)) ;;
        when delayed DelayedStartLauncher) w (λ _ w', calm w w').
Proof. intros HI. unfold GetInnerMissionInfoById, DelayedStartLauncher. calm_run. Qed.

(** A list in use that a death has left empty is put out of use. *)
Lemma drop_empty_list w l ml :
  Inv w → lists_ w !! l = Some ml →
  post (when (bool_decide (type_ ml = CURRENT) && IsEmpty ml) (RemoveMissionList l)) w
    (λ _ w', ok w w' ∧ lists_ w' = lists_ w ∧
       (l ≠ launcherList_ w → l ∈ currentMissionLists_ w' → ∃ b, in_list w l b)).
Proof.
  intros HI Hml. destruct (list_types w l ml HI Hml) as [HT _]. unfold when.
  destruct (bool_decide (type_ ml = CURRENT) && IsEmpty ml) eqn:Ee.
  - eapply post_mono; [by apply RemoveMissionList_spec|cbn beta]. intros _ w2 [(Hok & HL & _) Hcur].
    split_and!; [done|done|]. intros _ Hl2. by apply Hcur in Hl2 as [_ ?].
  - apply post_mret. split_and!; [by apply ok_refl|done|]. intros Nl Hcur.
    destruct (inv_current w HI l Hcur) as (N2 & N3 & _).
    rewrite (inv_other w HI l ml Hml), bool_decide_true in Ee by done.
    unfold IsEmpty in Ee. apply bool_decide_eq_false in Ee.
    destruct (inv_listed w HI l ml Hml) as [_ HF]. destruct (missions_ ml) as [|p ps] eqn:Ep; [done|].
    apply Forall_inv in HF as (b & ? & ? & ? & -> & _). exists b, ml. split; [done|]. rewrite Ep. left.
Qed.

(** C31: the death of an ability that was not being terminated, other than one of the
    launcher, in a state reached by operations whose conditions ([steady]) hold: the mission
    that the manager finds by the number of the record leaves its list and every other
    mission stays where it is; a list that is left empty is not in use any more. The mission
    found is the ability's own when no other mission carries the number; two missions may
    carry it, and then the death may take the other one ([death_takes_another]). *)
Theorem ability_death r x a l w :
  reaches_steadily w → recordHeap (store_ w) !! r = Some x → isTerminating_ (life_ x) = false →
  GetMissionById w (recordMissionId_ (life_ x)) = Some a → in_list w l a →
  ∃ w', HandleAbilityDiedByDefault r w = Ret (tt, w') ∧ Inv w' ∧
    (∀ k b, in_list w' k b ↔ in_list w k b ∧ b ≠ a) ∧
    (l ≠ launcherList_ w → l ∈ currentMissionLists_ w' → ∃ b, in_list w' l b).
Proof.
  intros (HI & Hk & _)%reaches_steadily_Inv Hx Ht Ea Hl.
  assert (post (HandleAbilityDiedByDefault r) w (λ _ w', Inv w' ∧
    (∀ k b, in_list w' k b ↔ in_list w k b ∧ b ≠ a) ∧
    (l ≠ launcherList_ w → l ∈ currentMissionLists_ w' → ∃ b, in_list w' l b))) as (u & w' & Er & H);
    [|exists w'; by destruct u].
  unfold HandleAbilityDiedByDefault. apply post_bind, post_record; [by exists x|]. intros x' Hx'.
  assert (x' = x) as -> by congruence. rewrite Ht. apply post_bind, post_gets. rewrite Ea.
  apply post_bind, post_mission; [by eapply in_list_whole|]. intros m q Hm _ _. apply post_bind, post_gets.
  rewrite (owner_of_placed w l a m) by done. do 2 apply post_bind, post_gets. apply post_bind.
  eapply post_mono; [apply RemoveFrom_spec; [done|by eapply in_list_has_list]|cbn beta].
  intros _ w1 ([[Hg1 HI1] Ho Hc] & Hn & Hsub & Hl1). apply post_bind.
  apply post_list; [eapply grows_has_list; [done|by eapply in_list_has_list]|]. intros ml Hml.
  assert (∀ k b, in_list w1 k b ↔ in_list w k b ∧ b ≠ a) as Hin.
  { intros k b. destruct (decide (b = a)) as [->|N]; [|rewrite (Ho k b N); tauto].
    split; [|by intros [_ ?]]. intros Hb. destruct (RemoveFrom_unlisted w w1 l a HI Hl Hn Hsub). by exists k. }
  apply post_bind. eapply post_mono; [by apply drop_empty_list|cbn beta]. rewrite <-(g_launcher _ _ Hg1).
  intros _ w2 ([Hg2 HI2] & HL2 & Hne). eapply post_mono; [by apply calm_death_info|cbn beta].
  intros _ w3 Hc3. pose proof (calm_ok _ _ HI2 Hc3) as [Hg3 HI3].
  assert (∀ k b, in_list w3 k b ↔ in_list w1 k b) as Hin3
    by (intros k b; rewrite <-(calm_in_list _ _ _ _ Hc3); unfold in_list; by rewrite HL2).
  split_and!; [done|intros k b; by rewrite Hin3|]. intros Nl. rewrite (c_current _ _ Hc3). intros Hl2.
  destruct (Hne Nl Hl2) as [b Hb]. exists b. by apply Hin3.
Qed.
End Theorems.
