(* ===== verification/MissionEvents.v ===== *)
(** * The mission list manager: the order of what it tells

    Whatever operations are called in whatever order, the manager asks the application
    manager to terminate an ability only after it has asked the ability to terminate, and
    asks that only after it has moved the ability to the background. *)

From stdpp Require Import prelude gmap strings list sorting pretty.
From Stdlib Require Import ZArith Lia.
From S2P Require Import Prelude MissionInfo MissionInfoMgr MissionList MissionManager MissionLifecycle.
From S2P Require Import MissionOps MissionSteps.

Local Open Scope Z_scope.

(** ** Orders of events *)

(** What must have happened before. *)
Definition needs (e : Event) : option Event :=
  match e with
  | ScheduleTerminate r _ => Some (AppMoveToBackground r)
  | AppTerminateAbility r => Some (ScheduleTerminate r true)
  | _ => None
  end.

(** A request to terminate counts whether it was sent or not. *)
Definition counts_as (e : Event) : Event :=
  match e with ScheduleTerminate r _ => ScheduleTerminate r true | e => e end.

Definition ordered (es : list Event) : Prop :=
  ∀ i e n, es !! i = Some e → needs e = Some n → ∃ j, (j < i)%nat ∧ es !! j = Some n.

Lemma ordered_snoc es e : ordered es → (∀ n, needs e = Some n → n ∈ es) → ordered (es ++ [e]).
Proof.
  intros Ho Hn i e' n. rewrite lookup_app_Some. intros [Hi|[Hi He]] Hneed.
  - destruct (Ho i e' n Hi Hneed) as (j & Hj & Ej). exists j. split; [done|]. by apply lookup_app_l_Some.
  - apply list_lookup_singleton_Some in He as [Hi' ->]. apply Hn in Hneed as [j Hj]%list_elem_of_lookup.
    exists j. split; [apply lookup_lt_Some in Hj; lia|]. by apply lookup_app_l_Some.
Qed.

Lemma ordered_app_free es es' : ordered es → (∀ e, e ∈ es' → needs e = None) → ordered (es ++ es').
Proof.
  revert es. induction es' as [|e es' IH]; intros es Ho Hf; [by rewrite app_nil_r|].
  rewrite cons_middle, app_assoc. apply IH; [|intros; apply Hf; by right].
  apply ordered_snoc; [done|]. rewrite (Hf e) by left. done.
Qed.

Section Events.
Context {WL : WantLib} {MS : MissionStore}.
Implicit Types (w : Manager) (r a b l : Z) (X Y : list Event).

(** What a state of a record says of the past. *)
Definition told (s : AbilityState) r : option Event :=
  match s with
  | BACKGROUND => Some (AppMoveToBackground r)
  | TERMINATING => Some (ScheduleTerminate r true)
  | _ => None
  end.

Definition past w : list Event := counts_as <$> events_ w.

Lemma past_emit w e : past (w <| events_ ::= (λ es, es ++ [e]) |>) = past w ++ [counts_as e].
Proof. unfold past. cbn. by rewrite fmap_app. Qed.

(** [X] is what is about to be told, [Y] what has been told. *)
Record Ev (X Y : list Event) w : Prop := {
  ev_told : ∀ r x e, recordHeap (store_ w) !! r = Some x → told (currentState_ x) r = Some e →
    e ∈ past w ∨ e ∈ X;
  ev_ordered : ordered (past w);
  ev_past : ∀ e, e ∈ Y → e ∈ past w;
}.

(** If the computation returns, the result satisfies [Q]. *)
Definition triple {A} (P : Manager → Prop) (m : M A) (Q : A → Manager → Prop) : Prop :=
  ∀ w x w', P w → m w = Ret (x, w') → Q x w'.

Definition keeps (X Y : list Event) {A} (m : M A) : Prop := triple (Ev X Y) m (λ _, Ev X Y).

Lemma keeps_triple {A} X Y (m : M A) : keeps X Y m → triple (Ev X Y) m (λ _, Ev X Y).
Proof. done. Qed.

Lemma triple_bind {A B} P (m : M A) Q (k : A → M B) R :
  triple P m Q → (∀ x, triple (Q x) (k x) R) → triple P (m ≫= k) R.
Proof.
  intros Hm Hk w y w' HP. unfold mbind, M_bind. destruct (m w) as [[x w1]|] eqn:E1; [|done]. cbn.
  intros E2. eapply Hk; [|exact E2]. by eapply Hm.
Qed.

Lemma triple_pre {A} P P' (m : M A) Q : (∀ w, P w → P' w) → triple P' m Q → triple P m Q.
Proof. intros HP Hm w x w' Hw. apply Hm. auto. Qed.

Section Rules.
Context (X Y : list Event).

Lemma keeps_bind {A B} (m : M A) (k : A → M B) : keeps X Y m → (∀ x, keeps X Y (k x)) → keeps X Y (m ≫= k).
Proof. intros Hm Hk. by eapply triple_bind. Qed.
Lemma keeps_fmap {A B} (f : A → B) (m : M A) : keeps X Y m → keeps X Y (f <$> m).
Proof. intros Hm. apply keeps_bind; [done|]. by intros x w y w' HE [= <- <-]. Qed.
Lemma keeps_mret {A} (x : A) : keeps X Y (mret x).
Proof. by intros w y w' HE [= <- <-]. Qed.
Lemma keeps_gets {A} (f : Manager → A) : keeps X Y (gets f).
Proof. by intros w y w' HE [= <- <-]. Qed.
Lemma keeps_load {A} (f : Manager → option A) : keeps X Y (load f).
Proof. intros w y w' HE. unfold load. destruct (f w); [|done]. by intros [= <- <-]. Qed.
Lemma keeps_lift {A} (f : Manager → outcome A) : keeps X Y (lift f).
Proof. intros w y w' HE. unfold lift. destruct (f w); [|done]. by intros [= <- <-]. Qed.
Lemma keeps_the_record r : keeps X Y (the_record r).
Proof. apply keeps_load. Qed.
Lemma keeps_the_list l : keeps X Y (the_list l).
Proof. apply keeps_load. Qed.
Lemma keeps_the_mission a : keeps X Y (the_mission a).
Proof. apply keeps_load. Qed.
Lemma keeps_alloc : keeps X Y alloc.
Proof. intros w y w' HE [= <- <-]. by destruct HE. Qed.
Lemma keeps_when (c : bool) (m : M unit) : keeps X Y m → keeps X Y (when c m).
Proof. intros Hm. destruct c; [done|apply keeps_mret]. Qed.
Lemma keeps_each {A} (xs : list A) (f : A → M unit) : (∀ x, keeps X Y (f x)) → keeps X Y (each xs f).
Proof. intros Hf. induction xs as [|x xs IH]; [apply keeps_mret|]. cbn [each]. by apply keeps_bind. Qed.

(** A change that leaves the states of the records and the events. *)
Lemma Ev_same w w' :
  (∀ r x, recordHeap (store_ w') !! r = Some x →
     told (currentState_ x) r = None ∨
     ∃ y, recordHeap (store_ w) !! r = Some y ∧ currentState_ x = currentState_ y) →
  events_ w' = events_ w → Ev X Y w → Ev X Y w'.
Proof.
  intros Hs He [H1 H2 H3]. unfold past in *. split; unfold past; rewrite He; [|done..]. intros r x e Hx Ht.
  destruct (Hs r x Hx) as [Hn|(y & Hy & Eq)]; [congruence|]. rewrite Eq in Ht. by eapply H1.
Qed.

Lemma keeps_modify (f : Manager → Manager) :
  (∀ w, recordHeap (store_ (f w)) = recordHeap (store_ w)) → (∀ w, events_ (f w) = events_ w) →
  keeps X Y (modify f).
Proof.
  intros Hs He w y w' HE [= <- <-]. apply (Ev_same w); [|apply He|done]. intros r x Hx. right. rewrite Hs in Hx. eauto.
Qed.

Lemma keeps_emit e : needs (counts_as e) = None → keeps X Y (emit e).
Proof.
  intros Hn w y w' [H1 H2 H3] [= <- <-]. split; rewrite past_emit.
  - intros r x e' Hx Ht. destruct (H1 r x e' Hx Ht); [left; apply elem_of_app; by left|by right].
  - apply ordered_snoc; [done|]. by rewrite Hn.
  - intros n Hy. apply elem_of_app. left. auto.
Qed.

Lemma keeps_SubmitTask t : keeps X Y (SubmitTask t).
Proof. by apply keeps_modify. Qed.
Lemma keeps_SubmitTaskOnce t : keeps X Y (SubmitTaskOnce t).
Proof. apply keeps_bind; [apply keeps_gets|]. intros b. apply keeps_when, keeps_SubmitTask. Qed.
Lemma keeps_CancelTask t : keeps X Y (CancelTask t).
Proof. by apply keeps_modify. Qed.

Lemma keeps_upd_record r f : (∀ x, currentState_ (f x) = currentState_ x) → keeps X Y (upd_record r f).
Proof.
  intros Hf w y w' HE. unfold upd_record, the_record, load, mbind, M_bind, modify.
  destruct (recordHeap (store_ w) !! r) as [x|] eqn:Ex; [|done]. cbn. intros [= <- <-].
  apply (Ev_same w); [|done|done]. cbn. intros q z. rewrite lookup_insert. case_decide; [|eauto].
  subst q. intros [= <-]. right. exists x. split; [done|]. apply Hf.
Qed.
Lemma keeps_upd_life r f : keeps X Y (upd_life r f).
Proof. by apply keeps_upd_record. Qed.
Lemma keeps_upd_mission a f : keeps X Y (upd_mission a f).
Proof. apply keeps_bind; [apply keeps_load|]. intros m. by apply keeps_modify. Qed.
Lemma keeps_upd_list l f : keeps X Y (upd_list l f).
Proof. apply keeps_bind; [apply keeps_load|]. intros m. by apply keeps_modify. Qed.

(** Telling what is due. *)
Lemma triple_emit_due e n :
  (∀ k, needs (counts_as e) = Some k → k = n) →
  triple (Ev (counts_as e :: X) (n :: Y)) (emit e) (λ _, Ev X (counts_as e :: Y)).
Proof.
  intros Hn w y w' [H1 H2 H3] [= <- <-]. split; rewrite past_emit.
  - intros r x e' Hx Ht. destruct (H1 r x e' Hx Ht) as [?|[->|?]%elem_of_cons]; [left|left|by right]; set_solver.
  - apply ordered_snoc; [done|]. intros k Hk. apply Hn in Hk as ->. apply H3. left.
  - intros k [->|Hk]%elem_of_cons; [set_solver|]. apply elem_of_app. left. apply H3. by right.
Qed.
End Rules.
End Events.

Create HintDb events.
#[export] Hint Resolve keeps_mret keeps_gets keeps_load keeps_lift keeps_the_record keeps_the_list
  keeps_the_mission keeps_alloc keeps_SubmitTask keeps_SubmitTaskOnce keeps_CancelTask keeps_upd_life
  keeps_upd_mission keeps_upd_list : events.
#[export] Hint Extern 2 (keeps _ _ (emit _)) => apply keeps_emit; reflexivity : events.
#[export] Hint Extern 2 (keeps _ _ (modify _)) => apply keeps_modify; reflexivity : events.
#[export] Hint Extern 2 (keeps _ _ (upd_record _ _)) => apply keeps_upd_record; reflexivity : events.

Ltac keeps_step :=
  lazymatch goal with
  | |- keeps _ _ (_ ≫= _) => apply keeps_bind; [|intros ?]
  | |- keeps _ _ (_ <$> _) => apply keeps_fmap
  | |- keeps _ _ (when _ _) => apply keeps_when
  | |- keeps _ _ (each _ _) => apply keeps_each; intros ?
  | |- keeps _ _ (if ?b then _ else _) => destruct b
  | |- keeps _ _ (match ?x with _ => _ end) => destruct x
  end.

Ltac keeps_run := repeat first [solve [eauto 2 with events] | keeps_step].

Section Lifecycle.
Context {WL : WantLib} {MS : MissionStore} (E : Env).
Implicit Types (w : Manager) (r a b l : Z) (X Y : list Event).

Lemma keeps_SetAbilityStateInner X Y r s :
  (∀ e, told s r = Some e → e ∈ X) → keeps X Y (SetAbilityStateInner r s).
Proof.
  intros Hs. unfold SetAbilityStateInner. apply keeps_bind; [|intros ?; keeps_run].
  intros w y w' [H1 H2 H3]. unfold upd_record, the_record, load, mbind, M_bind, modify.
  destruct (recordHeap (store_ w) !! r) as [x|] eqn:Ex; [|done]. cbn. intros [= <- <-].
  split; [cbn|done|done]. intros q z e. rewrite lookup_insert. case_decide; [|apply H1].
  subst q. intros [= <-] He. right. by apply Hs.
Qed.
Hint Extern 2 (keeps _ _ (SetAbilityStateInner _ _)) =>
  apply keeps_SetAbilityStateInner; intros ? [=] : events.

Lemma keeps_SetRestarting X Y r c : keeps X Y (SetRestarting r c).
Proof. unfold SetRestarting. keeps_run. Qed.
Hint Resolve keeps_SetRestarting : events.

Lemma keeps_SetAbilityState X Y r s :
  (∀ e, told s r = Some e → e ∈ X) → keeps X Y (SetAbilityState r s).
Proof. intros Hs. unfold SetAbilityState. apply keeps_bind; [by apply keeps_SetAbilityStateInner|]. intros ?. keeps_run. Qed.
Hint Extern 2 (keeps _ _ (SetAbilityState _ _)) =>
  apply keeps_SetAbilityState; intros ? [=] : events.

Lemma Ev_more X Y w e : Ev X Y w → Ev (e :: X) Y w.
Proof. intros [H1 H2 H3]. split; [|done..]. intros r x e' Hx Ht. destruct (H1 r x e' Hx Ht); [by left|right; by right]. Qed.
Lemma Ev_past X Y w e : e ∈ past w → Ev X Y w → Ev X (e :: Y) w.
Proof. intros He [H1 H2 H3]. split; [done..|]. intros n [->|Hn]%elem_of_cons; auto. Qed.
Lemma Ev_less X Y w e : Ev X (e :: Y) w → Ev X Y w.
Proof. intros [H1 H2 H3]. split; [done..|]. intros n Hn. apply H3. by right. Qed.

(** The state BACKGROUND, and telling it. *)
Lemma keeps_go_background X Y {A} r (k : M A) :
  keeps X Y k → keeps X Y (SetAbilityState r BACKGROUND ;; emit (AppMoveToBackground r) ;; k).
Proof.
  intros Hk. set (e := AppMoveToBackground r).
  eapply triple_pre with (P' := Ev (e :: X) Y); [intros w; apply Ev_more|].
  eapply triple_bind; [apply (keeps_SetAbilityState (e :: X) Y); intros ? [= <-]; left|cbn beta; intros _].
  eapply triple_bind with (Q := λ _, Ev X Y); [|intros ?; exact Hk].
  intros w x w' [H1 H2 H3] [= <- <-]. split; rewrite past_emit; cbn [counts_as].
  - intros q y e' Hx Ht. destruct (H1 q y e' Hx Ht) as [?|[->|?]%elem_of_cons]; [left|left|by right]; set_solver.
  - by apply ordered_snoc.
  - intros n Hn. set_solver.
Qed.

Lemma keeps_LoadAbility X Y r : keeps X Y (LoadAbility E r).
Proof. unfold LoadAbility. keeps_run. Qed.
Lemma keeps_ForegroundAbility X Y r : keeps X Y (ForegroundAbility r).
Proof. unfold ForegroundAbility, ForegroundNew, deal. keeps_run. Qed.
Hint Resolve keeps_LoadAbility keeps_ForegroundAbility : events.
Lemma keeps_ProcessForegroundAbility X Y r : keeps X Y (ProcessForegroundAbility E r).
Proof. unfold ProcessForegroundAbility. keeps_run. Qed.
Lemma keeps_ProcessForegroundAbility_from X Y r : keeps X Y (ProcessForegroundAbility_from r).
Proof. unfold ProcessForegroundAbility_from. keeps_run. Qed.
Lemma keeps_ProcessForegroundAbility_request X Y r : keeps X Y (ProcessForegroundAbility_request E r).
Proof. unfold ProcessForegroundAbility_request. keeps_run. Qed.
Lemma keeps_BackgroundAbility X Y r : keeps X Y (BackgroundAbility r).
Proof. unfold BackgroundAbility, SaveAbilityState, BackgroundNew, deal. keeps_run. Qed.
Hint Resolve keeps_BackgroundAbility : events.

(** [Terminate] after the record was read in the state BACKGROUND. *)
Lemma Terminate_after X Y r : triple (Ev X (AppMoveToBackground r :: Y)) (Terminate r) (λ _, Ev X Y).
Proof.
  unfold Terminate. set (e := ScheduleTerminate r true). set (n := AppMoveToBackground r).
  eapply triple_pre with (P' := Ev (e :: X) (n :: Y)); [intros w; apply Ev_more|].
  eapply triple_bind; [apply keeps_the_record|cbn beta; intros x].
  eapply triple_bind; [apply (keeps_when (e :: X) (n :: Y)), keeps_SubmitTask|cbn beta; intros _].
  eapply triple_bind; [apply (keeps_SetAbilityStateInner (e :: X) (n :: Y)); intros ? [= <-]; left|cbn beta; intros _].
  eapply triple_bind; [apply keeps_the_record|cbn beta; intros y].
  intros w x' w' HE Hr. eapply Ev_less, (triple_emit_due X Y (ScheduleTerminate r _)); [|exact HE|exact Hr].
  by intros k [= <-].
Qed.

Lemma read_background X Y r x :
  in_state BACKGROUND x = true → ∀ w, Ev X Y w ∧ recordHeap (store_ w) !! r = Some x →
  X = [] → Ev X (AppMoveToBackground r :: Y) w.
Proof.
  intros Hs w [HE Hx] ->. apply Ev_past; [|done]. unfold in_state in Hs. apply bool_decide_eq_true in Hs.
  destruct HE as [H1 _ _]. destruct (H1 r x (AppMoveToBackground r) Hx) as [?|?%not_elem_of_nil]; [by rewrite Hs|done..].
Qed.

(** The record as it was read. *)
Lemma triple_read {A} X Y r (k : AbilityRecord → M A) R :
  (∀ x, triple (λ w, Ev X Y w ∧ recordHeap (store_ w) !! r = Some x) (k x) R) →
  triple (Ev X Y) (x ← the_record r; k x) R.
Proof.
  intros Hk. eapply triple_bind; [|exact Hk]. intros w x w' HE. unfold the_record, load.
  destruct (recordHeap (store_ w) !! r) eqn:Ex; [|done]. by intros [= <- <-].
Qed.

Lemma keeps_terminate_if r : keeps [] [] (x ← the_record r; when (in_state BACKGROUND x) (Terminate r)).
Proof.
  apply triple_read. intros x. unfold when. destruct (in_state BACKGROUND x) eqn:Es.
  - eapply triple_pre; [|apply Terminate_after]. intros w H. by eapply read_background.
  - eapply triple_pre; [|apply (keeps_mret [] [])]. by intros w [? _].
Qed.
Hint Resolve keeps_ProcessForegroundAbility keeps_ProcessForegroundAbility_from
  keeps_ProcessForegroundAbility_request keeps_terminate_if : events.
Hint Extern 2 (keeps [] [] (SetAbilityState _ BACKGROUND ;; emit _ ;; _)) =>
  apply keeps_go_background; keeps_run : events.

(** ** Results and mission information *)

Lemma keeps_SetPendingState r st : keeps [] [] (SetPendingState r st).
Proof. unfold SetPendingState. keeps_run. Qed.
Hint Resolve keeps_SetPendingState : events.
Lemma keeps_SetAbilityForegroundingFlag r : keeps [] [] (SetAbilityForegroundingFlag r).
Proof. unfold SetAbilityForegroundingFlag. keeps_run. Qed.
Hint Resolve keeps_SetAbilityForegroundingFlag : events.
Lemma keeps_AddCallerRecord r t code : keeps [] [] (AddCallerRecord r t code).
Proof. unfold AddCallerRecord. keeps_run. Qed.
Hint Resolve keeps_AddCallerRecord : events.
Lemma keeps_SaveResult code c : keeps [] [] (SaveResult code c).
Proof. unfold SaveResult. keeps_run. Qed.
Hint Resolve keeps_SaveResult : events.
Lemma keeps_SaveResultToCallers r code : keeps [] [] (SaveResultToCallers r code).
Proof. unfold SaveResultToCallers. keeps_run. Qed.
Hint Resolve keeps_SaveResultToCallers : events.
Lemma keeps_Record_SendResult c : keeps [] [] (Record_SendResult c).
Proof. unfold Record_SendResult. keeps_run. Qed.
Hint Resolve keeps_Record_SendResult : events.
Lemma keeps_SendResultToCallers r : keeps [] [] (SendResultToCallers r).
Proof. unfold SendResultToCallers, SendResultToCaller. keeps_run. Qed.
Hint Resolve keeps_SendResultToCallers : events.
Lemma keeps_RunResults r : keeps [] [] (RunResults r).
Proof. unfold RunResults. keeps_run. Qed.
Hint Resolve keeps_RunResults : events.
Lemma keeps_SetScheduler r sch pid : keeps [] [] (SetScheduler r sch pid).
Proof. unfold SetScheduler. keeps_run. Qed.
Hint Resolve keeps_SetScheduler : events.
Lemma keeps_OnSchedulerDied r : keeps [] [] (OnSchedulerDied r).
Proof. unfold OnSchedulerDied. keeps_run. Qed.
Hint Resolve keeps_OnSchedulerDied : events.
Lemma keeps_SetWant r q : keeps [] [] (SetWant r q).
Proof. unfold SetWant. keeps_run. Qed.
Hint Resolve keeps_SetWant : events.
Lemma keeps_CallRequest r : keeps [] [] (CallRequest r).
Proof. unfold CallRequest. keeps_run. Qed.
Hint Resolve keeps_CallRequest : events.
Lemma keeps_UpdateMissionInfo i : keeps [] [] (UpdateMissionInfo i).
Proof. unfold UpdateMissionInfo. keeps_run. Qed.
Hint Resolve keeps_UpdateMissionInfo : events.
Lemma keeps_AddMissionInfo i : keeps [] [] (AddMissionInfo i).
Proof. unfold AddMissionInfo. keeps_run. Qed.
Hint Resolve keeps_AddMissionInfo : events.
Lemma keeps_DeleteMissionInfo i : keeps [] [] (DeleteMissionInfo i).
Proof. unfold DeleteMissionInfo. keeps_run. Qed.
Hint Resolve keeps_DeleteMissionInfo : events.
Lemma keeps_GenerateMissionId : keeps [] [] GenerateMissionId.
Proof. intros w x w' HE [= <- <-]. by apply (Ev_same [] [] w); [eauto|..]. Qed.
Hint Resolve keeps_GenerateMissionId : events.
Lemma keeps_GetInnerMissionInfoById i : keeps [] [] (GetInnerMissionInfoById i).
Proof. unfold GetInnerMissionInfoById. keeps_run. Qed.
Hint Resolve keeps_GetInnerMissionInfoById : events.
Lemma keeps_RemoveMissionLocked i c : keeps [] [] (RemoveMissionLocked i c).
Proof. unfold RemoveMissionLocked. keeps_run. Qed.
Hint Resolve keeps_RemoveMissionLocked : events.
Lemma keeps_UpdateMissionSnapshot r : keeps [] [] (UpdateMissionSnapshot r).
Proof. unfold UpdateMissionSnapshot. keeps_run. Qed.
Hint Resolve keeps_UpdateMissionSnapshot : events.
Lemma keeps_PostStartWaitingAbility : keeps [] [] (PostStartWaitingAbility).
Proof. unfold PostStartWaitingAbility. keeps_run. Qed.
Hint Resolve keeps_PostStartWaitingAbility : events.
Lemma keeps_DelayedStartLauncher : keeps [] [] (DelayedStartLauncher).
Proof. unfold DelayedStartLauncher. keeps_run. Qed.
Hint Resolve keeps_DelayedStartLauncher : events.
Lemma keeps_DelayedResumeTimeout r : keeps [] [] (DelayedResumeTimeout r).
Proof. unfold DelayedResumeTimeout. keeps_run. Qed.
Hint Resolve keeps_DelayedResumeTimeout : events.
Lemma keeps_DelayCompleteTerminate r : keeps [] [] (DelayCompleteTerminate r).
Proof. unfold DelayCompleteTerminate. keeps_run. Qed.
Hint Resolve keeps_DelayCompleteTerminate : events.
Lemma keeps_MoveToBackgroundTask r c : keeps [] [] (MoveToBackgroundTask E r c).
Proof. unfold MoveToBackgroundTask. keeps_run. Qed.
Hint Resolve keeps_MoveToBackgroundTask : events.
Lemma keeps_TerminatePreviousAbility r : keeps [] [] (TerminatePreviousAbility E r).
Proof. unfold TerminatePreviousAbility. keeps_run. Qed.
Hint Resolve keeps_TerminatePreviousAbility : events.
Lemma keeps_CreateAbilityRecord q : keeps [] [] (CreateAbilityRecord E q).
Proof.
  unfold CreateAbilityRecord. do 2 (apply keeps_bind; [eauto with events|intros ?]).
  apply keeps_bind; [|intros ?; eauto with events]. intros w y w' HE [= <- <-].
  apply (Ev_same [] [] w); [|done|done]. cbn. intros r z. rewrite lookup_insert. case_decide; [|eauto].
  intros [= <-]. by left.
Qed.
Hint Resolve keeps_CreateAbilityRecord : events.

(** ** Operations *)

Lemma keeps_NewMissionList : keeps [] [] (NewMissionList).
Proof. unfold NewMissionList. keeps_run. Qed.
Hint Resolve keeps_NewMissionList : events.
Lemma keeps_AddToTop l a : keeps [] [] (AddToTop l a).
Proof.
  intros w x w' HE. unfold AddToTop, the_list, load, lift, modify, mbind, M_bind.
  destruct (lists_ w !! l) as [ml|]; [|done]. cbn. unfold AddMissionToTop.
  destruct (bool_decide _); cbn; [intros [= <- <-]; by apply (Ev_same [] [] w); [eauto|..]|].
  destruct (missionHeap (store_ w) !! a); [|done]. cbn. intros [= <- <-]. by apply (Ev_same [] [] w); [eauto|..].
Qed.
Hint Resolve keeps_AddToTop : events.
Lemma keeps_RemoveFrom l a : keeps [] [] (RemoveFrom l a).
Proof. unfold RemoveFrom. keeps_run. Qed.
Hint Resolve keeps_RemoveFrom : events.
Lemma keeps_RemoveByRecord l r : keeps [] [] (RemoveByRecord l r).
Proof. unfold RemoveByRecord. keeps_run. Qed.
Hint Resolve keeps_RemoveByRecord : events.
Lemma keeps_is_empty l : keeps [] [] (is_empty l).
Proof. unfold is_empty. keeps_run. Qed.
Hint Resolve keeps_is_empty : events.
Lemma keeps_RemoveMissionList l : keeps [] [] (RemoveMissionList l).
Proof. unfold RemoveMissionList. keeps_run. Qed.
Hint Resolve keeps_RemoveMissionList : events.
Lemma keeps_RemoveAllOf l : keeps [] [] (RemoveAllOf l).
Proof. unfold RemoveAllOf. keeps_run. Qed.
Hint Resolve keeps_RemoveAllOf : events.
Lemma keeps_MoveMissionListToTop l : keeps [] [] (MoveMissionListToTop l).
Proof. apply keeps_modify; intros w; by case_match. Qed.
Hint Resolve keeps_MoveMissionListToTop : events.
Lemma keeps_AddToDefault a : keeps [] [] (AddToDefault a).
Proof. unfold AddToDefault. keeps_run. Qed.
Hint Resolve keeps_AddToDefault : events.
Lemma keeps_pop_above fuel l a : keeps [] [] (pop_above fuel l a).
Proof. induction fuel as [|fuel IH]; cbn [pop_above]; keeps_run. Qed.
Hint Resolve keeps_pop_above : events.
Lemma keeps_MoveNoneTopMissionToDefaultList a : keeps [] [] (MoveNoneTopMissionToDefaultList a).
Proof. unfold MoveNoneTopMissionToDefaultList. keeps_run. Qed.
Hint Resolve keeps_MoveNoneTopMissionToDefaultList : events.
Lemma keeps_MoveMissionToTargetList c l a : keeps [] [] (MoveMissionToTargetList c l a).
Proof. unfold MoveMissionToTargetList. keeps_run. Qed.
Hint Resolve keeps_MoveMissionToTargetList : events.
Lemma keeps_ChooseNextAbility r l c : keeps [] [] (ChooseNextAbility r l c).
Proof. unfold ChooseNextAbility. keeps_run. Qed.
Hint Resolve keeps_ChooseNextAbility : events.
Lemma keeps_RemoveBackgroundingAbility r : keeps [] [] (RemoveBackgroundingAbility r).
Proof. unfold RemoveBackgroundingAbility. keeps_run. Qed.
Hint Resolve keeps_RemoveBackgroundingAbility : events.
Lemma keeps_RemoveTerminatingAbility r c : keeps [] [] (RemoveTerminatingAbility r c).
Proof. unfold RemoveTerminatingAbility. keeps_run. Qed.
Hint Resolve keeps_RemoveTerminatingAbility : events.
Lemma keeps_TerminateAbilityLocked r c : keeps [] [] (TerminateAbilityLocked E r c).
Proof.
  unfold TerminateAbilityLocked. do 2 (apply keeps_bind; [eauto with events|intros ?]).
  apply triple_read. clear. intros x. destruct (IsForeground x).
  { eapply triple_pre; [by intros w [H _]; exact H|]. apply keeps_triple. keeps_run. }
  eapply triple_bind with (Q := λ _, Ev [] []); [|intros ?; apply keeps_mret].
  unfold when. destruct (in_state BACKGROUND x) eqn:Es.
  - eapply triple_pre; [|apply Terminate_after]. intros w H. by eapply read_background.
  - eapply triple_pre; [|apply (keeps_mret [] [])]. by intros w [? _].
Qed.
Hint Resolve keeps_TerminateAbilityLocked : events.
Lemma keeps_TerminateAbilityInner r code c : keeps [] [] (TerminateAbilityInner E r code c).
Proof. unfold TerminateAbilityInner. keeps_run. Qed.
Hint Resolve keeps_TerminateAbilityInner : events.
Lemma keeps_CheckLimit : keeps [] [] (CheckLimit E).
Proof. unfold CheckLimit. keeps_run. Qed.
Hint Resolve keeps_CheckLimit : events.
Lemma keeps_MoveAbilityToBackground r : keeps [] [] (MoveAbilityToBackground E r).
Proof. unfold MoveAbilityToBackground. keeps_run. Qed.
Hint Resolve keeps_MoveAbilityToBackground : events.
Lemma keeps_MinimizeAbility t c : keeps [] [] (MinimizeAbility E t c).
Proof. unfold MinimizeAbility, MinimizeAbilityLocked. keeps_run. Qed.
Hint Resolve keeps_MinimizeAbility : events.
Lemma keeps_EnqueueWaitingAbility q : keeps [] [] (EnqueueWaitingAbility q).
Proof. unfold EnqueueWaitingAbility. keeps_run. Qed.
Hint Resolve keeps_EnqueueWaitingAbility : events.
Lemma keeps_EnqueueWaitingAbilityToFront q : keeps [] [] (EnqueueWaitingAbilityToFront q).
Proof. unfold EnqueueWaitingAbilityToFront. keeps_run. Qed.
Hint Resolve keeps_EnqueueWaitingAbilityToFront : events.
Lemma keeps_GetTargetMissionListByLauncher q : keeps [] [] (GetTargetMissionListByLauncher q).
Proof. unfold GetTargetMissionListByLauncher. keeps_run. Qed.
Hint Resolve keeps_GetTargetMissionListByLauncher : events.
Lemma keeps_GetTargetMissionListByDefault r : keeps [] [] (GetTargetMissionListByDefault r).
Proof. unfold GetTargetMissionListByDefault. keeps_run. Qed.
Hint Resolve keeps_GetTargetMissionListByDefault : events.
Lemma keeps_GetTargetMissionList c q : keeps [] [] (GetTargetMissionList c q).
Proof. unfold GetTargetMissionList. keeps_run. Qed.
Hint Resolve keeps_GetTargetMissionList : events.
Lemma keeps_HandleReusedMissionAndAbility q : keeps [] [] (HandleReusedMissionAndAbility E q).
Proof. unfold HandleReusedMissionAndAbility. keeps_run. Qed.
Hint Resolve keeps_HandleReusedMissionAndAbility : events.
Lemma keeps_CreateMissionAndAbility q i : keeps [] [] (CreateMissionAndAbility E q i).
Proof. unfold CreateMissionAndAbility. keeps_run. Qed.
Hint Resolve keeps_CreateMissionAndAbility : events.
Lemma keeps_GetTargetMissionAndAbility q : keeps [] [] (GetTargetMissionAndAbility E q).
Proof. unfold GetTargetMissionAndAbility. keeps_run. Qed.
Hint Resolve keeps_GetTargetMissionAndAbility : events.
Lemma keeps_GetTargetMission q : keeps [] [] (GetTargetMission E q).
Proof. unfold GetTargetMission. keeps_run. Qed.
Hint Resolve keeps_GetTargetMission : events.
Lemma keeps_StartAbilityLocked t c q : keeps [] [] (StartAbilityLocked E t c q).
Proof. unfold StartAbilityLocked. keeps_run. Qed.
Hint Resolve keeps_StartAbilityLocked : events.
Lemma keeps_StartAbility_at t c q : keeps [] [] (StartAbility_at E t c q).
Proof. unfold StartAbility_at. keeps_run. Qed.
Hint Resolve keeps_StartAbility_at : events.
Lemma keeps_StartAbility q : keeps [] [] (StartAbility E q).
Proof. unfold StartAbility. keeps_run. Qed.
Hint Resolve keeps_StartAbility : events.
Lemma keeps_StartWaitingAbility : keeps [] [] (StartWaitingAbility E).
Proof. unfold StartWaitingAbility. keeps_run. Qed.
Hint Resolve keeps_StartWaitingAbility : events.

(** ** Steps *)

Lemma keeps_RestoreMission i : keeps [] [] (RestoreMission E i).
Proof. unfold RestoreMission. keeps_run. Qed.
Hint Resolve keeps_RestoreMission : events.
Lemma keeps_GetTargetMissionListById i : keeps [] [] (GetTargetMissionListById E i).
Proof. unfold GetTargetMissionListById. keeps_run. Qed.
Hint Resolve keeps_GetTargetMissionListById : events.
Lemma keeps_MoveMissionToFrontInner i c : keeps [] [] (MoveMissionToFrontInner E i c).
Proof. unfold MoveMissionToFrontInner. keeps_run. Qed.
Hint Resolve keeps_MoveMissionToFrontInner : events.
Lemma keeps_BackToCaller r : keeps [] [] (BackToCaller E r).
Proof. unfold BackToCaller. keeps_run. Qed.
Hint Resolve keeps_BackToCaller : events.
Lemma keeps_BackToLauncher : keeps [] [] (BackToLauncher E).
Proof. unfold BackToLauncher. keeps_run. Qed.
Hint Resolve keeps_BackToLauncher : events.
Lemma keeps_AttachAbilityThread t c pid : keeps [] [] (AttachAbilityThread E t c pid).
Proof. unfold AttachAbilityThread. keeps_run. Qed.
Hint Resolve keeps_AttachAbilityThread : events.
Lemma keeps_OnAbilityRequestDone t : keeps [] [] (OnAbilityRequestDone t).
Proof. unfold OnAbilityRequestDone. keeps_run. Qed.
Hint Resolve keeps_OnAbilityRequestDone : events.
Lemma keeps_DispatchForeground r c st : keeps [] [] (DispatchForeground r c st).
Proof. unfold DispatchForeground. keeps_run. Qed.
Hint Resolve keeps_DispatchForeground : events.
Lemma keeps_DispatchBackground r : keeps [] [] (DispatchBackground r).
Proof. unfold DispatchBackground. keeps_run. Qed.
Hint Resolve keeps_DispatchBackground : events.
Lemma keeps_DispatchTerminate r : keeps [] [] (DispatchTerminate r).
Proof. unfold DispatchTerminate. keeps_run. Qed.
Hint Resolve keeps_DispatchTerminate : events.
Lemma keeps_AbilityTransactionDone t st : keeps [] [] (AbilityTransactionDone t st).
Proof. unfold AbilityTransactionDone, DispatchState. keeps_run. Qed.
Hint Resolve keeps_AbilityTransactionDone : events.
Lemma keeps_CompleteForegroundSuccess r : keeps [] [] (CompleteForegroundSuccess E r).
Proof. unfold CompleteForegroundSuccess. keeps_run. Qed.
Hint Resolve keeps_CompleteForegroundSuccess : events.
Lemma keeps_TerminateIfBackground r : keeps [] [] (TerminateIfBackground r).
Proof. unfold TerminateIfBackground. keeps_run. Qed.
Hint Resolve keeps_TerminateIfBackground : events.
Lemma keeps_CompleteBackground r : keeps [] [] (CompleteBackground r).
Proof. unfold CompleteBackground. keeps_run. Qed.
Hint Resolve keeps_CompleteBackground : events.
Lemma keeps_CompleteTerminateAndUpdateMission r : keeps [] [] (CompleteTerminateAndUpdateMission r).
Proof. unfold CompleteTerminateAndUpdateMission. keeps_run. Qed.
Hint Resolve keeps_CompleteTerminateAndUpdateMission : events.
Lemma keeps_CompleteTerminate r : keeps [] [] (CompleteTerminate E r).
Proof.
  unfold CompleteTerminate. apply triple_read. intros x. destruct (in_state TERMINATING x) eqn:Es; cbn [negb].
  2:{ eapply triple_pre; [|apply (keeps_mret [] [])]. by intros w [? _]. }
  unfold in_state in Es. apply bool_decide_eq_true in Es.
  eapply triple_bind with (Q := λ _, Ev [] []); [|intros ?; apply keeps_triple; keeps_run].
  eapply triple_pre with (P' := Ev [AppTerminateAbility r] [ScheduleTerminate r true]).
  - intros w [HE Hx]. apply Ev_more, Ev_past; [|done]. destruct HE as [H1 _ _].
    destruct (H1 r x (ScheduleTerminate r true) Hx) as [?|?%not_elem_of_nil]; [by rewrite Es|done..].
  - intros w y w' HE Hr. eapply Ev_less, (triple_emit_due [] [] (AppTerminateAbility r)); [|exact HE|exact Hr]. by intros k [= <-].
Qed.
Hint Resolve keeps_CompleteTerminate : events.
Lemma keeps_MoveToTerminateList r : keeps [] [] (MoveToTerminateList r).
Proof. unfold MoveToTerminateList. keeps_run. Qed.
Hint Resolve keeps_MoveToTerminateList : events.
Lemma keeps_HandleTimeoutAndResumeAbility r st : keeps [] [] (HandleTimeoutAndResumeAbility r st).
Proof. unfold HandleTimeoutAndResumeAbility. keeps_run. Qed.
Hint Resolve keeps_HandleTimeoutAndResumeAbility : events.
Lemma keeps_HandleLoadTimeout r : keeps [] [] (HandleLoadTimeout r).
Proof. unfold HandleLoadTimeout. keeps_run. Qed.
Hint Resolve keeps_HandleLoadTimeout : events.
Lemma keeps_HandleForegroundTimeout r st : keeps [] [] (HandleForegroundTimeout r st).
Proof. unfold HandleForegroundTimeout. keeps_run. Qed.
Hint Resolve keeps_HandleForegroundTimeout : events.
Lemma keeps_CompleteForegroundFailed r st : keeps [] [] (CompleteForegroundFailed E r st).
Proof. unfold CompleteForegroundFailed. keeps_run. Qed.
Hint Resolve keeps_CompleteForegroundFailed : events.
Lemma keeps_OnTimeOut msg i c : keeps [] [] (OnTimeOut msg i c).
Proof. unfold OnTimeOut. keeps_run. Qed.
Hint Resolve keeps_OnTimeOut : events.
Lemma keeps_HandleLauncherDied r : keeps [] [] (HandleLauncherDied r).
Proof. unfold HandleLauncherDied. keeps_run. Qed.
Hint Resolve keeps_HandleLauncherDied : events.
Lemma keeps_HandleAbilityDiedByDefault r : keeps [] [] (HandleAbilityDiedByDefault r).
Proof. unfold HandleAbilityDiedByDefault. keeps_run. Qed.
Hint Resolve keeps_HandleAbilityDiedByDefault : events.
Lemma keeps_HandleAbilityDied r : keeps [] [] (HandleAbilityDied r).
Proof. unfold HandleAbilityDied. keeps_run. Qed.
Hint Resolve keeps_HandleAbilityDied : events.
Lemma keeps_OnAbilityDied r : keeps [] [] (OnAbilityDied E r).
Proof. unfold OnAbilityDied. keeps_run. Qed.
Hint Resolve keeps_OnAbilityDied : events.
Lemma keeps_ClearMissionLocked i o : keeps [] [] (ClearMissionLocked E i o).
Proof. unfold ClearMissionLocked. keeps_run. Qed.
Hint Resolve keeps_ClearMissionLocked : events.
Lemma keeps_PrepareClearMissionLocked i a : keeps [] [] (PrepareClearMissionLocked E i a).
Proof. unfold PrepareClearMissionLocked, PrepareTerminateAbility. keeps_run. Qed.
Hint Resolve keeps_PrepareClearMissionLocked : events.
Lemma keeps_CheckPrepareTerminateEnable o : keeps [] [] (CheckPrepareTerminateEnable E o).
Proof. unfold CheckPrepareTerminateEnable. keeps_run. Qed.
Hint Resolve keeps_CheckPrepareTerminateEnable : events.
Lemma keeps_ClearMission i : keeps [] [] (ClearMission E i).
Proof. unfold ClearMission. keeps_run. Qed.
Hint Resolve keeps_ClearMission : events.
Lemma keeps_ClearAllMissionsLocked ps fg c : keeps [] [] (ClearAllMissionsLocked E ps fg c).
Proof. revert fg. induction ps as [|[a|] ps IH]; intros fg; cbn [ClearAllMissionsLocked]; keeps_run. Qed.
Hint Resolve keeps_ClearAllMissionsLocked : events.
Lemma keeps_clear_lists ls fg : keeps [] [] (clear_lists E ls fg).
Proof. revert fg. induction ls as [|l ls IH]; intros fg; cbn [clear_lists]; keeps_run. Qed.
Hint Resolve keeps_clear_lists : events.
Lemma keeps_destroyed i (xs : list Z) :
  keeps [] [] (modify (λ w, w <| infos_ := i |> <| events_ ::= (λ es, es ++ (MissionDestroyed <$> xs)) |>)).
Proof.
  intros w y w' [H1 H2 H3] [= <- <-]. unfold past in *. split; cbn; rewrite fmap_app.
  - intros r x e Hx Ht. destruct (H1 r x e Hx Ht); [left; apply elem_of_app; by left|by right].
  - apply ordered_app_free; [done|]. by intros e (? & -> & (k & -> & _)%list_elem_of_fmap)%list_elem_of_fmap.
  - intros e He. apply elem_of_app. left. auto.
Qed.
Hint Resolve keeps_destroyed : events.
Lemma keeps_ClearAllMissions : keeps [] [] (ClearAllMissions E).
Proof. unfold ClearAllMissions. keeps_run. Qed.
Hint Resolve keeps_ClearAllMissions : events.
Lemma keeps_SetMissionLockedState i c : keeps [] [] (SetMissionLockedState i c).
Proof. unfold SetMissionLockedState. keeps_run. Qed.
Hint Resolve keeps_SetMissionLockedState : events.
Lemma keeps_ResolveAbility r : keeps [] [] (ResolveAbility E r).
Proof. unfold ResolveAbility. keeps_run. Qed.
Hint Resolve keeps_ResolveAbility : events.
Lemma keeps_CallAbilityLocked q : keeps [] [] (CallAbilityLocked E q).
Proof. unfold CallAbilityLocked. keeps_run. Qed.
Hint Resolve keeps_CallAbilityLocked : events.
Lemma keeps_OnAcceptWantResponse n bn f : keeps [] [] (OnAcceptWantResponse E n bn f).
Proof. unfold OnAcceptWantResponse. keeps_run. Qed.
Hint Resolve keeps_OnAcceptWantResponse : events.
Lemma keeps_OnStartSpecifiedAbilityTimeoutResponse : keeps [] [] (OnStartSpecifiedAbilityTimeoutResponse E).
Proof. unfold OnStartSpecifiedAbilityTimeoutResponse. keeps_run. Qed.
Hint Resolve keeps_OnStartSpecifiedAbilityTimeoutResponse : events.

(** Marking a record does not change its state. *)
Definition same_states (s s' : MissionList.Store) : Prop :=
  ∀ r x, recordHeap s' !! r = Some x → ∃ y, recordHeap s !! r = Some y ∧ currentState_ x = currentState_ y.

#[local] Instance same_states_preorder : PreOrder same_states.
Proof.
  split; [intros s r x Hx; eauto|]. intros s1 s2 s3 H1 H2 r x Hx.
  destruct (H2 r x Hx) as (y & Hy & ->). by apply H1.
Qed.

Lemma same_states_set s r x y :
  recordHeap s !! r = Some x → currentState_ y = currentState_ x → same_states s (set_record s r y).
Proof. intros Hx Hs q z. cbn. rewrite lookup_insert. case_decide; [|eauto]. subst q. intros [= <-]. eauto. Qed.

Lemma uninstall_loop_states s ps name id : same_states s (uninstall_loop s ps name id).1.
Proof.
  revert s. induction ps as [|p ps IH]; intros s; cbn [uninstall_loop]; [done|].
  assert (same_states s (MatchedInitialMission s p name id).2) as Hm.
  { unfold MatchedInitialMission. destruct (mission_at s p) as [m|]; [|done].
    destruct (GetAbilityRecord m) as [a|]; [|done]. cbn. destruct (recordHeap s !! a) as [x|] eqn:Ex; [|done].
    cbn. case_match; [|done]. by eapply same_states_set. }
  destruct (MatchedInitialMission s p name id) as [matched s1]. specialize (IH s1).
  destruct (uninstall_loop s1 ps name id) as [s2 rest]. cbn in *. by etrans.
Qed.

Lemma keeps_uninstall_list name id l : keeps [] [] (uninstall_list name id l).
Proof.
  intros w x w' HE. unfold uninstall_list, the_list, load, gets, modify, mbind, M_bind.
  destruct (lists_ w !! l) as [ml|]; [|done]. cbn. intros [= <- <-].
  apply (Ev_same [] [] w); [|done|done]. cbn. unfold HandleUnInstallApp. intros r y Hy. right.
  pose proof (uninstall_loop_states (store_ w) (missions_ ml) name id) as Hs.
  destruct (uninstall_loop _ _ _ _) as [s' ps]. by apply Hs.
Qed.
Hint Resolve keeps_uninstall_list : events.

Lemma SignRestartAppFlag_states s ml name : same_states s (MissionList.SignRestartAppFlag s ml name).
Proof.
  unfold MissionList.SignRestartAppFlag. revert s. induction (missions_ ml) as [|p ps IH]; intros s; [done|].
  cbn [fold_left]. etrans; [|apply IH]. unfold sign_restart. destruct (mission_at s p) as [m|]; [|done].
  destruct (GetAbilityRecord m) as [a|]; [|done]. cbn. destruct (recordHeap s !! a) as [x|] eqn:Ex; [|done].
  cbn. case_match; [done|]. by eapply same_states_set.
Qed.

Lemma keeps_SignRestartAppFlag name : keeps [] [] (SignRestartAppFlag name).
Proof.
  intros w y w' HE [= <- <-]. apply (Ev_same [] [] w); [|done|done]. cbn. intros r x Hx. right. revert r x Hx.
  change (same_states (store_ w) (fold_left (λ s ml, MissionList.SignRestartAppFlag s ml name) (counted_lists w) (store_ w))).
  generalize (store_ w). induction (counted_lists w) as [|ml mls IH]; intros s; [done|]. cbn [fold_left].
  etrans; [apply SignRestartAppFlag_states|apply IH].
Qed.
Hint Resolve keeps_SignRestartAppFlag : events.

Lemma keeps_AddUninstallTags name id : keeps [] [] (AddUninstallTags name id).
Proof. unfold AddUninstallTags, EraseWaitingAbility. keeps_run. Qed.
Hint Resolve keeps_AddUninstallTags : events.
Lemma keeps_PauseManager : keeps [] [] (PauseManager E).
Proof. unfold PauseManager. keeps_run. Qed.
Hint Resolve keeps_PauseManager : events.
Lemma keeps_DoAbilityForeground r : keeps [] [] (DoAbilityForeground E r).
Proof. unfold DoAbilityForeground. keeps_run. Qed.
Hint Resolve keeps_DoAbilityForeground : events.
Lemma keeps_NotifyMissionCreated r : keeps [] [] (NotifyMissionCreated r).
Proof. unfold NotifyMissionCreated, PostMissionLabelUpdateTask. keeps_run. Qed.
Hint Resolve keeps_NotifyMissionCreated : events.
Lemma keeps_SetMissionLabel t lb : keeps [] [] (SetMissionLabel t lb).
Proof. unfold SetMissionLabel. keeps_run. Qed.
Hint Resolve keeps_SetMissionLabel : events.
Lemma keeps_SetMissionANRStateByToken t : keeps [] [] (SetMissionANRStateByToken t).
Proof. unfold SetMissionANRStateByToken. keeps_run. Qed.
Hint Resolve keeps_SetMissionANRStateByToken : events.
Lemma keeps_EnableRecoverAbility i : keeps [] [] (EnableRecoverAbility i).
Proof. unfold EnableRecoverAbility. keeps_run. Qed.
Hint Resolve keeps_EnableRecoverAbility : events.

Lemma keeps_run_task t : keeps [] [] (run_task E t).
Proof. destruct t; cbn [run_task]; keeps_run. Qed.
Hint Resolve keeps_run_task : events.
Lemma keeps_run_op op : keeps [] [] (run_op E op).
Proof. destruct op; cbn [run_op]; keeps_run. Qed.

Lemma step_Ev op w w' : Ev [] [] w → step E op w = Ret w' → Ev [] [] w'.
Proof.
  intros HE. unfold step. destruct (run_op E op _) as [[x w1]|] eqn:Er; [|done]. cbn. intros [= <-].
  assert (Ev [] [] w1) as H1 by (eapply keeps_run_op; [|exact Er]; by apply (Ev_same [] [] w); [eauto|..]).
  by apply (Ev_same [] [] w1); [eauto|..].
Qed.
End Lifecycle.

Section Protocol.
Context {WL : WantLib} {MS : MissionStore}.

(** A sequence of operations, each with the answers of the rest of the system. *)
Fixpoint run_ops (ops : list (Env * Op)) (w : Manager) : outcome Manager :=
  match ops with
  | [] => Ret w
  | (E, op) :: ops => let* w := step E op w in run_ops ops w
  end.

Lemma run_ops_Ev ops w w' : Ev [] [] w → run_ops ops w = Ret w' → Ev [] [] w'.
Proof.
  revert w. induction ops as [|[E op] ops IH]; intros w HE; cbn [run_ops]; [by intros [= <-]|].
  destruct (step E op w) as [w1|] eqn:Es; [|done]. cbn. apply IH. by eapply step_Ev.
Qed.

Lemma Init_Ev userId prepareEnabled infos : Ev [] [] (Init userId prepareEnabled infos).
Proof. by split; [|intros i e n Hi|]. Qed.

(** C29: the end of an ability is in order. After any operations on a manager that was just
    created, whatever the rest of the system answers, each time the application manager was
    asked to terminate an ability, the ability had been asked before to terminate, a request
    that is sent to its application if one is attached, and before that it had been moved to
    the background. *)
Theorem terminate_in_order userId prepareEnabled infos ops w i r :
  run_ops ops (Init userId prepareEnabled infos) = Ret w →
  events_ w !! i = Some (AppTerminateAbility r) →
  ∃ j k sent, (j < k)%nat ∧ (k < i)%nat ∧ events_ w !! j = Some (AppMoveToBackground r) ∧
    events_ w !! k = Some (ScheduleTerminate r sent).
Proof.
  intros Hr Hi. pose proof (run_ops_Ev ops _ w (Init_Ev _ _ _) Hr) as [_ Ho _].
  destruct (Ho i (AppTerminateAbility r) (ScheduleTerminate r true)) as (k & Hk & Ek); [unfold past; by rewrite list_lookup_fmap, Hi|done|].
  destruct (Ho k _ _ Ek eq_refl) as (j & Hj & Ej).
  apply list_lookup_fmap_Some in Ek as (ek & Ek & Hek), Ej as (ej & Ej & Hej).
  destruct ek, ej; try done. simplify_eq/=. by eexists _, _, _.
Qed.
End Protocol.
