(* ===== verification/MissionSamples.v ===== *)
(** * The mission list manager: runs

    The conditions of [steady] as functions, so that runs can be checked by evaluation;
    runs of the manager on a sample system that show its theorems at work; and runs that
    show what happens where the conditions do not hold. *)

From stdpp Require Import prelude gmap strings list sorting pretty.
From Stdlib Require Import ZArith Lia.
From S2P Require Import Prelude MissionInfo MissionInfoMgr MissionList MissionManager MissionLifecycle.
From S2P Require Import MissionOps MissionSteps MissionInvariant MissionPlaces MissionKeeps MissionRuns.
From S2P Require Import MissionTheorems MissionEvents.

Local Open Scope Z_scope.

Section Check.
Context {WL : WantLib} {MS : MissionStore}.
Implicit Types (w : Manager) (r a b l : Z).

Definition in_launcher_list w a : bool := bool_decide (Some a ∈ listed_missions w (launcherList_ w)).

Lemma in_launcher_list_spec w a : in_launcher_list w a = true → in_list w (launcherList_ w) a.
Proof.
  unfold in_launcher_list, listed_missions. intros H%bool_decide_eq_true.
  destruct (lists_ w !! launcherList_ w) as [ml|] eqn:El; [by exists ml|by apply not_elem_of_nil in H].
Qed.

Definition check_request w (q : AbilityRequest) : bool :=
  negb (isLauncherApp (req_traits q)) ||
  match GetReusedMission w q with None => true | Some a => in_launcher_list w a end.

Lemma check_request_spec w q : check_request w q = true → request_ok w q.
Proof.
  unfold check_request. intros H Hl a Ha. rewrite Hl, Ha in H. by apply in_launcher_list_spec.
Qed.

Definition check_top w r : bool :=
  match recordHeap (store_ w) !! r ≫= λ x, GetMissionById w (recordMissionId_ (life_ x)) ≫= λ a,
        missionHeap (store_ w) !! a ≫= owner_of w with
  | None => true
  | Some l => bool_decide ((top_of w l ≫= λ t, missionHeap (store_ w) !! t ≫= abilityRecord_) = Some r)
  end.

Lemma check_top_spec w r : check_top w r = true → top_ok w r.
Proof.
  unfold check_top. intros H x a m l Hx Ha Hm Ho. rewrite Hx in H. cbn in H. rewrite Ha in H. cbn in H.
  rewrite Hm in H. cbn in H. rewrite Ho in H. apply bool_decide_eq_true in H.
  destruct (top_of w l) as [t|] eqn:Et; [|done]. cbn in H.
  destruct (missionHeap (store_ w) !! t) as [n|] eqn:En; [|done]. by exists t, n.
Qed.

Definition check_back w : bool :=
  match (lists_ w !! launcherList_ w ≫= GetLauncherRoot (store_ w)) ≫= λ r,
        recordHeap (store_ w) !! r ≫= λ x, GetMissionById w (recordMissionId_ (life_ x)) with
  | None => true
  | Some a => in_launcher_list w a
  end.

Lemma check_back_spec w : check_back w = true → back_ok w.
Proof.
  unfold check_back. intros H r x a Hr Hx Ha. rewrite Hr in H. cbn in H. rewrite Hx in H. cbn in H.
  rewrite Ha in H. by apply in_launcher_list_spec.
Qed.

Definition check_steady w (op : Op) : bool :=
  match op with
  | OpStartAbility q => check_request w q
  | OpMoveAbilityToBackground r => check_top w r
  | OpAcceptWantResponse _ _ flag =>
      match waitingAbilityQueue_ w with q :: _ => check_request w (q <| req_specifiedFlag := flag |>) | [] => true end
  | OpStartSpecifiedTimeout =>
      match waitingAbilityQueue_ w with _ :: q :: _ => check_request w q | _ => true end
  | OpResumeManager => check_back w
  | OpRunTask i =>
      match tasks_ w !! i with
      | Some TStartWaiting => match waitingAbilityQueue_ w with q :: _ => check_request w q | [] => true end
      | Some TBackToLauncher => check_back w
      | _ => true
      end
  | _ => true
  end.

Lemma check_steady_spec w op : check_steady w op = true → steady w op.
Proof.
  destruct op; cbn; auto using check_request_spec, check_top_spec, check_back_spec.
  - destruct (waitingAbilityQueue_ w); auto using check_request_spec.
  - destruct (waitingAbilityQueue_ w) as [|? []]; auto using check_request_spec.
  - destruct (tasks_ w !! i) as [[]|]; auto using check_back_spec. unfold head_ok.
    destruct (waitingAbilityQueue_ w); auto using check_request_spec.
Qed.

Definition check_op w (op : Op) : bool := bool_decide (enabled w op) && check_steady w op.

(** A run whose operations are all allowed. *)
Fixpoint run_checked (E : Env) (ops : list Op) w : option Manager :=
  match ops with
  | [] => Some w
  | op :: ops =>
    if check_op w op
    then match step E op w with Ret w => run_checked E ops w | Undef => None end
    else None
  end.

Lemma run_checked_reaches E ops w w' : reaches_steadily w → run_checked E ops w = Some w' → reaches_steadily w'.
Proof.
  revert w. induction ops as [|op ops IH]; intros w Hr; cbn [run_checked]; [by intros [= <-]|].
  destruct (check_op w op) eqn:Ec; [|done]. destruct (step E op w) as [w1|] eqn:Es; [|done].
  apply IH. apply andb_true_iff in Ec as [He%bool_decide_eq_true Hs%check_steady_spec].
  by eapply reach_step.
Qed.
End Check.

Module Samples.
Import SampleLibs SampleStore.
#[local] Existing Instance sample_want.
#[local] Existing Instance sample_store.

Definition sample_traits (launcher : bool) : AbilityTraits :=
  mkAbilityTraits PAGE launcher false false true 0 "app" false.

(** A request for the ability [name]; with [callType] 1, a call. *)
Definition request (name : string) (mode : LaunchMode) (launcher : bool) (callType : Z)
    (caller : option Z) : AbilityRequest :=
  mkAbilityRequest ("w" : string) ("w" : string) (sample_traits launcher) name
    (if launcher then LAUNCHER_BUNDLE_NAME else name) "m" mode name 100 true false "" name 100 (-1)
    false callType caller "" 0 0 (name, name) false false false.

Definition sample_env : Env :=
  mkEnv "5" false false (λ _, false) (λ _, None) (λ _, false) (λ _, false) 0 5 None OK_NO_REMOTE_OBJ false 100.

Definition start : Manager := Init 100 false (MissionInfoMgr.Init (Some ∅) MissionInfoMgr_new 100).2.

(** The application of the record [r] attaches and reports that it is in the foreground. *)
Definition comes_up (r : Z) : list Op :=
  [OpAttachAbilityThread (Some r) true 7; OpAbilityRequestDone (Some r);
   OpAbilityTransactionDone (Some r) FOREGROUND; OpRunTask 0; OpRunTask 0].

(** The launcher (record 4, mission 5) comes up. *)
Definition launcher_up : list Op :=
  OpStartAbility (request "L" SINGLETON true 0 None) :: comes_up 4.

(** Then an ability [A] (list 6, record 7, mission 8) started from it. *)
Definition two_up : list Op :=
  launcher_up ++ OpStartAbility (request "A" SINGLETON false 0 (Some 4)) :: comes_up 7.

(** [A] goes to the background and is terminated. *)
Definition goes_down : list Op :=
  [OpMinimizeAbility (Some 7) true; OpAbilityTransactionDone (Some 7) BACKGROUND; OpRunTask 0;
   OpTerminateAbility 7 0 true; OpAbilityTransactionDone (Some 7) INITIAL; OpRunTask 0].

Definition after (ops : list Op) : Manager := default start (run_checked sample_env ops start).

Lemma after_reaches ops :
  match run_checked sample_env ops start with Some _ => true | None => false end = true → reaches_steadily (after ops).
Proof.
  unfold after. destruct (run_checked _ _ _) as [w|] eqn:Hw; [intros _|done]. cbn.
  eapply run_checked_reaches; [|exact Hw]. by apply reach_init; eexists.
Qed.

(** The lists that hold a mission, and the numbers of the missions in lists. *)
Definition holders (w : Manager) (a : Z) : list Z :=
  (filter (λ p, Some a ∈ missions_ p.2) (map_to_list (lists_ w))).*1.
Definition numbers (w : Manager) : list Z :=
  (map_to_list (lists_ w)).*2 ≫= λ ml, missions_ ml ≫= λ p, option_list (missionId_ <$> mission_at (store_ w) p).

Fixpoint run (ops : list Op) (w : Manager) : outcome Manager :=
  match ops with
  | [] => Ret w
  | op :: ops => let* w := step sample_env op w in run ops w
  end.
Definition ask {A} (f : Manager → A) (o : outcome Manager) : option A :=
  match o with Ret w => Some (f w) | Undef => None end.

Lemma mission_places_witness :
  reaches_steadily (after two_up) ∧ ∃ w', step sample_env (OpTerminateAbility 7 0 true) (after two_up) = Ret w'.
Proof.
  assert (reaches_steadily (after two_up)) as Hr by (apply after_reaches; vm_compute; reflexivity).
  split; [exact Hr|]. destruct (mission_places (after two_up) Hr) as (_ & _ & _ & _ & _ & _ & H).
  apply H; [|exact I].
  apply (proj1 (bool_decide_eq_true (enabled (after two_up) _))). vm_compute. reflexivity.
Defined.

Lemma move_to_front_witness :
  ∃ w', step sample_env (OpMoveMissionToFront 2 true) (after (two_up ++ [OpResumeManager])) = Ret w' ∧
    ∃ t, head (currentMissionLists_ w') = Some t ∧ top_of w' t = Some 8.
Proof.
  destruct (move_to_front sample_env 2 true 8 6 (after (two_up ++ [OpResumeManager]))) as (w' & Hs & _ & H).
  - apply after_reaches. vm_compute. reflexivity.
  - vm_compute. reflexivity.
  - eexists. split; [vm_compute; reflexivity|]. left.
  - exists w'. split; [exact Hs|exact H].
Defined.

Lemma ability_death_witness :
  ∃ w', HandleAbilityDiedByDefault 7 (after two_up) = Ret (tt, w') ∧ ¬ in_list w' 6 8.
Proof.
  destruct (recordHeap (store_ (after two_up)) !! 7) as [x|] eqn:Ex; [|vm_compute in Ex; discriminate].
  pose proof Ex as Ex'. vm_compute in Ex'. injection Ex' as Ex'.
  destruct (ability_death 7 x 8 6 (after two_up)) as (w' & Hr & _ & Hin & _).
  - apply after_reaches. vm_compute. reflexivity.
  - exact Ex.
  - subst x. reflexivity.
  - subst x. vm_compute. reflexivity.
  - eexists. split; [vm_compute; reflexivity|]. left.
  - exists w'. split; [exact Hr|]. rewrite (Hin 6 8). intros [_ N]. by apply N.
Defined.

Lemma terminate_in_order_witness :
  match run_ops ((sample_env,.) <$> (two_up ++ goes_down)) start with
  | Undef => False
  | Ret w => ∃ j k sent, (j < k)%nat ∧ (k < 13)%nat ∧ events_ w !! j = Some (AppMoveToBackground 7) ∧
      events_ w !! k = Some (ScheduleTerminate 7 sent)
  end.
Proof.
  destruct (run_ops _ start) as [w|] eqn:Er; [|vm_compute in Er; discriminate].
  eapply (terminate_in_order 100 false _ ((sample_env,.) <$> (two_up ++ goes_down)) w 13 7); [exact Er|].
  vm_compute in Er. injection Er as <-. reflexivity.
Defined.

(** ** Where the conditions do not hold *)

(** An ability started by a call (record 6, mission 7, in the default list of singletons)
    that starts an ability which is still loading: its own mission is moved to a new list,
    and the start returns before the list is put in use. The mission is in no list any
    more. *)
Definition calls_C : list Op :=
  launcher_up ++ [OpCallAbility (request "C" SINGLETON false 1 None);
                  OpStartAbility (request "B" SINGLETON false 0 (Some 4))].

Example caller_lost :
  ask (λ w, holders w 7) (run calls_C start) = Some [3] ∧
  ask (λ w, holders w 7) (run (calls_C ++ [OpStartAbility (request "B" SINGLETON false 0 (Some 6))]) start) = Some [].
Proof. vm_compute. done. Qed.

(** An ability of the launcher that a call has put in the default list is put in the
    launcher list, too, when the launcher starts it. *)
Example in_two_lists :
  ask (λ w, holders w 7)
    (run (launcher_up ++ [OpCallAbility (request "M" SINGLETON true 1 None); OpAttachAbilityThread (Some 6) true 8;
       OpAbilityTransactionDone (Some 6) BACKGROUND; OpRunTask 0;
       OpStartAbility (request "M" SINGLETON true 0 (Some 4))]) start) = Some [3; 1].
Proof. vm_compute. reflexivity. Qed.

(** [MoveAbilityToBackground] of an ability below the top one (record 7, mission 8, below
    mission 10): the mission of the ability is in no list any more, and the one of the top
    ability is in two. *)
Example background_below_top :
  ask (λ w, (holders w 8, holders w 10))
    (run (two_up ++ OpStartAbility (request "B" SINGLETON false 0 (Some 7)) :: comes_up 9 ++
       [OpMoveAbilityToBackground 7]) start) = Some ([], [3; 6]).
Proof. vm_compute. reflexivity. Qed.

(** A singleton in the default list that starts itself gets a second mission with the
    number of the first. *)
Example second_singleton :
  ask numbers (run (launcher_up ++ [OpCallAbility (request "C" SINGLETON false 1 None);
    OpAttachAbilityThread (Some 6) true 8; OpStartAbility (request "C" SINGLETON false 0 (Some 6))]) start)
  = Some [2; 2; 1].
Proof. vm_compute. reflexivity. Qed.

(** Then the first record (6) dies: the mission that is found by its number is the second
    one (10, of record 9), which leaves its list, while its own (7) stays. Every operation
    of the run finds what it takes for granted. *)
Definition second_C : list Op :=
  launcher_up ++ [OpCallAbility (request "C" SINGLETON false 1 None);
    OpAttachAbilityThread (Some 6) true 8; OpStartAbility (request "C" SINGLETON false 0 (Some 6))].

Example death_takes_another :
  let held (w : Manager) (a : Z) := (holders w a, missionHeap (store_ w) !! a ≫= abilityRecord_) in
  (λ w, (held w 7, held w 10)) <$> run_checked sample_env second_C start =
    Some (([8], Some 6), ([8], Some 9)) ∧
  match HandleAbilityDiedByDefault 6 (after second_C) with
  | Ret (_, w') => (held w' 7, held w' 10) = (([8], Some 6), ([], Some 9))
  | Undef => False
  end.
Proof. vm_compute. done. Qed.

(** A specified ability whose application answers with the empty flag: the second start
    does not find the mission among those in lists and takes over its number. *)
Example second_specified :
  ask numbers (run (launcher_up ++ [OpStartAbility (request "S" SPECIFIED false 0 (Some 4));
    OpAcceptWantResponse "S" "S" ""; OpStartAbility (request "S" SPECIFIED false 0 (Some 4));
    OpAcceptWantResponse "S" "S" ""]) start) = Some [2; 2; 1].
Proof. vm_compute. reflexivity. Qed.

(** The application of the launcher dies. The launcher is brought back, but its record
    still counts as ready: the application manager is asked to move the ability of the
    dead application to the foreground, and is not asked to load it. *)
Example dead_launcher_not_loaded :
  ask events_ (run (launcher_up ++ [OpSchedulerDied 4; OpRunTask 0; OpRunTask 1; OpRunTask 0]) start) =
  Some [AppLoadAbility 4; AppMoveToForeground 4; ScheduleForeground 4; RevokeUri 4; AppMoveToForeground 4].
Proof. vm_compute. reflexivity. Qed.
End Samples.
